(* ===== verification/_CoqProject ===== *)
-Q . S2P
Prelude.v
Ctaes.v
AesSpec.v
CtaesBits.v
CtaesRefine.v
CtaesKey.v
CtaesCorrect.v
Words.v
Blake2b.v
Blake2Spec.v
Blake2bCorrect.v
Blake2bHash.v
SphBlake.v
SphBlakeCorrect.v
Sponge.v
Lyra2.v
SpongeCorrect.v
Lyra2Hash.v
Argon2.v
Argon2Core.v
Argon2Threads.v
Argon2Index.v
Argon2ThreadsCorrect.v
Argon2Init.v
Argon2Blocks.v
Serialize.v
SerializeCorrect.v
Merkle.v
MerkleCorrect.v
Arith256.v
Arith256Correct.v
Arith256Compact.v
Pow.v
PowCorrect.v
Mtp.v
MtpCorrect.v
MtpTheorems.v
BlockHeader.v
MtpBlock.v
CryptoCommon.v
ShaSpec.v
Sha256.v
Sha1.v
Ripemd160.v
ShaStream.v
ShaRounds.v
Hash.v
HashCorrect.v
SipHash.v
ConsensusMerkle.v
ConsensusMerkleCorrect.v
ConsensusMerkleTheorems.v
Chain.v
ChainCorrect.v
ChainActive.v
ChainTheorems.v
VersionBits.v
VersionBitsTheorems.v
Script.v
Interpreter.v
InterpreterCorrect.v
InterpreterTheorems.v
InterpreterSpend.v
SerializeVector.v
Transaction.v
TransactionTheorems.v
Coins.v
CoinsTheorems.v
TxVerify.v
TxVerifyTheorems.v
SignatureHash.v
ConnectBlock.v
ConnectBlockTheorems.v
Compressor.v
CompressorTheorems.v
CoinsDb.v
EvoDb.v
EvoDbTheorems.v
EvoDbIter.v
PartialMerkle.v
