(* ===== verification/Prelude.v ===== *)
(** * A verification of the consensus code of TecraCoin

    TecraCoin is a Bitcoin-like node (C and C++).  This library models the code
    that decides whether a block carries enough work, from the block ciphers
    and hash functions up to the header that is read from a file, and proves
    that mining and verification fit together.  It also models what stands
    around a header and its transactions: the hash functions and the Merkle root
    of a block, the index of blocks and the active chain, the activation of rule
    changes, the script machine that decides whether an output may be spent,
    transactions with their formats and signature hashes, the set of unspent
    outputs with its caches, and the checks that connect a block to it.

    ** The program and its parts

    A miner fills a block header and calls [mtp::hash] (crypto/MerkleTreeProof/
    mtp.cpp).  That function runs a variant of Argon2 (core.c, ref.c, thread.c),
    which fills 4 GB of memory with several threads, using BLAKE2b
    (blake2/blake2b.c); it builds a Merkle tree (merkle-tree.cpp) over the
    memory and searches for a nonce such that a chain of hashes over 16 blocks
    of the memory meets the target, a compact 256-bit number
    (arith_uint256.cpp).  The proof, the opened blocks with their Merkle paths,
    is stored in the header, serialized (primitives/block.h, serialize.h) and
    checked by [mtp::verify] through [CheckMerkleTreeProof] (pow.cpp).  The
    target of the next block comes from [DarkGravityWave] (pow.cpp).  Blocks
    from before the switch to MTP, and the identifier of every block, use
    Lyra2Z (crypto/Lyra2Z): BLAKE-256 and Lyra2.  The wallet encrypts its keys
    with the AES of crypto/ctaes.

    An accepted header enters the block index ([AddToBlockIndex] of
    validation.cpp): a tree of CBlockIndex entries with skip pointers, one path
    of which is the active chain (chain.h, chain.cpp).  Miners vote on rule
    changes with bits of the version, counted over the index (versionbits.cpp).
    The transactions of a block are bound to its header by a Merkle root of
    double SHA-256 (consensus/merkle.cpp, hash.h, crypto/sha256.cpp), and each
    of their inputs must satisfy the script of the output that it spends
    (script/script.h, script/interpreter.cpp).  Light clients get partial Merkle
    trees (merkleblock.cpp).

    A transaction (primitives/transaction.h) moves value from unspent outputs to
    new ones.  The set of unspent outputs is a database under a stack of caches
    (coins.h, coins.cpp, txdb.cpp).  [CheckTransaction] tests a transaction by
    itself, [CheckTxInputs] and [SequenceLocks] against the set and the chain;
    [ConnectBlock] runs these and the scripts for every transaction of a block,
    updates the set, and compares the coinbase with the fees and the subsidy;
    [DisconnectBlock] takes a block back with its undo data (all in
    validation.cpp).  A signature signs a hash of parts of the transaction
    ([SignatureHash] of script/interpreter.cpp).  Coins and undo data are stored
    in a compact format (compressor.cpp, undo.h), the coins in an obfuscated
    key-value store (dbwrapper.h, txdb.cpp); the masternode lists are kept in
    another one, under two nested transactions (evo/evodb.h).

    ** Files

    - Prelude: words, arrays, tactics, lemmas on lists and integers;
    - Ctaes (model of ctaes.c), AesSpec (FIPS-197), CtaesBits, CtaesRefine,
      CtaesKey, CtaesCorrect (theorems);
    - Words: loads and stores of blake2-impl.h, in both byte-order branches;
    - Blake2b (blake2b.c), Blake2Spec (RFC 7693 and the variable-length hash of
      RFC 9106), Blake2bCorrect, Blake2bHash (theorems);
    - SphBlake (blake.c, sph_types.h), SphBlakeCorrect;
    - Sponge (Sponge.c), Lyra2 (Lyra2.c, Lyra2Z.c), SpongeCorrect, Lyra2Hash;
    - Argon2 (data and filling: core.h, argon2.h, ref.c, ref.h,
      blamka-round-ref.h, [index_alpha] and the single-threaded filling of
      core.c), Argon2Core (validation, allocation, initialization and
      finalization of core.c), Argon2Threads (the multi-threaded filling);
      Argon2Index, Argon2ThreadsCorrect, Argon2Init, Argon2Blocks
      (theorems);
    - Serialize (serialize.h, streams.h), SerializeCorrect;
    - Merkle (merkle-tree.cpp), MerkleCorrect;
    - Arith256 (arith_uint256.h and .cpp), Arith256Correct,
      Arith256Compact;
    - Pow (pow.cpp), PowCorrect;
    - Mtp (mtp.cpp), MtpCorrect, MtpTheorems;
    - BlockHeader (primitives/block.h and block.cpp, the header checks of
      validation.cpp, [mtp::hash] and [mtp::verify]), MtpBlock (theorems);
    - CryptoCommon (crypto/common.h and the streaming shared by the hashers),
      Sha256, Sha1, Ripemd160 (crypto/*.cpp), Hash (hash.h, hmac_sha256.cpp),
      SipHash (hash.cpp); ShaSpec (FIPS 180-4 and RIPEMD-160), ShaStream,
      ShaRounds, HashCorrect (theorems);
    - ConsensusMerkle (consensus/merkle.cpp), ConsensusMerkleCorrect,
      ConsensusMerkleTheorems;
    - PartialMerkle (merkleblock.h, merkleblock.cpp, with its theorem);
    - Chain (chain.cpp, chain.h, [AddToBlockIndex]), ChainCorrect, ChainActive,
      ChainTheorems;
    - VersionBits (versionbits.cpp), VersionBitsTheorems;
    - Script (script/script.h and script.cpp), Interpreter
      (script/interpreter.cpp), InterpreterCorrect, InterpreterTheorems,
      InterpreterSpend;
    - SerializeVector (the vectors of serialize.h), Transaction
      (primitives/transaction.h and .cpp, amount.h), TransactionTheorems;
    - Coins (coins.h, coins.cpp, the database view of txdb.cpp, [UpdateCoins]
      and the undo of validation.cpp), CoinsTheorems;
    - TxVerify (the transaction checks, lock times, signature operation counts
      and rewards of validation.cpp, consensus/validation.h), TxVerifyTheorems;
    - SignatureHash (the signature hashes of script/interpreter.cpp, with their
      theorems);
    - ConnectBlock ([CheckInputs] and the transaction loop of [ConnectBlock] in
      validation.cpp), ConnectBlockTheorems;
    - Compressor (compressor.h and .cpp, the serialization of coins.h, undo.h,
      the undo files of validation.cpp), CompressorTheorems;
    - CoinsDb (CDBWrapper and CDBBatch of dbwrapper.h and .cpp, the coin database
      of txdb.cpp, with its theorem);
    - EvoDb (the transactions and iterators of dbwrapper.h, evo/evodb.h and .cpp),
      EvoDbTheorems, EvoDbIter.

    ** Correspondence

    A C struct is a record, an enumeration an inductive type, a function a
    definition of the same name.  Unsigned integers are [Z] with [wrap] after
    each operation that can leave the range; bytes are [Z] below 256; an array
    is a list, and a pointer that may be null an option.  Error codes are
    values, exceptions and failed assertions a sum or an option.  Loops are
    folds over their index range or fixpoints; those that are not structural
    carry fuel, and the theorems show that it is enough: the layers of a tree
    (its number of leaves), the index adjustment of a Merkle proof (64, the
    width of the index), the digits of a variable-length integer (the size of
    its buffer), the walk of Lyra2 (its number of rows), walks in the block
    index (a height, which every turn lowers), the evaluation of a script (its
    length, of which every instruction takes at least one byte).  The search
    over nonces is a recursion on the binary number 2^32 - 1 and needs none.

    Pointers between block index entries are addresses in a heap, so that
    entries are shared as in the code; the cache of version bits is threaded
    through the calls.  A view of the coins is a database or a cache with its map
    over another view; lookups return the view with what they cached.  The script machine is a step function on a record of its
    stacks, the open conditionals, the operation count and the start of the
    signed code; [runs] is its loop as a relation without fuel.

    Threads are a step relation: the main thread opens a slice, creates and
    joins lane threads, each lane thread fills its segment block by block, in
    any interleaving; thread creation may fail.  A run of Argon2, and with it
    [mtp_hash1], [mtp_hash] and [mtp::hash], is therefore a relation.

    Code outside the repository is a parameter: [malloc] (a null pointer or
    enough room, [malloc_ok]) and the big-integer constructor of Boost; so is
    the signature check of the script machine, behind the virtual class
    BaseSignatureChecker, of which TransactionSignatureChecker is an instance
    over the ECDSA verification of the vendored secp256k1, its low-S test, and
    the checks of Sigma and Zerocoin transactions, which rest on big-number
    libraries.  LevelDB is a class of stores and iterators with the laws of its
    documentation; the parsing of public keys has the law [PointCodec].  The
    contents of uninitialised buffers are parameters too.  The constants L,
    M_COST and LANES of the proof of work are arguments, restricted by
    [constants_ok] to what the theorems need (M_COST a power of two with at
    least two blocks per segment); the values of the code satisfy it.

    ** What the theorems show

    - AES: the bit-sliced cipher is FIPS-197, its key schedule too; decryption
      inverts encryption.
    - BLAKE2b and BLAKE: streaming in any chunks gives the digest of the
      specification; misuse is rejected without damage.
    - Lyra2: the phases stay within the matrix, terminate and visit all rows;
      the header hash is a function of the 80 bytes of the header.
    - Argon2: parameters are validated exactly as documented, references go to
      finished blocks only, and every interleaving of the threads ends with the
      memory of the sequential version, without deadlock.
    - Merkle tree: proofs are complete; an accepted proof is the honest one, unless
      a message it makes the check hash clashes with the honest message of the same
      layer.  Statements about binding name the two messages: that some two
      messages have equal hashes is true of every hash, and says nothing.
    - Big integers and targets: the limb loops compute modulo 2^256, division
      and compact encoding are exact.
    - Difficulty: the next target is within the limit, and exact and not 0 while
      nothing wraps; when the product wraps it can be 0, which no hash meets.
    - Proof of work: what the miner finds the verifier accepts, and what the
      verifier accepts for an honest root has the honest hash, blocks and proofs,
      unless two named messages clash.
    - Block headers: they survive serialization, truncated ones are rejected,
      and a mined one passes the checks after it is read back.
    - Hash functions: SHA-256, SHA-1, RIPEMD-160, HMAC and SipHash are those of
      the standards, in any chunks and whatever uninitialised buffers hold.
    - Merkle root: the constant-space computation is the tree by levels, branches
      lead to the root, and duplicated leaves that keep the root are reported;
      partial trees survive the wire, show exactly the selected transactions, and
      show no others unless a node they open clashes with that of the block.
    - Block index: adding headers keeps heights, skip pointers, work, the hash map,
      the best header and the successors right; ancestors, forks, locators, the
      search by time and the active chain are those of the tree.
    - Version bits: with its cache the machine computes the states of BIP 9, which
      is stated as a relation of its own; the median time never falls along a
      chain.
    - Scripts: numbers and pushes survive a round trip; evaluation terminates
      within the limits whatever the script is; strict DER is recognised exactly;
      CHECKMULTISIG decides an order-preserving match; the outcome of a payment
      to a public key hash is given exactly; the assertions of VerifyScript hold
      for consistent flags.
    - Transactions: both formats are codecs, the identifiers cover everything but
      the witnesses, the weight is exact.
    - Coins: any stack of caches behaves as one set of unspent outputs, and
      disconnecting a block gives back the set from before.
    - Checks: CheckTransaction, CheckTxInputs and SequenceLocks decide exactly
      what they should, without failed assertions or null pointers; a checked
      transaction can be applied and creates no value.
    - Signatures: the original signature hash is that of a modified copy of the
      transaction, less the unread rest of a script with a push that is cut short;
      the one for witnesses is that of BIP 143.
    - Money supply: an accepted block adds at most its subsidy and what its spends
      of Sigma and Zerocoin mints redeem to the value of the unspent outputs, so
      that no chain of accepted blocks holds more than its subsidies and the
      redeemed values, or than MAX_MONEY when no mint was spent.  That mints are
      spent once and for their value is the work of the Sigma library.
    - Storage: coins and undo data survive the compact format and the disk, undo
      data is read under another block only if the two checksums agree; the
      key-value store answers as the map of
      coins after any batches and restarts; the nested transactions of the
      masternode database behave as three maps, across crashes too, and their
      iterators visit the visible keys in order.
    - Findings: the retargeting product that wraps near the limit and can give the
      target 0, the length of a script code with a push that is cut short, proofs
      of 32 or more hashes that lead to an undefined shift, honest proofs of unbalanced
      trees that are rejected, mining that repeats forever on a target no hash
      meets, threads that are not joined or lose their data, results and
      allocations that are ignored, a version field that loses the type of a
      transaction, witness signatures that do not cover the payload of special
      transactions, a rejection that leaves the state valid, scripts that are not
      replaced when they cannot be read, and a batch whose size is not counted.

    ** Not modelled

    The clearing of secrets on the stack is not observable and left out where
    nothing reads the buffer again.  Text output, hexadecimal printing and
    [getdouble] are left out; so are the unused variants of the sponge
    functions.  Of the block index only the fields that the modelled code reads
    are kept.  Of ConnectBlock the parts before the BIP 30 test and after the test
    of the reward (masternode payments, special transactions, indexes, writes to
    disk) are left out.  The memory pool, the network and the wallet are large
    stateful C++ around sockets, locks and databases; Sigma, Zerocoin, LLMQ and
    Dandelion rest on external big-number and curve libraries; Tor, LevelDB,
    UniValue, secp256k1, BLS and the Qt interface are vendored or pure input and
    output. *)

From stdpp Require Export prelude.
From Stdlib Require Export ZArith Lia Btauto.

#[export] Set Default Goal Selector "!".
Open Scope Z_scope.

(** ** Machine words

    An unsigned integer of the C code of width [w] is a [Z]; every C
    operation that can leave the range is followed by [wrap w], the
    conversion to an unsigned type of that width. *)

Definition wrap (w z : Z) : Z := z mod 2 ^ w.

Abbreviation u8 := (wrap 8).
Abbreviation u16 := (wrap 16).
Abbreviation u32 := (wrap 32).
Abbreviation u64 := (wrap 64).

(** [word w z]: [z] is a value of the unsigned type of width [w]. *)
Definition word (w z : Z) : Prop := 0 <= z < 2 ^ w.

Abbreviation byte := (word 8).

(** Signed 64-bit conversion (two's complement), for [int64_t]. *)
Definition i64 (z : Z) : Z :=
  let u := z mod 2 ^ 64 in if u <? 2 ^ 63 then u else u - 2 ^ 64.

Declare Scope cword_scope.
Delimit Scope cword_scope with cw.
Infix "⊕" := Z.lxor (at level 44, left associativity) : cword_scope.
Open Scope cword_scope.

(** Array reads: [a.[i]] is the [i]-th element, [0] out of range (every
    access of the modelled code is proved or evidently in range).  Array
    writes are stdpp's [<[i:=x]> a]. *)
Notation "a .[ i ]" := (nth i a 0) (at level 1, left associativity, format "a .[ i ]").

(** Create the hint databases of the development: [words] proves range
    goals, the rewriting database [bits] pushes [Z.testbit] inwards, [len]
    computes list lengths. *)
Create HintDb words discriminated.
Create Rewrite HintDb bits.
Create Rewrite HintDb len.

(** ** Range lemmas *)

Lemma wrap_word w z : 0 <= w -> word w (wrap w z).
Proof. intros. apply Z.mod_pos_bound, Z.pow_pos_nonneg; lia. Qed.

Lemma wrap_small w z : word w z -> wrap w z = z.
Proof. apply Z.mod_small. Qed.

Lemma wrap_wrap w z : wrap w (wrap w z) = wrap w z.
Proof. apply Zmod_mod. Qed.

(** Remove, from the inside out, the wraps of values that [lia] shows to be in
    range. *)
Ltac unwrap :=
  repeat match goal with
  | |- context [wrap ?w ?e] =>
      lazymatch e with
      | context [wrap _ _] => fail
      | _ => rewrite (wrap_small w e) by (unfold word; lia)
      end
  end.

Lemma word_mono v w z : word v z -> 0 <= v <= w -> word w z.
Proof.
  unfold word. intros [??] [??]. pose proof (Z.pow_le_mono_r 2 v w). lia.
Qed.

Lemma word_0 w : 0 <= w -> word w 0.
Proof. unfold word. intros. pose proof (Z.pow_pos_nonneg 2 w). lia. Qed.

(** A number is a [w]-bit word exactly when it is nonnegative and has no
    bit at or above [w]; this is how the bitwise operators are bounded. *)
Lemma word_bits w z :
  0 <= w -> word w z <-> 0 <= z /\ forall i, w <= i -> Z.testbit z i = false.
Proof.
  unfold word. intros Hw. split.
  - intros [Hz Hlt]. split; [done|]. intros i Hi.
    destruct (decide (z = 0)) as [->|]; [apply Z.testbit_0_l|].
    apply Z.bits_above_log2; [lia|].
    apply Z.lt_le_trans with w; [|lia]. apply Z.log2_lt_pow2; lia.
  - intros [Hz Hb]. split; [done|].
    destruct (decide (z = 0)) as [->|]; [apply Z.pow_pos_nonneg; lia|].
    apply Z.log2_lt_pow2; [lia|].
    destruct (decide (w <= Z.log2 z)) as [H|]; [|lia].
    apply Hb in H. rewrite Z.bit_log2 in H by lia. done.
Qed.

Lemma word_bit_high w z i : word w z -> 0 <= w <= i -> Z.testbit z i = false.
Proof. intros H [??]. by apply (word_bits w z) in H as [_ H]; auto. Qed.

Lemma word_lxor w x y : 0 <= w -> word w x -> word w y -> word w (x ⊕ y).
Proof.
  intros Hw Hx Hy. apply word_bits; [done|]. split.
  - apply Z.lxor_nonneg. unfold word in *. lia.
  - intros i Hi. by rewrite Z.lxor_spec, !(word_bit_high w).
Qed.

Lemma word_lor w x y : 0 <= w -> word w x -> word w y -> word w (Z.lor x y).
Proof.
  intros Hw Hx Hy. apply word_bits; [done|]. split.
  - apply Z.lor_nonneg. unfold word in *. lia.
  - intros i Hi. by rewrite Z.lor_spec, !(word_bit_high w).
Qed.

Lemma word_land_l w x y : 0 <= w -> word w x -> word w (Z.land x y).
Proof.
  intros Hw Hx. apply word_bits; [done|]. split.
  - apply Z.land_nonneg. unfold word in *. lia.
  - intros i Hi. by rewrite Z.land_spec, (word_bit_high w x).
Qed.

Lemma word_shiftr w x n : 0 <= w -> 0 <= n -> word w x -> word w (x ≫ n).
Proof.
  intros Hw Hn Hx. apply word_bits; [done|]. split.
  - apply Z.shiftr_nonneg. unfold word in *. lia.
  - intros i Hi. rewrite Z.shiftr_spec by lia. apply (word_bit_high w); [done|lia].
Qed.

#[export] Hint Resolve wrap_word word_0 word_lxor word_lor word_land_l word_shiftr : words.
#[export] Hint Extern 1 (_ <= _) => lia : words.
#[export] Hint Extern 2 (word _ _) => (unfold word; lia) : words.

(** ** Bits of words *)

Lemma wrap_testbit w z i :
  0 <= w -> 0 <= i -> Z.testbit (wrap w z) i = (i <? w) && Z.testbit z i.
Proof.
  intros. unfold wrap. destruct (Z.ltb_spec i w).
  - by rewrite Z.mod_pow2_bits_low.
  - by rewrite Z.mod_pow2_bits_high.
Qed.

(** Two [w]-bit words are equal when their [w] low bits agree. *)
Lemma word_eq w x y :
  0 <= w -> word w x -> word w y ->
  (forall i, 0 <= i < w -> Z.testbit x i = Z.testbit y i) -> x = y.
Proof.
  intros Hw Hx Hy H. apply Z.bits_inj'. intros i Hi.
  destruct (decide (i < w)); [apply H; lia|].
  by rewrite !(word_bit_high w) by (done || lia).
Qed.

#[export] Hint Rewrite Z.lxor_spec Z.land_spec Z.lor_spec : bits.
#[export] Hint Rewrite wrap_testbit Z.shiftl_spec Z.shiftr_spec Z.lnot_spec using lia : bits.

(** Case analysis of a bounded index into its concrete values. *)
Lemma Z_lt_cases n (P : Z -> Prop) :
  Forall (fun i => P (Z.of_nat i)) (seq 0 n) -> forall i, 0 <= i < Z.of_nat n -> P i.
Proof.
  intros HP i Hi. rewrite Forall_forall in HP.
  specialize (HP (Z.to_nat i)). rewrite Z2Nat.id in HP by lia.
  apply HP, elem_of_seq. lia.
Qed.

Lemma nth_replicate n i : (replicate n 0).[i] = 0.
Proof. revert i. induction n as [|n IH]; intros [|i]; cbn; auto. Qed.

(** An invariant of the body of a loop is an invariant of the loop. *)
Lemma fold_left_inv {A B} (P : A -> Prop) (f : A -> B -> A) l a :
  P a -> (forall a b, P a -> P (f a b)) -> P (fold_left f l a).
Proof. intros Ha Hf. revert a Ha. induction l; cbn; auto. Qed.
