(* ===== verification/Ctaes.v ===== *)
(** * Ctaes: the constant-time AES of src/crypto/ctaes/ctaes.c

    The C code keeps one AES state as eight 16-bit integers: bit [4*r+c] of
    [slice[i]] is bit [i] of the state byte in row [r], column [c].  This file
    translates every function of ctaes.c; the theorems are in CtaesBits.v,
    CtaesRefine.v, CtaesKey.v and CtaesCorrect.v. *)

From S2P Require Import Prelude.

(** ** The gate operations of the S-box circuit

    The circuit uses only bitwise operators, so it is written once over a
    class of bit operations: at [Z] (16-bit slices) it is the C code, at
    [bool] it is the action on one bit position. *)
Class BitOps (T : Type) := {
  bxor : T -> T -> T;
  band : T -> T -> T;
  bor : T -> T -> T;
  bnot : T -> T }.

Declare Scope gate_scope.
Delimit Scope gate_scope with gate.
Infix "⊕" := bxor (at level 44, left associativity) : gate_scope.
Infix "⊗" := band (at level 40, left associativity) : gate_scope.
Infix "⊞" := bor (at level 48, left associativity) : gate_scope.
Notation "∼ x" := (bnot x) (at level 35, right associativity) : gate_scope.

#[export] Instance uint16_ops : BitOps Z := {
  bxor := Z.lxor; band := Z.land; bor := Z.lor; bnot := fun x => u16 (Z.lnot x) }.

#[export] Instance bool_ops : BitOps bool := {
  bxor := xorb; band := andb; bor := orb; bnot := negb }.

Module Circuit.
Section circuit.
Context {T : Type} `{BitOps T}.
Local Open Scope gate_scope.

(** The variables that the linear layer hands to the non-linear one. *)
Record lin := mk_lin {
  lT1 : T; lT2 : T; lT3 : T; lT4 : T; lT6 : T; lT8 : T;
  lT9 : T; lT10 : T; lT13 : T; lT14 : T; lT15 : T; lT16 : T;
  lT17 : T; lT19 : T; lT20 : T; lT22 : T; lT23 : T; lT24 : T;
  lT25 : T; lT26 : T; lT27 : T; lD : T }.

(** The products that the non-linear layer hands to the output layer. *)
Record prods := mk_prods {
  pM46 : T; pM47 : T; pM48 : T; pM49 : T; pM50 : T; pM51 : T;
  pM52 : T; pM53 : T; pM54 : T; pM55 : T; pM56 : T; pM57 : T;
  pM58 : T; pM59 : T; pM60 : T; pM61 : T; pM62 : T; pM63 : T }.

(** "Undo linear postprocessing": the inverse direction. *)
Definition inv_linear_in (U0 U1 U2 U3 U4 U5 U6 U7 : T) : lin :=
  let T23 := U0 ⊕ U3 in
  let T22 := ∼ (U1 ⊕ U3) in
  let T2 := ∼ (U0 ⊕ U1) in
  let T1 := U3 ⊕ U4 in
  let T24 := ∼ (U4 ⊕ U7) in
  let R5 := U6 ⊕ U7 in
  let T8 := ∼ (U1 ⊕ T23) in
  let T19 := T22 ⊕ R5 in
  let T9 := ∼ (U7 ⊕ T1) in
  let T10 := T2 ⊕ T24 in
  let T13 := T2 ⊕ R5 in
  let T3 := T1 ⊕ R5 in
  let T25 := ∼ (U2 ⊕ T1) in
  let R13 := U1 ⊕ U6 in
  let T17 := ∼ (U2 ⊕ T19) in
  let T20 := T24 ⊕ R13 in
  let T4 := U4 ⊕ T8 in
  let R17 := ∼ (U2 ⊕ U5) in
  let R18 := ∼ (U5 ⊕ U6) in
  let R19 := ∼ (U2 ⊕ U4) in
  let D := U0 ⊕ R17 in
  let T6 := T22 ⊕ R17 in
  let T16 := R13 ⊕ R19 in
  let T27 := T1 ⊕ R18 in
  let T15 := T10 ⊕ T27 in
  let T14 := T10 ⊕ R18 in
  let T26 := T3 ⊕ T16 in
  mk_lin T1 T2 T3 T4 T6 T8 T9 T10 T13 T14 T15 T16
    T17 T19 T20 T22 T23 T24 T25 T26 T27 D.

(** "Linear preprocessing": the forward direction. *)
Definition linear_in (U0 U1 U2 U3 U4 U5 U6 U7 : T) : lin :=
  let T1 := U0 ⊕ U3 in
  let T2 := U0 ⊕ U5 in
  let T3 := U0 ⊕ U6 in
  let T4 := U3 ⊕ U5 in
  let T5 := U4 ⊕ U6 in
  let T6 := T1 ⊕ T5 in
  let T7 := U1 ⊕ U2 in
  let T8 := U7 ⊕ T6 in
  let T9 := U7 ⊕ T7 in
  let T10 := T6 ⊕ T7 in
  let T11 := U1 ⊕ U5 in
  let T12 := U2 ⊕ U5 in
  let T13 := T3 ⊕ T4 in
  let T14 := T6 ⊕ T11 in
  let T15 := T5 ⊕ T11 in
  let T16 := T5 ⊕ T12 in
  let T17 := T9 ⊕ T16 in
  let T18 := U3 ⊕ U7 in
  let T19 := T7 ⊕ T18 in
  let T20 := T1 ⊕ T19 in
  let T21 := U6 ⊕ U7 in
  let T22 := T7 ⊕ T21 in
  let T23 := T2 ⊕ T22 in
  let T24 := T2 ⊕ T10 in
  let T25 := T20 ⊕ T17 in
  let T26 := T3 ⊕ T16 in
  let T27 := T1 ⊕ T12 in
  let D := U7 in
  mk_lin T1 T2 T3 T4 T6 T8 T9 T10 T13 T14 T15 T16
    T17 T19 T20 T22 T23 T24 T25 T26 T27 D.

(** The shared non-linear transformation. *)
Definition nonlinear (l : lin) : prods :=
  let T1 := lT1 l in
  let T2 := lT2 l in
  let T3 := lT3 l in
  let T4 := lT4 l in
  let T6 := lT6 l in
  let T8 := lT8 l in
  let T9 := lT9 l in
  let T10 := lT10 l in
  let T13 := lT13 l in
  let T14 := lT14 l in
  let T15 := lT15 l in
  let T16 := lT16 l in
  let T17 := lT17 l in
  let T19 := lT19 l in
  let T20 := lT20 l in
  let T22 := lT22 l in
  let T23 := lT23 l in
  let T24 := lT24 l in
  let T25 := lT25 l in
  let T26 := lT26 l in
  let T27 := lT27 l in
  let D := lD l in
  let M1 := T13 ⊗ T6 in
  let M6 := T3 ⊗ T16 in
  let M11 := T1 ⊗ T15 in
  let M13 := (T4 ⊗ T27) ⊕ M11 in
  let M15 := (T2 ⊗ T10) ⊕ M11 in
  let M20 := T14 ⊕ M1 ⊕ (T23 ⊗ T8) ⊕ M13 in
  let M21 := (T19 ⊗ D) ⊕ M1 ⊕ T24 ⊕ M15 in
  let M22 := T26 ⊕ M6 ⊕ (T22 ⊗ T9) ⊕ M13 in
  let M23 := (T20 ⊗ T17) ⊕ M6 ⊕ M15 ⊕ T25 in
  let M25 := M22 ⊗ M20 in
  let M37 := M21 ⊕ ((M20 ⊕ M21) ⊗ (M23 ⊕ M25)) in
  let M38 := M20 ⊕ M25 ⊕ (M21 ⊞ (M20 ⊗ M23)) in
  let M39 := M23 ⊕ ((M22 ⊕ M23) ⊗ (M21 ⊕ M25)) in
  let M40 := M22 ⊕ M25 ⊕ (M23 ⊞ (M21 ⊗ M22)) in
  let M41 := M38 ⊕ M40 in
  let M42 := M37 ⊕ M39 in
  let M43 := M37 ⊕ M38 in
  let M44 := M39 ⊕ M40 in
  let M45 := M42 ⊕ M41 in
  let M46 := M44 ⊗ T6 in
  let M47 := M40 ⊗ T8 in
  let M48 := M39 ⊗ D in
  let M49 := M43 ⊗ T16 in
  let M50 := M38 ⊗ T9 in
  let M51 := M37 ⊗ T17 in
  let M52 := M42 ⊗ T15 in
  let M53 := M45 ⊗ T27 in
  let M54 := M41 ⊗ T10 in
  let M55 := M44 ⊗ T13 in
  let M56 := M40 ⊗ T23 in
  let M57 := M39 ⊗ T19 in
  let M58 := M43 ⊗ T3 in
  let M59 := M38 ⊗ T22 in
  let M60 := M37 ⊗ T20 in
  let M61 := M42 ⊗ T1 in
  let M62 := M45 ⊗ T4 in
  let M63 := M41 ⊗ T2 in
  mk_prods M46 M47 M48 M49 M50 M51 M52 M53 M54 M55 M56 M57
    M58 M59 M60 M61 M62 M63.

(** "Undo linear preprocessing". *)
Definition inv_linear_out (m : prods) : list T :=
  let M46 := pM46 m in
  let M47 := pM47 m in
  let M48 := pM48 m in
  let M49 := pM49 m in
  let M50 := pM50 m in
  let M51 := pM51 m in
  let M52 := pM52 m in
  let M53 := pM53 m in
  let M54 := pM54 m in
  let M55 := pM55 m in
  let M56 := pM56 m in
  let M57 := pM57 m in
  let M58 := pM58 m in
  let M59 := pM59 m in
  let M60 := pM60 m in
  let M61 := pM61 m in
  let M62 := pM62 m in
  let M63 := pM63 m in
  let P0 := M52 ⊕ M61 in
  let P1 := M58 ⊕ M59 in
  let P2 := M54 ⊕ M62 in
  let P3 := M47 ⊕ M50 in
  let P4 := M48 ⊕ M56 in
  let P5 := M46 ⊕ M51 in
  let P6 := M49 ⊕ M60 in
  let P7 := P0 ⊕ P1 in
  let P8 := M50 ⊕ M53 in
  let P9 := M55 ⊕ M63 in
  let P10 := M57 ⊕ P4 in
  let P11 := P0 ⊕ P3 in
  let P12 := M46 ⊕ M48 in
  let P13 := M49 ⊕ M51 in
  let P14 := M49 ⊕ M62 in
  let P15 := M54 ⊕ M59 in
  let P16 := M57 ⊕ M61 in
  let P17 := M58 ⊕ P2 in
  let P18 := M63 ⊕ P5 in
  let P19 := P2 ⊕ P3 in
  let P20 := P4 ⊕ P6 in
  let P22 := P2 ⊕ P7 in
  let P23 := P7 ⊕ P8 in
  let P24 := P5 ⊕ P7 in
  let P25 := P6 ⊕ P10 in
  let P26 := P9 ⊕ P11 in
  let P27 := P10 ⊕ P18 in
  let P28 := P11 ⊕ P25 in
  let P29 := P15 ⊕ P20 in
  let s7 := P13 ⊕ P22 in
  let s6 := P26 ⊕ P29 in
  let s5 := P17 ⊕ P28 in
  let s4 := P12 ⊕ P22 in
  let s3 := P23 ⊕ P27 in
  let s2 := P19 ⊕ P24 in
  let s1 := P14 ⊕ P23 in
  let s0 := P9 ⊕ P16 in
  [s0; s1; s2; s3; s4; s5; s6; s7].

(** "Linear postprocessing". *)
Definition linear_out (m : prods) : list T :=
  let M46 := pM46 m in
  let M47 := pM47 m in
  let M48 := pM48 m in
  let M49 := pM49 m in
  let M50 := pM50 m in
  let M51 := pM51 m in
  let M52 := pM52 m in
  let M53 := pM53 m in
  let M54 := pM54 m in
  let M55 := pM55 m in
  let M56 := pM56 m in
  let M57 := pM57 m in
  let M58 := pM58 m in
  let M59 := pM59 m in
  let M60 := pM60 m in
  let M61 := pM61 m in
  let M62 := pM62 m in
  let M63 := pM63 m in
  let L0 := M61 ⊕ M62 in
  let L1 := M50 ⊕ M56 in
  let L2 := M46 ⊕ M48 in
  let L3 := M47 ⊕ M55 in
  let L4 := M54 ⊕ M58 in
  let L5 := M49 ⊕ M61 in
  let L6 := M62 ⊕ L5 in
  let L7 := M46 ⊕ L3 in
  let L8 := M51 ⊕ M59 in
  let L9 := M52 ⊕ M53 in
  let L10 := M53 ⊕ L4 in
  let L11 := M60 ⊕ L2 in
  let L12 := M48 ⊕ M51 in
  let L13 := M50 ⊕ L0 in
  let L14 := M52 ⊕ M61 in
  let L15 := M55 ⊕ L1 in
  let L16 := M56 ⊕ L0 in
  let L17 := M57 ⊕ L1 in
  let L18 := M58 ⊕ L8 in
  let L19 := M63 ⊕ L4 in
  let L20 := L0 ⊕ L1 in
  let L21 := L1 ⊕ L7 in
  let L22 := L3 ⊕ L12 in
  let L23 := L18 ⊕ L2 in
  let L24 := L15 ⊕ L9 in
  let L25 := L6 ⊕ L10 in
  let L26 := L7 ⊕ L9 in
  let L27 := L8 ⊕ L10 in
  let L28 := L11 ⊕ L14 in
  let L29 := L11 ⊕ L17 in
  let s7 := L6 ⊕ L24 in
  let s6 := ∼ (L16 ⊕ L26) in
  let s5 := ∼ (L19 ⊕ L28) in
  let s4 := L6 ⊕ L21 in
  let s3 := L20 ⊕ L22 in
  let s2 := L25 ⊕ L29 in
  let s1 := ∼ (L13 ⊕ L27) in
  let s0 := ∼ (L6 ⊕ L23) in
  [s0; s1; s2; s3; s4; s5; s6; s7].

(** The whole circuit on the eight inputs [U0..U7]. *)
Definition sbox_circuit (inv : bool) (U0 U1 U2 U3 U4 U5 U6 U7 : T) : list T :=
  let l := if inv then inv_linear_in U0 U1 U2 U3 U4 U5 U6 U7
           else linear_in U0 U1 U2 U3 U4 U5 U6 U7 in
  let m := nonlinear l in
  if inv then inv_linear_out m else linear_out m.

End circuit.
Arguments lin : clear implicits.
Arguments prods : clear implicits.
End Circuit.

(** ** The state and its loading and saving *)

(** [AES_state]: the array [slice[8]] of [uint16_t]. *)
Abbreviation AES_state := (list Z).

Definition zero_state : AES_state := replicate 8 0.

(** [LoadByte]: one bit of [byte] goes into each slice at position [4*r+c]. *)
Definition LoadByte (s : AES_state) (b : Z) (r c : nat) : AES_state :=
  fst (fold_left (fun '(s, b) i =>
         (<[i := u16 (Z.lor s.[i] (Z.land b 1 ≪ Z.of_nat (r * 4 + c)))]> s, u8 (b ≫ 1)))
       (seq 0 8) (s, b)).

(** [LoadBytes]: columns outside, rows inside; [*(data16++)] is
    [data16[4*c+r]]. *)
Definition LoadBytes (s : AES_state) (data16 : list Z) : AES_state :=
  fold_left (fun s c =>
    fold_left (fun s r => LoadByte s data16.[4 * c + r] r c) (seq 0 4) s) (seq 0 4) s.

(** The inner loop of [SaveBytes]: the byte in row [r], column [c]. *)
Definition SaveByte (s : AES_state) (r c : nat) : Z :=
  fold_left (fun v b =>
    u8 (Z.lor v (Z.land (s.[b] ≫ Z.of_nat (r * 4 + c)) 1 ≪ Z.of_nat b))) (seq 0 8) 0.

Definition SaveBytes (s : AES_state) : list Z :=
  flat_map (fun c => map (fun r => SaveByte s r c) (seq 0 4)) (seq 0 4).

(** ** The round transformations *)

Definition SubBytes (s : AES_state) (inv : bool) : AES_state :=
  Circuit.sbox_circuit inv s.[7] s.[6] s.[5] s.[4] s.[3] s.[2] s.[1] s.[0].

Definition BIT_RANGE (from to : Z) : Z := ((1 ≪ (to - from)) - 1) ≪ from.
Definition BIT_RANGE_LEFT (x from to shift : Z) : Z := Z.land x (BIT_RANGE from to) ≪ shift.
Definition BIT_RANGE_RIGHT (x from to shift : Z) : Z := Z.land x (BIT_RANGE from to) ≫ shift.

Definition ShiftRows_slice (v : Z) : Z :=
  u16 (Z.lor (Z.lor (Z.lor (Z.lor (Z.lor (Z.lor
    (Z.land v (BIT_RANGE 0 4))
    (BIT_RANGE_LEFT v 4 5 3)) (BIT_RANGE_RIGHT v 5 8 1))
    (BIT_RANGE_LEFT v 8 10 2)) (BIT_RANGE_RIGHT v 10 12 2))
    (BIT_RANGE_LEFT v 12 15 1)) (BIT_RANGE_RIGHT v 15 16 3)).

Definition ShiftRows (s : AES_state) : AES_state := map ShiftRows_slice s.

Definition InvShiftRows_slice (v : Z) : Z :=
  u16 (Z.lor (Z.lor (Z.lor (Z.lor (Z.lor (Z.lor
    (Z.land v (BIT_RANGE 0 4))
    (BIT_RANGE_LEFT v 4 7 1)) (BIT_RANGE_RIGHT v 7 8 3))
    (BIT_RANGE_LEFT v 8 10 2)) (BIT_RANGE_RIGHT v 10 12 2))
    (BIT_RANGE_LEFT v 12 13 3)) (BIT_RANGE_RIGHT v 13 16 1)).

Definition InvShiftRows (s : AES_state) : AES_state := map InvShiftRows_slice s.

(** The macro [ROT]; its value is an [int], truncated by the assignments. *)
Definition ROT (x b : Z) : Z := Z.lor (x ≫ (b * 4)) (x ≪ ((4 - b) * 4)).

(** The forward part of [MixColumns]: multiplication by [a(x)]. *)
Definition MixColumns_fwd (s : AES_state) : AES_state :=
  let s0 := s.[0] in let s1 := s.[1] in let s2 := s.[2] in let s3 := s.[3] in
  let s4 := s.[4] in let s5 := s.[5] in let s6 := s.[6] in let s7 := s.[7] in
  let s0_01 := u16 (s0 ⊕ ROT s0 1) in let s0_123 := u16 (ROT s0_01 1 ⊕ ROT s0 3) in
  let s1_01 := u16 (s1 ⊕ ROT s1 1) in let s1_123 := u16 (ROT s1_01 1 ⊕ ROT s1 3) in
  let s2_01 := u16 (s2 ⊕ ROT s2 1) in let s2_123 := u16 (ROT s2_01 1 ⊕ ROT s2 3) in
  let s3_01 := u16 (s3 ⊕ ROT s3 1) in let s3_123 := u16 (ROT s3_01 1 ⊕ ROT s3 3) in
  let s4_01 := u16 (s4 ⊕ ROT s4 1) in let s4_123 := u16 (ROT s4_01 1 ⊕ ROT s4 3) in
  let s5_01 := u16 (s5 ⊕ ROT s5 1) in let s5_123 := u16 (ROT s5_01 1 ⊕ ROT s5 3) in
  let s6_01 := u16 (s6 ⊕ ROT s6 1) in let s6_123 := u16 (ROT s6_01 1 ⊕ ROT s6 3) in
  let s7_01 := u16 (s7 ⊕ ROT s7 1) in let s7_123 := u16 (ROT s7_01 1 ⊕ ROT s7 3) in
  [ s7_01 ⊕ s0_123;
    s7_01 ⊕ s0_01 ⊕ s1_123;
    s1_01 ⊕ s2_123;
    s7_01 ⊕ s2_01 ⊕ s3_123;
    s7_01 ⊕ s3_01 ⊕ s4_123;
    s4_01 ⊕ s5_123;
    s5_01 ⊕ s6_123;
    s6_01 ⊕ s7_123 ].

(** The additional multiplication by [{04}x^2 + {05}] of the inverse. *)
Definition MixColumns_inv (s : AES_state) : AES_state :=
  let t0_02 := u16 (s.[0] ⊕ ROT s.[0] 2) in
  let t1_02 := u16 (s.[1] ⊕ ROT s.[1] 2) in
  let t2_02 := u16 (s.[2] ⊕ ROT s.[2] 2) in
  let t3_02 := u16 (s.[3] ⊕ ROT s.[3] 2) in
  let t4_02 := u16 (s.[4] ⊕ ROT s.[4] 2) in
  let t5_02 := u16 (s.[5] ⊕ ROT s.[5] 2) in
  let t6_02 := u16 (s.[6] ⊕ ROT s.[6] 2) in
  let t7_02 := u16 (s.[7] ⊕ ROT s.[7] 2) in
  [ s.[0] ⊕ t6_02;
    s.[1] ⊕ (t6_02 ⊕ t7_02);
    s.[2] ⊕ (t0_02 ⊕ t7_02);
    s.[3] ⊕ (t1_02 ⊕ t6_02);
    s.[4] ⊕ (t2_02 ⊕ t6_02 ⊕ t7_02);
    s.[5] ⊕ (t3_02 ⊕ t7_02);
    s.[6] ⊕ t4_02;
    s.[7] ⊕ t5_02 ].

Definition MixColumns (s : AES_state) (inv : bool) : AES_state :=
  let s := MixColumns_fwd s in
  if inv then MixColumns_inv s else s.

Definition AddRoundKey (s round : AES_state) : AES_state := zip_with Z.lxor s round.

(** ** The key schedule *)

Definition GetOneColumn (a : AES_state) (c : nat) : AES_state :=
  map (fun x => Z.land (x ≫ Z.of_nat c) 0x1111) a.

(** [KeySetupColumnMix] updates two states: the running column [s] and the
    round key [r]. *)
Definition KeySetupColumnMix (s r a : AES_state) (c1 c2 : nat) : AES_state * AES_state :=
  let s := zip_with (fun x y => x ⊕ Z.land (y ≫ Z.of_nat c2) 0x1111) s a in
  (s, zip_with (fun y x => u16 (Z.lor y (Z.land x 0x1111 ≪ Z.of_nat c1))) r s).

Definition KeySetupTransform (s r : AES_state) : AES_state :=
  zip_with (fun x y => u16 (Z.lor (x ≫ 4) (x ≪ 12) ⊕ y)) s r.

Definition MultX (s : AES_state) : AES_state :=
  let top := s.[7] in
  [ top; s.[0] ⊕ top; s.[1]; s.[2] ⊕ top; s.[3] ⊕ top; s.[4]; s.[5]; s.[6] ].

(** The state of the expansion loop: the round keys, the running column, the
    round constant and the position modulo [nkeywords]. *)
Record setup_state := mk_setup {
  su_rounds : list AES_state; su_column : AES_state; su_rcon : AES_state; su_pos : nat }.

(** The first [nkeywords] round columns, taken from the key directly. *)
Definition AES_setup_load (rounds : list AES_state) (key : list Z) (nkeywords : nat)
  : list AES_state :=
  fold_left (fun rounds i =>
    fold_left (fun rounds r =>
      <[(i / 4)%nat := LoadByte (nth (i / 4) rounds []) key.[4 * i + r] r (i mod 4)]> rounds)
      (seq 0 4) rounds)
    (seq 0 nkeywords) rounds.

(** One iteration of the expansion loop, generating word [i]. *)
Definition AES_setup_step (nkeywords : nat) (st : setup_state) (i : nat) : setup_state :=
  let '(column, rcon) :=
    if (su_pos st =? 0)%nat then
      (KeySetupTransform (SubBytes (su_column st) false) (su_rcon st), MultX (su_rcon st))
    else if (6 <? nkeywords)%nat && (su_pos st =? 4)%nat then
      (SubBytes (su_column st) false, su_rcon st)
    else (su_column st, su_rcon st) in
  let pos := if (su_pos st + 1 =? nkeywords)%nat then 0%nat else (su_pos st + 1)%nat in
  let '(column, r) :=
    KeySetupColumnMix column (nth (i / 4) (su_rounds st) [])
      (nth ((i - nkeywords) / 4) (su_rounds st) []) (i mod 4) ((i - nkeywords) mod 4) in
  mk_setup (<[(i / 4)%nat := r]> (su_rounds st)) column rcon pos.

Definition AES_setup (key : list Z) (nkeywords nrounds : nat) : list AES_state :=
  let rounds := AES_setup_load (replicate (nrounds + 1) zero_state) key nkeywords in
  let column := GetOneColumn (nth ((nkeywords - 1) / 4) rounds []) ((nkeywords - 1) mod 4) in
  su_rounds (fold_left (AES_setup_step nkeywords)
    (seq nkeywords (4 * (nrounds + 1) - nkeywords))
    (mk_setup rounds column [1; 0; 0; 0; 0; 0; 0; 0] 0)).

(** ** Encryption and decryption of one block *)

Definition AES_encrypt_round (rounds : list AES_state) (s : AES_state) (round : nat) : AES_state :=
  AddRoundKey (MixColumns (ShiftRows (SubBytes s false)) false) (nth round rounds []).

Definition AES_encrypt (rounds : list AES_state) (nrounds : nat) (plain16 : list Z) : list Z :=
  let s := LoadBytes zero_state plain16 in
  let s := AddRoundKey s (nth 0 rounds []) in
  let s := fold_left (AES_encrypt_round rounds) (seq 1 (nrounds - 1)) s in
  let s := ShiftRows (SubBytes s false) in
  let s := AddRoundKey s (nth nrounds rounds []) in
  SaveBytes s.

Definition AES_decrypt_round (rounds : list AES_state) (nrounds : nat) (s : AES_state) (round : nat)
  : AES_state :=
  MixColumns (AddRoundKey (SubBytes (InvShiftRows s) true) (nth (nrounds - round) rounds [])) true.

Definition AES_decrypt (rounds : list AES_state) (nrounds : nat) (cipher16 : list Z) : list Z :=
  let s := LoadBytes zero_state cipher16 in
  let s := AddRoundKey s (nth nrounds rounds []) in
  let s := fold_left (AES_decrypt_round rounds nrounds) (seq 1 (nrounds - 1)) s in
  let s := SubBytes (InvShiftRows s) true in
  let s := AddRoundKey s (nth 0 rounds []) in
  SaveBytes s.

(** ** The public interface: contexts and runs of blocks *)

(** The three context types hold 11, 13 and 15 round keys. *)
Record AES128_ctx := mk_AES128_ctx { rk128 : list AES_state }.
Record AES192_ctx := mk_AES192_ctx { rk192 : list AES_state }.
Record AES256_ctx := mk_AES256_ctx { rk256 : list AES_state }.

(** [while (blocks--)]: both pointers advance by 16 bytes per block. *)
Fixpoint each_block (f : list Z -> list Z) (blocks : nat) (input : list Z) : list Z :=
  match blocks with
  | O => []
  | S n => f (take 16 input) ++ each_block f n (drop 16 input)
  end.

Definition AES128_init (key16 : list Z) : AES128_ctx := mk_AES128_ctx (AES_setup key16 4 10).
Definition AES128_encrypt (ctx : AES128_ctx) (blocks : nat) (plain16 : list Z) : list Z :=
  each_block (AES_encrypt (rk128 ctx) 10) blocks plain16.
Definition AES128_decrypt (ctx : AES128_ctx) (blocks : nat) (cipher16 : list Z) : list Z :=
  each_block (AES_decrypt (rk128 ctx) 10) blocks cipher16.

Definition AES192_init (key24 : list Z) : AES192_ctx := mk_AES192_ctx (AES_setup key24 6 12).
Definition AES192_encrypt (ctx : AES192_ctx) (blocks : nat) (plain16 : list Z) : list Z :=
  each_block (AES_encrypt (rk192 ctx) 12) blocks plain16.
Definition AES192_decrypt (ctx : AES192_ctx) (blocks : nat) (cipher16 : list Z) : list Z :=
  each_block (AES_decrypt (rk192 ctx) 12) blocks cipher16.

Definition AES256_init (key32 : list Z) : AES256_ctx := mk_AES256_ctx (AES_setup key32 8 14).
Definition AES256_encrypt (ctx : AES256_ctx) (blocks : nat) (plain16 : list Z) : list Z :=
  each_block (AES_encrypt (rk256 ctx) 14) blocks plain16.
Definition AES256_decrypt (ctx : AES256_ctx) (blocks : nat) (cipher16 : list Z) : list Z :=
  each_block (AES_decrypt (rk256 ctx) 14) blocks cipher16.
