(* ===== verification/AesSpec.v ===== *)
(** * AesSpec: the AES cipher of FIPS-197, over bytes

    The reference definitions that src/crypto/ctaes/ctaes.c implements: the
    field GF(2^8), the S-box as inversion followed by the affine map, the four
    round transformations on a block of 16 bytes in the standard's order
    ([s[r,c] = in[r+4c]]), the cipher and the key expansion. *)

From S2P Require Import Prelude.

(** ** The field GF(2^8) modulo x^8 + x^4 + x^3 + x + 1 *)

Definition xtime (a : Z) : Z :=
  if 2 * a <? 256 then 2 * a else (2 * a) ⊕ 0x11b.

(** [gmul a b], by shift and add over the eight bits of [b]. *)
Fixpoint gmul_bits (n : nat) (a b : Z) : Z :=
  match n with
  | O => 0
  | S n => (if Z.odd b then a else 0) ⊕ gmul_bits n (xtime a) (b ≫ 1)
  end.
Definition gmul (a b : Z) : Z := gmul_bits 8 a b.

(** The multiplicative inverse as the power 254 ([0] maps to [0]). *)
Definition ginv (a : Z) : Z :=
  let a2 := gmul a a in let a4 := gmul a2 a2 in let a8 := gmul a4 a4 in
  let a16 := gmul a8 a8 in let a32 := gmul a16 a16 in
  let a64 := gmul a32 a32 in let a128 := gmul a64 a64 in
  gmul a128 (gmul a64 (gmul a32 (gmul a16 (gmul a8 (gmul a4 a2))))).

Definition rotl8 (x n : Z) : Z := u8 (Z.lor (x ≪ n) (x ≫ (8 - n))).

Definition sbox (a : Z) : Z :=
  let b := ginv a in
  b ⊕ rotl8 b 1 ⊕ rotl8 b 2 ⊕ rotl8 b 3 ⊕ rotl8 b 4 ⊕ 0x63.

Definition inv_sbox (a : Z) : Z :=
  ginv (rotl8 a 1 ⊕ rotl8 a 3 ⊕ rotl8 a 6 ⊕ 0x05).

(** ** The round transformations *)

Definition sub_bytes (st : list Z) : list Z := map sbox st.
Definition inv_sub_bytes (st : list Z) : list Z := map inv_sbox st.

(** Row [r] is rotated left by [r] positions. *)
Definition shift_rows (st : list Z) : list Z :=
  flat_map (fun c => map (fun r => st.[4 * ((c + r) mod 4) + r]) (seq 0 4)) (seq 0 4).

Definition inv_shift_rows (st : list Z) : list Z :=
  flat_map (fun c => map (fun r => st.[4 * ((c + 4 - r) mod 4) + r]) (seq 0 4)) (seq 0 4).

(** Byte [r] of a column times [{03}x^3 + {01}x^2 + {01}x + {02}]. *)
Definition mix_column (a : list Z) (r : nat) : Z :=
  xtime a.[r] ⊕ (xtime a.[(r + 1) mod 4] ⊕ a.[(r + 1) mod 4])
    ⊕ a.[(r + 2) mod 4] ⊕ a.[(r + 3) mod 4].

Definition column (st : list Z) (c : nat) : list Z := map (fun r => st.[4 * c + r]) (seq 0 4).

Definition mix_columns (st : list Z) : list Z :=
  flat_map (fun c => map (mix_column (column st c)) (seq 0 4)) (seq 0 4).

Definition add_round_key (st k : list Z) : list Z := zip_with Z.lxor st k.

(** ** The cipher *)

Definition cipher_round (rk : list (list Z)) (st : list Z) (round : nat) : list Z :=
  add_round_key (mix_columns (shift_rows (sub_bytes st))) (nth round rk []).

Definition cipher (rk : list (list Z)) (nr : nat) (input : list Z) : list Z :=
  let st := add_round_key input (nth 0 rk []) in
  let st := fold_left (cipher_round rk) (seq 1 (nr - 1)) st in
  add_round_key (shift_rows (sub_bytes st)) (nth nr rk []).

(** ** The key expansion: words are lists of four bytes *)

Definition rot_word (w : list Z) : list Z :=
  match w with b :: w => w ++ [b] | [] => [] end.
Definition sub_word (w : list Z) : list Z := map sbox w.

(** [rcon i] is [x^(i-1)], the round constant of FIPS-197. *)
Fixpoint rcon_pow (n : nat) : Z :=
  match n with O => 1 | S n => xtime (rcon_pow n) end.
Definition rcon (i : nat) : list Z := [rcon_pow (i - 1); 0; 0; 0].

(** The next word from the [i] words before it. *)
Definition next_word (nk : nat) (w : list (list Z)) (i : nat) : list Z :=
  let temp := nth (i - 1) w [] in
  let temp :=
    if (i mod nk =? 0)%nat then zip_with Z.lxor (sub_word (rot_word temp)) (rcon (i / nk))
    else if (6 <? nk)%nat && (i mod nk =? 4)%nat then sub_word temp
    else temp in
  zip_with Z.lxor (nth (i - nk) w []) temp.

Definition key_words (key : list Z) (nk : nat) : list (list Z) :=
  map (fun i => map (fun r => key.[4 * i + r]) (seq 0 4)) (seq 0 nk).

(** [key_expansion key nk n]: the first [nk + n] words of the schedule. *)
Fixpoint key_expansion (key : list Z) (nk n : nat) : list (list Z) :=
  match n with
  | O => key_words key nk
  | S n => let w := key_expansion key nk n in w ++ [next_word nk w (nk + n)]
  end.

(** Round key [round] of a schedule: four consecutive words. *)
Definition round_key (w : list (list Z)) (round : nat) : list Z :=
  flat_map (fun c => nth (4 * round + c) w []) (seq 0 4).

(** AES with [nk] key words and [nr] rounds. *)
Definition aes (key : list Z) (nk nr : nat) (input : list Z) : list Z :=
  let w := key_expansion key nk (4 * (nr + 1) - nk) in
  cipher (map (round_key w) (seq 0 (nr + 1))) nr input.

(** ** Facts about the field and the S-box used by the refinement proofs *)

(** A property of bytes holds when it holds on the 256 values. *)
Lemma byte_forall (P : Z -> bool) :
  forallb (fun n => P (Z.of_nat n)) (seq 0 256) = true -> forall x, byte x -> P x = true.
Proof.
  intros H x [Hx0 Hx1]. rewrite forallb_forall in H.
  specialize (H (Z.to_nat x)). rewrite Z2Nat.id in H by done.
  apply H, in_seq. clear H. lia.
Qed.

(** Instantiate [byte_forall] at [x], checking the 256 values by computation. *)
Ltac by_bytes P x Hx :=
  let H := fresh "Hbyte" in
  assert (H := byte_forall P ltac:(vm_compute; reflexivity) x Hx); cbv beta in H.

Lemma xtime_byte x : byte x -> byte (xtime x).
Proof.
  intros Hx. by_bytes (fun x => (0 <=? xtime x) && (xtime x <? 256)) x Hx.
  unfold word. change (2 ^ 8) with 256. lia.
Qed.

Lemma sbox_byte x : byte x -> byte (sbox x).
Proof.
  intros Hx. by_bytes (fun x => (0 <=? sbox x) && (sbox x <? 256)) x Hx.
  unfold word. change (2 ^ 8) with 256. lia.
Qed.

(** The field operations behave: [ginv] is an inverse, and the S-box and its
    inverse are mutually inverse permutations of the bytes. *)
Lemma ginv_inverse x : byte x -> x <> 0 -> gmul x (ginv x) = 1.
Proof.
  intros Hx Hne.
  by_bytes (fun x => (x =? 0) || (gmul x (ginv x) =? 1)) x Hx. lia.
Qed.

Lemma inv_sbox_sbox x : byte x -> inv_sbox (sbox x) = x.
Proof.
  intros Hx. by_bytes (fun x => inv_sbox (sbox x) =? x) x Hx. lia.
Qed.

(** Bit [k] of [xtime x], from the bits of [x]. *)
Definition xtime_bits (b : nat -> bool) (k : nat) : bool :=
  match k with
  | 0 => b 7
  | 1 => xorb (b 0) (b 7)
  | 3 => xorb (b 2) (b 7)
  | 4 => xorb (b 3) (b 7)
  | S k => b k
  end%nat.

Lemma xtime_testbit x k :
  byte x -> (k < 8)%nat ->
  Z.testbit (xtime x) (Z.of_nat k) = xtime_bits (fun j => Z.testbit x (Z.of_nat j)) k.
Proof.
  intros Hx Hk.
  by_bytes (fun x => forallb (fun k => Bool.eqb (Z.testbit (xtime x) (Z.of_nat k))
    (xtime_bits (fun j => Z.testbit x (Z.of_nat j)) k)) (seq 0 8)) x Hx.
  rewrite forallb_forall in Hbyte. specialize (Hbyte k ltac:(apply in_seq; lia)).
  by apply Bool.eqb_prop.
Qed.
