(* ===== verification/CtaesBits.v ===== *)
(** * CtaesBits: what each function of ctaes.c does to the bits of the state

    [bit s k p] is bit [p] of slice [k], i.e. bit [k] of the state byte at
    position [p = 4*r+c].  Each operation of Ctaes.v is characterised by its
    action on [bit], and preserves the well-formedness [wf]. *)

From S2P Require Import Prelude Ctaes.

Definition bit (s : AES_state) (k : nat) (p : Z) : bool := Z.testbit s.[k] p.

(** A state is eight 16-bit slices. *)
Definition wf (s : AES_state) : Prop := length s = 8%nat /\ Forall (word 16) s.

Lemma wf_slice s k : wf s -> (k < 8)%nat -> word 16 s.[k].
Proof.
  intros [Hl Hf] Hk. rewrite Forall_nth in Hf. apply Hf. lia.
Qed.

Lemma wf_8 s0 s1 s2 s3 s4 s5 s6 s7 :
  wf [s0; s1; s2; s3; s4; s5; s6; s7] <->
  word 16 s0 /\ word 16 s1 /\ word 16 s2 /\ word 16 s3 /\
  word 16 s4 /\ word 16 s5 /\ word 16 s6 /\ word 16 s7.
Proof. unfold wf. rewrite !Forall_cons. intuition auto. Qed.

(** Destruct a well-formed state into its eight slices. *)
Ltac slices s H :=
  let Hl := fresh in
  destruct (H) as [Hl _];
  do 8 (let x := fresh s in destruct s as [|x s]; [discriminate Hl|]);
  destruct s; [|discriminate Hl]; clear Hl.

Lemma state_ext s s' :
  wf s -> wf s' ->
  (forall k p, (k < 8)%nat -> 0 <= p < 16 -> bit s k p = bit s' k p) -> s = s'.
Proof.
  intros Hs Hs' H. apply (nth_ext s s' 0 0).
  - destruct Hs, Hs'. lia.
  - intros k Hk. assert (k < 8)%nat by (destruct Hs; lia).
    apply (word_eq 16); [lia|by apply wf_slice..|]. intros p Hp. by apply H.
Qed.

Lemma zero_state_wf : wf zero_state.
Proof. apply wf_8. auto 10 with words. Qed.

(** ** The S-box circuit, by relational parametricity *)

Section parametric.
Context {T1 T2 : Type} `{BitOps T1, BitOps T2} (R : T1 -> T2 -> Prop).
Hypothesis Rxor : forall a b c d, R a c -> R b d -> R (bxor a b) (bxor c d).
Hypothesis Rand : forall a b c d, R a c -> R b d -> R (band a b) (band c d).
Hypothesis Ror : forall a b c d, R a c -> R b d -> R (bor a b) (bor c d).
Hypothesis Rnot : forall a b, R a b -> R (bnot a) (bnot b).

Import Circuit.

Definition lin_rel (l : lin T1) (m : lin T2) : Prop :=
  R (lT1 l) (lT1 m) /\ R (lT2 l) (lT2 m) /\ R (lT3 l) (lT3 m) /\ R (lT4 l) (lT4 m) /\
  R (lT6 l) (lT6 m) /\ R (lT8 l) (lT8 m) /\ R (lT9 l) (lT9 m) /\ R (lT10 l) (lT10 m) /\
  R (lT13 l) (lT13 m) /\ R (lT14 l) (lT14 m) /\ R (lT15 l) (lT15 m) /\ R (lT16 l) (lT16 m) /\
  R (lT17 l) (lT17 m) /\ R (lT19 l) (lT19 m) /\ R (lT20 l) (lT20 m) /\ R (lT22 l) (lT22 m) /\
  R (lT23 l) (lT23 m) /\ R (lT24 l) (lT24 m) /\ R (lT25 l) (lT25 m) /\ R (lT26 l) (lT26 m) /\
  R (lT27 l) (lT27 m) /\ R (lD l) (lD m).

Definition prods_rel (l : prods T1) (m : prods T2) : Prop :=
  R (pM46 l) (pM46 m) /\ R (pM47 l) (pM47 m) /\ R (pM48 l) (pM48 m) /\ R (pM49 l) (pM49 m) /\
  R (pM50 l) (pM50 m) /\ R (pM51 l) (pM51 m) /\ R (pM52 l) (pM52 m) /\ R (pM53 l) (pM53 m) /\
  R (pM54 l) (pM54 m) /\ R (pM55 l) (pM55 m) /\ R (pM56 l) (pM56 m) /\ R (pM57 l) (pM57 m) /\
  R (pM58 l) (pM58 m) /\ R (pM59 l) (pM59 m) /\ R (pM60 l) (pM60 m) /\ R (pM61 l) (pM61 m) /\
  R (pM62 l) (pM62 m) /\ R (pM63 l) (pM63 m).

Ltac gates := first [eassumption | apply Rxor; gates | apply Rand; gates
                    | apply Ror; gates | apply Rnot; gates].

Lemma nonlinear_rel l m : lin_rel l m -> prods_rel (nonlinear l) (nonlinear m).
Proof.
  unfold lin_rel. intros; destruct_and!.
  unfold prods_rel, nonlinear; cbn -[bxor band bor bnot]. split_and!; gates.
Qed.

Lemma output_rel (inv : bool) l m :
  prods_rel l m ->
  Forall2 R (if inv then inv_linear_out l else linear_out l)
            (if inv then inv_linear_out m else linear_out m).
Proof.
  unfold prods_rel. intros; destruct_and!.
  destruct inv; unfold inv_linear_out, linear_out; cbn -[bxor band bor bnot];
    repeat (constructor; [gates|]); constructor.
Qed.

Lemma sbox_circuit_rel inv a0 a1 a2 a3 a4 a5 a6 a7 b0 b1 b2 b3 b4 b5 b6 b7 :
  R a0 b0 -> R a1 b1 -> R a2 b2 -> R a3 b3 -> R a4 b4 -> R a5 b5 -> R a6 b6 -> R a7 b7 ->
  Forall2 R (sbox_circuit inv a0 a1 a2 a3 a4 a5 a6 a7)
            (sbox_circuit inv b0 b1 b2 b3 b4 b5 b6 b7).
Proof.
  intros. assert (Hin : lin_rel
    (if inv then inv_linear_in a0 a1 a2 a3 a4 a5 a6 a7 else linear_in a0 a1 a2 a3 a4 a5 a6 a7)
    (if inv then inv_linear_in b0 b1 b2 b3 b4 b5 b6 b7 else linear_in b0 b1 b2 b3 b4 b5 b6 b7)).
  { destruct inv; unfold lin_rel, inv_linear_in, linear_in;
      cbn -[bxor band bor bnot]; split_and!; gates. }
  apply nonlinear_rel, (output_rel inv) in Hin. exact Hin.
Qed.
End parametric.

(** The action of the circuit on the column of bits at one position. *)
Definition sbox_bits (inv : bool) (b : nat -> bool) (k : nat) : bool :=
  nth k (Circuit.sbox_circuit inv (b 7) (b 6) (b 5) (b 4) (b 3) (b 2) (b 1) (b 0))%nat false.

Lemma sbox_bits_ext inv b b' k :
  (forall j, (j < 8)%nat -> b j = b' j) -> sbox_bits inv b k = sbox_bits inv b' k.
Proof. intros H. unfold sbox_bits. by rewrite !H by lia. Qed.

Lemma SubBytes_rel inv s p :
  wf s -> 0 <= p < 16 ->
  Forall2 (fun x b => word 16 x /\ Z.testbit x p = b)
    (SubBytes s inv)
    (Circuit.sbox_circuit inv (bit s 7 p) (bit s 6 p) (bit s 5 p) (bit s 4 p)
       (bit s 3 p) (bit s 2 p) (bit s 1 p) (bit s 0 p)).
Proof.
  intros Hs Hp. unfold SubBytes, bit.
  apply sbox_circuit_rel; [| | | |split; [apply wf_slice; auto; lia|done]..];
    cbn [bxor band bor bnot uint16_ops bool_ops]; intros; destruct_and!; subst.
  - by autorewrite with bits; auto with words.
  - by autorewrite with bits; auto with words.
  - by autorewrite with bits; auto with words.
  - split; [auto with words|]. autorewrite with bits.
    by rewrite (proj2 (Z.ltb_lt p 16)) by lia.
Qed.

Lemma SubBytes_bit inv s k p :
  wf s -> (k < 8)%nat -> 0 <= p < 16 ->
  bit (SubBytes s inv) k p = sbox_bits inv (fun k => bit s k p) k.
Proof.
  intros Hs Hk Hp. pose proof (SubBytes_rel inv s p Hs Hp) as H.
  unfold bit at 1, sbox_bits. rewrite Forall2_lookup in H. specialize (H k).
  rewrite !nth_lookup. inversion H as [x y [_ Hxy] Hx Hy|Hx Hy]; simpl; [done|].
  exfalso. symmetry in Hx. apply lookup_ge_None in Hx.
  destruct inv; unfold SubBytes, Circuit.sbox_circuit in Hx; simpl in Hx; lia.
Qed.

Lemma SubBytes_wf inv s : wf s -> wf (SubBytes s inv).
Proof.
  intros Hs. split; [by destruct inv|].
  eapply Forall2_Forall_l; [apply (SubBytes_rel inv s 0 Hs); lia|].
  apply Forall_true. by intros ? ? [? _].
Qed.

(** ** Slice-wise operations *)

Lemma map_wf f s : wf s -> (forall x, word 16 x -> word 16 (f x)) -> wf (map f s).
Proof.
  intros [Hl Hf] Hword. split; [by rewrite length_map|].
  apply Forall_fmap. by apply (Forall_impl _ _ _ Hf).
Qed.

Lemma zip_with_wf f s t :
  wf s -> wf t -> (forall x y, word 16 x -> word 16 y -> word 16 (f x y)) -> wf (zip_with f s t).
Proof.
  intros [Hl Hf] [Hl' Hf'] Hword. split; [rewrite length_zip_with; lia|].
  eapply Forall_zip_with_fst; [exact Hf|]. apply (Forall_impl _ _ _ Hf'). auto.
Qed.

Lemma map_slice f s k : (k < length s)%nat -> (map f s).[k] = f s.[k].
Proof. intros. rewrite (nth_indep _ 0 (f 0)) by by rewrite length_map. apply map_nth. Qed.

Lemma zip_with_slice f s t k :
  (k < length s)%nat -> (k < length t)%nat -> (zip_with f s t).[k] = f s.[k] t.[k].
Proof.
  intros Hs Ht. rewrite !nth_lookup, lookup_zip_with.
  destruct (lookup_lt_is_Some_2 s k Hs) as [x ->].
  by destruct (lookup_lt_is_Some_2 t k Ht) as [y ->].
Qed.

(** Replace [Z.testbit] of closed arguments by their value. *)
Ltac eval_bits :=
  repeat match goal with
  | |- context [Z.testbit ?c ?i] =>
      let b := eval vm_compute in (Z.testbit c i) in
      lazymatch b with
      | true => change (Z.testbit c i) with true
      | false => change (Z.testbit c i) with false
      end
  | |- context [Z.testbit ?x (?a - ?b)] =>
      let i := eval vm_compute in (a - b) in
      lazymatch i with
      | Z0 => change (a - b) with i | Zpos _ => change (a - b) with i
      | Zneg _ => rewrite (Z.testbit_neg_r x (a - b)) by reflexivity
      end
  | |- context [Z.testbit ?x (?a + ?b)] =>
      let i := eval vm_compute in (a + b) in
      lazymatch i with Z0 => change (a + b) with i | Zpos _ => change (a + b) with i end
  | |- context [?a <? ?b] =>
      let r := eval vm_compute in (a <? b) in
      lazymatch r with true => change (a <? b) with true | false => change (a <? b) with false end
  end;
  rewrite ?andb_true_r, ?andb_false_r, ?orb_false_r, ?orb_false_l, ?andb_true_l, ?andb_false_l,
    ?xorb_false_l, ?xorb_false_r.

(** Split a goal about a position [p] with [0 <= p < 16] into its 16 cases. *)
Ltac positions p Hp :=
  revert p Hp; refine (Z_lt_cases 16 _ _); repeat (constructor; [|]); try constructor; cbn [Z.of_nat Pos.of_succ_nat Pos.succ].

(** Where [ShiftRows] and [InvShiftRows] take the bit of position [4*r+c] from. *)
Definition shift_src (p : Z) : Z := 4 * (p / 4) + (p mod 4 + p / 4) mod 4.
Definition inv_shift_src (p : Z) : Z := 4 * (p / 4) + (p mod 4 - p / 4) mod 4.

Lemma ShiftRows_slice_bit v p :
  0 <= p < 16 -> Z.testbit (ShiftRows_slice v) p = Z.testbit v (shift_src p).
Proof.
  intros Hp. unfold ShiftRows_slice, BIT_RANGE_LEFT, BIT_RANGE_RIGHT.
  positions p Hp; autorewrite with bits; eval_bits; reflexivity.
Qed.

Lemma InvShiftRows_slice_bit v p :
  0 <= p < 16 -> Z.testbit (InvShiftRows_slice v) p = Z.testbit v (inv_shift_src p).
Proof.
  intros Hp. unfold InvShiftRows_slice, BIT_RANGE_LEFT, BIT_RANGE_RIGHT.
  positions p Hp; autorewrite with bits; eval_bits; reflexivity.
Qed.

Lemma ShiftRows_wf s : wf s -> wf (ShiftRows s).
Proof. intros. apply map_wf; [done|]. intros. apply wrap_word. lia. Qed.

Lemma InvShiftRows_wf s : wf s -> wf (InvShiftRows s).
Proof. intros. apply map_wf; [done|]. intros. apply wrap_word. lia. Qed.

Lemma ShiftRows_bit s k p :
  wf s -> (k < 8)%nat -> 0 <= p < 16 -> bit (ShiftRows s) k p = bit s k (shift_src p).
Proof.
  intros [Hl _] Hk Hp. unfold bit, ShiftRows. rewrite map_slice by lia.
  by apply ShiftRows_slice_bit.
Qed.

Lemma InvShiftRows_bit s k p :
  wf s -> (k < 8)%nat -> 0 <= p < 16 -> bit (InvShiftRows s) k p = bit s k (inv_shift_src p).
Proof.
  intros [Hl _] Hk Hp. unfold bit, InvShiftRows. rewrite map_slice by lia.
  by apply InvShiftRows_slice_bit.
Qed.

Lemma AddRoundKey_wf s k : wf s -> wf k -> wf (AddRoundKey s k).
Proof. intros. apply zip_with_wf; auto with words. Qed.

Lemma AddRoundKey_bit s rk k p :
  wf s -> wf rk -> (k < 8)%nat -> bit (AddRoundKey s rk) k p = xorb (bit s k p) (bit rk k p).
Proof.
  intros [Hl _] [Hl' _] Hk. unfold bit, AddRoundKey.
  rewrite zip_with_slice by lia. apply Z.lxor_spec.
Qed.

(** ** Column mixing

    [ROT x b] moves the bit of position [p + 4b] (modulo 16) to position [p]. *)
Lemma ROT_bit x b p :
  word 16 x -> 0 < b < 4 -> 0 <= p < 16 ->
  Z.testbit (ROT x b) p = Z.testbit x ((p + 4 * b) mod 16).
Proof.
  intros Hx Hb Hp. unfold ROT. autorewrite with bits.
  destruct (decide (p + 4 * b < 16)).
  - rewrite (Z.testbit_neg_r x (_ - _)), orb_false_r, Z.mod_small by lia. f_equal; lia.
  - rewrite (word_bit_high 16 x (p + _)), orb_false_l by (done || lia).
    f_equal. replace (p + 4 * b) with (p - (4 - b) * 4 + 1 * 16) by lia.
    rewrite Z_mod_plus_full, Z.mod_small; lia.
Qed.

Lemma u16_testbit x p : 0 <= p < 16 -> Z.testbit (u16 x) p = Z.testbit x p.
Proof. intros. rewrite wrap_testbit by lia. by rewrite (proj2 (Z.ltb_lt p 16)) by lia. Qed.

(** The bits of [s + {02}*...]: bit [k] of [s?_01] and [s?_123] at [p]. *)
Definition b01 (s : AES_state) (k : nat) (p : Z) : bool :=
  xorb (bit s k p) (bit s k ((p + 4) mod 16)).
Definition b123 (s : AES_state) (k : nat) (p : Z) : bool :=
  xorb (b01 s k ((p + 4) mod 16)) (bit s k ((p + 12) mod 16)).

Definition mix_bit (s : AES_state) (k : nat) (p : Z) : bool :=
  match k with
  | 0 => xorb (b01 s 7 p) (b123 s 0 p)
  | 1 => xorb (xorb (b01 s 7 p) (b01 s 0 p)) (b123 s 1 p)
  | 3 => xorb (xorb (b01 s 7 p) (b01 s 2 p)) (b123 s 3 p)
  | 4 => xorb (xorb (b01 s 7 p) (b01 s 3 p)) (b123 s 4 p)
  | S k' => xorb (b01 s k' p) (b123 s k p)
  end%nat.

Lemma slice_01_bit x p :
  word 16 x -> 0 <= p < 16 ->
  Z.testbit (u16 (x ⊕ ROT x 1)) p = xorb (Z.testbit x p) (Z.testbit x ((p + 4) mod 16)).
Proof. intros. by rewrite u16_testbit, Z.lxor_spec, ROT_bit by (done || lia). Qed.

Lemma slice_123_bit x y p :
  word 16 x -> word 16 y -> 0 <= p < 16 ->
  Z.testbit (u16 (ROT y 1 ⊕ ROT x 3)) p =
  xorb (Z.testbit y ((p + 4) mod 16)) (Z.testbit x ((p + 12) mod 16)).
Proof. intros. by rewrite u16_testbit, Z.lxor_spec, !ROT_bit by (done || lia). Qed.

Lemma MixColumns_fwd_wf s : wf s -> wf (MixColumns_fwd s).
Proof. intros Hs. apply wf_8. split_and!; auto with words. Qed.

Lemma MixColumns_fwd_bit s k p :
  wf s -> (k < 8)%nat -> 0 <= p < 16 -> bit (MixColumns_fwd s) k p = mix_bit s k p.
Proof.
  intros Hs Hk Hp. assert (Hp' : 0 <= (p + 4) mod 16 < 16) by (apply Z.mod_pos_bound; lia).
  assert (Hw : forall k, (k < 8)%nat -> word 16 s.[k]) by (intros; by apply wf_slice).
  do 8 (destruct k as [|k]; [
    unfold bit at 1; cbn [MixColumns_fwd nth]; unfold mix_bit, b123, b01, bit;
    rewrite ?Z.lxor_spec, ?slice_123_bit, ?slice_01_bit
      by (done || (apply Hw; lia) || auto with words); reflexivity|]).
  lia.
Qed.

(** The extra factor of the inverse: [{04} * (x^2 + {01}) + {01}]. *)
Definition b02 (s : AES_state) (k : nat) (p : Z) : bool :=
  xorb (bit s k p) (bit s k ((p + 8) mod 16)).

Definition unmix_bit (s : AES_state) (k : nat) (p : Z) : bool :=
  xorb (bit s k p)
    match k with
    | 0 => b02 s 6 p
    | 1 => xorb (b02 s 6 p) (b02 s 7 p)
    | 2 => xorb (b02 s 0 p) (b02 s 7 p)
    | 3 => xorb (b02 s 1 p) (b02 s 6 p)
    | 4 => xorb (xorb (b02 s 2 p) (b02 s 6 p)) (b02 s 7 p)
    | 5 => xorb (b02 s 3 p) (b02 s 7 p)
    | S (S k) => b02 s k p
    end%nat.

Lemma MixColumns_inv_wf s : wf s -> wf (MixColumns_inv s).
Proof.
  intros Hs. pose proof (fun k => wf_slice s k Hs).
  apply wf_8. split_and!; auto with words arith.
Qed.

Lemma MixColumns_inv_bit s k p :
  wf s -> (k < 8)%nat -> 0 <= p < 16 -> bit (MixColumns_inv s) k p = unmix_bit s k p.
Proof.
  intros Hs Hk Hp.
  assert (Hw : forall k, (k < 8)%nat -> word 16 s.[k]) by (intros; by apply wf_slice).
  do 8 (destruct k as [|k]; [
    unfold bit at 1; cbn [MixColumns_inv nth]; unfold unmix_bit, b02, bit;
    rewrite ?Z.lxor_spec, ?u16_testbit, ?Z.lxor_spec, ?ROT_bit
      by (done || (apply Hw; lia) || auto with words); reflexivity|]).
  lia.
Qed.

Lemma MixColumns_wf s inv : wf s -> wf (MixColumns s inv).
Proof.
  intros. unfold MixColumns. destruct inv; auto using MixColumns_fwd_wf, MixColumns_inv_wf.
Qed.
