(* ===== verification/CtaesRefine.v ===== *)
(** * CtaesRefine: each bit-sliced transformation implements its FIPS-197 counterpart

    The round transformations of ctaes.c are inverse pairs and implement the
    byte-level transformations of FIPS-197.  The abstraction function from bit-sliced states to blocks of 16 bytes is
    the code's own [SaveBytes].

    [LoadBytes] followed by [SaveBytes] is the identity on blocks of 16 bytes,
    because every bit of every byte has exactly one place in the slices. *)

From Stdlib Require Import Ring.
From S2P Require Import Prelude Ctaes AesSpec CtaesBits.

(** ** Loading and saving *)

(** One bit shifted into place. *)
Lemma placed_bit y n p :
  0 <= n -> 0 <= p -> Z.testbit (Z.land y 1 ≪ n) p = (p =? n) && Z.testbit y 0.
Proof.
  intros Hn Hp. rewrite Z.shiftl_spec by lia. destruct (Z.eqb_spec p n) as [->|Hne].
  - by rewrite Z.sub_diag, Z.land_spec, andb_true_r.
  - destruct (decide (p < n)); [by rewrite Z.testbit_neg_r by lia|].
    rewrite Z.land_spec, (word_bit_high 1 1), andb_false_r; [done|done|lia].
Qed.

Lemma land_1_word y n w : 0 <= n < w -> word w (Z.land y 1 ≪ n).
Proof.
  intros. apply word_bits; [lia|]. split.
  - apply Z.shiftl_nonneg, Z.land_nonneg. lia.
  - intros i Hi. rewrite placed_bit by lia. by rewrite (proj2 (Z.eqb_neq i n)) by lia.
Qed.

Lemma SaveByte_bit s r c k :
  (k < 8)%nat -> Z.testbit (SaveByte s r c) (Z.of_nat k) = bit s k (Z.of_nat (4 * r + c)).
Proof.
  intros Hk. unfold SaveByte, bit. replace (r * 4 + c)%nat with (4 * r + c)%nat by lia.
  cbn [seq fold_left]. set (n := Z.of_nat (4 * r + c)).
  do 8 (destruct k as [|k]; [
    repeat first [rewrite wrap_testbit by lia | rewrite Z.lor_spec | rewrite placed_bit by lia];
    rewrite !Z.shiftr_spec by lia; rewrite Z.testbit_0_l, Z.add_0_l; cbn [Z.of_nat Pos.of_succ_nat Pos.succ];
    repeat match goal with
    | |- context [?a =? ?b] => let x := eval vm_compute in (a =? b) in change (a =? b) with x
    | |- context [?a <? ?b] => let x := eval vm_compute in (a <? b) in change (a <? b) with x
    end; cbn [andb orb]; rewrite ?orb_false_r; reflexivity|]).
  lia.
Qed.

Lemma SaveByte_byte s r c : byte (SaveByte s r c).
Proof. unfold SaveByte. cbn [seq fold_left]. apply wrap_word. lia. Qed.

Lemma LoadByte_wf s b r c : wf s -> wf (LoadByte s b r c).
Proof.
  intros Hs. unfold LoadByte. slices s Hs. cbn -[Z.land Z.lor wrap Z.of_nat].
  apply wf_8. split_and!; auto with words.
Qed.

Lemma LoadByte_bit s b r c k p :
  wf s -> byte b -> (r < 4)%nat -> (c < 4)%nat -> (k < 8)%nat -> 0 <= p < 16 ->
  bit (LoadByte s b r c) k p =
  bit s k p || (p =? Z.of_nat (4 * r + c)) && Z.testbit b (Z.of_nat k).
Proof.
  intros Hs Hb Hr Hc Hk Hp. unfold LoadByte, bit.
  replace (r * 4 + c)%nat with (4 * r + c)%nat by lia.
  set (n := Z.of_nat (4 * r + c)). slices s Hs. cbn -[Z.land Z.lor wrap Z.of_nat Z.testbit].
  do 8 (destruct k as [|k]; [
    cbn [nth]; rewrite u16_testbit, Z.lor_spec, placed_bit by lia;
    f_equal; f_equal; autorewrite with bits; reflexivity|]).
  lia.
Qed.

Lemma LoadBytes_wf data : wf (LoadBytes zero_state data).
Proof.
  unfold LoadBytes. cbn [seq fold_left]. do 16 apply LoadByte_wf. apply zero_state_wf.
Qed.

Lemma LoadBytes_bit data r c k :
  length data = 16%nat -> Forall byte data -> (r < 4)%nat -> (c < 4)%nat -> (k < 8)%nat ->
  bit (LoadBytes zero_state data) k (Z.of_nat (4 * r + c)) =
  Z.testbit data.[4 * c + r] (Z.of_nat k).
Proof.
  intros Hl Hd Hr Hc Hk. unfold LoadBytes. cbn [seq fold_left].
  assert (Hb : forall i, (i < 16)%nat -> byte data.[i])
    by (intros i Hi; rewrite Forall_nth in Hd; apply Hd; lia).
  rewrite !LoadByte_bit by
    (first [lia | apply Hb; lia | repeat apply LoadByte_wf; apply zero_state_wf]).
  unfold bit. replace (zero_state.[k]) with 0 by (do 8 (destruct k; [done|]); lia).
  rewrite Z.testbit_0_l.
  do 4 (destruct r as [|r]; [do 4 (destruct c as [|c];
    [cbn -[Z.testbit nth]; rewrite ?orb_false_r; reflexivity|]); lia|]); lia.
Qed.

Lemma SaveByte_LoadBytes data r c :
  length data = 16%nat -> Forall byte data -> (r < 4)%nat -> (c < 4)%nat ->
  SaveByte (LoadBytes zero_state data) r c = data.[4 * c + r].
Proof.
  intros Hl Hd Hr Hc. apply (word_eq 8); [lia|apply SaveByte_byte| |].
  - rewrite Forall_nth in Hd. apply Hd. lia.
  - intros k Hk. rewrite <-(Z2Nat.id k) by lia.
    rewrite SaveByte_bit by lia. apply LoadBytes_bit; auto; lia.
Qed.

Lemma SaveBytes_length s : length (SaveBytes s) = 16%nat.
Proof. reflexivity. Qed.

Lemma SaveBytes_bytes s : Forall byte (SaveBytes s).
Proof. unfold SaveBytes. cbn [seq flat_map map app]. repeat (constructor; [apply SaveByte_byte|]). constructor. Qed.

Lemma SaveBytes_nth s r c :
  (r < 4)%nat -> (c < 4)%nat -> (SaveBytes s).[4 * c + r] = SaveByte s r c.
Proof.
  intros Hr Hc.
  do 4 (destruct r as [|r]; [do 4 (destruct c as [|c]; [reflexivity|]); lia|]); lia.
Qed.

(** Two blocks of 16 are equal when they agree in every row and column. *)
Lemma block_ext (l l' : list Z) :
  length l = 16%nat -> length l' = 16%nat ->
  (forall r c, (r < 4)%nat -> (c < 4)%nat -> l.[4 * c + r] = l'.[4 * c + r]) -> l = l'.
Proof.
  intros Hl Hl' H. apply (nth_ext l l' 0 0); [lia|]. intros i Hi.
  rewrite (Nat.div_mod_eq i 4). apply H.
  - by apply Nat.mod_upper_bound.
  - apply Nat.Div0.div_lt_upper_bound. lia.
Qed.

Lemma SaveBytes_LoadBytes data :
  length data = 16%nat -> Forall byte data -> SaveBytes (LoadBytes zero_state data) = data.
Proof.
  intros Hl Hd. apply block_ext; [done|done|]. intros r c Hr Hc.
  by rewrite SaveBytes_nth, SaveByte_LoadBytes.
Qed.

(** [SaveBytes] is injective on well-formed states: it is a bijection between
    states and blocks. *)
Lemma LoadBytes_SaveBytes s : wf s -> LoadBytes zero_state (SaveBytes s) = s.
Proof.
  intros Hs. apply state_ext; auto using LoadBytes_wf. intros k p Hk Hp.
  replace p with (Z.of_nat (4 * Z.to_nat (p / 4) + Z.to_nat (p mod 4)))
    by (Z.to_euclidean_division_equations; lia).
  assert (Z.to_nat (p / 4) < 4)%nat by (Z.to_euclidean_division_equations; lia).
  assert (Z.to_nat (p mod 4) < 4)%nat by (Z.to_euclidean_division_equations; lia).
  rewrite LoadBytes_bit by auto using SaveBytes_bytes.
  by rewrite SaveBytes_nth, SaveByte_bit by lia.
Qed.

(** ** Inverse laws *)

(** The two directions of the S-box circuit are inverse on every column. *)
Lemma sbox_bits_inverse inv b k :
  (k < 8)%nat -> sbox_bits (negb inv) (sbox_bits inv b) k = b k.
Proof.
  intros Hk. unfold sbox_bits.
  do 8 (destruct k as [|k];
    [destruct inv; destruct (b 0%nat), (b 1%nat), (b 2%nat), (b 3%nat),
       (b 4%nat), (b 5%nat), (b 6%nat), (b 7%nat); reflexivity|]).
  lia.
Qed.

Lemma SubBytes_inverse inv s : wf s -> SubBytes (SubBytes s inv) (negb inv) = s.
Proof.
  intros Hs. apply state_ext; auto using SubBytes_wf. intros k p Hk Hp.
  rewrite SubBytes_bit by auto using SubBytes_wf.
  rewrite (sbox_bits_ext _ _ (sbox_bits inv (fun k => bit s k p)))
    by (intros; by apply SubBytes_bit).
  by rewrite sbox_bits_inverse.
Qed.

Lemma shift_src_range p : 0 <= p < 16 -> 0 <= shift_src p < 16.
Proof. unfold shift_src. intros. Z.to_euclidean_division_equations. lia. Qed.

Lemma inv_shift_src_range p : 0 <= p < 16 -> 0 <= inv_shift_src p < 16.
Proof. unfold inv_shift_src. intros. Z.to_euclidean_division_equations. lia. Qed.

Lemma shift_src_inv p : 0 <= p < 16 -> shift_src (inv_shift_src p) = p.
Proof. intros Hp. positions p Hp; reflexivity. Qed.

Lemma inv_shift_src_shift p : 0 <= p < 16 -> inv_shift_src (shift_src p) = p.
Proof. intros Hp. positions p Hp; reflexivity. Qed.

Lemma InvShiftRows_ShiftRows s : wf s -> InvShiftRows (ShiftRows s) = s.
Proof.
  intros Hs. apply state_ext; auto using ShiftRows_wf, InvShiftRows_wf. intros k p Hk Hp.
  rewrite InvShiftRows_bit, ShiftRows_bit by auto using ShiftRows_wf, inv_shift_src_range.
  by rewrite shift_src_inv.
Qed.

Lemma ShiftRows_InvShiftRows s : wf s -> ShiftRows (InvShiftRows s) = s.
Proof.
  intros Hs. apply state_ext; auto using ShiftRows_wf, InvShiftRows_wf. intros k p Hk Hp.
  rewrite ShiftRows_bit, InvShiftRows_bit by auto using InvShiftRows_wf, shift_src_range.
  by rewrite inv_shift_src_shift.
Qed.

Lemma AddRoundKey_involutive s k : wf s -> wf k -> AddRoundKey (AddRoundKey s k) k = s.
Proof.
  intros Hs Hk. apply state_ext; auto using AddRoundKey_wf. intros i p Hi Hp.
  rewrite !AddRoundKey_bit by auto using AddRoundKey_wf.
  by rewrite xorb_assoc, xorb_nilpotent, xorb_false_r.
Qed.

Lemma pos_16 p : 0 <= p < 16 -> (p + 16) mod 16 = p.
Proof. intros. change 16 with (1 * 16) at 1. rewrite Z_mod_plus_full. by apply Z.mod_small. Qed.

Lemma pos_over p c : (p + c) mod 16 = (p + (c - 16)) mod 16.
Proof. rewrite <-(Z_mod_plus_full (p + (c - 16)) 1 16). f_equal. lia. Qed.

(** Positions in one column are [p], [p+4], [p+8], [p+12] modulo 16. *)
Ltac fold_positions p :=
  rewrite ?Zplus_mod_idemp_l, <-?Z.add_assoc;
  repeat match goal with
  | |- context [(p + (?a + ?b))] => let c := eval vm_compute in (a + b) in change (a + b) with c
  | |- context [(p + 16) mod 16] => rewrite (pos_16 p) by lia
  | |- context [(p + ?c) mod 16] =>
      let d := eval vm_compute in (c - 16) in
      lazymatch d with Zpos _ => rewrite (pos_over p c); change (c - 16) with d end
  end.

Lemma MixColumns_inverse s : wf s -> MixColumns (MixColumns s false) true = s.
Proof.
  intros Hs. assert (Hf := MixColumns_fwd_wf s Hs). assert (Hff := MixColumns_fwd_wf _ Hf).
  unfold MixColumns. apply state_ext; auto using MixColumns_inv_wf. intros k p Hk Hp.
  rewrite MixColumns_inv_bit by auto.
  assert (Hm : forall q, 0 <= q mod 16 < 16) by (intros; apply Z.mod_pos_bound; lia).
  do 8 (destruct k as [|k]; [
    unfold unmix_bit, b02; rewrite !(MixColumns_fwd_bit (MixColumns_fwd s)) by (auto || lia);
    unfold mix_bit, b123, b01; rewrite !(MixColumns_fwd_bit s) by (auto || lia);
    unfold mix_bit, b123, b01; fold_positions p; ring|]).
  lia.
Qed.

Lemma MixColumns_inverse_l s : wf s -> MixColumns (MixColumns s true) false = s.
Proof.
  intros Hs. assert (Hf := MixColumns_fwd_wf s Hs). assert (Hi := MixColumns_inv_wf _ Hf).
  unfold MixColumns. apply state_ext; auto using MixColumns_fwd_wf. intros k p Hk Hp.
  rewrite MixColumns_fwd_bit by auto.
  assert (Hm : forall q, 0 <= q mod 16 < 16) by (intros; apply Z.mod_pos_bound; lia).
  do 8 (destruct k as [|k]; [
    unfold mix_bit, b123, b01; rewrite !(MixColumns_inv_bit (MixColumns_fwd s)) by (auto || lia);
    unfold unmix_bit, b02; rewrite !(MixColumns_fwd_bit s) by (auto || lia);
    unfold mix_bit, b123, b01; fold_positions p; ring|]).
  lia.
Qed.

(** A byte of the state, as a function of its bits. *)
Lemma SaveByte_ext s r c x :
  byte x -> (forall k, (k < 8)%nat -> bit s k (Z.of_nat (4 * r + c)) = Z.testbit x (Z.of_nat k)) ->
  SaveByte s r c = x.
Proof.
  intros Hx H. apply (word_eq 8); [lia|apply SaveByte_byte|done|].
  intros k Hk. rewrite <-(Z2Nat.id k) by lia. rewrite SaveByte_bit by lia. apply H. lia.
Qed.

(** The circuit computes the S-box of FIPS-197 on every byte. *)
Lemma sbox_bits_sbox x k :
  byte x -> (k < 8)%nat ->
  sbox_bits false (fun j => Z.testbit x (Z.of_nat j)) k = Z.testbit (sbox x) (Z.of_nat k).
Proof.
  intros Hx Hk.
  by_bytes (fun x => forallb (fun k => Bool.eqb (sbox_bits false (fun j => Z.testbit x (Z.of_nat j)) k)
    (Z.testbit (sbox x) (Z.of_nat k))) (seq 0 8)) x Hx.
  rewrite forallb_forall in Hbyte. apply Bool.eqb_prop, Hbyte, in_seq. lia.
Qed.

Lemma inv_sbox_bits_inv_sbox x k :
  byte x -> (k < 8)%nat ->
  sbox_bits true (fun j => Z.testbit x (Z.of_nat j)) k = Z.testbit (inv_sbox x) (Z.of_nat k).
Proof.
  intros Hx Hk.
  by_bytes (fun x => forallb (fun k => Bool.eqb (sbox_bits true (fun j => Z.testbit x (Z.of_nat j)) k)
    (Z.testbit (inv_sbox x) (Z.of_nat k))) (seq 0 8)) x Hx.
  rewrite forallb_forall in Hbyte. apply Bool.eqb_prop, Hbyte, in_seq. lia.
Qed.

Lemma SubBytes_cell s r c :
  wf s -> (r < 4)%nat -> (c < 4)%nat -> SaveByte (SubBytes s false) r c = sbox (SaveByte s r c).
Proof.
  intros Hs Hr Hc. apply SaveByte_ext; [apply sbox_byte, SaveByte_byte|]. intros k Hk.
  rewrite SubBytes_bit, <-sbox_bits_sbox by (auto using SaveByte_byte; lia).
  apply sbox_bits_ext. intros. by rewrite SaveByte_bit.
Qed.

Lemma inv_sbox_byte x : byte x -> byte (inv_sbox x).
Proof.
  intros Hx. by_bytes (fun x => (0 <=? inv_sbox x) && (inv_sbox x <? 256)) x Hx.
  unfold word. change (2 ^ 8) with 256. lia.
Qed.

Lemma InvSubBytes_cell s r c :
  wf s -> (r < 4)%nat -> (c < 4)%nat -> SaveByte (SubBytes s true) r c = inv_sbox (SaveByte s r c).
Proof.
  intros Hs Hr Hc. apply SaveByte_ext; [apply inv_sbox_byte, SaveByte_byte|]. intros k Hk.
  rewrite SubBytes_bit, <-inv_sbox_bits_inv_sbox by (auto using SaveByte_byte; lia).
  apply sbox_bits_ext. intros. by rewrite SaveByte_bit.
Qed.

Lemma ShiftRows_cell s r c :
  wf s -> (r < 4)%nat -> (c < 4)%nat ->
  SaveByte (ShiftRows s) r c = SaveByte s r ((c + r) mod 4).
Proof.
  intros Hs Hr Hc. apply SaveByte_ext; [apply SaveByte_byte|]. intros k Hk.
  rewrite ShiftRows_bit, SaveByte_bit by (auto; lia). f_equal.
  do 4 (destruct r as [|r]; [do 4 (destruct c as [|c]; [reflexivity|]); lia|]); lia.
Qed.

Lemma AddRoundKey_cell s k r c :
  wf s -> wf k -> SaveByte (AddRoundKey s k) r c = SaveByte s r c ⊕ SaveByte k r c.
Proof.
  intros Hs Hk. apply SaveByte_ext; [auto using SaveByte_byte with words|].
  intros i Hi. by rewrite AddRoundKey_bit, Z.lxor_spec, !SaveByte_bit.
Qed.

Lemma mix_column_byte a r : Forall byte a -> length a = 4%nat -> byte (mix_column a r).
Proof.
  intros Ha Hl. unfold mix_column.
  assert (H : forall i, byte a.[i mod 4]).
  { intros. rewrite Forall_nth in Ha. apply Ha. rewrite Hl. by apply Nat.mod_upper_bound. }
  assert (Hr : byte a.[r]).
  { destruct (decide (r < 4)%nat) as [Hr|]; [rewrite Forall_nth in Ha; apply Ha; lia|].
    rewrite nth_overflow by lia. by auto with words. }
  auto 10 using xtime_byte with words.
Qed.

Definition cells (s : AES_state) (c : nat) : list Z := map (fun r => SaveByte s r c) (seq 0 4).

(** Compute the closed positions of [bit s k p]. *)
Ltac eval_positions s :=
  repeat match goal with
  | |- context [bit s ?k ?p] =>
      let q := eval vm_compute in p in progress change (bit s k p) with (bit s k q)
  end.

Lemma MixColumns_cell s r c :
  wf s -> (r < 4)%nat -> (c < 4)%nat ->
  SaveByte (MixColumns s false) r c = mix_column (cells s c) r.
Proof.
  intros Hs Hr Hc. apply SaveByte_ext.
  { apply mix_column_byte; [|done]. repeat constructor; apply SaveByte_byte. }
  intros k Hk. unfold MixColumns. rewrite MixColumns_fwd_bit by (auto; lia).
  unfold mix_column. rewrite !Z.lxor_spec.
  assert (Hcell : forall r, (r < 4)%nat -> (cells s c).[r] = SaveByte s r c)
    by (intros i Hi; do 4 (destruct i as [|i]; [done|]); lia).
  rewrite !Hcell by (try apply Nat.mod_upper_bound; lia).
  rewrite !xtime_testbit by auto using SaveByte_byte.
  do 4 (destruct r as [|r]; [do 4 (destruct c as [|c]; [
    do 8 (destruct k as [|k]; [
      unfold xtime_bits; rewrite !SaveByte_bit by lia;
      unfold mix_bit, b123, b01; eval_positions s; ring|]); lia|]); lia|]); lia.
Qed.
