(* ===== verification/CtaesKey.v ===== *)
(** * CtaesKey: [AES_setup] computes the key expansion of FIPS-197

    Word [j] of the schedule is kept in column [j mod 4] of round key [j / 4];
    [word_at] reads it back as four bytes.  The expansion loop of the C code is
    related to [AesSpec.key_expansion] by the invariant [setup_inv]. *)

From S2P Require Import Prelude Ctaes CtaesBits CtaesRefine AesSpec.

Definition word_at (rounds : list AES_state) (j : nat) : list Z :=
  cells (nth (j / 4) rounds []) (j mod 4).

(** ** The helpers, on the columns they read and write *)

Lemma cells_ext s c x0 x1 x2 x3 :
  SaveByte s 0 c = x0 -> SaveByte s 1 c = x1 -> SaveByte s 2 c = x2 -> SaveByte s 3 c = x3 ->
  cells s c = [x0; x1; x2; x3].
Proof. by intros <- <- <- <-. Qed.

Lemma mask_1111_bit x c p :
  word 16 x -> 0 <= c < 4 -> 0 <= p < 16 ->
  Z.testbit (Z.land (x ≫ c) 0x1111) p = (p mod 4 =? 0) && Z.testbit x (p + c).
Proof.
  intros Hx Hc Hp. autorewrite with bits. rewrite andb_comm. f_equal.
  clear Hx Hc. by positions p Hp.
Qed.

Lemma place_1111_bit x c p :
  0 <= c < 4 -> 0 <= p < 16 ->
  Z.testbit (Z.land x 0x1111 ≪ c) p = (p mod 4 =? c) && Z.testbit x (p - c).
Proof.
  intros Hc Hp. autorewrite with bits. rewrite andb_comm.
  destruct (decide (p < c)) as [Hlt|Hge].
  - by rewrite (Z.testbit_neg_r x (p - c)), !andb_false_r by lia.
  - f_equal. clear Hge. revert p Hp c Hc.
    refine (Z_lt_cases 16 _ _). repeat (constructor; [|]); try constructor;
      refine (Z_lt_cases 4 _ _); repeat (constructor; [|]); try constructor; reflexivity.
Qed.

Lemma GetOneColumn_wf a c : wf a -> wf (GetOneColumn a c).
Proof. intros. apply map_wf; [done|]. auto with words. Qed.

Lemma GetOneColumn_cells a c :
  wf a -> (c < 4)%nat -> cells (GetOneColumn a c) 0 = cells a c.
Proof.
  intros Ha Hc. assert (Hl := proj1 Ha).
  assert (H : forall r, (r < 4)%nat -> SaveByte (GetOneColumn a c) r 0 = SaveByte a r c).
  { intros r Hr. apply SaveByte_ext; [apply SaveByte_byte|]. intros k Hk.
    rewrite SaveByte_bit by done. unfold bit, GetOneColumn. rewrite map_slice by lia.
    rewrite mask_1111_bit by (try apply wf_slice; auto; lia).
    replace (Z.of_nat (4 * r + 0) + Z.of_nat c) with (Z.of_nat (4 * r + c)) by lia.
    replace (Z.of_nat (4 * r + 0) mod 4 =? 0) with true; [done|].
    by do 4 (destruct r as [|r]; [done|]); lia. }
  unfold cells. cbn [map seq]. by rewrite !H by lia.
Qed.

Lemma KeySetupTransform_wf s r : wf s -> wf r -> wf (KeySetupTransform s r).
Proof. intros. apply zip_with_wf; auto with words. Qed.

Lemma KeySetupTransform_cells s rc :
  wf s -> wf rc ->
  cells (KeySetupTransform s rc) 0 = zip_with Z.lxor (rot_word (cells s 0)) (cells rc 0).
Proof.
  intros Hs Hrc. assert (Hl := proj1 Hs). assert (Hl' := proj1 Hrc).
  assert (H : forall r, (r < 4)%nat ->
    SaveByte (KeySetupTransform s rc) r 0 = SaveByte s ((r + 1) mod 4) 0 ⊕ SaveByte rc r 0).
  { intros r Hr. apply SaveByte_ext; [auto using SaveByte_byte with words|]. intros k Hk.
    rewrite Z.lxor_spec, !SaveByte_bit by done. unfold bit, KeySetupTransform.
    rewrite zip_with_slice, u16_testbit, Z.lxor_spec by lia. f_equal.
    change (Z.lor (s.[k] ≫ 4) (s.[k] ≪ 12)) with (ROT s.[k] 1).
    rewrite ROT_bit by (try apply wf_slice; auto; lia). f_equal.
    by do 4 (destruct r as [|r]; [done|]); lia. }
  unfold cells. cbn [map seq]. by rewrite !H by lia.
Qed.

Lemma SubBytes_cells s c : wf s -> (c < 4)%nat -> cells (SubBytes s false) c = sub_word (cells s c).
Proof. intros. unfold cells. cbn [map seq]. by rewrite !SubBytes_cell by (auto; lia). Qed.

Lemma MultX_wf s : wf s -> wf (MultX s).
Proof. intros Hs. pose proof (fun k => wf_slice s k Hs). apply wf_8. split_and!; auto with words arith. Qed.

Lemma MultX_cells s c : wf s -> (c < 4)%nat -> cells (MultX s) c = map xtime (cells s c).
Proof.
  intros Hs Hc.
  assert (H : forall r, (r < 4)%nat -> SaveByte (MultX s) r c = xtime (SaveByte s r c)).
  { intros r Hr. apply SaveByte_ext; [apply xtime_byte, SaveByte_byte|]. intros k Hk.
    rewrite xtime_testbit by auto using SaveByte_byte.
    do 8 (destruct k as [|k]; [unfold xtime_bits; rewrite !SaveByte_bit by lia;
      unfold bit at 1; cbn [MultX nth]; rewrite ?Z.lxor_spec; done|]); lia. }
  unfold cells. cbn [map seq]. by rewrite !H by lia.
Qed.

(** [KeySetupColumnMix] adds column [c2] of [a] to column 0 of [s] and ors the
    result into column [c1] of [r], leaving the other columns of [r] alone. *)
Section column_mix.
Context (s r a s' r' : AES_state) (c1 c2 : nat).
Hypotheses (Hs : wf s) (Hr : wf r) (Ha : wf a) (Hc1 : (c1 < 4)%nat) (Hc2 : (c2 < 4)%nat).
Hypothesis Hmix : KeySetupColumnMix s r a c1 c2 = (s', r').

Lemma column_mix_wf : wf s' /\ wf r'.
Proof.
  injection Hmix as <- <-. assert (Hw : forall x c, word 16 x -> word 16 (Z.land (x ≫ Z.of_nat c) 0x1111))
    by auto with words.
  split; apply zip_with_wf; auto with words. apply zip_with_wf; auto with words.
Qed.

Lemma column_mix_s : cells s' 0 = zip_with Z.lxor (cells s 0) (cells a c2).
Proof.
  injection Hmix as <- _. pose proof (proj1 Hs). pose proof (proj1 Ha).
  assert (Hcell : forall i, (i < 4)%nat -> SaveByte (zip_with (fun x y : Z =>
    x ⊕ Z.land (y ≫ Z.of_nat c2) 4369) s a) i 0 = SaveByte s i 0 ⊕ SaveByte a i c2).
  { intros i Hi. apply SaveByte_ext; [auto using SaveByte_byte with words|]. intros k Hk.
    rewrite Z.lxor_spec, !SaveByte_bit by done. unfold bit. rewrite zip_with_slice, Z.lxor_spec by lia.
    f_equal. rewrite mask_1111_bit by (try apply wf_slice; auto; lia).
    replace (Z.of_nat (4 * i + 0) + Z.of_nat c2) with (Z.of_nat (4 * i + c2)) by lia.
    by do 4 (destruct i as [|i]; [done|]); lia. }
  unfold cells. cbn [map seq zip_with]. by rewrite !Hcell by lia.
Qed.

Lemma column_mix_r c :
  (c < 4)%nat ->
  cells r' c = if (c =? c1)%nat then zip_with Z.lor (cells r c) (cells s' 0) else cells r c.
Proof.
  intros Hc. destruct column_mix_wf as [Hs' _]. pose proof (proj1 Hr). pose proof (proj1 Hs').
  injection Hmix as Es <-. rewrite Es.
  assert (Hcell : forall i, (i < 4)%nat -> SaveByte (zip_with (fun y x : Z =>
    u16 (Z.lor y (Z.land x 4369 ≪ Z.of_nat c1))) r s') i c =
    Z.lor (SaveByte r i c) (if (c =? c1)%nat then SaveByte s' i 0 else 0)).
  { intros i Hi. apply SaveByte_ext.
    { apply word_lor; auto using SaveByte_byte with words.
      destruct (_ =? _)%nat; auto using SaveByte_byte with words. }
    intros k Hk. rewrite Z.lor_spec, SaveByte_bit by done. unfold bit.
    rewrite zip_with_slice, u16_testbit, Z.lor_spec, place_1111_bit by lia. f_equal.
    replace (Z.of_nat (4 * i + c) mod 4) with (Z.of_nat c)
      by (do 4 (destruct i as [|i]; [do 4 (destruct c as [|c]; [done|]); lia|]); lia).
    destruct (Nat.eqb_spec c c1) as [->|Hne].
    - rewrite Z.eqb_refl, SaveByte_bit by done. unfold bit. cbn [andb]. f_equal. lia.
    - by rewrite (proj2 (Z.eqb_neq _ _)), Z.testbit_0_l by lia. }
  unfold cells. cbn [map seq]. rewrite !Hcell by lia.
  destruct (c =? c1)%nat; cbn [zip_with]; by rewrite ?Z.lor_0_r.
Qed.
End column_mix.

(** ** Loading the key words *)

Abbreviation zero_word := (replicate 4 0).

Lemma LoadByte_cells s b r c c' :
  wf s -> byte b -> (r < 4)%nat -> (c < 4)%nat -> (c' < 4)%nat ->
  cells (LoadByte s b r c) c' =
  if (c' =? c)%nat then alter (fun x => Z.lor x b) r (cells s c') else cells s c'.
Proof.
  intros Hs Hb Hr Hc Hc'.
  assert (H : forall i, (i < 4)%nat -> SaveByte (LoadByte s b r c) i c' =
    Z.lor (SaveByte s i c') (if (c' =? c)%nat && (i =? r)%nat then b else 0)).
  { intros i Hi. apply SaveByte_ext.
    { apply word_lor; auto using SaveByte_byte with words.
      destruct (_ && _); auto with words. }
    intros k Hk. rewrite LoadByte_bit, Z.lor_spec, SaveByte_bit by (auto; lia). f_equal.
    destruct (Nat.eqb_spec c' c), (Nat.eqb_spec i r); subst; cbn [andb];
      rewrite ?Z.testbit_0_l; [by rewrite Z.eqb_refl|..];
      by rewrite (proj2 (Z.eqb_neq _ _)) by lia. }
  unfold cells. cbn [map seq]. rewrite !H by lia.
  destruct (c' =? c)%nat; cbn [andb]; rewrite ?Z.lor_0_r; [|done].
  do 4 (destruct r as [|r]; [cbn -[Z.lor]; by rewrite ?Z.lor_0_r|]); lia.
Qed.

Lemma Forall_wf_nth (rounds : list AES_state) i :
  Forall wf rounds -> (i < length rounds)%nat -> wf (nth i rounds []).
Proof. intros H Hi. rewrite Forall_nth in H. by apply H. Qed.

(** Replacing round key [i / 4] changes only the words of that round key. *)
Lemma word_at_insert (rounds : list AES_state) i s j :
  (i / 4 < length rounds)%nat ->
  word_at (<[(i / 4)%nat := s]> rounds) j =
  if (j / 4 =? i / 4)%nat then cells s (j mod 4) else word_at rounds j.
Proof.
  intros Hi. unfold word_at. rewrite !nth_lookup.
  destruct (Nat.eqb_spec (j / 4) (i / 4)) as [->|Hne].
  - by rewrite list_lookup_insert_eq.
  - by rewrite list_lookup_insert_ne by done.
Qed.

Lemma column_eqb i j : (j / 4 = i / 4)%nat -> (j mod 4 =? i mod 4)%nat = (j =? i)%nat.
Proof.
  intros H. pose proof (Nat.div_mod_eq i 4). pose proof (Nat.div_mod_eq j 4).
  destruct (Nat.eqb_spec (j mod 4) (i mod 4)), (Nat.eqb_spec j i); lia.
Qed.

Lemma mod4_lt i : (i mod 4 < 4)%nat.
Proof. by apply Nat.mod_upper_bound. Qed.

(** One [LoadByte] of the loading loop. *)
Lemma setup_load_byte rounds b r i :
  Forall wf rounds -> byte b -> (r < 4)%nat -> (i / 4 < length rounds)%nat ->
  let rounds' := <[(i / 4)%nat := LoadByte (nth (i / 4) rounds []) b r (i mod 4)]> rounds in
  Forall wf rounds' /\ length rounds' = length rounds /\
  forall j, word_at rounds' j =
    if (j =? i)%nat then alter (fun x => Z.lor x b) r (word_at rounds i) else word_at rounds j.
Proof.
  intros Hw Hb Hr Hi rounds'. assert (Hwi := Forall_wf_nth rounds _ Hw Hi).
  split_and!.
  - apply Forall_insert; [done|]. by apply LoadByte_wf.
  - apply length_insert.
  - intros j. subst rounds'. rewrite word_at_insert by done.
    destruct (Nat.eqb_spec (j / 4) (i / 4)) as [Hj|Hj].
    + rewrite LoadByte_cells by auto using mod4_lt. rewrite column_eqb by done.
      destruct (Nat.eqb_spec j i) as [->|]; [done|]. unfold word_at. by rewrite Hj.
    + destruct (Nat.eqb_spec j i) as [->|]; [done|done].
Qed.

(** The words of [rounds] are those of [w], and zero after them. *)
Definition words_are (rounds : list AES_state) (w : list (list Z)) : Prop :=
  Forall wf rounds /\
  forall j, (j < 4 * length rounds)%nat -> word_at rounds j = nth j w zero_word.

Lemma div4_lt i n : (i < 4 * n)%nat -> (i / 4 < n)%nat.
Proof. intros. apply Nat.Div0.div_lt_upper_bound. lia. Qed.

(** The inner loop of the loading phase, on any list of rows. *)
Lemma load_rows (key : list Z) i rs rounds :
  Forall wf rounds -> (i / 4 < length rounds)%nat ->
  Forall (fun r => (r < 4)%nat /\ byte key.[4 * i + r]) rs ->
  let rounds' := fold_left (fun rounds r =>
    <[(i / 4)%nat := LoadByte (nth (i / 4) rounds []) key.[4 * i + r] r (i mod 4)]> rounds)
    rs rounds in
  Forall wf rounds' /\ length rounds' = length rounds /\
  forall j, word_at rounds' j =
    if (j =? i)%nat
    then fold_left (fun x r => alter (fun y => Z.lor y key.[4 * i + r]) r x) rs (word_at rounds i)
    else word_at rounds j.
Proof.
  revert rounds. induction rs as [|r rs IH]; intros rounds Hw Hi Hrs; cbn [fold_left].
  { split_and!; [done|done|]. intros j. by destruct (Nat.eqb_spec j i) as [->|]. }
  apply Forall_cons in Hrs as [[Hr Hb] Hrs].
  destruct (setup_load_byte rounds _ r i Hw Hb Hr Hi) as (Hw' & Hl' & E).
  destruct (IH _ Hw' ltac:(by rewrite Hl') Hrs) as (Hw'' & Hl'' & E').
  split_and!; [done|by rewrite Hl''|]. intros j. rewrite E', !E, Nat.eqb_refl.
  by destruct (j =? i)%nat.
Qed.

(** One word of the key is loaded: a zero word becomes the key's word. *)
Lemma load_word rounds key i w :
  words_are rounds w -> length w = i -> (i < 4 * length rounds)%nat ->
  Forall byte key -> (4 * i + 3 < length key)%nat ->
  let rounds' := fold_left (fun rounds r =>
    <[(i / 4)%nat := LoadByte (nth (i / 4) rounds []) key.[4 * i + r] r (i mod 4)]> rounds)
    (seq 0 4) rounds in
  words_are rounds' (w ++ [map (fun r => key.[4 * i + r]) (seq 0 4)]) /\
  length rounds' = length rounds.
Proof.
  intros [Hw Hword] Hlen Hi Hkey Hkl rounds'.
  destruct (load_rows key i (seq 0 4) rounds) as (Hw' & Hl' & E); [done|by apply div4_lt| |].
  { rewrite Forall_nth in Hkey. apply Forall_seq. intros r Hr. split; [lia|]. apply Hkey. lia. }
  split; [split; [exact Hw'|]|done]. intros j Hj. fold rounds' in E, Hl'. rewrite E.
  destruct (Nat.eqb_spec j i) as [->|Hne].
  - rewrite Hword, nth_overflow by lia. by rewrite app_nth2, Hlen, Nat.sub_diag by lia.
  - rewrite Hword by lia. destruct (decide (j < i)%nat).
    + by rewrite app_nth1 by lia.
    + rewrite !nth_overflow; [done|rewrite length_app; simpl; lia|lia].
Qed.

Lemma AES_setup_load_words rounds key nk :
  words_are rounds [] -> (nk <= 4 * length rounds)%nat ->
  Forall byte key -> (4 * nk <= length key)%nat ->
  words_are (AES_setup_load rounds key nk) (key_words key nk) /\
  length (AES_setup_load rounds key nk) = length rounds.
Proof.
  intros H0 Hnk Hkey Hlen. unfold AES_setup_load, key_words.
  induction nk as [|nk IH]; [done|].
  destruct IH as [IHw IHl]; [lia|lia|].
  rewrite (seq_S nk 0), fold_left_app, map_app. cbn [fold_left map Nat.add].
  match type of IHl with length ?x = _ => set (rounds' := x) in * end.
  destruct (load_word rounds' key nk _ IHw) as [Hw Hl];
    [by rewrite length_map, length_seq|by rewrite IHl; lia|done|lia|].
  by rewrite Hl, IHl.
Qed.

(** ** The expansion loop *)

Lemma key_expansion_length key nk n : length (key_expansion key nk n) = (nk + n)%nat.
Proof.
  induction n as [|n IH]; cbn [key_expansion].
  - unfold key_words. rewrite length_map, length_seq. lia.
  - rewrite length_app, IH. simpl. lia.
Qed.

Lemma div_pred nk i :
  (0 < nk)%nat -> (0 < i)%nat ->
  ((i - 1) / nk = if i mod nk =? 0 then i / nk - 1 else i / nk)%nat.
Proof.
  intros Hnk Hi. pose proof (Nat.div_mod_eq i nk) as E.
  pose proof (Nat.mod_upper_bound i nk ltac:(lia)). symmetry.
  destruct (Nat.eqb_spec (i mod nk) 0) as [H0|H0].
  - apply (Nat.div_unique _ _ _ (nk - 1)%nat); [lia|].
    assert (0 < i / nk)%nat by nia. nia.
  - apply (Nat.div_unique _ _ _ (i mod nk - 1)%nat); lia.
Qed.

Lemma mod_succ nk i :
  (1 < nk)%nat ->
  (S i mod nk = if i mod nk + 1 =? nk then 0 else i mod nk + 1)%nat.
Proof.
  intros Hnk. pose proof (Nat.div_mod_eq i nk) as E.
  pose proof (Nat.mod_upper_bound i nk ltac:(lia)). symmetry.
  destruct (Nat.eqb_spec (i mod nk + 1) nk) as [H0|H0].
  - apply (Nat.mod_unique _ _ (i / nk + 1)%nat); nia.
  - apply (Nat.mod_unique _ _ (i / nk)%nat); lia.
Qed.

Lemma rcon_succ n : map xtime (rcon (n + 1)) = rcon (n + 1 + 1).
Proof. unfold rcon. replace (n + 1 - 1)%nat with n by lia. by replace (n + 1 + 1 - 1)%nat with (S n) by lia. Qed.

Lemma rot_sub_word w : rot_word (sub_word w) = sub_word (rot_word w).
Proof. destruct w as [|b w]; [done|]. unfold sub_word, rot_word. simpl. by rewrite map_app. Qed.

Lemma zip_lxor_comm a b : zip_with Z.lxor a b = zip_with Z.lxor b a.
Proof.
  revert b. induction a as [|x a IH]; intros [|y b]; simpl; [done..|].
  by rewrite Z.lxor_comm, IH.
Qed.

Lemma zip_lor_zero w : length w = 4%nat -> zip_with Z.lor zero_word w = w.
Proof. intros. by do 5 (destruct w as [|? w]; try done). Qed.

Section expansion.
Context (key : list Z) (nk N : nat).
Hypotheses (Hnk : (4 <= nk)%nat).

Abbreviation W i := (key_expansion key nk (i - nk)).

(** What holds before word [i] is generated. *)
Record setup_inv (st : setup_state) (i : nat) : Prop := {
  inv_words : words_are (su_rounds st) (W i);
  inv_length : length (su_rounds st) = N;
  inv_column_wf : wf (su_column st);
  inv_column : cells (su_column st) 0 = nth (i - 1) (W i) [];
  inv_rcon_wf : wf (su_rcon st);
  inv_rcon : cells (su_rcon st) 0 = rcon ((i - 1) / nk + 1);
  inv_pos : su_pos st = (i mod nk)%nat }.

(** The transformation applied to the previous word before mixing. *)
Definition transformed (st : setup_state) : AES_state * AES_state :=
  if (su_pos st =? 0)%nat then
    (KeySetupTransform (SubBytes (su_column st) false) (su_rcon st), MultX (su_rcon st))
  else if (6 <? nk)%nat && (su_pos st =? 4)%nat then
    (SubBytes (su_column st) false, su_rcon st)
  else (su_column st, su_rcon st).

Lemma transformed_spec st i column rc :
  setup_inv st i -> (nk <= i)%nat -> transformed st = (column, rc) ->
  wf column /\ wf rc /\ cells rc 0 = rcon (i / nk + 1) /\
  next_word nk (W i) i = zip_with Z.lxor (cells column 0) (nth (i - nk) (W i) []).
Proof.
  intros [] Hi. unfold transformed, next_word. rewrite inv_pos0.
  rewrite (div_pred nk i) in inv_rcon0 by lia.
  destruct (Nat.eqb_spec (i mod nk) 0) as [H0|H0].
  - intros E; apply pair_equal_spec in E as [<- <-].
    assert (Hdiv : (i / nk - 1 + 1 = i / nk)%nat)
      by (pose proof (Nat.div_mod_eq i nk); assert (0 < i / nk)%nat by nia; lia).
    rewrite Hdiv in inv_rcon0. split_and!.
    + auto using KeySetupTransform_wf, SubBytes_wf.
    + auto using MultX_wf.
    + rewrite MultX_cells, inv_rcon0, <-Hdiv by (auto; lia). apply rcon_succ.
    + rewrite KeySetupTransform_cells, SubBytes_cells, inv_column0, inv_rcon0, rot_sub_word
        by auto using SubBytes_wf with lia. apply zip_lxor_comm.
  - destruct (_ && _); intros E; apply pair_equal_spec in E as [<- <-];
      split_and!; auto using SubBytes_wf.
    + rewrite SubBytes_cells, inv_column0 by (auto; lia). apply zip_lxor_comm.
    + rewrite inv_column0. apply zip_lxor_comm.
Qed.

Lemma AES_setup_step_inv st i :
  setup_inv st i -> (nk <= i < 4 * N)%nat -> setup_inv (AES_setup_step nk st i) (S i).
Proof.
  intros Hinv Hi. unfold AES_setup_step. fold (transformed st).
  destruct (transformed st) as [column rc] eqn:Et.
  destruct (transformed_spec _ _ _ _ Hinv ltac:(lia) Et) as (Hc & Hrc & Ercon & Enext).
  destruct Hinv as [[Hw Hword] Hl _ _ _ _ Hpos].
  set (r := nth (i / 4) _ []). set (a := nth ((i - nk) / 4) _ []).
  destruct (KeySetupColumnMix column r a (i mod 4) ((i - nk) mod 4)) as [column' r'] eqn:Em.
  assert (Hi4 : (i / 4 < length (su_rounds st))%nat) by (rewrite Hl; apply div4_lt; lia).
  assert (Hr : wf r) by by apply Forall_wf_nth.
  assert (Ha : wf a) by (apply Forall_wf_nth; [done|]; rewrite Hl; apply div4_lt; lia).
  destruct (column_mix_wf column r a column' r' _ _ Hc Hr Ha (mod4_lt _) (mod4_lt _) Em) as [Hc' Hr'].
  pose proof (column_mix_s column r a column' r' _ _ Hc Ha (mod4_lt _) (mod4_lt _) Em) as Es.
  change (cells a ((i - nk) mod 4)) with (word_at (su_rounds st) (i - nk)) in Es.
  assert (HlW : length (W i) = i) by (rewrite key_expansion_length; lia).
  rewrite Hword, (nth_indep _ _ []), <-Enext in Es by lia.
  assert (EW : W (S i) = W i ++ [next_word nk (W i) i]).
  { replace (S i - nk)%nat with (S (i - nk)) by lia. cbn [key_expansion]. do 3 f_equal. lia. }
  constructor; cbn [su_rounds su_column su_rcon su_pos].
  - split; [by apply Forall_insert|]. rewrite length_insert. intros j Hj. rewrite word_at_insert by done.
    destruct (Nat.eqb_spec (j / 4) (i / 4)) as [Ej|Ej].
    + rewrite (column_mix_r column r a column' r' _ _ Hc Hr Ha (mod4_lt _) (mod4_lt _) Em) by apply mod4_lt.
      rewrite column_eqb by done. unfold r. rewrite <-Ej. fold (word_at (su_rounds st) j).
      rewrite (Hword j) by done. rewrite EW. destruct (Nat.eqb_spec j i) as [->|Hne].
      * rewrite nth_overflow, zip_lor_zero by (done || lia).
        by rewrite Es, app_nth2, HlW, Nat.sub_diag by lia.
      * destruct (decide (j < i)%nat); [by rewrite app_nth1 by lia|].
        rewrite !nth_overflow; [done|rewrite length_app; simpl; lia|lia].
    + rewrite (Hword j) by done. rewrite EW. assert (j <> i) by congruence.
      destruct (decide (j < i)%nat); [by rewrite app_nth1 by lia|].
      rewrite !nth_overflow; [done|rewrite length_app; simpl; lia|lia].
  - by rewrite length_insert.
  - done.
  - rewrite Es, EW, app_nth2 by lia. by replace (S i - 1 - length (W i))%nat with 0%nat by lia.
  - done.
  - by replace (S i - 1)%nat with i by lia.
  - by rewrite Hpos, mod_succ by lia.
Qed.
End expansion.

Lemma zero_rounds_words n : words_are (replicate n zero_state) [].
Proof.
  split; [apply Forall_replicate, zero_state_wf|]. rewrite length_replicate. intros j Hj.
  unfold word_at. rewrite nth_lookup, lookup_replicate_2 by by apply div4_lt.
  rewrite nth_overflow by (simpl; lia). simpl default.
  assert (Hm := mod4_lt j). generalize dependent (j mod 4)%nat. intros m Hm.
  do 4 (destruct m as [|m]; [reflexivity|]). lia.
Qed.

Lemma expansion_loop key nk N st m :
  (4 <= nk)%nat -> setup_inv key nk N st nk -> (nk + m <= 4 * N)%nat ->
  setup_inv key nk N (fold_left (AES_setup_step nk) (seq nk m) st) (nk + m).
Proof.
  intros Hnk H0. induction m as [|m IH]; intros Hm; [by rewrite Nat.add_0_r|].
  rewrite seq_S, fold_left_app, Nat.add_succ_r. apply AES_setup_step_inv; [done|apply IH; lia|lia].
Qed.

Lemma nth_key_words key nk i :
  (i < nk)%nat -> nth i (key_words key nk) [] = map (fun r => key.[4 * i + r]) (seq 0 4).
Proof.
  intros Hi. unfold key_words. rewrite nth_lookup, list_lookup_fmap, lookup_seq_lt by done. done.
Qed.

Lemma rcon_state_cells : cells [1; 0; 0; 0; 0; 0; 0; 0] 0 = rcon 1.
Proof. reflexivity. Qed.

(** After [AES_setup], every word of the schedule is in its place. *)
Lemma AES_setup_words key nk nr :
  (4 <= nk <= 4 * (nr + 1))%nat -> length key = (4 * nk)%nat -> Forall byte key ->
  let rounds := AES_setup key nk nr in
  words_are rounds (key_expansion key nk (4 * (nr + 1) - nk)) /\ length rounds = (nr + 1)%nat.
Proof.
  intros Hnk Hlen Hkey rounds. subst rounds. unfold AES_setup.
  destruct (AES_setup_load_words (replicate (nr + 1) zero_state) key nk (zero_rounds_words _))
    as [Hw Hl]; [rewrite length_replicate; lia|done|lia|].
  rewrite length_replicate in Hl. set (loaded := AES_setup_load _ _ _) in *.
  set (st0 := mk_setup _ _ _ _).
  assert (Hst0 : setup_inv key nk (nr + 1) st0 nk).
  { assert (Hwl : wf (nth ((nk - 1) / 4) loaded []))
      by (apply Forall_wf_nth; [apply Hw|rewrite Hl; apply div4_lt; lia]).
    constructor; cbn [su_rounds su_column su_rcon su_pos st0]; rewrite ?Nat.sub_diag; [done|done| | | | |].
    - by apply GetOneColumn_wf.
    - rewrite GetOneColumn_cells by auto using mod4_lt. fold (word_at loaded (nk - 1)).
      destruct Hw as [_ Hw]. rewrite Hw by lia. cbn [key_expansion].
      apply nth_indep. unfold key_words. rewrite length_map, length_seq. lia.
    - apply wf_8. by auto 10 with words.
    - by rewrite Nat.div_small, rcon_state_cells by lia.
    - by rewrite Nat.Div0.mod_same. }
  destruct (expansion_loop key nk (nr + 1) st0 (4 * (nr + 1) - nk)) as [Hwords Hlength]; [lia|done|lia|].
  split; [|done]. by replace (nk + (4 * (nr + 1) - nk) - nk)%nat with (4 * (nr + 1) - nk)%nat in Hwords by lia.
Qed.

Lemma SaveBytes_cells s : SaveBytes s = flat_map (cells s) (seq 0 4).
Proof. reflexivity. Qed.

Lemma AES_setup_wf key nk nr :
  (4 <= nk <= 4 * (nr + 1))%nat -> length key = (4 * nk)%nat -> Forall byte key ->
  Forall wf (AES_setup key nk nr) /\ length (AES_setup key nk nr) = (nr + 1)%nat.
Proof. intros. destruct (AES_setup_words key nk nr) as [[? _] ?]; auto. Qed.

(** The round keys read back with [SaveBytes] are the schedule of FIPS-197. *)
Lemma AES_setup_round_keys key nk nr :
  (4 <= nk <= 4 * (nr + 1))%nat -> length key = (4 * nk)%nat -> Forall byte key ->
  map SaveBytes (AES_setup key nk nr) =
  map (round_key (key_expansion key nk (4 * (nr + 1) - nk))) (seq 0 (nr + 1)).
Proof.
  intros Hnk Hlen Hkey. destruct (AES_setup_words key nk nr Hnk Hlen Hkey) as [[_ Hword] Hl].
  apply list_eq_same_length with (n := (nr + 1)%nat);
    [by rewrite length_map, length_seq|by rewrite length_map|].
  intros i x y Hi. rewrite !list_lookup_fmap, lookup_seq_lt by done.
  rewrite (list_lookup_lookup_total_lt) by lia. cbn [fmap option_fmap option_map].
  intros Hx Hy. apply (inj Some) in Hx, Hy. subst x y.
  rewrite SaveBytes_cells. unfold round_key.
  assert (H : forall c, (c < 4)%nat -> cells (AES_setup key nk nr !!! i) c =
    nth (4 * i + c) (key_expansion key nk (4 * (nr + 1) - nk)) []).
  { intros c Hc. rewrite <-(nth_indep _ zero_word) by (rewrite key_expansion_length; lia).
    rewrite <-Hword by lia. unfold word_at.
    rewrite (Nat.mul_comm 4), Nat.div_add_l, (Nat.div_small c), Nat.add_0_r by lia.
    rewrite (Nat.add_comm (i * 4)), Nat.Div0.mod_add, Nat.mod_small by lia.
    by rewrite nth_lookup, list_lookup_lookup_total_lt by lia. }
  cbn [seq flat_map]. by rewrite !H by lia.
Qed.
