(* ===== verification/CtaesCorrect.v ===== *)
(** * CtaesCorrect: the cipher of ctaes.c

    Encryption implements FIPS-197, decryption inverts it in both directions,
    and the three key sizes of the public interface are instances of one block
    cipher interface from which the multi-block round trip is derived. *)

From S2P Require Import Prelude Ctaes CtaesBits CtaesRefine CtaesKey AesSpec.

(** ** Whole blocks *)

Lemma SubBytes_block s : wf s -> SaveBytes (SubBytes s false) = sub_bytes (SaveBytes s).
Proof.
  intros. unfold SaveBytes, sub_bytes. cbn [seq map flat_map app].
  by rewrite !SubBytes_cell by (auto; lia).
Qed.

Lemma shift_rows_nth st r c :
  (r < 4)%nat -> (c < 4)%nat -> (shift_rows st).[4 * c + r] = st.[4 * ((c + r) mod 4) + r].
Proof.
  intros. unfold shift_rows. cbn [seq map flat_map app].
  do 4 (destruct c as [|c]; [do 4 (destruct r as [|r]; [reflexivity|]); lia|]); lia.
Qed.

Lemma ShiftRows_block s : wf s -> SaveBytes (ShiftRows s) = shift_rows (SaveBytes s).
Proof.
  intros. apply block_ext; [done|done|]. intros r c Hr Hc.
  rewrite SaveBytes_nth, ShiftRows_cell, shift_rows_nth by done.
  rewrite SaveBytes_nth; [done|done|]. apply Nat.mod_upper_bound. lia.
Qed.

Lemma SaveBytes_column s c : (c < 4)%nat -> column (SaveBytes s) c = cells s c.
Proof.
  intros. unfold column, cells. apply map_ext_in. intros r Hr%in_seq.
  apply SaveBytes_nth; lia.
Qed.

Lemma MixColumns_block s :
  wf s -> SaveBytes (MixColumns s false) = mix_columns (SaveBytes s).
Proof.
  intros. unfold mix_columns. unfold SaveBytes at 1. cbn [seq map flat_map app].
  rewrite !SaveBytes_column by lia. by rewrite !MixColumns_cell by (auto; lia).
Qed.

Lemma AddRoundKey_block s k :
  wf s -> wf k -> SaveBytes (AddRoundKey s k) = add_round_key (SaveBytes s) (SaveBytes k).
Proof.
  intros. unfold SaveBytes, add_round_key. cbn [seq map flat_map app zip_with].
  by rewrite !AddRoundKey_cell by auto.
Qed.

(** ** The rounds *)

Section rounds.
Context (rounds : list AES_state) (nrounds : nat).
Hypotheses (Hwf : Forall wf rounds) (Hlen : length rounds = (nrounds + 1)%nat).

Lemma round_wf i : (i <= nrounds)%nat -> wf (nth i rounds []).
Proof. intros. apply Forall_wf_nth; [done|lia]. Qed.

Lemma round_bytes i : (i <= nrounds)%nat -> nth i (map SaveBytes rounds) [] = SaveBytes (nth i rounds []).
Proof.
  intros. rewrite (nth_indep _ _ (SaveBytes [])) by (rewrite length_map; lia). apply map_nth.
Qed.

(** The states of encryption after [i] full rounds, from a start state. *)
Definition enc_state (s : AES_state) (i : nat) : AES_state :=
  fold_left (AES_encrypt_round rounds) (seq 1 i) s.

Definition dec_state (s : AES_state) (i : nat) : AES_state :=
  fold_left (AES_decrypt_round rounds nrounds) (seq 1 i) s.

Lemma enc_state_S s i :
  enc_state s (S i) = AES_encrypt_round rounds (enc_state s i) (S i).
Proof. unfold enc_state. by rewrite seq_S, fold_left_app. Qed.

Lemma dec_state_S s i :
  dec_state s (S i) = AES_decrypt_round rounds nrounds (dec_state s i) (S i).
Proof. unfold dec_state. by rewrite seq_S, fold_left_app. Qed.

Lemma enc_state_wf s i : wf s -> (i <= nrounds)%nat -> wf (enc_state s i).
Proof.
  intros Hs. induction i as [|i IH]; intros Hi; [done|]. rewrite enc_state_S.
  apply AddRoundKey_wf; [|by apply round_wf].
  apply MixColumns_wf, ShiftRows_wf, SubBytes_wf, IH. lia.
Qed.

Lemma dec_state_wf s i : wf s -> (i <= nrounds)%nat -> wf (dec_state s i).
Proof.
  intros Hs. induction i as [|i IH]; intros Hi; [done|]. rewrite dec_state_S.
  apply MixColumns_wf, AddRoundKey_wf; [|apply round_wf; lia].
  apply SubBytes_wf, InvShiftRows_wf, IH. lia.
Qed.

(** Encryption rounds implement the rounds of FIPS-197. *)
Lemma enc_state_refines s i :
  wf s -> (i <= nrounds)%nat ->
  SaveBytes (enc_state s i) =
  fold_left (cipher_round (map SaveBytes rounds)) (seq 1 i) (SaveBytes s).
Proof.
  intros Hs. induction i as [|i IH]; intros Hi; [done|].
  rewrite enc_state_S, seq_S, fold_left_app. cbn [fold_left]. rewrite <-IH by lia.
  assert (Hw := enc_state_wf s i Hs ltac:(lia)). unfold AES_encrypt_round, cipher_round.
  rewrite round_bytes by lia.
  rewrite AddRoundKey_block, MixColumns_block, ShiftRows_block, SubBytes_block;
    auto using SubBytes_wf, ShiftRows_wf, MixColumns_wf. by apply round_wf.
Qed.

(** Undoing [m] rounds: decryption walks back through the states of encryption. *)
Lemma dec_enc_states t n m :
  wf t -> (m <= n)%nat -> (n + 1 = nrounds)%nat ->
  dec_state (ShiftRows (SubBytes (enc_state t n) false)) m =
  ShiftRows (SubBytes (enc_state t (n - m)) false).
Proof.
  intros Ht Hm Hn. induction m as [|m IH]; [by rewrite Nat.sub_0_r|].
  rewrite dec_state_S, IH by lia. unfold AES_decrypt_round.
  assert (Hw := enc_state_wf t (n - m) Ht ltac:(lia)).
  rewrite InvShiftRows_ShiftRows by by apply SubBytes_wf.
  rewrite (SubBytes_inverse false) by done.
  destruct (n - m)%nat as [|j] eqn:Ej; [lia|].
  replace (nrounds - S m)%nat with (S j) by lia. replace (n - S m)%nat with j by lia.
  rewrite enc_state_S. unfold AES_encrypt_round.
  assert (Hj := enc_state_wf t j Ht ltac:(lia)).
  rewrite AddRoundKey_involutive, MixColumns_inverse;
    auto using MixColumns_wf, ShiftRows_wf, SubBytes_wf. apply round_wf; lia.
Qed.

(** And encryption walks back through the states of decryption. *)
Lemma enc_dec_states u n m :
  wf u -> (m <= n)%nat -> (n + 1 = nrounds)%nat ->
  enc_state (SubBytes (InvShiftRows (dec_state u n)) true) m =
  SubBytes (InvShiftRows (dec_state u (n - m))) true.
Proof.
  intros Hu Hm Hn. induction m as [|m IH]; [by rewrite Nat.sub_0_r|].
  rewrite enc_state_S, IH by lia. unfold AES_encrypt_round.
  assert (Hw := dec_state_wf u (n - m) Hu ltac:(lia)).
  rewrite (SubBytes_inverse true) by by apply InvShiftRows_wf.
  rewrite ShiftRows_InvShiftRows by done.
  destruct (n - m)%nat as [|j] eqn:Ej; [lia|].
  replace (S m) with (nrounds - S j)%nat by lia. replace (n - (nrounds - S j))%nat with j by lia.
  rewrite dec_state_S. unfold AES_decrypt_round.
  assert (Hj := dec_state_wf u j Hu ltac:(lia)).
  rewrite MixColumns_inverse_l, AddRoundKey_involutive;
    auto using SubBytes_wf, InvShiftRows_wf, AddRoundKey_wf; try (apply round_wf; lia).
  apply AddRoundKey_wf; [auto using SubBytes_wf, InvShiftRows_wf|apply round_wf; lia].
Qed.
End rounds.

(** ** One block under a well-formed key schedule *)

Section one_block.
Context (rounds : list AES_state) (nr : nat).
Hypotheses (Hwf : Forall wf rounds) (Hlen : length rounds = (nr + 1)%nat) (Hnr : (1 <= nr)%nat).

Lemma rk_wf i : (i <= nr)%nat -> wf (nth i rounds []).
Proof. by apply round_wf. Qed.

Lemma AES_encrypt_length input : length (AES_encrypt rounds nr input) = 16%nat.
Proof. apply SaveBytes_length. Qed.

Lemma AES_encrypt_bytes input : Forall byte (AES_encrypt rounds nr input).
Proof. apply SaveBytes_bytes. Qed.

Lemma AES_encrypt_cipher input :
  length input = 16%nat -> Forall byte input ->
  AES_encrypt rounds nr input = cipher (map SaveBytes rounds) nr input.
Proof.
  intros Hin Hb. unfold AES_encrypt, cipher.
  assert (H0 : wf (AddRoundKey (LoadBytes zero_state input) (nth 0 rounds [])))
    by (apply AddRoundKey_wf; [apply LoadBytes_wf|apply rk_wf; lia]).
  rewrite !(round_bytes rounds nr) by (done || lia).
  rewrite <-(SaveBytes_LoadBytes input Hin Hb) at 2.
  rewrite <-AddRoundKey_block by (apply LoadBytes_wf || (apply rk_wf; lia)).
  rewrite <-(enc_state_refines rounds nr) by (done || lia).
  assert (He := enc_state_wf rounds nr Hwf Hlen _ (nr - 1) H0 ltac:(lia)).
  unfold enc_state in *. rewrite AddRoundKey_block, ShiftRows_block, SubBytes_block;
    auto using SubBytes_wf, ShiftRows_wf. by apply rk_wf.
Qed.

Lemma AES_decrypt_encrypt input :
  length input = 16%nat -> Forall byte input ->
  AES_decrypt rounds nr (AES_encrypt rounds nr input) = input.
Proof.
  intros Hin Hb. unfold AES_decrypt, AES_encrypt.
  set (s0 := AddRoundKey (LoadBytes zero_state input) _).
  assert (H0 : wf s0) by (apply AddRoundKey_wf; [apply LoadBytes_wf|apply rk_wf; lia]).
  assert (He := enc_state_wf rounds nr Hwf Hlen s0 (nr - 1) H0 ltac:(lia)).
  fold (enc_state rounds s0 (nr - 1)).
  rewrite LoadBytes_SaveBytes
    by (apply AddRoundKey_wf; [auto using SubBytes_wf, ShiftRows_wf|apply rk_wf; lia]).
  rewrite AddRoundKey_involutive by (auto using SubBytes_wf, ShiftRows_wf; apply rk_wf; lia).
  match goal with |- context [fold_left (AES_decrypt_round rounds nr) (seq 1 ?m) ?u] =>
    fold (dec_state rounds nr u m) end.
  rewrite (dec_enc_states rounds nr Hwf Hlen s0 (nr - 1) (nr - 1)) by (done || lia).
  rewrite Nat.sub_diag. change (enc_state rounds s0 0) with s0.
  rewrite InvShiftRows_ShiftRows by by apply SubBytes_wf.
  rewrite (SubBytes_inverse false) by done. subst s0.
  rewrite AddRoundKey_involutive by (apply LoadBytes_wf || (apply rk_wf; lia)).
  by apply SaveBytes_LoadBytes.
Qed.

Lemma AES_encrypt_decrypt input :
  length input = 16%nat -> Forall byte input ->
  AES_encrypt rounds nr (AES_decrypt rounds nr input) = input.
Proof.
  intros Hin Hb. unfold AES_decrypt, AES_encrypt.
  set (s0 := AddRoundKey (LoadBytes zero_state input) _).
  assert (H0 : wf s0) by (apply AddRoundKey_wf; [apply LoadBytes_wf|apply rk_wf; lia]).
  assert (He := dec_state_wf rounds nr Hwf Hlen s0 (nr - 1) H0 ltac:(lia)).
  fold (dec_state rounds nr s0 (nr - 1)).
  rewrite LoadBytes_SaveBytes
    by (apply AddRoundKey_wf; [auto using SubBytes_wf, InvShiftRows_wf|apply rk_wf; lia]).
  rewrite AddRoundKey_involutive by (auto using SubBytes_wf, InvShiftRows_wf; apply rk_wf; lia).
  match goal with |- context [fold_left (AES_encrypt_round rounds) (seq 1 ?m) ?u] =>
    fold (enc_state rounds u m) end.
  rewrite (enc_dec_states rounds nr Hwf Hlen s0 (nr - 1) (nr - 1)) by (done || lia).
  rewrite Nat.sub_diag. change (dec_state rounds nr s0 0) with s0.
  rewrite (SubBytes_inverse true) by by apply InvShiftRows_wf.
  rewrite ShiftRows_InvShiftRows by done. subst s0.
  rewrite AddRoundKey_involutive by (apply LoadBytes_wf || (apply rk_wf; lia)).
  by apply SaveBytes_LoadBytes.
Qed.
End one_block.

(** ** The block cipher interface

    What [each_block] (and a mode of operation built on it) needs of a cipher
    on 16-byte blocks keyed by [init]. *)

Definition block16 (b : list Z) : Prop := length b = 16%nat /\ Forall byte b.
Definition key_of (n : nat) (key : list Z) : Prop := length key = n /\ Forall byte key.

Class BlockCipher (keylen : nat) {ctx : Type} (init : list Z -> ctx)
    (enc dec : ctx -> list Z -> list Z) : Prop := {
  bc_enc_block key b : key_of keylen key -> block16 b -> block16 (enc (init key) b);
  bc_dec_block key b : key_of keylen key -> block16 b -> block16 (dec (init key) b);
  bc_dec_enc key b : key_of keylen key -> block16 b -> dec (init key) (enc (init key) b) = b;
  bc_enc_dec key b : key_of keylen key -> block16 b -> enc (init key) (dec (init key) b) = b }.

(** The generic theorem on runs of blocks, for mutually inverse block maps. *)
Lemma each_block_inverse f g n data :
  (forall b, block16 b -> block16 (f b)) -> (forall b, block16 b -> g (f b) = b) ->
  length data = (16 * n)%nat -> Forall byte data ->
  each_block g n (each_block f n data) = data.
Proof.
  intros Hf Hgf. revert data. induction n as [|n IH]; intros data Hl Hd.
  { destruct data; [done|]. cbn in Hl. lia. }
  cbn [each_block]. assert (Hb : block16 (take 16 data)).
  { split; [rewrite length_take; lia|by apply Forall_take]. }
  destruct (Hf _ Hb) as [Hlen _]. rewrite take_app_length', drop_app_length' by done.
  rewrite Hgf by done. rewrite IH; [apply take_drop|rewrite length_drop; lia|by apply Forall_drop].
Qed.

Lemma each_block_ext f g n data :
  (forall b, block16 b -> f b = g b) ->
  length data = (16 * n)%nat -> Forall byte data -> each_block f n data = each_block g n data.
Proof.
  intros Hfg. revert data. induction n as [|n IH]; intros data Hl Hd; [done|].
  cbn [each_block]. rewrite Hfg by (split; [rewrite length_take; lia|by apply Forall_take]).
  f_equal. apply IH; [rewrite length_drop; lia|by apply Forall_drop].
Qed.

Lemma block_cipher_runs keylen {ctx} (init : _ -> ctx) enc dec `{!BlockCipher keylen init enc dec}
    key n data :
  key_of keylen key -> length data = (16 * n)%nat -> Forall byte data ->
  each_block (dec (init key)) n (each_block (enc (init key)) n data) = data /\
  each_block (enc (init key)) n (each_block (dec (init key)) n data) = data.
Proof.
  intros. split; apply each_block_inverse; intros;
    eauto using bc_enc_block, bc_dec_block, bc_dec_enc, bc_enc_dec.
Qed.

(** The code of ctaes.c is a block cipher for every admissible key size. *)
Lemma aes_block_cipher nk nr :
  (4 <= nk <= 4 * (nr + 1))%nat -> (1 <= nr)%nat ->
  BlockCipher (4 * nk) (fun key => AES_setup key nk nr)
    (fun rk => AES_encrypt rk nr) (fun rk => AES_decrypt rk nr).
Proof.
  intros Hnk Hnr. split; intros key b [Hk Hkb] [Hb Hbb];
    destruct (AES_setup_wf key nk nr Hnk Hk Hkb) as [Hwf Hlen].
  - split; [apply SaveBytes_length|apply SaveBytes_bytes].
  - split; [apply SaveBytes_length|apply SaveBytes_bytes].
  - by apply AES_decrypt_encrypt.
  - by apply AES_encrypt_decrypt.
Qed.

#[export] Instance AES128_cipher :
  BlockCipher 16 AES128_init (fun c => AES_encrypt (rk128 c) 10) (fun c => AES_decrypt (rk128 c) 10).
Proof. destruct (aes_block_cipher 4 10 ltac:(lia) ltac:(lia)). by split. Qed.
#[export] Instance AES192_cipher :
  BlockCipher 24 AES192_init (fun c => AES_encrypt (rk192 c) 12) (fun c => AES_decrypt (rk192 c) 12).
Proof. destruct (aes_block_cipher 6 12 ltac:(lia) ltac:(lia)). by split. Qed.
#[export] Instance AES256_cipher :
  BlockCipher 32 AES256_init (fun c => AES_encrypt (rk256 c) 14) (fun c => AES_decrypt (rk256 c) 14).
Proof. destruct (aes_block_cipher 8 14 ltac:(lia) ltac:(lia)). by split. Qed.

Lemma AES_encrypt_aes key nk nr input :
  (4 <= nk <= 4 * (nr + 1))%nat -> (1 <= nr)%nat -> key_of (4 * nk) key -> block16 input ->
  AES_encrypt (AES_setup key nk nr) nr input = aes key nk nr input.
Proof.
  intros Hnk Hnr [Hk Hkb] [Hi Hib]. destruct (AES_setup_wf key nk nr Hnk Hk Hkb).
  rewrite AES_encrypt_cipher by done. unfold aes. by rewrite AES_setup_round_keys.
Qed.

(** ** The theorems *)

(** The S-box.  The gate circuit of [SubBytes], in both directions, sends
    the byte in every row and column of a state to its image under the S-box
    (inversion in GF(2^8) then the affine map) or the inverse S-box. *)
Theorem SubBytes_is_sbox s r c :
  wf s -> (r < 4)%nat -> (c < 4)%nat ->
  SaveByte (SubBytes s false) r c = sbox (SaveByte s r c) /\
  SaveByte (SubBytes s true) r c = inv_sbox (SaveByte s r c).
Proof. intros. split; [by apply SubBytes_cell|by apply InvSubBytes_cell]. Qed.

(** the key schedule.  [AES_setup], for every key size and number of
    rounds, leaves in the round-key array exactly the FIPS-197 key schedule:
    [nr + 1] well-formed states, of which state [i] read back with [SaveBytes]
    is words [4i .. 4i+3] of the key expansion. *)
Theorem AES_setup_refines_key_expansion key nk nr :
  (4 <= nk <= 4 * (nr + 1))%nat -> key_of (4 * nk) key ->
  let rounds := AES_setup key nk nr in
  Forall wf rounds /\ length rounds = (nr + 1)%nat /\
  map SaveBytes rounds =
    map (round_key (key_expansion key nk (4 * (nr + 1) - nk))) (seq 0 (nr + 1)).
Proof.
  intros Hnk [Hk Hkb] rounds. destruct (AES_setup_wf key nk nr Hnk Hk Hkb).
  repeat split; [done|done|]. by apply AES_setup_round_keys.
Qed.

(** C23: encryption implements FIPS-197.  For the three key sizes and any
    number of blocks, the bytes that [AESnnn_encrypt] writes under a context
    set up by [AESnnn_init] are, block by block, the AES cipher of the key. *)
Theorem AES_encrypt_refines_fips197 n data :
  length data = (16 * n)%nat -> Forall byte data ->
  (forall key, key_of 16 key ->
    AES128_encrypt (AES128_init key) n data = each_block (aes key 4 10) n data) /\
  (forall key, key_of 24 key ->
    AES192_encrypt (AES192_init key) n data = each_block (aes key 6 12) n data) /\
  (forall key, key_of 32 key ->
    AES256_encrypt (AES256_init key) n data = each_block (aes key 8 14) n data).
Proof.
  intros. repeat split; intros key Hkey;
    apply each_block_ext; auto; intros; apply AES_encrypt_aes; auto; lia.
Qed.

(** Decryption is the inverse of encryption, both ways, for the three key
    sizes and any number of blocks. *)
Theorem AES_blocks_roundtrip n data :
  length data = (16 * n)%nat -> Forall byte data ->
  (forall key, key_of 16 key -> let ctx := AES128_init key in
    AES128_decrypt ctx n (AES128_encrypt ctx n data) = data /\
    AES128_encrypt ctx n (AES128_decrypt ctx n data) = data) /\
  (forall key, key_of 24 key -> let ctx := AES192_init key in
    AES192_decrypt ctx n (AES192_encrypt ctx n data) = data /\
    AES192_encrypt ctx n (AES192_decrypt ctx n data) = data) /\
  (forall key, key_of 32 key -> let ctx := AES256_init key in
    AES256_decrypt ctx n (AES256_encrypt ctx n data) = data /\
    AES256_encrypt ctx n (AES256_decrypt ctx n data) = data).
Proof.
  intros Hl Hb. split_and!; intros key Hkey ctx.
  - exact (block_cipher_runs 16 AES128_init _ _ key n data Hkey Hl Hb).
  - exact (block_cipher_runs 24 AES192_init _ _ key n data Hkey Hl Hb).
  - exact (block_cipher_runs 32 AES256_init _ _ key n data Hkey Hl Hb).
Qed.

(** ** Witnesses *)

Definition test_bytes (n : nat) : list Z := map Z.of_nat (seq 0 n).

Lemma SubBytes_is_sbox_witness :
  let s := LoadBytes zero_state (test_bytes 16) in
  SaveByte (SubBytes s false) 1 2 = sbox (SaveByte s 1 2) /\
  SaveByte (SubBytes s true) 1 2 = inv_sbox (SaveByte s 1 2).
Proof. apply SubBytes_is_sbox; [apply LoadBytes_wf|lia|lia]. Defined.

Lemma AES_setup_refines_witness :
  map SaveBytes (AES_setup (test_bytes 16) 4 10) =
    map (round_key (key_expansion (test_bytes 16) 4 40)) (seq 0 11).
Proof.
  apply (AES_setup_refines_key_expansion (test_bytes 16) 4 10); [lia|].
  split; [reflexivity|]. repeat constructor; unfold word; lia.
Defined.

Lemma AES_encrypt_refines_witness :
  AES256_encrypt (AES256_init (test_bytes 32)) 2 (test_bytes 32) =
    each_block (aes (test_bytes 32) 8 14) 2 (test_bytes 32).
Proof.
  refine (proj2 (proj2 (AES_encrypt_refines_fips197 2 (test_bytes 32) _ _)) (test_bytes 32) _).
  - reflexivity.
  - repeat constructor; unfold word; lia.
  - split; [reflexivity|]. repeat constructor; unfold word; lia.
Defined.

Lemma AES_blocks_roundtrip_witness :
  let ctx := AES192_init (test_bytes 24) in
  AES192_decrypt ctx 2 (AES192_encrypt ctx 2 (test_bytes 32)) = test_bytes 32.
Proof.
  refine (proj1 (proj1 (proj2 (AES_blocks_roundtrip 2 (test_bytes 32) _ _)) (test_bytes 24) _)).
  - reflexivity.
  - repeat constructor; unfold word; lia.
  - split; [reflexivity|]. repeat constructor; unfold word; lia.
Defined.
