(* ===== verification/Words.v ===== *)
(** * Words: byte order and rotations

    Models crypto/MerkleTreeProof/blake2/blake2-impl.h.  [load32] and its
    siblings have two preprocessor branches: the portable one, written with
    shifts, and the [NATIVE_LITTLE_ENDIAN] one, a [memcpy] between the bytes
    and the object representation of the integer on a little-endian machine
    ([le_decode], [le_encode]).  The portable branches are the definitions;
    the theorems show that both branches agree and are inverse to each other. *)

From S2P Require Import Prelude.

(** ** The object representation on a little-endian machine *)

Fixpoint le_decode (bs : list Z) : Z :=
  match bs with
  | [] => 0
  | b :: bs => b + 256 * le_decode bs
  end.

Fixpoint le_encode (n : nat) (z : Z) : list Z :=
  match n with
  | O => []
  | S n => z mod 256 :: le_encode n (z / 256)
  end.

(** [memcpy(dst + off, src, length src)] *)
Definition memcpy (dst : list Z) (off : nat) (src : list Z) : list Z :=
  take off dst ++ src ++ drop (off + length src) dst.

(** ** Loads *)

Definition load32 (p : list Z) : Z :=
  let w := p.[0] in
  let w := u32 (Z.lor w (u32 (p.[1] ≪ 8))) in
  let w := u32 (Z.lor w (u32 (p.[2] ≪ 16))) in
  u32 (Z.lor w (u32 (p.[3] ≪ 24))).

Definition load64 (p : list Z) : Z :=
  let w := p.[0] in
  let w := u64 (Z.lor w (u64 (p.[1] ≪ 8))) in
  let w := u64 (Z.lor w (u64 (p.[2] ≪ 16))) in
  let w := u64 (Z.lor w (u64 (p.[3] ≪ 24))) in
  let w := u64 (Z.lor w (u64 (p.[4] ≪ 32))) in
  let w := u64 (Z.lor w (u64 (p.[5] ≪ 40))) in
  let w := u64 (Z.lor w (u64 (p.[6] ≪ 48))) in
  u64 (Z.lor w (u64 (p.[7] ≪ 56))).

Definition load48 (p : list Z) : Z :=
  let w := p.[0] in
  let w := u64 (Z.lor w (u64 (p.[1] ≪ 8))) in
  let w := u64 (Z.lor w (u64 (p.[2] ≪ 16))) in
  let w := u64 (Z.lor w (u64 (p.[3] ≪ 24))) in
  let w := u64 (Z.lor w (u64 (p.[4] ≪ 32))) in
  u64 (Z.lor w (u64 (p.[5] ≪ 40))).

(** The native branch of [load64_many]: one [memcpy] of [n] integers. *)
Definition load64_many (src : list Z) (n : nat) : list Z :=
  map (fun i => le_decode (take 8 (drop (8 * i) src))) (seq 0 n).

(** ** Stores: the bytes written at [dst] *)

Definition store32 (w : Z) : list Z :=
  let b0 := u8 w in
  let w := u32 (w ≫ 8) in let b1 := u8 w in
  let w := u32 (w ≫ 8) in let b2 := u8 w in
  let w := u32 (w ≫ 8) in let b3 := u8 w in
  [b0; b1; b2; b3].

Definition store64 (w : Z) : list Z :=
  let b0 := u8 w in
  let w := u64 (w ≫ 8) in let b1 := u8 w in
  let w := u64 (w ≫ 8) in let b2 := u8 w in
  let w := u64 (w ≫ 8) in let b3 := u8 w in
  let w := u64 (w ≫ 8) in let b4 := u8 w in
  let w := u64 (w ≫ 8) in let b5 := u8 w in
  let w := u64 (w ≫ 8) in let b6 := u8 w in
  let w := u64 (w ≫ 8) in let b7 := u8 w in
  [b0; b1; b2; b3; b4; b5; b6; b7].

Definition store48 (w : Z) : list Z :=
  let b0 := u8 w in
  let w := u64 (w ≫ 8) in let b1 := u8 w in
  let w := u64 (w ≫ 8) in let b2 := u8 w in
  let w := u64 (w ≫ 8) in let b3 := u8 w in
  let w := u64 (w ≫ 8) in let b4 := u8 w in
  let w := u64 (w ≫ 8) in let b5 := u8 w in
  [b0; b1; b2; b3; b4; b5].

(** ** Rotations *)

Definition rotr32 (w c : Z) : Z := u32 (Z.lor (w ≫ c) (u32 (w ≪ (32 - c)))).
Definition rotr64 (w c : Z) : Z := u64 (Z.lor (w ≫ c) (u64 (w ≪ (64 - c)))).

(** ** Lemmas: decoding and encoding *)

Lemma le_encode_length n z : length (le_encode n z) = n.
Proof. revert z. induction n; intros; cbn; auto. Qed.
#[export] Hint Rewrite le_encode_length : len.

Lemma le_encode_bytes n z : Forall byte (le_encode n z).
Proof.
  revert z. induction n; intros; cbn; constructor; auto.
  unfold word. pose proof (Z.mod_pos_bound z 256). lia.
Qed.

Lemma le_decode_range bs : Forall byte bs -> 0 <= le_decode bs < 256 ^ Z.of_nat (length bs).
Proof.
  induction 1 as [|b bs [??] _ IH]; cbn [le_decode length]; [done|].
  rewrite Nat2Z.inj_succ, Z.pow_succ_r by lia. change (2 ^ 8) with 256 in *. lia.
Qed.

Lemma le_decode_encode n z : le_decode (le_encode n z) = z mod 256 ^ Z.of_nat n.
Proof.
  revert z. induction n as [|n IH]; intros z; cbn [le_encode le_decode].
  { by rewrite Z.mod_1_r. }
  rewrite IH, Nat2Z.inj_succ, Z.pow_succ_r, Z.rem_mul_r; lia.
Qed.

Lemma le_encode_decode bs : Forall byte bs -> le_encode (length bs) (le_decode bs) = bs.
Proof.
  induction 1 as [|b bs [??] _ IH]; cbn [le_encode le_decode length]; [done|].
  change (2 ^ 8) with 256 in *.
  replace ((b + 256 * le_decode bs) mod 256) with b by (apply Z.mod_unique with (le_decode bs); lia).
  replace ((b + 256 * le_decode bs) / 256) with (le_decode bs)
    by (apply Z.div_unique with b; lia).
  by rewrite IH.
Qed.

Lemma le_decode_app a b : le_decode (a ++ b) = le_decode a + 256 ^ Z.of_nat (length a) * le_decode b.
Proof.
  induction a as [|x a IH]; cbn [app le_decode length]; [lia|].
  rewrite IH, Nat2Z.inj_succ, Z.pow_succ_r by lia. ring.
Qed.

Lemma le_decode_word n bs :
  Forall byte bs -> length bs = n -> word (8 * Z.of_nat n) (le_decode bs).
Proof.
  intros Hb <-. unfold word. rewrite Z.pow_mul_r by lia. by apply le_decode_range.
Qed.

(** ** Lemmas: [memcpy] inside the destination *)

Lemma memcpy_length dst off src :
  (off + length src <= length dst)%nat -> length (memcpy dst off src) = length dst.
Proof. intros. unfold memcpy. rewrite !length_app, length_take, length_drop. lia. Qed.

Lemma memcpy_take dst off src :
  (off + length src <= length dst)%nat ->
  take (off + length src) (memcpy dst off src) = take off dst ++ src.
Proof.
  intros. unfold memcpy. rewrite app_assoc. apply take_app_length'.
  rewrite length_app, length_take. lia.
Qed.

Lemma memcpy_Forall (P : Z -> Prop) dst off src :
  Forall P dst -> Forall P src -> Forall P (memcpy dst off src).
Proof. intros. unfold memcpy. rewrite !Forall_app. auto using Forall_take, Forall_drop. Qed.

(** Filling the destination exactly. *)
Lemma memcpy_all dst src : length src = length dst -> memcpy dst 0 src = src.
Proof. intros. unfold memcpy. cbn [take app]. rewrite drop_ge, app_nil_r; [done|lia]. Qed.

(** Overwriting a segment. *)
Lemma memcpy_app a b c e :
  length e = length b -> memcpy (a ++ b ++ c) (length a) e = a ++ e ++ c.
Proof.
  intros He. unfold memcpy. rewrite take_app_length, He. do 2 f_equal.
  by rewrite app_assoc, drop_app_length' by (rewrite length_app; lia).
Qed.

(** Or-ing in the next byte is adding it. *)
Lemma lor_shiftl_add a x n :
  0 <= n -> word n a -> 0 <= x -> Z.lor a (x ≪ n) = a + x * 2 ^ n.
Proof.
  intros Hn Ha Hx. rewrite <-(Z.shiftl_mul_pow2 x n) by done.
  rewrite <-Z.lxor_lor, <-Z.add_nocarry_lxor; [done| |].
  all: apply Z.bits_inj'; intros i Hi; rewrite Z.land_spec, Z.bits_0, Z.shiftl_spec by done;
    destruct (decide (i < n)); [rewrite (Z.testbit_neg_r x) by lia; apply andb_false_r
                               |by rewrite (word_bit_high n) by (done || lia)].
Qed.

(** One step of the portable loads. *)
Lemma load_step W n a x :
  0 <= n -> n + 8 <= W -> word n a -> byte x ->
  wrap W (Z.lor a (wrap W (x ≪ n))) = a + x * 2 ^ n /\ word (n + 8) (a + x * 2 ^ n).
Proof.
  intros Hn HW Ha Hx.
  assert (Hs : word (n + 8) (a + x * 2 ^ n)).
  { unfold word in *. rewrite Z.pow_add_r by lia. nia. }
  assert (Hp : 2 ^ (n + 8) <= 2 ^ W) by (apply Z.pow_le_mono_r; lia).
  assert (Hm : word W (x ≪ n)).
  { rewrite Z.shiftl_mul_pow2 by done. unfold word in *. nia. }
  split; [|done]. rewrite (wrap_small W (x ≪ n)) by done.
  rewrite lor_shiftl_add by (unfold word in *; lia || done).
  apply wrap_small. unfold word in *. lia.
Qed.

Ltac load_steps :=
  repeat match goal with
  | |- context [wrap ?W (Z.lor ?a (wrap ?W (?x ≪ ?n)))] =>
      let E := fresh in let H := fresh in
      destruct (load_step W n a x) as [E H]; [lia|lia|assumption|assumption|];
      rewrite E; clear E; cbn [Z.add Pos.add Pos.succ] in H
  end.

(** ** The two branches agree *)

Lemma load64_le b0 b1 b2 b3 b4 b5 b6 b7 rest :
  Forall byte [b0; b1; b2; b3; b4; b5; b6; b7] ->
  load64 (b0 :: b1 :: b2 :: b3 :: b4 :: b5 :: b6 :: b7 :: rest) =
  le_decode [b0; b1; b2; b3; b4; b5; b6; b7].
Proof.
  rewrite !Forall_cons. intros (?&?&?&?&?&?&?&?&_). unfold load64. cbn [nth].
  load_steps. cbn [le_decode]. lia.
Qed.

Lemma load48_le b0 b1 b2 b3 b4 b5 rest :
  Forall byte [b0; b1; b2; b3; b4; b5] ->
  load48 (b0 :: b1 :: b2 :: b3 :: b4 :: b5 :: rest) = le_decode [b0; b1; b2; b3; b4; b5].
Proof.
  rewrite !Forall_cons. intros (?&?&?&?&?&?&_). unfold load48. cbn [nth].
  load_steps. cbn [le_decode]. lia.
Qed.

Lemma load32_le b0 b1 b2 b3 rest :
  Forall byte [b0; b1; b2; b3] ->
  load32 (b0 :: b1 :: b2 :: b3 :: rest) = le_decode [b0; b1; b2; b3].
Proof.
  rewrite !Forall_cons. intros (?&?&?&?&_). unfold load32. cbn [nth].
  load_steps. cbn [le_decode]. lia.
Qed.

(** Split a list that is long enough into its first elements. *)
Ltac split_list l n :=
  lazymatch n with
  | O => idtac
  | S ?n => let x := fresh "b" in let r := fresh "r" in
      destruct l as [|x r]; [cbn [length] in *; lia|]; split_list r n
  end.

Lemma load64_native p :
  (8 <= length p)%nat -> Forall byte (take 8 p) -> load64 p = le_decode (take 8 p).
Proof. intros. split_list p 8%nat. cbn [take] in *. by apply load64_le. Qed.

Lemma load48_native p :
  (6 <= length p)%nat -> Forall byte (take 6 p) -> load48 p = le_decode (take 6 p).
Proof. intros. split_list p 6%nat. cbn [take] in *. by apply load48_le. Qed.

Lemma load32_native p :
  (4 <= length p)%nat -> Forall byte (take 4 p) -> load32 p = le_decode (take 4 p).
Proof. intros. split_list p 4%nat. cbn [take] in *. by apply load32_le. Qed.

(** One step of the portable stores. *)
Lemma shiftr_8_word w z : 8 <= w -> word w z -> word (w - 8) (z ≫ 8).
Proof.
  intros Hw [??]. rewrite Z.shiftr_div_pow2 by lia. unfold word. split.
  { apply Z.div_pos; lia. }
  apply Z.div_lt_upper_bound; [lia|]. rewrite <-Z.pow_add_r by lia.
  by replace (8 + (w - 8)) with w by lia.
Qed.

Ltac store_steps W :=
  repeat match goal with
  | H : word ?w ?z |- context [wrap W (?z ≫ 8)] =>
      let E := fresh in let w' := eval vm_compute in (w - 8) in
      assert (E : word w' (z ≫ 8)) by (apply (shiftr_8_word w); [lia|exact H]);
      rewrite (wrap_small W (z ≫ 8)) by (eapply word_mono; [exact E|lia])
  end.

Lemma store64_native w : word 64 w -> store64 w = le_encode 8 w.
Proof.
  intros Hw. unfold store64. cbv zeta. store_steps 64.
  cbn [le_encode]. by rewrite !Z.shiftr_div_pow2 by lia.
Qed.

(** The stores write the low bytes of any integer. *)
Lemma store64_low w : store64 w = le_encode 8 w.
Proof.
  unfold store64. cbn [le_encode]. change 256 with (2 ^ 8).
  rewrite <-!Z.shiftr_div_pow2, !Z.shiftr_shiftr by lia. cbn [Z.add Pos.add Pos.succ].
  repeat (apply f_equal2; [
    match goal with |- _ = ?z mod _ => change (z mod 2 ^ 8) with (u8 z) end;
    apply (word_eq 8); [lia|auto with words|auto with words|]; intros i Hi;
    autorewrite with bits; repeat (rewrite (proj2 (Z.ltb_lt _ _)) by lia); cbn [andb]; f_equal; lia|]).
  reflexivity.
Qed.

Lemma store48_native w : word 64 w -> store48 w = le_encode 6 w.
Proof.
  intros Hw. unfold store48. cbv zeta. store_steps 64.
  cbn [le_encode]. by rewrite !Z.shiftr_div_pow2 by lia.
Qed.

Lemma store32_native w : word 32 w -> store32 w = le_encode 4 w.
Proof.
  intros Hw. unfold store32. cbv zeta. store_steps 32.
  cbn [le_encode]. by rewrite !Z.shiftr_div_pow2 by lia.
Qed.

Lemma store64_length w : length (store64 w) = 8%nat.
Proof. reflexivity. Qed.
Lemma store32_length w : length (store32 w) = 4%nat.
Proof. reflexivity. Qed.
#[export] Hint Rewrite store64_length store32_length : len.

Lemma store64_bytes w : Forall byte (store64 w).
Proof. repeat constructor; apply wrap_word; lia. Qed.
Lemma store32_bytes w : Forall byte (store32 w).
Proof. repeat constructor; apply wrap_word; lia. Qed.

Lemma rotr64_word w c : word 64 (rotr64 w c).
Proof. by apply wrap_word. Qed.
Lemma rotr32_word w c : word 32 (rotr32 w c).
Proof. apply wrap_word. lia. Qed.
Lemma load64_word p : word 64 (load64 p).
Proof. apply wrap_word. lia. Qed.
#[export] Hint Resolve rotr64_word rotr32_word load64_word : words.

(** A rotation moves bit [i + c] to bit [i]. *)
Lemma rotr_testbit W w c i :
  0 <= c <= W -> word W w -> 0 <= i < W ->
  Z.testbit (wrap W (Z.lor (w ≫ c) (wrap W (w ≪ (W - c))))) i =
  Z.testbit w (if i + c <? W then i + c else i + c - W).
Proof.
  intros Hc Hw Hi. autorewrite with bits. destruct (Z.ltb_spec i W); [|lia].
  cbn [andb]. destruct (Z.ltb_spec (i + c) W).
  - rewrite (Z.testbit_neg_r w (i - (W - c))) by lia. apply orb_false_r.
  - rewrite (word_bit_high W w (i + c)) by (done || lia). cbn [orb]. f_equal. lia.
Qed.

Lemma rotr64_testbit w c i :
  0 <= c <= 64 -> word 64 w -> 0 <= i < 64 ->
  Z.testbit (rotr64 w c) i = Z.testbit w (if i + c <? 64 then i + c else i + c - 64).
Proof. apply rotr_testbit. Qed.

Lemma rotr32_testbit w c i :
  0 <= c <= 32 -> word 32 w -> 0 <= i < 32 ->
  Z.testbit (rotr32 w c) i = Z.testbit w (if i + c <? 32 then i + c else i + c - 32).
Proof. apply rotr_testbit. Qed.

Lemma rotr64_inverse w c : 0 <= c <= 64 -> word 64 w -> rotr64 (rotr64 w c) (64 - c) = w.
Proof.
  intros Hc Hw. apply (word_eq 64); [lia|auto with words|done|].
  intros i Hi. rewrite rotr64_testbit by (auto with words; lia).
  case_match; rewrite rotr64_testbit by (auto with words; lia); case_match; f_equal; lia.
Qed.

Lemma rotr32_inverse w c : 0 <= c <= 32 -> word 32 w -> rotr32 (rotr32 w c) (32 - c) = w.
Proof.
  intros Hc Hw. apply (word_eq 32); [lia|auto with words|done|].
  intros i Hi. rewrite rotr32_testbit by (auto with words; lia).
  case_match; rewrite rotr32_testbit by (auto with words; lia); case_match; f_equal; lia.
Qed.

(** ** Counters kept in two words *)

(** The low and the high word of a counter, at width [W]. *)
Definition lo (W c : Z) : Z := c mod 2 ^ W.
Definition hi (W c : Z) : Z := (c / 2 ^ W) mod 2 ^ W.

(** Adding with the carry detected by [sum < increment]. *)
Lemma add_carry W c inc :
  0 < W -> 0 <= inc < 2 ^ W ->
  wrap W (lo W c + inc) = lo W (c + inc) /\
  wrap W (hi W c + (if wrap W (lo W c + inc) <? inc then 1 else 0)) = hi W (c + inc).
Proof.
  intros HW Hinc. unfold lo, hi, wrap. set (P := 2 ^ W) in *.
  assert (HP : 0 < P) by (apply Z.pow_pos_nonneg; lia).
  pose proof (Z.div_mod c P ltac:(lia)) as Hd. pose proof (Z.mod_pos_bound c P HP).
  set (q := c / P) in *. set (r := c mod P) in *.
  assert (Hcase : (r + inc < P /\ (c + inc) / P = q /\ (r + inc) mod P = r + inc /\ (c + inc) mod P = r + inc)
     \/ (P <= r + inc /\ (c + inc) / P = q + 1 /\ (r + inc) mod P = r + inc - P /\ (c + inc) mod P = r + inc - P)).
  { destruct (decide (r + inc < P)); [left|right]; split_and!; try lia; symmetry.
    - apply Z.div_unique with (r + inc); lia.
    - apply Z.mod_unique with 0; lia.
    - apply Z.mod_unique with q; lia.
    - apply Z.div_unique with (r + inc - P); lia.
    - apply Z.mod_unique with 1; lia.
    - apply Z.mod_unique with (q + 1); lia. }
  destruct Hcase as [(?&->&->&->)|(?&->&->&->)]; (split; [done|]); rewrite Z.add_mod_idemp_l by lia;
    f_equal; case_match; lia.
Qed.

(** No carry out of the low word. *)
Lemma lo_hi_add W c d :
  0 < W -> 0 <= lo W c + d < 2 ^ W -> lo W (c + d) = lo W c + d /\ hi W (c + d) = hi W c.
Proof.
  intros HW Hd. unfold lo, hi in *. set (P := 2 ^ W) in *.
  assert (HP : 0 < P) by (apply Z.pow_pos_nonneg; lia).
  pose proof (Z.div_mod c P ltac:(lia)) as Hc. split.
  - symmetry. apply Z.mod_unique with (c / P); lia.
  - f_equal. symmetry. apply Z.div_unique with (c mod P + d); lia.
Qed.

(** A borrow from an empty low word. *)
Lemma lo_hi_borrow W c d :
  0 < W -> lo W c = 0 -> - 2 ^ W <= d < 0 ->
  lo W (c + d) = 2 ^ W + d /\ hi W (c + d) = wrap W (hi W c - 1).
Proof.
  intros HW Hl Hd. unfold lo, hi, wrap in *. set (P := 2 ^ W) in *.
  assert (HP : 0 < P) by (apply Z.pow_pos_nonneg; lia).
  pose proof (Z.div_mod c P ltac:(lia)) as Hc. split.
  - symmetry. apply Z.mod_unique with (c / P - 1); lia.
  - rewrite Zminus_mod_idemp_l. f_equal. symmetry. apply Z.div_unique with (P + d); lia.
Qed.

(** ** The theorems *)

(** The byte-order helpers.  On any bytes in range the portable branch of
    every load returns the integer whose little-endian representation is in
    memory (the [NATIVE_LITTLE_ENDIAN] branch), the portable branch of every
    store writes that representation, and loading what was stored gives the
    integer back. *)
Theorem byte_order_branches_agree p w :
  (8 <= length p)%nat -> Forall byte p -> word 64 w ->
  load64 p = le_decode (take 8 p) /\ load48 p = le_decode (take 6 p) /\
  load32 p = le_decode (take 4 p) /\ load64_many p 1 = [load64 p] /\
  store64 w = le_encode 8 w /\ store48 w = le_encode 6 w /\ store32 (u32 w) = le_encode 4 (u32 w) /\
  load64 (store64 w) = w /\ load48 (store48 w) = wrap 48 w /\ load32 (store32 (u32 w)) = u32 w.
Proof.
  intros Hp Hb Hw. assert (Hw32 : word 32 (u32 w)) by auto with words.
  assert (Hd : forall n, le_decode (le_encode n w) = wrap (8 * Z.of_nat n) w).
  { intros n. rewrite le_decode_encode. unfold wrap. by rewrite Z.pow_mul_r by lia. }
  split_and!.
  - apply load64_native; [done|by apply Forall_take].
  - apply load48_native; [lia|by apply Forall_take].
  - apply load32_native; [lia|by apply Forall_take].
  - rewrite load64_native by (done || by apply Forall_take). reflexivity.
  - by apply store64_native.
  - by apply store48_native.
  - by apply store32_native.
  - rewrite load64_native by (done || apply store64_bytes).
    rewrite store64_native by done. change (take 8 (le_encode 8 w)) with (le_encode 8 w).
    rewrite Hd. by apply wrap_small.
  - rewrite load48_native by (done || (repeat constructor; apply wrap_word; lia)).
    rewrite store48_native by done. change (take 6 (le_encode 6 w)) with (le_encode 6 w).
    apply Hd.
  - rewrite load32_native by (done || apply store32_bytes).
    rewrite store32_native by done.
    change (take 4 (le_encode 4 (u32 w))) with (le_encode 4 (u32 w)).
    rewrite le_decode_encode. by apply Z.mod_small.
Qed.

Lemma byte_order_branches_agree_witness :
  let p := [1; 2; 3; 4; 5; 6; 7; 200; 9] in let w := 0xc8070605deadbeef in
  load64 p = le_decode (take 8 p) /\ load64 (store64 w) = w.
Proof.
  intros p w.
  destruct (byte_order_branches_agree p w) as (E & _ & _ & _ & _ & _ & _ & E' & _);
    [cbn; lia|repeat constructor; unfold word; lia|unfold word; lia|].
  exact (conj E E').
Defined.

(** Testing one bit with a mask. *)
Lemma flag_set x k : 0 <= k -> negb (Z.land x (1 ≪ k) =? 0) = Z.testbit x k.
Proof.
  intros Hk. rewrite Z.shiftl_mul_pow2, Z.mul_1_l by done.
  assert (E : Z.land x (2 ^ k) = if Z.testbit x k then 2 ^ k else 0).
  { apply Z.bits_inj'. intros j Hj. rewrite Z.land_spec, Z.pow2_bits_eqb by done. destruct (Z.eqb_spec k j) as [->|Hne].
    - destruct (Z.testbit x j); rewrite ?Z.pow2_bits_true, ?Z.bits_0 by done; done.
    - rewrite andb_false_r. destruct (Z.testbit x k); rewrite ?Z.bits_0, ?Z.pow2_bits_false by done; done. }
  rewrite E. destruct (Z.testbit x k); [|done]. destruct (Z.eqb_spec (2 ^ k) 0); [|done]. pose proof (Z.pow_pos_nonneg 2 k). lia.
Qed.
