(* ===== verification/Blake2b.v ===== *)
(** * Blake2b: the BLAKE2b hash of crypto/MerkleTreeProof/blake2/blake2b.c

    The streaming state, the compression function in its 12-round form and the
    4-round form of the proof of work, the streaming operations with their
    error returns, the one-shot hash and the variable-length hash of Argon2.

    Conventions: a pointer that the code compares with [NULL] is an [option]
    of what it points to; [size_t] and [unsigned] values are [Z], wrapped at
    their width where the code can leave it; an [int] return code is a [Z].
    [clear_internal_memory] is modelled where it changes memory that outlives
    the call ([FLAG_clear_internal_memory] is 1 and never assigned). *)

From S2P Require Import Prelude Words.

(** ** Constants and data (blake2.h) *)

Definition BLAKE2B_BLOCKBYTES : Z := 128.
Definition BLAKE2B_OUTBYTES : Z := 64.
Definition BLAKE2B_KEYBYTES : Z := 64.
Definition UINT32_MAX : Z := 0xffffffff.

Definition blake2b_IV : list Z :=
  [0x6a09e667f3bcc908; 0xbb67ae8584caa73b;
   0x3c6ef372fe94f82b; 0xa54ff53a5f1d36f1;
   0x510e527fade682d1; 0x9b05688c2b3e6c1f;
   0x1f83d9abfb41bd6b; 0x5be0cd19137e2179].

Definition blake2b_sigma : list (list nat) := [
  [0; 1; 2; 3; 4; 5; 6; 7; 8; 9; 10; 11; 12; 13; 14; 15];
  [14; 10; 4; 8; 9; 15; 13; 6; 1; 12; 0; 2; 11; 7; 5; 3];
  [11; 8; 12; 0; 5; 2; 15; 13; 10; 14; 3; 6; 7; 1; 9; 4];
  [7; 9; 3; 1; 13; 12; 11; 14; 2; 6; 5; 10; 4; 0; 15; 8];
  [9; 0; 5; 7; 2; 4; 10; 15; 14; 1; 11; 12; 6; 8; 3; 13];
  [2; 12; 6; 10; 0; 11; 8; 3; 4; 13; 7; 5; 15; 14; 1; 9];
  [12; 5; 1; 15; 14; 13; 4; 10; 0; 7; 6; 3; 9; 2; 8; 11];
  [13; 11; 7; 14; 12; 1; 3; 9; 5; 0; 15; 4; 8; 6; 2; 10];
  [6; 15; 14; 9; 11; 3; 0; 8; 12; 2; 13; 7; 1; 4; 10; 5];
  [10; 2; 8; 4; 7; 6; 1; 5; 15; 11; 9; 14; 3; 12; 13; 0];
  [0; 1; 2; 3; 4; 5; 6; 7; 8; 9; 10; 11; 12; 13; 14; 15];
  [14; 10; 4; 8; 9; 15; 13; 6; 1; 12; 0; 2; 11; 7; 5; 3] ]%nat.

(** The packed parameter block. *)
Record blake2b_param := mk_param {
  digest_length : Z; key_length : Z; fanout : Z; depth : Z;
  leaf_length : Z; node_offset : Z; node_depth : Z; inner_length : Z;
  reserved : list Z; salt : list Z; personal : list Z }.

(** Its bytes, in the order of the packed struct. *)
Definition param_bytes (P : blake2b_param) : list Z :=
  [digest_length P; key_length P; fanout P; depth P] ++
  le_encode 4 (leaf_length P) ++ le_encode 8 (node_offset P) ++
  [node_depth P; inner_length P] ++ reserved P ++ salt P ++ personal P.

Record blake2b_state := mk_state {
  h : list Z; t : list Z; f : list Z; buf : list Z;
  buflen : Z; outlen : Z; last_node : Z }.

(** The all-zero state: what [memset(S, 0, sizeof *S)] leaves. *)
Definition zeroed : blake2b_state :=
  mk_state (replicate 8 0) (replicate 2 0) (replicate 2 0) (replicate 128 0) 0 0 0.

Definition set_h (st : blake2b_state) (x : list Z) :=
  mk_state x (t st) (f st) (buf st) (buflen st) (outlen st) (last_node st).
Definition set_t (st : blake2b_state) (x : list Z) :=
  mk_state (h st) x (f st) (buf st) (buflen st) (outlen st) (last_node st).
Definition set_f (st : blake2b_state) (x : list Z) :=
  mk_state (h st) (t st) x (buf st) (buflen st) (outlen st) (last_node st).
Definition set_buf (st : blake2b_state) (x : list Z) :=
  mk_state (h st) (t st) (f st) x (buflen st) (outlen st) (last_node st).
Definition set_buflen (st : blake2b_state) (x : Z) :=
  mk_state (h st) (t st) (f st) (buf st) x (outlen st) (last_node st).
Definition set_outlen (st : blake2b_state) (x : Z) :=
  mk_state (h st) (t st) (f st) (buf st) (buflen st) x (last_node st).

(** ** State helpers *)

Definition blake2b_set_lastnode (st : blake2b_state) : blake2b_state :=
  set_f st (<[1%nat := u64 (-1)]> (f st)).

Definition blake2b_set_lastblock (st : blake2b_state) : blake2b_state :=
  let st := if last_node st =? 0 then st else blake2b_set_lastnode st in
  set_f st (<[0%nat := u64 (-1)]> (f st)).

Definition blake2b_increment_counter (st : blake2b_state) (inc : Z) : blake2b_state :=
  let st := set_t st (<[0%nat := u64 ((t st).[0] + inc)]> (t st)) in
  set_t st (<[1%nat := u64 ((t st).[1] + (if (t st).[0] <? inc then 1 else 0))]> (t st)).

Definition blake2b_invalidate_state (st : blake2b_state) : blake2b_state :=
  blake2b_set_lastblock zeroed.

Definition blake2b_init0 (st : blake2b_state) : blake2b_state := set_h zeroed blake2b_IV.

Definition blake2b_init_param (st : option blake2b_state) (P : option blake2b_param)
  : option blake2b_state * Z :=
  match st, P with
  | Some st, Some P =>
      let p := param_bytes P in
      let st := blake2b_init0 st in
      let st := set_h st (map (fun i => (h st).[i] ⊕ load64 (drop (i * 8) p)) (seq 0 8)) in
      (Some (set_outlen st (digest_length P)), 0)
  | _, _ => (st, -1)
  end.

(** The parameter block of sequential hashing, with or without a key. *)
Definition sequential_param (outlen keylen : Z) : blake2b_param :=
  mk_param (u8 outlen) (u8 keylen) 1 1 0 0 0 0
    (replicate 14 0) (replicate 16 0) (replicate 16 0).

Definition blake2b_init (st : option blake2b_state) (outlen : Z) : option blake2b_state * Z :=
  match st with
  | None => (st, -1)
  | Some st =>
      if (outlen =? 0) || (BLAKE2B_OUTBYTES <? outlen)
      then (Some (blake2b_invalidate_state st), -1)
      else blake2b_init_param (Some st) (Some (sequential_param outlen 0))
  end.

(** ** Compression *)

(** The macro [G(r, i, a, b, c, d)] on the working vector [v]. *)
Definition G (m : list Z) (r i : nat) (a b c d : nat) (v : list Z) : list Z :=
  let s := nth r blake2b_sigma [] in
  let v := <[a := u64 (v.[a] + v.[b] + m.[nth (2 * i) s 0%nat])]> v in
  let v := <[d := rotr64 (v.[d] ⊕ v.[a]) 32]> v in
  let v := <[c := u64 (v.[c] + v.[d])]> v in
  let v := <[b := rotr64 (v.[b] ⊕ v.[c]) 24]> v in
  let v := <[a := u64 (v.[a] + v.[b] + m.[nth (2 * i + 1) s 0%nat])]> v in
  let v := <[d := rotr64 (v.[d] ⊕ v.[a]) 16]> v in
  let v := <[c := u64 (v.[c] + v.[d])]> v in
  <[b := rotr64 (v.[b] ⊕ v.[c]) 63]> v.

Definition ROUND (m : list Z) (v : list Z) (r : nat) : list Z :=
  let v := G m r 0 0 4 8 12 v in
  let v := G m r 1 1 5 9 13 v in
  let v := G m r 2 2 6 10 14 v in
  let v := G m r 3 3 7 11 15 v in
  let v := G m r 4 0 5 10 15 v in
  let v := G m r 5 1 6 11 12 v in
  let v := G m r 6 2 7 8 13 v in
  G m r 7 3 4 9 14 v.

(** The initial working vector. *)
Definition compress_init (st : blake2b_state) : list Z :=
  take 8 (h st) ++ take 4 blake2b_IV ++
  [blake2b_IV.[4] ⊕ (t st).[0]; blake2b_IV.[5] ⊕ (t st).[1];
   blake2b_IV.[6] ⊕ (f st).[0]; blake2b_IV.[7] ⊕ (f st).[1]].

(** The feed-forward [h[i] ^ v[i] ^ v[i + 8]]. *)
Definition compress_out (st : blake2b_state) (v : list Z) : blake2b_state :=
  set_h st (map (fun i => (h st).[i] ⊕ v.[i] ⊕ v.[i + 8]) (seq 0 8)).

Definition blake2b_compress (st : blake2b_state) (block : list Z) : blake2b_state :=
  let m := map (fun i => load64 (drop (i * 8) block)) (seq 0 16) in
  compress_out st (fold_left (ROUND m) (seq 0 12) (compress_init st)).

Definition blake2b_4r_compress (st : blake2b_state) (block : list Z) : blake2b_state :=
  let m := load64_many block 16 in
  compress_out st (fold_left (ROUND m) (seq 0 4) (compress_init st)).

(** ** Streaming, for either compression function *)

Section streaming.
Context (compress : blake2b_state -> list Z -> blake2b_state).

(** [while (inlen > BLAKE2B_BLOCKBYTES)]: compress straight from the input.
    The result is the state, [pin] and [inlen] after the loop. *)
Fixpoint update_loop (fuel : nat) (st : blake2b_state) (pin : list Z) (inlen : Z)
  : blake2b_state * list Z * Z :=
  match fuel with
  | O => (st, pin, inlen)
  | S fuel =>
      if BLAKE2B_BLOCKBYTES <? inlen then
        let st := blake2b_increment_counter st BLAKE2B_BLOCKBYTES in
        let st := compress st pin in
        update_loop fuel st (drop 128 pin) (inlen - BLAKE2B_BLOCKBYTES)
      else (st, pin, inlen)
  end.

Definition update_with (st : option blake2b_state) (input : option (list Z)) (inlen : Z)
  : option blake2b_state * Z :=
  if inlen =? 0 then (st, 0) else
  match st, input with
  | Some st, Some pin =>
      if negb ((f st).[0] =? 0) then (Some st, -1) else
      let '(st, pin, inlen) :=
        if BLAKE2B_BLOCKBYTES <? u64 (buflen st + inlen) then
          let left := buflen st in
          let fill := BLAKE2B_BLOCKBYTES - left in
          let st := set_buf st (memcpy (buf st) (Z.to_nat left) (take (Z.to_nat fill) pin)) in
          let st := blake2b_increment_counter st BLAKE2B_BLOCKBYTES in
          let st := compress st (buf st) in
          let st := set_buflen st 0 in
          update_loop (Z.to_nat inlen) st (drop (Z.to_nat fill) pin) (inlen - fill)
        else (st, pin, inlen) in
      let st := set_buf st (memcpy (buf st) (Z.to_nat (buflen st)) (take (Z.to_nat inlen) pin)) in
      (Some (set_buflen st (u32 (buflen st + u32 inlen))), 0)
  | _, _ => (st, -1)
  end.

(** The state, the output buffer and the return code after the call. *)
Definition final_with (st : option blake2b_state) (out : option (list Z)) (outlen_ : Z)
  : option blake2b_state * option (list Z) * Z :=
  match st, out with
  | Some st, Some out =>
      if outlen_ <? outlen st then (Some st, Some out, -1) else
      if negb ((f st).[0] =? 0) then (Some st, Some out, -1) else
      let st := blake2b_increment_counter st (buflen st) in
      let st := blake2b_set_lastblock st in
      let st := set_buf st (memcpy (buf st) (Z.to_nat (buflen st))
                 (replicate (Z.to_nat (BLAKE2B_BLOCKBYTES - buflen st)) 0)) in
      let st := compress st (buf st) in
      let buffer := flat_map (fun i => store64 (h st).[i]) (seq 0 8) in
      let out := memcpy out 0 (take (Z.to_nat (outlen st)) buffer) in
      let st := set_h (set_buf st (replicate 128 0)) (replicate 8 0) in
      (Some st, Some out, 0)
  | _, _ => (st, out, -1)
  end.
End streaming.

Definition blake2b_update := update_with blake2b_compress.
Definition blake2b_4r_update := update_with blake2b_4r_compress.
Definition blake2b_final := final_with blake2b_compress.
Definition blake2b_4r_final := final_with blake2b_4r_compress.

(** ** Keyed initialisation, the one-shot hash and the long hash *)

Definition blake2b_init_key (st : option blake2b_state) (outlen : Z)
    (key : option (list Z)) (keylen : Z) : option blake2b_state * Z :=
  match st with
  | None => (st, -1)
  | Some st0 =>
      if (outlen =? 0) || (BLAKE2B_OUTBYTES <? outlen)
      then (Some (blake2b_invalidate_state st0), -1) else
      match key with
      | None => (Some (blake2b_invalidate_state st0), -1)
      | Some key =>
          if (keylen =? 0) || (BLAKE2B_KEYBYTES <? keylen)
          then (Some (blake2b_invalidate_state st0), -1) else
          let '(st, ret) := blake2b_init_param st (Some (sequential_param outlen keylen)) in
          if ret <? 0 then (Some (blake2b_invalidate_state st0), -1) else
          let block := memcpy (replicate 128 0) 0 (take (Z.to_nat keylen) key) in
          (fst (blake2b_update st (Some block) BLAKE2B_BLOCKBYTES), 0)
      end
  end.

(** The output buffer and the return code; the local state starts arbitrary
    and is fully initialised by [blake2b_init] or [blake2b_init_key]. *)
Definition blake2b (out : option (list Z)) (outlen : Z) (input : option (list Z)) (inlen : Z)
    (key : option (list Z)) (keylen : Z) : option (list Z) * Z :=
  if negb (bool_decide (is_Some input)) && (0 <? inlen) then (out, -1) else
  if negb (bool_decide (is_Some out)) || (outlen =? 0) || (BLAKE2B_OUTBYTES <? outlen)
  then (out, -1) else
  if (negb (bool_decide (is_Some key)) && (0 <? keylen)) || (BLAKE2B_KEYBYTES <? keylen)
  then (out, -1) else
  let '(st, ret) :=
    if 0 <? keylen then blake2b_init_key (Some zeroed) outlen key keylen
    else blake2b_init (Some zeroed) outlen in
  if ret <? 0 then (out, -1) else
  let '(st, ret) := blake2b_update st input inlen in
  if ret <? 0 then (out, -1) else
  let '(_, out, ret) := blake2b_final st out outlen in
  (out, ret).

(** [while (toproduce > BLAKE2B_OUTBYTES)] of [blake2b_long]: [out] is the
    output buffer, [pos] the offset of the pointer [out] in it. *)
Fixpoint long_loop (fuel : nat) (out : list Z) (pos : nat) (out_buffer : list Z) (toproduce : Z)
  : list Z * nat * list Z * Z * Z :=
  match fuel with
  | O => (out, pos, out_buffer, toproduce, 0)
  | S fuel =>
      if BLAKE2B_OUTBYTES <? toproduce then
        let in_buffer := out_buffer in
        let '(ob, ret) := blake2b (Some out_buffer) BLAKE2B_OUTBYTES (Some in_buffer)
                            BLAKE2B_OUTBYTES None 0 in
        let out_buffer := default out_buffer ob in
        if ret <? 0 then (out, pos, out_buffer, toproduce, ret) else
        long_loop fuel (memcpy out pos (take 32 out_buffer)) (pos + 32) out_buffer
          (toproduce - BLAKE2B_OUTBYTES / 2)
      else (out, pos, out_buffer, toproduce, 0)
  end.

Definition blake2b_long (out : list Z) (outlen : Z) (input : option (list Z)) (inlen : Z)
  : list Z * Z :=
  if UINT32_MAX <? outlen then (out, -1) else
  let outlen_bytes := store32 (u32 outlen) in
  let n := if outlen <=? BLAKE2B_OUTBYTES then outlen else BLAKE2B_OUTBYTES in
  let '(st, ret) := blake2b_init (Some zeroed) n in
  if ret <? 0 then (out, ret) else
  let '(st, ret) := blake2b_update st (Some outlen_bytes) 4 in
  if ret <? 0 then (out, ret) else
  let '(st, ret) := blake2b_update st input inlen in
  if ret <? 0 then (out, ret) else
  if outlen <=? BLAKE2B_OUTBYTES then
    let '(_, o, ret) := blake2b_final st (Some out) outlen in (default out o, ret)
  else
    let '(_, ob, ret) := blake2b_final st (Some (replicate 64 0)) BLAKE2B_OUTBYTES in
    if ret <? 0 then (out, ret) else
    let out_buffer := default [] ob in
    let out := memcpy out 0 (take 32 out_buffer) in
    let '(out, pos, out_buffer, toproduce, ret) :=
      long_loop (Z.to_nat outlen) out 32 out_buffer (u32 (u32 outlen - BLAKE2B_OUTBYTES / 2)) in
    if ret <? 0 then (out, ret) else
    let in_buffer := out_buffer in
    let '(ob, ret) := blake2b (Some out_buffer) toproduce (Some in_buffer) BLAKE2B_OUTBYTES None 0 in
    if ret <? 0 then (out, ret) else
    (memcpy out pos (take (Z.to_nat toproduce) (default [] ob)), ret).

(** ** The test vector of RFC 7693, appendix A: BLAKE2b-512 of "abc" *)
Example blake2b_abc :
  blake2b (Some (replicate 64 0)) 64 (Some [0x61; 0x62; 0x63]) 3 None 0 =
  (Some [0xba; 0x80; 0xa5; 0x3f; 0x98; 0x1c; 0x4d; 0x0d; 0x6a; 0x27; 0x97; 0xb6; 0x9f; 0x12; 0xf6; 0xe9;
         0x4c; 0x21; 0x2f; 0x14; 0x68; 0x5a; 0xc4; 0xb7; 0x4b; 0x12; 0xbb; 0x6f; 0xdb; 0xff; 0xa2; 0xd1;
         0x7d; 0x87; 0xc5; 0x39; 0x2a; 0xab; 0x79; 0x2d; 0xc2; 0x52; 0xd5; 0xde; 0x45; 0x33; 0xcc; 0x95;
         0x18; 0xd3; 0x8a; 0xa8; 0xdb; 0xf1; 0x92; 0x5a; 0xb9; 0x23; 0x86; 0xed; 0xd4; 0x00; 0x99; 0x23], 0).
Proof. vm_compute. reflexivity. Qed.
