(* ===== verification/Blake2Spec.v ===== *)
(** * Blake2Spec: BLAKE2b as RFC 7693 defines it

    The reference that blake2b.c implements: the mixing function on four
    words, the compression function [F] with a 128-bit byte count, and the
    hash of a whole message cut into 128-byte blocks, the last one padded with
    zeros.  The number of rounds is a parameter: 12 for BLAKE2b, 4 for the
    reduced hash of the proof of work.  [hash_long] is the variable-length
    hash H' of Argon2. *)

From S2P Require Import Prelude Words.

Definition IV : list Z :=
  [0x6a09e667f3bcc908; 0xbb67ae8584caa73b; 0x3c6ef372fe94f82b; 0xa54ff53a5f1d36f1;
   0x510e527fade682d1; 0x9b05688c2b3e6c1f; 0x1f83d9abfb41bd6b; 0x5be0cd19137e2179].

(** The ten message permutations; round [r] uses row [r mod 10]. *)
Definition SIGMA : list (list nat) := [
  [0; 1; 2; 3; 4; 5; 6; 7; 8; 9; 10; 11; 12; 13; 14; 15];
  [14; 10; 4; 8; 9; 15; 13; 6; 1; 12; 0; 2; 11; 7; 5; 3];
  [11; 8; 12; 0; 5; 2; 15; 13; 10; 14; 3; 6; 7; 1; 9; 4];
  [7; 9; 3; 1; 13; 12; 11; 14; 2; 6; 5; 10; 4; 0; 15; 8];
  [9; 0; 5; 7; 2; 4; 10; 15; 14; 1; 11; 12; 6; 8; 3; 13];
  [2; 12; 6; 10; 0; 11; 8; 3; 4; 13; 7; 5; 15; 14; 1; 9];
  [12; 5; 1; 15; 14; 13; 4; 10; 0; 7; 6; 3; 9; 2; 8; 11];
  [13; 11; 7; 14; 12; 1; 3; 9; 5; 0; 15; 4; 8; 6; 2; 10];
  [6; 15; 14; 9; 11; 3; 0; 8; 12; 2; 13; 7; 1; 4; 10; 5];
  [10; 2; 8; 4; 7; 6; 1; 5; 15; 11; 9; 14; 3; 12; 13; 0] ]%nat.

(** The mixing function on the words [a b c d] with message words [x y]. *)
Definition mix (a b c d x y : Z) : Z * Z * Z * Z :=
  let a := u64 (a + b + x) in let d := rotr64 (d ⊕ a) 32 in
  let c := u64 (c + d) in let b := rotr64 (b ⊕ c) 24 in
  let a := u64 (a + b + y) in let d := rotr64 (d ⊕ a) 16 in
  let c := u64 (c + d) in let b := rotr64 (b ⊕ c) 63 in
  (a, b, c, d).

(** One round: the four columns, then the four diagonals. *)
Definition mix_round (m : list Z) (s : list nat) (v : list Z) : list Z :=
  match v with
  | [v0; v1; v2; v3; v4; v5; v6; v7; v8; v9; v10; v11; v12; v13; v14; v15] =>
      let x i := m.[nth i s 0%nat] in
      let '(v0, v4, v8, v12) := mix v0 v4 v8 v12 (x 0%nat) (x 1%nat) in
      let '(v1, v5, v9, v13) := mix v1 v5 v9 v13 (x 2%nat) (x 3%nat) in
      let '(v2, v6, v10, v14) := mix v2 v6 v10 v14 (x 4%nat) (x 5%nat) in
      let '(v3, v7, v11, v15) := mix v3 v7 v11 v15 (x 6%nat) (x 7%nat) in
      let '(v0, v5, v10, v15) := mix v0 v5 v10 v15 (x 8%nat) (x 9%nat) in
      let '(v1, v6, v11, v12) := mix v1 v6 v11 v12 (x 10%nat) (x 11%nat) in
      let '(v2, v7, v8, v13) := mix v2 v7 v8 v13 (x 12%nat) (x 13%nat) in
      let '(v3, v4, v9, v14) := mix v3 v4 v9 v14 (x 14%nat) (x 15%nat) in
      [v0; v1; v2; v3; v4; v5; v6; v7; v8; v9; v10; v11; v12; v13; v14; v15]
  | _ => v
  end.

(** The two 64-bit halves of a byte count. *)
Definition halves (cnt : Z) : list Z := [cnt mod 2 ^ 64; (cnt / 2 ^ 64) mod 2 ^ 64].

Section with_rounds.
Context (rounds : nat).

(** The compression function: chaining value, 128-byte block, number of bytes
    hashed so far, and whether this is the last block. *)
Definition F (hh block : list Z) (cnt : Z) (last : bool) : list Z :=
  let m := map (fun i => le_decode (take 8 (drop (8 * i) block))) (seq 0 16) in
  let v := hh ++ take 4 IV ++
    [IV.[4] ⊕ (halves cnt).[0]; IV.[5] ⊕ (halves cnt).[1];
     (if last then IV.[6] ⊕ (2 ^ 64 - 1) else IV.[6]); IV.[7]] in
  let v := fold_left (fun v r => mix_round m (nth (r mod 10) SIGMA []) v) (seq 0 rounds) v in
  map (fun i => hh.[i] ⊕ v.[i] ⊕ v.[i + 8]) (seq 0 8).

(** The chaining value after the first [n] blocks, none of them the last. *)
Definition absorb (n : nat) (h0 msg : list Z) : list Z :=
  fold_left (fun hh i => F hh (take 128 (drop (128 * i) msg)) (128 * (Z.of_nat i + 1)) false)
    (seq 0 n) h0.

Definition chain (h0 msg : list Z) : list Z :=
  let n := ((length msg - 1) / 128)%nat in
  let last := drop (128 * n) msg in
  F (absorb n h0 msg) (last ++ replicate (128 - length last) 0) (Z.of_nat (length msg)) true.

(** The initial chaining value: the parameter block is xored into word 0. *)
Definition init_chain (outlen keylen : Z) : list Z :=
  <[0%nat := IV.[0] ⊕ 0x01010000 ⊕ (keylen ≪ 8) ⊕ outlen]> IV.

Definition digest (outlen : Z) (h0 msg : list Z) : list Z :=
  take (Z.to_nat outlen) (flat_map (le_encode 8) (chain h0 msg)).

(** The hash of [msg] under [key] (empty when unkeyed). *)
Definition hash (outlen : Z) (key msg : list Z) : list Z :=
  let keyblock := match key with [] => [] | _ => key ++ replicate (128 - length key) 0 end in
  digest outlen (init_chain outlen (Z.of_nat (length key))) (keyblock ++ msg).
End with_rounds.

(** ** The variable-length hash H' of Argon2 (RFC 9106, section 3.3) *)

(** [V_1, V_2, ...]: each is the 64-byte hash of the previous one. *)
Fixpoint hash_iter (n : nat) (v : list Z) : list Z :=
  match n with O => v | S n => hash_iter n (hash 12 64 [] v) end.

Definition hash_long (outlen : Z) (msg : list Z) : list Z :=
  let x := le_encode 4 outlen ++ msg in
  if outlen <=? 64 then hash 12 outlen [] x else
  let r := Z.to_nat ((outlen + 31) / 32 - 2) in
  let v1 := hash 12 64 [] x in
  flat_map (fun i => take 32 (hash_iter i v1)) (seq 0 r) ++
  hash 12 (outlen - 32 * Z.of_nat r) [] (hash_iter (r - 1) v1).

(** ** Lemmas on the reference *)

Lemma absorb_S rounds n h0 msg :
  absorb rounds (S n) h0 msg =
  F rounds (absorb rounds n h0 msg) (take 128 (drop (128 * n) msg)) (128 * (Z.of_nat n + 1)) false.
Proof. unfold absorb. by rewrite seq_S, fold_left_app. Qed.

(** Absorbing whole blocks of a message does not look at what follows them. *)
Lemma absorb_app rounds n h0 msg more :
  (128 * n <= length msg)%nat -> absorb rounds n h0 (msg ++ more) = absorb rounds n h0 msg.
Proof.
  induction n as [|n IH]; intros Hn; [done|]. rewrite !absorb_S, IH by lia.
  rewrite drop_app_le, take_app_le by (rewrite ?length_drop; lia). done.
Qed.

Lemma F_length rounds hh block cnt last : length (F rounds hh block cnt last) = 8%nat.
Proof. unfold F. by rewrite length_map, length_seq. Qed.

Lemma absorb_length rounds n h0 msg : length h0 = 8%nat -> length (absorb rounds n h0 msg) = 8%nat.
Proof. destruct n; [done|]. intros. rewrite absorb_S. apply F_length. Qed.

Lemma flat_le_encode_length (l : list Z) : length (flat_map (le_encode 8) l) = (8 * length l)%nat.
Proof. induction l; cbn [flat_map length]; rewrite ?length_app, ?le_encode_length; lia. Qed.

Lemma flat_le_encode_bytes (l : list Z) : Forall byte (flat_map (le_encode 8) l).
Proof. induction l; cbn [flat_map]; [done|]. apply Forall_app. by auto using le_encode_bytes. Qed.

Lemma digest_length rounds outlen h0 msg :
  0 <= outlen <= 64 -> length (digest rounds outlen h0 msg) = Z.to_nat outlen.
Proof.
  intros. unfold digest, chain. rewrite length_take, flat_le_encode_length, F_length. lia.
Qed.

Lemma digest_bytes rounds outlen h0 msg : Forall byte (digest rounds outlen h0 msg).
Proof. apply Forall_take, flat_le_encode_bytes. Qed.

Lemma hash_length rounds outlen key msg :
  0 <= outlen <= 64 -> length (hash rounds outlen key msg) = Z.to_nat outlen.
Proof. apply digest_length. Qed.

Lemma hash_bytes rounds outlen key msg : Forall byte (hash rounds outlen key msg).
Proof. apply digest_bytes. Qed.
