(* ===== verification/Blake2bCorrect.v ===== *)
(** * Blake2bCorrect: blake2b.c computes BLAKE2b

    The compression functions refine [F]; the streaming state represents the
    message absorbed so far; initialisation, update and final preserve that
    representation, so that any sequence of updates hashes the concatenation
    of its inputs; the error returns are characterised; the one-shot hash and
    the variable-length hash equal their references. *)

From S2P Require Import Prelude Words Blake2b Blake2Spec.

(** ** The compression functions *)

Section mixing.
Context (m : list Z) (r : nat) (v0 v1 v2 v3 v4 v5 v6 v7 v8 v9 v10 v11 v12 v13 v14 v15 : Z).
Local Abbreviation V := [v0; v1; v2; v3; v4; v5; v6; v7; v8; v9; v10; v11; v12; v13; v14; v15].
Local Abbreviation x i := (m.[nth i (nth r blake2b_sigma []) 0%nat]).

Lemma G_0 : G m r 0 0 4 8 12 V = let '(a, b, c, d) := mix v0 v4 v8 v12 (x 0%nat) (x 1%nat) in
  [a; v1; v2; v3; b; v5; v6; v7; c; v9; v10; v11; d; v13; v14; v15].
Proof. reflexivity. Qed.
Lemma G_1 : G m r 1 1 5 9 13 V = let '(a, b, c, d) := mix v1 v5 v9 v13 (x 2%nat) (x 3%nat) in
  [v0; a; v2; v3; v4; b; v6; v7; v8; c; v10; v11; v12; d; v14; v15].
Proof. reflexivity. Qed.
Lemma G_2 : G m r 2 2 6 10 14 V = let '(a, b, c, d) := mix v2 v6 v10 v14 (x 4%nat) (x 5%nat) in
  [v0; v1; a; v3; v4; v5; b; v7; v8; v9; c; v11; v12; v13; d; v15].
Proof. reflexivity. Qed.
Lemma G_3 : G m r 3 3 7 11 15 V = let '(a, b, c, d) := mix v3 v7 v11 v15 (x 6%nat) (x 7%nat) in
  [v0; v1; v2; a; v4; v5; v6; b; v8; v9; v10; c; v12; v13; v14; d].
Proof. reflexivity. Qed.
Lemma G_4 : G m r 4 0 5 10 15 V = let '(a, b, c, d) := mix v0 v5 v10 v15 (x 8%nat) (x 9%nat) in
  [a; v1; v2; v3; v4; b; v6; v7; v8; v9; c; v11; v12; v13; v14; d].
Proof. reflexivity. Qed.
Lemma G_5 : G m r 5 1 6 11 12 V = let '(a, b, c, d) := mix v1 v6 v11 v12 (x 10%nat) (x 11%nat) in
  [v0; a; v2; v3; v4; v5; b; v7; v8; v9; v10; c; d; v13; v14; v15].
Proof. reflexivity. Qed.
Lemma G_6 : G m r 6 2 7 8 13 V = let '(a, b, c, d) := mix v2 v7 v8 v13 (x 12%nat) (x 13%nat) in
  [v0; v1; a; v3; v4; v5; v6; b; c; v9; v10; v11; v12; d; v14; v15].
Proof. reflexivity. Qed.
Lemma G_7 : G m r 7 3 4 9 14 V = let '(a, b, c, d) := mix v3 v4 v9 v14 (x 14%nat) (x 15%nat) in
  [v0; v1; v2; a; b; v5; v6; v7; v8; c; v10; v11; v12; v13; d; v15].
Proof. reflexivity. Qed.
End mixing.

Lemma ROUND_mix m v r :
  length v = 16%nat -> ROUND m v r = mix_round m (nth r blake2b_sigma []) v.
Proof.
  intros Hv. do 16 (destruct v as [|? v]; [done|]). destruct v; [|done].
  unfold ROUND, mix_round. cbv zeta.
  rewrite G_0. destruct (mix _ _ _ _ _ _) as [[[??]?]?]. rewrite G_1.
  destruct (mix _ _ _ _ _ _) as [[[??]?]?]. rewrite G_2.
  destruct (mix _ _ _ _ _ _) as [[[??]?]?]. rewrite G_3.
  destruct (mix _ _ _ _ _ _) as [[[??]?]?]. rewrite G_4.
  destruct (mix _ _ _ _ _ _) as [[[??]?]?]. rewrite G_5.
  destruct (mix _ _ _ _ _ _) as [[[??]?]?]. rewrite G_6.
  destruct (mix _ _ _ _ _ _) as [[[??]?]?]. by rewrite G_7.
Qed.

Lemma mix_round_length m s v : length (mix_round m s v) = length v.
Proof.
  unfold mix_round. do 17 (destruct v as [|? v]; [reflexivity|]). reflexivity.
Qed.

Lemma sigma_mod r : (r < 12)%nat -> nth r blake2b_sigma [] = nth (r mod 10) SIGMA [].
Proof. intros. do 12 (destruct r as [|r]; [reflexivity|]). lia. Qed.

Lemma rounds_mix m n v :
  (n <= 12)%nat -> length v = 16%nat ->
  fold_left (ROUND m) (seq 0 n) v =
    fold_left (fun v r => mix_round m (nth (r mod 10) SIGMA []) v) (seq 0 n) v /\
  length (fold_left (ROUND m) (seq 0 n) v) = 16%nat.
Proof.
  intros Hn Hv. induction n as [|n IH]; [done|]. destruct IH as [IH IHl]; [lia|].
  rewrite seq_S, !fold_left_app. cbn [fold_left Nat.add].
  rewrite ROUND_mix, mix_round_length, IH, sigma_mod by (done || lia). by rewrite <-IH.
Qed.

(** What the streaming code relies on from a compression function: at a
    counter [cnt] and the flag of the last block, it replaces the chaining
    value by [F] and changes nothing else. *)
Class Compression (compress : blake2b_state -> list Z -> blake2b_state) (rounds : nat) : Prop :=
  compress_F : forall st block cnt (last : bool),
    length (h st) = 8%nat -> t st = halves cnt -> f st = [if last then 2 ^ 64 - 1 else 0; 0] ->
    (128 <= length block)%nat -> Forall byte (take 128 block) ->
    compress st block = set_h st (F rounds (h st) (take 128 block) cnt last).

Lemma message_words block :
  (128 <= length block)%nat -> Forall byte (take 128 block) ->
  map (fun i => load64 (drop (i * 8) block)) (seq 0 16) =
  map (fun i => le_decode (take 8 (drop (8 * i) (take 128 block)))) (seq 0 16).
Proof.
  intros Hl Hb. apply map_ext_in. intros i Hi%in_seq.
  rewrite (Nat.mul_comm i).
  assert (E : take 8 (drop (8 * i) (take 128 block)) = take 8 (drop (8 * i) block)).
  { rewrite <-(take_drop 128 block) at 2.
    rewrite drop_app_le, take_app_le; rewrite ?length_drop, ?length_take; try lia. done. }
  rewrite E. apply load64_native; [rewrite length_drop; lia|].
  rewrite <-E. by apply Forall_take, Forall_drop.
Qed.

Lemma message_words_many block :
  (128 <= length block)%nat -> Forall byte (take 128 block) ->
  load64_many block 16 =
  map (fun i => le_decode (take 8 (drop (8 * i) (take 128 block)))) (seq 0 16).
Proof.
  intros Hl Hb. rewrite <-message_words by done. unfold load64_many.
  apply map_ext_in. intros i Hi%in_seq. rewrite (Nat.mul_comm i). symmetry.
  apply load64_native; [rewrite length_drop; lia|].
  rewrite <-(take_drop 128 block), drop_app_le, take_app_le; rewrite ?length_drop, ?length_take; try lia.
  by apply Forall_take, Forall_drop.
Qed.

Lemma compress_rounds st m n cnt (last : bool) :
  (n <= 12)%nat -> length (h st) = 8%nat -> t st = halves cnt ->
  f st = [if last then 2 ^ 64 - 1 else 0; 0] ->
  compress_out st (fold_left (ROUND m) (seq 0 n) (compress_init st)) =
  set_h st (let v := fold_left (fun v r => mix_round m (nth (r mod 10) SIGMA []) v) (seq 0 n)
              (h st ++ take 4 IV ++ [IV.[4] ⊕ (halves cnt).[0]; IV.[5] ⊕ (halves cnt).[1];
                (if last then IV.[6] ⊕ (2 ^ 64 - 1) else IV.[6]); IV.[7]]) in
            map (fun i => (h st).[i] ⊕ v.[i] ⊕ v.[i + 8]) (seq 0 8)).
Proof.
  intros Hn Hh Ht Hf. unfold compress_out. cbv zeta. do 2 f_equal.
  assert (Hi : length (compress_init st) = 16%nat)
    by (unfold compress_init; rewrite length_app, length_take, Hh; reflexivity).
  rewrite (proj1 (rounds_mix m n _ Hn Hi)).
  unfold compress_init. rewrite Ht, Hf, firstn_all2 by lia. by destruct last.
Qed.

#[export] Instance blake2b_compress_F : Compression blake2b_compress 12.
Proof.
  intros st block cnt last ?????. unfold blake2b_compress. cbv zeta.
  rewrite message_words by done. by apply compress_rounds.
Qed.

#[export] Instance blake2b_4r_compress_F : Compression blake2b_4r_compress 4.
Proof.
  intros st block cnt last ?????. unfold blake2b_4r_compress. cbv zeta.
  rewrite message_words_many by done. apply compress_rounds; [lia|done..].
Qed.

(** The two-word counter is a 128-bit counter. *)
Lemma increment_counter_halves st cnt inc :
  t st = halves cnt -> 0 <= inc < 2 ^ 64 ->
  blake2b_increment_counter st inc = set_t st (halves (cnt + inc)).
Proof.
  intros Ht Hinc. unfold blake2b_increment_counter, set_t. cbn -[Z.pow]. f_equal. rewrite Ht.
  unfold halves. cbn -[Z.pow]. destruct (add_carry 64 cnt inc) as [E1 E2]; [lia|done|].
  unfold lo, hi in E1, E2. by rewrite E2, E1.
Qed.

(** ** The representation of the message absorbed so far *)

Section streaming.
Context (compress : blake2b_state -> list Z -> blake2b_state) (rounds : nat).
Context `{!Compression compress rounds}.
Context (h0 : list Z) (outl : Z).
Hypothesis Hh0 : length h0 = 8%nat.

(** After [msg], whose first [m] blocks are compressed and whose other bytes,
    at least one unless the message is empty, are in the buffer. *)
Record rep (m : nat) (st : blake2b_state) (msg : list Z) : Prop := {
  rep_h : h st = absorb rounds m h0 msg;
  rep_t : t st = halves (128 * Z.of_nat m);
  rep_f : f st = [0; 0];
  rep_buf : length (buf st) = 128%nat;
  rep_bytes : Forall byte (buf st);
  rep_buflen : buflen st = Z.of_nat (length msg) - 128 * Z.of_nat m;
  rep_range : 0 <= buflen st <= 128;
  rep_pos : buflen st = 0 -> m = 0%nat;
  rep_tail : take (Z.to_nat (buflen st)) (buf st) = drop (128 * m) msg;
  rep_outlen : outlen st = outl;
  rep_node : last_node st = 0 }.

Definition represents (st : blake2b_state) (msg : list Z) : Prop := exists m, rep m st msg.

(** Compressing the next full block of the message. *)
Lemma compress_next st msg m block :
  h st = absorb rounds m h0 msg -> t st = halves (128 * Z.of_nat m) -> f st = [0; 0] ->
  (128 * S m <= length msg)%nat -> Forall byte msg ->
  (128 <= length block)%nat -> take 128 block = take 128 (drop (128 * m) msg) ->
  compress (blake2b_increment_counter st BLAKE2B_BLOCKBYTES) block =
  set_t (set_h st (absorb rounds (S m) h0 msg)) (halves (128 * Z.of_nat (S m))).
Proof.
  intros Hh Ht Hf Hm Hmsg Hl Hblock.
  rewrite (increment_counter_halves st (128 * Z.of_nat m)) by (done || unfold BLAKE2B_BLOCKBYTES; lia).
  replace (128 * Z.of_nat m + BLAKE2B_BLOCKBYTES) with (128 * Z.of_nat (S m))
    by (unfold BLAKE2B_BLOCKBYTES; lia).
  rewrite (compress_F _ block (128 * Z.of_nat (S m)) false); cbn [set_t h t f]; try done.
  - rewrite absorb_S, Hblock, Hh. replace (128 * (Z.of_nat m + 1)) with (128 * Z.of_nat (S m)) by lia.
    reflexivity.
  - rewrite Hh. by apply absorb_length.
  - rewrite Hblock. by apply Forall_take, Forall_drop.
Qed.

(** The loop over the blocks of the input. *)
Lemma update_loop_blocks fuel st msg m pin inlen :
  h st = absorb rounds m h0 msg -> t st = halves (128 * Z.of_nat m) -> f st = [0; 0] ->
  Forall byte msg -> 0 < inlen <= 128 * (Z.of_nat fuel + 1) ->
  inlen = Z.of_nat (length msg) - 128 * Z.of_nat m -> inlen <= Z.of_nat (length pin) ->
  take (Z.to_nat inlen) pin = drop (128 * m) msg ->
  exists m' pin' inlen',
    update_loop compress fuel st pin inlen =
      (set_t (set_h st (absorb rounds m' h0 msg)) (halves (128 * Z.of_nat m')), pin', inlen') /\
    0 < inlen' <= 128 /\ inlen' = Z.of_nat (length msg) - 128 * Z.of_nat m' /\
    inlen' <= Z.of_nat (length pin') /\ take (Z.to_nat inlen') pin' = drop (128 * m') msg.
Proof.
  revert st m pin inlen. induction fuel as [|fuel IH]; intros st m pin inlen Hh Ht Hf Hmsg Hr Hlen Hpin Htake.
  { exists m, pin, inlen. cbn [update_loop]. rewrite <-Hh, <-Ht. destruct st. split_and!; auto; lia. }
  cbn [update_loop]. unfold BLAKE2B_BLOCKBYTES at 1. destruct (Z.ltb_spec 128 inlen).
  2:{ exists m, pin, inlen. rewrite <-Hh, <-Ht. destruct st. split_and!; auto; lia. }
  assert (Hp : take (Z.to_nat (inlen - 128)) (drop 128 pin) = drop (128 * S m) msg).
  { rewrite take_drop_commute. replace (128 + Z.to_nat (inlen - 128))%nat with (Z.to_nat inlen) by lia.
    rewrite Htake, drop_drop. f_equal. lia. }
  rewrite (compress_next st msg m pin) by (done || lia ||
    (rewrite <-Htake, take_take; f_equal; lia)).
  set (st' := set_t _ _).
  destruct (IH st' (S m) (drop 128 pin) (inlen - BLAKE2B_BLOCKBYTES)) as (m' & pin' & inlen' & E & ?);
    try (done || unfold BLAKE2B_BLOCKBYTES; rewrite ?length_drop; lia).
  exists m', pin', inlen'. split; [|done]. rewrite E. by destruct st.
Qed.

(** Copying the rest of the input into the buffer. *)
Lemma buffer_rest st msg m pin b n :
  h st = absorb rounds m h0 msg -> t st = halves (128 * Z.of_nat m) -> f st = [0; 0] ->
  length (buf st) = 128%nat -> Forall byte (buf st) -> outlen st = outl -> last_node st = 0 ->
  buflen st = b -> 0 <= b -> 0 < n -> b + n <= 128 -> n <= Z.of_nat (length pin) ->
  Forall byte msg ->
  b + n = Z.of_nat (length msg) - 128 * Z.of_nat m ->
  take (Z.to_nat b) (buf st) ++ take (Z.to_nat n) pin = drop (128 * m) msg ->
  rep m (set_buflen (set_buf st (memcpy (buf st) (Z.to_nat b) (take (Z.to_nat n) pin)))
           (u32 (b + u32 n))) msg.
Proof.
  intros Hh Ht Hf Hbuf Hbytes Hout Hnode Hb Hb0 Hn Hbn Hpin Hmsg Hlen Htail.
  rewrite (wrap_small 32 n), wrap_small by (unfold word; lia).
  assert (Hsrc : length (take (Z.to_nat n) pin) = Z.to_nat n) by (rewrite length_take; lia).
  assert (Hfit : (Z.to_nat b + length (take (Z.to_nat n) pin) <= length (buf st))%nat) by lia.
  constructor; cbn [set_buflen set_buf h t f buf buflen outlen last_node]; try done || lia.
  - by rewrite memcpy_length.
  - apply memcpy_Forall; [done|]. apply (Forall_drop _ (128 * m)) in Hmsg.
    rewrite <-Htail in Hmsg. by apply Forall_app in Hmsg as [_ ?].
  - replace (Z.to_nat (b + n)) with (Z.to_nat b + length (take (Z.to_nat n) pin))%nat by lia.
    by rewrite memcpy_take.
Qed.

(** One call of update appends its input to the message. *)
Lemma update_represents st msg pin inlen :
  represents st msg -> Forall byte msg -> 0 <= inlen <= Z.of_nat (length pin) ->
  inlen + 128 < 2 ^ 64 -> Forall byte (take (Z.to_nat inlen) pin) ->
  exists st', update_with compress (Some st) (Some pin) inlen = (Some st', 0) /\
    represents st' (msg ++ take (Z.to_nat inlen) pin).
Proof.
  intros [m [Hh Ht Hf Hbuf Hbytes Hlen Hr Hpos Htail Hout Hnode]] Hmsg Hin Hmax Hpb.
  set (all := msg ++ take (Z.to_nat inlen) pin).
  assert (Hall : Forall byte all) by (by apply Forall_app).
  assert (Hal : Z.of_nat (length all) = Z.of_nat (length msg) + inlen)
    by (subst all; rewrite length_app, length_take; lia).
  assert (Hdrop : drop (128 * m) all = drop (128 * m) msg ++ take (Z.to_nat inlen) pin)
    by (apply drop_app_le; lia).
  assert (Hha : h st = absorb rounds m h0 all) by (rewrite Hh; symmetry; apply absorb_app; lia).
  unfold update_with. destruct (Z.eqb_spec inlen 0) as [->|Hne].
  { exists st. split; [done|]. subst all. rewrite take_0, app_nil_r. by exists m. }
  rewrite Hf. cbn [nth Z.eqb negb]. rewrite wrap_small by (unfold word; lia).
  unfold BLAKE2B_BLOCKBYTES at 1. destruct (Z.ltb_spec 128 (buflen st + inlen)).
  - set (fill := BLAKE2B_BLOCKBYTES - buflen st).
    assert (Hfill : fill = 128 - buflen st) by done.
    set (buf' := memcpy _ _ _).
    assert (Hb' : buf' = take 128 (drop (128 * m) all)).
    { rewrite Hdrop. subst buf'. unfold memcpy. rewrite length_take, drop_ge by lia.
      rewrite app_nil_r, Htail, take_app_ge by (rewrite length_drop; lia). f_equal.
      rewrite length_drop, take_take. f_equal. lia. }
    assert (Hb'l : length buf' = 128%nat) by (rewrite Hb', length_take, length_drop; lia).
    rewrite (compress_next (set_buf st buf') all m) by
      (done || lia || (change (buf (blake2b_increment_counter _ _)) with buf';
         lia || (rewrite <-Hb', take_ge; [done|lia]))).
    match goal with |- context [update_loop _ _ ?s _ _] => set (st1 := s) end.
    destruct (update_loop_blocks (Z.to_nat inlen) st1 all (S m) (drop (Z.to_nat fill) pin) (inlen - fill))
      as (m' & pin' & inlen' & E & Hi' & Hil & Hpl & Htk); try (done || rewrite ?length_drop; lia).
    { rewrite take_drop_commute. replace (Z.to_nat fill + Z.to_nat (inlen - fill))%nat with (Z.to_nat inlen) by lia.
      replace (128 * S m)%nat with (128 * m + 128)%nat by lia. rewrite <-drop_drop, Hdrop.
      rewrite (drop_app_ge _ _ 128) by (rewrite length_drop; lia). rewrite length_drop. f_equal. lia. }
    rewrite E. eexists. split; [reflexivity|]. exists m'.
    eapply (buffer_rest _ all m' pin' 0 inlen'); cbn; try done || lia.
    rewrite Hb'. by apply Forall_take, Forall_drop.
  - eexists. split; [reflexivity|]. exists m.
    apply (buffer_rest st all m pin (buflen st) inlen); try done || lia. by rewrite Hdrop, Htail.
Qed.

Lemma rep_blocks m st msg : rep m st msg -> m = ((length msg - 1) / 128)%nat.
Proof.
  intros [_ _ _ _ _ Hlen Hr Hpos _ _ _]. destruct (decide (buflen st = 0)) as [E|].
  { rewrite Hpos in * by done. rewrite E in Hlen. destruct msg; [done|cbn [length] in Hlen; lia]. }
  apply (Nat.div_unique _ _ _ (Z.to_nat (buflen st - 1))); lia.
Qed.

(** A state after final: marked as used, with its secrets erased. *)
Definition finished (st : blake2b_state) : Prop :=
  (f st).[0] <> 0 /\ h st = replicate 8 0 /\ buf st = replicate 128 0.

(** Final writes the digest of the message. *)
Lemma final_digest st msg out n :
  represents st msg -> Forall byte msg -> outl <= n ->
  exists st', final_with compress (Some st) (Some out) n =
    (Some st', Some (memcpy out 0 (digest rounds outl h0 msg)), 0) /\ finished st'.
Proof.
  intros [m Hrep] Hmsg Hn. pose proof (rep_blocks _ _ _ Hrep) as Hm.
  destruct Hrep as [Hh Ht Hf Hbuf Hbytes Hlen Hr Hpos Htail Hout Hnode].
  unfold final_with. rewrite Hout, Hf. destruct (Z.ltb_spec n outl); [lia|].
  cbn [nth Z.eqb negb]. unfold BLAKE2B_BLOCKBYTES.
  rewrite (increment_counter_halves st (128 * Z.of_nat m)) by (done || lia).
  unfold blake2b_set_lastblock. cbn [set_t last_node]. rewrite Hnode. cbn [Z.eqb].
  cbn [set_f set_t set_buf h t f buf buflen outlen last_node]. rewrite Hf.
  set (block := memcpy _ _ _). set (tail := drop (128 * m) msg) in *.
  assert (Htl : length tail = Z.to_nat (buflen st)) by (rewrite <-Htail, length_take; lia).
  assert (Hblock : block = tail ++ replicate (128 - length tail) 0).
  { subst block. unfold memcpy. rewrite length_replicate, (drop_ge (buf st)), app_nil_r, Htail by lia.
    do 2 f_equal. lia. }
  assert (Hbl : length block = 128%nat) by (rewrite Hblock, length_app, length_replicate; lia).
  assert (Hbb : Forall byte block).
  { rewrite Hblock. apply Forall_app. split; [by apply Forall_drop|].
    apply Forall_replicate. by auto with words. }
  rewrite (compress_F _ block (Z.of_nat (length msg)) true).
  - match goal with |- exists _, (Some ?s, _, _) = _ /\ _ => exists s end.
    split; [|repeat split; done].
    cbn [set_h set_buf set_f set_t h outlen]. rewrite Hout, (take_ge block) by lia.
    apply pair_equal_spec. split; [|done]. apply pair_equal_spec. split; [done|]. do 2 f_equal.
    unfold digest, chain. rewrite <-Hm. fold tail. rewrite <-Hblock, <-Hh.
    f_equal. set (hh := F _ _ _ _ _). assert (Hl8 : length hh = 8%nat) by apply F_length.
    do 8 (destruct hh as [|? hh]; [done|]). destruct hh; [|done].
    cbn [seq flat_map nth]. by rewrite !store64_low.
  - cbn [set_buf set_f set_t h]. rewrite Hh. by apply absorb_length.
  - cbn [set_buf set_f set_t t]. f_equal. lia.
  - reflexivity.
  - lia.
  - by rewrite take_ge by lia.
Qed.
End streaming.

(** ** Initialisation *)

(** The first word of the parameter block. *)
Lemma param_word nn kk :
  0 <= nn <= 64 -> 0 <= kk <= 64 ->
  load64 (drop 0 (param_bytes (sequential_param nn kk))) = 0x01010000 ⊕ (kk ≪ 8) ⊕ nn.
Proof.
  intros Hn Hk.
  assert (H : forallb (fun n => forallb (fun k =>
    load64 (drop 0 (param_bytes (sequential_param (Z.of_nat n) (Z.of_nat k)))) =?
    0x01010000 ⊕ (Z.of_nat k ≪ 8) ⊕ Z.of_nat n) (seq 0 65)) (seq 0 65) = true)
    by (vm_compute; reflexivity).
  rewrite forallb_forall in H. specialize (H (Z.to_nat nn) ltac:(apply in_seq; lia)).
  rewrite forallb_forall in H. specialize (H (Z.to_nat kk) ltac:(apply in_seq; lia)).
  rewrite !Z2Nat.id in H by lia. by apply Z.eqb_eq.
Qed.

Lemma init_param_represents rounds st nn kk :
  1 <= nn <= 64 -> 0 <= kk <= 64 ->
  exists st', blake2b_init_param (Some st) (Some (sequential_param nn kk)) = (Some st', 0) /\
    represents rounds (init_chain nn kk) nn st' [].
Proof.
  intros Hn Hk. eexists. split; [reflexivity|]. exists 0%nat.
  constructor; cbn [set_outlen set_h h t f buf buflen outlen last_node zeroed blake2b_init0 length];
    try done || lia.
  - cbn [seq map]. rewrite param_word by lia. unfold init_chain, absorb. cbn [seq fold_left].
    cbn [blake2b_IV IV nth]. change (<[0%nat:=?x]> (?a :: ?l)) with (x :: l).
    f_equal. rewrite <-!Z.lxor_assoc. reflexivity.
  - apply Forall_replicate. by auto with words.
  - cbn [sequential_param digest_length]. apply wrap_small. unfold word. lia.
Qed.

Lemma blake2b_init_represents rounds st nn :
  1 <= nn <= 64 ->
  exists st', blake2b_init (Some st) nn = (Some st', 0) /\
    represents rounds (init_chain nn 0) nn st' [].
Proof.
  intros Hn. unfold blake2b_init, BLAKE2B_OUTBYTES.
  destruct (Z.eqb_spec nn 0), (Z.ltb_spec 64 nn); try lia. cbn [orb].
  apply init_param_represents; lia.
Qed.

Definition key_block (key : list Z) : list Z := key ++ replicate (128 - length key) 0.

Lemma key_block_length key : (length key <= 128)%nat -> length (key_block key) = 128%nat.
Proof. intros. unfold key_block. rewrite length_app, length_replicate. lia. Qed.

Lemma key_block_bytes key : Forall byte key -> Forall byte (key_block key).
Proof. intros. apply Forall_app. split; [done|]. apply Forall_replicate. by auto with words. Qed.

Lemma init_chain_length nn kk : length (init_chain nn kk) = 8%nat.
Proof. reflexivity. Qed.

Lemma blake2b_init_key_represents st nn key kk :
  1 <= nn <= 64 -> 1 <= kk <= 64 -> kk <= Z.of_nat (length key) ->
  Forall byte (take (Z.to_nat kk) key) ->
  exists st', blake2b_init_key (Some st) nn (Some key) kk = (Some st', 0) /\
    represents 12 (init_chain nn kk) nn st' (key_block (take (Z.to_nat kk) key)).
Proof.
  intros Hn Hk Hlen Hb. unfold blake2b_init_key, BLAKE2B_OUTBYTES, BLAKE2B_KEYBYTES.
  destruct (Z.eqb_spec nn 0), (Z.ltb_spec 64 nn), (Z.eqb_spec kk 0), (Z.ltb_spec 64 kk); try lia.
  cbn [orb]. destruct (init_param_represents 12 st nn kk) as (st1 & -> & Hr1); [lia|lia|].
  cbn [Z.ltb Z.compare].
  assert (Hkl : length (take (Z.to_nat kk) key) = Z.to_nat kk) by (rewrite length_take; lia).
  assert (Hblk : memcpy (replicate 128 0) 0 (take (Z.to_nat kk) key) = key_block (take (Z.to_nat kk) key)).
  { unfold memcpy, key_block. by rewrite drop_replicate. }
  rewrite Hblk. set (blk := key_block _) in *.
  assert (Hbl : length blk = 128%nat) by (apply key_block_length; lia).
  assert (Hbb : Forall byte blk) by by apply key_block_bytes.
  destruct (update_represents blake2b_compress 12 (init_chain nn kk) nn (init_chain_length nn kk)
    st1 [] blk 128 Hr1) as (st2 & E & Hr2); [done|lia|lia|by apply Forall_take|].
  exists st2. unfold blake2b_update, BLAKE2B_BLOCKBYTES. rewrite E. split; [done|].
  cbn [app] in Hr2. by rewrite take_ge in Hr2 by lia.
Qed.

(** ** Streams of updates *)

Section streams.
Context (update : option blake2b_state -> option (list Z) -> Z -> option blake2b_state * Z).

(** A client that feeds the chunks one by one and stops at the first error. *)
Fixpoint updates (st : option blake2b_state) (chunks : list (list Z)) : option blake2b_state * Z :=
  match chunks with
  | [] => (st, 0)
  | c :: chunks =>
      let '(st, ret) := update st (Some c) (Z.of_nat (length c)) in
      if ret <? 0 then (st, ret) else updates st chunks
  end.
End streams.

(** Bytes that fit in the address space of a 64-bit machine. *)
Definition chunk_ok (c : list Z) : Prop := Forall byte c /\ Z.of_nat (length c) < 2 ^ 63.

Lemma updates_represent compress rounds `{!Compression compress rounds} h0 outl st msg chunks :
  length h0 = 8%nat -> represents rounds h0 outl st msg -> Forall byte msg -> Forall chunk_ok chunks ->
  exists st', updates (update_with compress) (Some st) chunks = (Some st', 0) /\
    represents rounds h0 outl st' (msg ++ concat chunks).
Proof.
  intros Hh0. revert st msg. induction chunks as [|c chunks IH]; intros st msg Hr Hm Hc.
  { exists st. cbn [concat]. by rewrite app_nil_r. }
  apply Forall_cons in Hc as [[Hcb Hcl] Hc].
  destruct (update_represents compress rounds h0 outl Hh0 st msg c (Z.of_nat (length c)) Hr Hm)
    as (st1 & E & Hr1); [lia|lia|by apply Forall_take|].
  rewrite Nat2Z.id, take_ge in Hr1 by lia.
  cbn [updates concat]. rewrite E. cbn [Z.ltb Z.compare]. rewrite app_assoc.
  apply IH; [done|by apply Forall_app|done].
Qed.

Lemma stream_digest compress rounds `{!Compression compress rounds} st nn chunks out n :
  1 <= nn <= 64 -> nn <= n -> Forall chunk_ok chunks ->
  exists st0 st1 st2,
    blake2b_init (Some st) nn = (Some st0, 0) /\
    updates (update_with compress) (Some st0) chunks = (Some st1, 0) /\
    final_with compress (Some st1) (Some out) n =
      (Some st2, Some (memcpy out 0 (hash rounds nn [] (concat chunks))), 0) /\
    finished st2.
Proof.
  intros Hnn Hn Hc. destruct (blake2b_init_represents rounds st nn Hnn) as (st0 & E0 & Hr0).
  destruct (updates_represent compress rounds _ nn st0 [] chunks (init_chain_length nn 0) Hr0)
    as (st1 & E1 & Hr1); [done|done|].
  destruct (final_digest compress rounds _ nn (init_chain_length nn 0) st1 _ out n Hr1)
    as (st2 & E2 & Hf); [|done|].
  { cbn [app]. apply Forall_concat. eapply Forall_impl; [exact Hc|]. by intros ? []. }
  exists st0, st1, st2. by split_and!.
Qed.
