(* ===== verification/Blake2bHash.v ===== *)
(** * Blake2bHash: the hashes of blake2b.c as functions

    The one-shot hash [blake2b] and the variable-length hash [blake2b_long]
    equal their references on every valid input and fail without writing on
    every other; streaming in chunks equals hashing the concatenation; a used
    or invalidated state is rejected. *)

From S2P Require Import Prelude Words Blake2b Blake2Spec Blake2bCorrect.

(** ** Inputs given as a pointer and a length *)

(** The [n] bytes at a pointer that is null or points to an object. *)
Definition slice (p : option (list Z)) (n : Z) : list Z := take (Z.to_nat n) (default [] p).

(** The code may read [n] bytes at [p]: a null pointer comes with length 0. *)
Definition readable (p : option (list Z)) (n : Z) : Prop :=
  0 <= n < 2 ^ 63 /\ n <= Z.of_nat (length (default [] p)) /\ Forall byte (slice p n).

Lemma slice_length p n : readable p n -> length (slice p n) = Z.to_nat n.
Proof. intros (?&?&_). unfold slice. rewrite length_take. lia. Qed.

Lemma readable_list d : Forall byte d -> Z.of_nat (length d) < 2 ^ 63 ->
  readable (Some d) (Z.of_nat (length d)) /\ slice (Some d) (Z.of_nat (length d)) = d.
Proof.
  intros. assert (E : slice (Some d) (Z.of_nat (length d)) = d)
    by (unfold slice; cbn [from_option id]; rewrite take_ge; [done|lia]).
  split; [|done]. unfold readable. rewrite E. cbn [from_option id]. split_and!; [lia..|done].
Qed.

Lemma update_readable compress rounds `{!Compression compress rounds} h0 outl st msg input inlen :
  length h0 = 8%nat -> represents rounds h0 outl st msg -> Forall byte msg -> readable input inlen ->
  exists st', update_with compress (Some st) input inlen = (Some st', 0) /\
    represents rounds h0 outl st' (msg ++ slice input inlen).
Proof.
  intros Hh0 Hr Hm (Hn & Hl & Hb). destruct input as [pin|].
  - cbn [from_option id] in Hl. apply update_represents; auto; lia.
  - cbn [from_option id length] in Hl. replace inlen with 0 by lia. exists st. split; [done|].
    unfold slice. by rewrite take_0, app_nil_r.
Qed.

(** ** The one-shot hash *)

Lemma hash_keyed rounds outl key msg :
  key <> [] -> hash rounds outl key msg =
    digest rounds outl (init_chain outl (Z.of_nat (length key))) (key_block key ++ msg).
Proof. destruct key; [done|]. intros _. unfold hash, key_block. cbv zeta iota. done. Qed.

Lemma blake2b_hash out outl input inlen key keylen :
  1 <= outl <= 64 -> readable input inlen -> readable key keylen -> keylen <= 64 ->
  blake2b (Some out) outl input inlen key keylen =
  (Some (memcpy out 0 (hash 12 outl (slice key keylen) (slice input inlen))), 0).
Proof.
  intros Ho Hin Hkey Hk64. unfold blake2b, BLAKE2B_OUTBYTES, BLAKE2B_KEYBYTES.
  pose proof Hin as (Hin0 & Hinl & Hinb). pose proof Hkey as (Hkey0 & Hkeyl & Hkeyb).
  replace (negb (bool_decide (is_Some input)) && (0 <? inlen)) with false; cycle 1.
  { destruct input; cbn [from_option id length] in *; [by rewrite bool_decide_true|].
    replace inlen with 0 by lia. by rewrite andb_false_r. }
  rewrite (bool_decide_true (is_Some (Some out))) by done.
  destruct (Z.eqb_spec outl 0), (Z.ltb_spec 64 outl); try lia. cbn [negb orb].
  replace (negb (bool_decide (is_Some key)) && (0 <? keylen)) with false; cycle 1.
  { destruct key; cbn [from_option id length] in *; [by rewrite bool_decide_true|].
    replace keylen with 0 by lia. by rewrite andb_false_r. }
  destruct (Z.ltb_spec 64 keylen); [lia|]. cbn [orb].
  (* after initialisation the state represents the key block *)
  assert (Hinit : exists st0 kb,
    (if 0 <? keylen then blake2b_init_key (Some zeroed) outl key keylen
     else blake2b_init (Some zeroed) outl) = (Some st0, 0) /\
    represents 12 (init_chain outl (Z.of_nat (length (slice key keylen)))) outl st0 kb /\
    Forall byte kb /\
    hash 12 outl (slice key keylen) (slice input inlen) =
      digest 12 outl (init_chain outl (Z.of_nat (length (slice key keylen)))) (kb ++ slice input inlen)).
  { rewrite (slice_length key keylen) by done. rewrite Z2Nat.id by lia.
    destruct (Z.ltb_spec 0 keylen).
    - destruct key as [key|]; [|cbn [from_option id length] in *; lia]. cbn [from_option id] in *.
      destruct (blake2b_init_key_represents zeroed outl key keylen) as (st0 & E & Hr); [lia|lia|lia|done|].
      exists st0, (key_block (slice (Some key) keylen)). split_and!; [done|done|by apply key_block_bytes|].
      assert (Hsl := slice_length (Some key) keylen Hkey).
      rewrite hash_keyed, Hsl, Z2Nat.id; [done|lia|]. intros E'. rewrite E' in Hsl. cbn in Hsl. lia.
    - replace keylen with 0 by lia. destruct (blake2b_init_represents 12 zeroed outl Ho) as (st0 & E & Hr).
      exists st0, []. split_and!; done. }
  destruct Hinit as (st0 & kb & -> & Hr0 & Hkb & ->). cbn [Z.ltb Z.compare].
  destruct (update_readable blake2b_compress 12 _ outl st0 kb input inlen (init_chain_length _ _) Hr0 Hkb Hin)
    as (st1 & E1 & Hr1).
  unfold blake2b_update. rewrite E1. cbn [Z.ltb Z.compare].
  destruct (final_digest blake2b_compress 12 _ outl (init_chain_length _ _) st1 _ out outl Hr1)
    as (st2 & E2 & _); [by apply Forall_app|lia|].
  unfold blake2b_final. by rewrite E2.
Qed.

(** The argument checks of [blake2b]. *)
Definition bad_arguments (out : option (list Z)) (outl : Z) (input : option (list Z)) (inlen : Z)
    (key : option (list Z)) (keylen : Z) : Prop :=
  (input = None /\ 0 < inlen) \/ out = None \/ outl = 0 \/ 64 < outl \/
  (key = None /\ 0 < keylen) \/ 64 < keylen.

#[export] Instance bad_arguments_dec out outl input inlen key keylen :
  Decision (bad_arguments out outl input inlen key keylen).
Proof. unfold bad_arguments. apply _. Defined.

Lemma blake2b_bad out outl input inlen key keylen :
  bad_arguments out outl input inlen key keylen ->
  blake2b out outl input inlen key keylen = (out, -1).
Proof.
  intros H. unfold blake2b, BLAKE2B_OUTBYTES, BLAKE2B_KEYBYTES.
  destruct (negb (bool_decide (is_Some input)) && (0 <? inlen)) eqn:E1; [done|].
  destruct (negb (bool_decide (is_Some out)) || (outl =? 0) || (64 <? outl)) eqn:E2; [done|].
  destruct ((negb (bool_decide (is_Some key)) && (0 <? keylen)) || (64 <? keylen)) eqn:E3; [done|].
  exfalso. apply orb_false_iff in E2 as [[E2 E2']%orb_false_iff E2''].
  apply orb_false_iff in E3 as [E3 E3'].
  destruct H as [[-> ?]|[->|[?|[?|[[-> ?]|?]]]]]; try lia; rewrite ?bool_decide_false in * by (by intros []);
    cbn [negb andb] in *; try lia; done.
Qed.

(** ** The variable-length hash *)

Lemma memcpy_memcpy dst off a b :
  (off + length a <= length dst)%nat ->
  memcpy (memcpy dst off a) (off + length a) b = memcpy dst off (a ++ b).
Proof.
  intros H. unfold memcpy at 1. rewrite memcpy_take by done. unfold memcpy.
  rewrite length_app, <-!app_assoc. do 3 f_equal.
  rewrite app_assoc, drop_app_ge by (rewrite length_app, length_take; lia).
  rewrite drop_drop, length_app, length_take. f_equal. lia.
Qed.

Lemma hash_iter_S n v : hash_iter (S n) v = hash 12 64 [] (hash_iter n v).
Proof. revert v. induction n as [|n IH]; intros v; [done|]. cbn [hash_iter] in *. apply IH. Qed.

Lemma hash_iter_ok n v :
  Forall byte v -> length v = 64%nat ->
  Forall byte (hash_iter n v) /\ length (hash_iter n v) = 64%nat.
Proof.
  intros. destruct n; [done|]. rewrite hash_iter_S. split; [apply hash_bytes|].
  by apply hash_length.
Qed.

(** Hashing a 64-byte buffer into another one. *)
Lemma blake2b_64 ob n v :
  1 <= n <= 64 -> Forall byte v -> length v = 64%nat ->
  blake2b (Some ob) n (Some v) BLAKE2B_OUTBYTES None 0 = (Some (memcpy ob 0 (hash 12 n [] v)), 0).
Proof.
  intros Hn Hb Hl. destruct (readable_list v Hb) as [Hr E]; [lia|]. rewrite Hl in Hr, E.
  change BLAKE2B_OUTBYTES with (Z.of_nat 64). rewrite blake2b_hash.
  - by rewrite E.
  - done.
  - done.
  - repeat split; cbn; lia || constructor.
  - lia.
Qed.

Lemma long_loop_hash fuel out pos v tp :
  Forall byte v -> length v = 64%nat -> 33 <= tp <= 64 + 32 * Z.of_nat fuel ->
  Z.of_nat pos + tp <= Z.of_nat (length out) ->
  exists k, long_loop fuel out pos v tp =
    (memcpy out pos (flat_map (fun i => take 32 (hash_iter i v)) (seq 1 k)),
     (pos + 32 * k)%nat, hash_iter k v, tp - 32 * Z.of_nat k, 0) /\
    33 <= tp - 32 * Z.of_nat k <= 64.
Proof.
  revert out pos v tp. induction fuel as [|fuel IH]; intros out pos v tp Hb Hl Htp Hout.
  { exists 0%nat. cbn [long_loop seq flat_map hash_iter]. unfold memcpy. rewrite app_nil_l, Nat.add_0_r, take_drop.
    split; [|lia]. repeat f_equal; lia. }
  cbn [long_loop]. unfold BLAKE2B_OUTBYTES at 1. destruct (Z.ltb_spec 64 tp).
  2:{ exists 0%nat. cbn [seq flat_map hash_iter]. unfold memcpy. rewrite app_nil_l, Nat.add_0_r, take_drop.
    split; [|lia]. repeat f_equal; lia. }
  unfold BLAKE2B_OUTBYTES at 1. rewrite blake2b_64 by (done || lia). cbn [from_option id Z.ltb Z.compare].
  set (v' := hash 12 64 [] v).
  assert (Hv' : Forall byte v' /\ length v' = 64%nat) by (split; [apply hash_bytes|by apply hash_length]).
  destruct Hv' as [Hb' Hl']. rewrite memcpy_all by lia.
  assert (Hl32 : length (take 32 v') = 32%nat) by (rewrite length_take; lia).
  change (BLAKE2B_OUTBYTES / 2) with 32.
  destruct (IH (memcpy out pos (take 32 v')) (pos + 32)%nat v' (tp - 32) Hb' Hl') as (k & -> & Hk);
    [lia|rewrite memcpy_length; lia|].
  exists (S k). split; [|lia].
  rewrite <-Hl32 at 2. rewrite memcpy_memcpy by lia.
  replace (tp - 32 - 32 * Z.of_nat k) with (tp - 32 * Z.of_nat (S k)) by lia.
  replace (pos + 32 + 32 * k)%nat with (pos + 32 * S k)%nat by lia.
  cbn [seq flat_map]. rewrite <-(seq_shift k 1), !flat_map_concat_map, map_map. done.
Qed.

Lemma iter_blocks_length v n k :
  Forall byte v -> length v = 64%nat ->
  length (flat_map (fun i => take 32 (hash_iter i v)) (seq n k)) = (32 * k)%nat.
Proof.
  intros Hb Hl. revert n. induction k as [|k IH]; intros n; [done|]. cbn [seq flat_map].
  rewrite length_app, length_take, IH. destruct (hash_iter_ok n v Hb Hl). lia.
Qed.

Lemma memcpy_take_prefix dst src :
  (length src <= length dst)%nat -> take (length src) (memcpy dst 0 src) = src.
Proof. intros. exact (memcpy_take dst 0 src ltac:(lia)). Qed.

Lemma blake2b_long_hash out outl input inlen :
  1 <= outl <= UINT32_MAX -> Z.of_nat (length out) = outl -> readable input inlen ->
  blake2b_long out outl input inlen = (hash_long outl (slice input inlen), 0).
Proof.
  intros Ho Hlen Hin. unfold blake2b_long, UINT32_MAX in *. destruct (Z.ltb_spec 0xffffffff outl); [lia|].
  assert (H32 : word 32 outl) by (unfold word; lia). rewrite (wrap_small 32 outl) by done.
  rewrite store32_native by done. unfold BLAKE2B_OUTBYTES. set (n := if outl <=? 64 then outl else 64).
  assert (Hn : 1 <= n <= 64) by (subst n; case_match; lia).
  destruct (blake2b_init_represents 12 zeroed n Hn) as (st0 & -> & Hr0). cbn [Z.ltb Z.compare].
  assert (Hle := le_encode_bytes 4 outl).
  destruct (update_readable blake2b_compress 12 _ n st0 [] (Some (le_encode 4 outl)) 4
    (init_chain_length _ _) Hr0) as (st1 & E1 & Hr1); [done|repeat split; [lia|cbn; lia|by apply Forall_take]|].
  unfold blake2b_update. rewrite E1. cbn [Z.ltb Z.compare].
  change ([] ++ slice (Some (le_encode 4 outl)) 4) with (le_encode 4 outl) in Hr1.
  destruct (update_readable blake2b_compress 12 _ n st1 _ input inlen (init_chain_length _ _) Hr1 Hle Hin)
    as (st2 & -> & Hr2). cbn [Z.ltb Z.compare].
  set (x := le_encode 4 outl ++ slice input inlen) in *.
  assert (Hx : Forall byte x) by (apply Forall_app; split; [done|apply Hin]).
  destruct (final_digest blake2b_compress 12 _ n (init_chain_length _ _) st2 x
    (if outl <=? 64 then out else replicate 64 0) n Hr2 Hx) as (st3 & E3 & _); [lia|].
  unfold blake2b_final, hash_long. fold x. change (digest 12 n _ x) with (hash 12 n [] x) in E3.
  subst n. destruct (Z.leb_spec outl 64).
  { rewrite E3. cbn [from_option id]. rewrite memcpy_all; [done|]. rewrite hash_length by lia. lia. }
  rewrite E3. cbn [from_option id Z.ltb Z.compare].
  set (v1 := hash 12 64 [] x).
  assert (Hv : Forall byte v1) by apply hash_bytes.
  assert (Hvl : length v1 = 64%nat) by by apply hash_length.
  rewrite (memcpy_all (replicate 64 0) v1) by done. change (64 / 2) with 32. rewrite wrap_small by (unfold word; lia).
  assert (Hl32 : length (take 32 v1) = 32%nat) by (rewrite length_take; lia).
  destruct (long_loop_hash (Z.to_nat outl) (memcpy out 0 (take 32 v1)) 32 v1 (outl - 32))
    as (k & -> & Hk); [done|done|lia|rewrite memcpy_length; lia|].
  cbn [Z.ltb Z.compare]. destruct (hash_iter_ok k v1 Hv Hvl).
  rewrite blake2b_64 by (done || lia). cbn [from_option id Z.ltb Z.compare].
  set (tp := outl - 32 - 32 * Z.of_nat k) in *.
  assert (Hr : Z.to_nat ((outl + 31) / 32 - 2) = S k).
  { replace ((outl + 31) / 32) with (Z.of_nat k + 3); [lia|].
    apply Z.div_unique with (tp - 33); subst tp; lia. }
  rewrite Hr. replace (outl - 32 * Z.of_nat (S k)) with tp by lia. rewrite Nat.sub_succ, Nat.sub_0_r.
  assert (Hlast : length (hash 12 tp [] (hash_iter k v1)) = Z.to_nat tp) by (apply hash_length; lia).
  rewrite <-Hlast, memcpy_take_prefix by lia.
  assert (Hfl := iter_blocks_length v1 1 k Hv Hvl). set (mid := flat_map _ (seq 1 k)) in *.
  assert (E4 := memcpy_memcpy out 0 (take 32 v1) mid ltac:(lia)). cbn [Nat.add] in E4.
  rewrite Hl32 in E4. rewrite E4.
  set (last := hash 12 tp [] _). set (front := take 32 v1 ++ mid) in *.
  assert (Hfront : length front = (32 + 32 * k)%nat) by (subst front; rewrite length_app; lia).
  assert (E5 := memcpy_memcpy out 0 front last ltac:(lia)). cbn [Nat.add] in E5.
  rewrite Hfront in E5. rewrite E5. rewrite memcpy_all by (rewrite length_app; subst last; lia).
  cbn [seq flat_map hash_iter]. by subst front mid.
Qed.

(** ** The promise to Argon2

    What the memory-hard function needs of its hash: it fills the whole output
    buffer with bytes that depend only on the length and the input. *)
Class VarHash (H : list Z -> Z -> option (list Z) -> Z -> list Z * Z) : Prop := {
  vh_fills out n input inlen :
    1 <= n <= UINT32_MAX -> Z.of_nat (length out) = n -> readable input inlen ->
    exists d, H out n input inlen = (d, 0) /\ Z.of_nat (length d) = n /\ Forall byte d;
  vh_det out out' n input inlen :
    1 <= n <= UINT32_MAX -> Z.of_nat (length out) = n -> Z.of_nat (length out') = n ->
    readable input inlen -> H out n input inlen = H out' n input inlen }.

Lemma hash_long_length n msg : 1 <= n <= UINT32_MAX -> Z.of_nat (length (hash_long n msg)) = n.
Proof.
  intros Hn. unfold hash_long, UINT32_MAX in *. destruct (Z.leb_spec n 64).
  { rewrite hash_length; lia. }
  set (v := hash 12 64 [] _).
  assert (Hd := Z.div_mod (n + 31) 32 ltac:(lia)).
  assert (Hm := Z.mod_pos_bound (n + 31) 32 ltac:(lia)).
  rewrite length_app, iter_blocks_length, hash_length; [lia|lia|apply hash_bytes|by apply hash_length].
Qed.

Lemma hash_long_bytes n msg : Forall byte (hash_long n msg).
Proof.
  unfold hash_long. case_match; [apply hash_bytes|]. apply Forall_app. split; [|apply hash_bytes].
  set (v := hash 12 64 [] _). apply Forall_flat_map, Forall_forall. intros i _.
  apply Forall_take. apply hash_iter_ok; [apply hash_bytes|by apply hash_length].
Qed.

#[export] Instance blake2b_long_VarHash : VarHash blake2b_long.
Proof.
  split.
  - intros. rewrite blake2b_long_hash by done. eexists. split; [done|].
    split; [by apply hash_long_length|apply hash_long_bytes].
  - intros. by rewrite !blake2b_long_hash.
Qed.

(** ** The theorems *)

(** streaming.  Initialising a state, feeding it a message in any division
    into chunks and finishing succeeds at every call and writes to the output
    exactly the BLAKE2b digest (RFC 7693) of the concatenation of the chunks;
    the reduced functions compute the same construction with 4 rounds.  The
    state ends marked as used and erased. *)
Theorem blake2b_stream_refines_rfc7693 st nn chunks out n :
  1 <= nn <= 64 -> nn <= n -> Forall chunk_ok chunks ->
  (exists st0 st1 st2,
    blake2b_init (Some st) nn = (Some st0, 0) /\
    updates blake2b_update (Some st0) chunks = (Some st1, 0) /\
    blake2b_final (Some st1) (Some out) n =
      (Some st2, Some (memcpy out 0 (hash 12 nn [] (concat chunks))), 0) /\ finished st2) /\
  (exists st0 st1 st2,
    blake2b_init (Some st) nn = (Some st0, 0) /\
    updates blake2b_4r_update (Some st0) chunks = (Some st1, 0) /\
    blake2b_4r_final (Some st1) (Some out) n =
      (Some st2, Some (memcpy out 0 (hash 4 nn [] (concat chunks))), 0) /\ finished st2).
Proof.
  intros. split.
  - by apply (stream_digest blake2b_compress 12).
  - by apply (stream_digest blake2b_4r_compress 4).
Qed.

Lemma blake2b_stream_witness :
  exists st0 st1 st2,
    blake2b_init (Some zeroed) 32 = (Some st0, 0) /\
    updates blake2b_4r_update (Some st0) [replicate 100 1; []; replicate 300 2] = (Some st1, 0) /\
    blake2b_4r_final (Some st1) (Some (replicate 64 9)) 40 =
      (Some st2, Some (memcpy (replicate 64 9) 0
         (hash 4 32 [] (concat [replicate 100 1; []; replicate 300 2]))), 0) /\ finished st2.
Proof.
  refine (proj2 (blake2b_stream_refines_rfc7693 zeroed 32 _ _ 40 _ _ _)); [lia|lia|].
  repeat (apply Forall_cons; split); [| | |done].
  - split; [apply Forall_replicate; unfold word; lia|cbn; lia].
  - split; [constructor|cbn; lia].
  - split; [apply Forall_replicate; unfold word; lia|cbn; lia].
Defined.

(** The one-shot hash.  [blake2b] returns 0 and the RFC 7693 digest of the
    input under the (possibly empty) key when its arguments are valid, and
    returns -1 leaving the output as it was exactly when a check fails: a null
    input or key with a positive length, a null output, a digest length of 0
    or above 64, or a key longer than 64 bytes. *)
Theorem blake2b_oneshot out outl input inlen key keylen :
  0 <= outl -> (input <> None -> readable input inlen) -> (key <> None -> readable key keylen) ->
  0 <= inlen -> 0 <= keylen ->
  (bad_arguments out outl input inlen key keylen /\
   blake2b out outl input inlen key keylen = (out, -1)) \/
  (~ bad_arguments out outl input inlen key keylen /\
   exists o, out = Some o /\
   blake2b out outl input inlen key keylen =
     (Some (memcpy o 0 (hash 12 outl (slice key keylen) (slice input inlen))), 0)).
Proof.
  intros Ho Hi Hk Hil Hkl.
  assert (Hnull : forall p n, (p <> None -> readable p n) -> 0 <= n -> ~ (p = None /\ 0 < n) -> readable p n).
  { intros [d|] n Hp Hn H; [by apply Hp|]. assert (n = 0) as -> by (destruct (decide (0 < n)); [tauto|lia]).
    by repeat split; cbn; lia || constructor. }
  destruct (decide (bad_arguments out outl input inlen key keylen)) as [Hb|Hb].
  { left. split; [done|by apply blake2b_bad]. }
  right. split; [done|]. unfold bad_arguments in Hb. destruct out as [o|]; [|tauto].
  exists o. split; [done|]. apply blake2b_hash; [lia| | |lia]; apply Hnull; tauto.
Qed.

Lemma blake2b_oneshot_witness :
  let x := [0x61; 0x62; 0x63] in
  (bad_arguments (Some (replicate 64 0)) 64 (Some x) 3 None 0 /\
   blake2b (Some (replicate 64 0)) 64 (Some x) 3 None 0 = (Some (replicate 64 0), -1)) \/
  (~ bad_arguments (Some (replicate 64 0)) 64 (Some x) 3 None 0 /\
   exists o, Some (replicate 64 0) = Some o /\
   blake2b (Some (replicate 64 0)) 64 (Some x) 3 None 0 =
     (Some (memcpy o 0 (hash 12 64 (slice None 0) (slice (Some x) 3))), 0)).
Proof.
  intros x. apply blake2b_oneshot; [lia| |intros []|lia|lia].
  - intros _. repeat split; [lia|cbn; lia|repeat constructor; unfold word; lia].
  - done.
Defined.

(** the variable-length hash.  For every digest length of 1 to 2^32 - 1
    bytes, [blake2b_long] terminates with success and fills the output with
    H' of RFC 9106; for length 0 and for lengths beyond 32 bits it returns -1
    and writes nothing. *)
Theorem blake2b_long_refines_rfc9106 out outl input inlen :
  Z.of_nat (length out) = outl -> readable input inlen ->
  if (1 <=? outl) && (outl <=? 2 ^ 32 - 1) then
    blake2b_long out outl input inlen = (hash_long outl (slice input inlen), 0) /\
    Z.of_nat (length (hash_long outl (slice input inlen))) = outl
  else blake2b_long out outl input inlen = (out, -1).
Proof.
  intros Hlen Hin. destruct (Z.leb_spec 1 outl), (Z.leb_spec outl (2 ^ 32 - 1)); cbn [andb].
  - split; [by apply blake2b_long_hash|by apply hash_long_length].
  - unfold blake2b_long, UINT32_MAX. by rewrite (proj2 (Z.ltb_lt _ _)) by lia.
  - assert (outl = 0) as -> by lia. reflexivity.
  - lia.
Qed.

Lemma blake2b_long_refines_witness :
  blake2b_long (replicate 100 0) 100 (Some (replicate 72 7)) 72 =
  (hash_long 100 (slice (Some (replicate 72 7)) 72), 0).
Proof.
  refine (proj1 (blake2b_long_refines_rfc9106 (replicate 100 0) 100 (Some (replicate 72 7)) 72 _ _)).
  - reflexivity.
  - repeat split; [lia|cbn; lia|apply Forall_take, Forall_replicate; unfold word; lia].
Defined.

(** Misuse of a state.  A state whose last-block flag is set (by final, or
    because initialisation was asked for a digest of 0 or more than 64 bytes)
    is refused by every further update of at least one byte and by final: they
    return -1 and change neither the state nor the output buffer. *)
Theorem blake2b_misuse_rejected :
  (forall st n, n = 0 \/ 64 < n -> exists st',
     blake2b_init (Some st) n = (Some st', -1) /\ (f st').[0] <> 0) /\
  (forall st out n, (f st).[0] = 0 -> exists st' out' r,
     blake2b_final (Some st) (Some out) n = (Some st', Some out', r) /\
     (r = 0 -> length (f st) = 2%nat -> (f st').[0] <> 0)) /\
  (forall st pin inlen, (f st).[0] <> 0 -> inlen <> 0 ->
     blake2b_update (Some st) (Some pin) inlen = (Some st, -1) /\
     blake2b_4r_update (Some st) (Some pin) inlen = (Some st, -1)) /\
  (forall st out n, (f st).[0] <> 0 ->
     blake2b_final (Some st) (Some out) n = (Some st, Some out, -1) /\
     blake2b_4r_final (Some st) (Some out) n = (Some st, Some out, -1)).
Proof.
  split_and!.
  - intros st n Hn. exists (blake2b_set_lastblock zeroed). split; [|done].
    unfold blake2b_init, BLAKE2B_OUTBYTES, blake2b_invalidate_state.
    destruct Hn as [->|Hn]; [done|]. rewrite (proj2 (Z.ltb_lt _ _) Hn). by rewrite orb_true_r.
  - intros st out n Hf. unfold blake2b_final, final_with. rewrite Hf. cbn [Z.eqb negb].
    destruct (n <? outlen st); [by eexists _, _, _|].
    eexists _, _, _. split; [reflexivity|]. intros _ Hl.
    unfold blake2b_set_lastblock. cbn [blake2b_compress compress_out set_h set_buf f].
    destruct (f st) as [|? [|? []]] eqn:E; try done.
    cbn [last_node blake2b_increment_counter set_t]. rewrite ?E.
    by case_match; cbn [set_f f blake2b_set_lastnode blake2b_increment_counter set_t]; rewrite ?E.
  - intros st pin inlen Hf Hi. unfold blake2b_update, blake2b_4r_update, update_with.
    by rewrite (proj2 (Z.eqb_neq _ _) Hi), (proj2 (Z.eqb_neq _ _) Hf).
  - intros st out n Hf. unfold blake2b_final, blake2b_4r_final, final_with.
    rewrite (proj2 (Z.eqb_neq _ _) Hf). by case_match.
Qed.

(** The byte counter.  [blake2b_increment_counter] adds modulo 2^128 with
    the two words as halves, the carry of the low word included. *)
Theorem blake2b_counter_is_128_bit st lo hi inc :
  t st = [lo; hi] -> word 64 lo -> word 64 hi -> word 64 inc ->
  exists lo' hi', t (blake2b_increment_counter st inc) = [lo'; hi'] /\
    word 64 lo' /\ word 64 hi' /\
    lo' + 2 ^ 64 * hi' = (lo + 2 ^ 64 * hi + inc) mod 2 ^ 128.
Proof.
  intros Ht Hlo Hhi Hinc. set (cnt := lo + 2 ^ 64 * hi).
  assert (Hc : t st = halves cnt).
  { rewrite Ht. unfold halves, cnt, word in *. repeat f_equal.
    - apply Z.mod_unique with hi; lia.
    - replace ((lo + 2 ^ 64 * hi) / 2 ^ 64) with hi by (apply Z.div_unique with lo; lia).
      symmetry. apply Z.mod_small. lia. }
  rewrite (increment_counter_halves st cnt inc Hc) by done.
  eexists _, _. split; [reflexivity|]. fold (wrap 64 (cnt + inc)) (wrap 64 ((cnt + inc) / 2 ^ 64)).
  split_and!; [auto with words|auto with words|]. unfold wrap.
  change (2 ^ 128) with (2 ^ 64 * 2 ^ 64). by rewrite Z.rem_mul_r by lia.
Qed.

Lemma blake2b_counter_witness :
  exists lo' hi', t (blake2b_increment_counter
      (set_t zeroed [2 ^ 64 - 100; 5]) 128) = [lo'; hi'] /\
    word 64 lo' /\ word 64 hi' /\
    lo' + 2 ^ 64 * hi' = (2 ^ 64 - 100 + 2 ^ 64 * 5 + 128) mod 2 ^ 128.
Proof. apply blake2b_counter_is_128_bit; [reflexivity|unfold word; lia..]. Defined.
