(* ===== verification/SphBlake.v ===== *)
(** * SphBlake: BLAKE-224/256/384/512 of crypto/Lyra2Z/blake.c

    The sphlib implementation of the SHA-3 finalist BLAKE that the block
    header hash feeds to Lyra2.  The C file is written twice, over 32-bit and
    over 64-bit words, and twice again, with table-driven rounds (the
    [SPH_COMPACT_BLAKE_*] macros) and with rounds unrolled by the
    preprocessor.  Here the two widths are one development over a record of
    the quantities that differ, [flavour]; the compact and the unrolled rounds
    are both translated. *)

From S2P Require Import Prelude Words.

(** ** Big-endian access (sph_types.h)

    The portable branches; [sph_bswap32] and [sph_bswap64] are what the
    little-endian branches apply to a native load or store. *)

Definition SPH_T32 (x : Z) : Z := Z.land x 0xFFFFFFFF.
Definition SPH_ROTL32 (x n : Z) : Z := SPH_T32 (Z.lor (x ≪ n) (x ≫ (32 - n))).
Definition SPH_ROTR32 (x n : Z) : Z := SPH_ROTL32 x (32 - n).
Definition SPH_T64 (x : Z) : Z := Z.land x 0xFFFFFFFFFFFFFFFF.
Definition SPH_ROTL64 (x n : Z) : Z := SPH_T64 (Z.lor (x ≪ n) (x ≫ (64 - n))).
Definition SPH_ROTR64 (x n : Z) : Z := SPH_ROTL64 x (64 - n).

Definition sph_bswap32 (x : Z) : Z :=
  let x := SPH_T32 (Z.lor (x ≪ 16) (x ≫ 16)) in
  u32 (Z.lor (Z.land x 0xFF00FF00 ≫ 8) (Z.land x 0x00FF00FF ≪ 8)).

Definition sph_bswap64 (x : Z) : Z :=
  let x := SPH_T64 (Z.lor (x ≪ 32) (x ≫ 32)) in
  let x := u64 (Z.lor (Z.land x 0xFFFF0000FFFF0000 ≫ 16) (Z.land x 0x0000FFFF0000FFFF ≪ 16)) in
  u64 (Z.lor (Z.land x 0xFF00FF00FF00FF00 ≫ 8) (Z.land x 0x00FF00FF00FF00FF ≪ 8)).

Definition sph_enc32be (val : Z) : list Z := [u8 (val ≫ 24); u8 (val ≫ 16); u8 (val ≫ 8); u8 val].

Definition sph_dec32be (src : list Z) : Z :=
  Z.lor (Z.lor (Z.lor (u32 (src.[0] ≪ 24)) (u32 (src.[1] ≪ 16))) (u32 (src.[2] ≪ 8))) src.[3].

Definition sph_enc64be (val : Z) : list Z :=
  [u8 (val ≫ 56); u8 (val ≫ 48); u8 (val ≫ 40); u8 (val ≫ 32);
   u8 (val ≫ 24); u8 (val ≫ 16); u8 (val ≫ 8); u8 val].

Definition sph_dec64be (src : list Z) : Z :=
  Z.lor (Z.lor (Z.lor (Z.lor (Z.lor (Z.lor (Z.lor
    (u64 (src.[0] ≪ 56)) (u64 (src.[1] ≪ 48))) (u64 (src.[2] ≪ 40))) (u64 (src.[3] ≪ 32)))
    (u64 (src.[4] ≪ 24))) (u64 (src.[5] ≪ 16))) (u64 (src.[6] ≪ 8))) src.[7].

(** ** Constants *)

Definition IV224 : list Z := [0xC1059ED8; 0x367CD507; 0x3070DD17; 0xF70E5939; 0xFFC00B31; 0x68581511; 0x64F98FA7; 0xBEFA4FA4].
Definition IV256 : list Z := [0x6A09E667; 0xBB67AE85; 0x3C6EF372; 0xA54FF53A; 0x510E527F; 0x9B05688C; 0x1F83D9AB; 0x5BE0CD19].
Definition IV384 : list Z := [
  0xCBBB9D5DC1059ED8; 0x629A292A367CD507; 0x9159015A3070DD17; 0x152FECD8F70E5939;
  0x67332667FFC00B31; 0x8EB44A8768581511; 0xDB0C2E0D64F98FA7; 0x47B5481DBEFA4FA4].
Definition IV512 : list Z := [
  0x6A09E667F3BCC908; 0xBB67AE8584CAA73B; 0x3C6EF372FE94F82B; 0xA54FF53A5F1D36F1;
  0x510E527FADE682D1; 0x9B05688C2B3E6C1F; 0x1F83D9ABFB41BD6B; 0x5BE0CD19137E2179].

(** The permutations of the compact rounds. *)
Definition sigma : list (list nat) := [
  [ 0;  1;  2;  3;  4;  5;  6;  7;  8;  9; 10; 11; 12; 13; 14; 15];
  [14; 10;  4;  8;  9; 15; 13;  6;  1; 12;  0;  2; 11;  7;  5;  3];
  [11;  8; 12;  0;  5;  2; 15; 13; 10; 14;  3;  6;  7;  1;  9;  4];
  [ 7;  9;  3;  1; 13; 12; 11; 14;  2;  6;  5; 10;  4;  0; 15;  8];
  [ 9;  0;  5;  7;  2;  4; 10; 15; 14;  1; 11; 12;  6;  8;  3; 13];
  [ 2; 12;  6; 10;  0; 11;  8;  3;  4; 13;  7;  5; 15; 14;  1;  9];
  [12;  5;  1; 15; 14; 13;  4; 10;  0;  7;  6;  3;  9;  2;  8; 11];
  [13; 11;  7; 14; 12;  1;  3;  9;  5;  0; 15;  4;  8;  6;  2; 10];
  [ 6; 15; 14;  9; 11;  3;  0;  8; 12;  2; 13;  7;  1;  4; 10;  5];
  [10;  2;  8;  4;  7;  6;  1;  5; 15; 11;  9; 14;  3; 12; 13;  0];
  [ 0;  1;  2;  3;  4;  5;  6;  7;  8;  9; 10; 11; 12; 13; 14; 15];
  [14; 10;  4;  8;  9; 15; 13;  6;  1; 12;  0;  2; 11;  7;  5;  3];
  [11;  8; 12;  0;  5;  2; 15; 13; 10; 14;  3;  6;  7;  1;  9;  4];
  [ 7;  9;  3;  1; 13; 12; 11; 14;  2;  6;  5; 10;  4;  0; 15;  8];
  [ 9;  0;  5;  7;  2;  4; 10; 15; 14;  1; 11; 12;  6;  8;  3; 13];
  [ 2; 12;  6; 10;  0; 11;  8;  3;  4; 13;  7;  5; 15; 14;  1;  9] ]%nat.

(** The macros [Zri] of the unrolled rounds: row [r], column [i]. *)
Definition Zmacro (r i : nat) : nat :=
  nth i (nth r [
    [0x0; 0x1; 0x2; 0x3; 0x4; 0x5; 0x6; 0x7; 0x8; 0x9; 0xA; 0xB; 0xC; 0xD; 0xE; 0xF];
    [0xE; 0xA; 0x4; 0x8; 0x9; 0xF; 0xD; 0x6; 0x1; 0xC; 0x0; 0x2; 0xB; 0x7; 0x5; 0x3];
    [0xB; 0x8; 0xC; 0x0; 0x5; 0x2; 0xF; 0xD; 0xA; 0xE; 0x3; 0x6; 0x7; 0x1; 0x9; 0x4];
    [0x7; 0x9; 0x3; 0x1; 0xD; 0xC; 0xB; 0xE; 0x2; 0x6; 0x5; 0xA; 0x4; 0x0; 0xF; 0x8];
    [0x9; 0x0; 0x5; 0x7; 0x2; 0x4; 0xA; 0xF; 0xE; 0x1; 0xB; 0xC; 0x6; 0x8; 0x3; 0xD];
    [0x2; 0xC; 0x6; 0xA; 0x0; 0xB; 0x8; 0x3; 0x4; 0xD; 0x7; 0x5; 0xF; 0xE; 0x1; 0x9];
    [0xC; 0x5; 0x1; 0xF; 0xE; 0xD; 0x4; 0xA; 0x0; 0x7; 0x6; 0x3; 0x9; 0x2; 0x8; 0xB];
    [0xD; 0xB; 0x7; 0xE; 0xC; 0x1; 0x3; 0x9; 0x5; 0x0; 0xF; 0x4; 0x8; 0x6; 0x2; 0xA];
    [0x6; 0xF; 0xE; 0x9; 0xB; 0x3; 0x0; 0x8; 0xC; 0x2; 0xD; 0x7; 0x1; 0x4; 0xA; 0x5];
    [0xA; 0x2; 0x8; 0x4; 0x7; 0x6; 0x1; 0x5; 0xF; 0xB; 0x9; 0xE; 0x3; 0xC; 0xD; 0x0] ]%nat [])%nat 0%nat.

Definition CS : list Z := [
  0x243F6A88; 0x85A308D3; 0x13198A2E; 0x03707344; 0xA4093822; 0x299F31D0; 0x082EFA98; 0xEC4E6C89;
  0x452821E6; 0x38D01377; 0xBE5466CF; 0x34E90C6C; 0xC0AC29B7; 0xC97C50DD; 0x3F84D5B5; 0xB5470917].
Definition CB : list Z := [
  0x243F6A8885A308D3; 0x13198A2E03707344; 0xA4093822299F31D0; 0x082EFA98EC4E6C89;
  0x452821E638D01377; 0xBE5466CF34E90C6C; 0xC0AC29B7C97C50DD; 0x3F84D5B5B5470917;
  0x9216D5D98979FB1B; 0xD1310BA698DFB5AC; 0x2FFD72DBD01ADFB7; 0xB8E1AFED6A267E96;
  0xBA7C9045F12C7F99; 0x24A19947B3916CF7; 0x0801F2E2858EFC16; 0x636920D871574E69].

(** ** What differs between the 32-bit and the 64-bit code *)

Record flavour := mk_flavour {
  wbits : Z;                       (* bits of a word *)
  wbytes : nat;                (* bytes of a word *)
  rotr : Z -> Z -> Z;          (* SPH_ROTR32, SPH_ROTR64 *)
  rot1 : Z; rot2 : Z; rot3 : Z; rot4 : Z;
  dec : list Z -> Z;           (* sph_dec32be, sph_dec64be *)
  enc : Z -> list Z;           (* sph_enc32be, sph_enc64be *)
  consts : list Z;             (* CS, CB *)
  compact_rounds : nat;        (* bound of the loop of the compact rounds *)
  unrolled_rounds : list nat   (* the rounds written out otherwise *) }.

Definition small : flavour :=
  mk_flavour 32 4 SPH_ROTR32 16 12 8 7 sph_dec32be sph_enc32be CS 14
    [0; 1; 2; 3; 4; 5; 6; 7; 8; 9; 0; 1; 2; 3]%nat.

Definition big : flavour :=
  mk_flavour 64 8 SPH_ROTR64 32 25 16 11 sph_dec64be sph_enc64be CB 16
    [0; 1; 2; 3; 4; 5; 6; 7; 8; 9; 0; 1; 2; 3; 4; 5]%nat.

Section blake.
Context (fl : flavour).

(** [sizeof sc->buf]: 64 or 128. *)
Definition bufsize : nat := (16 * wbytes fl)%nat.

(** The macros [GS] and [GB]. *)
Definition GX (m0 m1 c0 c1 a b c d : Z) : Z * Z * Z * Z :=
  let a := wrap (wbits fl) (a + b + (m0 ⊕ c1)) in
  let d := rotr fl (d ⊕ a) (rot1 fl) in
  let c := wrap (wbits fl) (c + d) in
  let b := rotr fl (b ⊕ c) (rot2 fl) in
  let a := wrap (wbits fl) (a + b + (m1 ⊕ c0)) in
  let d := rotr fl (d ⊕ a) (rot3 fl) in
  let c := wrap (wbits fl) (c + d) in
  let b := rotr fl (b ⊕ c) (rot4 fl) in
  (a, b, c, d).

(** The macros [ROUND_S] and [ROUND_B]; [ix] is the permutation of the round,
    [sigma[r]] when compact and the macros [Zr?] when unrolled. *)
Definition ROUND_X (M : list Z) (ix : nat -> nat) (V : list Z) : list Z :=
  let m i := M.[ix i] in
  let c i := (consts fl).[ix i] in
  match V with
  | [V0; V1; V2; V3; V4; V5; V6; V7; V8; V9; VA; VB; VC; VD; VE; VF] =>
      let '(V0, V4, V8, VC) := GX (m 0x0%nat) (m 0x1%nat) (c 0x0%nat) (c 0x1%nat) V0 V4 V8 VC in
      let '(V1, V5, V9, VD) := GX (m 0x2%nat) (m 0x3%nat) (c 0x2%nat) (c 0x3%nat) V1 V5 V9 VD in
      let '(V2, V6, VA, VE) := GX (m 0x4%nat) (m 0x5%nat) (c 0x4%nat) (c 0x5%nat) V2 V6 VA VE in
      let '(V3, V7, VB, VF) := GX (m 0x6%nat) (m 0x7%nat) (c 0x6%nat) (c 0x7%nat) V3 V7 VB VF in
      let '(V0, V5, VA, VF) := GX (m 0x8%nat) (m 0x9%nat) (c 0x8%nat) (c 0x9%nat) V0 V5 VA VF in
      let '(V1, V6, VB, VC) := GX (m 0xA%nat) (m 0xB%nat) (c 0xA%nat) (c 0xB%nat) V1 V6 VB VC in
      let '(V2, V7, V8, VD) := GX (m 0xC%nat) (m 0xD%nat) (c 0xC%nat) (c 0xD%nat) V2 V7 V8 VD in
      let '(V3, V4, V9, VE) := GX (m 0xE%nat) (m 0xF%nat) (c 0xE%nat) (c 0xF%nat) V3 V4 V9 VE in
      [V0; V1; V2; V3; V4; V5; V6; V7; V8; V9; VA; VB; VC; VD; VE; VF]
  | _ => V
  end.

(** The start and the end of [COMPRESS32] and [COMPRESS64]. *)
Definition compress_start (H S : list Z) (T0 T1 : Z) : list Z :=
  let c := consts fl in
  take 8 H ++ [S.[0] ⊕ c.[0]; S.[1] ⊕ c.[1]; S.[2] ⊕ c.[2]; S.[3] ⊕ c.[3];
               T0 ⊕ c.[4]; T0 ⊕ c.[5]; T1 ⊕ c.[6]; T1 ⊕ c.[7]].

Definition compress_end (H S V : list Z) : list Z :=
  map (fun i => H.[i] ⊕ (S.[i mod 4] ⊕ V.[i] ⊕ V.[i + 8])) (seq 0 8).

Definition message_words (buf : list Z) : list Z :=
  map (fun i => dec fl (drop (wbytes fl * i) buf)) (seq 0 16).

Definition COMPRESS_compact (H S : list Z) (T0 T1 : Z) (buf : list Z) : list Z :=
  let M := message_words buf in
  compress_end H S
    (fold_left (fun V r => ROUND_X M (fun i => nth i (nth r sigma []) 0%nat) V)
      (seq 0 (compact_rounds fl)) (compress_start H S T0 T1)).

Definition COMPRESS (H S : list Z) (T0 T1 : Z) (buf : list Z) : list Z :=
  let M := message_words buf in
  compress_end H S
    (fold_left (fun V r => ROUND_X M (Zmacro r) V) (unrolled_rounds fl) (compress_start H S T0 T1)).

(** ** Contexts and streaming *)

Record context := mk_context {
  ctx_buf : list Z; ctx_ptr : nat; ctx_H : list Z; ctx_S : list Z; ctx_T0 : Z; ctx_T1 : Z }.

Definition blake_init (sc : context) (iv salt : list Z) : context :=
  mk_context (ctx_buf sc) 0 iv salt 0 0.

(** A full buffer is absorbed: [T0], [T1] count its bits. *)
Definition absorb_buffer (sc : context) : context :=
  let bits := 8 * Z.of_nat bufsize in
  let t0 := wrap (wbits fl) (ctx_T0 sc + bits) in
  let t1 := if t0 <? bits then wrap (wbits fl) (ctx_T1 sc + 1) else ctx_T1 sc in
  mk_context (ctx_buf sc) 0 (COMPRESS (ctx_H sc) (ctx_S sc) t0 t1 (ctx_buf sc)) (ctx_S sc) t0 t1.

(** [while (len > 0)]. *)
Fixpoint blake_loop (fuel : nat) (sc : context) (data : list Z) : context :=
  match fuel with
  | O => sc
  | S fuel =>
      if (0 <? length data)%nat then
        let clen := (bufsize - ctx_ptr sc)%nat in
        let clen := if (length data <? clen)%nat then length data else clen in
        let sc := mk_context (memcpy (ctx_buf sc) (ctx_ptr sc) (take clen data)) (ctx_ptr sc + clen)
                    (ctx_H sc) (ctx_S sc) (ctx_T0 sc) (ctx_T1 sc) in
        let sc := if (ctx_ptr sc =? bufsize)%nat then absorb_buffer sc else sc in
        blake_loop fuel sc (drop clen data)
      else sc
  end.

(** [blake32] and [blake64]; [data] is the [len] bytes at the pointer. *)
Definition blake (sc : context) (data : list Z) : context :=
  if (length data <? bufsize - ctx_ptr sc)%nat then
    mk_context (memcpy (ctx_buf sc) (ctx_ptr sc) data) (ctx_ptr sc + length data) (ctx_H sc) (ctx_S sc) (ctx_T0 sc) (ctx_T1 sc)
  else blake_loop (length data) sc data.

(** [blake32_close] and [blake64_close] with [ub], [n] the trailing bits and
    [out_size] the number of output words; the context and the output bytes.
    [u.buf] is a local buffer, read only where it has been written. *)
Definition blake_close (sc : context) (ub n : Z) (out_size : nat) : context * list Z :=
  let bits := 8 * Z.of_nat bufsize in
  let lenpos := (14 * wbytes fl)%nat in
  let p := ctx_ptr sc in
  let bit_len := (Z.of_nat p ≪ 3) + n in
  let z := 0x80 ≫ n in
  let u := replicate bufsize 0 in
  let u := <[p := Z.land (Z.lor (Z.land ub (u32 (- z))) z) 0xFF]> u in
  let tl := wrap (wbits fl) (ctx_T0 sc + bit_len) in
  let th := ctx_T1 sc in
  let '(t0, t1) :=
    if (p =? 0)%nat && (n =? 0) then (wrap (wbits fl) (- bits), wrap (wbits fl) (-1))
    else if ctx_T0 sc =? 0 then (wrap (wbits fl) (wrap (wbits fl) (- bits) + bit_len), wrap (wbits fl) (ctx_T1 sc - 1))
    else (wrap (wbits fl) (ctx_T0 sc - (bits - bit_len)), ctx_T1 sc) in
  let sc := mk_context (ctx_buf sc) p (ctx_H sc) (ctx_S sc) t0 t1 in
  let sc :=
    if bit_len <=? 8 * Z.of_nat lenpos - 2 then
      let u := memcpy u (p + 1) (replicate (lenpos - 1 - p) 0) in
      let u := if (out_size =? 8)%nat then <[(lenpos - 1)%nat := Z.lor u.[lenpos - 1] 1]> u else u in
      let u := memcpy u lenpos (enc fl th) in
      let u := memcpy u (lenpos + wbytes fl) (enc fl tl) in
      blake sc (drop p u)
    else
      let u := memcpy u (p + 1) (replicate (bufsize - 1 - p) 0) in
      let sc := blake sc (drop p u) in
      let sc := mk_context (ctx_buf sc) (ctx_ptr sc) (ctx_H sc) (ctx_S sc) (wrap (wbits fl) (- bits)) (wrap (wbits fl) (-1)) in
      let u := memcpy u 0 (replicate lenpos 0) in
      let u := if (out_size =? 8)%nat then <[(lenpos - 1)%nat := 1]> u else u in
      let u := memcpy u lenpos (enc fl th) in
      let u := memcpy u (lenpos + wbytes fl) (enc fl tl) in
      blake sc u in
  (sc, flat_map (fun k => enc fl (ctx_H sc).[k]) (seq 0 out_size)).
End blake.

(** ** The functions of the two widths and the public interface *)

(** The macros at their two widths. *)
Definition GS := GX small.
Definition GB := GX big.
Definition ROUND_S := ROUND_X small.
Definition ROUND_B := ROUND_X big.
Definition COMPRESS32_compact := COMPRESS_compact small.
Definition COMPRESS32 := COMPRESS small.
Definition COMPRESS64_compact := COMPRESS_compact big.
Definition COMPRESS64 := COMPRESS big.

Definition salt_zero : list Z := [0; 0; 0; 0].
Definition blake32_init := blake_init.
Definition blake32 := blake small.
Definition blake32_close := blake_close small.
Definition blake64_init := blake_init.
Definition blake64 := blake big.
Definition blake64_close := blake_close big.

Definition sph_blake224_init (cc : context) : context := blake32_init cc IV224 salt_zero.
Definition sph_blake224 (cc : context) (data : list Z) : context := blake32 cc data.
Definition sph_blake224_addbits_and_close (cc : context) (ub n : Z) : context * list Z :=
  let '(cc, dst) := blake32_close cc ub n 7 in (sph_blake224_init cc, dst).
Definition sph_blake224_close (cc : context) : context * list Z := sph_blake224_addbits_and_close cc 0 0.

Definition sph_blake256_init (cc : context) : context := blake32_init cc IV256 salt_zero.
Definition sph_blake256 (cc : context) (data : list Z) : context := blake32 cc data.
Definition sph_blake256_addbits_and_close (cc : context) (ub n : Z) : context * list Z :=
  let '(cc, dst) := blake32_close cc ub n 8 in (sph_blake256_init cc, dst).
Definition sph_blake256_close (cc : context) : context * list Z := sph_blake256_addbits_and_close cc 0 0.

Definition sph_blake384_init (cc : context) : context := blake64_init cc IV384 salt_zero.
Definition sph_blake384 (cc : context) (data : list Z) : context := blake64 cc data.
Definition sph_blake384_addbits_and_close (cc : context) (ub n : Z) : context * list Z :=
  let '(cc, dst) := blake64_close cc ub n 6 in (sph_blake384_init cc, dst).
Definition sph_blake384_close (cc : context) : context * list Z := sph_blake384_addbits_and_close cc 0 0.

Definition sph_blake512_init (cc : context) : context := blake64_init cc IV512 salt_zero.
Definition sph_blake512 (cc : context) (data : list Z) : context := blake64 cc data.
Definition sph_blake512_addbits_and_close (cc : context) (ub n : Z) : context * list Z :=
  let '(cc, dst) := blake64_close cc ub n 8 in (sph_blake512_init cc, dst).
Definition sph_blake512_close (cc : context) : context * list Z := sph_blake512_addbits_and_close cc 0 0.

(** A context on the stack, before its initialisation. *)
Definition raw_context (fl : flavour) : context := mk_context (replicate (bufsize fl) 0) 0 [] [] 0 0.
