(* ===== verification/SphBlakeCorrect.v ===== *)
(** * SphBlakeCorrect: blake.c hashes by BLAKE's padding and iteration

    The compact and the unrolled compression functions agree; a context
    represents the message fed to it in any division; closing it computes the
    BLAKE iteration over the padded message, with the counter of each block
    the number of message bits hashed so far (0 for a block that holds only
    padding), although the code sets the counter up by an underflow. *)

From S2P Require Import Prelude Words SphBlake.

(** ** Compact and unrolled rounds *)

Lemma ROUND_X_ext fl M ix ix' V :
  (forall i, (i < 16)%nat -> ix i = ix' i) -> ROUND_X fl M ix V = ROUND_X fl M ix' V.
Proof. intros E. unfold ROUND_X. by rewrite !E by lia. Qed.

Lemma sigma_Zmacro r i :
  (r < 16)%nat -> (i < 16)%nat -> nth i (nth r sigma []) 0%nat = Zmacro (r mod 10) i.
Proof.
  intros Hr Hi.
  assert (H : forallb (fun r => forallb (fun i =>
    (nth i (nth r sigma []) 0 =? Zmacro (r mod 10) i)%nat) (seq 0 16)) (seq 0 16) = true)
    by (vm_compute; reflexivity).
  rewrite forallb_forall in H. specialize (H r ltac:(apply in_seq; lia)).
  rewrite forallb_forall in H. specialize (H i ltac:(apply in_seq; lia)). by apply Nat.eqb_eq.
Qed.

(** What the rest of the development uses of a flavour. *)
Class Flavour (fl : flavour) : Prop := {
  fl_width : wbits fl = 8 * Z.of_nat (wbytes fl);
  fl_bytes : (4 <= wbytes fl)%nat;
  fl_bits : 8 * Z.of_nat (bufsize fl) < 2 ^ wbits fl;
  fl_divides : (8 * Z.of_nat (bufsize fl) | 2 ^ wbits fl);
  fl_enc w : length (enc fl w) = wbytes fl;
  fl_rounds : unrolled_rounds fl = map (fun r => r mod 10)%nat (seq 0 (compact_rounds fl));
  fl_few : (compact_rounds fl <= 16)%nat }.

#[export] Instance small_flavour : Flavour small.
Proof. split; try done; cbn; try lia. by exists (2 ^ 23). Qed.

#[export] Instance big_flavour : Flavour big.
Proof. split; try done; cbn; try lia. by exists (2 ^ 54). Qed.

Lemma compress_forms fl `{!Flavour fl} HH s t0 t1 b :
  COMPRESS_compact fl HH s t0 t1 b = COMPRESS fl HH s t0 t1 b.
Proof.
  unfold COMPRESS_compact, COMPRESS. f_equal. rewrite fl_rounds.
  pose proof fl_few as Hf. generalize (compress_start fl HH s t0 t1).
  assert (Hl : Forall (fun r => r < 16)%nat (seq 0 (compact_rounds fl)))
    by (apply Forall_seq; intros; lia).
  induction Hl as [|r l Hr _ IH]; intros V; cbn [map fold_left]; [done|].
  rewrite (ROUND_X_ext fl _ _ (Zmacro (r mod 10))); [apply IH|].
  intros. by apply sigma_Zmacro.
Qed.

(** ** The iteration *)

Section iteration.
Context (fl : flavour) `{!Flavour fl}.

Local Abbreviation bs := (bufsize fl).

(** Bits of a block. *)
Definition block_bits : Z := 8 * Z.of_nat (bufsize fl).

(** Compress with a counter given as an integer. *)
Definition compress_at (s hh block : list Z) (c : Z) : list Z :=
  COMPRESS fl hh s (lo (wbits fl) c) (hi (wbits fl) c) block.

(** The chaining value after [n] full blocks, counting from [c0]. *)
Definition absorb (s : list Z) (c0 : Z) (n : nat) (h0 msg : list Z) : list Z :=
  fold_left (fun hh i =>
    compress_at s hh (take bs (drop (bs * i) msg)) (c0 + block_bits * (Z.of_nat i + 1)))
    (seq 0 n) h0.

Lemma sph_absorb_S s c0 n h0 msg :
  absorb s c0 (S n) h0 msg =
  compress_at s (absorb s c0 n h0 msg) (take bs (drop (bs * n) msg))
    (c0 + block_bits * (Z.of_nat n + 1)).
Proof. unfold absorb. by rewrite seq_S, fold_left_app. Qed.

Lemma sph_absorb_app s c0 n h0 msg more :
  (bs * n <= length msg)%nat -> absorb s c0 n h0 (msg ++ more) = absorb s c0 n h0 msg.
Proof.
  induction n as [|n IH]; intros Hn; [done|]. rewrite !sph_absorb_S, IH by lia.
  rewrite drop_app_le, take_app_le by (rewrite ?length_drop; lia). done.
Qed.

(** A context that started at chaining value [h0] and counter [c0] and has
    been fed [msg]: [m] full blocks and the rest in the buffer. *)
Record rep (s h0 : list Z) (c0 : Z) (sc : context) (msg : list Z) (m : nat) : Prop := {
  rep_H : ctx_H sc = absorb s c0 m h0 msg;
  rep_S : ctx_S sc = s;
  rep_T0 : ctx_T0 sc = lo (wbits fl) (c0 + block_bits * Z.of_nat m);
  rep_T1 : ctx_T1 sc = hi (wbits fl) (c0 + block_bits * Z.of_nat m);
  rep_len : length msg = (bs * m + ctx_ptr sc)%nat;
  rep_ptr : (ctx_ptr sc < bs)%nat;
  rep_buf : length (ctx_buf sc) = bs;
  rep_tail : take (ctx_ptr sc) (ctx_buf sc) = drop (bs * m) msg }.

Definition represents s h0 c0 sc msg : Prop := exists m, rep s h0 c0 sc msg m.

(** Copy a piece that fits, then absorb the buffer if it is full. *)
Definition feed (sc : context) (chunk : list Z) : context :=
  let sc := mk_context (memcpy (ctx_buf sc) (ctx_ptr sc) chunk) (ctx_ptr sc + length chunk)
              (ctx_H sc) (ctx_S sc) (ctx_T0 sc) (ctx_T1 sc) in
  if (ctx_ptr sc =? bs)%nat then absorb_buffer fl sc else sc.

Lemma feed_represents s h0 c0 sc msg chunk :
  represents s h0 c0 sc msg -> (ctx_ptr sc + length chunk <= bs)%nat ->
  represents s h0 c0 (feed sc chunk) (msg ++ chunk).
Proof.
  intros [m [HH HS HT0 HT1 Hlen Hptr Hbuf Htail]] Hfit. unfold feed. cbn [ctx_ptr].
  assert (Hl : length (msg ++ chunk) = (bs * m + (ctx_ptr sc + length chunk))%nat)
    by (rewrite length_app; lia).
  assert (Ht : take (ctx_ptr sc + length chunk) (memcpy (ctx_buf sc) (ctx_ptr sc) chunk) =
               drop (bs * m) (msg ++ chunk)).
  { rewrite memcpy_take, Htail by lia. by rewrite drop_app_le by lia. }
  assert (HH' : ctx_H sc = absorb s c0 m h0 (msg ++ chunk))
    by (rewrite HH; symmetry; apply sph_absorb_app; lia).
  destruct (Nat.eqb_spec (ctx_ptr sc + length chunk) bs) as [E|E].
  - exists (S m). unfold absorb_buffer. cbn [ctx_buf ctx_H ctx_S ctx_T0 ctx_T1 ctx_ptr].
    fold block_bits. rewrite HT0, HT1.
    destruct (add_carry (wbits fl) (c0 + block_bits * Z.of_nat m) block_bits) as [E0 E1].
    { pose proof fl_width. pose proof fl_bytes. lia. }
    { unfold block_bits. split; [lia|apply fl_bits]. }
    replace (c0 + block_bits * Z.of_nat m + block_bits)
      with (c0 + block_bits * Z.of_nat (S m)) in * by lia.
    assert (E1' : (if wrap (wbits fl) (lo (wbits fl) (c0 + block_bits * Z.of_nat m) + block_bits) <? block_bits
      then wrap (wbits fl) (hi (wbits fl) (c0 + block_bits * Z.of_nat m) + 1)
      else hi (wbits fl) (c0 + block_bits * Z.of_nat m)) = hi (wbits fl) (c0 + block_bits * Z.of_nat (S m))).
    { rewrite <-E1. case_match; [done|]. rewrite Z.add_0_r. unfold hi, wrap. by rewrite Zmod_mod. }
    rewrite E0 in *. rewrite E1'. constructor; cbn [ctx_buf ctx_H ctx_S ctx_T0 ctx_T1 ctx_ptr]; try done || lia.
    + rewrite sph_absorb_S, <-HH'. unfold compress_at. rewrite HS, <-Ht.
      replace (Z.of_nat (S m)) with (Z.of_nat m + 1) by lia. f_equal.
      rewrite take_take, E, Nat.min_id, take_ge; [done|]. rewrite memcpy_length; lia.
    + rewrite memcpy_length; lia.
    + rewrite take_0, drop_ge; [done|lia].
  - exists m. constructor; cbn [ctx_buf ctx_H ctx_S ctx_T0 ctx_T1 ctx_ptr]; try done || lia.
    rewrite memcpy_length; lia.
Qed.

Lemma loop_represents s h0 c0 fuel sc msg data :
  represents s h0 c0 sc msg -> (length data <= fuel)%nat ->
  represents s h0 c0 (blake_loop fl fuel sc data) (msg ++ data).
Proof.
  revert sc msg data. induction fuel as [|fuel IH]; intros sc msg data Hr Hf.
  { destruct data; [by rewrite app_nil_r|cbn in Hf; lia]. }
  cbn [blake_loop]. destruct (Nat.ltb_spec 0 (length data)) as [Hd|Hd].
  2:{ destruct data; [by rewrite app_nil_r|cbn in Hd; lia]. }
  destruct (Hr) as [m Hm]. pose proof (rep_ptr _ _ _ _ _ _ Hm).
  set (clen := if (length data <? bs - ctx_ptr sc)%nat then length data else (bs - ctx_ptr sc)%nat).
  assert (Hc : (0 < clen <= length data)%nat /\ (clen <= bs - ctx_ptr sc)%nat).
  { subst clen. destruct (Nat.ltb_spec (length data) (bs - ctx_ptr sc)); lia. }
  assert (Hlen : length (take clen data) = clen) by (rewrite length_take; lia).
  replace (msg ++ data) with ((msg ++ take clen data) ++ drop clen data)
    by (by rewrite <-app_assoc, take_drop).
  apply IH; [|rewrite length_drop; lia].
  pose proof (feed_represents s h0 c0 sc msg (take clen data) Hr ltac:(lia)) as Hfeed.
  unfold feed in Hfeed. by rewrite Hlen in Hfeed.
Qed.

(** Feeding data appends it to the message. *)
Lemma blake_represents s h0 c0 sc msg data :
  represents s h0 c0 sc msg -> represents s h0 c0 (blake fl sc data) (msg ++ data).
Proof.
  intros Hr. unfold blake. destruct (Nat.ltb_spec (length data) (bs - ctx_ptr sc)).
  - pose proof (feed_represents s h0 c0 sc msg data Hr ltac:(lia)) as Hf. unfold feed in Hf.
    cbn [ctx_ptr] in Hf. by destruct (Nat.eqb_spec (ctx_ptr sc + length data) bs); [lia|].
  - by apply loop_represents.
Qed.

Lemma init_represents s iv sc :
  length (ctx_buf sc) = bs -> represents s iv 0 (blake_init sc iv s) [].
Proof.
  intros Hb. exists 0%nat. unfold blake_init. pose proof fl_bytes.
  constructor; cbn [ctx_buf ctx_H ctx_S ctx_T0 ctx_T1 ctx_ptr]; try done;
    rewrite ?Nat.mul_0_r; try done; unfold bufsize, lo, hi;
    rewrite ?Z.mul_0_r, ?Z.add_0_r, ?Zdiv_0_l, ?Zmod_0_l; done || lia.
Qed.

(** ** Padding and closing *)

(** Where the length field of the last block starts. *)
Local Abbreviation lenpos := (14 * wbytes fl)%nat.

(** The byte with the [n] trailing bits of the message and the first padding
    bit. *)
Definition first_pad (ub n : Z) : Z :=
  Z.land (Z.lor (Z.land ub (u32 (- (0x80 ≫ n)))) (0x80 ≫ n)) 0xFF.

(** The number of bytes from there to the length field: the padding ends in
    this block if two bits of padding still fit before the field, and in the
    next one otherwise. *)
Definition pad_count (len : nat) (n : Z) : nat :=
  let p := (len mod bs)%nat in
  if 8 * Z.of_nat p + n + 2 <=? 8 * Z.of_nat lenpos then (lenpos - p)%nat else (bs + lenpos - p)%nat.

(** The padded message: bits [1 0* e] and the bit length, where the last
    padding bit [e] is 1 for the full-size digests (256 and 512). *)
Definition padded (msg : list Z) (ub n : Z) (out_size : nat) : list Z :=
  let k := pad_count (length msg) n in
  let L := 8 * Z.of_nat (length msg) + n in
  let pad := first_pad ub n :: replicate (k - 1) 0 in
  let pad := if (out_size =? 8)%nat then <[(k - 1)%nat := Z.lor pad.[k - 1] 1]> pad else pad in
  msg ++ pad ++ enc fl (hi (wbits fl) L) ++ enc fl (lo (wbits fl) L).

(** The counter of block [i] of a message of [L] bits. *)
Definition counter (L : Z) (i : nat) : Z :=
  if L <=? block_bits * Z.of_nat i then 0 else Z.min L (block_bits * (Z.of_nat i + 1)).

Definition iterate (s h0 msg : list Z) (L : Z) (n : nat) : list Z :=
  fold_left (fun hh i => compress_at s hh (take bs (drop (bs * i) msg)) (counter L i)) (seq 0 n) h0.

(** The digest of a message with [n] trailing bits in [ub]. *)
Definition blake_digest (s iv msg : list Z) (ub n : Z) (out_size : nat) : list Z :=
  let pm := padded msg ub n out_size in
  let hh := iterate s iv pm (8 * Z.of_nat (length msg) + n) (length pm / bs) in
  flat_map (fun k => enc fl hh.[k]) (seq 0 out_size).

Lemma bs_pos : (0 < bs)%nat.
Proof. pose proof fl_bytes. unfold bufsize. lia. Qed.

Lemma iterate_S s h0 msg L n :
  iterate s h0 msg L (S n) =
  compress_at s (iterate s h0 msg L n) (take bs (drop (bs * n) msg)) (counter L n).
Proof. unfold iterate. by rewrite seq_S, fold_left_app. Qed.

(** Before the last message block the iteration is the streaming one. *)
Lemma iterate_absorb s h0 msg more L n :
  (bs * n <= length msg)%nat -> 8 * Z.of_nat (length msg) <= L ->
  iterate s h0 (msg ++ more) L n = absorb s 0 n h0 msg.
Proof.
  intros Hn HL. induction n as [|n IH]; [done|]. rewrite iterate_S, sph_absorb_S, IH by lia. f_equal.
  - rewrite drop_app_le, take_app_le by (rewrite ?length_drop; lia). done.
  - unfold counter, block_bits. destruct (Z.leb_spec L (8 * Z.of_nat bs * Z.of_nat n)); [pose proof bs_pos; nia|].
    rewrite Z.min_r; lia.
Qed.

(** One exact block fed to a context whose counter was set to [c - block_bits]. *)
Lemma close_block s sc c msg :
  ctx_S sc = s -> (ctx_ptr sc < bs)%nat -> length (ctx_buf sc) = bs ->
  ctx_T0 sc = lo (wbits fl) (c - block_bits) -> ctx_T1 sc = hi (wbits fl) (c - block_bits) ->
  (ctx_ptr sc + length msg = bs)%nat ->
  let sc' := blake fl sc msg in
  ctx_H sc' = compress_at s (ctx_H sc) (take (ctx_ptr sc) (ctx_buf sc) ++ msg) c /\
  ctx_S sc' = s /\ ctx_ptr sc' = 0%nat /\ length (ctx_buf sc') = bs.
Proof.
  intros HS Hp Hb H0 H1 Hm sc'. set (tail := take (ctx_ptr sc) (ctx_buf sc)).
  assert (Htl : length tail = ctx_ptr sc) by (subst tail; rewrite length_take; lia).
  assert (Hr : represents s (ctx_H sc) (c - block_bits) sc tail).
  { exists 0%nat. constructor; rewrite ?Nat.mul_0_r, ?drop_0, ?Z.mul_0_r, ?Z.add_0_r; done || lia. }
  apply (blake_represents _ _ _ _ _ msg) in Hr as [m [HH HS' HT0 HT1 Hlen Hptr Hbuf Htail]].
  rewrite length_app in Hlen.
  assert (m = 1%nat) as -> by (pose proof bs_pos; destruct m as [|[|m]]; lia || nia).
  subst sc'. split_and!; [|done|lia|done]. rewrite HH, sph_absorb_S.
  rewrite Nat.mul_0_r, drop_0, take_ge by (rewrite length_app; lia). f_equal. lia.
Qed.

(** *** The counter *)

Lemma width_pos : 0 < wbits fl.
Proof. pose proof fl_width. pose proof fl_bytes. lia. Qed.

(** After full blocks the low word is a multiple of the block size. *)
Lemma lo_blocks m : exists q, lo (wbits fl) (block_bits * m) = block_bits * q /\ 0 <= q /\
  block_bits * q + block_bits <= 2 ^ wbits fl.
Proof.
  destruct fl_divides as [w Hw]. fold block_bits in Hw.
  assert (HB : 0 < block_bits) by (pose proof bs_pos; unfold block_bits; lia).
  assert (Hw0 : 0 < w) by (pose proof (Z.pow_pos_nonneg 2 (wbits fl)); pose proof width_pos; nia).
  exists (m mod w). unfold lo. rewrite Hw, (Z.mul_comm w), Z.mul_mod_distr_l by lia.
  pose proof (Z.mod_pos_bound m w Hw0). split_and!; [done|lia|nia].
Qed.

(** The counter as the code sets it up before the last message block. *)
Lemma close_counter m bit_len :
  0 <= bit_len < block_bits ->
  let L := block_bits * Z.of_nat m + bit_len in
  let t0 := lo (wbits fl) (block_bits * Z.of_nat m) in
  let t1 := hi (wbits fl) (block_bits * Z.of_nat m) in
  (if bit_len =? 0 then (wrap (wbits fl) (- block_bits), wrap (wbits fl) (-1))
   else if t0 =? 0 then
     (wrap (wbits fl) (wrap (wbits fl) (- block_bits) + bit_len), wrap (wbits fl) (t1 - 1))
   else (wrap (wbits fl) (t0 - (block_bits - bit_len)), t1)) =
  (lo (wbits fl) (counter L m - block_bits), hi (wbits fl) (counter L m - block_bits)).
Proof.
  intros Hb L t0 t1. pose proof width_pos as HW. pose proof fl_bits as HB. fold block_bits in HB.
  pose proof (lo_blocks (Z.of_nat m)) as (q & Hq & Hq0 & Hqb). fold t0 in Hq.
  set (P := 2 ^ wbits fl) in *.
  assert (HBpos : 0 < block_bits) by (pose proof bs_pos; unfold block_bits; lia).
  assert (Hneg : wrap (wbits fl) (- block_bits) = P - block_bits).
  { unfold wrap. fold P. symmetry. apply Z.mod_unique with (-1); lia. }
  unfold counter. destruct (Z.eqb_spec bit_len 0) as [E|E].
  - rewrite (proj2 (Z.leb_le _ _)) by lia.
    destruct (lo_hi_borrow (wbits fl) 0 (- block_bits) HW) as [E0 E1]; [by unfold lo; rewrite Zmod_0_l|lia|].
    unfold Z.sub. rewrite E0, E1, Hneg. unfold hi. by rewrite Zdiv_0_l, Zmod_0_l.
  - rewrite (proj2 (Z.leb_gt _ _)), Z.min_l by lia. subst L. rewrite <-Z.add_sub_assoc.
    destruct (Z.eqb_spec t0 0) as [E'|E'].
    + destruct (lo_hi_borrow (wbits fl) (block_bits * Z.of_nat m) (bit_len - block_bits) HW) as [-> ->]; [done|lia|].
      rewrite Hneg. f_equal. rewrite wrap_small by (unfold word; fold P; lia). fold P. lia.
    + assert (1 <= q) by (destruct (decide (q = 0)) as [->|]; lia).
      assert (block_bits <= t0) by (rewrite Hq; clear - HBpos H; nia).
      destruct (lo_hi_add (wbits fl) (block_bits * Z.of_nat m) (bit_len - block_bits) HW) as [-> ->];
        [fold t0; fold P; lia|]. fold t0.
      rewrite wrap_small by (unfold word; fold P; lia). f_equal. lia.
Qed.

(** The length field. *)
Lemma close_length m bit_len :
  0 <= bit_len < block_bits ->
  wrap (wbits fl) (lo (wbits fl) (block_bits * Z.of_nat m) + bit_len) =
    lo (wbits fl) (block_bits * Z.of_nat m + bit_len) /\
  hi (wbits fl) (block_bits * Z.of_nat m) = hi (wbits fl) (block_bits * Z.of_nat m + bit_len).
Proof.
  intros Hb. pose proof (lo_blocks (Z.of_nat m)) as (q & Hq & Hq0 & Hqb).
  assert (HBpos : 0 < block_bits) by (pose proof bs_pos; unfold block_bits; lia).
  destruct (lo_hi_add (wbits fl) (block_bits * Z.of_nat m) bit_len width_pos) as [-> ->]; [nia|].
  split; [|done]. apply wrap_small. unfold word. nia.
Qed.

(** *** The padding buffers *)

(** Set the end bit of the padding for the full-size digests. *)
Definition end_bit (out_size : nat) (i : nat) (l : list Z) : list Z :=
  if (out_size =? 8)%nat then <[i := Z.lor l.[i] 1]> l else l.

Lemma end_bit_length out_size i l : length (end_bit out_size i l) = length l.
Proof. unfold end_bit. case_match; [apply length_insert|done]. Qed.

Lemma end_bit_middle out_size a b c i :
  (i < length b)%nat ->
  end_bit out_size (length a + i) (a ++ b ++ c) = a ++ end_bit out_size i b ++ c.
Proof.
  intros Hi. unfold end_bit. destruct (out_size =? 8)%nat; [|done].
  rewrite app_nth2_plus, app_nth1 by done.
  by rewrite insert_app_r, insert_app_l by done.
Qed.

Lemma zero_fill p x : (p < bs)%nat ->
  <[p := x]> (replicate bs 0) = replicate p 0 ++ x :: replicate (bs - 1 - p) 0.
Proof.
  intros Hp. replace bs with (p + S (bs - 1 - p))%nat at 1 by lia.
  rewrite replicate_add. cbn [replicate].
  rewrite <-(Nat.add_0_r p) at 1. rewrite <-(length_replicate p 0) at 1.
  by rewrite insert_app_r.
Qed.

(** Clearing zeros changes nothing. *)
Lemma clear_zeros p x n : (p + 1 + n <= bs)%nat -> (p < bs)%nat ->
  memcpy (replicate p 0 ++ x :: replicate (bs - 1 - p) 0) (p + 1) (replicate n 0) =
  replicate p 0 ++ x :: replicate (bs - 1 - p) 0.
Proof.
  intros Hn Hp. replace (bs - 1 - p)%nat with (n + (bs - 1 - p - n))%nat by lia.
  rewrite replicate_add.
  change (replicate p 0 ++ x :: replicate n 0 ++ replicate (bs - 1 - p - n) 0)
    with (replicate p 0 ++ [x] ++ (replicate n 0 ++ replicate (bs - 1 - p - n) 0)).
  rewrite app_assoc. replace (p + 1)%nat with (length (replicate p 0 ++ [x]))
    by (rewrite length_app, length_replicate; done).
  apply memcpy_app. by rewrite !length_replicate.
Qed.

(** The buffer of the last block when the padding fits. *)
Lemma short_buffer p x out_size e1 e2 :
  (p < lenpos)%nat -> length e1 = wbytes fl -> length e2 = wbytes fl ->
  let u := memcpy (<[p := x]> (replicate bs 0)) (p + 1) (replicate (lenpos - 1 - p) 0) in
  let u := if (out_size =? 8)%nat then <[(lenpos - 1)%nat := Z.lor u.[lenpos - 1] 1]> u else u in
  let u := memcpy u lenpos e1 in
  let u := memcpy u (lenpos + wbytes fl) e2 in
  drop p u = end_bit out_size (lenpos - p - 1) (x :: replicate (lenpos - p - 1) 0) ++ e1 ++ e2.
Proof.
  intros Hp H1 H2 u0 u1 u2 u3. assert (Hbs : bs = (lenpos + wbytes fl + wbytes fl)%nat) by (unfold bufsize; lia).
  set (pad := x :: replicate (lenpos - p - 1) 0).
  assert (E0 : u0 = replicate p 0 ++ pad ++ replicate (wbytes fl) 0 ++ replicate (wbytes fl) 0).
  { subst u0 pad. rewrite zero_fill, clear_zeros by lia. f_equal. cbn [app].
    rewrite <-!replicate_add. do 2 f_equal. lia. }
  assert (Hpl : length pad = (lenpos - p)%nat) by (subst pad; cbn [length]; rewrite length_replicate; lia).
  set (pad' := end_bit out_size (lenpos - p - 1) pad).
  assert (Hpl' : length pad' = (lenpos - p)%nat) by (subst pad'; by rewrite end_bit_length).
  assert (E1 : u1 = replicate p 0 ++ pad' ++ replicate (wbytes fl) 0 ++ replicate (wbytes fl) 0).
  { change u1 with (end_bit out_size (lenpos - 1) u0). rewrite E0.
    replace (lenpos - 1)%nat with (length (replicate p 0%Z) + (lenpos - p - 1))%nat at 1
      by (rewrite length_replicate; lia).
    by rewrite end_bit_middle by lia. }
  assert (E2 : u2 = (replicate p 0 ++ pad' ++ e1) ++ replicate (wbytes fl) 0).
  { subst u2. rewrite E1. rewrite (app_assoc (replicate p 0)).
    replace lenpos with (length (replicate p 0 ++ pad')) by (rewrite length_app, length_replicate; lia).
    rewrite memcpy_app by (by rewrite length_replicate). by rewrite <-!app_assoc. }
  subst u3. rewrite E2. rewrite <-(app_nil_r (replicate (wbytes fl) 0)).
  replace (lenpos + wbytes fl)%nat with (length (replicate p 0 ++ pad' ++ e1))
    by (rewrite !length_app, length_replicate; lia).
  rewrite memcpy_app by (by rewrite length_replicate). rewrite app_nil_r, <-!app_assoc.
  by rewrite drop_app_length' by (by rewrite length_replicate).
Qed.

(** The buffer of the extra block when it does not. *)
Lemma long_buffer p x out_size e1 e2 :
  (p < bs)%nat -> length e1 = wbytes fl -> length e2 = wbytes fl ->
  let u := memcpy (<[p := x]> (replicate bs 0)) (p + 1) (replicate (bs - 1 - p) 0) in
  let v := memcpy u 0 (replicate lenpos 0) in
  let v := if (out_size =? 8)%nat then <[(lenpos - 1)%nat := 1]> v else v in
  let v := memcpy v lenpos e1 in
  let v := memcpy v (lenpos + wbytes fl) e2 in
  drop p u = x :: replicate (bs - 1 - p) 0 /\
  v = end_bit out_size (lenpos - 1) (replicate lenpos 0) ++ e1 ++ e2.
Proof.
  intros Hp H1 H2 u v0 v1 v2 v3. pose proof fl_bytes.
  assert (Hbs : bs = (lenpos + (wbytes fl + wbytes fl))%nat) by (unfold bufsize; lia).
  assert (Eu : u = replicate p 0 ++ x :: replicate (bs - 1 - p) 0)
    by (subst u; rewrite zero_fill, clear_zeros by lia; done).
  split; [rewrite Eu; by rewrite drop_app_length' by (by rewrite length_replicate)|].
  assert (Hul : length u = bs)
    by (rewrite Eu, length_app; cbn [length]; rewrite !length_replicate; lia).
  assert (E0 : exists a b, v0 = replicate lenpos 0 ++ a ++ b /\ length a = wbytes fl /\ length b = wbytes fl).
  { exists (take (wbytes fl) (drop lenpos u)), (drop (wbytes fl) (drop lenpos u)).
    rewrite take_drop, length_take, !length_drop, Hul. split_and!; [|lia|lia].
    subst v0. unfold memcpy. by rewrite length_replicate. }
  destruct E0 as (a & b & E0 & Ha & Hb). set (pad := end_bit out_size (lenpos - 1) (replicate lenpos 0)).
  assert (Hpl : length pad = lenpos) by (subst pad; by rewrite end_bit_length, length_replicate).
  assert (E1 : v1 = pad ++ a ++ b).
  { subst v1 pad. unfold end_bit. rewrite E0. case_match; [|done].
    rewrite insert_app_l by (rewrite length_replicate; lia). rewrite nth_replicate. done. }
  subst v3 v2. rewrite E1. rewrite <-Hpl at 1. rewrite memcpy_app by lia.
  rewrite app_assoc, <-(app_nil_r b).
  replace (lenpos + wbytes fl)%nat with (length (pad ++ e1)) by (rewrite length_app; lia).
  rewrite memcpy_app by lia. by rewrite app_nil_r, <-app_assoc.
Qed.

(** *** Closing *)

Lemma fold_left_shift {A} (f : A -> nat -> A) m j a :
  fold_left f (seq m j) a = fold_left (fun a i => f a (m + i)%nat) (seq 0 j) a.
Proof.
  induction j as [|j IH]; [done|]. rewrite !seq_S, !fold_left_app. cbn [fold_left]. by rewrite IH.
Qed.

Lemma fold_left_ext {A} (f g : A -> nat -> A) l a :
  (forall a i, f a i = g a i) -> fold_left f l a = fold_left g l a.
Proof. intros E. revert a. induction l as [|i l IH]; intros a; cbn [fold_left]; [done|]. by rewrite E, IH. Qed.

(** The blocks of the padded message from block [m] on. *)
Lemma padded_split s iv msg more L m j :
  (bs * m <= length msg)%nat -> 8 * Z.of_nat (length msg) <= L ->
  length (msg ++ more) = (bs * (m + j))%nat ->
  iterate s iv (msg ++ more) L (length (msg ++ more) / bs) =
  fold_left (fun hh i =>
      compress_at s hh (take bs (drop (bs * i) (drop (bs * m) msg ++ more))) (counter L (m + i)))
    (seq 0 j) (absorb s 0 m iv msg).
Proof.
  intros Hm HL Hlen. pose proof bs_pos.
  rewrite Hlen, (Nat.mul_comm bs), Nat.div_mul by lia.
  unfold iterate at 1. rewrite seq_app, fold_left_app. fold (iterate s iv (msg ++ more) L m).
  rewrite iterate_absorb by done. cbn [Nat.add]. rewrite fold_left_shift.
  apply fold_left_ext. intros hh i. do 2 f_equal.
  rewrite <-(drop_app_le _ _ (bs * m)) by done. rewrite drop_drop. f_equal. lia.
Qed.

Record closing (s iv : list Z) (sc : context) (msg : list Z) (m : nat) (n bl : Z) : Prop := {
  cl_rep : rep s iv 0 sc msg m;
  cl_n : 0 <= n < 8;
  cl_bl : bl = 8 * Z.of_nat (ctx_ptr sc) + n;
  cl_range : 0 <= bl < block_bits;
  cl_L : 8 * Z.of_nat (length msg) + n = block_bits * Z.of_nat m + bl;
  cl_mod : (length msg mod bs)%nat = ctx_ptr sc }.

Lemma closing_intro s iv sc msg n :
  represents s iv 0 sc msg -> 0 <= n < 8 ->
  exists m, closing s iv sc msg m n (8 * Z.of_nat (ctx_ptr sc) + n).
Proof.
  intros [m Hrep] Hn. exists m. pose proof (rep_len _ _ _ _ _ _ Hrep) as Hlen.
  pose proof (rep_ptr _ _ _ _ _ _ Hrep). constructor; try done; unfold block_bits; try lia.
  rewrite Hlen, Nat.add_comm, Nat.mul_comm, Nat.Div0.mod_add. by apply Nat.mod_small.
Qed.

(** Closing when the padding fits in the current block. *)
Lemma close_short s iv sc msg m ub n bl out_size t0 t1 :
  closing s iv sc msg m n bl -> bl + 2 <= 8 * Z.of_nat lenpos ->
  t0 = lo (wbits fl) (counter (block_bits * Z.of_nat m + bl) m - block_bits) ->
  t1 = hi (wbits fl) (counter (block_bits * Z.of_nat m + bl) m - block_bits) ->
  let pm := padded msg ub n out_size in
  let L := 8 * Z.of_nat (length msg) + n in
  let k := (lenpos - ctx_ptr sc - 1)%nat in
  let data := end_bit out_size k (first_pad ub n :: replicate k 0) ++
                enc fl (hi (wbits fl) L) ++ enc fl (lo (wbits fl) L) in
  let sc' := blake fl (mk_context (ctx_buf sc) (ctx_ptr sc) (ctx_H sc) (ctx_S sc) t0 t1) data in
  ctx_H sc' = iterate s iv pm L (length pm / bs) /\ length (ctx_buf sc') = bs.
Proof.
  intros [Hrep Hn Hbl Hbr HL Hmod] Hfit Ht0 Ht1 pm L k data sc'.
  destruct Hrep as [HH HS _ _ Hlen Hptr Hbuf Htail]. pose proof fl_bytes as Hwb.
  set (p := ctx_ptr sc) in *. assert (Hp : (p < lenpos)%nat) by lia.
  assert (Hbs : bs = (lenpos + (wbytes fl + wbytes fl))%nat) by (unfold bufsize; lia).
  assert (Hpc : pad_count (length msg) n = S k).
  { unfold pad_count. rewrite Hmod. rewrite (proj2 (Z.leb_le _ _)) by lia. lia. }
  assert (Epm : pm = msg ++ data).
  { subst pm data. unfold padded. rewrite Hpc. fold L. by rewrite Nat.sub_succ, Nat.sub_0_r. }
  assert (Hdl : length data = (bs - p)%nat).
  { subst data. rewrite !length_app, end_bit_length, !fl_enc. cbn [length]. rewrite length_replicate. lia. }
  destruct (close_block s (mk_context (ctx_buf sc) p (ctx_H sc) (ctx_S sc) t0 t1)
    (counter L m) data) as (E & _ & _ & Hb'); cbn [ctx_buf ctx_ptr ctx_H ctx_S ctx_T0 ctx_T1] in *;
    try done || lia.
  { by rewrite Ht0; subst L; rewrite HL. }
  { by rewrite Ht1; subst L; rewrite HL. }
  split; [|done]. subst sc'. rewrite E, Epm. rewrite (padded_split s iv msg data L m 1).
  - cbn [seq fold_left]. rewrite Nat.mul_0_r, drop_0, Nat.add_0_r, HH, <-Htail.
    f_equal. symmetry. apply take_ge. rewrite length_app, length_take. lia.
  - lia.
  - lia.
  - rewrite length_app. lia.
Qed.

(** Closing when it needs a further block. *)
Lemma close_long s iv sc msg m ub n bl out_size t0 t1 :
  closing s iv sc msg m n bl -> 8 * Z.of_nat lenpos < bl + 2 ->
  t0 = lo (wbits fl) (counter (block_bits * Z.of_nat m + bl) m - block_bits) ->
  t1 = hi (wbits fl) (counter (block_bits * Z.of_nat m + bl) m - block_bits) ->
  let pm := padded msg ub n out_size in
  let L := 8 * Z.of_nat (length msg) + n in
  let d1 := first_pad ub n :: replicate (bs - 1 - ctx_ptr sc) 0 in
  let d2 := end_bit out_size (lenpos - 1) (replicate lenpos 0) ++
              enc fl (hi (wbits fl) L) ++ enc fl (lo (wbits fl) L) in
  let sc1 := blake fl (mk_context (ctx_buf sc) (ctx_ptr sc) (ctx_H sc) (ctx_S sc) t0 t1) d1 in
  let sc2 := blake fl (mk_context (ctx_buf sc1) (ctx_ptr sc1) (ctx_H sc1) (ctx_S sc1)
               (wrap (wbits fl) (- block_bits)) (wrap (wbits fl) (-1))) d2 in
  ctx_H sc2 = iterate s iv pm L (length pm / bs) /\ length (ctx_buf sc2) = bs.
Proof.
  intros [Hrep Hn Hbl Hbr HL Hmod] Hfit Ht0 Ht1 pm L d1 d2 sc1 sc2.
  destruct Hrep as [HH HS _ _ Hlen Hptr Hbuf Htail]. pose proof fl_bytes as Hwb. pose proof bs_pos.
  set (p := ctx_ptr sc) in *. assert (Hp : (lenpos - 1 <= p)%nat) by lia.
  assert (Hbs : bs = (lenpos + (wbytes fl + wbytes fl))%nat) by (unfold bufsize; lia).
  assert (Hpc : pad_count (length msg) n = (bs - p + lenpos)%nat).
  { unfold pad_count. rewrite Hmod. rewrite (proj2 (Z.leb_gt _ _)) by lia. lia. }
  assert (Hd1 : length d1 = (bs - p)%nat) by (subst d1; cbn [length]; rewrite length_replicate; lia).
  assert (Hd2 : length d2 = bs).
  { subst d2. rewrite !length_app, end_bit_length, !fl_enc, length_replicate. lia. }
  assert (Epm : pm = msg ++ d1 ++ d2).
  { subst pm. unfold padded. rewrite Hpc. fold L. f_equal. subst d2. rewrite (app_assoc d1). f_equal.
    subst d1.
    fold (end_bit out_size (bs - p + lenpos - 1) (first_pad ub n :: replicate (bs - p + lenpos - 1) 0)).
    replace (first_pad ub n :: replicate (bs - p + lenpos - 1) 0)
      with ((first_pad ub n :: replicate (bs - 1 - p) 0) ++ replicate lenpos 0 ++ []).
    2:{ cbn [app]. rewrite app_nil_r, <-replicate_add. do 2 f_equal. lia. }
    replace (bs - p + lenpos - 1)%nat
      with (length (first_pad ub n :: replicate (bs - 1 - p) 0%Z) + (lenpos - 1))%nat
      by (cbn [length]; rewrite length_replicate; lia).
    rewrite end_bit_middle by (rewrite length_replicate; lia). by rewrite app_nil_r. }
  destruct (close_block s (mk_context (ctx_buf sc) p (ctx_H sc) (ctx_S sc) t0 t1)
    (counter L m) d1) as (E1 & ES & Ep & Eb); cbn [ctx_buf ctx_ptr ctx_H ctx_S ctx_T0 ctx_T1] in *;
    try done || lia.
  { by rewrite Ht0; subst L; rewrite HL. }
  { by rewrite Ht1; subst L; rewrite HL. }
  fold sc1 in E1, ES, Ep, Eb.
  assert (Hc2 : counter L (m + 1) = 0).
  { unfold counter. rewrite (proj2 (Z.leb_le _ _)); [done|]. lia. }
  pose proof (close_counter 0 0 ltac:(lia)) as Hc0. cbn [Z.eqb] in Hc0.
  unfold counter in Hc0 at 1 2. rewrite Z.mul_0_r in Hc0. cbn [Z.add Z.leb Z.compare] in Hc0.
  apply pair_equal_spec in Hc0 as [Hc0 Hc1].
  destruct (close_block s (mk_context (ctx_buf sc1) (ctx_ptr sc1) (ctx_H sc1) (ctx_S sc1)
     (wrap (wbits fl) (- block_bits)) (wrap (wbits fl) (-1))) 0 d2) as (E2 & _ & _ & Eb2);
    cbn [ctx_buf ctx_ptr ctx_H ctx_S ctx_T0 ctx_T1] in *; try done || lia.
  fold sc2 in E2, Eb2. split; [|done]. rewrite E2, Epm.
  rewrite (padded_split s iv msg (d1 ++ d2) L m 2); [|lia|lia|rewrite !length_app; lia].
  cbn [seq fold_left]. rewrite Nat.mul_0_r, drop_0, Nat.add_0_r, Hc2, Nat.mul_1_r, <-Htail, Ep, take_0, E1, HH.
  assert (Hblk : length (take p (ctx_buf sc) ++ d1) = bs) by (rewrite length_app, length_take; lia).
  rewrite (app_assoc (take p (ctx_buf sc))), take_app_length', drop_app_length' by done.
  rewrite (take_ge d2) by lia. done.
Qed.

Lemma close_digest s iv sc msg ub n out_size :
  represents s iv 0 sc msg -> 0 <= n < 8 ->
  snd (blake_close fl sc ub n out_size) = blake_digest s iv msg ub n out_size /\
  length (ctx_buf (fst (blake_close fl sc ub n out_size))) = bs.
Proof.
  intros Hr Hn. destruct (closing_intro s iv sc msg n Hr Hn) as [m Hcl].
  set (bl := 8 * Z.of_nat (ctx_ptr sc) + n) in *. pose proof Hcl as [Hrep _ _ Hbr HL _].
  pose proof (rep_ptr _ _ _ _ _ _ Hrep) as Hptr.
  pose proof (rep_T0 _ _ _ _ _ _ Hrep) as HT0. pose proof (rep_T1 _ _ _ _ _ _ Hrep) as HT1.
  rewrite Z.add_0_l in HT0, HT1.
  assert (Hcnt := close_counter m bl Hbr). cbv zeta in Hcnt.
  destruct (close_length m bl Hbr) as [Etl Eth].
  unfold blake_close, blake_digest. fold block_bits.
  replace (Z.of_nat (ctx_ptr sc) ≪ 3 + n) with bl
    by (rewrite Z.shiftl_mul_pow2 by lia; subst bl; lia).
  replace ((ctx_ptr sc =? 0)%nat && (n =? 0)) with (bl =? 0).
  2:{ destruct (Nat.eqb_spec (ctx_ptr sc) 0), (Z.eqb_spec n 0), (Z.eqb_spec bl 0); subst bl; cbn; lia || done. }
  rewrite HT0, HT1, Hcnt, Etl, Eth, <-HL. fold (first_pad ub n). cbv zeta.
  destruct (Z.leb_spec bl (8 * Z.of_nat lenpos - 2)) as [Hfit|Hfit].
  - destruct (close_short s iv sc msg m ub n bl out_size _ _ Hcl ltac:(lia) eq_refl eq_refl) as [E Eb].
    rewrite <-HL in E, Eb. cbn [fst snd]. rewrite short_buffer by (apply fl_enc || lia).
    rewrite E. split; [done|exact Eb].
  - destruct (close_long s iv sc msg m ub n bl out_size _ _ Hcl ltac:(lia) eq_refl eq_refl) as [E Eb].
    rewrite <-HL in E, Eb.
    destruct (long_buffer (ctx_ptr sc) (first_pad ub n) out_size
      (enc fl (hi (wbits fl) (8 * Z.of_nat (length msg) + n)))
      (enc fl (lo (wbits fl) (8 * Z.of_nat (length msg) + n)))) as [E1 E2]; [done|apply fl_enc|apply fl_enc|].
    cbn [fst snd]. rewrite E1, E2, E. split; [done|exact Eb].
Qed.
End iteration.

(** ** The theorems *)

(** The two ways of writing the rounds.  The table-driven compression
    functions (selected by [SPH_COMPACT_BLAKE_32/64]) and the ones unrolled by
    the preprocessor compute the same chaining value on every input. *)
Theorem blake_compact_is_unrolled HH s t0 t1 block :
  COMPRESS32_compact HH s t0 t1 block = COMPRESS32 HH s t0 t1 block /\
  COMPRESS64_compact HH s t0 t1 block = COMPRESS64 HH s t0 t1 block.
Proof. split; apply compress_forms; apply _. Qed.

(** Feed a message in chunks. *)
Definition feed_all (update : context -> list Z -> context) (sc : context) (chunks : list (list Z)) : context :=
  fold_left update chunks sc.

Lemma feed_all_represents fl `{!Flavour fl} s h0 c0 sc msg chunks :
  represents fl s h0 c0 sc msg ->
  represents fl s h0 c0 (feed_all (blake fl) sc chunks) (msg ++ concat chunks).
Proof.
  revert sc msg. induction chunks as [|c chunks IH]; intros sc msg Hr; cbn [concat]; [by rewrite app_nil_r|].
  rewrite app_assoc. apply IH. by apply blake_represents.
Qed.

Lemma stream_close fl `{!Flavour fl} sc iv chunks ub n out_size :
  length (ctx_buf sc) = bufsize fl -> 0 <= n < 8 ->
  snd (blake_close fl (feed_all (blake fl) (blake_init sc iv salt_zero) chunks) ub n out_size) =
    blake_digest fl salt_zero iv (concat chunks) ub n out_size /\
  length (ctx_buf (fst (blake_close fl (feed_all (blake fl) (blake_init sc iv salt_zero) chunks) ub n out_size))) =
    bufsize fl.
Proof.
  intros Hb Hn. apply close_digest; [done| |done].
  apply (feed_all_represents fl _ _ _ _ []). by apply init_represents.
Qed.

(** the four hash functions.  From any context, initialising it, feeding
    any division of a message into chunks and closing it (with up to seven
    trailing bits) yields BLAKE's iteration over the padded message: the
    initial value and digest size of the function, the padding [1 0* e] and
    bit length, and for every block the number of message bits so far as
    counter.  The context is left initialised for the next message. *)
Theorem sph_blake_hashes chunks ub n :
  0 <= n < 8 ->
  (forall cc, length (ctx_buf cc) = 64%nat ->
    let r := sph_blake224_addbits_and_close (feed_all sph_blake224 (sph_blake224_init cc) chunks) ub n in
    snd r = blake_digest small salt_zero IV224 (concat chunks) ub n 7 /\
    represents small salt_zero IV224 0 (fst r) []) /\
  (forall cc, length (ctx_buf cc) = 64%nat ->
    let r := sph_blake256_addbits_and_close (feed_all sph_blake256 (sph_blake256_init cc) chunks) ub n in
    snd r = blake_digest small salt_zero IV256 (concat chunks) ub n 8 /\
    represents small salt_zero IV256 0 (fst r) []) /\
  (forall cc, length (ctx_buf cc) = 128%nat ->
    let r := sph_blake384_addbits_and_close (feed_all sph_blake384 (sph_blake384_init cc) chunks) ub n in
    snd r = blake_digest big salt_zero IV384 (concat chunks) ub n 6 /\
    represents big salt_zero IV384 0 (fst r) []) /\
  (forall cc, length (ctx_buf cc) = 128%nat ->
    let r := sph_blake512_addbits_and_close (feed_all sph_blake512 (sph_blake512_init cc) chunks) ub n in
    snd r = blake_digest big salt_zero IV512 (concat chunks) ub n 8 /\
    represents big salt_zero IV512 0 (fst r) []).
Proof.
  assert (Hgen : forall fl `{!Flavour fl} iv out_size cc, 0 <= n < 8 -> length (ctx_buf cc) = bufsize fl ->
    forall r, r = (let '(cc, dst) := blake_close fl (feed_all (blake fl) (blake_init cc iv salt_zero) chunks) ub n out_size
             in (blake_init cc iv salt_zero, dst)) ->
    snd r = blake_digest fl salt_zero iv (concat chunks) ub n out_size /\
    represents fl salt_zero iv 0 (fst r) []).
  { intros fl Hfl iv out_size cc Hn Hb r ->.
    destruct (stream_close fl cc iv chunks ub n out_size Hb Hn) as [E Eb].
    destruct (blake_close _ _ _ _ _) as [cc' dst]. split; [exact E|]. by apply init_represents. }
  intros Hn. split_and!; intros cc Hb r.
  - by apply (Hgen small _ IV224 7%nat cc).
  - by apply (Hgen small _ IV256 8%nat cc).
  - by apply (Hgen big _ IV384 6%nat cc).
  - by apply (Hgen big _ IV512 8%nat cc).
Qed.

Lemma sph_blake_hashes_witness :
  snd (sph_blake256_addbits_and_close
    (feed_all sph_blake256 (sph_blake256_init (raw_context small)) [replicate 50 1; []; replicate 90 2]) 0 0) =
  blake_digest small salt_zero IV256 (concat [replicate 50 1; []; replicate 90 2]) 0 0 8.
Proof.
  destruct (sph_blake_hashes [replicate 50 1; []; replicate 90 2] 0 0 ltac:(lia)) as (_ & E & _).
  exact (proj1 (E (raw_context small) eq_refl)).
Defined.
