(* ===== verification/Sponge.v ===== *)
(** * Sponge: the sponge of Lyra2 (crypto/Lyra2Z/Sponge.c and Sponge.h)

    The sponge state is an array of 16 words.  The memory matrix of Lyra2 is
    one array of words, [wholeMatrix], and the rows are offsets into it, as
    the pointers of the C code are: rows given to one duplex operation may be
    the same row, so the reads and writes happen in the order of the code. *)

From S2P Require Import Prelude Words.

(** Words of a block in the matrix, and bytes. *)
Definition BLOCK_LEN_INT64 : nat := 12.
Definition BLOCK_LEN_BYTES : nat := 96.
Definition BLOCK_LEN_BLAKE2_SAFE_INT64 : nat := 8.
Definition BLOCK_LEN_BLAKE2_SAFE_BYTES : nat := 64.

Definition blake2b_IV : list Z :=
  [0x6a09e667f3bcc908; 0xbb67ae8584caa73b; 0x3c6ef372fe94f82b; 0xa54ff53a5f1d36f1;
   0x510e527fade682d1; 0x9b05688c2b3e6c1f; 0x1f83d9abfb41bd6b; 0x5be0cd19137e2179].

(** ** The permutation *)

(** The macro [G] on four words (its round and index are unused). *)
Definition G (a b c d : Z) : Z * Z * Z * Z :=
  let a := u64 (a + b) in let d := rotr64 (d ⊕ a) 32 in
  let c := u64 (c + d) in let b := rotr64 (b ⊕ c) 24 in
  let a := u64 (a + b) in let d := rotr64 (d ⊕ a) 16 in
  let c := u64 (c + d) in let b := rotr64 (b ⊕ c) 63 in
  (a, b, c, d).

Definition ROUND_LYRA (v : list Z) : list Z :=
  match v with
  | [v0; v1; v2; v3; v4; v5; v6; v7; v8; v9; v10; v11; v12; v13; v14; v15] =>
      let '(v0, v4, v8, v12) := G v0 v4 v8 v12 in
      let '(v1, v5, v9, v13) := G v1 v5 v9 v13 in
      let '(v2, v6, v10, v14) := G v2 v6 v10 v14 in
      let '(v3, v7, v11, v15) := G v3 v7 v11 v15 in
      let '(v0, v5, v10, v15) := G v0 v5 v10 v15 in
      let '(v1, v6, v11, v12) := G v1 v6 v11 v12 in
      let '(v2, v7, v8, v13) := G v2 v7 v8 v13 in
      let '(v3, v4, v9, v14) := G v3 v4 v9 v14 in
      [v0; v1; v2; v3; v4; v5; v6; v7; v8; v9; v10; v11; v12; v13; v14; v15]
  | _ => v
  end.

Definition blake2bLyra (v : list Z) : list Z := Nat.iter 12 ROUND_LYRA v.
Definition reducedBlake2bLyra (v : list Z) : list Z := ROUND_LYRA v.

(** ** State, absorbing and squeezing *)

Definition initState : list Z := replicate 8 0 ++ blake2b_IV.

(** The bytes of the first words of the state, as [memcpy] reads them. *)
Definition state_bytes (state : list Z) : list Z := flat_map (le_encode 8) state.

Fixpoint squeeze_blocks (n : nat) (state : list Z) : list Z * list Z :=
  match n with
  | O => (state, [])
  | S n =>
      let block := take BLOCK_LEN_BYTES (state_bytes state) in
      let '(state, rest) := squeeze_blocks n (blake2bLyra state) in
      (state, block ++ rest)
  end.

(** The state and the bytes written to [out]. *)
Definition squeeze (state : list Z) (len : nat) : list Z * list Z :=
  let '(state, full) := squeeze_blocks (len / BLOCK_LEN_BYTES) state in
  (state, full ++ take (len mod BLOCK_LEN_BYTES) (state_bytes state)).

(** [state[j] ^= M[p + j]] for the first [n] words. *)
Definition xor_in (n : nat) (state M : list Z) (p : nat) : list Z :=
  fold_left (fun st j => <[j := st.[j] ⊕ M.[p + j]]> st) (seq 0 n) state.

Definition absorbBlock (state M : list Z) (p : nat) : list Z :=
  blake2bLyra (xor_in BLOCK_LEN_INT64 state M p).

Definition absorbBlockBlake2Safe (state M : list Z) (p : nat) : list Z :=
  blake2bLyra (xor_in BLOCK_LEN_BLAKE2_SAFE_INT64 state M p).

(** ** Operations on rows: the state and the matrix *)

(** Write [n] words computed from the memory as it is at each write. *)
Definition write_words (M : list Z) (p : nat) (word_at : list Z -> nat -> Z) : list Z :=
  fold_left (fun M j => <[(p + j)%nat := word_at M j]> M) (seq 0 BLOCK_LEN_INT64) M.

(** The offset of column [i] of a row. *)
Definition column (row i : nat) : nat := (row + BLOCK_LEN_INT64 * i)%nat.

Definition reducedSqueezeRow0 (st : list Z * list Z) (rowOut nCols : nat) : list Z * list Z :=
  fold_left (fun '(state, M) i =>
    let M := write_words M (column rowOut (nCols - 1 - i)) (fun _ j => state.[j]) in
    (reducedBlake2bLyra state, M)) (seq 0 nCols) st.

Definition reducedDuplexRow1 (st : list Z * list Z) (rowIn rowOut nCols : nat) : list Z * list Z :=
  fold_left (fun '(state, M) i =>
    let pin := column rowIn i in
    let state := reducedBlake2bLyra (xor_in BLOCK_LEN_INT64 state M pin) in
    let M := write_words M (column rowOut (nCols - 1 - i)) (fun M j => M.[pin + j] ⊕ state.[j]) in
    (state, M)) (seq 0 nCols) st.

(** [state[j] ^= M[pin + j] + M[pio + j]], word by word. *)
Definition xor_sum_in (state M : list Z) (pin pio : nat) : list Z :=
  fold_left (fun st j => <[j := st.[j] ⊕ u64 (M.[pin + j] + M.[pio + j])]> st)
    (seq 0 BLOCK_LEN_INT64) state.

(** [rotW]: word [j] takes the word before it, word 0 the last one. *)
Definition rotW (j : nat) : nat := match j with O => 11 | S j => j end.

Definition duplex_setup_column (rowIn rowInOut rowOut nCols : nat) (st : list Z * list Z) (i : nat)
  : list Z * list Z :=
  let '(state, M) := st in
  let pin := column rowIn i in
  let pio := column rowInOut i in
  let pout := column rowOut (nCols - 1 - i) in
  let state := reducedBlake2bLyra (xor_sum_in state M pin pio) in
  let M := write_words M pout (fun M j => M.[pin + j] ⊕ state.[j]) in
  let M := write_words M pio (fun M j => M.[pio + j] ⊕ state.[rotW j]) in
  (state, M).

Definition reducedDuplexRowSetup (st : list Z * list Z) (rowIn rowInOut rowOut nCols : nat)
  : list Z * list Z :=
  fold_left (duplex_setup_column rowIn rowInOut rowOut nCols) (seq 0 nCols) st.

Definition duplex_column (rowIn rowInOut rowOut : nat) (st : list Z * list Z) (i : nat)
  : list Z * list Z :=
  let '(state, M) := st in
  let pin := column rowIn i in
  let pio := column rowInOut i in
  let pout := column rowOut i in
  let state := reducedBlake2bLyra (xor_sum_in state M pin pio) in
  let M := write_words M pout (fun M j => M.[pout + j] ⊕ state.[j]) in
  let M := write_words M pio (fun M j => M.[pio + j] ⊕ state.[rotW j]) in
  (state, M).

Definition reducedDuplexRow (st : list Z * list Z) (rowIn rowInOut rowOut nCols : nat)
  : list Z * list Z :=
  fold_left (duplex_column rowIn rowInOut rowOut) (seq 0 nCols) st.
