(* ===== verification/Lyra2.v ===== *)
(** * Lyra2: the password hash of crypto/Lyra2Z/Lyra2.c and the header hash

    [LYRA2] with its three phases, and [lyra2z_hash] of Lyra2Z.c, the hash of
    an 80-byte block header: BLAKE-256 and then Lyra2 with 8 rows, 8 columns
    and time cost 8.

    Row indices are signed 64-bit integers as in the code; the three
    allocations may fail, which is the argument [alloc] ([alloc i] says whether
    the [i]-th call of [malloc] succeeds); the result carries how many of the
    blocks allocated are still allocated on return.  The lengths and the matrix
    size are numbers of bytes of objects in memory; [squeeze] takes its length
    as an [unsigned int]. *)

From S2P Require Import Prelude Words Sponge SphBlake.

(** ** The padded input at the start of the matrix *)

(** [nBlocksInput] *)
Definition nBlocksInput (pwdlen saltlen : nat) : nat :=
  ((saltlen + pwdlen + 6 * 8) / BLOCK_LEN_BLAKE2_SAFE_BYTES + 1)%nat.

(** The bytes of [wholeMatrix] after the password, the salt and the basil have
    been copied into the cleared matrix and padded. *)
Definition prepare_input (bytes : list Z) (kLen : Z) (pwd salt : list Z) (timeCost nRows nCols : Z)
  : list Z :=
  let pwdlen := length pwd in
  let saltlen := length salt in
  let n := nBlocksInput pwdlen saltlen in
  let B := memcpy bytes 0 (replicate (n * BLOCK_LEN_BLAKE2_SAFE_BYTES) 0) in
  let p := 0%nat in
  let B := memcpy B p pwd in let p := (p + pwdlen)%nat in
  let B := memcpy B p salt in let p := (p + saltlen)%nat in
  let B := memcpy B p (le_encode 8 kLen) in let p := (p + 8)%nat in
  let B := memcpy B p (le_encode 8 (Z.of_nat pwdlen)) in let p := (p + 8)%nat in
  let B := memcpy B p (le_encode 8 (Z.of_nat saltlen)) in let p := (p + 8)%nat in
  let B := memcpy B p (le_encode 8 timeCost) in let p := (p + 8)%nat in
  let B := memcpy B p (le_encode 8 nRows) in let p := (p + 8)%nat in
  let B := memcpy B p (le_encode 8 nCols) in let p := (p + 8)%nat in
  let B := <[p := 0x80]> B in
  let last := (n * BLOCK_LEN_BLAKE2_SAFE_BYTES - 1)%nat in
  <[last := B.[last] ⊕ 0x01]> B.

(** ** The phases *)

Section phases.
Context (nRows : Z) (nCols : nat).

(** The offset of row [i]: [memMatrix[i]]. *)
Definition memMatrix (i : Z) : nat := (Z.to_nat i * (BLOCK_LEN_INT64 * nCols))%nat.

(** The variables of the visitation. *)
Record visit := mk_visit {
  row : Z; prev : Z; rowa : Z; step : Z; window : Z; gap : Z }.

Definition visit0 : visit := mk_visit 2 1 0 1 2 1.

(** How one iteration of the setup loop moves on. *)
Definition setup_next (v : visit) : visit :=
  let rowa' := Z.land (rowa v + step v) (window v - 1) in
  let prev' := row v in
  let row' := row v + 1 in
  if rowa' =? 0 then mk_visit row' prev' rowa' (window v + gap v) (window v * 2) (- gap v)
  else mk_visit row' prev' rowa' (step v) (window v) (gap v).

(** [do { ... } while (row < nRows)] of the setup phase. *)
Fixpoint setup_loop (fuel : nat) (v : visit) (st : list Z * list Z) : visit * (list Z * list Z) :=
  match fuel with
  | O => (v, st)
  | S fuel =>
      let st := reducedDuplexRowSetup st (memMatrix (prev v)) (memMatrix (rowa v))
                  (memMatrix (row v)) nCols in
      let v := setup_next v in
      if u64 (row v) <? nRows then setup_loop fuel v st else (v, st)
  end.

(** [row = (row + step) % nRows]: the sum is converted to unsigned. *)
Definition wander_next (step row : Z) : Z := u64 (row + step) mod nRows.

(** [do { ... } while (row != 0)] of the wandering phase: the variables [row],
    [prev], [rowa] and the state and matrix. *)
Fixpoint wander_loop (fuel : nat) (step : Z) (row prev rowa : Z) (st : list Z * list Z)
  : Z * Z * Z * (list Z * list Z) :=
  match fuel with
  | O => (row, prev, rowa, st)
  | S fuel =>
      let rowa := (fst st).[0] mod nRows in
      let st := reducedDuplexRow st (memMatrix prev) (memMatrix rowa) (memMatrix row) nCols in
      let prev := row in
      let row := wander_next step row in
      if row =? 0 then (row, prev, rowa, st) else wander_loop fuel step row prev rowa st
  end.

(** The step of time loop [tau]: [nRows / 2 - 1] is computed unsigned and
    stored in a signed variable. *)
Definition wander_step (tau : Z) : Z :=
  if tau mod 2 =? 0 then -1 else i64 (nRows / 2 - 1).

(** [for (tau = 1; tau <= timeCost; tau++)] *)
Fixpoint time_loop (n : nat) (tau : Z) (x : Z * Z * Z * (list Z * list Z))
  : Z * Z * Z * (list Z * list Z) :=
  match n with
  | O => x
  | S n =>
      let '(row, prev, rowa, st) := x in
      time_loop n (tau + 1) (wander_loop (Z.to_nat nRows) (wander_step tau) row prev rowa st)
  end.
End phases.

(** ** LYRA2

    The key buffer, the return code and the number of blocks left allocated. *)

(** [blk] is the number of words by which the absorbing loop advances:
    [BLOCK_LEN_BLAKE2_SAFE_INT64] in [LYRA2], [BLOCK_LEN_BLAKE2_SAFE_BYTES] in
    [LYRA2_old], which is otherwise the same code. *)
Definition LYRA2_with (blk : nat) (alloc : nat -> bool) (K : list Z) (kLen : nat) (pwd salt : list Z)
    (timeCost nRows nCols : nat) : list Z * Z * nat :=
  let size := (nRows * (BLOCK_LEN_INT64 * nCols * 8))%nat in
  if negb (alloc 0%nat) then (K, -1, 0%nat) else
  let bytes := replicate size 0 in
  if negb (alloc 1%nat) then (K, -1, 1%nat) else
  let bytes := prepare_input bytes (Z.of_nat kLen) pwd salt
                 (Z.of_nat timeCost) (Z.of_nat nRows) (Z.of_nat nCols) in
  if negb (alloc 2%nat) then (K, -1, 2%nat) else
  let M := load64_many bytes (size / 8) in
  let state := fold_left (fun state i => absorbBlockBlake2Safe state M (blk * i))
                 (seq 0 (nBlocksInput (length pwd) (length salt))) initState in
  let st := reducedSqueezeRow0 (state, M) (memMatrix nCols 0) nCols in
  let st := reducedDuplexRow1 st (memMatrix nCols 0) (memMatrix nCols 1) nCols in
  let '(v, st) := setup_loop (Z.of_nat nRows) nCols nRows visit0 st in
  let '(_, _, rowa, (state, M)) :=
    time_loop (Z.of_nat nRows) nCols timeCost 1 (0, prev v, rowa v, st) in
  let state := absorbBlock state M (memMatrix nCols rowa) in
  let '(_, out) := squeeze state (Z.to_nat (u32 (Z.of_nat kLen))) in
  (memcpy K 0 out, 0, 0%nat).

Definition LYRA2 := LYRA2_with BLOCK_LEN_BLAKE2_SAFE_INT64.
Definition LYRA2_old := LYRA2_with BLOCK_LEN_BLAKE2_SAFE_BYTES.

(** ** The header hash *)

(** [hashB] is an uninitialised local buffer, [ctx] an uninitialised context. *)
Definition lyra2z_hash (alloc : nat -> bool) (ctx : context) (hashB input : list Z) : list Z :=
  let ctx := sph_blake256_init ctx in
  let ctx := sph_blake256 ctx (take 80 input) in
  let '(_, hashA) := sph_blake256_close ctx in
  let '(hashB, _, _) := LYRA2 alloc hashB 32 hashA hashA 8 8 8 in
  take 32 hashB.
