(* ===== verification/SpongeCorrect.v ===== *)
(** * SpongeCorrect: the permutation of the Lyra2 sponge is invertible

    Every round of the sponge is a bijection of the 1024-bit states, so the
    sponge loses no information between absorbing and squeezing; the row
    operations keep the state and the matrix well formed and write only the
    rows they are given. *)

From S2P Require Import Prelude Words Sponge.

Abbreviation u64w := (word 64).

(** A sponge state: 16 words of 64 bits. *)
Definition state_ok (v : list Z) : Prop := length v = 16%nat /\ Forall u64w v.

(** ** Inverting the steps of [G] *)

Lemma sub_add a b : u64w a -> u64 (u64 (a + b) - b) = a.
Proof.
  intros Ha. unfold wrap. rewrite Zminus_mod_idemp_l. replace (a + b - b) with a by lia.
  by apply Z.mod_small.
Qed.

Lemma add_sub a b : u64w a -> u64 (u64 (a - b) + b) = a.
Proof.
  intros Ha. unfold wrap. rewrite Zplus_mod_idemp_l. replace (a - b + b) with a by lia.
  by apply Z.mod_small.
Qed.

Lemma unxor x y : (x ⊕ y) ⊕ y = x.
Proof. by rewrite Z.lxor_assoc, Z.lxor_nilpotent, Z.lxor_0_r. Qed.

(** Complementary rotations cancel. *)
Lemma rotr64_undo w c k : 0 <= c -> 0 <= k -> c + k = 64 -> u64w w -> rotr64 (rotr64 w c) k = w.
Proof. intros ?? E Hw. replace k with (64 - c) by lia. apply rotr64_inverse; [lia|done]. Qed.

Lemma u64_word z : u64w (u64 z).
Proof. by apply wrap_word. Qed.
#[export] Hint Resolve u64_word : words.

(** The inverse of [G]: its steps undone from the last to the first. *)
Definition G_inv (a b c d : Z) : Z * Z * Z * Z :=
  let b := rotr64 b 1 ⊕ c in let c := u64 (c - d) in
  let d := rotr64 d 48 ⊕ a in let a := u64 (a - b) in
  let b := rotr64 b 40 ⊕ c in let c := u64 (c - d) in
  let d := rotr64 d 32 ⊕ a in let a := u64 (a - b) in
  (a, b, c, d).

Lemma G_words a b c d :
  u64w a -> u64w b -> u64w c -> u64w d ->
  let '(a', b', c', d') := G a b c d in u64w a' /\ u64w b' /\ u64w c' /\ u64w d'.
Proof. intros. unfold G. split_and!; auto with words. Qed.

Lemma G_inv_words a b c d :
  u64w a -> u64w b -> u64w c -> u64w d ->
  let '(a', b', c', d') := G_inv a b c d in u64w a' /\ u64w b' /\ u64w c' /\ u64w d'.
Proof. intros. unfold G_inv. split_and!; auto 6 with words. Qed.

Lemma G_inv_G a b c d :
  u64w a -> u64w b -> u64w c -> u64w d ->
  (let '(a', b', c', d') := G a b c d in G_inv a' b' c' d') = (a, b, c, d).
Proof.
  intros Ha Hb Hc Hd. unfold G, G_inv.
  set (a1 := u64 (a + b)). set (d1 := rotr64 (d ⊕ a1) 32).
  set (c1 := u64 (c + d1)). set (b1 := rotr64 (b ⊕ c1) 24).
  set (a2 := u64 (a1 + b1)). set (d2 := rotr64 (d1 ⊕ a2) 16).
  set (c2 := u64 (c1 + d2)). set (b2 := rotr64 (b1 ⊕ c2) 63).
  assert (W : u64w a1 /\ u64w d1 /\ u64w c1 /\ u64w b1 /\ u64w a2 /\ u64w d2 /\ u64w c2)
    by (split_and!; subst a1 d1 c1 b1 a2 d2 c2; auto with words).
  destruct W as (?&?&?&?&?&?&?).
  assert (Eb2 : rotr64 b2 1 ⊕ c2 = b1).
  { subst b2. rewrite (rotr64_undo (b1 ⊕ c2) 63 1) by (lia || auto with words). apply unxor. }
  assert (Ec2 : u64 (c2 - d2) = c1) by (subst c2; by apply sub_add).
  assert (Ed2 : rotr64 d2 48 ⊕ a2 = d1).
  { subst d2. rewrite (rotr64_undo (d1 ⊕ a2) 16 48) by (lia || auto with words). apply unxor. }
  assert (Ea2 : u64 (a2 - b1) = a1) by (subst a2; by apply sub_add).
  assert (Eb1 : rotr64 b1 40 ⊕ c1 = b).
  { subst b1. rewrite (rotr64_undo (b ⊕ c1) 24 40) by (lia || auto with words). apply unxor. }
  assert (Ec1 : u64 (c1 - d1) = c) by (subst c1; by apply sub_add).
  assert (Ed1 : rotr64 d1 32 ⊕ a1 = d).
  { subst d1. rewrite (rotr64_undo (d ⊕ a1) 32 32) by (lia || auto with words). apply unxor. }
  assert (Ea1 : u64 (a1 - b) = a) by (subst a1; by apply sub_add).
  by rewrite Eb2, Ec2, Ed2, Ea2, Eb1, Ec1, Ed1, Ea1.
Qed.

Lemma G_G_inv a b c d :
  u64w a -> u64w b -> u64w c -> u64w d ->
  (let '(a', b', c', d') := G_inv a b c d in G a' b' c' d') = (a, b, c, d).
Proof.
  intros Ha Hb Hc Hd. unfold G, G_inv.
  set (b1 := rotr64 b 1 ⊕ c). set (c1 := u64 (c - d)).
  set (d1 := rotr64 d 48 ⊕ a). set (a1 := u64 (a - b1)).
  set (b2 := rotr64 b1 40 ⊕ c1). set (c2 := u64 (c1 - d1)).
  set (d2 := rotr64 d1 32 ⊕ a1). set (a2 := u64 (a1 - b2)).
  assert (W : u64w b1 /\ u64w c1 /\ u64w d1 /\ u64w a1)
    by (split_and!; subst a1 d1 c1 b1; auto with words).
  destruct W as (?&?&?&?).
  assert (E1 : u64 (a2 + b2) = a1) by (subst a2; by apply add_sub).
  assert (E2 : rotr64 (d2 ⊕ a1) 32 = d1)
    by (subst d2; rewrite unxor; by apply (rotr64_undo d1 32 32)).
  assert (E3 : u64 (c2 + d1) = c1) by (subst c2; by apply add_sub).
  assert (E4 : rotr64 (b2 ⊕ c1) 24 = b1)
    by (subst b2; rewrite unxor; by apply (rotr64_undo b1 40 24)).
  assert (E5 : u64 (a1 + b1) = a) by (subst a1; by apply add_sub).
  assert (E6 : rotr64 (d1 ⊕ a) 16 = d)
    by (subst d1; rewrite unxor; by apply (rotr64_undo d 48 16)).
  assert (E7 : u64 (c1 + d) = c) by (subst c1; by apply add_sub).
  assert (E8 : rotr64 (b1 ⊕ c) 63 = b)
    by (subst b1; rewrite unxor; by apply (rotr64_undo b 1 63)).
  by rewrite E1, E2, E3, E4, E5, E6, E7, E8.
Qed.

(** ** Inverting a round: diagonals first, then columns *)

Definition ROUND_LYRA_inv (v : list Z) : list Z :=
  match v with
  | [v0; v1; v2; v3; v4; v5; v6; v7; v8; v9; v10; v11; v12; v13; v14; v15] =>
      let '(v3, v4, v9, v14) := G_inv v3 v4 v9 v14 in
      let '(v2, v7, v8, v13) := G_inv v2 v7 v8 v13 in
      let '(v1, v6, v11, v12) := G_inv v1 v6 v11 v12 in
      let '(v0, v5, v10, v15) := G_inv v0 v5 v10 v15 in
      let '(v3, v7, v11, v15) := G_inv v3 v7 v11 v15 in
      let '(v2, v6, v10, v14) := G_inv v2 v6 v10 v14 in
      let '(v1, v5, v9, v13) := G_inv v1 v5 v9 v13 in
      let '(v0, v4, v8, v12) := G_inv v0 v4 v8 v12 in
      [v0; v1; v2; v3; v4; v5; v6; v7; v8; v9; v10; v11; v12; v13; v14; v15]
  | _ => v
  end.

(** Name the outputs of the next [G] (or [G_inv]) in the goal, with their
    ranges and the equation that inverts them. *)
Ltac step_G :=
  match goal with
  | |- context [match G ?a ?b ?c ?d with _ => _ end] =>
      let E := fresh "E" in let W := fresh "W" in
      pose proof (G_words a b c d ltac:(assumption) ltac:(assumption) ltac:(assumption) ltac:(assumption)) as W;
      pose proof (G_inv_G a b c d ltac:(assumption) ltac:(assumption) ltac:(assumption) ltac:(assumption)) as E;
      destruct (G a b c d) as [[[? ?] ?] ?]; destruct W as (?&?&?&?)
  end.
Ltac step_G_inv :=
  match goal with
  | |- context [match G_inv ?a ?b ?c ?d with _ => _ end] =>
      let E := fresh "E" in let W := fresh "W" in
      pose proof (G_inv_words a b c d ltac:(assumption) ltac:(assumption) ltac:(assumption) ltac:(assumption)) as W;
      pose proof (G_G_inv a b c d ltac:(assumption) ltac:(assumption) ltac:(assumption) ltac:(assumption)) as E;
      destruct (G_inv a b c d) as [[[? ?] ?] ?]; destruct W as (?&?&?&?)
  end.

Ltac state_16 v Hv :=
  destruct Hv as [Hlen Hw];
  do 16 (destruct v as [|? v]; [discriminate Hlen|]); destruct v; [|discriminate Hlen];
  rewrite !Forall_cons in Hw; destruct Hw as (?&?&?&?&?&?&?&?&?&?&?&?&?&?&?&?&_); clear Hlen.

Lemma ROUND_LYRA_ok v : state_ok v -> state_ok (ROUND_LYRA v).
Proof.
  intros Hv. state_16 v Hv. unfold ROUND_LYRA. do 8 step_G.
  split; [reflexivity|]. by repeat (apply Forall_cons; split).
Qed.

Lemma ROUND_LYRA_inv_ROUND v : state_ok v -> ROUND_LYRA_inv (ROUND_LYRA v) = v.
Proof.
  intros Hv. state_16 v Hv. unfold ROUND_LYRA. do 8 step_G.
  unfold ROUND_LYRA_inv.
  repeat match goal with E : G_inv _ _ _ _ = _ |- _ => rewrite E; clear E end. reflexivity.
Qed.

Lemma ROUND_LYRA_inv_ok v : state_ok v -> state_ok (ROUND_LYRA_inv v).
Proof.
  intros Hv. state_16 v Hv. unfold ROUND_LYRA_inv. do 8 step_G_inv.
  split; [reflexivity|]. by repeat (apply Forall_cons; split).
Qed.

Lemma ROUND_LYRA_ROUND_inv v : state_ok v -> ROUND_LYRA (ROUND_LYRA_inv v) = v.
Proof.
  intros Hv. state_16 v Hv. unfold ROUND_LYRA_inv. do 8 step_G_inv.
  unfold ROUND_LYRA.
  repeat match goal with E : G _ _ _ _ = _ |- _ => rewrite E; clear E end. reflexivity.
Qed.

Lemma iter_inverse {A} (f g : A -> A) (P : A -> Prop) n x :
  (forall x, P x -> P (f x)) -> (forall x, P x -> g (f x) = x) -> P x ->
  Nat.iter n g (Nat.iter n f x) = x /\ P (Nat.iter n f x).
Proof.
  intros Hf Hgf Hx. assert (HP : forall n, P (Nat.iter n f x)) by (intros k; induction k; cbn; auto).
  split; [|done]. induction n as [|n IH]; [done|].
  rewrite (Nat.iter_succ_r n _ g), (Nat.iter_succ n _ f), Hgf by apply HP. done.
Qed.

Lemma blake2bLyra_ok v : state_ok v -> state_ok (blake2bLyra v).
Proof.
  intros Hv. apply (iter_inverse ROUND_LYRA ROUND_LYRA_inv state_ok);
    auto using ROUND_LYRA_ok, ROUND_LYRA_inv_ROUND.
Qed.

Lemma initState_ok : state_ok initState.
Proof. split; [reflexivity|]. repeat (apply Forall_cons; split); unfold word; lia || constructor. Qed.

(** ** Row operations: ranges and frames *)

Lemma nth_insert_ne i j (x : Z) l : i <> j -> (<[i := x]> l).[j] = l.[j].
Proof. intros. rewrite !nth_lookup. by rewrite list_lookup_insert_ne. Qed.

Lemma Forall_nth_word (P : Z -> Prop) l i : P 0 -> Forall P l -> P l.[i].
Proof.
  intros H0 Hl. destruct (decide (i < length l)%nat).
  - by apply Forall_nth.
  - by rewrite nth_overflow by lia.
Qed.

Lemma nth_word l i : Forall u64w l -> u64w l.[i].
Proof. apply Forall_nth_word. by auto with words. Qed.
#[export] Hint Resolve nth_word : words.

(** Xoring words into the first places of the state. *)
Lemma xor_words_ok n (w : nat -> Z) st :
  (forall j, u64w (w j)) -> state_ok st ->
  state_ok (fold_left (fun st j => <[j := st.[j] ⊕ w j]> st) (seq 0 n) st).
Proof.
  intros Hw. induction n as [|n IH]; intros [Hl Hs]; [done|].
  rewrite seq_S, fold_left_app. cbn [fold_left Nat.add]. destruct IH as [Hl' Hs']; [done|].
  split; [by rewrite length_insert|]. apply Forall_insert; auto with words.
Qed.

Lemma xor_in_ok n st M p : state_ok st -> Forall u64w M -> state_ok (xor_in n st M p).
Proof. intros. apply xor_words_ok; auto with words. Qed.

Lemma absorbBlock_ok st M p : state_ok st -> Forall u64w M -> state_ok (absorbBlock st M p).
Proof. intros. unfold absorbBlock. by apply blake2bLyra_ok, xor_in_ok. Qed.

Lemma absorbBlockBlake2Safe_ok st M p :
  state_ok st -> Forall u64w M -> state_ok (absorbBlockBlake2Safe st M p).
Proof. intros. unfold absorbBlockBlake2Safe. by apply blake2bLyra_ok, xor_in_ok. Qed.

Lemma xor_sum_in_ok st M p q : state_ok st -> state_ok (xor_sum_in st M p q).
Proof. intros. apply xor_words_ok; auto with words. Qed.

(** A write changes at most the twelve words from [p] on. *)
Lemma write_words_frame M p f i :
  (i < p \/ p + BLOCK_LEN_INT64 <= i)%nat -> (write_words M p f).[i] = M.[i].
Proof.
  intros Hi. unfold write_words.
  assert (Hs : forall j, In j (seq 0 BLOCK_LEN_INT64) -> (p + j <> i)%nat)
    by (intros j Hj%in_seq; lia).
  revert M Hs. induction (seq 0 BLOCK_LEN_INT64) as [|j l IH]; intros M Hs; cbn [fold_left]; [done|].
  rewrite IH by (intros; apply Hs; by right). apply nth_insert_ne, Hs. by left.
Qed.

Lemma write_words_length M p f : length (write_words M p f) = length M.
Proof.
  unfold write_words. revert M. induction (seq 0 BLOCK_LEN_INT64) as [|j l IH]; intros M; cbn [fold_left]; [done|].
  by rewrite IH, length_insert.
Qed.

Lemma write_words_ok M p f :
  (forall M j, Forall u64w M -> u64w (f M j)) -> Forall u64w M -> Forall u64w (write_words M p f).
Proof.
  intros Hf. unfold write_words. revert M.
  induction (seq 0 BLOCK_LEN_INT64) as [|j l IH]; intros M HM; cbn [fold_left]; [done|].
  apply IH, Forall_insert; auto.
Qed.

(** The sponge state and a matrix of [n] words. *)
Definition mem_ok (n : nat) (x : list Z * list Z) : Prop :=
  state_ok (fst x) /\ Forall u64w (snd x) /\ length (snd x) = n.

(** [x'] differs from [x] in the matrix only inside the given rows. *)
Definition frame (rows : list nat) (nCols : nat) (x x' : list Z * list Z) : Prop :=
  forall i, Forall (fun r => (i < r \/ r + BLOCK_LEN_INT64 * nCols <= i)%nat) rows ->
    (snd x').[i] = (snd x).[i].

Lemma frame_refl rows nCols x : frame rows nCols x x.
Proof. by intros i _. Qed.

Lemma frame_trans rows nCols x y z : frame rows nCols x y -> frame rows nCols y z -> frame rows nCols x z.
Proof. intros H1 H2 i Hi. rewrite H2, H1 by done. done. Qed.

(** A loop over the columns, each step of which is well behaved. *)
Lemma columns_ok n rows nCols (f : list Z * list Z -> nat -> list Z * list Z) x :
  (forall x i, (i < nCols)%nat -> mem_ok n x -> mem_ok n (f x i) /\ frame rows nCols x (f x i)) ->
  mem_ok n x ->
  mem_ok n (fold_left f (seq 0 nCols) x) /\ frame rows nCols x (fold_left f (seq 0 nCols) x).
Proof.
  intros Hf Hx. assert (H : forall k, (k <= nCols)%nat ->
    mem_ok n (fold_left f (seq 0 k) x) /\ frame rows nCols x (fold_left f (seq 0 k) x)).
  { induction k as [|k IH]; intros Hk; [split; [done|apply frame_refl]|].
    rewrite seq_S, fold_left_app. cbn [fold_left Nat.add]. destruct IH as [Hm Hfr]; [lia|].
    destruct (Hf _ k ltac:(lia) Hm). split; [done|]. by eapply frame_trans. }
  by apply H.
Qed.

(** The offsets of a column lie inside its row. *)
Lemma column_inside row nCols c i :
  (c < nCols)%nat -> (i < row \/ row + BLOCK_LEN_INT64 * nCols <= i)%nat ->
  (i < column row c \/ column row c + BLOCK_LEN_INT64 <= i)%nat.
Proof. unfold column, BLOCK_LEN_INT64. intros. lia. Qed.

Ltac mem_cases := intros [state M] i Hi [Hs [HM Hl]]; cbn [fst snd] in Hs, HM, Hl.

Lemma reducedSqueezeRow0_ok n x rowOut nCols :
  mem_ok n x -> mem_ok n (reducedSqueezeRow0 x rowOut nCols) /\
  frame [rowOut] nCols x (reducedSqueezeRow0 x rowOut nCols).
Proof.
  apply columns_ok. mem_cases. split.
  - split_and!; cbn [fst snd]; [by apply ROUND_LYRA_ok| |by rewrite write_words_length].
    apply write_words_ok; [|done]. intros. apply nth_word, Hs.
  - intros k Hk. rewrite Forall_cons in Hk. cbn [snd].
    apply write_words_frame, (column_inside rowOut nCols); [lia|apply Hk].
Qed.

Lemma reducedDuplexRow1_ok n x rowIn rowOut nCols :
  mem_ok n x -> mem_ok n (reducedDuplexRow1 x rowIn rowOut nCols) /\
  frame [rowOut] nCols x (reducedDuplexRow1 x rowIn rowOut nCols).
Proof.
  apply columns_ok. mem_cases.
  assert (Hs' : state_ok (reducedBlake2bLyra (xor_in BLOCK_LEN_INT64 state M (column rowIn i))))
    by (by apply ROUND_LYRA_ok, xor_in_ok).
  split.
  - split_and!; cbn [fst snd]; [done| |by rewrite write_words_length].
    apply write_words_ok; [|done]. intros. apply word_lxor; [lia|by apply nth_word|apply nth_word, Hs'].
  - intros k Hk. rewrite Forall_cons in Hk. cbn [snd].
    apply write_words_frame, (column_inside rowOut nCols); [lia|apply Hk].
Qed.

(** The common end of the two duplex operations: two writes with the words of
    the new state. *)
Lemma duplex_writes_ok n rowOut rowInOut nCols c c' state state' M f g :
  (c < nCols)%nat -> (c' < nCols)%nat -> state_ok state' -> Forall u64w M -> length M = n ->
  (forall M j, Forall u64w M -> u64w (f M j)) -> (forall M j, Forall u64w M -> u64w (g M j)) ->
  let M' := write_words (write_words M (column rowOut c) f) (column rowInOut c') g in
  mem_ok n (state', M') /\ frame [rowInOut; rowOut] nCols (state, M) (state', M').
Proof.
  intros Hc Hc' Hs HM Hl Hf Hg M'. split.
  - split_and!; cbn [fst snd]; [done| |by subst M'; rewrite !write_words_length].
    by apply write_words_ok, write_words_ok.
  - intros k Hk. rewrite !Forall_cons in Hk. destruct Hk as (Hk1 & Hk2 & _). cbn [snd]. subst M'.
    rewrite !write_words_frame; [done| |]; by apply (column_inside _ nCols).
Qed.

Lemma reducedDuplexRowSetup_ok n x rowIn rowInOut rowOut nCols :
  mem_ok n x -> mem_ok n (reducedDuplexRowSetup x rowIn rowInOut rowOut nCols) /\
  frame [rowInOut; rowOut] nCols x (reducedDuplexRowSetup x rowIn rowInOut rowOut nCols).
Proof.
  apply columns_ok. mem_cases. unfold duplex_setup_column.
  assert (Hs' := ROUND_LYRA_ok _ (xor_sum_in_ok state M (column rowIn i) (column rowInOut i) Hs)).
  apply duplex_writes_ok; try done || lia;
    intros; (apply word_lxor; [lia|by apply nth_word|apply nth_word, Hs']).
Qed.

Lemma reducedDuplexRow_ok n x rowIn rowInOut rowOut nCols :
  mem_ok n x -> mem_ok n (reducedDuplexRow x rowIn rowInOut rowOut nCols) /\
  frame [rowInOut; rowOut] nCols x (reducedDuplexRow x rowIn rowInOut rowOut nCols).
Proof.
  apply columns_ok. mem_cases. unfold duplex_column.
  assert (Hs' := ROUND_LYRA_ok _ (xor_sum_in_ok state M (column rowIn i) (column rowInOut i) Hs)).
  apply duplex_writes_ok; try done || lia;
    intros; (apply word_lxor; [lia|by apply nth_word|apply nth_word, Hs']).
Qed.

(** ** The theorems *)

(** The permutation.  The round of the sponge, and with it the reduced and
    the full (12-round) transformation, is a bijection of the 1024-bit states:
    it maps states to states and is inverted on both sides by undoing its
    steps in reverse order. *)
Theorem sponge_permutation_bijective v :
  state_ok v ->
  state_ok (reducedBlake2bLyra v) /\ state_ok (blake2bLyra v) /\
  ROUND_LYRA_inv (reducedBlake2bLyra v) = v /\ reducedBlake2bLyra (ROUND_LYRA_inv v) = v /\
  Nat.iter 12 ROUND_LYRA_inv (blake2bLyra v) = v /\ blake2bLyra (Nat.iter 12 ROUND_LYRA_inv v) = v.
Proof.
  intros Hv. split_and!.
  - by apply ROUND_LYRA_ok.
  - by apply blake2bLyra_ok.
  - by apply ROUND_LYRA_inv_ROUND.
  - by apply ROUND_LYRA_ROUND_inv.
  - apply (iter_inverse ROUND_LYRA ROUND_LYRA_inv state_ok);
      auto using ROUND_LYRA_ok, ROUND_LYRA_inv_ROUND.
  - apply (iter_inverse ROUND_LYRA_inv ROUND_LYRA state_ok);
      auto using ROUND_LYRA_inv_ok, ROUND_LYRA_ROUND_inv.
Qed.

Lemma sponge_permutation_witness :
  state_ok (reducedBlake2bLyra initState) /\ state_ok (blake2bLyra initState) /\
  ROUND_LYRA_inv (reducedBlake2bLyra initState) = initState /\
  reducedBlake2bLyra (ROUND_LYRA_inv initState) = initState /\
  Nat.iter 12 ROUND_LYRA_inv (blake2bLyra initState) = initState /\
  blake2bLyra (Nat.iter 12 ROUND_LYRA_inv initState) = initState.
Proof.
  apply (sponge_permutation_bijective initState). split; [reflexivity|].
  repeat (apply Forall_cons; split); unfold word; lia || constructor.
Defined.

(** Memory safety of the row operations.  Given any rows, equal or not,
    the duplex operations keep the sponge state and the matrix made of 64-bit
    words, keep the size of the matrix, and change no word outside the rows
    they are meant to write. *)
Theorem row_operations_safe n x rowIn rowInOut rowOut nCols :
  mem_ok n x ->
  (mem_ok n (reducedSqueezeRow0 x rowOut nCols) /\
   frame [rowOut] nCols x (reducedSqueezeRow0 x rowOut nCols)) /\
  (mem_ok n (reducedDuplexRow1 x rowIn rowOut nCols) /\
   frame [rowOut] nCols x (reducedDuplexRow1 x rowIn rowOut nCols)) /\
  (mem_ok n (reducedDuplexRowSetup x rowIn rowInOut rowOut nCols) /\
   frame [rowInOut; rowOut] nCols x (reducedDuplexRowSetup x rowIn rowInOut rowOut nCols)) /\
  (mem_ok n (reducedDuplexRow x rowIn rowInOut rowOut nCols) /\
   frame [rowInOut; rowOut] nCols x (reducedDuplexRow x rowIn rowInOut rowOut nCols)).
Proof.
  intros Hx. split; [by apply reducedSqueezeRow0_ok|]. split; [by apply reducedDuplexRow1_ok|].
  split; [by apply reducedDuplexRowSetup_ok|by apply reducedDuplexRow_ok].
Qed.

Lemma row_operations_safe_witness :
  let x := (initState, replicate 72 7) in
  mem_ok 72 (reducedDuplexRow x 0 24 24 2) /\ frame [24%nat; 24%nat] 2 x (reducedDuplexRow x 0 24 24 2).
Proof.
  intros x. refine (proj2 (proj2 (proj2 (row_operations_safe 72 x 0 24 24 2 _)))).
  split_and!; [apply initState_ok|apply Forall_replicate; unfold word; lia|reflexivity].
Defined.
