(* ===== verification/Lyra2Hash.v ===== *)
(** * Lyra2Hash: the input and the output of LYRA2 and of the header hash

    The padding of the input, the order in which the setup phase revisits rows
    and the wandering phase walks them, termination of the loops, and the
    result of [LYRA2] and [lyra2z_hash] on success and on allocation failure. *)

From S2P Require Import Prelude Words SphBlake SphBlakeCorrect Sponge Lyra2 SpongeCorrect.

(** ** Odd steps modulo a power of two *)

Lemma odd_step_divides (j : nat) s k :
  Z.Odd s -> (2 ^ Z.of_nat j | k * s) -> (2 ^ Z.of_nat j | k).
Proof.
  intros Hs. revert k. induction j as [|j IH]; intros k Hk; [apply Z.divide_1_l|].
  rewrite Nat2Z.inj_succ, Z.pow_succ_r in * by lia.
  assert (He : Z.Even k).
  { destruct (Z.Even_or_Odd k) as [?|Ho]; [done|]. exfalso.
    destruct Hk as [q Hq], Hs as [x ->], Ho as [y ->].
    assert (2 * (y * (2 * x + 1) + x - q * 2 ^ Z.of_nat j) = -1) by lia. lia. }
  destruct He as [y ->]. apply Z.mul_divide_mono_l, IH.
  destruct Hk as [q Hq]. exists q. lia.
Qed.

Lemma odd_step_nonzero (j : nat) s k :
  Z.Odd s -> 0 < k < 2 ^ Z.of_nat j -> (k * s) mod 2 ^ Z.of_nat j <> 0.
Proof.
  intros Hs Hk E. apply Z.mod_divide in E; [|lia]. apply odd_step_divides in E; [|done].
  apply Z.divide_pos_le in E; lia.
Qed.

(** Multiples of an odd step are distinct within one period. *)
Lemma odd_step_injective (j : nat) s a b :
  Z.Odd s -> 0 <= a < 2 ^ Z.of_nat j -> 0 <= b < 2 ^ Z.of_nat j ->
  (a * s) mod 2 ^ Z.of_nat j = (b * s) mod 2 ^ Z.of_nat j -> a = b.
Proof.
  intros Hs. assert (H : forall a b, 0 <= a < 2 ^ Z.of_nat j -> 0 <= b < 2 ^ Z.of_nat j ->
    (a * s) mod 2 ^ Z.of_nat j = (b * s) mod 2 ^ Z.of_nat j -> ~ a < b).
  { intros a' b' Ha Hb E Hlt. apply (odd_step_nonzero j s (b' - a') Hs); [lia|].
    rewrite Z.mul_sub_distr_r, Zminus_mod, E, Z.sub_diag. apply Zmod_0_l. }
  intros Ha Hb E. assert (~ a < b) by by apply H. assert (~ b < a) by by apply H. lia.
Qed.

(** So one period of the walk is a permutation of the residues. *)
Lemma odd_step_permutation (j : nat) s :
  Z.Odd s ->
  map (fun i => (i * s) mod 2 ^ Z.of_nat j) (seqZ 0 (2 ^ Z.of_nat j)) ≡ₚ seqZ 0 (2 ^ Z.of_nat j).
Proof.
  intros Hs. assert (HP : 0 < 2 ^ Z.of_nat j) by lia.
  apply submseteq_length_Permutation.
  - apply NoDup_submseteq.
    + apply NoDup_fmap_2_strong; [|apply NoDup_seqZ].
      intros a b Ha%elem_of_seqZ Hb%elem_of_seqZ. apply odd_step_injective; [done|lia|lia].
    + intros x (i & -> & _)%list_elem_of_fmap. apply elem_of_seqZ.
      pose proof (Z.mod_pos_bound (i * s) (2 ^ Z.of_nat j) HP). lia.
  - by rewrite length_map.
Qed.

(** ** The setup phase *)

(** The visitation variables while the rows of one window are computed. *)
Record setup_inv (j : nat) (v : visit) : Prop := {
  si_window : window v = 2 ^ Z.of_nat j;
  si_j : (1 <= j)%nat;
  si_row : window v <= row v < 2 * window v;
  si_prev : prev v = row v - 1;
  si_step : Z.Odd (step v);
  si_gap : Z.Odd (gap v);
  si_rowa : rowa v = ((row v - window v) * step v) mod window v }.

Lemma setup_inv_0 : setup_inv 1 visit0.
Proof. constructor; try done; try (by exists 0); cbn; lia. Qed.

(** The window is doubled exactly when all of its rows have been visited. *)
Lemma setup_next_inv j v :
  setup_inv j v ->
  setup_inv (if row v + 1 =? 2 * window v then S j else j) (setup_next v) /\
  row (setup_next v) = row v + 1 /\
  (row v + 1 <> 2 * window v -> step (setup_next v) = step v /\ window (setup_next v) = window v).
Proof.
  intros [Hw Hj Hrow Hprev Hstep Hgap Hrowa]. unfold setup_next.
  assert (HP : 0 < 2 ^ Z.of_nat j) by lia.
  assert (Ea : Z.land (rowa v + step v) (window v - 1) = ((row v + 1 - window v) * step v) mod window v).
  { rewrite Hw. replace (2 ^ Z.of_nat j - 1) with (Z.ones (Z.of_nat j)) by (rewrite Z.ones_equiv; lia).
    rewrite Z.land_ones by lia. rewrite Hrowa, Hw, Zplus_mod_idemp_l. f_equal. lia. }
  rewrite Ea. destruct (Z.eqb_spec (row v + 1) (2 * window v)) as [E|E].
  - replace (row v + 1 - window v) with (window v) by lia.
    rewrite Z.mul_comm, Z.mod_mul by lia. cbn [Z.eqb].
    split; [|split; [done|lia]]. constructor; cbn [row prev rowa step window gap]; try lia.
    + rewrite Nat2Z.inj_succ, Z.pow_succ_r by lia. lia.
    + destruct Hgap as [g ->]. exists (2 ^ (Z.of_nat j - 1) + g). rewrite Hw.
      replace (Z.of_nat j) with (Z.succ (Z.of_nat j - 1)) at 1 by lia. rewrite Z.pow_succ_r; lia.
    + destruct Hgap as [g ->]. exists (- g - 1). lia.
    + replace (row v + 1 - window v * 2) with 0 by lia. by rewrite Z.mul_0_l, Zmod_0_l.
  - assert (Hne : ((row v + 1 - window v) * step v) mod window v <> 0).
    { rewrite Hw. apply odd_step_nonzero; [done|lia]. }
    apply Z.eqb_neq in Hne. rewrite Hne. split; [|done].
    constructor; cbn [row prev rowa step window gap]; try done || lia.
Qed.

(** Row [k + 2] is computed in iteration [k]. *)
Definition setup_visit (k : nat) : visit := Nat.iter k setup_next visit0.

Lemma setup_visit_inv k : exists j, setup_inv j (setup_visit k) /\ row (setup_visit k) = Z.of_nat k + 2.
Proof.
  induction k as [|k (j & Hi & Hr)]; [exists 1%nat; split; [apply setup_inv_0|done]|].
  destruct (setup_next_inv j _ Hi) as (Hn & Hr' & _). eexists. split; [exact Hn|].
  change (setup_visit (S k)) with (setup_next (setup_visit k)). rewrite Hr', Hr. lia.
Qed.

Lemma setup_visit_order k :
  let v := setup_visit k in
  row v = Z.of_nat k + 2 /\ prev v = Z.of_nat k + 1 /\ 0 <= rowa v < prev v.
Proof.
  destruct (setup_visit_inv k) as (j & [Hw Hj Hrow Hprev Hstep Hgap Hrowa] & Hr).
  intros v. subst v. split; [done|]. split; [lia|].
  set (v := setup_visit k) in *.
  pose proof (Z.mod_pos_bound ((row v - window v) * step v) (window v) ltac:(lia)).
  destruct (decide (row v = window v)) as [E|E]; [|lia].
  replace (row v - window v) with 0 in Hrowa by lia. rewrite Z.mul_0_l, Zmod_0_l in Hrowa.
  split; lia.
Qed.

(** Within one window the step does not change. *)
Lemma setup_window j (k : nat) :
  (1 <= j)%nat -> Z.of_nat k < 2 ^ Z.of_nat j ->
  exists s, Z.Odd s /\ forall i : nat, (i <= k)%nat ->
    let v := setup_visit (Z.to_nat (2 ^ Z.of_nat j - 2) + i) in
    setup_inv j v /\ step v = s /\ row v = 2 ^ Z.of_nat j + Z.of_nat i.
Proof.
  intros Hj Hk. assert (H2 : 2 <= 2 ^ Z.of_nat j)
    by (rewrite <-(Z.pow_1_r 2) at 1; apply Z.pow_le_mono_r; lia).
  set (k0 := Z.to_nat (2 ^ Z.of_nat j - 2)).
  assert (Hinv : forall i : nat, Z.of_nat i < 2 ^ Z.of_nat j -> setup_inv j (setup_visit (k0 + i)) /\
    row (setup_visit (k0 + i)) = 2 ^ Z.of_nat j + Z.of_nat i).
  { intros i Hi. destruct (setup_visit_inv (k0 + i)) as (j' & Hinv & Hr).
    assert (Hr' : row (setup_visit (k0 + i)) = 2 ^ Z.of_nat j + Z.of_nat i) by lia.
    split; [|done]. replace j with j'; [done|]. pose proof (si_row _ _ Hinv) as Hrow.
    rewrite (si_window _ _ Hinv), Hr' in Hrow.
    destruct (Nat.lt_trichotomy j' j) as [Hlt|[?|Hlt]]; [|done|]; exfalso.
    - assert (2 ^ Z.of_nat (S j') <= 2 ^ Z.of_nat j) by (apply Z.pow_le_mono_r; lia).
      rewrite Nat2Z.inj_succ, Z.pow_succ_r in H by lia. lia.
    - assert (2 ^ Z.of_nat (S j) <= 2 ^ Z.of_nat j') by (apply Z.pow_le_mono_r; lia).
      rewrite Nat2Z.inj_succ, Z.pow_succ_r in H by lia. lia. }
  exists (step (setup_visit (k0 + 0))). split; [apply (Hinv 0%nat); lia|].
  intros i Hi. destruct (Hinv i) as [Hi1 Hi2]; [lia|]. split; [done|]. split; [|done].
  clear Hi1 Hi2. induction i as [|i IH]; [done|]. destruct (Hinv i) as [Hi1 Hi2]; [lia|].
  rewrite Nat.add_succ_r. change (setup_visit (S (k0 + i))) with (setup_next (setup_visit (k0 + i))).
  destruct (setup_next_inv j _ Hi1) as (_ & _ & Hs). pose proof (si_window _ _ Hi1) as Hw.
  rewrite (proj1 (Hs ltac:(lia))). apply IH. lia.
Qed.

(** The setup phase.  In iteration [k] the code computes row [k + 2] from
    row [k + 1] and a row [row*] strictly before both, so the three rows it
    passes to the duplex are distinct and already initialised; and while the
    rows of the window [2^j, 2^(j+1)) are computed, [row*] takes every value
    below [2^j] exactly once, as the comment at the reset of the window says. *)
Theorem setup_visits_each_row_once :
  (forall k, let v := setup_visit k in
     row v = Z.of_nat k + 2 /\ prev v = Z.of_nat k + 1 /\ 0 <= rowa v < prev v) /\
  (forall j, (1 <= j)%nat ->
     map (fun i => rowa (setup_visit (Z.to_nat (i - 2)))) (seqZ (2 ^ Z.of_nat j) (2 ^ Z.of_nat j))
     ≡ₚ seqZ 0 (2 ^ Z.of_nat j)).
Proof.
  split; [apply setup_visit_order|]. intros j Hj.
  assert (H2 : 2 <= 2 ^ Z.of_nat j)
    by (rewrite <-(Z.pow_1_r 2) at 1; apply Z.pow_le_mono_r; lia).
  destruct (setup_window j (Z.to_nat (2 ^ Z.of_nat j - 1)) Hj) as (s & Hs & Hv); [lia|].
  rewrite <-(odd_step_permutation j s Hs).
  replace (seqZ (2 ^ Z.of_nat j) (2 ^ Z.of_nat j))
    with (map (Z.add (2 ^ Z.of_nat j)) (seqZ 0 (2 ^ Z.of_nat j))).
  2:{ rewrite (fmap_add_seqZ (2 ^ Z.of_nat j) 0). f_equal. lia. }
  rewrite map_map. apply Permutation_refl', map_ext_in. intros i Hi%list_elem_of_In%elem_of_seqZ.
  destruct (Hv (Z.to_nat i)) as (Hinv & Hst & Hrow); [lia|].
  replace (Z.to_nat (2 ^ Z.of_nat j - 2) + Z.to_nat i)%nat with (Z.to_nat (2 ^ Z.of_nat j + i - 2)) in * by lia.
  rewrite (si_rowa _ _ Hinv), Hst, (si_window _ _ Hinv), Hrow. f_equal. f_equal. lia.
Qed.

(** ** The loops over a matrix of [nRows] rows *)

Section matrix.
Context (nRows nCols : nat).
Hypotheses (Hrows : (3 <= nRows)%nat) (Hmax : Z.of_nat nRows < 2 ^ 63).
Local Abbreviation R := (Z.of_nat nRows).
Local Abbreviation size := (nRows * (BLOCK_LEN_INT64 * nCols))%nat.

(** The setup loop terminates within [nRows] iterations, having computed every
    row up to the last. *)
Lemma setup_loop_ends fuel k st :
  (k + 2 < nRows)%nat -> (nRows - 2 - k <= fuel)%nat -> mem_ok size st ->
  let '(v, st') := setup_loop R nCols fuel (setup_visit k) st in
  v = setup_visit (nRows - 2) /\ mem_ok size st'.
Proof.
  revert k st. induction fuel as [|fuel IH]; intros k st Hk Hf Hm; [lia|]. cbn [setup_loop].
  change (setup_next (setup_visit k)) with (setup_visit (S k)).
  destruct (reducedDuplexRowSetup_ok size st (memMatrix nCols (prev (setup_visit k)))
    (memMatrix nCols (rowa (setup_visit k))) (memMatrix nCols (row (setup_visit k))) nCols Hm) as [Hm' _].
  destruct (setup_visit_order (S k)) as (Hr & _). rewrite Hr, wrap_small by (unfold word; lia).
  destruct (Z.ltb_spec (Z.of_nat (S k) + 2) R).
  - apply IH; [lia|lia|done].
  - split; [|done]. f_equal. lia.
Qed.

(** The rows a wandering loop processes, in order. *)
Fixpoint wander_rows (fuel : nat) (step row : Z) : list Z :=
  match fuel with
  | O => []
  | S fuel => let next := wander_next R step row in
      row :: (if next =? 0 then [] else wander_rows fuel step next)
  end.

(** One step of the walk on the row it is at. *)
Definition wander_body (x : Z * Z * (list Z * list Z)) (row : Z) : Z * Z * (list Z * list Z) :=
  let '(prev, _, st) := x in
  let rowa := (fst st).[0] mod R in
  (row, rowa, reducedDuplexRow st (memMatrix nCols prev) (memMatrix nCols rowa) (memMatrix nCols row) nCols).

(** The loop is the fold over these rows; it stops because the walk is back at
    row 0, given that it comes back within the fuel. *)
Lemma wander_loop_fold fuel step row prev rowa st n :
  (1 <= n <= fuel)%nat -> Nat.iter n (wander_next R step) row = 0 ->
  wander_loop R nCols fuel step row prev rowa st =
  (let '(prev, rowa, st) := fold_left wander_body (wander_rows fuel step row) (prev, rowa, st) in
   (0, prev, rowa, st)).
Proof.
  revert fuel row prev rowa st. induction n as [|n IH]; intros fuel row prev rowa st Hn Hz; [lia|].
  destruct fuel as [|fuel]; [lia|]. cbn [wander_loop wander_rows fold_left].
  change (wander_body (prev, rowa, st) row) with
    (row, (fst st).[0] mod R, reducedDuplexRow st (memMatrix nCols prev)
       (memMatrix nCols ((fst st).[0] mod R)) (memMatrix nCols row) nCols).
  destruct (Z.eqb_spec (wander_next R step row) 0) as [E|E]; [by rewrite E|].
  rewrite Nat.iter_succ_r in Hz. apply IH; [|done].
  destruct n; [cbn in Hz; done|lia].
Qed.

(** Both walks return to row 0 within [nRows] steps, whatever [nRows] is. *)
Lemma wander_returns tau :
  exists n, (1 <= n <= nRows)%nat /\ Nat.iter n (wander_next R (wander_step R tau)) 0 = 0.
Proof.
  unfold wander_step. destruct (tau mod 2 =? 0).
  - (* step -1: one jump to (2^64 - 1) mod nRows, then down to 0 *)
    set (r0 := (2 ^ 64 - 1) mod R). assert (Hr0 : 0 <= r0 < R) by (apply Z.mod_pos_bound; lia).
    assert (Hdown : forall k : nat, Z.of_nat k <= r0 ->
      Nat.iter (S k) (wander_next R (-1)) 0 = r0 - Z.of_nat k).
    { induction k as [|k IHk]; intros Hk; [subst r0; cbn; by rewrite Z.sub_0_r|].
      rewrite Nat.iter_succ, IHk by lia. unfold wander_next.
      rewrite wrap_small by (unfold word; lia). rewrite Z.mod_small; lia. }
    exists (S (Z.to_nat r0)). split; [lia|]. rewrite Hdown; lia.
  - (* a non-negative step: after nRows steps the sum is a multiple of nRows *)
    assert (Hs : i64 (R / 2 - 1) = R / 2 - 1).
    { unfold i64. assert (0 <= R / 2 - 1 < 2 ^ 63)
        by (pose proof (Z.div_le_lower_bound R 2 1); pose proof (Z.div_lt_upper_bound R 2 (2 ^ 63)); lia).
      rewrite Z.mod_small by lia. by rewrite (proj2 (Z.ltb_lt _ _)) by lia. }
    rewrite Hs. set (s := R / 2 - 1). assert (Hsr : 0 <= s < 2 ^ 63).
    { subst s. pose proof (Z.div_le_lower_bound R 2 1). pose proof (Z.div_lt_upper_bound R 2 (2 ^ 63)). lia. }
    assert (Hiter : forall k : nat, Nat.iter k (wander_next R s) 0 = (Z.of_nat k * s) mod R).
    { induction k as [|k IHk]; [done|]. rewrite Nat.iter_succ, IHk. unfold wander_next.
      pose proof (Z.mod_pos_bound (Z.of_nat k * s) R ltac:(lia)).
      rewrite wrap_small by (unfold word; lia). rewrite Zplus_mod_idemp_l. f_equal. lia. }
    exists nRows. split; [lia|]. rewrite Hiter, Z.mul_comm. apply Z.mod_mul. lia.
Qed.

Lemma wander_body_ok l x :
  mem_ok size (snd x) -> mem_ok size (snd (fold_left wander_body l x)).
Proof.
  revert x. induction l as [|r l IH]; intros [[prev rowa] st] Hx; cbn [fold_left]; [done|].
  apply IH. cbn [wander_body snd]. by apply reducedDuplexRow_ok.
Qed.

(** The time loop keeps the matrix well formed and ends each round at row 0. *)
Lemma time_loop_ok n tau prev rowa st :
  mem_ok size st ->
  exists prev' rowa' st', time_loop R nCols n tau (0, prev, rowa, st) = (0, prev', rowa', st') /\
    mem_ok size st'.
Proof.
  revert tau prev rowa st. induction n as [|n IH]; intros tau prev rowa st Hm; [by eexists _, _, _|].
  cbn [time_loop]. destruct (wander_returns tau) as (k & Hk & Hz). rewrite Nat2Z.id.
  rewrite (wander_loop_fold nRows _ _ _ _ _ k Hk Hz).
  pose proof (wander_body_ok (wander_rows nRows (wander_step R tau) 0) (prev, rowa, st) Hm) as Hm'.
  destruct (fold_left wander_body _ _) as [[prev' rowa'] st']. by apply IH.
Qed.
End matrix.

(** ** The walk over a power of two of rows *)

Lemma mod_wrap j x : (j <= 64)%nat -> u64 x mod 2 ^ Z.of_nat j = x mod 2 ^ Z.of_nat j.
Proof.
  intros Hj. apply Z.mod_mod_divide. exists (2 ^ (64 - Z.of_nat j)).
  rewrite <-Z.pow_add_r by lia. f_equal. lia.
Qed.

Lemma wander_rows_walk nRows j s (m : nat) i :
  (j <= 64)%nat -> Z.of_nat nRows = 2 ^ Z.of_nat j -> Z.Odd s ->
  0 <= i -> i + Z.of_nat m = 2 ^ Z.of_nat j -> (1 <= m)%nat ->
  wander_rows nRows m s ((i * s) mod 2 ^ Z.of_nat j) =
  map (fun i => (i * s) mod 2 ^ Z.of_nat j) (seqZ i (Z.of_nat m)).
Proof.
  intros Hj HR Hs. revert i. induction m as [|m IH]; intros i Hi Hm Hm1; [lia|].
  cbn [wander_rows]. rewrite seqZ_cons by lia. cbn [map]. f_equal.
  assert (En : wander_next (Z.of_nat nRows) s ((i * s) mod 2 ^ Z.of_nat j) =
    ((i + 1) * s) mod 2 ^ Z.of_nat j).
  { unfold wander_next. rewrite HR, mod_wrap by done. rewrite Zplus_mod_idemp_l. f_equal. lia. }
  rewrite En. destruct (Z.eqb_spec (((i + 1) * s) mod 2 ^ Z.of_nat j) 0) as [E|E].
  - replace (Z.pred (Z.of_nat (S m))) with 0; [done|].
    destruct (decide (i + 1 < 2 ^ Z.of_nat j)); [|lia].
    exfalso. apply (odd_step_nonzero j s (i + 1) Hs); [lia|done].
  - destruct m as [|m].
    { exfalso. apply E. replace (i + 1) with (2 ^ Z.of_nat j) by lia.
      rewrite Z.mul_comm. apply Z.mod_mul. lia. }
    rewrite IH by lia. f_equal. f_equal; lia.
Qed.

(** the wandering phase.  Whatever the number of rows, every walk is back
    at row 0 after at most [nRows] steps, so the loops terminate; and when the
    number of rows is a power of two (at least four), every walk of every time
    iteration processes each row of the matrix exactly once. *)
Theorem wander_walks_terminate_and_cover nRows :
  (3 <= nRows)%nat -> Z.of_nat nRows < 2 ^ 63 ->
  (forall nCols tau prev rowa st,
     let '(row, _, _, _) :=
       wander_loop (Z.of_nat nRows) nCols nRows (wander_step (Z.of_nat nRows) tau) 0 prev rowa st in
     row = 0) /\
  (forall j tau, (2 <= j)%nat -> Z.of_nat nRows = 2 ^ Z.of_nat j ->
     wander_rows nRows nRows (wander_step (Z.of_nat nRows) tau) 0 ≡ₚ seqZ 0 (Z.of_nat nRows)).
Proof.
  intros Hrows Hmax. split.
  - intros nCols tau prev rowa st. destruct (wander_returns nRows Hrows Hmax tau) as (k & Hk & Hz).
    rewrite (wander_loop_fold nRows nCols Hrows nRows _ _ _ _ _ k Hk Hz).
    by destruct (fold_left _ _ _) as [[??]?].
  - intros j tau Hj HR.
    assert (Hj64 : (j <= 64)%nat).
    { destruct (decide (j <= 64)%nat); [done|]. exfalso.
      assert (2 ^ 64 <= 2 ^ Z.of_nat j) by (apply Z.pow_le_mono_r; lia). lia. }
    assert (Hs : Z.Odd (wander_step (Z.of_nat nRows) tau)).
    { unfold wander_step. case_match; [by exists (-1)|].
      assert (E : Z.of_nat nRows / 2 = 2 * 2 ^ (Z.of_nat j - 2)).
      { rewrite HR. replace (Z.of_nat j) with (Z.succ (Z.succ (Z.of_nat j - 2))) at 1 by lia.
        rewrite !Z.pow_succ_r by lia. rewrite Z.mul_comm. by rewrite Z.div_mul. }
      assert (Hb : 0 < 2 ^ (Z.of_nat j - 2)) by lia.
      assert (Z.of_nat nRows / 2 < 2 ^ 63) by (apply Z.div_lt_upper_bound; lia).
      unfold i64. rewrite Z.mod_small by lia. rewrite (proj2 (Z.ltb_lt _ _)) by lia.
      exists (2 ^ (Z.of_nat j - 2) - 1). lia. }
    rewrite HR at 2. rewrite <-(odd_step_permutation j _ Hs).
    pose proof (wander_rows_walk nRows j _ nRows 0 Hj64 HR Hs ltac:(lia) ltac:(lia) ltac:(lia)) as E.
    rewrite Z.mul_0_l, Zmod_0_l in E. rewrite E, HR. done.
Qed.

Lemma wander_walks_witness :
  wander_rows 8 8 (wander_step 8 1) 0 ≡ₚ seqZ 0 8.
Proof.
  refine (proj2 (wander_walks_terminate_and_cover 8 _ _) 3%nat 1 _ _); [lia|lia|lia|reflexivity].
Defined.

(** The step of [-1] is added unsigned, so with a number of rows that does not
    divide 2^64 the walk starts at [(2^64 - 1) mod nRows] and not at the last
    row: for three rows it is back at row 0 at once. *)
Theorem wander_generic_case_skips_rows :
  wander_rows 3 3 (wander_step 3 2) 0 = [0] /\
  wander_rows 6 6 (wander_step 6 2) 0 = [0; 3; 2; 1].
Proof. split; vm_compute; reflexivity. Qed.

(** ** The padded input *)

(** pwd || salt || basil, where the basil is the six integer parameters. *)
Definition lyra2_message (kLen : Z) (pwd salt : list Z) (timeCost nRows nCols : Z) : list Z :=
  pwd ++ salt ++ le_encode 8 kLen ++ le_encode 8 (Z.of_nat (length pwd)) ++
  le_encode 8 (Z.of_nat (length salt)) ++ le_encode 8 timeCost ++ le_encode 8 nRows ++
  le_encode 8 nCols.

(** The padding 10*1 to a multiple of 64 bytes: a byte 0x80, zeros and a final
    byte 0x01, which are the one byte 0x81 when only one byte is missing. *)
Definition pad10_1 (msg : list Z) : list Z :=
  let missing := (64 - length msg mod 64)%nat in
  msg ++ (if (missing =? 1)%nat then [0x81] else 0x80 :: replicate (missing - 2) 0 ++ [0x01]).

(** Copying into the zeroed part of the buffer. *)
Lemma memcpy_fill a r rest e :
  (length e <= r)%nat ->
  memcpy (a ++ replicate r 0 ++ rest) (length a) e = (a ++ e) ++ replicate (r - length e) 0 ++ rest.
Proof.
  intros He. replace r with (length e + (r - length e))%nat at 1 by lia.
  rewrite replicate_add, <-(app_assoc (replicate (length e) 0)).
  rewrite memcpy_app by (by rewrite length_replicate). by rewrite <-app_assoc.
Qed.

Lemma insert_fill a r rest x :
  <[length a := x]> (a ++ replicate (S r) 0 ++ rest) = (a ++ [x]) ++ replicate r 0 ++ rest.
Proof.
  rewrite <-(Nat.add_0_r (length a)). rewrite insert_app_r. cbn [replicate app].
  change (<[0%nat := x]> (0 :: replicate r 0 ++ rest)) with (x :: replicate r 0 ++ rest).
  by rewrite <-app_assoc.
Qed.

Lemma last_byte_xor a r rest :
  let p := (length a + r)%nat in
  <[p := (a ++ replicate (S r) 0 ++ rest).[p] ⊕ 0x01]> (a ++ replicate (S r) 0 ++ rest) =
  a ++ replicate r 0 ++ [0x01] ++ rest.
Proof.
  intros p. subst p. rewrite app_nth2_plus, app_nth1 by (rewrite length_replicate; lia).
  rewrite nth_replicate. cbn [Z.lxor]. rewrite insert_app_r. f_equal.
  rewrite (replicate_S_end r), <-app_assoc.
  rewrite <-(length_replicate r 0) at 1. rewrite <-(Nat.add_0_r (length _)). by rewrite insert_app_r.
Qed.

Section input.
Context (kLen : Z) (pwd salt : list Z) (timeCost nRows nCols : Z).
Local Abbreviation msg := (lyra2_message kLen pwd salt timeCost nRows nCols).
Local Abbreviation n := (nBlocksInput (length pwd) (length salt)).

Lemma message_length : length msg = (length salt + length pwd + 48)%nat.
Proof. unfold lyra2_message. rewrite !length_app, !le_encode_length. lia. Qed.

Lemma blocks_length : (length msg < 64 * n <= length msg + 64)%nat.
Proof.
  rewrite message_length. unfold nBlocksInput, BLOCK_LEN_BLAKE2_SAFE_BYTES.
  pose proof (Nat.div_mod (length salt + length pwd + 6 * 8) 64 ltac:(lia)).
  pose proof (Nat.mod_upper_bound (length salt + length pwd + 6 * 8) 64 ltac:(lia)). lia.
Qed.

Lemma pad_length : length (pad10_1 msg) = (64 * n)%nat.
Proof.
  unfold pad10_1. rewrite length_app. pose proof (Nat.mod_upper_bound (length msg) 64 ltac:(lia)) as Hm.
  pose proof (Nat.div_mod (length msg) 64 ltac:(lia)) as Hd.
  assert (Hn : (64 * n = length msg + (64 - length msg mod 64))%nat).
  { unfold nBlocksInput, BLOCK_LEN_BLAKE2_SAFE_BYTES. rewrite message_length in *.
    change (6 * 8)%nat with 48%nat. lia. }
  destruct (Nat.eqb_spec (64 - length msg mod 64) 1); cbn [length];
    rewrite ?length_app, ?length_replicate; cbn [length]; lia.
Qed.

(** The copies leave the message at the start of the cleared blocks. *)
Lemma prepare_input_layout bytes :
  (64 * n <= length bytes)%nat ->
  prepare_input bytes kLen pwd salt timeCost nRows nCols = pad10_1 msg ++ drop (64 * n) bytes.
Proof.
  intros Hb. pose proof blocks_length as Hn. pose proof message_length as Hml.
  unfold prepare_input. cbv zeta. set (rest := drop (64 * n) bytes).
  assert (E0 : memcpy bytes 0 (replicate (n * BLOCK_LEN_BLAKE2_SAFE_BYTES) 0) =
               [] ++ replicate (64 * n) 0 ++ rest).
  { unfold memcpy, BLOCK_LEN_BLAKE2_SAFE_BYTES. rewrite length_replicate, Nat.mul_comm. done. }
  rewrite E0. set (p0 := @nil Z).
  change (memcpy (p0 ++ replicate (64 * n) 0 ++ rest) 0 pwd) with
    (memcpy (p0 ++ replicate (64 * n) 0 ++ rest) (length p0) pwd).
  rewrite memcpy_fill by lia. cbn [app]. subst p0. cbn [app Nat.add].
  do 7 match goal with
  | |- context [memcpy (?a ++ replicate ?r 0 ++ rest) ?p ?e] =>
      replace (memcpy (a ++ replicate r 0 ++ rest) p e)
        with ((a ++ e) ++ replicate (r - length e) 0 ++ rest)
        by (replace p with (length a) by (rewrite ?length_app, ?le_encode_length; lia);
            symmetry; apply memcpy_fill; rewrite ?le_encode_length; lia)
  end.
  match goal with |- context [<[_ := 128]> (?a ++ replicate ?r 0 ++ rest)] =>
    assert (Ea : a = msg) by (unfold lyra2_message; by rewrite <-!app_assoc);
    assert (Er : r = S (64 * n - length msg - 1))
      by (rewrite Hml, !le_encode_length; lia);
    rewrite Ea, Er; clear Ea Er end.
  match goal with |- context [<[?p := 128]> _] =>
    replace p with (length msg) by (rewrite Hml; lia) end.
  rewrite insert_fill.
  pose proof (Nat.mod_upper_bound (length msg) 64 ltac:(lia)) as Hm.
  pose proof pad_length as Hpl. unfold pad10_1 in Hpl |- *. rewrite length_app in Hpl.
  destruct (Nat.eqb_spec (64 - length msg mod 64) 1) as [E|E]; cbn [length] in Hpl.
  - replace (64 * n - length msg - 1)%nat with 0%nat by lia. cbn [replicate app].
    replace (n * BLOCK_LEN_BLAKE2_SAFE_BYTES - 1)%nat with (length msg + 0)%nat
      by (unfold BLOCK_LEN_BLAKE2_SAFE_BYTES; lia).
    rewrite <-!app_assoc, app_nth2_plus, insert_app_r. reflexivity.
  - rewrite length_app, length_replicate in Hpl. cbn [length] in Hpl.
    replace (64 * n - length msg - 1)%nat with (S (64 - length msg mod 64 - 2)) by lia.
    replace (n * BLOCK_LEN_BLAKE2_SAFE_BYTES - 1)%nat
      with (length (msg ++ [128%Z]) + (64 - length msg mod 64 - 2))%nat
      by (unfold BLOCK_LEN_BLAKE2_SAFE_BYTES; rewrite length_app; cbn [length]; lia).
    rewrite last_byte_xor. rewrite <-!app_assoc. cbn [app]. by rewrite <-!app_assoc.
Qed.
End input.

(** ** The result *)

Lemma state_bytes_length v : length (state_bytes v) = (8 * length v)%nat.
Proof.
  unfold state_bytes. induction v; cbn [flat_map length]; rewrite ?length_app, ?le_encode_length; lia.
Qed.

Lemma state_bytes_bytes v : Forall byte (state_bytes v).
Proof.
  unfold state_bytes. induction v; cbn [flat_map]; [done|]. apply Forall_app.
  auto using le_encode_bytes.
Qed.

Lemma squeeze_blocks_ok n v :
  state_ok v -> let '(v', out) := squeeze_blocks n v in
    state_ok v' /\ length out = (BLOCK_LEN_BYTES * n)%nat /\ Forall byte out.
Proof.
  revert v. induction n as [|n IH]; intros v Hv; cbn [squeeze_blocks].
  { split_and!; [done|by rewrite Nat.mul_0_r|done]. }
  specialize (IH (blake2bLyra v) (blake2bLyra_ok v Hv)).
  destruct (squeeze_blocks n (blake2bLyra v)) as [v' rest]. destruct IH as (Hv' & Hl & Hb).
  split_and!; [done| |].
  - rewrite length_app, length_take, state_bytes_length, (proj1 Hv), Hl. unfold BLOCK_LEN_BYTES. lia.
  - apply Forall_app. split; [apply Forall_take, state_bytes_bytes|done].
Qed.

(** Squeezing gives as many bytes as asked for. *)
Lemma squeeze_ok v len :
  state_ok v -> length (snd (squeeze v len)) = len /\ Forall byte (snd (squeeze v len)).
Proof.
  intros Hv. unfold squeeze. pose proof (squeeze_blocks_ok (len / BLOCK_LEN_BYTES) v Hv) as H.
  destruct (squeeze_blocks _ v) as [v' full]. destruct H as ([Hl Hw] & Hf & Hb). cbn [snd].
  pose proof (Nat.div_mod len BLOCK_LEN_BYTES ltac:(done)).
  pose proof (Nat.mod_upper_bound len BLOCK_LEN_BYTES ltac:(done)).
  unfold BLOCK_LEN_BYTES in *. split.
  - rewrite length_app, length_take, state_bytes_length, Hl. lia.
  - apply Forall_app. split; [done|apply Forall_take, state_bytes_bytes].
Qed.

(** The matrix as words of 64 bits. *)
Lemma load64_many_ok bytes k :
  Forall byte bytes -> (8 * k <= length bytes)%nat ->
  Forall u64w (load64_many bytes k) /\ length (load64_many bytes k) = k.
Proof.
  intros Hb Hl. unfold load64_many. split; [|by rewrite length_map, length_seq].
  apply Forall_forall. intros x (i & -> & Hi%elem_of_seq)%list_elem_of_fmap.
  apply (le_decode_word 8); [by apply Forall_take, Forall_drop|].
  rewrite length_take, length_drop. lia.
Qed.

Lemma pad10_1_bytes msg : Forall byte msg -> Forall byte (pad10_1 msg).
Proof.
  intros Hm. unfold pad10_1. apply Forall_app. split; [done|].
  case_match; repeat (apply Forall_cons; split); try (unfold word; lia); [constructor|].
  apply Forall_app. split; [apply Forall_replicate; unfold word; lia|].
  apply Forall_cons. split; [unfold word; lia|constructor].
Qed.

Lemma lyra2_message_bytes kLen pwd salt timeCost nRows nCols :
  Forall byte pwd -> Forall byte salt -> Forall byte (lyra2_message kLen pwd salt timeCost nRows nCols).
Proof. intros. unfold lyra2_message. rewrite !Forall_app. auto 10 using le_encode_bytes. Qed.

(** Valid arguments: the matrix has room for the padded input and at least
    three rows, and the key length fits an [unsigned int]. *)
Record lyra2_args (kLen : nat) (pwd salt : list Z) (nRows nCols : nat) : Prop := {
  la_rows : (3 <= nRows)%nat;
  la_max : Z.of_nat nRows < 2 ^ 63;
  la_fit : (64 * nBlocksInput (length pwd) (length salt) <= nRows * (BLOCK_LEN_INT64 * nCols * 8))%nat;
  la_key : Z.of_nat kLen < 2 ^ 32;
  la_pwd : Forall byte pwd;
  la_salt : Forall byte salt }.

(** The matrix that holds the padded input. *)
Definition input_matrix (kLen : nat) (pwd salt : list Z) (timeCost nRows nCols : nat) : list Z :=
  let size := (nRows * (BLOCK_LEN_INT64 * nCols * 8))%nat in
  load64_many (prepare_input (replicate size 0) (Z.of_nat kLen) pwd salt
    (Z.of_nat timeCost) (Z.of_nat nRows) (Z.of_nat nCols)) (size / 8).

(** The sponge after absorbing it. *)
Definition input_state (blk : nat) (pwd salt M : list Z) : list Z :=
  fold_left (fun state i => absorbBlockBlake2Safe state M (blk * i))
    (seq 0 (nBlocksInput (length pwd) (length salt))) initState.

(** Everything [LYRA2] computes before squeezing: the final sponge state. *)
Definition lyra2_state (blk : nat) (kLen : nat) (pwd salt : list Z) (timeCost nRows nCols : nat) : list Z :=
  let M := input_matrix kLen pwd salt timeCost nRows nCols in
  let st := reducedSqueezeRow0 (input_state blk pwd salt M, M) (memMatrix nCols 0) nCols in
  let st := reducedDuplexRow1 st (memMatrix nCols 0) (memMatrix nCols 1) nCols in
  let '(v, st) := setup_loop (Z.of_nat nRows) nCols nRows visit0 st in
  let '(_, _, rowa, (state, M)) :=
    time_loop (Z.of_nat nRows) nCols timeCost 1 (0, prev v, rowa v, st) in
  absorbBlock state M (memMatrix nCols rowa).

Lemma input_matrix_ok kLen pwd salt timeCost nRows nCols :
  lyra2_args kLen pwd salt nRows nCols ->
  Forall u64w (input_matrix kLen pwd salt timeCost nRows nCols) /\
  length (input_matrix kLen pwd salt timeCost nRows nCols) = (nRows * (BLOCK_LEN_INT64 * nCols))%nat.
Proof.
  intros [Hrows Hmax Hfit Hkey Hpwd Hsalt]. unfold input_matrix. cbv zeta.
  set (size := (nRows * (BLOCK_LEN_INT64 * nCols * 8))%nat) in *.
  assert (Hsize : (size / 8 = nRows * (BLOCK_LEN_INT64 * nCols))%nat).
  { subst size. rewrite !Nat.mul_assoc. by apply Nat.div_mul. }
  rewrite prepare_input_layout by (by rewrite length_replicate).
  set (bytes := pad10_1 _ ++ _).
  assert (Hb : Forall byte bytes).
  { apply Forall_app. split; [by apply pad10_1_bytes, lyra2_message_bytes|].
    apply Forall_drop, Forall_replicate. unfold word. lia. }
  assert (Hbl : length bytes = size).
  { subst bytes. rewrite length_app, pad_length, length_drop, length_replicate. lia. }
  rewrite <-Hsize. apply load64_many_ok; [done|]. rewrite Hbl. apply Nat.Div0.mul_div_le.
Qed.

Lemma input_state_ok blk pwd salt M : Forall u64w M -> state_ok (input_state blk pwd salt M).
Proof.
  intros HM. unfold input_state. apply (fold_left_inv state_ok); [apply initState_ok|].
  intros. by apply absorbBlockBlake2Safe_ok.
Qed.

Lemma lyra2_state_ok blk kLen pwd salt timeCost nRows nCols :
  lyra2_args kLen pwd salt nRows nCols -> state_ok (lyra2_state blk kLen pwd salt timeCost nRows nCols).
Proof.
  intros Ha. destruct (input_matrix_ok _ _ _ timeCost _ _ Ha) as [HM HMl].
  destruct Ha as [Hrows Hmax _ _ _ _]. unfold lyra2_state. cbv zeta.
  set (M := input_matrix _ _ _ _ _ _) in *.
  assert (Hm0 : mem_ok (nRows * (BLOCK_LEN_INT64 * nCols)) (input_state blk pwd salt M, M))
    by (split_and!; [by apply input_state_ok|done|done]).
  apply (reducedSqueezeRow0_ok _ _ (memMatrix nCols 0) nCols) in Hm0 as [Hm1 _].
  apply (reducedDuplexRow1_ok _ _ (memMatrix nCols 0) (memMatrix nCols 1) nCols) in Hm1 as [Hm2 _].
  pose proof (setup_loop_ends nRows nCols Hrows Hmax nRows 0 _ ltac:(lia) ltac:(lia) Hm2) as Hs.
  change (setup_visit 0) with visit0 in Hs.
  destruct (setup_loop _ _ _ _ _) as [v st3]. destruct Hs as [_ Hm3].
  destruct (time_loop_ok nRows nCols Hrows Hmax timeCost 1 (prev v) (rowa v) st3 Hm3)
    as (prev' & rowa' & [state' M'] & -> & Hs' & HM' & _).
  by apply absorbBlock_ok.
Qed.

Lemma LYRA2_with_success blk alloc K kLen pwd salt timeCost nRows nCols :
  alloc 0%nat = true -> alloc 1%nat = true -> alloc 2%nat = true -> Z.of_nat kLen < 2 ^ 32 ->
  LYRA2_with blk alloc K kLen pwd salt timeCost nRows nCols =
  (memcpy K 0 (snd (squeeze (lyra2_state blk kLen pwd salt timeCost nRows nCols) kLen)), 0, 0%nat).
Proof.
  intros H0 H1 H2 Hk. unfold LYRA2_with, lyra2_state. rewrite H0, H1, H2. cbn [negb].
  rewrite wrap_small by (unfold word; lia). rewrite Nat2Z.id.
  fold (input_matrix kLen pwd salt timeCost nRows nCols).
  set (M := input_matrix _ _ _ _ _ _). fold (input_state blk pwd salt M).
  destruct (setup_loop _ _ _ _ _) as [v st3].
  destruct (time_loop _ _ _ _ _) as [[[? ?] rowa'] [state' M']].
  by destruct (squeeze _ _).
Qed.

(** ** The theorems *)

(** The absorbed input.  Whenever the padded input fits in the matrix, the
    copies and the two padding bytes leave at its start exactly the password,
    the salt and the six parameters followed by the padding 10*1 to the next
    multiple of 64 bytes (the two padding bytes coincide when one byte is
    missing), and the rest of the matrix unchanged. *)
Theorem prepare_input_is_padded kLen pwd salt timeCost nRows nCols bytes :
  let n := nBlocksInput (length pwd) (length salt) in
  (64 * n <= length bytes)%nat ->
  prepare_input bytes kLen pwd salt timeCost nRows nCols =
    pad10_1 (lyra2_message kLen pwd salt timeCost nRows nCols) ++ drop (64 * n) bytes /\
  length (pad10_1 (lyra2_message kLen pwd salt timeCost nRows nCols)) = (64 * n)%nat.
Proof. intros n Hn. split; [by apply prepare_input_layout|apply pad_length]. Qed.

Lemma prepare_input_witness :
  prepare_input (replicate 300 0) 32 (replicate 8 1) (replicate 7 2) 1 4 4 =
    pad10_1 (lyra2_message 32 (replicate 8 1) (replicate 7 2) 1 4 4) ++ drop 64 (replicate 300 0) /\
  length (pad10_1 (lyra2_message 32 (replicate 8 1) (replicate 7 2) 1 4 4)) = 64%nat.
Proof. apply (prepare_input_is_padded 32 (replicate 8 1) (replicate 7 2)). cbn. lia. Defined.

(** The result of [LYRA2].  On valid arguments, when the allocations
    succeed, the call terminates with 0, writes exactly [kLen] bytes to the
    key buffer, which do not depend on its previous contents, and releases all
    its memory. *)
Theorem LYRA2_fills_key alloc kLen pwd salt timeCost nRows nCols :
  lyra2_args kLen pwd salt nRows nCols ->
  alloc 0%nat = true -> alloc 1%nat = true -> alloc 2%nat = true ->
  exists out, length out = kLen /\ Forall byte out /\
    forall K, LYRA2 alloc K kLen pwd salt timeCost nRows nCols = (memcpy K 0 out, 0, 0%nat).
Proof.
  intros Ha H0 H1 H2. pose proof (lyra2_state_ok BLOCK_LEN_BLAKE2_SAFE_INT64 kLen pwd salt timeCost nRows nCols Ha) as Hs.
  exists (snd (squeeze (lyra2_state BLOCK_LEN_BLAKE2_SAFE_INT64 kLen pwd salt timeCost nRows nCols) kLen)).
  destruct (squeeze_ok _ kLen Hs) as [Hl Hb]. split_and!; [done|done|].
  intros K. apply LYRA2_with_success; [done|done|done|apply Ha].
Qed.

Lemma small_args : lyra2_args 32 (replicate 32 1) (replicate 32 2) 8 8.
Proof.
  constructor; [lia|lia|cbn; lia|lia|apply Forall_replicate; unfold word; lia..].
Qed.

Lemma LYRA2_fills_key_witness :
  exists out, length out = 32%nat /\ Forall byte out /\
    forall K, LYRA2 (fun _ => true) K 32 (replicate 32 1) (replicate 32 2) 8 8 8 = (memcpy K 0 out, 0, 0%nat).
Proof. apply LYRA2_fills_key; [exact small_args|reflexivity..]. Defined.

(** Failing allocations.  [LYRA2] returns -1 and leaves the key untouched
    as soon as one of its three allocations fails, but it releases nothing:
    the blocks obtained before the failure are still allocated on return. *)
Theorem LYRA2_leaks_on_failure alloc K kLen pwd salt timeCost nRows nCols i :
  (i < 3)%nat -> alloc i = false -> (forall j, (j < i)%nat -> alloc j = true) ->
  LYRA2 alloc K kLen pwd salt timeCost nRows nCols = (K, -1, i).
Proof.
  intros Hi Hf Ht. unfold LYRA2, LYRA2_with.
  destruct i as [|[|[|i]]]; [| | |lia]; rewrite ?(Ht 0%nat), ?(Ht 1%nat) by lia; by rewrite Hf.
Qed.

Lemma LYRA2_leaks_witness :
  LYRA2 (fun j => (j <? 2)%nat) [9] 1 [] [] 1 4 4 = ([9], -1, 2%nat).
Proof.
  apply (LYRA2_leaks_on_failure (fun j => (j <? 2)%nat) [9] 1 [] [] 1 4 4 2); [lia|reflexivity|].
  intros j Hj. by apply Nat.ltb_lt.
Defined.

Lemma header_args digest : length digest = 32%nat -> Forall byte digest -> lyra2_args 32 digest digest 8 8.
Proof. intros Hl Hb. constructor; [lia|lia|rewrite Hl; cbn; lia|lia|done|done]. Qed.

Lemma sph_enc32be_bytes w : Forall byte (sph_enc32be w).
Proof. repeat constructor; apply wrap_word; lia. Qed.

Lemma blake_digest_256 msg :
  let d := blake_digest small salt_zero IV256 msg 0 0 8 in length d = 32%nat /\ Forall byte d.
Proof.
  intros d. subst d. unfold blake_digest. set (hh := iterate _ _ _ _ _ _).
  cbn [seq flat_map enc small app]. split; [reflexivity|].
  repeat (apply Forall_app; split); apply sph_enc32be_bytes || constructor.
Qed.

Lemma blake256_header ctx input :
  length (ctx_buf ctx) = 64%nat ->
  snd (sph_blake256_close (sph_blake256 (sph_blake256_init ctx) (take 80 input))) =
  blake_digest small salt_zero IV256 (take 80 input) 0 0 8.
Proof.
  intros Hb. destruct (stream_close small ctx IV256 [take 80 input] 0 0 8 Hb ltac:(lia)) as [E _].
  cbn [concat] in E. rewrite app_nil_r in E. rewrite <-E.
  unfold sph_blake256_close, sph_blake256_addbits_and_close, sph_blake256, blake32, blake32_close, sph_blake256_init.
  cbn [feed_all fold_left]. by destruct (blake_close _ _ _ _ _).
Qed.

(** The block header hash.  When memory is available, [lyra2z_hash] writes
    32 bytes that are determined by the 80 bytes of the header: the key that
    Lyra2 (8 rows, 8 columns, time cost 8) derives from the BLAKE-256 digest of
    the header as password and salt.  Neither the uninitialised context nor the
    uninitialised buffer on its stack influences them. *)
Theorem lyra2z_hash_of_header alloc input :
  alloc 0%nat = true -> alloc 1%nat = true -> alloc 2%nat = true ->
  let d := blake_digest small salt_zero IV256 (take 80 input) 0 0 8 in
  exists out, length out = 32%nat /\ Forall byte out /\
    (forall K, LYRA2 alloc K 32 d d 8 8 8 = (memcpy K 0 out, 0, 0%nat)) /\
    forall ctx hashB, length (ctx_buf ctx) = 64%nat -> length hashB = 32%nat ->
      lyra2z_hash alloc ctx hashB input = out.
Proof.
  intros H0 H1 H2 d. destruct (blake_digest_256 (take 80 input)) as [Hl Hb]. fold d in Hl, Hb.
  pose proof (header_args d Hl Hb) as Ha.
  pose proof (lyra2_state_ok BLOCK_LEN_BLAKE2_SAFE_INT64 32 d d 8 8 8 Ha) as Hs.
  destruct (squeeze_ok _ 32 Hs) as [Hol Hob].
  exists (snd (squeeze (lyra2_state BLOCK_LEN_BLAKE2_SAFE_INT64 32 d d 8 8 8) 32)).
  assert (EK : forall K, LYRA2 alloc K 32 d d 8 8 8 =
    (memcpy K 0 (snd (squeeze (lyra2_state BLOCK_LEN_BLAKE2_SAFE_INT64 32 d d 8 8 8) 32)), 0, 0%nat))
    by (intros; apply LYRA2_with_success; done).
  split_and!; [done|done|done|]. intros ctx hashB Hctx HhB. unfold lyra2z_hash.
  pose proof (blake256_header ctx input Hctx) as Ed. fold d in Ed.
  destruct (sph_blake256_close _) as [ctx' hashA]. cbn [snd] in Ed. subst hashA.
  rewrite EK. rewrite memcpy_all by (rewrite Hol; done). apply take_ge. by rewrite Hol.
Qed.

Lemma lyra2z_hash_witness :
  let d := blake_digest small salt_zero IV256 (take 80 (replicate 80 0)) 0 0 8 in
  exists out, length out = 32%nat /\ Forall byte out /\
    (forall K, LYRA2 (fun _ => true) K 32 d d 8 8 8 = (memcpy K 0 out, 0, 0%nat)) /\
    forall ctx hashB, length (ctx_buf ctx) = 64%nat -> length hashB = 32%nat ->
      lyra2z_hash (fun _ => true) ctx hashB (replicate 80 0) = out.
Proof. apply lyra2z_hash_of_header; reflexivity. Defined.

(** The ignored error.  [lyra2z_hash] does not look at the result of
    [LYRA2]: when an allocation fails it outputs its uninitialised stack buffer
    as the hash of the header. *)
Theorem lyra2z_hash_ignores_failure alloc ctx hashB input i :
  (i < 3)%nat -> alloc i = false -> (forall j, (j < i)%nat -> alloc j = true) ->
  lyra2z_hash alloc ctx hashB input = take 32 hashB.
Proof.
  intros Hi Hf Ht. unfold lyra2z_hash. destruct (sph_blake256_close _) as [ctx' hashA].
  unfold LYRA2, LYRA2_with.
  destruct i as [|[|[|i]]]; [| | |lia]; rewrite ?(Ht 0%nat), ?(Ht 1%nat) by lia; by rewrite Hf.
Qed.

Lemma lyra2z_hash_ignores_witness :
  lyra2z_hash (fun _ => false) (raw_context small) (replicate 32 0xcc) (replicate 80 0) =
  take 32 (replicate 32 0xcc).
Proof. apply (lyra2z_hash_ignores_failure _ _ _ _ 0); [lia|reflexivity|lia]. Defined.
