(* ===== verification/Argon2.v ===== *)
(** * Argon2: the memory-hard function of the proof of work

    Models crypto/MerkleTreeProof/core.c, ref.c, ref.h, core.h, argon2.h and
    blake2/blamka-round-ref.h: the Argon2 instance, the compression of blocks
    (with the modification of Merkle tree proof, which mixes the index of the
    reference block and the first hash into every block), the filling of the
    memory segment by segment, input validation, the first hash and the
    finalisation.

    The memory is a list of blocks, a block a list of 128 words.  [uint32_t]
    and [uint64_t] arithmetic is wrapped at its width wherever the code can
    leave it. *)

From S2P Require Import Prelude Words Blake2b.

(** ** Constants and error codes (argon2.h, core.h) *)

Definition ARGON2_MIN_LANES : Z := 1.
Definition ARGON2_MAX_LANES : Z := 0xFFFFFF.
Definition ARGON2_MIN_THREADS : Z := 1.
Definition ARGON2_MAX_THREADS : Z := 0xFFFFFF.
Definition ARGON2_SYNC_POINTS : Z := 4.
Definition ARGON2_MIN_OUTLEN : Z := 4.
Definition ARGON2_MAX_OUTLEN : Z := 0xFFFFFFFF.
Definition ARGON2_MIN_MEMORY : Z := 2 * ARGON2_SYNC_POINTS.
Definition ARGON2_MIN (a b : Z) : Z := if a <? b then a else b.
(** On a machine with 8-byte pointers. *)
Definition ARGON2_MAX_MEMORY_BITS : Z := ARGON2_MIN 32 (8 * 8 - 10 - 1).
Definition ARGON2_MAX_MEMORY : Z := ARGON2_MIN 0xFFFFFFFF (1 ≪ ARGON2_MAX_MEMORY_BITS).
Definition ARGON2_MIN_TIME : Z := 1.
Definition ARGON2_MAX_TIME : Z := 0xFFFFFFFF.
Definition ARGON2_MIN_PWD_LENGTH : Z := 0.
Definition ARGON2_MAX_PWD_LENGTH : Z := 0xFFFFFFFF.
Definition ARGON2_MIN_AD_LENGTH : Z := 0.
Definition ARGON2_MAX_AD_LENGTH : Z := 0xFFFFFFFF.
Definition ARGON2_MIN_SALT_LENGTH : Z := 8.
Definition ARGON2_MAX_SALT_LENGTH : Z := 0xFFFFFFFF.
Definition ARGON2_MIN_SECRET : Z := 0.
Definition ARGON2_MAX_SECRET : Z := 0xFFFFFFFF.
Definition ARGON2_FLAG_CLEAR_PASSWORD : Z := 1 ≪ 0.
Definition ARGON2_FLAG_CLEAR_SECRET : Z := 1 ≪ 1.

Definition ARGON2_BLOCK_SIZE : Z := 1024.
Definition ARGON2_QWORDS_IN_BLOCK : nat := 128.
Definition ARGON2_PREHASH_DIGEST_LENGTH : nat := 64.
Definition ARGON2_PREHASH_SEED_LENGTH : nat := 72.

Inductive argon2_error_codes :=
  | ARGON2_OK
  | ARGON2_OUTPUT_PTR_NULL
  | ARGON2_OUTPUT_TOO_SHORT | ARGON2_OUTPUT_TOO_LONG
  | ARGON2_PWD_TOO_SHORT | ARGON2_PWD_TOO_LONG
  | ARGON2_SALT_TOO_SHORT | ARGON2_SALT_TOO_LONG
  | ARGON2_AD_TOO_SHORT | ARGON2_AD_TOO_LONG
  | ARGON2_SECRET_TOO_SHORT | ARGON2_SECRET_TOO_LONG
  | ARGON2_TIME_TOO_SMALL | ARGON2_TIME_TOO_LARGE
  | ARGON2_MEMORY_TOO_LITTLE | ARGON2_MEMORY_TOO_MUCH
  | ARGON2_LANES_TOO_FEW | ARGON2_LANES_TOO_MANY
  | ARGON2_PWD_PTR_MISMATCH | ARGON2_SALT_PTR_MISMATCH
  | ARGON2_SECRET_PTR_MISMATCH | ARGON2_AD_PTR_MISMATCH
  | ARGON2_MEMORY_ALLOCATION_ERROR
  | ARGON2_FREE_MEMORY_CBK_NULL | ARGON2_ALLOCATE_MEMORY_CBK_NULL
  | ARGON2_INCORRECT_PARAMETER | ARGON2_INCORRECT_TYPE
  | ARGON2_OUT_PTR_MISMATCH
  | ARGON2_THREADS_TOO_FEW | ARGON2_THREADS_TOO_MANY
  | ARGON2_MISSING_ARGS | ARGON2_ENCODING_FAIL | ARGON2_DECODING_FAIL
  | ARGON2_THREAD_FAIL | ARGON2_DECODING_LENGTH_FAIL | ARGON2_VERIFY_MISMATCH.

#[export] Instance argon2_error_codes_eq_dec : EqDecision argon2_error_codes.
Proof. solve_decision. Defined.

Inductive argon2_type := Argon2_d | Argon2_i | Argon2_id.
Definition type_code (ty : argon2_type) : Z :=
  match ty with Argon2_d => 0 | Argon2_i => 1 | Argon2_id => 2 end.

Definition ARGON2_VERSION_10 : Z := 0x10.
Definition ARGON2_VERSION_13 : Z := 0x13.

(** The context: inputs given as pointers (null is [None]) with lengths; the
    callbacks are present or not. *)
Record argon2_context := mk_argon2_context {
  out : option (list Z); outlen : Z;
  pwd : option (list Z); pwdlen : Z;
  salt : option (list Z); saltlen : Z;
  secret : option (list Z); secretlen : Z;
  ad : option (list Z); adlen : Z;
  t_cost : Z; m_cost : Z; ctx_lanes : Z; ctx_threads : Z; ctx_version : Z;
  allocate_cbk : bool; free_cbk : bool; flags : Z }.

Abbreviation block := (list Z).

(** The fields the functions read; the blocks that [memory] points to are
    threaded explicitly, as an argument and a result of the functions. *)
Record argon2_instance_t := mk_instance {
  version : Z; passes : Z; memory_blocks : Z;
  segment_length : Z; lane_length : Z; lanes : Z; threads : Z;
  type : argon2_type; hash_zero : list Z }.

Record argon2_position_t := mk_position { pass : Z; lane : Z; slice : Z; index : Z }.

(** ** Blocks *)

Definition init_block_value (x : Z) : block :=
  replicate ARGON2_QWORDS_IN_BLOCK (le_decode (replicate 8 x)).

Definition copy_block (src : block) : block := take ARGON2_QWORDS_IN_BLOCK src.

Definition xor_block (dst src : block) : block := zip_with Z.lxor dst src.

Definition load_block (input : list Z) : block :=
  map (fun i => load64 (drop (i * 8) input)) (seq 0 ARGON2_QWORDS_IN_BLOCK).

Definition store_block (src : block) : list Z :=
  flat_map (fun i => store64 src.[i]) (seq 0 ARGON2_QWORDS_IN_BLOCK).

(** ** The round function (blamka-round-ref.h) *)

Definition fBlaMka (x y : Z) : Z :=
  let m := 0xFFFFFFFF in
  let xy := u64 (Z.land x m * Z.land y m) in
  u64 (x + y + 2 * xy).

(** The macro [G] on the words at four places of a block. *)
Definition blamka_G (a b c d : nat) (v : block) : block :=
  let v := <[a := fBlaMka v.[a] v.[b]]> v in
  let v := <[d := rotr64 (v.[d] ⊕ v.[a]) 32]> v in
  let v := <[c := fBlaMka v.[c] v.[d]]> v in
  let v := <[b := rotr64 (v.[b] ⊕ v.[c]) 24]> v in
  let v := <[a := fBlaMka v.[a] v.[b]]> v in
  let v := <[d := rotr64 (v.[d] ⊕ v.[a]) 16]> v in
  let v := <[c := fBlaMka v.[c] v.[d]]> v in
  <[b := rotr64 (v.[b] ⊕ v.[c]) 63]> v.

(** The macro [BLAKE2_ROUND_NOMSG]; [p i] is the place of its [i]-th argument. *)
Definition BLAKE2_ROUND_NOMSG (p : nat -> nat) (v : block) : block :=
  let v := blamka_G (p 0%nat) (p 4%nat) (p 8%nat) (p 12%nat) v in
  let v := blamka_G (p 1%nat) (p 5%nat) (p 9%nat) (p 13%nat) v in
  let v := blamka_G (p 2%nat) (p 6%nat) (p 10%nat) (p 14%nat) v in
  let v := blamka_G (p 3%nat) (p 7%nat) (p 11%nat) (p 15%nat) v in
  let v := blamka_G (p 0%nat) (p 5%nat) (p 10%nat) (p 15%nat) v in
  let v := blamka_G (p 1%nat) (p 6%nat) (p 11%nat) (p 12%nat) v in
  let v := blamka_G (p 2%nat) (p 7%nat) (p 8%nat) (p 13%nat) v in
  blamka_G (p 3%nat) (p 4%nat) (p 9%nat) (p 14%nat) v.

(** "Apply Blake2 on columns", then "on rows". *)
Definition column_rounds (v : block) : block :=
  fold_left (fun v i => BLAKE2_ROUND_NOMSG (fun j => 16 * i + j)%nat v) (seq 0 8) v.
Definition row_rounds (v : block) : block :=
  fold_left (fun v i => BLAKE2_ROUND_NOMSG (fun j => 2 * i + 16 * (j / 2) + j mod 2)%nat v) (seq 0 8) v.

(** ** Filling a block (ref.c, ref.h) *)

(** The new contents of [next_block]. *)
Definition fill_block (prev_block ref_block next_block : block) (with_xor : bool) : block :=
  let blockR := copy_block ref_block in
  let blockR := xor_block blockR prev_block in
  let block_tmp := copy_block blockR in
  let block_tmp := if with_xor then xor_block block_tmp next_block else block_tmp in
  let blockR := column_rounds blockR in
  let blockR := row_rounds blockR in
  xor_block (copy_block block_tmp) blockR.

Definition fill_block_mtp (prev_block ref_block next_block : block) (with_xor : bool)
    (block_index : Z) (hash_zero : list Z) : block :=
  let blockR := copy_block ref_block in
  let blockR := xor_block blockR prev_block in
  let block_tmp := copy_block blockR in
  let block_tmp := if with_xor then xor_block block_tmp next_block else block_tmp in
  let the_index := le_encode 4 0 ++ le_encode 4 block_index in
  let blockR := <[14%nat := le_decode the_index]> blockR in
  let blockR := <[16%nat := le_decode (take 8 hash_zero)]> blockR in
  let blockR := <[17%nat := le_decode (take 8 (drop 8 hash_zero))]> blockR in
  let blockR := <[18%nat := le_decode (take 8 (drop 16 hash_zero))]> blockR in
  let blockR := <[19%nat := le_decode (take 8 (drop 24 hash_zero))]> blockR in
  let blockR := column_rounds blockR in
  let blockR := row_rounds blockR in
  xor_block (copy_block block_tmp) blockR.

(** The address and the input block after [next_addresses]. *)
Definition next_addresses (address_block input_block zero_block : block) : block * block :=
  let input_block := <[6%nat := u64 (input_block.[6] + 1)]> input_block in
  let address_block := fill_block zero_block input_block address_block false in
  let address_block := fill_block zero_block address_block address_block false in
  (address_block, input_block).

(** ** The reference block (core.c) *)

Definition reference_area_size (inst : argon2_instance_t) (pos : argon2_position_t)
    (same_lane : bool) : Z :=
  if 0 =? pass pos then
    if 0 =? slice pos then u32 (index pos - 1)
    else if same_lane then u32 (u32 (u32 (slice pos * segment_length inst) + index pos) - 1)
    else u32 (u32 (slice pos * segment_length inst) + (if index pos =? 0 then -1 else 0))
  else if same_lane then u32 (u32 (u32 (lane_length inst - segment_length inst) + index pos) - 1)
  else u32 (u32 (lane_length inst - segment_length inst) + (if index pos =? 0 then -1 else 0)).

(** The variable [relative_position], after its three assignments. *)
Definition relative_position (area pseudo_rand : Z) : Z :=
  let relative_position := pseudo_rand in
  let relative_position := u64 (relative_position * relative_position) ≫ 32 in
  u64 (u32 (area - 1) - (u64 (area * relative_position) ≫ 32)).

Definition start_position (inst : argon2_instance_t) (pos : argon2_position_t) : Z :=
  if negb (0 =? pass pos) then
    if slice pos =? ARGON2_SYNC_POINTS - 1 then 0 else u32 ((slice pos + 1) * segment_length inst)
  else 0.

Definition index_alpha (inst : argon2_instance_t) (pos : argon2_position_t)
    (pseudo_rand : Z) (same_lane : bool) : Z :=
  let relative_position := relative_position (reference_area_size inst pos same_lane) pseudo_rand in
  u32 (u64 (start_position inst pos + relative_position) mod lane_length inst).

(** ** Filling a segment (ref.c) *)

(** The local variables of the loop and the memory. *)
Record seg_state := mk_seg { seg_mem : list block; curr_offset : Z; prev_offset : Z }.

Definition block_at (mem : list block) (i : Z) : block := nth (Z.to_nat i) mem [].

(** One iteration of the loop, for block [i] of the segment. *)
Definition fill_segment_step (inst : argon2_instance_t) (pos : argon2_position_t)
    (st : seg_state) (i : Z) : seg_state :=
  let prev_offset :=
    if curr_offset st mod lane_length inst =? 1 then u32 (curr_offset st - 1) else prev_offset st in
  let pseudo_rand := (block_at (seg_mem st) prev_offset).[0] in
  let ref_lane := (pseudo_rand ≫ 32) mod lanes inst in
  let ref_lane := if (pass pos =? 0) && (slice pos =? 0) then lane pos else ref_lane in
  let pos := mk_position (pass pos) (lane pos) (slice pos) i in
  let ref_index := index_alpha inst pos (Z.land pseudo_rand 0xFFFFFFFF) (ref_lane =? lane pos) in
  let ref_offset := u64 (lane_length inst * ref_lane + ref_index) in
  let ref_block := block_at (seg_mem st) ref_offset in
  let curr_block := block_at (seg_mem st) (curr_offset st) in
  let with_xor := if version inst =? ARGON2_VERSION_10 then false else negb (pass pos =? 0) in
  let new_block := fill_block_mtp (block_at (seg_mem st) prev_offset) ref_block curr_block with_xor
                     (u32 ref_offset) (take ARGON2_PREHASH_SEED_LENGTH (hash_zero inst)) in
  mk_seg (<[Z.to_nat (curr_offset st) := new_block]> (seg_mem st))
    (u32 (curr_offset st + 1)) (u32 (prev_offset + 1)).

Definition starting_index (pos : argon2_position_t) : Z :=
  if (0 =? pass pos) && (0 =? slice pos) then 2 else 0.

Definition data_independent_addressing (inst : argon2_instance_t) (pos : argon2_position_t) : bool :=
  match type inst with
  | Argon2_i => true
  | Argon2_id => (pass pos =? 0) && (slice pos <? ARGON2_SYNC_POINTS / 2)
  | Argon2_d => false
  end.

(** The local [input_block]: left uninitialised ([garbage]) unless addressing is
    to be data independent. *)
Definition prepare_input_block (inst : argon2_instance_t) (pos : argon2_position_t)
    (garbage : block) : block :=
  if data_independent_addressing inst pos then
    let b := init_block_value 0 in
    let b := <[0%nat := pass pos]> b in
    let b := <[1%nat := lane pos]> b in
    let b := <[2%nat := slice pos]> b in
    let b := <[3%nat := memory_blocks inst]> b in
    let b := <[4%nat := passes inst]> b in
    <[5%nat := type_code (type inst)]> b
  else garbage.

(** Offset of the first block to fill, and of the block before it. *)
Definition first_offset (inst : argon2_instance_t) (pos : argon2_position_t) : Z :=
  u32 (u32 (u32 (lane pos * lane_length inst) + u32 (slice pos * segment_length inst))
       + starting_index pos).
Definition first_prev (inst : argon2_instance_t) (curr : Z) : Z :=
  if 0 =? curr mod lane_length inst then u32 (u32 (curr + lane_length inst) - 1) else u32 (curr - 1).

(** The memory after [fill_segment_mtp] and the local [input_block]. *)
Definition fill_segment_locals (inst : argon2_instance_t) (pos : argon2_position_t)
    (garbage : block) (mem : list block) : list block * block :=
  let input_block := prepare_input_block inst pos garbage in
  let curr := first_offset inst pos in
  let st := fold_left (fill_segment_step inst pos)
    (seqZ (starting_index pos) (segment_length inst - starting_index pos))
    (mk_seg mem curr (first_prev inst curr)) in
  (seg_mem st, input_block).

Definition fill_segment_mtp (inst : argon2_instance_t) (pos : argon2_position_t)
    (mem : list block) : list block := fst (fill_segment_locals inst pos [] mem).

(** ** Filling the memory (core.c) *)

(** The memory after the single-threaded version. *)
Definition fill_memory_blocks_st_mtp (inst : argon2_instance_t) (mem : list block) : list block :=
  fold_left (fun mem r =>
    fold_left (fun mem s =>
      fold_left (fun mem l => fill_segment_mtp inst (mk_position r l (u8 s) 0) mem)
        (seqZ 0 (lanes inst)) mem)
      (seqZ 0 ARGON2_SYNC_POINTS) mem)
    (seqZ 0 (passes inst)) mem.
