(* ===== verification/Argon2Core.v ===== *)
(** * Argon2Core: setting an Argon2 instance up and reading its result

    Models the rest of crypto/MerkleTreeProof/core.c: allocation and release of
    the memory, wiping, input validation, the first hash of all the inputs, the
    first two blocks of every lane, and finalisation.

    [malloc] and the callbacks of the context are arguments: an allocator maps
    the old value of the pointer and a size to its new value, [None] being a
    null pointer and [Some mem] a pointer to blocks of arbitrary contents. *)

From S2P Require Import Prelude Words Blake2b Argon2.

(** ** Memory functions *)

Abbreviation allocator := (option (list block) -> Z -> option (list block)).

Definition allocate_memory (ctx : argon2_context) (cbk malloc : allocator)
    (memory : option (option (list block))) (num size : Z)
  : argon2_error_codes * option (option (list block)) :=
  let memory_size := u64 (num * size) in
  match memory with
  | None => (ARGON2_MEMORY_ALLOCATION_ERROR, None)
  | Some target =>
      if negb (size =? 0) && negb (memory_size / size =? num)
      then (ARGON2_MEMORY_ALLOCATION_ERROR, Some target) else
      let target := if allocate_cbk ctx then cbk target memory_size else malloc target memory_size in
      match target with
      | None => (ARGON2_MEMORY_ALLOCATION_ERROR, Some None)
      | Some m => (ARGON2_OK, Some (Some m))
      end
  end.

(** The bytes at [v] after [memset(v, 0, n)]. *)
Definition secure_wipe_memory (v : list Z) (n : Z) : list Z :=
  replicate (Z.to_nat n) 0 ++ drop (Z.to_nat n) v.

Definition clear_internal_memory (FLAG_clear_internal_memory : bool) (v : option (list Z)) (n : Z)
  : option (list Z) :=
  match v with
  | Some v => Some (if FLAG_clear_internal_memory then secure_wipe_memory v n else v)
  | None => None
  end.

(** What is given back: through the callback or [free], with which bytes. *)
Record release := mk_release { by_callback : bool; released : option (list Z); released_size : Z }.

Definition free_memory (FLAG : bool) (ctx : argon2_context) (memory : option (list Z)) (num size : Z)
  : release :=
  let memory_size := u64 (num * size) in
  mk_release (free_cbk ctx) (clear_internal_memory FLAG memory memory_size) memory_size.

(** ** Finalisation *)

Definition set_out (ctx : argon2_context) (o : option (list Z)) : argon2_context :=
  mk_argon2_context o (outlen ctx) (pwd ctx) (pwdlen ctx) (salt ctx) (saltlen ctx)
    (secret ctx) (secretlen ctx) (ad ctx) (adlen ctx) (t_cost ctx) (m_cost ctx)
    (ctx_lanes ctx) (ctx_threads ctx) (ctx_version ctx) (allocate_cbk ctx) (free_cbk ctx) (flags ctx).

(** The XOR of the last blocks of the lanes. *)
Definition last_blocks (inst : argon2_instance_t) (mem : list block) : block :=
  fold_left (fun blockhash l =>
      let last_block_in_lane := u32 (u32 (l * lane_length inst) + u32 (lane_length inst - 1)) in
      xor_block blockhash (block_at mem last_block_in_lane))
    (seqZ 1 (lanes inst - 1)) (copy_block (block_at mem (lane_length inst - 1))).

(** The context and what was released; null arguments do nothing.  The bytes of
    the memory are those of its blocks. *)
Definition finalize (FLAG : bool) (ctx : option argon2_context)
    (inst : option (argon2_instance_t * list block)) : option argon2_context * option release :=
  match ctx, inst with
  | Some ctx, Some (inst, mem) =>
      let blockhash := last_blocks inst mem in
      let blockhash_bytes := store_block blockhash in
      let o := match out ctx with
               | Some o => Some (fst (blake2b_long o (outlen ctx) (Some blockhash_bytes) ARGON2_BLOCK_SIZE))
               | None => None
               end in
      (Some (set_out ctx o),
       Some (free_memory FLAG ctx (Some (flat_map store_block mem)) (memory_blocks inst) ARGON2_BLOCK_SIZE))
  | _, _ => (ctx, None)
  end.

(** ** Validation of the inputs *)

Definition is_null {A} (p : option A) : bool := match p with None => true | Some _ => false end.

Definition validate_inputs (context : option argon2_context) : argon2_error_codes :=
  match context with
  | None => ARGON2_INCORRECT_PARAMETER
  | Some context =>
      if is_null (out context) then ARGON2_OUTPUT_PTR_NULL else
      (* output length *)
      if outlen context <? ARGON2_MIN_OUTLEN then ARGON2_OUTPUT_TOO_SHORT else
      if ARGON2_MAX_OUTLEN <? outlen context then ARGON2_OUTPUT_TOO_LONG else
      (* password *)
      if is_null (pwd context) && negb (0 =? pwdlen context) then ARGON2_PWD_PTR_MISMATCH else
      if pwdlen context <? ARGON2_MIN_PWD_LENGTH then ARGON2_PWD_TOO_SHORT else
      if ARGON2_MAX_PWD_LENGTH <? pwdlen context then ARGON2_PWD_TOO_LONG else
      (* salt *)
      if is_null (salt context) && negb (0 =? saltlen context) then ARGON2_SALT_PTR_MISMATCH else
      if saltlen context <? ARGON2_MIN_SALT_LENGTH then ARGON2_SALT_TOO_SHORT else
      if ARGON2_MAX_SALT_LENGTH <? saltlen context then ARGON2_SALT_TOO_LONG else
      (* secret *)
      if is_null (secret context) && negb (0 =? secretlen context) then ARGON2_SECRET_PTR_MISMATCH else
      if negb (is_null (secret context)) && (secretlen context <? ARGON2_MIN_SECRET)
      then ARGON2_SECRET_TOO_SHORT else
      if negb (is_null (secret context)) && (ARGON2_MAX_SECRET <? secretlen context)
      then ARGON2_SECRET_TOO_LONG else
      (* associated data *)
      if is_null (ad context) && negb (0 =? adlen context) then ARGON2_AD_PTR_MISMATCH else
      if negb (is_null (ad context)) && (adlen context <? ARGON2_MIN_AD_LENGTH)
      then ARGON2_AD_TOO_SHORT else
      if negb (is_null (ad context)) && (ARGON2_MAX_AD_LENGTH <? adlen context)
      then ARGON2_AD_TOO_LONG else
      (* memory cost *)
      if m_cost context <? ARGON2_MIN_MEMORY then ARGON2_MEMORY_TOO_LITTLE else
      if ARGON2_MAX_MEMORY <? m_cost context then ARGON2_MEMORY_TOO_MUCH else
      if m_cost context <? u32 (8 * ctx_lanes context) then ARGON2_MEMORY_TOO_LITTLE else
      (* time cost *)
      if t_cost context <? ARGON2_MIN_TIME then ARGON2_TIME_TOO_SMALL else
      if ARGON2_MAX_TIME <? t_cost context then ARGON2_TIME_TOO_LARGE else
      (* lanes *)
      if ctx_lanes context <? ARGON2_MIN_LANES then ARGON2_LANES_TOO_FEW else
      if ARGON2_MAX_LANES <? ctx_lanes context then ARGON2_LANES_TOO_MANY else
      (* threads *)
      if ctx_threads context <? ARGON2_MIN_THREADS then ARGON2_THREADS_TOO_FEW else
      if ARGON2_MAX_THREADS <? ctx_threads context then ARGON2_THREADS_TOO_MANY else
      if allocate_cbk context && negb (free_cbk context) then ARGON2_FREE_MEMORY_CBK_NULL else
      if negb (allocate_cbk context) && free_cbk context then ARGON2_ALLOCATE_MEMORY_CBK_NULL else
      ARGON2_OK
  end.

(** ** The first blocks of the lanes *)

(** The seed buffer and the memory, for lane [l]. *)
Definition fill_first_lane (inst : argon2_instance_t) (st : list Z * list Z * list block) (l : Z)
  : list Z * list Z * list block :=
  let '(blockhash, bytes, mem) := st in
  let blockhash := memcpy blockhash ARGON2_PREHASH_DIGEST_LENGTH (store32 0) in
  let blockhash := memcpy blockhash (ARGON2_PREHASH_DIGEST_LENGTH + 4) (store32 l) in
  let bytes := fst (blake2b_long bytes ARGON2_BLOCK_SIZE (Some blockhash) 72) in
  let mem := <[Z.to_nat (u32 (u32 (l * lane_length inst) + 0)) := load_block bytes]> mem in
  let blockhash := memcpy blockhash ARGON2_PREHASH_DIGEST_LENGTH (store32 1) in
  let bytes := fst (blake2b_long bytes ARGON2_BLOCK_SIZE (Some blockhash) 72) in
  let mem := <[Z.to_nat (u32 (u32 (l * lane_length inst) + 1)) := load_block bytes]> mem in
  (blockhash, bytes, mem).

(** [garbage] is the initial contents of the local [blockhash_bytes]. *)
Definition fill_first_blocks (garbage : list Z) (blockhash : list Z) (inst : argon2_instance_t)
    (mem : list block) : list Z * list block :=
  let '(blockhash, _, mem) :=
    fold_left (fill_first_lane inst) (seqZ 0 (lanes inst)) (blockhash, garbage, mem) in
  (blockhash, mem).

(** ** The first hash *)

Definition clear_pwd (ctx : argon2_context) : argon2_context :=
  mk_argon2_context (out ctx) (outlen ctx)
    (match pwd ctx with Some p => Some (secure_wipe_memory p (pwdlen ctx)) | None => None end) 0
    (salt ctx) (saltlen ctx) (secret ctx) (secretlen ctx) (ad ctx) (adlen ctx) (t_cost ctx) (m_cost ctx)
    (ctx_lanes ctx) (ctx_threads ctx) (ctx_version ctx) (allocate_cbk ctx) (free_cbk ctx) (flags ctx).

Definition clear_secret (ctx : argon2_context) : argon2_context :=
  mk_argon2_context (out ctx) (outlen ctx) (pwd ctx) (pwdlen ctx) (salt ctx) (saltlen ctx)
    (match secret ctx with Some p => Some (secure_wipe_memory p (secretlen ctx)) | None => None end) 0
    (ad ctx) (adlen ctx) (t_cost ctx) (m_cost ctx)
    (ctx_lanes ctx) (ctx_threads ctx) (ctx_version ctx) (allocate_cbk ctx) (free_cbk ctx) (flags ctx).

(** [store32(&value, x); blake2b_update(&BlakeHash, &value, sizeof(value))]. *)
Definition update_u32 (st : option blake2b_state) (x : Z) : option blake2b_state :=
  fst (blake2b_update st (Some (store32 x)) 4).

Definition update_buffer (st : option blake2b_state) (p : option (list Z)) (n : Z) : option blake2b_state :=
  match p with Some _ => fst (blake2b_update st p n) | None => st end.

(** The buffer [blockhash] and the context after the call. *)
Definition initial_hash (blockhash : option (list Z)) (context : option argon2_context)
    (ty : argon2_type) : option (list Z) * option argon2_context :=
  match context, blockhash with
  | Some ctx, Some bh =>
      let st := fst (blake2b_init (Some zeroed) 64) in
      let st := update_u32 st (ctx_lanes ctx) in
      let st := update_u32 st (outlen ctx) in
      let st := update_u32 st (m_cost ctx) in
      let st := update_u32 st (t_cost ctx) in
      let st := update_u32 st (ctx_version ctx) in
      let st := update_u32 st (type_code ty) in
      let st := update_u32 st (pwdlen ctx) in
      let st := update_buffer st (pwd ctx) (pwdlen ctx) in
      let ctx := if negb (is_null (pwd ctx)) && negb (Z.land (flags ctx) ARGON2_FLAG_CLEAR_PASSWORD =? 0)
                 then clear_pwd ctx else ctx in
      let st := update_u32 st (saltlen ctx) in
      let st := update_buffer st (salt ctx) (saltlen ctx) in
      let st := update_u32 st (secretlen ctx) in
      let st := update_buffer st (secret ctx) (secretlen ctx) in
      let ctx := if negb (is_null (secret ctx)) && negb (Z.land (flags ctx) ARGON2_FLAG_CLEAR_SECRET =? 0)
                 then clear_secret ctx else ctx in
      let st := update_u32 st (adlen ctx) in
      let st := update_buffer st (ad ctx) (adlen ctx) in
      let '(_, bh, _) := blake2b_final st (Some bh) 64 in
      (bh, Some ctx)
  | _, _ => (blockhash, context)
  end.

(** ** Initialisation of an instance *)

(** What the call leaves: the return code, the instance, the memory and the
    context. *)
Record init_result := mk_init_result {
  init_code : argon2_error_codes; init_instance : option argon2_instance_t;
  init_memory : option (list block); init_context : option argon2_context }.

Definition set_hash_zero (inst : argon2_instance_t) (h0 : list Z) : argon2_instance_t :=
  mk_instance (version inst) (passes inst) (memory_blocks inst) (segment_length inst)
    (lane_length inst) (lanes inst) (threads inst) (type inst) h0.

(** [blockhash0] and [bytes0] are the initial contents of the local buffers
    [blockhash] and, in [fill_first_blocks], [blockhash_bytes]. *)
Definition initialize (FLAG : bool) (cbk malloc : allocator) (blockhash0 bytes0 : list Z)
    (instance : option argon2_instance_t) (memory : option (list block))
    (context : option argon2_context) : init_result :=
  match instance, context with
  | Some inst, Some ctx =>
      match allocate_memory ctx cbk malloc (Some memory) (memory_blocks inst) ARGON2_BLOCK_SIZE with
      | (ARGON2_OK, Some (Some mem)) =>
          let '(bh, ctx) := initial_hash (Some blockhash0) (Some ctx) (type inst) in
          let bh := default [] bh in
          let tail := clear_internal_memory FLAG (Some (drop ARGON2_PREHASH_DIGEST_LENGTH bh)) 8 in
          let bh := take ARGON2_PREHASH_DIGEST_LENGTH bh ++ default [] tail in
          let inst := set_hash_zero inst (take ARGON2_PREHASH_SEED_LENGTH bh) in
          let '(_, mem) := fill_first_blocks bytes0 bh inst mem in
          mk_init_result ARGON2_OK (Some inst) (Some mem) ctx
      | (result, mem) => mk_init_result result (Some inst) (default None mem) (Some ctx)
      end
  | _, _ => mk_init_result ARGON2_INCORRECT_PARAMETER instance memory context
  end.
