(* ===== verification/Argon2Threads.v ===== *)
(** * Argon2Threads: filling the memory with one thread per lane

    Models [fill_memory_blocks_mt_mtp], [fill_segment_thr] and
    [fill_memory_blocks_mtp] of crypto/MerkleTreeProof/core.c as a machine of
    interleaved steps: the main thread runs through its calls of
    [argon2_thread_create] and [argon2_thread_join], and every created thread
    first reads its position from the shared array [thr_data], then fills its
    segment one block at a time in the shared memory.  Threads are kept in a
    pool in the order of their creation; the array [thread] holds, per lane, the
    place of the last one created for it.

    The operating system is nondeterministic: any thread may run next, and a
    call of [argon2_thread_create] or [argon2_thread_join] may fail. *)

From stdpp Require Import gmap.
From S2P Require Import Prelude Words Blake2b Argon2.

(** ** The calls of the main thread *)

Inductive thread_event :=
  | ThreadCreate (pos : argon2_position_t)
  | ThreadJoin (l : Z)
  | MainReturn.

(** The calls for slice [s] of pass [r]. *)
Definition mt_slice_events (inst : argon2_instance_t) (r s : Z) : list thread_event :=
  flat_map (fun l =>
      (if threads inst <=? l then [ThreadJoin (u32 (l - threads inst))] else []) ++
      [ThreadCreate (mk_position r l (u8 s) 0)])
    (seqZ 0 (lanes inst)) ++
  map ThreadJoin (seqZ (u32 (lanes inst - threads inst))
                    (lanes inst - u32 (lanes inst - threads inst))).

(** The passes and their slices, in order. *)
Definition all_slices (inst : argon2_instance_t) : list (Z * Z) :=
  flat_map (fun r => map (fun s => (r, s)) (seqZ 0 ARGON2_SYNC_POINTS)) (seqZ 0 (passes inst)).

Definition mt_program (inst : argon2_instance_t) (slices : list (Z * Z)) : list thread_event :=
  flat_map (fun '(r, s) => mt_slice_events inst r s) slices ++ [MainReturn].

(** ** Threads *)

(** A thread that has not yet read [thr_data[l]]; one in the loop of
    [fill_segment_mtp], with its local variables and the indices to come. *)
Inductive thread_t :=
  | Spawned (l : Z)
  | Running (pos : argon2_position_t) (curr prev : Z) (todo : list Z).

Definition finished (th : thread_t) : Prop :=
  match th with Running _ _ _ [] => True | _ => False end.

(** The entry of [fill_segment_mtp]. *)
Definition enter_segment (inst : argon2_instance_t) (pos : argon2_position_t) : thread_t :=
  let curr := first_offset inst pos in
  Running pos curr (first_prev inst curr)
    (seqZ (starting_index pos) (segment_length inst - starting_index pos)).

(** ** The machine *)

Record mt_state := mk_mt {
  mt_mem : list block;                          (* instance->memory *)
  mt_main : list thread_event;                  (* what the main thread has still to do *)
  mt_data : option (gmap Z argon2_position_t);  (* thr_data; [None] once freed *)
  mt_handle : gmap Z nat;                       (* the array thread *)
  mt_pool : list thread_t;
  mt_rc : argon2_error_codes }.

(** After the two calls of [calloc], which may fail. *)
Definition mt_start (inst : argon2_instance_t) (calloc_thread calloc_data : bool)
    (mem : list block) : mt_state :=
  if negb calloc_thread || negb calloc_data
  then mk_mt mem [] None ∅ [] ARGON2_MEMORY_ALLOCATION_ERROR
  else mk_mt mem (mt_program inst (all_slices inst)) (Some ∅) ∅ [] ARGON2_OK.

Inductive mt_step (inst : argon2_instance_t) : mt_state -> mt_state -> Prop :=
  | step_create mem pos evs data handle pool rc :
      mt_step inst (mk_mt mem (ThreadCreate pos :: evs) (Some data) handle pool rc)
        (mk_mt mem evs (Some (<[lane pos := pos]> data)) (<[lane pos := length pool]> handle)
           (pool ++ [Spawned (lane pos)]) rc)
  | step_create_fails mem pos evs data handle pool rc :
      mt_step inst (mk_mt mem (ThreadCreate pos :: evs) (Some data) handle pool rc)
        (mk_mt mem [] None handle pool ARGON2_THREAD_FAIL)
  | step_join mem l evs data handle pool rc tid th :
      handle !! l = Some tid -> pool !! tid = Some th -> finished th ->
      mt_step inst (mk_mt mem (ThreadJoin l :: evs) data handle pool rc)
        (mk_mt mem evs data handle pool rc)
  | step_join_fails mem l evs data handle pool rc :
      mt_step inst (mk_mt mem (ThreadJoin l :: evs) data handle pool rc)
        (mk_mt mem [] None handle pool ARGON2_THREAD_FAIL)
  | step_return mem evs data handle pool rc :
      mt_step inst (mk_mt mem (MainReturn :: evs) data handle pool rc)
        (mk_mt mem [] None handle pool rc)
  | step_begin mem evs data handle pool rc tid l pos :
      pool !! tid = Some (Spawned l) -> data !! l = Some pos ->
      mt_step inst (mk_mt mem evs (Some data) handle pool rc)
        (mk_mt mem evs (Some data) handle (<[tid := enter_segment inst pos]> pool) rc)
  | step_fill mem evs data handle pool rc tid pos curr prev i todo :
      pool !! tid = Some (Running pos curr prev (i :: todo)) ->
      let st := fill_segment_step inst pos (mk_seg mem curr prev) i in
      mt_step inst (mk_mt mem evs data handle pool rc)
        (mk_mt (seg_mem st) evs data handle
           (<[tid := Running pos (curr_offset st) (prev_offset st) todo]> pool) rc).

Definition mt_reachable (inst : argon2_instance_t) (calloc_thread calloc_data : bool)
    (mem : list block) (st : mt_state) : Prop :=
  rtc (mt_step inst) (mt_start inst calloc_thread calloc_data mem) st.

(** The possible results of [fill_memory_blocks_mtp]: return code and memory. *)
Inductive fill_memory_blocks_mtp (mem : list block) :
    option argon2_instance_t -> argon2_error_codes -> list block -> Prop :=
  | fill_null : fill_memory_blocks_mtp mem None ARGON2_INCORRECT_PARAMETER mem
  | fill_no_lanes inst : lanes inst = 0 ->
      fill_memory_blocks_mtp mem (Some inst) ARGON2_INCORRECT_PARAMETER mem
  | fill_single inst : lanes inst <> 0 -> threads inst = 1 ->
      fill_memory_blocks_mtp mem (Some inst) ARGON2_OK (fill_memory_blocks_st_mtp inst mem)
  | fill_multi inst c1 c2 st : lanes inst <> 0 -> threads inst <> 1 ->
      mt_reachable inst c1 c2 mem st -> mt_main st = [] ->
      fill_memory_blocks_mtp mem (Some inst) (mt_rc st) (mt_mem st).
