(* ===== verification/Argon2Index.v ===== *)
(** * Argon2Index: which block a block may reference

    The geometry of a well-formed instance (lanes cut in four slices of
    segments), the offsets [fill_segment_mtp] walks through, and the set of
    blocks [index_alpha] can choose.

    [fill_segment_mtp] as a sequence of block writes at known offsets, what each
    write may read, and the result of filling a slice: lanes do not see each
    other's current segment, so the order between lanes does not matter. *)

From S2P Require Import Prelude Words Blake2b Argon2.

(** ** Well-formed instances and positions *)

(** What the callers establish: four segments of at least two blocks per lane,
    block numbers within 32 bits. *)
Record instance_ok (inst : argon2_instance_t) : Prop := {
  ok_segment : 2 <= segment_length inst;
  ok_lane : lane_length inst = ARGON2_SYNC_POINTS * segment_length inst;
  ok_lanes : 1 <= lanes inst;
  ok_size : lanes inst * lane_length inst < 2 ^ 32 }.

Record position_ok (inst : argon2_instance_t) (pos : argon2_position_t) : Prop := {
  ok_pass : 0 <= pass pos;
  ok_pos_lane : 0 <= lane pos < lanes inst;
  ok_slice : 0 <= slice pos < ARGON2_SYNC_POINTS }.

(** The block number of place [j] of lane [l]. *)
Definition at_lane (inst : argon2_instance_t) (l j : Z) : Z := l * lane_length inst + j.

(** Whether block number [k] lies in the current segment of lane [l]. *)
Definition in_segment (inst : argon2_instance_t) (l s k : Z) : Prop :=
  at_lane inst l (s * segment_length inst) <= k < at_lane inst l ((s + 1) * segment_length inst).

#[export] Instance in_segment_dec inst l s k : Decision (in_segment inst l s k).
Proof. unfold in_segment. apply _. Defined.

(** ** The reference area *)

(** The number of blocks that may be referenced. *)
Definition area_size (inst : argon2_instance_t) (pos : argon2_position_t) (same_lane : bool) : Z :=
  if pass pos =? 0 then
    if slice pos =? 0 then index pos - 1
    else if same_lane then slice pos * segment_length inst + index pos - 1
    else slice pos * segment_length inst - (if index pos =? 0 then 1 else 0)
  else if same_lane then 3 * segment_length inst + index pos - 1
  else 3 * segment_length inst - (if index pos =? 0 then 1 else 0).

(** Where it starts: at the lane's first block in the first pass, after the
    current segment later. *)
Definition area_start (inst : argon2_instance_t) (pos : argon2_position_t) : Z :=
  if pass pos =? 0 then 0 else (slice pos + 1) * segment_length inst.

(** The mapping of RFC 9106: the [x]-th last block of the area, where [x] is
    [pseudo_rand] squared and scaled. *)
Definition scaled (area pseudo_rand : Z) : Z := area * (pseudo_rand * pseudo_rand / 2 ^ 32) / 2 ^ 32.

Lemma scaled_bounds area pr : 0 < area -> 0 <= pr < 2 ^ 32 -> 0 <= scaled area pr < area.
Proof.
  intros Ha Hp. unfold scaled. set (x := pr * pr / 2 ^ 32).
  assert (0 <= x < 2 ^ 32).
  { unfold x. split; [apply Z.div_pos; nia |]. apply Z.div_lt_upper_bound; nia. }
  split; [apply Z.div_pos; nia |]. apply Z.div_lt_upper_bound; nia.
Qed.

Lemma starting_index_cases pos :
  pass pos = 0 /\ slice pos = 0 /\ starting_index pos = 2 \/
  (pass pos <> 0 \/ slice pos <> 0) /\ starting_index pos = 0.
Proof.
  unfold starting_index. destruct (Z.eqb_spec 0 (pass pos)), (Z.eqb_spec 0 (slice pos)); cbn; lia.
Qed.

Lemma area_size_bounds inst pos same :
  instance_ok inst -> position_ok inst pos ->
  starting_index pos <= index pos < segment_length inst ->
  0 < area_size inst pos same < lane_length inst.
Proof.
  intros [? HL ? ?] [? ? ?] Hi. unfold area_size, ARGON2_SYNC_POINTS in *. rewrite HL.
  pose proof (starting_index_cases pos).
  destruct (Z.eqb_spec (pass pos) 0), (Z.eqb_spec (slice pos) 0), same, (Z.eqb_spec (index pos) 0); nia.
Qed.

(** None of the 32- and 64-bit operations of [index_alpha] wraps. *)
Lemma reference_area_size_spec inst pos same :
  instance_ok inst -> position_ok inst pos ->
  starting_index pos <= index pos < segment_length inst ->
  reference_area_size inst pos same = area_size inst pos same.
Proof.
  intros HI HP Hi. pose proof (area_size_bounds inst pos same HI HP Hi) as Ha.
  destruct HI as [Hseg HL Hln Hsz], HP as [Hps Hpl Hsl].
  assert (lane_length inst < 2 ^ 32) by nia. pose proof (starting_index_cases pos).
  unfold reference_area_size, area_size, ARGON2_SYNC_POINTS in *.
  rewrite (Z.eqb_sym 0 (pass pos)), (Z.eqb_sym 0 (slice pos)).
  assert (0 <= slice pos * segment_length inst <= 3 * segment_length inst) by nia.
  destruct (Z.eqb_spec (pass pos) 0), (Z.eqb_spec (slice pos) 0), same, (Z.eqb_spec (index pos) 0);
    unwrap; lia.
Qed.

Lemma relative_position_spec area pr :
  0 < area < 2 ^ 32 -> 0 <= pr < 2 ^ 32 -> relative_position area pr = area - 1 - scaled area pr.
Proof.
  intros Ha Hpr. pose proof (scaled_bounds area pr (proj1 Ha) Hpr). unfold relative_position.
  rewrite (wrap_small 64 (pr * pr)), (Z.shiftr_div_pow2 (pr * pr)) by (unfold word; nia).
  unfold scaled in *. set (x := pr * pr / 2 ^ 32) in *.
  assert (0 <= x < 2 ^ 32).
  { unfold x. split; [apply Z.div_pos; nia |]. apply Z.div_lt_upper_bound; nia. }
  rewrite (wrap_small 64 (area * x)), Z.shiftr_div_pow2 by (unfold word; nia).
  rewrite (wrap_small 32) by (unfold word; lia). apply wrap_small. unfold word. lia.
Qed.

(** Later passes start after the current segment, at the lane's first block
    when that is the last one. *)
Lemma start_position_spec inst pos :
  instance_ok inst -> position_ok inst pos ->
  0 <= start_position inst pos < lane_length inst /\
  start_position inst pos mod lane_length inst = area_start inst pos mod lane_length inst.
Proof.
  intros [Hseg HL Hln Hsz] [Hps Hpl Hsl]. assert (lane_length inst < 2 ^ 32) by nia.
  unfold start_position, area_start, ARGON2_SYNC_POINTS in *. rewrite (Z.eqb_sym 0 (pass pos)).
  destruct (Z.eqb_spec (pass pos) 0); cbn [negb]; [split; [lia | reflexivity] |].
  destruct (Z.eqb_spec (slice pos) (4 - 1)) as [E|].
  - rewrite E. replace ((4 - 1 + 1) * segment_length inst) with (lane_length inst) by lia.
    rewrite Z.mod_same by lia. split; [lia | reflexivity].
  - rewrite wrap_small by (unfold word; nia). split; [nia | reflexivity].
Qed.

(** [index_alpha] is the mapping of RFC 9106. *)
Lemma index_alpha_spec inst pos pr same :
  instance_ok inst -> position_ok inst pos ->
  starting_index pos <= index pos < segment_length inst -> 0 <= pr < 2 ^ 32 ->
  index_alpha inst pos pr same =
  (area_start inst pos + (area_size inst pos same - 1 - scaled (area_size inst pos same) pr))
  mod lane_length inst.
Proof.
  intros HI HP Hi Hpr. pose proof (area_size_bounds inst pos same HI HP Hi) as Ha.
  pose proof (start_position_spec inst pos HI HP) as [Hst Est].
  pose proof (scaled_bounds _ pr (proj1 Ha) Hpr).
  assert (lane_length inst < 2 ^ 32) by (destruct HI; nia).
  unfold index_alpha. rewrite reference_area_size_spec, relative_position_spec by (auto; lia).
  rewrite (wrap_small 64) by (unfold word; lia).
  rewrite <- Z.add_mod_idemp_l, Est, Z.add_mod_idemp_l by lia.
  apply wrap_small. unfold word.
  match goal with |- context [?a mod ?b] => pose proof (Z.mod_pos_bound a b) end. lia.
Qed.

(** ** What can be referenced *)

(** The first place, relative to the start of the current segment, that may not
    be referenced: the previous block in the same lane; in another lane the
    segment itself, and for its first block the one before. *)
Definition first_forbidden (pos : argon2_position_t) (same_lane : bool) : Z :=
  if same_lane || ((pass pos =? 0) && (slice pos =? 0)) then index pos - 1
  else if index pos =? 0 then -1 else 0.

Lemma mod_inj L a x y : 0 <= x < L -> 0 <= y < L -> (a + x) mod L = (a + y) mod L -> x = y.
Proof.
  intros Hx Hy E. assert (E' : (x - y) mod L = 0).
  { replace (x - y) with ((a + x) - (a + y)) by lia. rewrite Zminus_mod, E, Z.sub_diag. apply Z.mod_0_l. lia. }
  apply Z.mod_divide in E' as [q Hq]; [|lia]. assert (q = 0) by nia. nia.
Qed.

Lemma index_alpha_allowed inst pos pr same j :
  instance_ok inst -> position_ok inst pos ->
  starting_index pos <= index pos < segment_length inst -> 0 <= pr < 2 ^ 32 ->
  first_forbidden pos same <= j < segment_length inst ->
  index_alpha inst pos pr same <> (slice pos * segment_length inst + j) mod lane_length inst.
Proof.
  intros HI HP Hi Hpr Hj. rewrite index_alpha_spec by auto.
  pose proof (area_size_bounds inst pos same HI HP Hi) as Ha.
  pose proof (scaled_bounds _ pr (proj1 Ha) Hpr) as Hx. pose proof (starting_index_cases pos).
  set (x := area_size inst pos same - 1 - _) in *.
  assert (Hx' : 0 <= x < area_size inst pos same) by lia. clearbody x.
  destruct HI as [Hseg HL Hln Hsz], HP as [Hps Hpl Hsl].
  unfold area_start, area_size, first_forbidden, ARGON2_SYNC_POINTS in *.
  destruct (Z.eqb_spec (pass pos) 0) as [Hp|Hp]; cbn [andb orb] in *.
  - intros E. apply (mod_inj _ 0 x (slice pos * segment_length inst + j)) in E;
      destruct (Z.eqb_spec (slice pos) 0), same, (Z.eqb_spec (index pos) 0); cbn [andb orb] in *; nia.
  - rewrite orb_false_r in Hj.
    replace (slice pos * segment_length inst + j)
      with ((slice pos + 1) * segment_length inst + (j + 3 * segment_length inst) + (-1) * lane_length inst) by lia.
    rewrite Z.mod_add by lia. intros E. apply mod_inj in E;
      destruct same, (Z.eqb_spec (index pos) 0); lia.
Qed.

Lemma index_alpha_range inst pos pr same :
  instance_ok inst -> 0 <= index_alpha inst pos pr same < lane_length inst.
Proof.
  intros [Hseg HL Hln Hsz]. unfold index_alpha, ARGON2_SYNC_POINTS in *.
  match goal with |- context [?a mod lane_length inst] =>
    pose proof (Z.mod_pos_bound a (lane_length inst)) end.
  rewrite wrap_small; unfold word; nia.
Qed.

(** In the first pass only blocks already filled are referenced. *)
Lemma index_alpha_first_pass inst pos pr same :
  instance_ok inst -> position_ok inst pos ->
  starting_index pos <= index pos < segment_length inst -> 0 <= pr < 2 ^ 32 -> pass pos = 0 ->
  index_alpha inst pos pr same < slice pos * segment_length inst + first_forbidden pos same.
Proof.
  intros HI HP Hi Hpr H0. rewrite index_alpha_spec by auto.
  pose proof (area_size_bounds inst pos same HI HP Hi) as Ha.
  pose proof (scaled_bounds _ pr (proj1 Ha) Hpr) as Hx.
  set (x := area_size inst pos same - 1 - _) in *.
  assert (Hx' : 0 <= x < area_size inst pos same) by lia. clearbody x.
  unfold area_start, area_size, first_forbidden in *. rewrite H0 in *. cbn [Z.eqb andb] in *.
  rewrite Z.add_0_l, Z.mod_small by lia.
  destruct (Z.eqb_spec (slice pos) 0), same, (Z.eqb_spec (index pos) 0); cbn [orb] in *; lia.
Qed.

(** C38: the reference block that [index_alpha] chooses, for any well-formed
    instance, any position that [fill_segment_mtp] visits and any pseudo-random
    value.  It is the mapping of RFC 9106 without wrap-around; it lies in the
    lane; it is neither the block being written, nor the previous one, nor a
    block of the current segment still to be written; in another lane it is
    outside the segment being filled; and in the first pass it is a block
    already filled. *)
Theorem index_alpha_references_finished_blocks inst pos pr same :
  instance_ok inst -> position_ok inst pos ->
  starting_index pos <= index pos < segment_length inst -> 0 <= pr < 2 ^ 32 ->
  let a := area_size inst pos same in
  let r := index_alpha inst pos pr same in
  r = (area_start inst pos + (a - 1 - a * (pr * pr / 2 ^ 32) / 2 ^ 32)) mod lane_length inst /\
  0 <= r < lane_length inst /\
  (forall j, first_forbidden pos same <= j < segment_length inst ->
     r <> (slice pos * segment_length inst + j) mod lane_length inst) /\
  (pass pos = 0 -> r < slice pos * segment_length inst + first_forbidden pos same).
Proof.
  intros HI HP Hi Hpr a r. split; [exact (index_alpha_spec _ _ _ _ HI HP Hi Hpr) |].
  split; [exact (index_alpha_range _ _ _ _ HI) |].
  split; [intros; apply index_alpha_allowed; auto | intros; apply index_alpha_first_pass; auto].
Qed.

(** The instance of the proof of work: one pass, four lanes, 4 GiB. *)
Definition mtp_instance (hash_zero : list Z) : argon2_instance_t :=
  mk_instance ARGON2_VERSION_13 1 4194304 262144 1048576 4 4 Argon2_d hash_zero.

Lemma mtp_instance_ok h0 : instance_ok (mtp_instance h0).
Proof. split; cbn; unfold ARGON2_SYNC_POINTS; lia. Qed.

Lemma index_alpha_references_witness :
  index_alpha (mtp_instance []) (mk_position 0 2 1 7) 0x80000000 true = 196612 /\
  196612 < 262144 + 6.
Proof.
  pose proof (index_alpha_references_finished_blocks (mtp_instance []) (mk_position 0 2 1 7) 0x80000000 true
    (mtp_instance_ok []) ltac:(split; cbn; unfold ARGON2_SYNC_POINTS; lia)
    ltac:(cbn; lia) ltac:(lia)) as (E & _ & _ & H).
  assert (R : index_alpha (mtp_instance []) (mk_position 0 2 1 7) 0x80000000 true = 196612) by (rewrite E; reflexivity).
  split; [exact R |]. rewrite <- R. exact (H eq_refl).
Defined.

Section slice.
Context (inst : argon2_instance_t) (HI : instance_ok inst).
Abbreviation L := (lane_length inst).
Abbreviation seg := (segment_length inst).

(** ** Offsets *)

Definition curr_of (pos : argon2_position_t) (i : Z) : Z := at_lane inst (lane pos) (slice pos * seg + i).
Definition prev_of (pos : argon2_position_t) (i : Z) : Z :=
  at_lane inst (lane pos) ((slice pos * seg + i - 1) mod L).

(** The block number of the reference for the pseudo-random word [pr]. *)
Definition ref_lane_of (pos : argon2_position_t) (pr : Z) : Z :=
  if (pass pos =? 0) && (slice pos =? 0) then lane pos else (pr ≫ 32) mod lanes inst.
Definition ref_of (pos : argon2_position_t) (i pr : Z) : Z :=
  at_lane inst (ref_lane_of pos pr)
    (index_alpha inst (mk_position (pass pos) (lane pos) (slice pos) i) (Z.land pr 0xFFFFFFFF)
       (ref_lane_of pos pr =? lane pos)).

(** The block written at index [i] of the segment, and the write. *)
Definition new_block (pos : argon2_position_t) (i : Z) (mem : list block) : block :=
  let prev := block_at mem (prev_of pos i) in
  let ref := ref_of pos i prev.[0] in
  fill_block_mtp prev (block_at mem ref) (block_at mem (curr_of pos i))
    (negb (version inst =? ARGON2_VERSION_10) && negb (pass pos =? 0)) ref
    (take ARGON2_PREHASH_SEED_LENGTH (hash_zero inst)).
Definition write_block (pos : argon2_position_t) (mem : list block) (i : Z) : list block :=
  <[Z.to_nat (curr_of pos i) := new_block pos i mem]> mem.

Lemma geometry : 8 <= L < 2 ^ 32 /\ L = 4 * seg /\ 1 <= lanes inst.
Proof. destruct HI as [? H ? ?]. unfold ARGON2_SYNC_POINTS in H. nia. Qed.

Lemma at_lane_bounds l j : 0 <= l < lanes inst -> 0 <= j < L ->
  0 <= at_lane inst l j < lanes inst * L /\ lanes inst * L < 2 ^ 32.
Proof. pose proof geometry. destruct HI. unfold at_lane. nia. Qed.

Lemma at_lane_inj l l' j j' : 0 <= j < L -> 0 <= j' < L ->
  at_lane inst l j = at_lane inst l' j' -> l = l' /\ j = j'.
Proof. unfold at_lane. intros. assert (l = l') by nia. subst. lia. Qed.

Lemma at_lane_mod l j : 0 <= j < L -> at_lane inst l j mod L = j.
Proof. intros. unfold at_lane. rewrite Z.add_comm, Z.mod_add by lia. apply Z.mod_small. lia. Qed.

Lemma ref_lane_range pos pr : position_ok inst pos -> 0 <= ref_lane_of pos pr < lanes inst.
Proof.
  intros [? ? ?]. unfold ref_lane_of. destruct (_ && _); [lia |].
  apply Z.mod_pos_bound. pose proof geometry. lia.
Qed.

Lemma ref_range pos i pr : position_ok inst pos -> 0 <= ref_of pos i pr < 2 ^ 32.
Proof.
  intros Hp. pose proof (ref_lane_range pos pr Hp). unfold ref_of.
  match goal with |- context [at_lane inst ?l ?j] =>
    pose proof (at_lane_bounds l j ltac:(auto) (index_alpha_range _ _ _ _ HI)) end. lia.
Qed.

(** One iteration of the loop is a write at [curr_of], reading at [prev_of]. *)
Lemma fill_segment_step_write pos mem i prev :
  position_ok inst pos -> 0 <= i < seg ->
  prev = prev_of pos i \/ slice pos * seg + i = 1 ->
  fill_segment_step inst pos (mk_seg mem (curr_of pos i) prev) i =
  mk_seg (write_block pos mem i) (curr_of pos i + 1) (prev_of pos i + 1).
Proof.
  intros Hp Hi Hprev. pose proof geometry as (G1 & G2 & G3). pose proof Hp as [P1 P2 P3].
  unfold ARGON2_SYNC_POINTS in P3.
  assert (Hj : 0 <= slice pos * seg + i < L) by nia.
  pose proof (at_lane_bounds _ _ P2 Hj) as Hc. fold (curr_of pos i) in Hc.
  assert (Hm : 0 <= (slice pos * seg + i - 1) mod L < L) by (apply Z.mod_pos_bound; lia).
  pose proof (at_lane_bounds _ _ P2 Hm) as Hv. fold (prev_of pos i) in Hv.
  unfold fill_segment_step. cbn [curr_offset prev_offset seg_mem pass slice lane].
  match goal with |- context [if ?a then u32 ?b else prev] =>
    assert (Ep : (if a then u32 b else prev) = prev_of pos i) end.
  { unfold curr_of. rewrite at_lane_mod by lia.
    destruct (Z.eqb_spec (slice pos * seg + i) 1) as [E|]; [|intuition].
    unfold prev_of. rewrite E, Z.mod_small by lia. unfold curr_of, at_lane in *.
    rewrite wrap_small by (unfold word; nia). lia. }
  rewrite Ep. clear Ep. set (p := block_at mem (prev_of pos i)).
  fold (ref_lane_of pos p.[0]).
  pose proof (ref_range pos i p.[0] Hp) as Hr.
  match goal with |- context [u64 ?e] => assert (Er : u64 e = ref_of pos i p.[0]) end.
  { rewrite wrap_small; unfold ref_of, at_lane, word in *; rewrite (Z.mul_comm L); lia. }
  rewrite Er, !wrap_small by (unfold word; lia).
  unfold write_block, new_block. fold p.
  f_equal. f_equal. f_equal. destruct (version inst =? _); reflexivity.
Qed.

Lemma prev_of_next pos i : position_ok inst pos -> 0 <= i < seg ->
  prev_of pos i + 1 = prev_of pos (i + 1) \/ slice pos * seg + (i + 1) = 1.
Proof.
  intros [? ? P3] Hi. pose proof geometry. unfold ARGON2_SYNC_POINTS in P3.
  destruct (decide (slice pos * seg + i = 0)); [right; lia | left].
  unfold prev_of, at_lane. rewrite !Z.mod_small by nia. lia.
Qed.

Lemma fill_segment_fold pos n i mem prev :
  position_ok inst pos -> 0 <= i -> i + Z.of_nat n <= seg ->
  prev = prev_of pos i \/ slice pos * seg + i = 1 ->
  seg_mem (fold_left (fill_segment_step inst pos) (seqZ i (Z.of_nat n)) (mk_seg mem (curr_of pos i) prev)) =
  fold_left (write_block pos) (seqZ i (Z.of_nat n)) mem.
Proof.
  intros Hp. revert i mem prev. induction n as [|n IH]; intros i mem prev Hi Hn Hprev; [reflexivity |].
  rewrite seqZ_cons by lia. cbn [fold_left].
  replace (Z.pred (Z.of_nat (S n))) with (Z.of_nat n) by lia. rewrite fill_segment_step_write by (auto; lia).
  replace (curr_of pos i + 1) with (curr_of pos (Z.succ i)) by (unfold curr_of, at_lane; lia).
  apply IH; [lia | lia |]. apply prev_of_next; [auto | lia].
Qed.

(** The indices of a segment that are to be written. *)
Definition indices (pos : argon2_position_t) : list Z := seqZ (starting_index pos) (seg - starting_index pos).

Lemma indices_of_nat pos : indices pos = seqZ (starting_index pos) (Z.of_nat (Z.to_nat (seg - starting_index pos))).
Proof.
  unfold indices. destruct HI as [H2 _ _ _].
  pose proof (starting_index_cases pos). f_equal. lia.
Qed.

Lemma first_offset_curr pos : position_ok inst pos -> first_offset inst pos = curr_of pos (starting_index pos).
Proof.
  intros Hp. pose proof geometry. pose proof Hp as [P1 P2 P3]. unfold ARGON2_SYNC_POINTS in P3.
  pose proof (starting_index_cases pos).
  assert (Hb : 0 <= slice pos * seg + starting_index pos < L) by nia.
  pose proof (at_lane_bounds _ _ P2 Hb) as Hc.
  unfold first_offset. unfold curr_of, at_lane in *. unwrap; nia.
Qed.

Lemma first_prev_prev pos : position_ok inst pos ->
  first_prev inst (curr_of pos (starting_index pos)) = prev_of pos (starting_index pos).
Proof.
  intros Hp. pose proof geometry as (G1 & G2 & G3). pose proof Hp as [P1 P2 P3].
  unfold ARGON2_SYNC_POINTS in P3. pose proof (starting_index_cases pos) as Hs.
  assert (Hb : 0 <= slice pos * seg + starting_index pos < L) by nia.
  pose proof (at_lane_bounds _ _ P2 Hb) as Hc.
  unfold first_prev, prev_of, curr_of. rewrite at_lane_mod by lia.
  set (j := slice pos * seg + starting_index pos) in *. rewrite Z.eqb_sym.
  destruct (Z.eqb_spec j 0) as [E|E].
  - rewrite E. replace ((0 - 1) mod L) with (L - 1)
      by (rewrite <- (Z.mod_small (L - 1) L), <- (Z.mod_add (0 - 1) 1 L) by lia; f_equal; lia).
    pose proof (at_lane_bounds _ (L - 1) P2). unfold at_lane in *. unwrap; lia.
  - rewrite Z.mod_small by lia. unfold at_lane in *. unwrap; nia.
Qed.

Lemma fill_segment_writes pos mem : position_ok inst pos ->
  fill_segment_mtp inst pos mem = fold_left (write_block pos) (indices pos) mem.
Proof.
  intros Hp. destruct HI as [H2 _ _ _]. pose proof (starting_index_cases pos).
  unfold fill_segment_mtp, fill_segment_locals. cbn [fst].
  rewrite first_offset_curr, first_prev_prev by auto. fold (indices pos). rewrite indices_of_nat.
  apply fill_segment_fold; [auto | lia | lia | auto].
Qed.

(** ** What a write reads *)

(** A block of the current slice that belongs to another lane. *)
Definition foreign (l s k : Z) : Prop := exists l', l' <> l /\ in_segment inst l' s k.

Definition agree_except (l s : Z) (m1 m2 : list block) : Prop :=
  forall k, 0 <= k -> ~ foreign l s k -> block_at m1 k = block_at m2 k.

Lemma in_segment_place l s k : 0 <= s < 4 -> in_segment inst l s k ->
  exists j, k = at_lane inst l j /\ s * seg <= j < (s + 1) * seg /\ 0 <= j < L.
Proof.
  intros Hs H. pose proof geometry. exists (k - l * L). unfold in_segment, at_lane in *. nia.
Qed.

Lemma own_not_foreign pos j : position_ok inst pos -> 0 <= j < L ->
  ~ foreign (lane pos) (slice pos) (at_lane inst (lane pos) j).
Proof.
  intros [? ? P3] Hj (l' & Hne & Hin). apply in_segment_place in Hin as (j' & E & _ & Hj'); [|exact P3].
  apply at_lane_inj in E; [|auto|auto]. lia.
Qed.

Lemma curr_range pos i : position_ok inst pos -> 0 <= i < seg ->
  0 <= slice pos * seg + i < L.
Proof. intros [? ? P3] Hi. pose proof geometry. unfold ARGON2_SYNC_POINTS in P3. nia. Qed.

(** The reference is never in the segment another lane is filling. *)
Lemma ref_not_foreign pos i pr : position_ok inst pos -> starting_index pos <= i < seg ->
  ~ foreign (lane pos) (slice pos) (ref_of pos i pr).
Proof.
  intros Hp Hi. pose proof geometry. unfold ref_of.
  set (pos' := mk_position (pass pos) (lane pos) (slice pos) i).
  assert (Hp' : position_ok inst pos') by (destruct Hp; split; auto).
  assert (Hpr : 0 <= Z.land pr 0xFFFFFFFF < 2 ^ 32).
  { replace 0xFFFFFFFF with (Z.ones 32) by reflexivity. rewrite Z.land_ones by lia. apply Z.mod_pos_bound. lia. }
  pose proof (index_alpha_range inst pos' (Z.land pr 0xFFFFFFFF) (ref_lane_of pos pr =? lane pos) HI) as Hr.
  destruct (Z.eqb_spec (ref_lane_of pos pr) (lane pos)) as [->|Hne]; [apply own_not_foreign; auto |].
  intros (l' & Hl & Hin). apply in_segment_place in Hin as (j' & E & Hj1 & Hj'); [|apply Hp].
  apply at_lane_inj in E as [_ E]; [|auto|auto].
  refine (index_alpha_allowed inst pos' _ false (j' - slice pos * seg) HI Hp' Hi Hpr _ _).
  - unfold first_forbidden. cbn. destruct ((pass pos =? 0) && (slice pos =? 0)) eqn:Ez; [|destruct (i =? 0); lia].
    exfalso. apply Hne. unfold ref_lane_of. rewrite Ez. reflexivity.
  - rewrite E. cbn [slice pos']. replace (slice pos * seg + _) with j' by lia. symmetry. apply Z.mod_small. lia.
Qed.

(** So a write does not depend on the other lanes' current segments. *)
Lemma new_block_frame pos i m1 m2 : position_ok inst pos -> starting_index pos <= i < seg ->
  agree_except (lane pos) (slice pos) m1 m2 -> new_block pos i m1 = new_block pos i m2.
Proof.
  intros Hp Hi Ha. pose proof (starting_index_cases pos). pose proof geometry.
  pose proof (curr_range pos i Hp ltac:(lia)) as Hc.
  assert (Hm : 0 <= (slice pos * seg + i - 1) mod L < L) by (apply Z.mod_pos_bound; lia).
  assert (E1 : block_at m1 (prev_of pos i) = block_at m2 (prev_of pos i)).
  { apply Ha; [apply at_lane_bounds; [apply Hp | auto] | apply own_not_foreign; auto]. }
  assert (E2 : block_at m1 (curr_of pos i) = block_at m2 (curr_of pos i)).
  { apply Ha; [apply at_lane_bounds; [apply Hp | auto] | apply own_not_foreign; auto]. }
  unfold new_block. rewrite E1, E2. set (r := ref_of pos i _).
  assert (E3 : block_at m1 r = block_at m2 r).
  { apply Ha; [apply ref_range; auto | apply ref_not_foreign; auto]. }
  rewrite E3. reflexivity.
Qed.

(** ** A slice *)

Section lanes.
Context (r s : Z) (Hr : 0 <= r) (Hs : 0 <= s < ARGON2_SYNC_POINTS).

Definition lane_pos (l : Z) : argon2_position_t := mk_position r l s 0.

Lemma lane_pos_ok l : 0 <= l < lanes inst -> position_ok inst (lane_pos l).
Proof. split; auto. Qed.

(** How many writes a lane has to do. *)
Definition writes : nat := length (indices (lane_pos 0)).

Lemma indices_writes l : length (indices (lane_pos l)) = writes.
Proof. reflexivity. Qed.

Lemma indices_lookup l n i : indices (lane_pos l) !! n = Some i ->
  starting_index (lane_pos l) <= i < seg.
Proof. intros H. apply list_elem_of_lookup_2, elem_of_seqZ in H. lia. Qed.

(** Lane [l] after [n] writes, running alone. *)
Definition lane_run (l : Z) (n : nat) (mem : list block) : list block :=
  fold_left (write_block (lane_pos l)) (take n (indices (lane_pos l))) mem.

Lemma lane_run_S l n i mem : indices (lane_pos l) !! n = Some i ->
  lane_run l (S n) mem = write_block (lane_pos l) (lane_run l n mem) i.
Proof. intros H. unfold lane_run. rewrite (take_S_r _ _ _ H), fold_left_app. reflexivity. Qed.

Lemma block_at_write pos mem i k : position_ok inst pos -> 0 <= i < seg -> 0 <= k ->
  lanes inst * L <= Z.of_nat (length mem) ->
  block_at (write_block pos mem i) k =
  if decide (k = curr_of pos i) then new_block pos i mem else block_at mem k.
Proof.
  intros Hp Hi Hk Hlen. pose proof (curr_range pos i Hp Hi) as Hc.
  pose proof (at_lane_bounds _ _ (ok_pos_lane _ _ Hp) Hc) as Hb. fold (curr_of pos i) in Hb.
  unfold block_at, write_block. rewrite !nth_lookup.
  destruct (decide _) as [->|Hne].
  - rewrite list_lookup_insert_eq by lia. reflexivity.
  - rewrite list_lookup_insert_ne by lia. reflexivity.
Qed.

Lemma write_length pos mem i : length (write_block pos mem i) = length mem.
Proof. apply length_insert. Qed.

Lemma lane_run_length l n mem : length (lane_run l n mem) = length mem.
Proof.
  unfold lane_run. apply (fold_left_inv (fun m => length m = length mem)); [reflexivity |].
  intros. rewrite write_length. auto.
Qed.

Lemma curr_in_segment pos i : 0 <= i < seg ->
  in_segment inst (lane pos) (slice pos) (curr_of pos i).
Proof. unfold in_segment, curr_of, at_lane. lia. Qed.

(** A lane writes its own segment only. *)
Lemma lane_run_outside l n mem k : 0 <= l < lanes inst -> 0 <= k ->
  lanes inst * L <= Z.of_nat (length mem) -> ~ in_segment inst l s k ->
  block_at (lane_run l n mem) k = block_at mem k.
Proof.
  intros Hl Hk Hlen Hout. induction n as [|n IH]; [reflexivity |].
  destruct (indices (lane_pos l) !! n) as [i|] eqn:E.
  - pose proof (starting_index_cases (lane_pos l)). pose proof (indices_lookup _ _ _ E).
    rewrite (lane_run_S _ _ _ _ E), block_at_write
      by (rewrite ?lane_run_length; auto using lane_pos_ok; lia).
    destruct (decide _) as [->|]; [|exact IH]. exfalso. apply Hout.
    apply (curr_in_segment (lane_pos l)). lia.
  - rewrite <- IH. apply lookup_ge_None in E. unfold lane_run. rewrite !take_ge by lia. reflexivity.
Qed.

(** The memory during the slice: lane [l] has done [p l] writes. *)
Record overlay (M0 : list block) (p : Z -> nat) (M : list block) : Prop := {
  ov_length : length M = length M0;
  ov_inside : forall l k, 0 <= l < lanes inst -> in_segment inst l s k ->
    block_at M k = block_at (lane_run l (p l) M0) k;
  ov_outside : forall k, 0 <= k -> (forall l, 0 <= l < lanes inst -> ~ in_segment inst l s k) ->
    block_at M k = block_at M0 k }.

Definition advance (p : Z -> nat) (l : Z) : Z -> nat := fun l' => if decide (l' = l) then S (p l) else p l'.

Lemma in_segment_nonneg l k : 0 <= l -> in_segment inst l s k -> 0 <= k.
Proof. pose proof geometry. unfold ARGON2_SYNC_POINTS, in_segment, at_lane in *. nia. Qed.

Lemma overlay_start M0 : overlay M0 (fun _ => O) M0.
Proof. split; reflexivity. Qed.

Lemma overlay_agree M0 p M l : overlay M0 p M -> lanes inst * L <= Z.of_nat (length M0) ->
  0 <= l < lanes inst -> agree_except l s M (lane_run l (p l) M0).
Proof.
  intros [Hlen Hin Hout] Hsz Hl k Hk Hnf. destruct (decide (in_segment inst l s k)) as [H|H]; [auto |].
  rewrite lane_run_outside by auto. apply Hout; [auto |]. intros l' Hl' H'.
  destruct (decide (l' = l)) as [->|]; [auto |]. apply Hnf. exists l'. auto.
Qed.

(** The next write of any lane, whatever the others have done. *)
Lemma overlay_write M0 p M l i : overlay M0 p M -> lanes inst * L <= Z.of_nat (length M0) ->
  0 <= l < lanes inst -> indices (lane_pos l) !! (p l) = Some i ->
  overlay M0 (advance p l) (write_block (lane_pos l) M i).
Proof.
  intros Hov Hsz Hl E. pose proof (overlay_agree _ _ _ _ Hov Hsz Hl) as Hag.
  destruct Hov as [Hlen Hin Hout]. pose proof (starting_index_cases (lane_pos l)).
  pose proof (indices_lookup _ _ _ E) as Hi. pose proof (lane_pos_ok l Hl) as Hp.
  pose proof (curr_in_segment (lane_pos l) i ltac:(lia)) as Hc. cbn [lane slice lane_pos] in Hc.
  split; [rewrite write_length; exact Hlen | |].
  - intros l' k Hl' Hk. pose proof (in_segment_nonneg l' k ltac:(lia) Hk).
    rewrite block_at_write by (auto; lia). unfold advance. destruct (decide (l' = l)) as [->|Hne].
    + rewrite (lane_run_S _ _ _ _ E), block_at_write by (rewrite ?lane_run_length; auto; lia).
      destruct (decide _); [apply new_block_frame; auto | auto].
    + destruct (decide _) as [->|]; [|auto]. exfalso.
      apply in_segment_place in Hc as (j & Ej & _ & Hj); [|auto].
      apply in_segment_place in Hk as (j' & Ej' & _ & Hj'); [|auto].
      rewrite Ej in Ej'. apply at_lane_inj in Ej'; [lia | auto | auto].
  - intros k Hk Hno. rewrite block_at_write by (auto; lia).
    destruct (decide _) as [->|]; [|auto]. exfalso. exact (Hno l Hl Hc).
Qed.

Lemma overlay_unique M0 p p' M M' : overlay M0 p M -> overlay M0 p' M' ->
  (forall l, 0 <= l < lanes inst -> p l = p' l) -> M = M'.
Proof.
  intros [L1 I1 O1] [L2 I2 O2] Hpp. apply (nth_ext _ _ [] []); [congruence |]. intros n Hn.
  change (nth n M []) with (nth n M []). assert (E : block_at M (Z.of_nat n) = block_at M' (Z.of_nat n)).
  { destruct (decide (Exists (fun l => in_segment inst l s (Z.of_nat n)) (seqZ 0 (lanes inst)))) as [H|H].
    - apply Exists_exists in H as (l & Hl & Hin). apply elem_of_seqZ in Hl.
      rewrite (I1 l), (I2 l), Hpp by (auto; lia). reflexivity.
    - rewrite O1, O2; [reflexivity | lia | | lia |];
        intros l Hl Hin; apply H, Exists_exists; exists l; rewrite elem_of_seqZ; split; auto; lia. }
  unfold block_at in E. rewrite Nat2Z.id in E. exact E.
Qed.

(** ** The sequential order *)

Definition slice_seq (mem : list block) : list block :=
  fold_left (fun mem l => fill_segment_mtp inst (lane_pos l) mem) (seqZ 0 (lanes inst)) mem.

Lemma overlay_lane M0 p M l n : overlay M0 p M -> lanes inst * L <= Z.of_nat (length M0) ->
  0 <= l < lanes inst -> p l = O -> (n <= writes)%nat ->
  overlay M0 (fun l' => if decide (l' = l) then n else p l')
    (fold_left (write_block (lane_pos l)) (take n (indices (lane_pos l))) M).
Proof.
  intros Hov Hsz Hl Hz. induction n as [|n IH]; intros Hn.
  - destruct Hov as [? Hin ?]. split; [auto | | auto].
    intros l' k Hl' Hk. rewrite (Hin l') by auto. destruct (decide _) as [->|]; [rewrite Hz|]; reflexivity.
  - destruct (lookup_lt_is_Some_2 (indices (lane_pos l)) n) as [i E]; [rewrite indices_writes; lia |].
    rewrite (take_S_r _ _ _ E), fold_left_app. cbn [fold_left].
    pose proof (overlay_write _ _ _ l i (IH ltac:(lia)) Hsz Hl) as H. cbv beta in H.
    rewrite decide_True in H by reflexivity. specialize (H E). destruct H as [? Hin ?]. split; [auto | | auto].
    intros l' k Hl' Hk. rewrite (Hin l') by auto. unfold advance.
    destruct (decide (l' = l)); [rewrite decide_True by reflexivity|]; reflexivity.
Qed.

Lemma overlay_seq M0 : lanes inst * L <= Z.of_nat (length M0) -> overlay M0 (fun _ => writes) (slice_seq M0).
Proof.
  intros Hsz. pose proof geometry as (_ & _ & Hln).
  assert (H : forall n, Z.of_nat n <= lanes inst ->
    overlay M0 (fun l => if decide (l < Z.of_nat n) then writes else O)
      (fold_left (fun mem l => fill_segment_mtp inst (lane_pos l) mem) (seqZ 0 (Z.of_nat n)) M0)).
  { induction n as [|n IH]; intros Hn.
    - cbn. pose proof (overlay_start M0) as [? Hin ?]. split; [auto | | auto].
      intros l k Hl Hk. rewrite decide_False by lia. auto.
    - rewrite seqZ_S, fold_left_app, Z.add_0_l. cbn [fold_left]. rewrite fill_segment_writes by (apply lane_pos_ok; lia).
      rewrite <- (take_ge (indices (lane_pos (Z.of_nat n))) writes) by (rewrite indices_writes; lia).
      pose proof (overlay_lane M0 _ _ (Z.of_nat n) writes (IH ltac:(lia)) Hsz ltac:(lia)) as H.
      cbv beta in H. rewrite decide_False in H by lia. specialize (H eq_refl ltac:(lia)). destruct H as [? Hin ?].
      split; [auto | | auto]. intros l k Hl Hk. rewrite (Hin l) by auto.
      destruct (decide (l = Z.of_nat n)), (decide (l < Z.of_nat n)), (decide (l < Z.of_nat (S n))); reflexivity || lia. }
  specialize (H (Z.to_nat (lanes inst)) ltac:(lia)). rewrite Z2Nat.id in H by lia.
  destruct H as [? Hin ?]. split; [auto | | auto]. intros l k Hl Hk.
  rewrite (Hin l) by auto. rewrite decide_True by lia. reflexivity.
Qed.

(** The result of a slice when every lane is done. *)
Lemma overlay_done M0 p M : overlay M0 p M -> lanes inst * L <= Z.of_nat (length M0) ->
  (forall l, 0 <= l < lanes inst -> p l = writes) -> M = slice_seq M0.
Proof. intros Hov Hsz Hp. exact (overlay_unique _ _ _ _ _ Hov (overlay_seq M0 Hsz) Hp). Qed.

Lemma slice_seq_length mem : lanes inst * L <= Z.of_nat (length mem) ->
  length (slice_seq mem) = length mem.
Proof. intros H. exact (ov_length _ _ _ (overlay_seq mem H)). Qed.
End lanes.

(** The single-threaded filling, slice by slice. *)
Lemma fill_memory_blocks_st_slices mem :
  fill_memory_blocks_st_mtp inst mem =
  fold_left (fun mem r => fold_left (fun mem s => slice_seq r s mem) (seqZ 0 4) mem) (seqZ 0 (passes inst)) mem.
Proof. reflexivity. Qed.
End slice.
