(* ===== verification/Argon2ThreadsCorrect.v ===== *)
(** * Argon2ThreadsCorrect: every schedule gives the sequential result

    The invariant of the machine of Argon2Threads and its consequences: with at
    most as many threads as lanes, every execution in which no system call
    fails ends, in the memory that the single-threaded version computes. *)

From stdpp Require Import gmap.
From S2P Require Import Prelude Words Blake2b Argon2 Argon2Threads Argon2Index.

Section machine.
Context (inst : argon2_instance_t) (HI : instance_ok inst).
Context (HT : 1 <= threads inst <= lanes inst).

(** ** The calls of one slice *)

Section events.
Context (r s : Z) (Hs : 0 <= s < ARGON2_SYNC_POINTS).
Abbreviation pos := (lane_pos r s).

Lemma lanes_word : 1 <= lanes inst < 2 ^ 32.
Proof. destruct HI as [? ? ? ?]. unfold ARGON2_SYNC_POINTS in *. nia. Qed.

Definition lane_calls (l : Z) : list thread_event :=
  (if threads inst <=? l then [ThreadJoin (l - threads inst)] else []) ++ [ThreadCreate (pos l)].

Definition lanes_calls (n : nat) : list thread_event := flat_map lane_calls (seqZ 0 (Z.of_nat n)).

Definition last_joins : list thread_event :=
  map ThreadJoin (seqZ (lanes inst - threads inst) (threads inst)).

Lemma slice_events_calls :
  mt_slice_events inst r s = lanes_calls (Z.to_nat (lanes inst)) ++ last_joins.
Proof.
  pose proof lanes_word. unfold mt_slice_events, lanes_calls, last_joins. rewrite Z2Nat.id by lia.
  rewrite (wrap_small 32 (lanes inst - threads inst)) by (unfold word; lia).
  replace (lanes inst - (lanes inst - threads inst)) with (threads inst) by lia. f_equal.
  rewrite !flat_map_concat_map. f_equal. apply map_ext_in. intros l Hl.
  apply list_elem_of_In, elem_of_seqZ in Hl. unfold lane_calls, lane_pos.
  rewrite (wrap_small 8) by (unfold word, ARGON2_SYNC_POINTS in *; lia).
  destruct (Z.leb_spec (threads inst) l); [rewrite wrap_small by (unfold word; lia)|]; reflexivity.
Qed.

Lemma lanes_calls_S n : lanes_calls (S n) = lanes_calls n ++ lane_calls (Z.of_nat n).
Proof. unfold lanes_calls. rewrite seqZ_S, flat_map_app. cbn. rewrite app_nil_r. reflexivity. Qed.

Lemma created_in_calls n l : 0 <= l < Z.of_nat n -> ThreadCreate (pos l) ∈ lanes_calls n.
Proof.
  induction n as [|n IH]; intros Hl; [lia |]. rewrite lanes_calls_S, elem_of_app.
  destruct (decide (l = Z.of_nat n)) as [->|]; [right | left; apply IH; lia].
  unfold lane_calls. rewrite elem_of_app. right. apply list_elem_of_here.
Qed.

Lemma calls_created n p : ThreadCreate p ∈ lanes_calls n -> exists l, 0 <= l < Z.of_nat n /\ p = pos l.
Proof.
  induction n as [|n IH]; [cbn; inversion 1 |]. rewrite lanes_calls_S, elem_of_app. intros [H|H].
  - destruct (IH H) as (l & ? & ->). exists l. split; [lia | reflexivity].
  - exists (Z.of_nat n). split; [lia |]. unfold lane_calls in H. apply elem_of_app in H as [H|H].
    + apply list_elem_of_In in H. destruct (_ <=? _); cbn in H; intuition discriminate.
    + apply list_elem_of_In in H. destruct H as [H|H]; [congruence | destruct H].
Qed.

(** A thread is joined after it was created. *)
Lemma calls_join_order n evd l evr : (Z.of_nat n <= lanes inst) ->
  lanes_calls n = evd ++ ThreadJoin l :: evr -> 0 <= l < lanes inst /\ ThreadCreate (pos l) ∈ evd.
Proof.
  induction n as [|n IH] in evr |- *; intros Hn E; [destruct evd; discriminate |].
  rewrite lanes_calls_S in E.
  apply app_eq_inv in E as [(k & E1 & E2) | (k & E1 & E2)].
  - destruct k as [|e k].
    + cbn in E2. rewrite app_nil_r in E1. unfold lane_calls in E2.
      destruct (Z.leb_spec (threads inst) (Z.of_nat n)); inversion E2; subst.
      split; [lia |]. apply created_in_calls. lia.
    + inversion E2; subst e. apply (IH k); [lia | exact E1].
  - unfold lane_calls in E2. destruct (Z.leb_spec (threads inst) (Z.of_nat n)) as [Hle|Hlt].
    + destruct k as [|e k]; inversion E2; subst.
      * split; [lia |]. rewrite app_nil_r. apply created_in_calls. lia.
      * destruct k as [|? [|]]; discriminate.
    + destruct k as [|e [|]]; discriminate.
Qed.

(** The lanes a list of calls creates threads for. *)
Definition created (evs : list thread_event) : list Z :=
  omap (fun e => match e with ThreadCreate p => Some (lane p) | _ => None end) evs.

Lemma created_app a b : created (a ++ b) = created a ++ created b.
Proof. apply omap_app. Qed.

Lemma created_calls n : created (lanes_calls n) = seqZ 0 (Z.of_nat n).
Proof.
  induction n as [|n IH]; [reflexivity |].
  rewrite lanes_calls_S, created_app, IH, seqZ_S. f_equal. unfold lane_calls.
  rewrite created_app. destruct (_ <=? _); reflexivity.
Qed.

Lemma created_joins l : created (map ThreadJoin l) = [].
Proof. induction l; cbn; auto. Qed.

Lemma elem_created p evs : ThreadCreate p ∈ evs -> lane p ∈ created evs.
Proof. intros H. apply list_elem_of_omap. exists (ThreadCreate p). auto. Qed.

Abbreviation E := (mt_slice_events inst r s).

Lemma slice_create_fresh evd p evr : E = evd ++ ThreadCreate p :: evr ->
  (exists l, 0 <= l < lanes inst /\ p = pos l) /\ ThreadCreate p ∉ evd.
Proof.
  pose proof lanes_word as Hw. intros H. rewrite slice_events_calls in H. split.
  - assert (Hin : ThreadCreate p ∈ lanes_calls (Z.to_nat (lanes inst)) ++ last_joins).
    { rewrite H. apply elem_of_app. right. apply list_elem_of_here. }
    apply elem_of_app in Hin as [Hin|Hin].
    + apply calls_created in Hin as (l & ? & ->). exists l. split; [lia | reflexivity].
    + apply list_elem_of_In, in_map_iff in Hin as (? & ? & ?). discriminate.
  - intros Hin. apply elem_created in Hin.
    assert (Hc : created (evd ++ ThreadCreate p :: evr) = seqZ 0 (lanes inst)).
    { rewrite <- H, created_app. unfold last_joins. rewrite created_joins, app_nil_r, created_calls. f_equal. lia. }
    rewrite created_app in Hc. cbn in Hc. pose proof (NoDup_seqZ 0 (lanes inst)) as Hnd. rewrite <- Hc in Hnd.
    apply NoDup_app in Hnd as (_ & Hnd & _). apply (Hnd _ Hin), list_elem_of_here.
Qed.

Lemma slice_create_all l : 0 <= l < lanes inst -> ThreadCreate (pos l) ∈ E.
Proof.
  intros. rewrite slice_events_calls, elem_of_app. left. apply created_in_calls. lia.
Qed.

Lemma slice_join_order evd l evr : E = evd ++ ThreadJoin l :: evr ->
  0 <= l < lanes inst /\ ThreadCreate (pos l) ∈ evd.
Proof.
  pose proof lanes_word. rewrite slice_events_calls. intros H'.
  apply app_eq_inv in H' as [(k & E1 & E2) | (k & E1 & E2)].
  - destruct k as [|e k].
    + rewrite app_nil_r in E1. cbn in E2.
      assert (Hl : ThreadJoin l ∈ last_joins) by (rewrite <- E2; apply list_elem_of_here).
      apply list_elem_of_In, in_map_iff in Hl as (l' & El & Hl). injection El as ->.
      apply list_elem_of_In, elem_of_seqZ in Hl. split; [lia |]. rewrite <- E1. apply created_in_calls. lia.
    + injection E2 as <- E2. eapply (calls_join_order (Z.to_nat (lanes inst)) _ _ k); [lia | exact E1].
  - assert (Hl : ThreadJoin l ∈ last_joins) by (rewrite E2; apply elem_of_app; right; apply list_elem_of_here).
    apply list_elem_of_In, in_map_iff in Hl as (l' & El & Hl). injection El as ->.
    apply list_elem_of_In, elem_of_seqZ in Hl. split; [lia |].
    rewrite E1. apply elem_of_app. left. apply created_in_calls. lia.
Qed.

Lemma joins_in_calls n l : 0 <= l -> l + threads inst < Z.of_nat n -> ThreadJoin l ∈ lanes_calls n.
Proof.
  induction n as [|n IH]; intros Hl Hn; [lia |]. rewrite lanes_calls_S, elem_of_app.
  destruct (decide (l + threads inst = Z.of_nat n)) as [El|]; [right | left; apply IH; lia].
  unfold lane_calls. rewrite <- El. destruct (Z.leb_spec (threads inst) (l + threads inst)); [|lia].
  replace (l + threads inst - threads inst) with l by lia. apply list_elem_of_here.
Qed.

Lemma slice_join_all l : 0 <= l < lanes inst -> ThreadJoin l ∈ E.
Proof.
  intros Hl. rewrite slice_events_calls, elem_of_app.
  destruct (decide (l < lanes inst - threads inst)).
  - left. apply joins_in_calls; lia.
  - right. apply list_elem_of_In, in_map, list_elem_of_In, elem_of_seqZ. lia.
Qed.
End events.

(** ** The invariant *)

Context (M0 : list block) (Hsz : lanes inst * lane_length inst <= Z.of_nat (length M0)).

Definition seq_slices (sl : list (Z * Z)) : list block :=
  fold_left (fun m '(r, s) => slice_seq inst r s m) sl M0.

Definition slice_ok (rs : Z * Z) : Prop := 0 <= rs.1 /\ 0 <= rs.2 < ARGON2_SYNC_POINTS.

(** The thread of lane [l] after [n] writes. *)
Definition thread_at (r s : Z) (data : gmap Z argon2_position_t) (l : Z) (n : nat) (th : thread_t) : Prop :=
  let pos := lane_pos r s l in
  let i := starting_index pos + Z.of_nat n in
  (th = Spawned l /\ n = O /\ data !! l = Some pos) \/
  (exists prev, th = Running pos (curr_of inst pos i) prev (drop n (indices inst pos)) /\
     (n <= writes inst r s)%nat /\
     (prev = prev_of inst pos i \/ slice pos * segment_length inst + i = 1)).

(** The main thread is in slice [s] of pass [r], after the calls [evd]. *)
Record inside (before rest : list (Z * Z)) (r s : Z) (evd evr : list thread_event)
    (data : gmap Z argon2_position_t) (p : Z -> nat) (st : mt_state) : Prop := {
  in_slices : Forall slice_ok (before ++ (r, s) :: rest);
  in_main : mt_main st = evr ++ mt_program inst rest;
  in_events : mt_slice_events inst r s = evd ++ evr;
  in_rc : mt_rc st = ARGON2_OK;
  in_data : mt_data st = Some data;
  in_mem : overlay inst r s (seq_slices before) p (mt_mem st);
  in_threads : forall l, 0 <= l < lanes inst -> ThreadCreate (lane_pos r s l) ∈ evd ->
    exists tid th, mt_handle st !! l = Some tid /\ mt_pool st !! tid = Some th /\ thread_at r s data l (p l) th;
  in_idle : forall l, ThreadCreate (lane_pos r s l) ∉ evd -> p l = O;
  in_others : forall tid th, mt_pool st !! tid = Some th ->
    finished th \/ exists l, 0 <= l < lanes inst /\ ThreadCreate (lane_pos r s l) ∈ evd /\ mt_handle st !! l = Some tid;
  in_joined : forall l tid th, ThreadJoin l ∈ evd ->
    mt_handle st !! l = Some tid -> mt_pool st !! tid = Some th -> finished th }.

(** Between two slices. *)
Record between (before rest : list (Z * Z)) (st : mt_state) : Prop := {
  bt_slices : Forall slice_ok (before ++ rest);
  bt_main : mt_main st = mt_program inst rest;
  bt_rc : mt_rc st = ARGON2_OK;
  bt_data : exists data, mt_data st = Some data;
  bt_mem : mt_mem st = seq_slices before;
  bt_pool : Forall finished (mt_pool st) }.

Record returned (all : list (Z * Z)) (st : mt_state) : Prop := {
  rt_main : mt_main st = [];
  rt_rc : mt_rc st = ARGON2_OK;
  rt_mem : mt_mem st = seq_slices all;
  rt_pool : Forall finished (mt_pool st) }.

Definition failed (st : mt_state) : Prop := mt_main st = [] /\ mt_rc st <> ARGON2_OK.

Definition invariant (all : list (Z * Z)) (st : mt_state) : Prop :=
  (exists before rest, all = before ++ rest /\ between before rest st) \/
  (exists before rest r s evd evr data p, all = before ++ (r, s) :: rest /\
     inside before rest r s evd evr data p st) \/
  returned all st \/ failed st.

Lemma seq_slices_length sl : Forall slice_ok sl -> length (seq_slices sl) = length M0.
Proof.
  intros H. unfold seq_slices. induction sl as [|[r s] sl IH] using rev_ind; [reflexivity |].
  rewrite fold_left_app. apply Forall_app in H as [H1 H2]. apply Forall_inv in H2 as [Hr Hs]. cbn in *.
  rewrite slice_seq_length; auto. rewrite IH by auto. lia.
Qed.

Lemma before_size before tl : Forall slice_ok (before ++ tl) ->
  lanes inst * lane_length inst <= Z.of_nat (length (seq_slices before)).
Proof. intros H. apply Forall_app in H as [H _]. rewrite seq_slices_length by auto. exact Hsz. Qed.

(** A thread tells its lane. *)
Lemma thread_at_lane r s data l l' n n' th :
  thread_at r s data l n th -> thread_at r s data l' n' th -> l = l'.
Proof.
  intros [(-> & _) | (? & -> & _)] [(E & _) | (? & E & _)]; inversion E; reflexivity.
Qed.

Lemma thread_at_done r s data l n th :
  thread_at r s data l n th -> finished th -> n = writes inst r s.
Proof.
  intros [(-> & _) | (? & -> & Hn & _)] Hf; [destruct Hf |]. cbn in Hf.
  destruct (drop n (indices inst (lane_pos r s l))) eqn:E; [|destruct Hf].
  apply (f_equal length) in E. rewrite length_drop, indices_writes in E. cbn in E. lia.
Qed.

(** Opening and closing a slice. *)
Lemma between_open before r s rest st : between before ((r, s) :: rest) st ->
  exists data, inside before rest r s [] (mt_slice_events inst r s) data (fun _ => O) st.
Proof.
  intros [Hs Hm Hrc [data Hd] Hmem Hp]. exists data.
  split; auto.
  - rewrite Hm. unfold mt_program. cbn. rewrite app_assoc. reflexivity.
  - rewrite Hmem. apply overlay_start.
  - intros l _ Hin. inversion Hin.
  - intros tid th H. left. rewrite Forall_lookup in Hp. eauto.
  - intros l tid th Hin. inversion Hin.
Qed.

Lemma inside_close before rest r s evd data p st :
  inside before rest r s evd [] data p st -> between (before ++ [(r, s)]) rest st.
Proof.
  intros [Hs Hm He Hrc Hd Hmem Ht Hi Ho Hj]. rewrite app_nil_r in He. subst evd.
  assert (Hrs : slice_ok (r, s)) by (apply Forall_app in Hs as [_ Hs]; apply Forall_inv in Hs; exact Hs).
  destruct Hrs as [Hr Hss]. cbn in Hr, Hss.
  assert (Hdone : forall l, 0 <= l < lanes inst -> exists tid th, mt_handle st !! l = Some tid /\
    mt_pool st !! tid = Some th /\ thread_at r s data l (p l) th /\ finished th).
  { intros l Hl. destruct (Ht l Hl (slice_create_all r s Hss l Hl)) as (tid & th & Hh & Hth & Hat).
    exists tid, th. pose proof (Hj l tid th (slice_join_all r s Hss l Hl) Hh Hth). auto. }
  split; auto.
  - rewrite <- app_assoc. exact Hs.
  - eauto.
  - unfold seq_slices. rewrite fold_left_app. cbn. apply (overlay_done inst HI r s Hr Hss _ p); auto.
    + apply (before_size _ ((r, s) :: rest)). exact Hs.
    + intros l Hl. destruct (Hdone l Hl) as (tid & th & _ & _ & Hat & Hf). exact (thread_at_done _ _ _ _ _ _ Hat Hf).
  - apply Forall_lookup. intros tid th Hth. destruct (Ho _ _ Hth) as [|(l & Hl & Hc & Hh)]; [auto |].
    destruct (Hdone l Hl) as (tid' & th' & Hh' & Hth' & _ & Hf). simplify_eq. exact Hf.
Qed.

(** ** The invariant is preserved *)

(** The effect of the main thread's calls. *)
Lemma inside_create before rest r s evd pos evr data p mem handle pool rc :
  inside before rest r s evd (ThreadCreate pos :: evr) data p
    (mk_mt mem ((ThreadCreate pos :: evr) ++ mt_program inst rest) (Some data) handle pool rc) ->
  inside before rest r s (evd ++ [ThreadCreate pos]) evr (<[lane pos := pos]> data) p
    (mk_mt mem (evr ++ mt_program inst rest) (Some (<[lane pos := pos]> data))
       (<[lane pos := length pool]> handle) (pool ++ [Spawned (lane pos)]) rc).
Proof.
  intros [Hs Hm He Hrc Hd Hmem Ht Hi Ho Hj]. cbn [mt_handle mt_pool mt_mem mt_rc mt_data mt_main] in *.
  assert (Hrs : slice_ok (r, s)) by (apply Forall_app in Hs as [_ Hs]; apply Forall_inv in Hs; exact Hs).
  destruct Hrs as [Hr Hss]. cbn in Hr, Hss.
  destruct (slice_create_fresh r s Hss _ _ _ He) as [(l & Hl & ->) Hfresh]. cbn [lane lane_pos] in *.
  assert (Hne : forall l', ThreadCreate (lane_pos r s l') ∈ evd -> l' <> l) by (intros l' Hin ->; auto).
  assert (Hcr : forall l', ThreadCreate (lane_pos r s l') ∈ evd ++ [ThreadCreate (lane_pos r s l)] ->
    l' = l \/ l' <> l /\ ThreadCreate (lane_pos r s l') ∈ evd).
  { intros l' Hin. apply elem_of_app in Hin as [Hin|Hin]; [right; auto |].
    apply list_elem_of_singleton in Hin. left. injection Hin as ->. reflexivity. }
  split; cbn [mt_handle mt_pool mt_mem mt_rc mt_data mt_main]; auto.
  - rewrite <- app_assoc. exact He.
  - intros l' Hl' Hin. destruct (Hcr l' Hin) as [-> | [Hn Hin']].
    + exists (length pool), (Spawned l). rewrite lookup_insert_eq, lookup_app_r, Nat.sub_diag by lia.
      split; [reflexivity |]. split; [reflexivity |]. left. rewrite (Hi l Hfresh), lookup_insert_eq. auto.
    + destruct (Ht l' Hl' Hin') as (tid & th & Hh & Hth & Hat). exists tid, th.
      rewrite lookup_insert_ne, lookup_app_l by (eauto using lookup_lt_Some). split; [auto |]. split; [auto |].
      destruct Hat as [(-> & Hz & Hd') | Hrun]; [left; rewrite lookup_insert_ne by auto; auto | right; exact Hrun].
  - intros l' Hni. apply Hi. intros Hin. apply Hni, elem_of_app. auto.
  - intros tid th Hth. apply lookup_app_Some in Hth as [Hth | [Hge Hth]].
    + destruct (Ho _ _ Hth) as [|(l' & Hl' & Hc & Hh)]; [auto | right]. exists l'.
      rewrite lookup_insert_ne by (intros ->; auto). split; [auto |]. split; [apply elem_of_app; auto | auto].
    + right. exists l. apply list_lookup_singleton_Some in Hth as [Hz _].
      split; [auto |]. split; [apply elem_of_app; right; apply list_elem_of_here |].
      rewrite lookup_insert_eq. f_equal. lia.
  - intros l' tid th Hin Hh Hth. apply elem_of_app in Hin as [Hin|Hin];
      [|apply list_elem_of_singleton in Hin; discriminate].
    apply list_elem_of_split in Hin as (e1 & e2 & Eq). rewrite Eq, <- app_assoc in He. cbn in He.
    destruct (slice_join_order r s Hss _ _ _ He) as [Hl' Hc].
    assert (Hc' : ThreadCreate (lane_pos r s l') ∈ evd) by (rewrite Eq; apply elem_of_app; auto).
    rewrite lookup_insert_ne in Hh by (intros ->; eapply Hne; eauto).
    apply lookup_app_Some in Hth as [Hth | [Hge Hth]]; [eapply Hj; eauto; rewrite Eq; apply elem_of_app; right; apply list_elem_of_here |].
    destruct (Ht l' Hl' Hc') as (tid' & th' & Hh' & Hth' & _). simplify_eq.
    apply lookup_lt_Some in Hth'. lia.
Qed.

Lemma inside_join before rest r s evd l evr data p mem handle pool rc tid th :
  inside before rest r s evd (ThreadJoin l :: evr) data p
    (mk_mt mem ((ThreadJoin l :: evr) ++ mt_program inst rest) (Some data) handle pool rc) ->
  handle !! l = Some tid -> pool !! tid = Some th -> finished th ->
  inside before rest r s (evd ++ [ThreadJoin l]) evr data p
    (mk_mt mem (evr ++ mt_program inst rest) (Some data) handle pool rc).
Proof.
  intros [Hs Hm He Hrc Hd Hmem Ht Hi Ho Hj] Hh Hth Hf.
  cbn [mt_handle mt_pool mt_mem mt_rc mt_data mt_main] in *.
  assert (Hcr : forall q, ThreadCreate q ∈ evd ++ [ThreadJoin l] <-> ThreadCreate q ∈ evd).
  { intros q. rewrite elem_of_app, list_elem_of_singleton. intuition discriminate. }
  split; cbn [mt_handle mt_pool mt_mem mt_rc mt_data mt_main]; auto.
  - rewrite <- app_assoc. exact He.
  - intros l' Hl' Hin. apply Ht, Hcr; auto.
  - intros l' Hn. apply Hi. rewrite <- Hcr. auto.
  - intros tid' th' Hth'. destruct (Ho _ _ Hth') as [|(l' & ? & ? & ?)]; [auto | right].
    exists l'. rewrite Hcr. auto.
  - intros l' tid' th' Hin Hh' Hth'. apply elem_of_app in Hin as [Hin|Hin]; [eauto |].
    apply list_elem_of_singleton in Hin. simplify_eq. exact Hf.
Qed.

(** A step of the thread of lane [l]. *)
Lemma inside_thread before rest r s evd evr data p st l tid th p' th' mem' :
  inside before rest r s evd evr data p st ->
  0 <= l < lanes inst -> ThreadCreate (lane_pos r s l) ∈ evd -> mt_handle st !! l = Some tid ->
  mt_pool st !! tid = Some th -> ~ finished th -> thread_at r s data l (p l) th ->
  overlay inst r s (seq_slices before) p' mem' -> (forall l', l' <> l -> p' l' = p l') ->
  thread_at r s data l (p' l) th' ->
  inside before rest r s evd evr data p'
    (mk_mt mem' (mt_main st) (mt_data st) (mt_handle st) (<[tid := th']> (mt_pool st)) (mt_rc st)).
Proof.
  intros [Hs Hm He Hrc Hd Hmem Ht Hi Ho Hj] Hl Hc Hh Hth Hnf Hat Hov Hp' Hat'.
  assert (Hother : forall l' tid', 0 <= l' < lanes inst -> ThreadCreate (lane_pos r s l') ∈ evd ->
    mt_handle st !! l' = Some tid' -> l' <> l -> tid' <> tid).
  { intros l' tid' Hl' Hc' Hh' Hne ->. destruct (Ht l' Hl' Hc') as (? & th2 & Hh2 & Hth2 & Hat2).
    simplify_eq. exact (Hne (thread_at_lane _ _ _ _ _ _ _ _ Hat2 Hat)). }
  split; cbn [mt_handle mt_pool mt_mem mt_rc mt_data mt_main]; auto.
  - intros l' Hl' Hc'. destruct (decide (l' = l)) as [->|Hne].
    + exists tid, th'. rewrite list_lookup_insert_eq by (eapply lookup_lt_Some; eauto). auto.
    + destruct (Ht l' Hl' Hc') as (tid' & th2 & Hh2 & Hth2 & Hat2). exists tid', th2.
      pose proof (Hother _ _ Hl' Hc' Hh2 Hne). rewrite list_lookup_insert_ne, Hp' by auto. auto.
  - intros l' Hni. rewrite Hp'; [apply Hi; auto | intros ->; auto].
  - intros tid' th2 Hth2. destruct (decide (tid' = tid)) as [->|Hne]; [right; eauto |].
    rewrite list_lookup_insert_ne in Hth2 by auto. auto.
  - intros l' tid' th2 Hin Hh' Hth2. destruct (decide (tid' = tid)) as [->|Hne].
    + exfalso. exact (Hnf (Hj _ _ _ Hin Hh' Hth)).
    + rewrite list_lookup_insert_ne in Hth2 by auto. eauto.
Qed.

(** The unfinished threads are those of this slice. *)
Lemma inside_find before rest r s evd evr data p st tid th :
  inside before rest r s evd evr data p st -> mt_pool st !! tid = Some th -> ~ finished th ->
  exists l, 0 <= l < lanes inst /\ ThreadCreate (lane_pos r s l) ∈ evd /\ mt_handle st !! l = Some tid /\
    thread_at r s data l (p l) th.
Proof.
  intros H Hth Hnf. destruct (in_others _ _ _ _ _ _ _ _ _ H _ _ Hth) as [|(l & Hl & Hc & Hh)]; [contradiction |].
  exists l. destruct (in_threads _ _ _ _ _ _ _ _ _ H l Hl Hc) as (tid' & th' & Hh' & Hth' & Hat).
  simplify_eq. auto.
Qed.

Lemma inside_slice before rest r s evd evr data p st : inside before rest r s evd evr data p st ->
  0 <= r /\ 0 <= s < ARGON2_SYNC_POINTS /\
  lanes inst * lane_length inst <= Z.of_nat (length (seq_slices before)).
Proof.
  intros H. pose proof (in_slices _ _ _ _ _ _ _ _ _ H) as Hs. pose proof (before_size _ _ Hs).
  apply Forall_app in Hs as [_ Hs]. apply Forall_inv in Hs as [? ?]. auto.
Qed.

Lemma inside_begin before rest r s evd evr data p st tid l pos :
  inside before rest r s evd evr data p st ->
  mt_pool st !! tid = Some (Spawned l) -> data !! l = Some pos ->
  inside before rest r s evd evr data p
    (mk_mt (mt_mem st) (mt_main st) (mt_data st) (mt_handle st) (<[tid := enter_segment inst pos]> (mt_pool st)) (mt_rc st)).
Proof.
  intros H Hth Hpos. destruct (inside_find _ _ _ _ _ _ _ _ _ _ _ H Hth ltac:(auto)) as (l' & Hl & Hc & Hh & Hat).
  destruct (inside_slice _ _ _ _ _ _ _ _ _ H) as (Hr & Hs & _).
  eapply inside_thread; eauto; [exact (in_mem _ _ _ _ _ _ _ _ _ H) |].
  destruct Hat as [(El & Hn & Hd) | (? & El & _)]; [|discriminate]. injection El as ->. simplify_eq.
  right. rewrite Hn. pose proof (lane_pos_ok inst r s Hr Hs l' Hl) as Hp.
  eexists. unfold enter_segment. rewrite Z.add_0_r, (first_offset_curr inst HI), (first_prev_prev inst HI) by auto.
  split; [reflexivity |]. split; [lia | auto].
Qed.

Lemma inside_fill before rest r s evd evr data p st tid pos curr prev i todo :
  inside before rest r s evd evr data p st ->
  mt_pool st !! tid = Some (Running pos curr prev (i :: todo)) ->
  let sg := fill_segment_step inst pos (mk_seg (mt_mem st) curr prev) i in
  exists p', inside before rest r s evd evr data p'
    (mk_mt (seg_mem sg) (mt_main st) (mt_data st) (mt_handle st)
       (<[tid := Running pos (curr_offset sg) (prev_offset sg) todo]> (mt_pool st)) (mt_rc st)).
Proof.
  intros H Hth sg. destruct (inside_find _ _ _ _ _ _ _ _ _ _ _ H Hth ltac:(auto)) as (l & Hl & Hc & Hh & Hat).
  destruct (inside_slice _ _ _ _ _ _ _ _ _ H) as (Hr & Hs & Hsize).
  exists (advance p l). pose proof Hat as Hat'.
  destruct Hat' as [(El & _) | (prev' & El & Hn & Hprev)]; [discriminate |].
  injection El as -> -> <- Etodo. symmetry in Etodo.
  assert (Ei : indices inst (lane_pos r s l) !! p l = Some i).
  { rewrite <- (Nat.add_0_r (p l)), <- lookup_drop, Etodo. reflexivity. }
  assert (Ei' : i = starting_index (lane_pos r s l) + Z.of_nat (p l)).
  { apply lookup_seqZ in Ei. lia. }
  pose proof (indices_lookup inst r s l _ _ Ei) as Hi. pose proof (starting_index_cases (lane_pos r s l)).
  pose proof (lane_pos_ok inst r s Hr Hs l Hl) as Hp.
  unfold sg. rewrite <- Ei' in *. rewrite (fill_segment_step_write inst HI) by (auto; lia).
  cbn [seg_mem curr_offset prev_offset].
  eapply (inside_thread _ _ _ _ _ _ _ p _ l); eauto.
  - apply overlay_write; auto. exact (in_mem _ _ _ _ _ _ _ _ _ H).
  - intros l' Hne. unfold advance. rewrite decide_False by auto. reflexivity.
  - right. unfold advance. rewrite decide_True by reflexivity.
    replace (starting_index _ + Z.of_nat (S (p l))) with (i + 1) by lia.
    exists (prev_of inst (lane_pos r s l) i + 1). split; [|split].
    + f_equal; [unfold curr_of, at_lane; lia |]. apply drop_S in Ei. congruence.
    + apply lookup_lt_Some in Ei. rewrite (indices_writes inst r s) in Ei. lia.
    + apply prev_of_next; auto. lia.
Qed.

(** A step inside a slice, with calls left. *)
Lemma inside_step before rest r s evd e evr data p st st' :
  inside before rest r s evd (e :: evr) data p st -> mt_step inst st st' ->
  (exists evd' evr' data' p', inside before rest r s evd' evr' data' p' st') \/ failed st'.
Proof.
  intros H Hst. pose proof (in_main _ _ _ _ _ _ _ _ _ H) as Hm. pose proof (in_data _ _ _ _ _ _ _ _ _ H) as Hd.
  inversion Hst; subst; cbn [mt_main mt_data] in *; simplify_eq/=.
  - left. do 4 eexists. apply inside_create. exact H.
  - right. split; [reflexivity | discriminate].
  - left. do 4 eexists. eapply inside_join; eauto.
  - right. split; [reflexivity | discriminate].
  - exfalso. pose proof (in_events _ _ _ _ _ _ _ _ _ H) as He.
    assert (Hin : MainReturn ∈ mt_slice_events inst r s) by (rewrite He; apply elem_of_app; right; apply list_elem_of_here).
    unfold mt_slice_events in Hin. apply elem_of_app in Hin as [Hin|Hin]; apply list_elem_of_In in Hin.
    + apply in_flat_map in Hin as (l & _ & Hin). destruct (_ <=? _); cbn in Hin; intuition discriminate.
    + apply in_map_iff in Hin as (? & ? & _). discriminate.
  - left. exists evd, (e :: evr), data, p.
    exact (inside_begin _ _ _ _ _ _ _ _ _ _ _ _ H ltac:(eassumption) ltac:(eassumption)).
  - left. destruct (inside_fill _ _ _ _ _ _ _ _ _ _ _ _ _ _ _ H ltac:(eassumption)) as [p' H'].
    exists evd, (e :: evr), data, p'. exact H'.
Qed.

(** Between slices, and after the return, no thread can run. *)
Lemma finished_stuck st st' : Forall finished (mt_pool st) -> mt_step inst st st' ->
  exists e evs, mt_main st = e :: evs.
Proof.
  intros Hf Hst. rewrite Forall_lookup in Hf.
  inversion Hst; subst; cbn [mt_pool mt_main] in *; eauto;
    match goal with Hl : _ !! _ = Some _ |- _ => now destruct (Hf _ _ Hl) end.
Qed.

Lemma slice_events_cons r s : 0 <= s < ARGON2_SYNC_POINTS -> exists e evs, mt_slice_events inst r s = e :: evs.
Proof.
  intros Hs. pose proof lanes_word. pose proof (slice_create_all r s Hs 0 ltac:(lia)) as H0.
  destruct (mt_slice_events inst r s) as [|e evs]; [inversion H0 | eauto].
Qed.

Lemma between_step before rest st st' : between before rest st -> mt_step inst st st' ->
  invariant (before ++ rest) st'.
Proof.
  intros H Hst. destruct rest as [|[r s] rest].
  - destruct H as [Hs Hm Hrc [d Hd] Hmem Hp]. destruct (finished_stuck _ _ Hp Hst) as (e & evs & Hm').
    right. right. left. rewrite app_nil_r.
    inversion Hst; subst; cbn [mt_main mt_pool mt_mem mt_rc] in *; try discriminate;
      try (rewrite Forall_lookup in Hp; match goal with Hl : _ !! _ = Some _ |- _ => now destruct (Hp _ _ Hl) end).
    split; auto.
  - pose proof (bt_slices _ _ _ H) as Hs. apply Forall_app in Hs as [_ Hs]. apply Forall_inv in Hs as [Hr Hs].
    destruct (between_open _ _ _ _ _ H) as [data Hin]. destruct (slice_events_cons r s Hs) as (e & evs & Ev).
    rewrite Ev in Hin. destruct (inside_step _ _ _ _ _ _ _ _ _ _ _ Hin Hst) as [(? & ? & ? & ? & H')|Hf].
    + right. left. do 8 eexists. eauto.
    + right. right. right. exact Hf.
Qed.

Lemma invariant_step all st st' : invariant all st -> mt_step inst st st' -> invariant all st'.
Proof.
  intros [(before & rest & -> & H) | [(before & rest & r & s & evd & evr & data & p & -> & H) | [H|H]]] Hst.
  - exact (between_step _ _ _ _ H Hst).
  - destruct evr as [|e evr].
    + apply inside_close in H. pose proof (between_step _ _ _ _ H Hst) as H'. rewrite <- app_assoc in H'. exact H'.
    + destruct (inside_step _ _ _ _ _ _ _ _ _ _ _ H Hst) as [(? & ? & ? & ? & H')|Hf].
      * right. left. do 8 eexists. eauto.
      * right. right. right. exact Hf.
  - destruct H as [Hm Hrc Hmem Hp]. destruct (finished_stuck _ _ Hp Hst) as (e & evs & Hm'). congruence.
  - right. right. right. destruct H as [Hm Hrc]. unfold failed.
    inversion Hst; subst; cbn [mt_main mt_rc] in *; try discriminate; auto.
Qed.

Lemma all_slices_ok : Forall slice_ok (all_slices inst).
Proof.
  apply Forall_forall. intros [r s] H. apply list_elem_of_In, in_flat_map in H as (r' & Hr & H).
  apply in_map_iff in H as (s' & E & Hs). injection E as -> ->.
  apply list_elem_of_In, elem_of_seqZ in Hr, Hs. split; cbn; lia.
Qed.

Lemma invariant_start c1 c2 : invariant (all_slices inst) (mt_start inst c1 c2 M0).
Proof.
  unfold mt_start. destruct (negb c1 || negb c2).
  - right. right. right. split; [reflexivity | discriminate].
  - left. exists [], (all_slices inst). split; [reflexivity |].
    split; cbn; eauto using all_slices_ok.
Qed.

Lemma reachable_invariant c1 c2 st : mt_reachable inst c1 c2 M0 st -> invariant (all_slices inst) st.
Proof.
  unfold mt_reachable. generalize (invariant_start c1 c2). generalize (mt_start inst c1 c2 M0).
  intros st0 H0 H. induction H as [|x y z Hxy _ IH]; [exact H0 |]. exact (IH (invariant_step _ _ _ H0 Hxy)).
Qed.

Lemma seq_slices_all : seq_slices (all_slices inst) = fill_memory_blocks_st_mtp inst M0.
Proof.
  rewrite fill_memory_blocks_st_slices. unfold seq_slices, all_slices. generalize M0.
  induction (seqZ 0 (passes inst)) as [|r rs IH]; intros m; [reflexivity |].
  cbn [flat_map]. rewrite fold_left_app. cbn [fold_left]. rewrite <- IH. reflexivity.
Qed.

(** ** The consequences *)

Lemma reachable_result c1 c2 st : mt_reachable inst c1 c2 M0 st -> mt_main st = [] -> mt_rc st = ARGON2_OK ->
  mt_mem st = fill_memory_blocks_st_mtp inst M0 /\ Forall finished (mt_pool st).
Proof.
  intros H Hm Hrc. rewrite <- seq_slices_all.
  destruct (reachable_invariant _ _ _ H)
    as [(before & rest & _ & Hb) | [(before & rest & r & s & evd & evr & data & p & _ & Hi) | [Hr|[_ Hf]]]].
  - exfalso. pose proof (bt_main _ _ _ Hb) as E. rewrite Hm in E. unfold mt_program in E. symmetry in E.
    apply app_eq_nil in E as [_ E]. discriminate.
  - exfalso. pose proof (in_main _ _ _ _ _ _ _ _ _ Hi) as E. rewrite Hm in E. symmetry in E.
    apply app_eq_nil in E as [_ E]. unfold mt_program in E. apply app_eq_nil in E as [_ E]. discriminate.
  - destruct Hr. auto.
  - contradiction.
Qed.

(** Until the main thread returns, some thread can make a successful step. *)
Lemma inside_progress before rest r s evd e evr data p st :
  inside before rest r s evd (e :: evr) data p st -> exists st', mt_step inst st st' /\ mt_rc st' = ARGON2_OK.
Proof.
  intros H. destruct (inside_slice _ _ _ _ _ _ _ _ _ H) as (Hr & Hs & _).
  pose proof (in_rc _ _ _ _ _ _ _ _ _ H) as Hrc. pose proof (in_main _ _ _ _ _ _ _ _ _ H) as Hm.
  pose proof (in_data _ _ _ _ _ _ _ _ _ H) as Hd. pose proof (in_events _ _ _ _ _ _ _ _ _ H) as He.
  destruct st as [mem main dat handle pool rc]. cbn [mt_main mt_rc mt_data] in *. subst.
  destruct e as [pos|l|].
  - eexists. split; [constructor | reflexivity].
  - destruct (slice_join_order r s Hs _ _ _ He) as [Hl Hc].
    destruct (in_threads _ _ _ _ _ _ _ _ _ H l Hl Hc) as (tid & th & Hh & Hth & Hat).
    cbn [mt_handle mt_pool] in *. destruct Hat as [(-> & _ & Hpos) | (prev & -> & _)].
    + eexists. split; [eapply step_begin; eauto | reflexivity].
    + destruct (drop _ _) as [|i todo] eqn:Et.
      * eexists. split; [eapply step_join; eauto; exact I | reflexivity].
      * eexists. split; [eapply step_fill; eauto | reflexivity].
  - eexists. split; [constructor | reflexivity].
Qed.

Lemma reachable_progress c1 c2 st : mt_reachable inst c1 c2 M0 st ->
  mt_rc st = ARGON2_OK -> mt_main st <> [] -> exists st', mt_step inst st st' /\ mt_rc st' = ARGON2_OK.
Proof.
  assert (Hbt : forall before rest st, between before rest st -> exists st', mt_step inst st st' /\ mt_rc st' = ARGON2_OK).
  { intros before [|[r s] rest] st' Hb.
    - destruct Hb as [_ Hm Hrc _ _ _]. destruct st' as [mem main d handle pool rc]. cbn [mt_main mt_rc] in *. subst. eexists. split; [constructor | reflexivity].
    - pose proof (bt_slices _ _ _ Hb) as Hs. apply Forall_app in Hs as [_ Hs]. apply Forall_inv in Hs as [_ Hs].
      destruct (between_open _ _ _ _ _ Hb) as [data Hi]. destruct (slice_events_cons r s Hs) as (e & evs & Ev).
      rewrite Ev in Hi. exact (inside_progress _ _ _ _ _ _ _ _ _ _ Hi). }
  intros H Hrc Hm. destruct (reachable_invariant _ _ _ H)
    as [(before & rest & _ & Hb) | [(before & rest & r & s & evd & evr & data & p & _ & Hi) | [Hr|[Hf _]]]].
  - eauto.
  - destruct evr; [apply inside_close in Hi; eauto | eapply inside_progress; eauto].
  - destruct Hr. contradiction.
  - contradiction.
Qed.
End machine.

(** ** Termination *)

(** Every step uses up some of this. *)
Definition event_weight (inst : argon2_instance_t) (e : thread_event) : nat :=
  match e with ThreadCreate _ => Z.to_nat (segment_length inst) + 3 | _ => 1 end.
Definition thread_weight (inst : argon2_instance_t) (th : thread_t) : nat :=
  match th with Spawned _ => Z.to_nat (segment_length inst) + 2 | Running _ _ _ todo => length todo end.
Definition mt_weight (inst : argon2_instance_t) (st : mt_state) : nat :=
  sum_list_with (event_weight inst) (mt_main st) + sum_list_with (thread_weight inst) (mt_pool st).

Lemma weight_insert inst pool tid th th' :
  pool !! tid = Some th -> (thread_weight inst th' < thread_weight inst th)%nat ->
  (sum_list_with (thread_weight inst) (<[tid := th']> pool) < sum_list_with (thread_weight inst) pool)%nat.
Proof.
  generalize (thread_weight inst). intros f. revert tid.
  induction pool as [|x pool IH]; intros [|tid] H Hlt; try discriminate; cbn in *.
  - injection H as ->. apply Nat.add_lt_mono_r. exact Hlt.
  - apply Nat.add_lt_mono_l. exact (IH _ H Hlt).
Qed.

Lemma mt_step_weight inst st st' : mt_step inst st st' -> (mt_weight inst st' < mt_weight inst st)%nat.
Proof.
  destruct 1; unfold mt_weight; cbn [mt_main mt_pool sum_list_with event_weight]; try lia.
  - rewrite sum_list_with_app. cbn. lia.
  - pose proof (weight_insert inst pool tid _ (enter_segment inst pos) ltac:(eassumption)) as Hw.
    cbn [thread_weight enter_segment] in Hw. rewrite length_seqZ in Hw.
    pose proof (starting_index_cases pos). specialize (Hw ltac:(lia)). lia.
  - pose proof (weight_insert inst pool tid _ (Running pos (curr_offset st) (prev_offset st) todo)
      ltac:(eassumption) ltac:(cbn; lia)). lia.
Qed.

(** From any reachable state without failure there is an execution to the end. *)
Lemma mt_completes inst M0 c1 c2 st : instance_ok inst -> 1 <= threads inst <= lanes inst ->
  lanes inst * lane_length inst <= Z.of_nat (length M0) ->
  mt_reachable inst c1 c2 M0 st -> mt_rc st = ARGON2_OK ->
  exists st', rtc (mt_step inst) st st' /\ mt_main st' = [] /\ mt_rc st' = ARGON2_OK.
Proof.
  intros HI HT Hsz. remember (mt_weight inst st) as w eqn:Ew. revert st Ew.
  induction w as [w IH] using lt_wf_ind. intros st -> Hr Hrc.
  destruct (decide (mt_main st = [])) as [Hm|Hm]; [exists st; auto using rtc_refl |].
  destruct (reachable_progress inst HI HT M0 Hsz c1 c2 st Hr Hrc Hm) as (st1 & Hst & Hrc1).
  destruct (IH _ (mt_step_weight _ _ _ Hst) st1 eq_refl) as (st2 & Hr2 & H2); [|auto|].
  - eapply rtc_r; eauto.
  - exists st2. split; [eapply rtc_l; eauto | auto].
Qed.

(** ** Theorems *)

(** C22: filling the memory with several threads gives the sequential result.
    For a well-formed instance with at most as many threads as lanes, whatever
    order the operating system runs the threads in, if
    [fill_memory_blocks_mt_mtp] returns ARGON2_OK then every thread has
    finished and the memory is exactly the one the single-threaded version
    computes. *)
Theorem threads_compute_sequential_memory inst c1 c2 mem st :
  instance_ok inst -> 1 <= threads inst <= lanes inst ->
  lanes inst * lane_length inst <= Z.of_nat (length mem) ->
  mt_reachable inst c1 c2 mem st -> mt_main st = [] -> mt_rc st = ARGON2_OK ->
  mt_mem st = fill_memory_blocks_st_mtp inst mem /\ Forall finished (mt_pool st).
Proof. intros HI HT Hsz. exact (reachable_result inst HI HT mem Hsz c1 c2 st). Qed.

(** A small instance: two lanes of eight blocks, two threads. *)
Definition small_instance (n : Z) : argon2_instance_t :=
  mk_instance ARGON2_VERSION_13 2 16 2 8 2 n Argon2_d (replicate 72 0).
Definition small_memory : list block := replicate 16 (replicate 128 0).

Lemma small_ok n : instance_ok (small_instance n).
Proof. split; cbn; unfold ARGON2_SYNC_POINTS; lia. Qed.

Lemma threads_compute_sequential_witness :
  exists st, mt_reachable (small_instance 2) true true small_memory st /\ mt_main st = [] /\
    mt_mem st = fill_memory_blocks_st_mtp (small_instance 2) small_memory.
Proof.
  destruct (mt_completes (small_instance 2) small_memory true true (mt_start (small_instance 2) true true small_memory))
    as (st & Hr & Hm & Hrc); [apply small_ok | cbn; lia | cbn; lia | apply rtc_refl | reflexivity |].
  exists st. split; [exact Hr |]. split; [exact Hm |].
  refine (proj1 (threads_compute_sequential_memory (small_instance 2) true true small_memory st
    (small_ok 2) _ _ Hr Hm Hrc)); cbn; lia.
Defined.

(** C39: multi-threaded filling terminates and does not deadlock.  Every step of
    every thread uses up a finite amount of work, so no execution is infinite;
    as long as the main thread has calls to make and none has failed, some
    thread can make a successful step; hence from any such state the function
    can return ARGON2_OK. *)
Theorem threads_terminate_without_deadlock inst c1 c2 mem st :
  instance_ok inst -> 1 <= threads inst <= lanes inst ->
  lanes inst * lane_length inst <= Z.of_nat (length mem) ->
  mt_reachable inst c1 c2 mem st -> mt_rc st = ARGON2_OK ->
  (forall st', mt_step inst st st' -> (mt_weight inst st' < mt_weight inst st)%nat) /\
  (mt_main st <> [] -> exists st', mt_step inst st st' /\ mt_rc st' = ARGON2_OK) /\
  exists st', rtc (mt_step inst) st st' /\ mt_main st' = [] /\ mt_rc st' = ARGON2_OK.
Proof.
  intros HI HT Hsz Hr Hrc. split; [intros; apply mt_step_weight; auto |].
  split; [exact (reachable_progress inst HI HT mem Hsz c1 c2 st Hr Hrc) |].
  exact (mt_completes inst mem c1 c2 st HI HT Hsz Hr Hrc).
Qed.

Lemma threads_terminate_witness :
  exists st', mt_step (small_instance 2) (mt_start (small_instance 2) true true small_memory) st'.
Proof.
  destruct (threads_terminate_without_deadlock (small_instance 2) true true small_memory
    (mt_start (small_instance 2) true true small_memory) (small_ok 2)
    ltac:(cbn; lia) ltac:(cbn; lia) ltac:(apply rtc_refl) eq_refl) as (_ & H & _).
  destruct (H ltac:(discriminate)) as (st' & Hst & _). exists st'. exact Hst.
Defined.

(** The result does not depend on the number of threads.  Two instances
    that differ only in [threads], both between one and the number of lanes,
    fill the same memory whenever [fill_memory_blocks_mtp] returns ARGON2_OK
    for both. *)
Theorem fill_memory_independent_of_threads inst1 inst2 mem m1 m2 :
  instance_ok inst1 -> 1 <= threads inst1 <= lanes inst1 -> 1 <= threads inst2 <= lanes inst1 ->
  inst2 = mk_instance (version inst1) (passes inst1) (memory_blocks inst1) (segment_length inst1)
            (lane_length inst1) (lanes inst1) (threads inst2) (type inst1) (hash_zero inst1) ->
  lanes inst1 * lane_length inst1 <= Z.of_nat (length mem) ->
  fill_memory_blocks_mtp mem (Some inst1) ARGON2_OK m1 ->
  fill_memory_blocks_mtp mem (Some inst2) ARGON2_OK m2 -> m1 = m2.
Proof.
  assert (Hst : forall inst m, instance_ok inst -> 1 <= threads inst <= lanes inst ->
    lanes inst * lane_length inst <= Z.of_nat (length mem) ->
    fill_memory_blocks_mtp mem (Some inst) ARGON2_OK m -> m = fill_memory_blocks_st_mtp inst mem).
  { intros inst m HI HT Hsz H. inversion H; subst; [reflexivity |].
    eapply reachable_result; eauto. }
  intros HI HT1 HT2 E2 Hsz H1 H2. rewrite (Hst _ _ HI HT1 Hsz H1).
  rewrite (Hst inst2 m2); [| | | |exact H2]; rewrite E2; cbn; auto.
  destruct HI. split; auto.
Qed.

Lemma fill_memory_independent_witness : exists m,
  fill_memory_blocks_mtp small_memory (Some (small_instance 2)) ARGON2_OK m /\
  m = fill_memory_blocks_st_mtp (small_instance 1) small_memory.
Proof.
  destruct (mt_completes (small_instance 2) small_memory true true (mt_start (small_instance 2) true true small_memory))
    as (st & Hr & Hm & Hrc); [apply small_ok | cbn; lia | cbn; lia | apply rtc_refl | reflexivity |].
  assert (H : fill_memory_blocks_mtp small_memory (Some (small_instance 2)) ARGON2_OK (mt_mem st)).
  { rewrite <- Hrc. apply (fill_multi small_memory (small_instance 2) true true st); auto; discriminate. }
  exists (mt_mem st). split; [exact H |].
  refine (fill_memory_independent_of_threads (small_instance 2) (small_instance 1) small_memory _ _
    (small_ok 2) _ _ eq_refl _ H (fill_single small_memory (small_instance 1) _ eq_refl));
    cbn; lia.
Defined.

(** ** When the limits are not respected *)

Lemma run_creates inst evs main mem data handle pool rc :
  (forall e, e ∈ evs -> exists pos, e = ThreadCreate pos) ->
  exists data' handle' pool', rtc (mt_step inst) (mk_mt mem (evs ++ main) (Some data) handle pool rc)
    (mk_mt mem main (Some data') handle' (pool ++ pool') rc) /\
    map (fun th => match th with Spawned l => Some l | _ => None end) pool' = Some <$> created evs.
Proof.
  intros H. revert data handle pool. induction evs as [|e evs IH]; intros data handle pool.
  - exists data, handle, []. rewrite app_nil_r. split; [apply rtc_refl | reflexivity].
  - destruct (H e (list_elem_of_here _ _)) as [pos ->].
    destruct (IH ltac:(intros; apply H; apply list_elem_of_further; auto)
      (<[lane pos := pos]> data) (<[lane pos := length pool]> handle) (pool ++ [Spawned (lane pos)]))
      as (data' & handle' & pool' & Hr & Hp).
    exists data', handle', (Spawned (lane pos) :: pool'). split.
    + eapply rtc_l; [constructor |]. rewrite <- app_assoc in Hr. exact Hr.
    + cbn. f_equal. exact Hp.
Qed.

(** With more threads than lanes, [lanes - threads] wraps and nothing is joined. *)
Lemma unjoined_events inst r s e : 0 <= lanes inst < threads inst -> threads inst < 2 ^ 32 ->
  e ∈ mt_slice_events inst r s -> exists pos, e = ThreadCreate pos.
Proof.
  intros H1 H2 H. unfold mt_slice_events in H. apply elem_of_app in H as [H|H]; apply list_elem_of_In in H.
  - apply in_flat_map in H as (l & Hl & H). apply list_elem_of_In, elem_of_seqZ in Hl.
    destruct (Z.leb_spec (threads inst) l); [lia |]. destruct H as [<-|[]]. eauto.
  - exfalso. apply in_map_iff in H as (l & _ & Hl). apply list_elem_of_In, elem_of_seqZ in Hl.
    assert (E : u32 (lanes inst - threads inst) = lanes inst - threads inst + 2 ^ 32).
    { unfold wrap. rewrite <- (Z.mod_add _ 1) by lia. apply Z.mod_small. lia. }
    lia.
Qed.

(** [fill_memory_blocks_mt_mtp] relies on its caller to keep [threads] at
    most [lanes].  With more, the loop that joins the remaining threads starts
    at [lanes - threads], which wraps around, and runs no iteration: the
    function can return ARGON2_OK while the memory has not been touched and
    every thread it created is still waiting to start. *)
Theorem excess_threads_are_never_joined inst mem :
  0 < lanes inst < threads inst -> threads inst < 2 ^ 32 -> 0 < passes inst ->
  exists st, mt_reachable inst true true mem st /\ mt_main st = [] /\ mt_rc st = ARGON2_OK /\
    mt_mem st = mem /\ mt_pool st <> [] /\ Forall (fun th => ~ finished th) (mt_pool st).
Proof.
  intros Hl Ht Hp. set (evs := flat_map (fun '(r, s) => mt_slice_events inst r s) (all_slices inst)).
  assert (Hc : forall e, e ∈ evs -> exists pos, e = ThreadCreate pos).
  { intros e He. apply list_elem_of_In, in_flat_map in He as ([r s] & _ & He).
    apply list_elem_of_In in He. eapply unjoined_events; eauto; lia. }
  destruct (run_creates inst evs [MainReturn] mem ∅ ∅ [] ARGON2_OK Hc) as (d & hd & pool & Hr & Hpool).
  exists (mk_mt mem [] None hd pool ARGON2_OK). cbn. split; [eapply rtc_r; [exact Hr | constructor] |].
  do 3 (split; [reflexivity |]). split.
  - intros ->. assert (H0 : ThreadCreate (mk_position 0 0 (u8 0) 0) ∈ evs).
    { apply list_elem_of_In, in_flat_map. exists (0, 0). split.
      - apply in_flat_map. exists 0. split; [apply list_elem_of_In, elem_of_seqZ; lia | left; reflexivity].
      - unfold mt_slice_events. apply in_or_app. left. apply in_flat_map. exists 0.
        split; [apply list_elem_of_In, elem_of_seqZ; lia |]. apply in_or_app. right. left. reflexivity. }
    apply elem_created in H0. destruct (created evs); [inversion H0 | discriminate].
  - apply Forall_forall. intros th Hth Hf. apply list_elem_of_In in Hth.
    apply (in_map (fun th => match th with Spawned l => Some l | _ => None end)) in Hth.
    rewrite Hpool in Hth. apply list_elem_of_In, list_elem_of_fmap in Hth as (l & E & _).
    destruct th; [destruct Hf | discriminate].
Qed.

Lemma excess_threads_witness :
  exists st, mt_reachable (small_instance 3) true true small_memory st /\ mt_main st = [] /\ mt_pool st <> [].
Proof.
  destruct (excess_threads_are_never_joined (small_instance 3) small_memory) as (st & Hr & Hm & _ & _ & Hp & _);
    [cbn; lia | cbn; lia | cbn; lia |].
  exists st. auto.
Defined.

(** When [argon2_thread_create] fails for the second lane, the function
    frees [thr_data] and returns ARGON2_THREAD_FAIL while the thread of the
    first lane may not yet have read its position from it. *)
Theorem create_failure_frees_live_thread_data inst mem :
  2 <= lanes inst -> 2 <= threads inst -> 0 < passes inst ->
  exists st, mt_reachable inst true true mem st /\ mt_main st = [] /\ mt_rc st = ARGON2_THREAD_FAIL /\
    mt_data st = None /\ mt_pool st !! 0%nat = Some (Spawned 0).
Proof.
  intros Hl Ht Hp.
  assert (E : exists evs, mt_program inst (all_slices inst) =
    ThreadCreate (mk_position 0 0 (u8 0) 0) :: ThreadCreate (mk_position 0 1 (u8 0) 0) :: evs).
  { unfold mt_program, all_slices. rewrite (seqZ_cons 0 (passes inst)) by lia. cbn [flat_map].
    change (seqZ 0 ARGON2_SYNC_POINTS) with [0; 1; 2; 3]. cbn [map app flat_map].
    unfold mt_slice_events at 1. rewrite (seqZ_cons 0), (seqZ_cons (Z.succ 0)) by lia. cbn [flat_map].
    destruct (Z.leb_spec (threads inst) 0); [lia |]. destruct (Z.leb_spec (threads inst) (Z.succ 0)); [lia |].
    eexists. reflexivity. }
  destruct E as [evs E]. eexists. split.
  - unfold mt_reachable, mt_start. cbn [negb orb]. rewrite E.
    eapply rtc_l; [constructor |]. eapply rtc_l; [apply step_create_fails | apply rtc_refl].
  - cbn. auto.
Qed.

Lemma create_failure_witness :
  exists st, mt_reachable (small_instance 2) true true small_memory st /\ mt_data st = None /\
    mt_pool st !! 0%nat = Some (Spawned 0).
Proof.
  destruct (create_failure_frees_live_thread_data (small_instance 2) small_memory) as (st & Hr & _ & _ & Hd & Hp);
    [cbn; lia | cbn; lia | cbn; lia |].
  exists st. auto.
Defined.
