(* ===== verification/Argon2Init.v ===== *)
(** * Argon2Init: the start and the end of an Argon2 computation

    The first hash is BLAKE2b of the documented encoding of all the inputs, the
    first blocks of the lanes are the variable-length hash of it, the result is
    the variable-length hash of the XOR of the lanes' last blocks; validation
    accepts exactly the documented parameters; allocation is safe against
    overflow. *)

From S2P Require Import Prelude Words Blake2b Blake2Spec Blake2bCorrect Blake2bHash.
From S2P Require Import Argon2 Argon2Core Argon2Index.

(** ** The first hash *)

(** RFC 9106, section 3.2: the input of H_0. *)
Definition H0_input (ctx : argon2_context) (ty : argon2_type) : list Z :=
  le_encode 4 (ctx_lanes ctx) ++ le_encode 4 (Argon2.outlen ctx) ++ le_encode 4 (m_cost ctx) ++
  le_encode 4 (t_cost ctx) ++ le_encode 4 (ctx_version ctx) ++ le_encode 4 (type_code ty) ++
  le_encode 4 (pwdlen ctx) ++ Blake2bHash.slice (pwd ctx) (pwdlen ctx) ++
  le_encode 4 (saltlen ctx) ++ Blake2bHash.slice (Argon2.salt ctx) (saltlen ctx) ++
  le_encode 4 (secretlen ctx) ++ Blake2bHash.slice (secret ctx) (secretlen ctx) ++
  le_encode 4 (adlen ctx) ++ Blake2bHash.slice (ad ctx) (adlen ctx).

Definition H0 (ctx : argon2_context) (ty : argon2_type) : list Z := hash 12 64 [] (H0_input ctx ty).

(** The integers of the context are 32-bit words, its pointers readable. *)
Record context_ok (ctx : argon2_context) : Prop := {
  cw_lanes : word 32 (ctx_lanes ctx); cw_threads : word 32 (ctx_threads ctx);
  cw_outlen : word 32 (Argon2.outlen ctx);
  cw_m : word 32 (m_cost ctx); cw_t : word 32 (t_cost ctx); cw_version : word 32 (ctx_version ctx);
  cw_pwd : word 32 (pwdlen ctx); cw_salt : word 32 (saltlen ctx);
  cw_secret : word 32 (secretlen ctx); cw_ad : word 32 (adlen ctx);
  cr_pwd : readable (pwd ctx) (pwdlen ctx); cr_salt : readable (Argon2.salt ctx) (saltlen ctx);
  cr_secret : readable (secret ctx) (secretlen ctx); cr_ad : readable (ad ctx) (adlen ctx) }.

(** The hash state has absorbed [msg]. *)
Definition absorbed (st : option blake2b_state) (msg : list Z) : Prop :=
  exists st0, st = Some st0 /\ represents 12 (init_chain 64 0) 64 st0 msg /\ Forall byte msg.

Lemma absorbed_buffer st msg p n : absorbed st msg -> readable p n ->
  absorbed (update_buffer st p n) (msg ++ Blake2bHash.slice p n).
Proof.
  intros (st0 & -> & Hr & Hb) Hp. unfold update_buffer.
  destruct (update_readable blake2b_compress 12 _ 64 st0 msg p n (init_chain_length 64 0) Hr Hb Hp)
    as (st1 & E & Hr1).
  assert (Hb1 : Forall byte (msg ++ Blake2bHash.slice p n)) by (apply Forall_app; split; [auto | apply Hp]).
  destruct p as [p|].
  - exists st1. unfold blake2b_update. rewrite E. auto.
  - exists st0. split; [reflexivity |].
    assert (Es : Blake2bHash.slice None n = []) by apply take_nil. rewrite Es, app_nil_r in *. auto.
Qed.

Lemma absorbed_u32 st msg x : absorbed st msg -> word 32 x -> absorbed (update_u32 st x) (msg ++ le_encode 4 x).
Proof.
  intros Hst Hx. unfold update_u32. rewrite (store32_native x Hx).
  destruct (readable_list (le_encode 4 x) (le_encode_bytes 4 x)) as [Hr Hs]; [rewrite le_encode_length; lia |].
  rewrite le_encode_length in Hr, Hs. change (Z.of_nat 4) with 4 in *.
  pose proof (absorbed_buffer st msg _ _ Hst Hr) as H. rewrite Hs in H. exact H.
Qed.

Lemma absorbed_start : absorbed (fst (blake2b_init (Some zeroed) 64)) [].
Proof.
  destruct (blake2b_init_represents 12 zeroed 64 ltac:(lia)) as (st & E & Hr). exists st. rewrite E. auto.
Qed.

Lemma absorbed_final st msg out : absorbed st msg ->
  exists st', blake2b_final st (Some out) 64 = (st', Some (memcpy out 0 (hash 12 64 [] msg)), 0).
Proof.
  intros (st0 & -> & Hr & Hb).
  destruct (final_digest blake2b_compress 12 _ 64 (init_chain_length 64 0) st0 msg out 64 Hr Hb ltac:(lia))
    as (st' & E & _). exists (Some st'). exact E.
Qed.

(** The context after the call: wiped where the flags ask for it. *)
Definition wiped (ctx : argon2_context) : argon2_context :=
  let ctx1 := if negb (is_null (pwd ctx)) && negb (Z.land (flags ctx) ARGON2_FLAG_CLEAR_PASSWORD =? 0)
              then clear_pwd ctx else ctx in
  if negb (is_null (secret ctx1)) && negb (Z.land (flags ctx1) ARGON2_FLAG_CLEAR_SECRET =? 0)
  then clear_secret ctx1 else ctx1.

Lemma type_code_word ty : word 32 (type_code ty).
Proof. unfold word. destruct ty; cbn; lia. Qed.

Lemma initial_hash_H0 ctx ty bh : context_ok ctx ->
  initial_hash (Some bh) (Some ctx) ty = (Some (memcpy bh 0 (H0 ctx ty)), Some (wiped ctx)).
Proof.
  intros [W1 W2 W3 W4 W5 W6 W7 W8 W9 W10 R1 R2 R3 R4]. unfold initial_hash.
  set (ctx1 := if negb (is_null (pwd ctx)) && _ then clear_pwd ctx else ctx).
  assert (E1 : Argon2.salt ctx1 = Argon2.salt ctx /\ saltlen ctx1 = saltlen ctx /\ secret ctx1 = secret ctx /\
    secretlen ctx1 = secretlen ctx /\ ad ctx1 = ad ctx /\ adlen ctx1 = adlen ctx)
    by (unfold ctx1; destruct (_ && _); split_and!; reflexivity).
  destruct E1 as (-> & -> & Es & -> & Ea & Ea').
  set (ctx2 := if negb (is_null (secret ctx1)) && _ then clear_secret ctx1 else ctx1).
  assert (E2 : ad ctx2 = ad ctx1 /\ adlen ctx2 = adlen ctx1) by (unfold ctx2; clearbody ctx1; destruct (_ && _); split_and!; reflexivity).
  destruct E2 as [-> ->]. rewrite Es, Ea, Ea'.
  match goal with |- context [blake2b_final ?st _ _] =>
    assert (Hst : absorbed st (H0_input ctx ty)) end.
  { unfold H0_input. rewrite !app_assoc. rewrite <- (app_nil_l (le_encode 4 (ctx_lanes ctx))).
    repeat first [apply absorbed_buffer | apply absorbed_u32 | apply absorbed_start];
      auto using type_code_word. }
  destruct (absorbed_final _ _ bh Hst) as [st' ->]. reflexivity.
Qed.

(** ** The first blocks *)

(** The two first blocks of lane [l]: H'(H_0 || j || l). *)
Definition first_block (h0 : list Z) (j l : Z) : block :=
  load_block (hash_long 1024 (h0 ++ le_encode 4 j ++ le_encode 4 l)).

Definition put_first (inst : argon2_instance_t) (h0 : list Z) (mem : list block) (l : Z) : list block :=
  <[Z.to_nat (at_lane inst l 1) := first_block h0 1 l]>
    (<[Z.to_nat (at_lane inst l 0) := first_block h0 0 l]> mem).

Lemma memcpy_middle (a b c d : list Z) off : length a = off -> length b = length d ->
  memcpy (a ++ b ++ c) off d = a ++ d ++ c.
Proof. intros <- E. apply memcpy_app. auto. Qed.

Lemma seed_long bytes h0 j l : length h0 = 64%nat -> Forall byte h0 -> length bytes = 1024%nat ->
  exists bytes', fst (blake2b_long bytes ARGON2_BLOCK_SIZE (Some (h0 ++ le_encode 4 j ++ le_encode 4 l)) 72) = bytes' /\
    length bytes' = 1024%nat /\ load_block bytes' = first_block h0 j l.
Proof.
  intros Hl Hb Hbytes. eexists. split; [reflexivity |].
  destruct (readable_list (h0 ++ le_encode 4 j ++ le_encode 4 l)) as [Hr Hs].
  { repeat (apply Forall_app; split); auto using le_encode_bytes. }
  { rewrite !length_app, !le_encode_length. lia. }
  replace (Z.of_nat (length (h0 ++ le_encode 4 j ++ le_encode 4 l))) with 72 in Hr, Hs
    by (rewrite !length_app, !le_encode_length; lia).
  unfold ARGON2_BLOCK_SIZE. rewrite blake2b_long_hash by (auto; unfold UINT32_MAX; lia). cbn [fst].
  rewrite Hs. split; [|reflexivity].
  apply Nat2Z.inj. rewrite hash_long_length; [reflexivity | unfold UINT32_MAX; lia].
Qed.

Lemma fill_first_lane_spec inst h0 a b bytes mem l :
  instance_ok inst -> 0 <= l < lanes inst ->
  length h0 = 64%nat -> Forall byte h0 -> length a = 4%nat -> length b = 4%nat -> length bytes = 1024%nat ->
  exists bytes', fill_first_lane inst (h0 ++ a ++ b, bytes, mem) l =
    (h0 ++ le_encode 4 1 ++ le_encode 4 l, bytes', put_first inst h0 mem l) /\ length bytes' = 1024%nat.
Proof.
  intros [? HL ? ?] Hl Hh Hb Ha Hb4 Hbytes. unfold ARGON2_SYNC_POINTS in HL. unfold fill_first_lane.
  rewrite !store32_native by (unfold word; nia).
  rewrite (memcpy_middle h0 a b (le_encode 4 0)) by auto.
  rewrite (app_assoc h0), <- (app_nil_r b), (memcpy_middle (h0 ++ le_encode 4 0) b [] (le_encode 4 l))
    by (auto; rewrite length_app, Hh; reflexivity).
  rewrite app_nil_r, <- app_assoc.
  destruct (seed_long bytes h0 0 l Hh Hb Hbytes) as (bytes1 & -> & Hl1 & ->).
  rewrite (memcpy_middle h0 (le_encode 4 0) (le_encode 4 l) (le_encode 4 1)) by auto.
  destruct (seed_long bytes1 h0 1 l Hh Hb Hl1) as (bytes2 & -> & Hl2 & ->).
  exists bytes2. split; [|exact Hl2]. f_equal. unfold put_first, at_lane.
  assert (0 <= l * lane_length inst /\ l * lane_length inst + 1 < 2 ^ 32) by nia. unwrap. reflexivity.
Qed.

Lemma fill_first_blocks_spec inst h0 a b bytes mem :
  instance_ok inst -> length h0 = 64%nat -> Forall byte h0 -> length a = 4%nat -> length b = 4%nat ->
  length bytes = 1024%nat ->
  snd (fill_first_blocks bytes (h0 ++ a ++ b) inst mem) = fold_left (put_first inst h0) (seqZ 0 (lanes inst)) mem.
Proof.
  intros HI Hh Hb Ha Hb4 Hbytes. unfold fill_first_blocks.
  assert (H : forall ls a b bytes mem, (forall l, l ∈ ls -> 0 <= l < lanes inst) ->
    length a = 4%nat -> length b = 4%nat -> length bytes = 1024%nat ->
    snd (fold_left (fill_first_lane inst) ls (h0 ++ a ++ b, bytes, mem)) = fold_left (put_first inst h0) ls mem).
  { induction ls as [|l ls IH]; intros a0 b0 bytes0 mem0 Hls Ha0 Hb0 Hby0; [reflexivity |]. cbn [fold_left].
    destruct (fill_first_lane_spec inst h0 a0 b0 bytes0 mem0 l) as (bytes' & -> & Hl'); auto.
    - apply Hls, list_elem_of_here.
    - apply IH; auto. intros l' Hin. apply Hls, list_elem_of_further. exact Hin. }
  specialize (H (seqZ 0 (lanes inst)) a b bytes mem). destruct (fold_left (fill_first_lane inst) _ _) as [[x y] z].
  cbn [snd] in *. apply H; auto. intros l Hin. apply elem_of_seqZ in Hin. lia.
Qed.

Lemma put_first_length inst h0 mem l : length (put_first inst h0 mem l) = length mem.
Proof. unfold put_first. rewrite !length_insert. reflexivity. Qed.

Lemma block_at_insert mem i b k : 0 <= i < Z.of_nat (length mem) -> 0 <= k ->
  block_at (<[Z.to_nat i := b]> mem) k = if decide (k = i) then b else block_at mem k.
Proof.
  intros Hi Hk. unfold block_at. rewrite !nth_lookup. destruct (decide (k = i)) as [->|].
  - rewrite list_lookup_insert_eq by lia. reflexivity.
  - rewrite list_lookup_insert_ne by lia. reflexivity.
Qed.

(** The memory after [put_first] for the lanes of a prefix. *)
Lemma put_firsts inst h0 mem n :
  instance_ok inst -> Z.of_nat n <= lanes inst -> lanes inst * lane_length inst <= Z.of_nat (length mem) ->
  let mem' := fold_left (put_first inst h0) (seqZ 0 (Z.of_nat n)) mem in
  length mem' = length mem /\
  (forall l j, 0 <= l < Z.of_nat n -> j = 0 \/ j = 1 -> block_at mem' (at_lane inst l j) = first_block h0 j l) /\
  (forall l j, 0 <= l -> 0 <= j < lane_length inst -> Z.of_nat n <= l \/ 2 <= j ->
     block_at mem' (at_lane inst l j) = block_at mem (at_lane inst l j)).
Proof.
  intros HI Hn Hsz. pose proof HI as [H2 HL _ _]. unfold ARGON2_SYNC_POINTS in HL.
  induction n as [|n IH]; cbv zeta; [cbn; split_and!; [reflexivity | lia | reflexivity] |].
  specialize (IH ltac:(lia)). cbv zeta in IH. destruct IH as (Il & Iw & Io).
  rewrite seqZ_S, fold_left_app. cbn [fold_left]. rewrite Z.add_0_l.
  set (m := fold_left (put_first inst h0) (seqZ 0 (Z.of_nat n)) mem) in *.
  assert (Hput : forall l j, 0 <= l -> 0 <= j < lane_length inst ->
    block_at (put_first inst h0 m (Z.of_nat n)) (at_lane inst l j) =
    if decide (l = Z.of_nat n /\ j = 1) then first_block h0 1 (Z.of_nat n)
    else if decide (l = Z.of_nat n /\ j = 0) then first_block h0 0 (Z.of_nat n)
    else block_at m (at_lane inst l j)).
  { intros l j Hl Hj. unfold put_first.
    assert (Hr : forall i, i = 0 \/ i = 1 -> 0 <= at_lane inst (Z.of_nat n) i < Z.of_nat (length m))
      by (intros i Hi; unfold at_lane; nia).
    assert (0 <= at_lane inst l j) by (unfold at_lane; nia).
    rewrite !block_at_insert by (rewrite ?length_insert; auto).
    assert (Heq : forall i, i = 0 \/ i = 1 -> at_lane inst l j = at_lane inst (Z.of_nat n) i -> l = Z.of_nat n /\ j = i)
      by (intros i Hi; apply at_lane_inj; lia).
    assert (Hne : forall i, ~ (l = Z.of_nat n /\ j = i) -> i = 0 \/ i = 1 ->
      at_lane inst l j <> at_lane inst (Z.of_nat n) i) by (intros i Hn' Hi E; exact (Hn' (Heq i Hi E))).
    destruct (decide (l = Z.of_nat n /\ j = 1)) as [[-> ->]|E1]; [rewrite decide_True by reflexivity; reflexivity |].
    rewrite decide_False by auto.
    destruct (decide (l = Z.of_nat n /\ j = 0)) as [[-> ->]|E0]; [rewrite decide_True by reflexivity; reflexivity |].
    rewrite decide_False by auto. reflexivity. }
  split; [rewrite put_first_length; exact Il | split].
  - intros l j Hl Hj. rewrite Hput by lia.
    destruct (decide _) as [[-> ->]|]; [reflexivity |]. destruct (decide _) as [[-> ->]|]; [reflexivity |].
    apply Iw; lia.
  - intros l j Hl Hj Hout. rewrite Hput by lia. rewrite !decide_False by lia. apply Io; lia.
Qed.

(** ** Allocation *)

(** [allocate_memory] is safe against multiplication overflow.  For any two
    [size_t] values, if the product does not fit in 64 bits, or the allocator
    gives a null pointer, or there is nowhere to store the pointer, the call
    fails with ARGON2_MEMORY_ALLOCATION_ERROR; otherwise the allocator in force
    is asked for exactly [num * size] bytes and its answer is stored. *)
Theorem allocate_memory_overflow_safe ctx cbk malloc memory num size :
  word 64 num -> word 64 size ->
  let alloc := if allocate_cbk ctx then cbk else malloc in
  allocate_memory ctx cbk malloc memory num size =
  match memory with
  | None => (ARGON2_MEMORY_ALLOCATION_ERROR, None)
  | Some target =>
      if num * size <? 2 ^ 64 then
        match alloc target (num * size) with
        | Some mem => (ARGON2_OK, Some (Some mem))
        | None => (ARGON2_MEMORY_ALLOCATION_ERROR, Some None)
        end
      else (ARGON2_MEMORY_ALLOCATION_ERROR, Some target)
  end.
Proof.
  intros Hn Hs alloc. unfold allocate_memory, word in *. destruct memory as [target|]; [|reflexivity].
  destruct (Z.ltb_spec (num * size) (2 ^ 64)) as [Hlt|Hge].
  - rewrite (wrap_small 64) by (unfold word; nia).
    assert (E : negb (size =? 0) && negb (num * size / size =? num) = false).
    { destruct (Z.eqb_spec size 0); [reflexivity |]. rewrite Z.div_mul, Z.eqb_refl by auto. reflexivity. }
    rewrite E. unfold alloc. destruct (allocate_cbk ctx); reflexivity.
  - assert (E : negb (size =? 0) && negb (u64 (num * size) / size =? num) = true).
    { destruct (Z.eqb_spec size 0) as [->|Hz]; [lia |]. cbn [negb andb].
      destruct (Z.eqb_spec (u64 (num * size) / size) num) as [E|]; [exfalso | reflexivity].
      pose proof (wrap_word 64 (num * size) ltac:(lia)) as Hw. unfold word in Hw.
      pose proof (Z.mul_div_le (u64 (num * size)) size ltac:(lia)). rewrite E in *. nia. }
    rewrite E. reflexivity.
Qed.

Lemma allocate_memory_witness :
  word 64 (2 ^ 40) /\
  (fun ctx => fst (allocate_memory ctx (fun _ _ => None) (fun _ _ => Some []) (Some None) (2 ^ 60) 1024))
    (mk_argon2_context None 0 None 0 None 0 None 0 None 0 0 0 0 0 0 false false 0) = ARGON2_MEMORY_ALLOCATION_ERROR.
Proof.
  split; [unfold word; lia |]. cbv beta.
  rewrite (allocate_memory_overflow_safe _ _ _ (Some None) (2 ^ 60) 1024) by (unfold word; lia). reflexivity.
Defined.

(** ** Initialisation *)

Lemma H0_length ctx ty : length (H0 ctx ty) = 64%nat.
Proof. apply Nat2Z.inj. unfold H0. rewrite hash_length; [reflexivity | lia]. Qed.

(** The seed buffer after the first hash and the zeroing of its last 8 bytes. *)
Lemma seed_buffer bh h0 : length bh = 72%nat -> length h0 = 64%nat ->
  take 64 (memcpy bh 0 h0) ++ secure_wipe_memory (drop 64 (memcpy bh 0 h0)) 8 = h0 ++ replicate 4 0 ++ replicate 4 0.
Proof.
  intros Hb Hh. unfold memcpy, secure_wipe_memory. rewrite take_0, app_nil_l, Nat.add_0_l.
  rewrite (take_app_length' h0), (drop_app_length' h0) by auto. f_equal.
  rewrite drop_ge by (rewrite length_drop; change (Z.to_nat 8) with 8%nat; lia). reflexivity.
Qed.

Lemma initialize_spec cbk malloc bh bytes inst memory ctx mem :
  instance_ok inst -> context_ok ctx -> length bh = 72%nat -> length bytes = 1024%nat ->
  allocate_memory ctx cbk malloc (Some memory) (memory_blocks inst) ARGON2_BLOCK_SIZE = (ARGON2_OK, Some (Some mem)) ->
  let h0 := H0 ctx (type inst) in
  initialize true cbk malloc bh bytes (Some inst) memory (Some ctx) =
  mk_init_result ARGON2_OK (Some (set_hash_zero inst (h0 ++ replicate 8 0)))
    (Some (fold_left (put_first inst h0) (seqZ 0 (lanes inst)) mem)) (Some (wiped ctx)).
Proof.
  intros HI HC Hb Hby Ha h0. unfold initialize. rewrite Ha, initial_hash_H0 by auto. fold h0.
  cbn [from_option id clear_internal_memory]. unfold ARGON2_PREHASH_DIGEST_LENGTH, ARGON2_PREHASH_SEED_LENGTH.
  rewrite seed_buffer by (auto using H0_length).
  set (inst' := set_hash_zero inst _).
  assert (HI' : instance_ok inst') by (destruct HI; split; auto).
  pose proof (fill_first_blocks_spec inst' h0 (replicate 4 0) (replicate 4 0) bytes mem HI'
    (H0_length _ _) (hash_bytes _ _ _ _) eq_refl eq_refl Hby) as E.
  destruct (fill_first_blocks _ _ _ _) as [bh' mem'] eqn:Ef. cbn [snd] in E. rewrite E.
  assert (Ei : inst' = set_hash_zero inst (h0 ++ replicate 8 0)).
  { unfold inst'. change (replicate 8 0) with (replicate 4 0 ++ replicate 4 0). rewrite take_ge; [reflexivity |].
    rewrite !length_app. unfold h0. rewrite H0_length. reflexivity. }
  rewrite Ei. reflexivity.
Qed.

(** [initialize].  When the allocation succeeds and gives room for the
    lanes, the call returns ARGON2_OK; the stored seed is H_0, BLAKE2b-512 of
    the little-endian encoding of every parameter and input (RFC 9106, section
    3.2), followed by eight zero bytes; blocks 0 and 1 of every lane are the
    1024-byte variable-length hash of H_0, the block's place and the lane;
    every other block is as allocated; and the password and the secret are
    wiped exactly if the flags ask for it.  When the allocation fails, its code
    is returned, and neither the seed nor the context has changed. *)
Theorem initialize_seeds_lanes cbk malloc bh bytes inst memory ctx rc mem :
  instance_ok inst -> context_ok ctx -> length bh = 72%nat -> length bytes = 1024%nat ->
  allocate_memory ctx cbk malloc (Some memory) (memory_blocks inst) ARGON2_BLOCK_SIZE = (rc, Some mem) ->
  let res := initialize true cbk malloc bh bytes (Some inst) memory (Some ctx) in
  init_code res = rc /\
  (rc <> ARGON2_OK -> init_instance res = Some inst /\ init_context res = Some ctx /\ init_memory res = mem) /\
  (forall m, mem = Some m -> rc = ARGON2_OK -> lanes inst * lane_length inst <= Z.of_nat (length m) ->
     let h0 := hash 12 64 [] (H0_input ctx (type inst)) in
     exists m', init_memory res = Some m' /\ length m' = length m /\
       init_instance res = Some (set_hash_zero inst (h0 ++ replicate 8 0)) /\
       init_context res = Some (wiped ctx) /\
       (forall l j, 0 <= l < lanes inst -> j = 0 \/ j = 1 ->
          block_at m' (l * lane_length inst + j) =
          load_block (hash_long 1024 (h0 ++ le_encode 4 j ++ le_encode 4 l))) /\
       (forall l j, 0 <= l < lanes inst -> 2 <= j < lane_length inst ->
          block_at m' (l * lane_length inst + j) = block_at m (l * lane_length inst + j))).
Proof.
  intros HI HC Hb Hby Ha res.
  destruct (decide (rc = ARGON2_OK)) as [->|Hne].
  - destruct mem as [m|].
    2:{ exfalso. unfold allocate_memory in Ha. destruct (_ && _); [discriminate |].
        destruct (allocate_cbk ctx); [destruct (cbk _ _) | destruct (malloc _ _)]; discriminate. }
    pose proof (initialize_spec cbk malloc bh bytes inst memory ctx m HI HC Hb Hby Ha) as E.
    fold res in E. cbv zeta in E. rewrite E. cbn [init_code init_memory init_instance init_context].
    split; [reflexivity |]. split; [contradiction |]. intros m0 Em _ Hsz. injection Em as <-.
    destruct (put_firsts inst (H0 ctx (type inst)) m (Z.to_nat (lanes inst)) HI) as (Hl & Hw & Ho);
      [destruct HI; lia | auto |]. rewrite Z2Nat.id in * by (destruct HI; lia).
    eexists. split_and!; [reflexivity | exact Hl | reflexivity | reflexivity | exact Hw |].
    intros l j Hlj Hj. apply Ho; lia.
  - assert (E : res = mk_init_result rc (Some inst) mem (Some ctx)).
    { unfold res, initialize. rewrite Ha. destruct rc; try contradiction; reflexivity. }
    rewrite E. split; [reflexivity |]. split; [auto |]. intros; contradiction.
Qed.

(** The context of the proof of work, with a small memory. *)
Definition sample_context : argon2_context :=
  mk_argon2_context (Some (replicate 32 0)) 32 (Some (replicate 80 7)) 80 (Some (replicate 80 7)) 80
    None 0 None 0 1 16 2 2 ARGON2_VERSION_13 false false 3.
Definition sample_instance : argon2_instance_t :=
  mk_instance ARGON2_VERSION_13 1 16 2 8 2 2 Argon2_d (replicate 72 0).

Lemma sample_context_ok : context_ok sample_context.
Proof.
  assert (Hr : forall n x, 0 <= x < 256 -> readable (Some (replicate n x)) (Z.of_nat n) \/ 2 ^ 63 <= Z.of_nat n).
  { intros n x Hx. destruct (decide (2 ^ 63 <= Z.of_nat n)); [auto | left].
    pose proof (readable_list (replicate n x)) as H. rewrite length_replicate in H.
    apply H; [apply Forall_replicate; exact Hx | lia]. }
  assert (Hn : readable None 0) by (split_and!; [lia | lia | cbn; lia | constructor]).
  destruct (Hr 80%nat 7 ltac:(lia)) as [H80|]; [|lia].
  split; try exact H80; try exact Hn; unfold word; cbn; unfold ARGON2_VERSION_13; lia.
Qed.

Lemma sample_instance_ok : instance_ok sample_instance.
Proof. split; cbn; unfold ARGON2_SYNC_POINTS; lia. Qed.

Lemma initialize_seeds_witness :
  init_code (initialize true (fun _ _ => None) (fun _ _ => Some (replicate 16 [])) (replicate 72 0) (replicate 1024 0)
    (Some sample_instance) None (Some sample_context)) = ARGON2_OK /\
  option_map pwdlen (init_context (initialize true (fun _ _ => None) (fun _ _ => Some (replicate 16 []))
    (replicate 72 0) (replicate 1024 0) (Some sample_instance) None (Some sample_context))) = Some 0.
Proof.
  destruct (initialize_seeds_lanes (fun _ _ => None) (fun _ _ => Some (replicate 16 [])) (replicate 72 0)
    (replicate 1024 0) sample_instance None sample_context ARGON2_OK (Some (replicate 16 []))
    sample_instance_ok sample_context_ok eq_refl eq_refl eq_refl) as (E1 & _ & H).
  split; [exact E1 |]. destruct (H _ eq_refl eq_refl ltac:(cbn; lia)) as (m' & _ & _ & _ & E & _).
  rewrite E. reflexivity.
Defined.
