(* ===== verification/Argon2Blocks.v ===== *)
(** * Argon2Blocks: the memory stays well formed

    Every block that is written has 128 words of 64 bits, so the invariant
    survives the filling of a segment, of a slice and of the whole memory; the
    version that XORs into the old block is the overwriting one followed by a
    XOR.

    With a single pass no block is written twice, so in the final memory every
    block but the first two of a lane is the compression of the block before it
    and of its reference, both as they are at the end.  This is what the
    verifier of the Merkle tree proof recomputes. *)

From S2P Require Import Prelude Words Blake2b Blake2Spec Blake2bCorrect Blake2bHash Argon2 Argon2Core Argon2Index.
From S2P Require Import Argon2Init.

(** ** Validation *)

(** The documented restrictions on the inputs (argon2.h). *)
Record valid_context (ctx : argon2_context) : Prop := {
  v_out : is_Some (out ctx) /\ 4 <= Argon2.outlen ctx;
  v_pwd : pwd ctx = None -> pwdlen ctx = 0;
  v_salt : is_Some (Argon2.salt ctx) /\ 8 <= saltlen ctx;
  v_secret : secret ctx = None -> secretlen ctx = 0;
  v_ad : ad ctx = None -> adlen ctx = 0;
  v_memory : 8 * ctx_lanes ctx <= m_cost ctx;
  v_time : 1 <= t_cost ctx;
  v_lanes : 1 <= ctx_lanes ctx <= 0xFFFFFF;
  v_threads : 1 <= ctx_threads ctx <= 0xFFFFFF;
  v_callbacks : allocate_cbk ctx = free_cbk ctx }.

Lemma is_null_Some {A} (p : option A) : is_null p = false <-> is_Some p.
Proof. destruct p; cbn; split; eauto; try discriminate; intros [? ?]; discriminate. Qed.

Lemma null_length {A} (p : option A) n : is_null p && negb (0 =? n) = false <-> (p = None -> n = 0).
Proof.
  destruct p; cbn [is_null andb]; [split; [discriminate | reflexivity] |].
  rewrite negb_false_iff, Z.eqb_eq. split; [auto |]. intros H. symmetry. exact (H eq_refl).
Qed.

(** One check of the code. *)
Lemma check_passes (b : bool) e k : e <> ARGON2_OK -> (if b then e else k) = ARGON2_OK -> b = false /\ k = ARGON2_OK.
Proof. destruct b; intros; [contradiction | auto]. Qed.

Section validate.
Context (ctx : argon2_context) (HC : context_ok ctx).

Lemma validate_sound : validate_inputs (Some ctx) = ARGON2_OK -> valid_context ctx.
Proof.
  unfold validate_inputs, ARGON2_MIN_OUTLEN, ARGON2_MIN_SALT_LENGTH, ARGON2_MIN_TIME, ARGON2_MIN_LANES,
    ARGON2_MAX_LANES, ARGON2_MIN_THREADS, ARGON2_MAX_THREADS.
  intros Hv.
  repeat match type of Hv with
  | (if ?b then ?e else ?k) = ARGON2_OK =>
      let H := fresh in destruct (check_passes b e k ltac:(discriminate) Hv) as [H Hv']; clear Hv; rename Hv' into Hv
  end.
  assert (Hl : ctx_lanes ctx <= 16777215) by (apply Z.ltb_ge; assumption).
  assert (Hl1 : 1 <= ctx_lanes ctx) by (apply Z.ltb_ge; assumption).
  assert (Hw : u32 (8 * ctx_lanes ctx) = 8 * ctx_lanes ctx) by (apply wrap_small; unfold word; lia).
  assert (Hs : saltlen ctx <> 0).
  { intros E. assert (8 <= saltlen ctx) by (apply Z.ltb_ge; assumption). lia. }
  split.
  - split; [apply is_null_Some; assumption | apply Z.ltb_ge; assumption].
  - apply (proj1 (null_length _ _)). assumption.
  - split; [|apply Z.ltb_ge; assumption]. destruct (Argon2.salt ctx) eqn:E; [eauto |].
    exfalso. apply Hs, (proj1 (null_length (Argon2.salt ctx) _)); [rewrite E; assumption | exact E].
  - apply (proj1 (null_length _ _)). assumption.
  - apply (proj1 (null_length _ _)). assumption.
  - rewrite <- Hw. apply Z.ltb_ge. assumption.
  - apply Z.ltb_ge. assumption.
  - auto.
  - split; apply Z.ltb_ge; assumption.
  - destruct (allocate_cbk ctx), (free_cbk ctx); try reflexivity; discriminate.
Qed.

Lemma validate_complete : valid_context ctx -> validate_inputs (Some ctx) = ARGON2_OK.
Proof.
  intros [[Ho Hol] Hp [Hs Hsl] Hse Had Hm Ht Hl Hth Hcb].
  destruct HC as [W1 W2 W3 W4 W5 W6 W7 W8 W9 W10 _ _ _ _]. unfold word in *.
  assert (Hw : u32 (8 * ctx_lanes ctx) = 8 * ctx_lanes ctx) by (apply wrap_small; unfold word; lia).
  assert (Hsn : Argon2.salt ctx = None -> saltlen ctx = 0) by (destruct Hs as [? ->]; discriminate).
  apply is_null_Some in Ho. apply null_length in Hp, Hsn, Hse, Had.
  unfold validate_inputs. rewrite Ho, Hp, Hsn, Hse, Had, Hw, Hcb.
  repeat match goal with
  | |- context [?a <? ?b] => replace (a <? b) with false
      by (symmetry; apply Z.ltb_ge; cbv [ARGON2_MIN_OUTLEN ARGON2_MAX_OUTLEN ARGON2_MIN_PWD_LENGTH
        ARGON2_MAX_PWD_LENGTH ARGON2_MIN_SALT_LENGTH ARGON2_MAX_SALT_LENGTH ARGON2_MIN_SECRET ARGON2_MAX_SECRET
        ARGON2_MIN_AD_LENGTH ARGON2_MAX_AD_LENGTH ARGON2_MIN_TIME ARGON2_MAX_TIME ARGON2_MIN_LANES ARGON2_MAX_LANES
        ARGON2_MIN_THREADS ARGON2_MAX_THREADS]; try change ARGON2_MIN_MEMORY with 8;
        try change ARGON2_MAX_MEMORY with 0xFFFFFFFF; lia)
  end.
  rewrite !andb_false_r. destruct (free_cbk ctx); reflexivity.
Qed.
End validate.

(** [validate_inputs] accepts exactly the documented inputs: an output
    buffer of at least 4 bytes, a salt of at least 8, no null pointer with a
    length, 1 to 2^24-1 lanes and threads, at least one pass, at least 8 blocks
    per lane (the 32-bit product [8 * lanes] cannot wrap unnoticed), and both
    memory callbacks or none.  A null context is an incorrect parameter. *)
Theorem validate_inputs_exact ctx : context_ok ctx ->
  (validate_inputs (Some ctx) = ARGON2_OK <-> valid_context ctx) /\
  validate_inputs None = ARGON2_INCORRECT_PARAMETER.
Proof.
  intros HC. split; [|reflexivity].
  split; [apply validate_sound | apply validate_complete; exact HC].
Qed.

Lemma validate_inputs_witness : valid_context sample_context /\
  validate_inputs (Some sample_context) = ARGON2_OK.
Proof.
  assert (E : validate_inputs (Some sample_context) = ARGON2_OK) by (vm_compute; reflexivity).
  split; [|exact E]. apply (proj1 (validate_inputs_exact sample_context sample_context_ok)). exact E.
Defined.

(** ** Finalisation *)

(** A block of 128 words of 64 bits. *)
Definition block_ok (b : block) : Prop := length b = 128%nat /\ Forall (word 64) b.

Lemma xor_block_length b c : length b = 128%nat -> length c = 128%nat -> length (xor_block b c) = 128%nat.
Proof. intros. unfold xor_block. rewrite length_zip_with. lia. Qed.

Lemma xor_block_nth b c i : length b = 128%nat -> length c = 128%nat -> (i < 128)%nat ->
  (xor_block b c).[i] = b.[i] ⊕ c.[i].
Proof.
  intros Hb Hc Hi. unfold xor_block. rewrite !nth_lookup.
  destruct (lookup_lt_is_Some_2 b i) as [x Hx]; [lia |]. destruct (lookup_lt_is_Some_2 c i) as [y Hy]; [lia |].
  assert (E : zip_with Z.lxor b c !! i = Some (x ⊕ y)) by (apply lookup_zip_with_Some; eauto).
  rewrite E, Hx, Hy. reflexivity.
Qed.

Section finish.
Context (inst : argon2_instance_t) (HI : instance_ok inst).

(** The last block of lane [l]. *)
Definition lane_last (mem : list block) (l : Z) : block := block_at mem (at_lane inst l (lane_length inst - 1)).

Definition xor_lanes (mem : list block) (i : nat) : Z :=
  fold_left Z.lxor (map (fun l => (lane_last mem l).[i]) (seqZ 0 (lanes inst))) 0.

Lemma last_blocks_fold mem : Forall block_ok mem -> lanes inst * lane_length inst <= Z.of_nat (length mem) ->
  last_blocks inst mem = fold_left (fun b l => xor_block b (lane_last mem l)) (seqZ 1 (lanes inst - 1)) (lane_last mem 0).
Proof.
  intros Hm Hsz. pose proof (geometry inst HI) as (G1 & G2 & G3). unfold last_blocks.
  assert (E0 : copy_block (block_at mem (lane_length inst - 1)) = lane_last mem 0).
  { unfold copy_block, lane_last, at_lane. rewrite Z.mul_0_l, Z.add_0_l. apply take_ge.
    unfold block_at. rewrite Forall_forall in Hm.
    destruct (Hm (nth (Z.to_nat (lane_length inst - 1)) mem [])) as [-> _]; [|reflexivity].
    apply list_elem_of_In, nth_In. destruct HI. nia. }
  rewrite E0. generalize (lane_last mem 0).
  assert (Hin : forall l, l ∈ seqZ 1 (lanes inst - 1) -> 0 <= l < lanes inst) by (intros l; rewrite elem_of_seqZ; lia).
  induction (seqZ 1 (lanes inst - 1)) as [|l ls IH]; intros b; [reflexivity |]. cbn [fold_left].
  rewrite IH by (intros; apply Hin, list_elem_of_further; auto). f_equal. f_equal. unfold lane_last. f_equal.
  specialize (Hin l (list_elem_of_here _ _)). pose proof (at_lane_bounds inst HI l (lane_length inst - 1) ltac:(lia) ltac:(lia)).
  unfold at_lane in *. unwrap; nia.
Qed.

Lemma lane_last_ok mem l : Forall block_ok mem -> lanes inst * lane_length inst <= Z.of_nat (length mem) ->
  0 <= l < lanes inst -> block_ok (lane_last mem l).
Proof.
  intros Hm Hsz Hl. pose proof (geometry inst HI) as (G1 & G2 & G3).
  pose proof (at_lane_bounds inst HI l (lane_length inst - 1) Hl ltac:(lia)).
  rewrite Forall_forall in Hm. apply Hm, list_elem_of_In, nth_In. lia.
Qed.

Lemma last_blocks_words mem : Forall block_ok mem -> lanes inst * lane_length inst <= Z.of_nat (length mem) ->
  last_blocks inst mem = map (xor_lanes mem) (seq 0 128).
Proof.
  intros Hm Hsz. pose proof (geometry inst HI) as (_ & _ & G3). rewrite last_blocks_fold by auto.
  assert (H : forall ls b, length b = 128%nat -> (forall l, l ∈ ls -> 0 <= l < lanes inst) ->
    length (fold_left (fun b l => xor_block b (lane_last mem l)) ls b) = 128%nat /\
    forall i, (i < 128)%nat -> (fold_left (fun b l => xor_block b (lane_last mem l)) ls b).[i] =
      fold_left Z.lxor (map (fun l => (lane_last mem l).[i]) ls) b.[i]).
  { induction ls as [|l ls IH]; intros b Hb Hls; [auto |]. cbn [fold_left map].
    destruct (lane_last_ok mem l Hm Hsz (Hls l (list_elem_of_here _ _))) as [Hll _].
    destruct (IH (xor_block b (lane_last mem l))) as [Il Iw];
      [apply xor_block_length; auto | intros; apply Hls, list_elem_of_further; auto |].
    split; [exact Il |]. intros i Hi. rewrite Iw, xor_block_nth by auto. reflexivity. }
  destruct (lane_last_ok mem 0 Hm Hsz ltac:(lia)) as [H0l _].
  destruct (H (seqZ 1 (lanes inst - 1)) _ H0l) as [Hl Hw]; [intros l; rewrite elem_of_seqZ; lia |].
  apply (nth_ext _ _ 0 0); [rewrite Hl, length_map, length_seq; reflexivity |].
  intros i Hi. rewrite Hl in Hi. rewrite Hw by auto.
  rewrite (nth_indep (map _ _) 0 (xor_lanes mem 0)) by (rewrite length_map, length_seq; exact Hi).
  rewrite map_nth, seq_nth by exact Hi. cbn [plus].
  unfold xor_lanes. rewrite (seqZ_cons 0) by lia. cbn [map fold_left].
  rewrite Z.lxor_0_l. reflexivity.
Qed.

Lemma store_block_bytes b : Forall byte (store_block b) /\ length (store_block b) = 1024%nat.
Proof.
  unfold store_block. split.
  - apply Forall_flat_map, Forall_forall. intros. apply store64_bytes.
  - rewrite (flat_map_constant_length (c := 8%nat)); [rewrite length_seq; reflexivity |].
    intros. apply store64_length.
Qed.

(** [finalize].  For a memory of well-formed blocks the output buffer
    receives the variable-length hash (RFC 9106, H') of the little-endian bytes
    of the XOR of the last blocks of all lanes; every byte of the memory is
    zero when it is given back, through the callback exactly when one was
    given.  With a null context or instance nothing happens. *)
Theorem finalize_hashes_lanes_and_wipes ctx o mem :
  out ctx = Some o -> Z.of_nat (length o) = Argon2.outlen ctx -> 1 <= Argon2.outlen ctx <= UINT32_MAX ->
  Forall block_ok mem -> lanes inst * lane_length inst <= Z.of_nat (length mem) ->
  Z.of_nat (length mem) = memory_blocks inst -> memory_blocks inst < 2 ^ 32 ->
  let result := hash_long (Argon2.outlen ctx)
    (flat_map (fun i => le_encode 8 (xor_lanes mem i)) (seq 0 128)) in
  finalize true (Some ctx) (Some (inst, mem)) =
    (Some (set_out ctx (Some result)),
     Some (mk_release (free_cbk ctx) (Some (replicate (1024 * length mem) 0)) (1024 * memory_blocks inst))) /\
  finalize true None (Some (inst, mem)) = (None, None) /\ finalize true (Some ctx) None = (Some ctx, None).
Proof.
  intros Ho Hol Hr Hm Hsz Hmb Hmb32 result. split; [|split; reflexivity].
  unfold finalize. rewrite Ho.
  destruct (store_block_bytes (last_blocks inst mem)) as [Hb Hl].
  destruct (readable_list _ Hb) as [Hrd Hs]; [lia |]. rewrite Hl in Hrd, Hs.
  change (Z.of_nat 1024) with ARGON2_BLOCK_SIZE in *.
  rewrite blake2b_long_hash by auto. cbn [fst]. rewrite Hs.
  assert (E1 : store_block (last_blocks inst mem) = flat_map (fun i => le_encode 8 (xor_lanes mem i)) (seq 0 128)).
  { unfold store_block. rewrite last_blocks_words by auto. rewrite !flat_map_concat_map. f_equal.
    apply map_ext_in. intros i Hi. apply in_seq in Hi. rewrite store64_low. f_equal.
    rewrite (nth_indep (map _ _) 0 (xor_lanes mem 0)) by (rewrite length_map, length_seq; apply Hi).
    rewrite map_nth, seq_nth by apply Hi. reflexivity. }
  rewrite E1. fold result. f_equal. f_equal. unfold free_memory, ARGON2_BLOCK_SIZE.
  assert (El : length (flat_map store_block mem) = (1024 * length mem)%nat).
  { rewrite (flat_map_constant_length (c := 1024%nat)); [lia |]. intros. apply store_block_bytes. }
  rewrite (wrap_small 64) by (unfold word; lia). rewrite (Z.mul_comm _ 1024).
  cbn [clear_internal_memory]. unfold secure_wipe_memory. rewrite drop_ge by lia. rewrite app_nil_r.
  do 3 f_equal. lia.
Qed.
End finish.

Lemma finalize_witness :
  fst (finalize true (Some sample_context) (Some (sample_instance, replicate 16 (replicate 128 0)))) =
  Some (set_out sample_context (Some (hash_long 32 (replicate 1024 0)))).
Proof.
  destruct (finalize_hashes_lanes_and_wipes sample_instance sample_instance_ok sample_context (replicate 32 0)
    (replicate 16 (replicate 128 0)) eq_refl eq_refl ltac:(cbn; unfold UINT32_MAX; lia)
    ltac:(apply Forall_replicate; split; [reflexivity | apply Forall_replicate; unfold word; lia])
    ltac:(cbn; lia) ltac:(cbn; lia) ltac:(cbn; lia)) as (E & _).
  rewrite E. cbn [fst]. do 4 f_equal.
Defined.

(** ** The round function *)

Lemma block_ok_insert b i x : block_ok b -> word 64 x -> block_ok (<[i := x]> b).
Proof. intros [? ?] ?. split; [rewrite length_insert; auto | apply Forall_insert; auto]. Qed.

Lemma fBlaMka_word x y : word 64 (fBlaMka x y).
Proof. apply wrap_word. lia. Qed.
#[export] Hint Resolve block_ok_insert fBlaMka_word : words.

Lemma blamka_G_ok a b c d v : block_ok v -> block_ok (blamka_G a b c d v).
Proof. intros. unfold blamka_G. auto 20 with words. Qed.

Lemma BLAKE2_ROUND_ok p v : block_ok v -> block_ok (BLAKE2_ROUND_NOMSG p v).
Proof. intros. unfold BLAKE2_ROUND_NOMSG. auto 20 using blamka_G_ok. Qed.

Lemma rounds_ok v : block_ok v -> block_ok (row_rounds (column_rounds v)).
Proof.
  intros. unfold row_rounds, column_rounds.
  repeat (apply fold_left_inv; [|auto using BLAKE2_ROUND_ok]). auto.
Qed.

Lemma xor_block_ok b c : block_ok b -> block_ok c -> block_ok (xor_block b c).
Proof.
  intros [Hb Wb] [Hc Wc]. split; [apply xor_block_length; auto |].
  unfold xor_block. apply Forall_lookup. intros i x Hx.
  apply lookup_zip_with_Some in Hx as (y & z & -> & Hy & Hz). rewrite Forall_lookup in Wb, Wc.
  eauto with words.
Qed.

Lemma copy_block_ok b : block_ok b -> copy_block b = b.
Proof. intros [H _]. apply take_ge. rewrite H. reflexivity. Qed.

(** ** Filling a block *)

(** The seed holds at least 32 bytes. *)
Definition seed_ok (h0 : list Z) : Prop := (32 <= length h0)%nat /\ Forall byte h0.

(** The block that goes through the rounds: reference and previous block, with
    the index and the seed written over five words. *)
Definition mixed (prev ref : block) (block_index : Z) (h0 : list Z) : block :=
  let b := xor_block ref prev in
  let b := <[14%nat := le_decode (le_encode 4 0 ++ le_encode 4 block_index)]> b in
  let b := <[16%nat := le_decode (take 8 h0)]> b in
  let b := <[17%nat := le_decode (take 8 (drop 8 h0))]> b in
  let b := <[18%nat := le_decode (take 8 (drop 16 h0))]> b in
  <[19%nat := le_decode (take 8 (drop 24 h0))]> b.

Lemma le_decode_8 bs : (length bs <= 8)%nat -> Forall byte bs -> word 64 (le_decode bs).
Proof.
  intros Hl Hb. pose proof (le_decode_range bs Hb).
  assert (256 ^ Z.of_nat (length bs) <= 256 ^ 8) by (apply Z.pow_le_mono_r; lia).
  unfold word. change (2 ^ 64) with (256 ^ 8). lia.
Qed.

Lemma mixed_ok prev ref i h0 : block_ok prev -> block_ok ref -> seed_ok h0 -> block_ok (mixed prev ref i h0).
Proof.
  intros Hp Hr [_ Hb]. unfold mixed.
  assert (Hw : forall n, word 64 (le_decode (take 8 (drop n h0)))).
  { intros n. apply le_decode_8; [rewrite length_take; lia | auto using Forall_take, Forall_drop]. }
  assert (Hi : word 64 (le_decode (le_encode 4 0 ++ le_encode 4 i))).
  { apply le_decode_8; [rewrite length_app, !le_encode_length; lia |].
    apply Forall_app. auto using le_encode_bytes. }
  pose proof (Hw 0%nat) as H0. rewrite drop_0 in H0.
  repeat (apply block_ok_insert; [|auto]). apply xor_block_ok; auto.
Qed.

Lemma fill_block_mtp_eq prev ref next (b : bool) i h0 : block_ok prev -> block_ok ref ->
  fill_block_mtp prev ref next b i h0 =
  xor_block (copy_block (if b then xor_block (xor_block ref prev) next else xor_block ref prev))
    (row_rounds (column_rounds (mixed prev ref i h0))).
Proof.
  intros Hp Hr. unfold fill_block_mtp, mixed. rewrite (copy_block_ok ref) by auto.
  rewrite (copy_block_ok (xor_block ref prev)) by (apply xor_block_ok; auto). reflexivity.
Qed.

Lemma fill_block_mtp_ok prev ref next (b : bool) i h0 :
  block_ok prev -> block_ok ref -> block_ok next -> seed_ok h0 -> block_ok (fill_block_mtp prev ref next b i h0).
Proof.
  intros Hp Hr Hn Hs. rewrite fill_block_mtp_eq by auto.
  assert (Ht : block_ok (if b then xor_block (xor_block ref prev) next else xor_block ref prev))
    by (destruct b; auto using xor_block_ok).
  rewrite copy_block_ok by exact Ht. apply xor_block_ok; [exact Ht |]. apply rounds_ok, mixed_ok; auto.
Qed.

(** The order of XORs does not matter. *)
Lemma xor_block_swap a b c : block_ok a -> block_ok b -> block_ok c ->
  xor_block (xor_block a b) c = xor_block (xor_block a c) b.
Proof.
  intros [Ha _] [Hb _] [Hc _].
  assert (Hl := xor_block_length). apply (nth_ext _ _ 0 0); [rewrite !Hl by auto; reflexivity |].
  intros i Hi. rewrite Hl in Hi by auto. rewrite !xor_block_nth by auto.
  rewrite !Z.lxor_assoc. f_equal. apply Z.lxor_comm.
Qed.

(** ** The memory *)

Section memory.
Context (inst : argon2_instance_t) (HI : instance_ok inst).
Context (Hseed : seed_ok (take ARGON2_PREHASH_SEED_LENGTH (hash_zero inst))).

Definition memory_ok (mem : list block) : Prop :=
  Forall block_ok mem /\ lanes inst * lane_length inst <= Z.of_nat (length mem).

Lemma block_at_ok mem k : memory_ok mem -> 0 <= k < lanes inst * lane_length inst -> block_ok (block_at mem k).
Proof.
  intros [Hm Hsz] Hk. rewrite Forall_forall in Hm. apply Hm, list_elem_of_In, nth_In. lia.
Qed.

Lemma write_block_ok pos mem i : position_ok inst pos -> 0 <= i < segment_length inst ->
  memory_ok mem -> memory_ok (write_block inst pos mem i).
Proof.
  intros Hp Hi Hm. pose proof (geometry inst HI) as (G1 & G2 & G3). pose proof (curr_range inst HI pos i Hp Hi) as Hc.
  assert (Hv : 0 <= (slice pos * segment_length inst + i - 1) mod lane_length inst < lane_length inst)
    by (apply Z.mod_pos_bound; lia).
  pose proof (at_lane_bounds inst HI _ _ (ok_pos_lane _ _ Hp) Hc) as [B1 _].
  pose proof (at_lane_bounds inst HI _ _ (ok_pos_lane _ _ Hp) Hv) as [B2 _].
  split; [|rewrite write_length; apply Hm]. unfold write_block. apply Forall_insert; [apply Hm |].
  unfold new_block. apply fill_block_mtp_ok; auto; apply block_at_ok; auto.
  unfold ref_of. eapply at_lane_bounds; [exact HI | apply ref_lane_range; auto | apply index_alpha_range; auto].
Qed.

Lemma fill_segment_ok pos mem : position_ok inst pos -> memory_ok mem -> memory_ok (fill_segment_mtp inst pos mem).
Proof.
  intros Hp. rewrite fill_segment_writes by auto.
  assert (Hi : forall i, i ∈ indices inst pos -> 0 <= i < segment_length inst).
  { intros i H. apply elem_of_seqZ in H. pose proof (starting_index_cases pos). lia. }
  revert mem. induction (indices inst pos) as [|i ixs IH]; intros mem Hm; [exact Hm |]. cbn [fold_left].
  apply IH; [intros; apply Hi, list_elem_of_further; auto |].
  apply write_block_ok; auto. apply Hi, list_elem_of_here.
Qed.

Lemma slice_seq_ok r s mem : 0 <= r -> 0 <= s < 4 -> memory_ok mem -> memory_ok (slice_seq inst r s mem).
Proof.
  intros Hr Hs Hm. unfold slice_seq.
  assert (Hl : forall l, l ∈ seqZ 0 (lanes inst) -> 0 <= l < lanes inst) by (intros l; rewrite elem_of_seqZ; lia).
  revert mem Hm. induction (seqZ 0 (lanes inst)) as [|l ls IH]; intros mem Hm; [exact Hm |]. cbn [fold_left].
  apply IH; [intros; apply Hl, list_elem_of_further; auto |].
  apply fill_segment_ok; [|exact Hm]. split; cbn; auto. apply Hl, list_elem_of_here.
Qed.
End memory.

(** The memory invariant.  Starting from a memory of well-formed blocks (128
    words of 64 bits each) with room for all lanes, filling a segment at any
    position, and filling the whole memory pass by pass, leaves a memory of
    well-formed blocks of the same size. *)
Theorem filling_keeps_blocks_well_formed inst mem pos :
  instance_ok inst -> seed_ok (take ARGON2_PREHASH_SEED_LENGTH (hash_zero inst)) ->
  Forall block_ok mem -> lanes inst * lane_length inst <= Z.of_nat (length mem) ->
  position_ok inst pos ->
  (Forall block_ok (fill_segment_mtp inst pos mem) /\ length (fill_segment_mtp inst pos mem) = length mem) /\
  (Forall block_ok (fill_memory_blocks_st_mtp inst mem) /\ length (fill_memory_blocks_st_mtp inst mem) = length mem).
Proof.
  intros HI Hs Hm Hsz Hp. split; split.
  - apply (fill_segment_ok inst HI Hs pos mem Hp (conj Hm Hsz)).
  - rewrite fill_segment_writes by auto. apply (fold_left_inv (fun m => length m = length mem)); [reflexivity |].
    intros a b Ha. rewrite write_length. exact Ha.
  - assert (H : memory_ok inst (fill_memory_blocks_st_mtp inst mem)); [|apply H].
    rewrite fill_memory_blocks_st_slices.
    assert (Hr : forall r, r ∈ seqZ 0 (passes inst) -> 0 <= r) by (intros r; rewrite elem_of_seqZ; lia).
    assert (Hm0 : memory_ok inst mem) by (split; auto). clear Hm Hsz. revert mem Hm0.
    induction (seqZ 0 (passes inst)) as [|r rs IH]; intros mem Hm0; [exact Hm0 |]. cbn [fold_left].
    apply IH; [intros; apply Hr, list_elem_of_further; auto |].
    assert (Hr0 : 0 <= r) by apply Hr, list_elem_of_here.
    change (seqZ 0 4) with [0; 1; 2; 3]. cbn [fold_left].
    repeat (apply (slice_seq_ok inst HI Hs); [exact Hr0 | lia |]). exact Hm0.
  - rewrite fill_memory_blocks_st_slices.
    assert (Hr : forall r, r ∈ seqZ 0 (passes inst) -> 0 <= r) by (intros r; rewrite elem_of_seqZ; lia).
    enough (H : forall m, length m = length mem -> length (fold_left
      (fun mem r => fold_left (fun mem s => slice_seq inst r s mem) (seqZ 0 4) mem) (seqZ 0 (passes inst)) m) = length mem)
      by (apply H; reflexivity).
    induction (seqZ 0 (passes inst)) as [|r rs IH]; intros m Hl; [exact Hl |]. cbn [fold_left].
    apply IH; [intros; apply Hr, list_elem_of_further; auto |].
    assert (Hr0 : 0 <= r) by apply Hr, list_elem_of_here.
    change (seqZ 0 4) with [0; 1; 2; 3]. cbn [fold_left].
    repeat (rewrite slice_seq_length; [|exact HI|exact Hr0|unfold ARGON2_SYNC_POINTS; lia|]); lia.
Qed.

Lemma filling_keeps_blocks_witness :
  Forall block_ok (fill_segment_mtp sample_instance (mk_position 0 1 2 0) (replicate 16 (replicate 128 0))).
Proof.
  refine (proj1 (proj1 (filling_keeps_blocks_well_formed sample_instance (replicate 16 (replicate 128 0)) (mk_position 0 1 2 0)
    sample_instance_ok _ _ _ _))).
  - split; [cbn; lia | apply Forall_take, Forall_replicate; unfold word; lia].
  - apply Forall_replicate. split; [reflexivity | apply Forall_replicate; unfold word; lia].
  - cbn; lia.
  - split; cbn; unfold ARGON2_SYNC_POINTS; lia.
Defined.

(** From the second pass on, version 1.3 XORs the new block into the old
    one: [fill_block_mtp] with [with_xor] set writes exactly the block it would
    write without, XORed with the previous contents of the place; and the old
    contents have no other influence. *)
Theorem with_xor_accumulates prev ref next i h0 :
  block_ok prev -> block_ok ref -> block_ok next -> seed_ok h0 ->
  fill_block_mtp prev ref next true i h0 = xor_block (fill_block_mtp prev ref next false i h0) next /\
  forall next', fill_block_mtp prev ref next' false i h0 = fill_block_mtp prev ref next false i h0.
Proof.
  intros Hp Hr Hn Hs. split; [|reflexivity]. rewrite !fill_block_mtp_eq by auto.
  assert (Hx : block_ok (xor_block ref prev)) by (apply xor_block_ok; auto).
  rewrite !copy_block_ok by (auto using xor_block_ok).
  apply xor_block_swap; auto. apply rounds_ok, mixed_ok; auto.
Qed.

Lemma with_xor_accumulates_witness :
  fill_block_mtp (replicate 128 1) (replicate 128 2) (replicate 128 3) true 5 (replicate 72 9) =
  xor_block (fill_block_mtp (replicate 128 1) (replicate 128 2) (replicate 128 3) false 5 (replicate 72 9)) (replicate 128 3).
Proof.
  refine (proj1 (with_xor_accumulates (replicate 128 1) (replicate 128 2) (replicate 128 3) 5 (replicate 72 9) _ _ _ _));
    (split; [cbn; lia | apply Forall_replicate; unfold word; lia]).
Defined.

Section fixpoint.
Context (inst : argon2_instance_t) (HI : instance_ok inst).
Abbreviation L := (lane_length inst).
Abbreviation seg := (segment_length inst).

(** ** One slice of the first pass *)

Section slice.
Context (s : Z) (Hs : 0 <= s < ARGON2_SYNC_POINTS).
Abbreviation pos l := (lane_pos 0 s l).

Lemma indices_at l n i : indices inst (pos l) !! n = Some i -> i = starting_index (pos l) + Z.of_nat n /\ i < seg.
Proof. intros H. apply lookup_seqZ in H. lia. Qed.

(** Writes at other places do not change a block. *)
Lemma lane_run_stable l n m mem k : 0 <= l < lanes inst -> 0 <= k ->
  lanes inst * L <= Z.of_nat (length mem) ->
  (forall i, starting_index (pos l) + Z.of_nat n <= i -> k <> curr_of inst (pos l) i) ->
  block_at (lane_run inst 0 s l (n + m) mem) k = block_at (lane_run inst 0 s l n mem) k.
Proof.
  intros Hl Hk Hsz Hne. pose proof (lane_pos_ok inst 0 s ltac:(lia) Hs l Hl) as Hp. induction m as [|m IH]; [rewrite Nat.add_0_r; reflexivity |].
  rewrite Nat.add_succ_r. pose proof (starting_index_cases (pos l)).
  destruct (indices inst (pos l) !! (n + m)%nat) as [i|] eqn:E.
  - pose proof (indices_at _ _ _ E). rewrite (lane_run_S inst 0 s l _ i mem E).
    rewrite (block_at_write inst HI) by (rewrite ?lane_run_length; auto; lia).
    rewrite decide_False by (apply Hne; lia). exact IH.
  - rewrite <- IH. apply lookup_ge_None in E. unfold lane_run. rewrite !take_ge by lia. reflexivity.
Qed.

Lemma slice_seq_outside mem k : 0 <= k -> lanes inst * L <= Z.of_nat (length mem) ->
  (forall l, 0 <= l < lanes inst -> ~ in_segment inst l s k) -> block_at (slice_seq inst 0 s mem) k = block_at mem k.
Proof. intros Hk Hsz H. apply (ov_outside inst 0 s _ _ _ (overlay_seq inst HI 0 s ltac:(lia) Hs mem Hsz)); auto. Qed.

Lemma in_segment_at l l' j : 0 <= j < L -> in_segment inst l s (at_lane inst l' j) -> l = l' /\ s * seg <= j < (s + 1) * seg.
Proof.
  intros Hj H. apply in_segment_place in H as (j' & E & H1 & H2); [|exact HI | exact Hs].
  apply at_lane_inj in E; [|auto|auto]. destruct E as [-> ->]. auto.
Qed.

(** Blocks of earlier slices, and of the own lane up to the current one, have
    their value of the end of the slice already. *)
Lemma settled mem l l' j i : lanes inst * L <= Z.of_nat (length mem) ->
  0 <= l < lanes inst -> 0 <= l' < lanes inst -> 0 <= j < L ->
  starting_index (pos l) <= i < seg -> j < s * seg \/ l' = l /\ j < s * seg + i ->
  block_at (lane_run inst 0 s l (Z.to_nat (i - starting_index (pos l))) mem) (at_lane inst l' j) =
  block_at (slice_seq inst 0 s mem) (at_lane inst l' j).
Proof.
  intros Hsz Hl Hl' Hj Hi Hc. pose proof (starting_index_cases (pos l)) as Hst.
  assert (Hk : 0 <= at_lane inst l' j) by (apply (at_lane_bounds inst HI); auto).
  destruct (decide (j < s * seg)) as [Hlt|Hge].
  - assert (Hout : forall l, ~ in_segment inst l s (at_lane inst l' j)).
    { intros l0 H. apply in_segment_at in H as [_ H]; [lia | auto]. }
    rewrite slice_seq_outside by auto. apply (lane_run_outside inst HI); auto; lia.
  - destruct Hc as [|[-> Hlt]]; [lia |].
    assert (Hin : in_segment inst l s (at_lane inst l j)) by (unfold in_segment, at_lane; lia).
    rewrite (ov_inside inst 0 s _ _ _ (overlay_seq inst HI 0 s ltac:(lia) Hs mem Hsz) l) by auto.
    assert (Ew : writes inst 0 s = Z.to_nat (seg - starting_index (pos l))) by (unfold writes, indices; rewrite length_seqZ; reflexivity).
    rewrite Ew. replace (Z.to_nat (seg - starting_index (pos l)))
      with (Z.to_nat (i - starting_index (pos l)) + Z.to_nat (seg - i))%nat by lia.
    symmetry. apply lane_run_stable; auto. intros i' Hi' E. unfold curr_of in E. cbn [slice lane lane_pos] in E.
    unfold at_lane in E. lia.
Qed.

(** The reference of a block is settled. *)
Lemma ref_settled l i pr : 0 <= l < lanes inst -> starting_index (pos l) <= i < seg ->
  exists l' j, ref_of inst (pos l) i pr = at_lane inst l' j /\ 0 <= l' < lanes inst /\ 0 <= j < L /\
    (j < s * seg \/ l' = l /\ j < s * seg + i).
Proof.
  intros Hl Hi. pose proof (lane_pos_ok inst 0 s ltac:(lia) Hs l Hl) as Hp.
  unfold ref_of. eexists _, _. split; [reflexivity |]. split; [apply (ref_lane_range inst HI); auto |].
  split; [apply index_alpha_range; auto |].
  set (pos' := mk_position (pass (pos l)) (lane (pos l)) (slice (pos l)) i).
  assert (Hp' : position_ok inst pos') by (destruct Hp; split; auto).
  assert (Hpr : 0 <= Z.land pr 0xFFFFFFFF < 2 ^ 32).
  { replace 0xFFFFFFFF with (Z.ones 32) by reflexivity. rewrite Z.land_ones by lia. apply Z.mod_pos_bound. lia. }
  set (same := ref_lane_of inst (pos l) pr =? lane (pos l)).
  rewrite (index_alpha_spec inst pos' _ same HI Hp' Hi Hpr).
  pose proof (area_size_bounds inst pos' same HI Hp' Hi) as Ha.
  pose proof (scaled_bounds (area_size inst pos' same) (Z.land pr 0xFFFFFFFF) ltac:(lia) Hpr) as Hsc.
  unfold area_start. cbn [pass pos' lane_pos]. cbn [Z.eqb]. rewrite Z.add_0_l, Z.mod_small by lia.
  unfold area_size in *. cbn [pass slice index pos' lane_pos lane] in *. cbn [Z.eqb] in *.
  destruct (Z.eqb_spec s 0) as [E0|E0].
  - right. split; [|lia]. unfold ref_lane_of. cbn [pass slice lane lane_pos]. rewrite E0. reflexivity.
  - unfold same in *. destruct (Z.eqb_spec (ref_lane_of inst (pos l) pr) l) as [E|E]; [right; split; [exact E | lia] | left].
    destruct (i =? 0); lia.
Qed.

(** The block of index [i] after the slice, from the blocks after the slice. *)
Lemma slice_block mem l i : lanes inst * L <= Z.of_nat (length mem) -> 0 <= l < lanes inst ->
  starting_index (pos l) <= i < seg ->
  let M := slice_seq inst 0 s mem in
  let prev := block_at M (at_lane inst l (s * seg + i - 1)) in
  let ref := ref_of inst (pos l) i prev.[0] in
  block_at M (at_lane inst l (s * seg + i)) =
  fill_block_mtp prev (block_at M ref) [] false ref (take ARGON2_PREHASH_SEED_LENGTH (hash_zero inst)).
Proof.
  intros Hsz Hl Hi. cbv zeta. pose proof (starting_index_cases (pos l)) as Hst. pose proof (geometry inst HI) as (G1 & G2 & G3).
  pose proof (lane_pos_ok inst 0 s ltac:(lia) Hs l Hl) as Hp. unfold ARGON2_SYNC_POINTS in Hs.
  set (n := Z.to_nat (i - starting_index (pos l))). set (m := lane_run inst 0 s l n mem).
  assert (Hj : 0 <= s * seg + i < L) by nia.
  assert (Hpos : 1 <= s * seg + i).
  { destruct Hst as [(_ & _ & H)|[[H|H] H0]]; rewrite ?H, ?H0 in Hi; cbn in H; [nia | lia | nia]. }
  pose proof (at_lane_bounds inst HI l _ Hl Hj) as Hat.
  assert (E : block_at (slice_seq inst 0 s mem) (at_lane inst l (s * seg + i)) = new_block inst (pos l) i m).
  { rewrite (ov_inside inst 0 s _ _ _ (overlay_seq inst HI 0 s ltac:(lia) Hs mem Hsz) l) by (auto; unfold in_segment, at_lane; lia).
    assert (Ew : writes inst 0 s = (S n + Z.to_nat (seg - i - 1))%nat).
    { unfold writes, indices. rewrite length_seqZ. change (starting_index (pos 0)) with (starting_index (pos l)). unfold n. lia. }
    rewrite Ew, lane_run_stable; auto; [|lia |].
    - assert (El : indices inst (pos l) !! n = Some i) by (apply lookup_seqZ; unfold n; lia).
      rewrite (lane_run_S inst 0 s l n i mem El).
      rewrite (block_at_write inst HI) by (rewrite ?lane_run_length; auto; lia).
      rewrite decide_True by reflexivity. reflexivity.
    - intros i' Hi' Ec. unfold curr_of, at_lane in Ec. cbn [slice lane lane_pos] in Ec. lia. }
  rewrite E. unfold new_block, prev_of. cbn [slice lane pass lane_pos]. rewrite (Z.mod_small (s * seg + i - 1)) by lia.
  rewrite andb_false_r. unfold m, n. rewrite (settled mem l l) by (auto; lia).
  destruct (ref_settled l i (block_at (slice_seq inst 0 s mem) (at_lane inst l (s * seg + i - 1))).[0] Hl Hi)
    as (l' & j & Er & Hl' & Hj' & Hc).
  rewrite Er. rewrite (settled mem l l' j) by auto. reflexivity.
Qed.
End slice.

(** ** The four slices *)

(** The memory after the first [n] slices of the first pass. *)
Definition after_slices (n : nat) (mem : list block) : list block :=
  fold_left (fun mem s => slice_seq inst 0 s mem) (seqZ 0 (Z.of_nat n)) mem.

Lemma after_slices_S n mem : after_slices (S n) mem = slice_seq inst 0 (Z.of_nat n) (after_slices n mem).
Proof. unfold after_slices. rewrite seqZ_S, fold_left_app, Z.add_0_l. reflexivity. Qed.

Lemma after_slices_length n mem : (n <= 4)%nat -> lanes inst * L <= Z.of_nat (length mem) ->
  length (after_slices n mem) = length mem.
Proof.
  intros Hn Hsz. induction n as [|n IH]; [reflexivity |]. rewrite after_slices_S.
  rewrite (slice_seq_length inst HI) by (rewrite ?IH; unfold ARGON2_SYNC_POINTS; lia). apply IH. lia.
Qed.

(** Later slices leave the places of earlier ones alone. *)
Lemma after_slices_keep n m mem l j : (n + m <= 4)%nat -> lanes inst * L <= Z.of_nat (length mem) ->
  0 <= l < lanes inst -> 0 <= j < L -> j < Z.of_nat n * seg ->
  block_at (after_slices (n + m) mem) (at_lane inst l j) = block_at (after_slices n mem) (at_lane inst l j).
Proof.
  intros Hn Hsz Hl Hj Hlt. destruct HI as [Hseg _ _ _]. induction m as [|m IH]; [rewrite Nat.add_0_r; reflexivity |].
  rewrite Nat.add_succ_r, after_slices_S. rewrite slice_seq_outside; [apply IH; lia | unfold ARGON2_SYNC_POINTS; lia
    | apply (at_lane_bounds inst HI); auto | rewrite after_slices_length by lia; lia |].
  intros l0 _ H. apply in_segment_at in H as [_ H]; [nia | unfold ARGON2_SYNC_POINTS; lia | auto].
Qed.

Lemma fill_one_pass mem : passes inst = 1 -> fill_memory_blocks_st_mtp inst mem = after_slices 4 mem.
Proof. intros Hp. rewrite fill_memory_blocks_st_slices, Hp. reflexivity. Qed.

(** The position of place [j] of lane [l]. *)
Definition place (l j : Z) : argon2_position_t := mk_position 0 l (j / seg) 0.

Lemma one_pass_first mem l j : passes inst = 1 -> lanes inst * L <= Z.of_nat (length mem) ->
  0 <= l < lanes inst -> 0 <= j < 2 ->
  block_at (fill_memory_blocks_st_mtp inst mem) (at_lane inst l j) = block_at mem (at_lane inst l j).
Proof.
  intros Hp Hsz Hl Hj. pose proof (geometry inst HI) as (G1 & G2 & G3). destruct HI as [Hseg _ _ _].
  rewrite fill_one_pass by auto. change 4%nat with (1 + 3)%nat. rewrite (after_slices_keep 1 3) by lia.
  rewrite after_slices_S. change (after_slices 0 mem) with mem. change (Z.of_nat 0) with 0.
  assert (Hin : in_segment inst l 0 (at_lane inst l j)) by (unfold in_segment, at_lane; lia).
  rewrite (ov_inside inst 0 0 _ _ _ (overlay_seq inst HI 0 0 ltac:(lia) ltac:(unfold ARGON2_SYNC_POINTS; lia) mem Hsz) l) by auto.
  change (writes inst 0 0) with (0 + writes inst 0 0)%nat. rewrite lane_run_stable; [reflexivity | | auto | apply (at_lane_bounds inst HI); lia | auto |].
  - unfold ARGON2_SYNC_POINTS. lia.
  - intros i Hi E. cbn in Hi. unfold curr_of, at_lane in E. cbn [slice lane lane_pos] in E. lia.
Qed.

Lemma one_pass_fixpoint mem l j : passes inst = 1 -> lanes inst * L <= Z.of_nat (length mem) ->
  0 <= l < lanes inst -> 2 <= j < L ->
  let M := fill_memory_blocks_st_mtp inst mem in
  let prev := block_at M (at_lane inst l (j - 1)) in
  let ref := ref_of inst (place l j) (j mod seg) prev.[0] in
  0 <= ref < lanes inst * L /\
  block_at M (at_lane inst l j) =
  fill_block_mtp prev (block_at M ref) [] false ref (take ARGON2_PREHASH_SEED_LENGTH (hash_zero inst)).
Proof.
  intros Hp Hsz Hl Hj. cbv zeta. pose proof (geometry inst HI) as (G1 & G2 & G3). pose proof HI as [Hseg _ _ _].
  rewrite fill_one_pass by auto. set (s := j / seg). set (i := j mod seg).
  assert (Ej : j = s * seg + i) by (unfold s, i; rewrite (Z.mul_comm (j / seg)); apply Z.div_mod; lia).
  assert (Hi : 0 <= i < seg) by (apply Z.mod_pos_bound; lia).
  assert (Hs : 0 <= s < 4) by (unfold s; split; [apply Z.div_pos; lia | apply Z.div_lt_upper_bound; lia]).
  unfold place. fold s. change (mk_position 0 l s 0) with (lane_pos 0 s l).
  pose proof (starting_index_cases (lane_pos 0 s l)) as Hst.
  assert (Hi' : starting_index (lane_pos 0 s l) <= i < seg).
  { destruct Hst as [(_ & E & H)|[_ H]]; rewrite H; [cbn in E; rewrite E in Ej; lia | lia]. }
  set (n := Z.to_nat s). set (m0 := after_slices n mem).
  assert (Hl0 : length m0 = length mem) by (apply after_slices_length; lia).
  assert (E4 : 4%nat = (S n + (3 - n))%nat) by lia.
  assert (Hkeep : forall l' j', 0 <= l' < lanes inst -> 0 <= j' < L -> j' < (s + 1) * seg ->
    block_at (after_slices 4 mem) (at_lane inst l' j') = block_at (slice_seq inst 0 s m0) (at_lane inst l' j')).
  { intros l' j' Hl' Hj' Hlt. rewrite E4, after_slices_keep by (auto; try lia; replace (Z.of_nat (S n)) with (s + 1) by lia; auto).
    rewrite after_slices_S. replace (Z.of_nat n) with s by lia. reflexivity. }
  assert (Hs' : 0 <= s < ARGON2_SYNC_POINTS) by (unfold ARGON2_SYNC_POINTS; lia).
  pose proof (slice_block s Hs' m0 l i ltac:(lia) Hl Hi') as E. cbv zeta in E. rewrite <- Ej in E.
  rewrite !Hkeep by (auto; lia).
  destruct (ref_settled s Hs' l i (block_at (slice_seq inst 0 s m0) (at_lane inst l (j - 1))).[0] Hl Hi')
    as (l' & j' & Er & Hl' & Hj' & Hc).
  rewrite Er in *. split; [apply (at_lane_bounds inst HI); auto |]. rewrite Hkeep by (auto; nia). exact E.
Qed.
End fixpoint.
