(* ===== verification/Serialize.v ===== *)
(** * Serialize: the byte format of messages and files

    Models the parts of serialize.h and streams.h that the block header uses:
    integers, blobs and arrays, and the two variable-length integer formats.

    A stream is the list of the bytes not yet read; writing yields the bytes
    appended.  [None] is an exception ([std::ios_base::failure]).  Streams are
    shorter than 2^32 bytes, so the 32-bit read position does not wrap. *)

From S2P Require Import Prelude Words.

Abbreviation stream := (list Z).
Abbreviation reader A := (stream -> option (A * stream)).

(** ** Fixed-size data *)

(** [CDataStream::read]: [nSize] bytes, or the exception at the end of data. *)
Definition read (nSize : nat) : reader (list Z) := fun s =>
  if (length s <? nSize)%nat then None else Some (take nSize s, drop nSize s).

Definition ser_writedata8 (obj : Z) : stream := [u8 obj].
Definition ser_writedata16 (obj : Z) : stream := le_encode 2 (u16 obj).
Definition ser_writedata32 (obj : Z) : stream := le_encode 4 (u32 obj).
Definition ser_writedata64 (obj : Z) : stream := le_encode 8 (u64 obj).

Definition ser_read_le (n : nat) : reader Z := fun s => '(obj, s) ← read n s; Some (le_decode obj, s).
Definition ser_readdata8 : reader Z := ser_read_le 1.
Definition ser_readdata16 : reader Z := ser_read_le 2.
Definition ser_readdata32 : reader Z := ser_read_le 4.
Definition ser_readdata64 : reader Z := ser_read_le 8.

(** The conversion of an [uint32_t] to [int32_t]. *)
Definition int32 (z : Z) : Z := if z <? 2 ^ 31 then z else z - 2 ^ 32.
Definition Unserialize_int32 : reader Z := fun s => '(a, s) ← ser_readdata32 s; Some (int32 a, s).

(** [n] items one after the other: the arrays, which the code reads and writes
    in one piece, and the loops over items. *)
Fixpoint read_array {A} (item : reader A) (n : nat) : reader (list A) := fun s =>
  match n with
  | O => Some ([], s)
  | S n => '(x, s) ← item s; '(xs, s) ← read_array item n s; Some (x :: xs, s)
  end.

(** ** Compact sizes *)

Definition MAX_SIZE : Z := 0x02000000.

Definition GetSizeOfCompactSize (nSize : Z) : Z :=
  if nSize <? 253 then 1 else if nSize <=? 65535 then 1 + 2 else if nSize <=? 4294967295 then 1 + 4 else 1 + 8.

Definition WriteCompactSize (nSize : Z) : stream :=
  if nSize <? 253 then ser_writedata8 nSize
  else if nSize <=? 65535 then ser_writedata8 253 ++ ser_writedata16 nSize
  else if nSize <=? 4294967295 then ser_writedata8 254 ++ ser_writedata32 nSize
  else ser_writedata8 255 ++ ser_writedata64 nSize.

Definition ReadCompactSize : reader Z := fun s =>
  '(chSize, s) ← ser_readdata8 s;
  '(nSizeRet, s) ←
    (if chSize <? 253 then Some (chSize, s)
     else if chSize =? 253 then
       '(n, s) ← ser_readdata16 s; if n <? 253 then None else Some (n, s)
     else if chSize =? 254 then
       '(n, s) ← ser_readdata32 s; if n <? 0x10000 then None else Some (n, s)
     else
       '(n, s) ← ser_readdata64 s; if n <? 0x100000000 then None else Some (n, s));
  if MAX_SIZE <? nSizeRet then None else Some (nSizeRet, s).

(** ** Variable-length integers, for an unsigned type of [w] bits *)

Fixpoint size_loop (fuel : nat) (n : Z) : Z :=
  match fuel with
  | O => 0
  | S fuel => if n <=? 0x7F then 1 else 1 + size_loop fuel ((n ≫ 7) - 1)
  end.

(** The digits [tmp[len]], [tmp[len + 1]], ... of the loop. *)
Fixpoint write_loop (fuel : nat) (n : Z) (len : nat) : list Z :=
  match fuel with
  | O => []
  | S fuel =>
      let d := Z.lor (Z.land n 0x7F) (if (len =? 0)%nat then 0x00 else 0x80) in
      if n <=? 0x7F then [d] else d :: write_loop fuel ((n ≫ 7) - 1) (S len)
  end.

(** The size of [tmp], which is also enough fuel. *)
Definition tmp_size (w : Z) : nat := Z.to_nat ((w + 6) / 7).

Definition GetSizeOfVarInt (w n : Z) : Z := size_loop (tmp_size w) n.
Definition WriteVarInt (w n : Z) : stream := rev (write_loop (tmp_size w) n 0).

Fixpoint read_loop (w n : Z) (s : stream) : option (Z * stream) :=
  match s with
  | [] => None
  | chData :: s =>
      let n := Z.lor (wrap w (n ≪ 7)) (Z.land chData 0x7F) in
      if negb (Z.land chData 0x80 =? 0) then read_loop w (wrap w (n + 1)) s else Some (n, s)
  end.

Definition ReadVarInt (w : Z) : reader Z := read_loop w 0.
