(* ===== verification/SerializeCorrect.v ===== *)
(** * SerializeCorrect: round trips of the byte format

    [RoundTrip enc dec dom] is what a pair of a writer and a reader promises on
    the values of [dom]: reading what was written gives the value back and
    leaves the rest of the stream, and a reader that succeeds does not look past
    the bytes it consumes.  The instances compose to the formats of the code. *)

From S2P Require Import Prelude Words Serialize.

(** ** The interface *)

Class Extends {A} (dec : reader A) : Prop :=
  extends s x r q : dec s = Some (x, r) -> dec (s ++ q) = Some (x, r ++ q).

Class RoundTrip {A} (enc : A -> stream) (dec : reader A) (dom : A -> Prop) : Prop := {
  round_trip x rest : dom x -> dec (enc x ++ rest) = Some (x, rest);
  #[global] rt_extends :: Extends dec }.

(** A message cut short is rejected. *)
Lemma prefix_rejected {A} enc dec (dom : A -> Prop) `{!RoundTrip enc dec dom} x p q :
  dom x -> enc x = p ++ q -> q <> [] -> dec p = None.
Proof.
  intros Hx E Hq. destruct (dec p) as [[y r]|] eqn:Ep; [|reflexivity]. exfalso.
  apply (extends p y r q) in Ep. rewrite <- E in Ep. pose proof (round_trip x [] Hx) as H. rewrite app_nil_r, Ep in H.
  apply (inj Some) in H. assert (Er : r ++ q = []) by congruence. apply app_eq_nil in Er. tauto.
Qed.

(** The sequence of two readers, as the option monad composes them. *)
Lemma extends_bind {A B} (d : reader A) (f : A -> reader B) : Extends d -> (forall x, Extends (f x)) ->
  Extends (fun s => '(x, s) ← d s; f x s).
Proof.
  intros Hd Hf s y r q H. destruct (d s) as [[x s1]|] eqn:E; [|discriminate]. cbn [mbind option_bind] in H.
  rewrite (extends _ _ _ q E). cbn [mbind option_bind]. apply Hf. exact H.
Qed.

Lemma extends_some {A} (x : A) : Extends (fun s => Some (x, s)).
Proof. intros s y r q [= <- <-]. reflexivity. Qed.

Lemma extends_none {A} : Extends (fun _ : stream => @None (A * stream)).
Proof. intros s y r q. discriminate. Qed.

Lemma extends_if {A} (b : bool) (d d' : reader A) : Extends d -> Extends d' -> Extends (fun s => if b then d s else d' s).
Proof. destruct b; auto. Qed.

Create HintDb ser.
#[export] Hint Resolve extends_bind extends_some extends_none extends_if : ser.

(** ** Fixed-size data *)

#[export] Instance read_extends n : Extends (read n).
Proof.
  intros s x r q. unfold read. destruct (Nat.ltb_spec (length s) n) as [|H]; [discriminate |]. intros [= <- <-].
  rewrite length_app. destruct (Nat.ltb_spec (length s + length q) n); [lia |].
  rewrite take_app_le, drop_app_le by lia. reflexivity.
Qed.

#[export] Instance blob_round_trip n : RoundTrip id (read n) (fun x => length x = n).
Proof.
  split; [|apply _]. intros x rest Hx. unfold read, id. rewrite length_app.
  destruct (Nat.ltb_spec (length x + length rest) n); [lia |]. rewrite take_app_length', drop_app_length' by lia. reflexivity.
Qed.

#[export] Instance le_extends n : Extends (ser_read_le n).
Proof. apply extends_bind; [apply _ | auto with ser]. Qed.

Lemma le_round_trip n x rest : word (8 * Z.of_nat n) x -> ser_read_le n (le_encode n x ++ rest) = Some (x, rest).
Proof.
  intros Hx. unfold ser_read_le. rewrite (round_trip (enc := id) (le_encode n x)) by apply le_encode_length.
  cbn [mbind option_bind]. rewrite le_decode_encode, Z.mod_small; [reflexivity |].
  unfold word in Hx. rewrite Z.pow_mul_r in Hx by lia. exact Hx.
Qed.

#[export] Instance u8_round_trip : RoundTrip ser_writedata8 ser_readdata8 (word 8).
Proof.
  split; [|apply le_extends]. intros x rest Hx. pose proof (le_round_trip 1 x rest Hx) as H. cbn [le_encode] in H.
  unfold ser_writedata8, wrap. change (2 ^ 8) with 256. exact H.
Qed.
#[export] Instance u16_round_trip : RoundTrip ser_writedata16 ser_readdata16 (word 16).
Proof. split; [|apply le_extends]. intros x rest Hx. unfold ser_writedata16. rewrite wrap_small by exact Hx. apply (le_round_trip 2 x rest Hx). Qed.
#[export] Instance u32_round_trip : RoundTrip ser_writedata32 ser_readdata32 (word 32).
Proof. split; [|apply le_extends]. intros x rest Hx. unfold ser_writedata32. rewrite wrap_small by exact Hx. apply (le_round_trip 4 x rest Hx). Qed.
#[export] Instance u64_round_trip : RoundTrip ser_writedata64 ser_readdata64 (word 64).
Proof. split; [|apply le_extends]. intros x rest Hx. unfold ser_writedata64. rewrite wrap_small by exact Hx. apply (le_round_trip 8 x rest Hx). Qed.

Lemma int32_wrap x : - 2 ^ 31 <= x < 2 ^ 31 -> word 32 (u32 x) /\ int32 (u32 x) = x.
Proof.
  intros Hx. split; [apply wrap_word; lia |]. unfold int32, wrap. destruct (Z.ltb_spec x 0).
  - replace (x mod 2 ^ 32) with (x + 2 ^ 32) by (apply Z.mod_unique with (-1); lia). destruct (Z.ltb_spec (x + 2 ^ 32) (2 ^ 31)); lia.
  - rewrite Z.mod_small by lia. destruct (Z.ltb_spec x (2 ^ 31)); lia.
Qed.

#[export] Instance int32_round_trip : RoundTrip ser_writedata32 Unserialize_int32 (fun x => - 2 ^ 31 <= x < 2 ^ 31).
Proof.
  split; [|apply extends_bind; [apply u32_round_trip | auto with ser]]. intros x rest Hx. destruct (int32_wrap x Hx) as [Hw Hi].
  unfold Unserialize_int32, ser_writedata32, ser_readdata32. rewrite (le_round_trip 4 (u32 x) rest Hw).
  cbn [mbind option_bind]. rewrite Hi. reflexivity.
Qed.

#[export] Instance array_extends {A} (dec : reader A) n : Extends dec -> Extends (read_array dec n).
Proof.
  intros Hd. induction n as [|n IH]; [exact (extends_some []) |]. cbn [read_array].
  apply extends_bind; [exact Hd |]. intros x. apply extends_bind; [exact IH | auto with ser].
Qed.

#[export] Instance array_round_trip {A} enc dec (dom : A -> Prop) n : RoundTrip enc dec dom ->
  RoundTrip (flat_map enc) (read_array dec n) (fun xs => length xs = n /\ Forall dom xs).
Proof.
  intros H. split; [|apply array_extends; apply _]. intros xs rest [<- HF]. revert rest.
  induction HF as [|x xs Hx _ IH]; intros rest; [reflexivity |]. cbn [flat_map length read_array].
  rewrite <- app_assoc, (round_trip x) by exact Hx. cbn [mbind option_bind]. rewrite IH. reflexivity.
Qed.

(** What a little-endian reader accepts is what it would write. *)
Lemma read_le_inv n s x r : Forall byte s -> ser_read_le n s = Some (x, r) ->
  s = le_encode n x ++ r /\ word (8 * Z.of_nat n) x /\ Forall byte r.
Proof.
  intros Hs. unfold ser_read_le, read. destruct (Nat.ltb_spec (length s) n); [discriminate |]. cbn [mbind option_bind].
  intros [= <- <-]. assert (Hl : length (take n s) = n) by (rewrite length_take; lia).
  assert (Hb : Forall byte (take n s)) by (apply Forall_take; exact Hs). split; [|split; [apply le_decode_word; auto | apply Forall_drop; exact Hs]].
  rewrite <- Hl at 1. rewrite le_encode_decode by exact Hb. symmetry. apply take_drop.
Qed.

(** ** Compact sizes *)

#[export] Instance compact_size_extends : Extends ReadCompactSize.
Proof.
  unfold ReadCompactSize. apply extends_bind; [apply le_extends |]. intros c.
  assert (H : forall n b, Extends (fun s => '(x, s) ← ser_read_le n s; if x <? b then None else Some (x, s)))
    by (intros; apply extends_bind; [apply le_extends | auto with ser]).
  apply (extends_bind (fun s => if c <? 253 then _ else _)); [|auto with ser].
  apply extends_if; [auto with ser |]. apply extends_if; [apply H |]. apply extends_if; apply H.
Qed.

#[export] Instance compact_size_round_trip : RoundTrip WriteCompactSize ReadCompactSize (fun n => 0 <= n <= MAX_SIZE).
Proof.
  split; [|apply _]. intros n rest Hn. unfold MAX_SIZE in *. unfold WriteCompactSize, ReadCompactSize.
  assert (Hmax : (MAX_SIZE <? n) = false) by (unfold MAX_SIZE; lia).
  destruct (Z.ltb_spec n 253).
  - rewrite (round_trip (dec := ser_readdata8) n) by (unfold word; lia). cbn [mbind option_bind].
    rewrite (proj2 (Z.ltb_lt n 253)) by lia. cbn [mbind option_bind]. rewrite Hmax. reflexivity.
  - destruct (Z.leb_spec n 65535); [|destruct (Z.leb_spec n 4294967295); [|lia]].
    + rewrite <- app_assoc, (round_trip (dec := ser_readdata8) 253) by (unfold word; lia). cbn [mbind option_bind].
      change (253 <? 253) with false. change (253 =? 253) with true. cbv iota. rewrite (round_trip (dec := ser_readdata16) n) by (unfold word; lia). cbn [mbind option_bind].
      rewrite (proj2 (Z.ltb_ge n 253)) by lia. cbn [mbind option_bind]. rewrite Hmax. reflexivity.
    + rewrite <- app_assoc, (round_trip (dec := ser_readdata8) 254) by (unfold word; lia). cbn [mbind option_bind].
      change (254 <? 253) with false. change (254 =? 253) with false. change (254 =? 254) with true. cbv iota. rewrite (round_trip (dec := ser_readdata32) n) by (unfold word; lia). cbn [mbind option_bind].
      rewrite (proj2 (Z.ltb_ge n 0x10000)) by lia. cbn [mbind option_bind]. rewrite Hmax. reflexivity.
Qed.

(** Accepted sizes are in range and in their only encoding. *)
Lemma compact_size_canonical s n r : Forall byte s -> ReadCompactSize s = Some (n, r) ->
  0 <= n <= MAX_SIZE /\ s = WriteCompactSize n ++ r.
Proof.
  intros Hs. unfold ReadCompactSize. destruct (ser_readdata8 s) as [[c s1]|] eqn:E; [|discriminate].
  destruct (read_le_inv 1 s c s1 Hs E) as (-> & Hc & Hs1). cbn [mbind option_bind].
  assert (Ec : le_encode 1 c = ser_writedata8 c) by reflexivity. rewrite Ec. unfold word in Hc. change (8 * Z.of_nat 1) with 8 in Hc.
  assert (Hend : forall m s2, (if MAX_SIZE <? m then None else Some (m, s2)) = Some (n, r) -> m <= MAX_SIZE /\ m = n /\ s2 = r).
  { intros m s2. destruct (Z.ltb_spec MAX_SIZE m); [discriminate |]. intros [= -> ->]. auto. }
  unfold WriteCompactSize. destruct (Z.ltb_spec c 253).
  { cbn [mbind option_bind]. intros [Hm [<- <-]]%Hend. rewrite (proj2 (Z.ltb_lt c 253)) by lia. split; [lia | reflexivity]. }
  destruct (Z.eqb_spec c 253) as [-> |]; [|destruct (Z.eqb_spec c 254) as [-> |]; [|replace c with 255 by lia]].
  - destruct (ser_readdata16 s1) as [[m s2]|] eqn:E1; [|discriminate]. destruct (read_le_inv 2 s1 m s2 Hs1 E1) as (-> & Hm & _).
    cbn [mbind option_bind]. destruct (Z.ltb_spec m 253); [discriminate |]. cbn [mbind option_bind]. intros [Hx [<- <-]]%Hend.
    unfold word in Hm. change (8 * Z.of_nat 2) with 16 in Hm. split; [lia |].
    rewrite (proj2 (Z.ltb_ge m 253)), (proj2 (Z.leb_le m 65535)) by lia. unfold ser_writedata16.
    rewrite wrap_small by exact Hm. apply app_assoc.
  - destruct (ser_readdata32 s1) as [[m s2]|] eqn:E1; [|discriminate]. destruct (read_le_inv 4 s1 m s2 Hs1 E1) as (-> & Hm & _).
    cbn [mbind option_bind]. destruct (Z.ltb_spec m 0x10000); [discriminate |]. cbn [mbind option_bind]. intros [Hx [<- <-]]%Hend.
    unfold word in Hm. change (8 * Z.of_nat 4) with 32 in Hm. split; [lia |].
    rewrite (proj2 (Z.ltb_ge m 253)), (proj2 (Z.leb_gt m 65535)), (proj2 (Z.leb_le m 4294967295)) by lia. unfold ser_writedata32.
    rewrite wrap_small by exact Hm. apply app_assoc.
  - destruct (ser_readdata64 s1) as [[m s2]|] eqn:E1; [|discriminate]. destruct (read_le_inv 8 s1 m s2 Hs1 E1) as (-> & Hm & _).
    cbn [mbind option_bind]. destruct (Z.ltb_spec m 0x100000000); [discriminate |]. cbn [mbind option_bind]. intros [Hx _]%Hend.
    unfold MAX_SIZE in Hx. lia.
Qed.

Lemma compact_size_length n : word 64 n -> Z.of_nat (length (WriteCompactSize n)) = GetSizeOfCompactSize n.
Proof.
  intros _. unfold WriteCompactSize, GetSizeOfCompactSize.
  destruct (n <? 253); [reflexivity |]. destruct (n <=? 65535); [reflexivity |]. destruct (n <=? 4294967295); reflexivity.
Qed.

(** ** Variable-length integers *)

(** The digit of [n] at position [len]: seven bits and the continuation bit. *)
Definition mark (len : nat) : Z := if (len =? 0)%nat then 0 else 128.
Lemma digit_value n len : Z.lor (Z.land n 0x7F) (if (len =? 0)%nat then 0x00 else 0x80) = n mod 128 + mark len.
Proof.
  change 0x7F with (Z.ones 7). rewrite Z.land_ones by lia. change (2 ^ 7) with 128. unfold mark.
  destruct (len =? 0)%nat; [rewrite Z.lor_0_r; lia |].
  change 0x80 with (1 ≪ 7). rewrite lor_shiftl_add; [reflexivity | lia | apply Z.mod_pos_bound; lia | lia].
Qed.

Lemma high_bit c : byte c -> (negb (Z.land c 0x80 =? 0)) = (128 <=? c).
Proof.
  intros Hc. assert (H : forallb (fun i => Bool.eqb (negb (Z.land (Z.of_nat i) 0x80 =? 0)) (128 <=? Z.of_nat i)) (seq 0 256) = true) by reflexivity.
  rewrite forallb_forall in H. specialize (H (Z.to_nat c)). rewrite Z2Nat.id in H by (unfold word in Hc; lia).
  apply Bool.eqb_prop, H, in_seq. unfold word in Hc. lia.
Qed.

(** One byte read into an accumulator that has room for it. *)
Lemma read_digit w acc c s : 0 <= acc -> byte c -> acc * 128 + c mod 128 < 2 ^ w ->
  read_loop w acc (c :: s) =
  if 128 <=? c then read_loop w (wrap w (acc * 128 + c mod 128 + 1)) s else Some (acc * 128 + c mod 128, s).
Proof.
  intros Ha Hc Hw. pose proof (Z.mod_pos_bound c 128 ltac:(lia)). cbn [read_loop]. rewrite high_bit by exact Hc.
  change 0x7F with (Z.ones 7). rewrite Z.land_ones by lia. change (2 ^ 7) with 128.
  rewrite (wrap_small w (acc ≪ 7)) by (unfold word; rewrite Z.shiftl_mul_pow2 by lia; change (2 ^ 7) with 128; lia).
  rewrite Z.lor_comm, lor_shiftl_add by (unfold word; lia). change (2 ^ 7) with 128.
  replace (c mod 128 + acc * 128) with (acc * 128 + c mod 128) by lia. reflexivity.
Qed.

(** The digits with fuel that always suffices; less is enough. *)
Definition digits (n : Z) (len : nat) : list Z := write_loop (S (Z.to_nat n)) n len.

Lemma shift7 n : n ≫ 7 = n / 128.
Proof. rewrite Z.shiftr_div_pow2 by lia. reflexivity. Qed.

Lemma write_loop_fuel f g n len : 0 <= n -> (0 < f)%nat -> (0 < g)%nat -> n < 128 ^ Z.of_nat f -> n < 128 ^ Z.of_nat g ->
  write_loop f n len = write_loop g n len.
Proof.
  revert g n len. induction f as [|f IH]; intros g n len Hn Hf Hg Bf Bg; [lia |]. destruct g as [|g]; [lia |]. cbn [write_loop].
  destruct (Z.leb_spec n 0x7F); [reflexivity |]. f_equal. rewrite shift7. rewrite Nat2Z.inj_succ, Z.pow_succ_r in Bf, Bg by lia.
  assert (1 <= n / 128) by (apply Z.div_le_lower_bound; lia).
  assert (n / 128 < 128 ^ Z.of_nat f) by (apply Z.div_lt_upper_bound; lia).
  assert (n / 128 < 128 ^ Z.of_nat g) by (apply Z.div_lt_upper_bound; lia).
  apply IH; try lia; destruct f, g; cbn in *; lia.
Qed.

Lemma pow128_gt n : 0 <= n -> n < 128 ^ Z.of_nat (S (Z.to_nat n)).
Proof. intros Hn. rewrite Nat2Z.inj_succ, Z2Nat.id by lia. pose proof (Z.pow_gt_lin_r 128 (Z.succ n)). lia. Qed.

Lemma write_loop_digits f n len : 0 <= n -> (0 < f)%nat -> n < 128 ^ Z.of_nat f -> write_loop f n len = digits n len.
Proof. intros. apply write_loop_fuel; auto using pow128_gt; lia. Qed.

Lemma digits_unfold n len : 0 <= n ->
  digits n len = if n <=? 127 then [n + mark len] else n mod 128 + mark len :: digits (n / 128 - 1) (S len).
Proof.
  intros Hn. unfold digits at 1. cbn [write_loop]. rewrite digit_value, shift7. destruct (Z.leb_spec n 127); [rewrite Z.mod_small by lia; reflexivity |].
  assert (1 <= n / 128 < n) by (split; [apply Z.div_le_lower_bound; lia | apply Z.div_lt; lia]). f_equal.
  apply write_loop_digits; [lia | lia |]. apply Z.lt_le_trans with (1 := pow128_gt (n / 128 - 1) ltac:(lia)). apply Z.pow_le_mono_r; lia.
Qed.

Lemma write_loop_mark f n len : write_loop f n (S len) = write_loop f n 1.
Proof.
  revert n len. induction f as [|f IH]; intros n len; [reflexivity |]. cbn [write_loop Nat.eqb]. destruct (n <=? 0x7F); [reflexivity |].
  f_equal. rewrite IH. symmetry. apply IH.
Qed.

Lemma digits_mark n len : digits n (S len) = digits n 1.
Proof. apply write_loop_mark. Qed.

(** The unmarked first digit and the rest. *)
Lemma digits_snoc v acc m len : 0 < acc -> 0 <= m < 128 -> v = acc * 128 + m ->
  rev (digits v len) = rev (digits (acc - 1) 1) ++ [m + mark len].
Proof.
  intros Ha Hm ->. rewrite digits_unfold by lia. destruct (Z.leb_spec (acc * 128 + m) 127); [lia |].
  rewrite Z.div_add_l, (Z.div_small m), Z.add_0_r by lia. rewrite (Z.add_comm (acc * 128) m), Z.mod_add, Z.mod_small by lia.
  cbn [rev]. rewrite digits_mark. reflexivity.
Qed.

Lemma read_marked_small w n rest : 0 <= n <= 127 -> n + 1 < 2 ^ w ->
  read_loop w 0 (rev (digits n 1) ++ rest) = read_loop w (n + 1) rest.
Proof.
  intros Hn Hw. rewrite digits_unfold, (proj2 (Z.leb_le n 127)) by lia. cbn [rev app mark Nat.eqb].
  assert (Em : (n + 128) mod 128 = n) by (symmetry; apply Z.mod_unique with 1; lia).
  rewrite read_digit by (unfold word; rewrite ?Em; lia). rewrite Em, (proj2 (Z.leb_le 128 _)) by lia.
  rewrite wrap_small by (unfold word; lia). reflexivity.
Qed.

(** Reading the marked digits of [n] from zero accumulates [n + 1]. *)
Lemma read_marked w k n rest : n <= Z.of_nat k -> 0 <= n -> n + 1 < 2 ^ w ->
  read_loop w 0 (rev (digits n 1) ++ rest) = read_loop w (n + 1) rest.
Proof.
  revert n rest. induction k as [|k IH]; intros n rest Hk Hn Hw;
    (destruct (Z.leb_spec n 127); [apply read_marked_small; lia |]); [lia |].
  pose proof (Z.div_mod n 128 ltac:(lia)) as E. pose proof (Z.mod_pos_bound n 128 ltac:(lia)) as Hm.
  assert (1 <= n / 128 < n) by (split; [apply Z.div_le_lower_bound; lia | apply Z.div_lt; lia]).
  rewrite (digits_snoc n (n / 128) (n mod 128) 1) by lia. rewrite <- app_assoc. rewrite IH by lia.
  cbn [app mark Nat.eqb]. replace (n / 128 - 1 + 1) with (n / 128) by lia.
  assert (Em : (n mod 128 + 128) mod 128 = n mod 128) by (symmetry; apply Z.mod_unique with 1; lia).
  rewrite read_digit by (unfold word; rewrite ?Em; lia). rewrite Em, (proj2 (Z.leb_le 128 _)) by lia.
  replace (n / 128 * 128 + n mod 128) with n by lia. rewrite wrap_small by (unfold word; lia). reflexivity.
Qed.

Lemma read_digits w n rest : 0 <= n < 2 ^ w -> read_loop w 0 (rev (digits n 0) ++ rest) = Some (n, rest).
Proof.
  intros Hn. destruct (Z.leb_spec n 127) as [H|H].
  - rewrite digits_unfold, (proj2 (Z.leb_le n 127)) by lia. cbn [rev app mark Nat.eqb]. rewrite Z.add_0_r.
    rewrite read_digit by (unfold word; rewrite ?Z.mod_small; lia). rewrite Z.mod_small, (proj2 (Z.leb_gt 128 _)) by lia. reflexivity.
  - pose proof (Z.div_mod n 128 ltac:(lia)) as E. pose proof (Z.mod_pos_bound n 128 ltac:(lia)) as Hm.
    assert (1 <= n / 128 < n) by (split; [apply Z.div_le_lower_bound; lia | apply Z.div_lt; lia]).
    rewrite (digits_snoc n (n / 128) (n mod 128) 0) by lia. rewrite <- app_assoc.
    rewrite (read_marked w (Z.to_nat n)) by lia. cbn [app mark Nat.eqb]. rewrite Z.add_0_r.
    replace (n / 128 - 1 + 1) with (n / 128) by lia. rewrite read_digit by (unfold word; rewrite ?Z.mod_mod; lia).
    rewrite Z.mod_mod, (proj2 (Z.leb_gt 128 _)) by lia. do 2 f_equal. lia.
Qed.

(** The value of an encoding in unbounded arithmetic (the sum in the comment of
    serialize.h, most significant digit first). *)
Fixpoint exact_loop (n : Z) (s : stream) : option (Z * stream) :=
  match s with
  | [] => None
  | c :: s =>
      let n := n * 128 + c mod 128 in
      if 128 <=? c then exact_loop (n + 1) s else Some (n, s)
  end.

Lemma exact_grows acc s n r : Forall byte s -> 0 <= acc -> exact_loop acc s = Some (n, r) -> acc * 128 <= n.
Proof.
  intros Hs. revert acc. induction Hs as [|c s Hc _ IH]; intros acc Ha E; [discriminate |]. cbn [exact_loop] in E.
  pose proof (Z.mod_pos_bound c 128 ltac:(lia)). destruct (128 <=? c); [apply IH in E; lia |]. injection E as <- <-. lia.
Qed.

Lemma read_exact w acc s n r : Forall byte s -> 0 <= acc -> exact_loop acc s = Some (n, r) -> n < 2 ^ w ->
  read_loop w acc s = Some (n, r).
Proof.
  intros Hs. revert acc. induction Hs as [|c s Hc Hs IH]; intros acc Ha E Hn; [discriminate |].
  pose proof (exact_grows acc (c :: s) n r (Forall_cons_2 _ _ _ Hc Hs) Ha E). cbn [exact_loop] in E.
  pose proof (Z.mod_pos_bound c 128 ltac:(lia)). destruct (Z.leb_spec 128 c) as [H7|H7].
  - pose proof (exact_grows (acc * 128 + c mod 128 + 1) s n r Hs ltac:(lia) E). rewrite read_digit, (proj2 (Z.leb_le 128 c)) by (auto; lia).
    rewrite wrap_small by (unfold word; lia). apply IH; auto. lia.
  - injection E as <- <-. rewrite read_digit, (proj2 (Z.leb_gt 128 c)) by (auto; lia). reflexivity.
Qed.

(** The bytes are the digits of the value. *)
Lemma exact_digits acc s n r : Forall byte s -> 0 < acc -> exact_loop acc s = Some (n, r) ->
  rev (digits (acc - 1) 1) ++ s = rev (digits n 0) ++ r.
Proof.
  intros Hs. revert acc. induction Hs as [|c s Hc Hs IH]; intros acc Ha E; [discriminate |]. cbn [exact_loop] in E.
  unfold word in Hc. pose proof (Z.mod_pos_bound c 128 ltac:(lia)) as Hm. destruct (Z.leb_spec 128 c) as [H7|H7].
  - apply IH in E; [|lia]. rewrite <- E. rewrite Z.add_simpl_r. rewrite (digits_snoc (acc * 128 + c mod 128) acc (c mod 128) 1) by lia.
    rewrite <- app_assoc. cbn [app mark Nat.eqb]. do 2 f_equal. replace (c mod 128) with (c - 128) by (apply Z.mod_unique with 1; lia). lia.
  - injection E as <- <-. rewrite (digits_snoc (acc * 128 + c mod 128) acc (c mod 128) 0) by lia. rewrite <- app_assoc. cbn [app mark Nat.eqb].
    rewrite Z.mod_small by lia. do 2 f_equal. lia.
Qed.

Lemma exact_canonical s n r : Forall byte s -> exact_loop 0 s = Some (n, r) -> s = rev (digits n 0) ++ r.
Proof.
  intros Hs E. destruct Hs as [|c s Hc Hs]; [discriminate |]. cbn [exact_loop] in E. rewrite Z.mul_0_l, Z.add_0_l in E.
  unfold word in Hc. pose proof (Z.mod_pos_bound c 128 ltac:(lia)) as Hm. destruct (Z.leb_spec 128 c) as [H7|H7].
  - apply exact_digits in E; [|exact Hs | lia]. rewrite <- E. rewrite Z.add_simpl_r, digits_unfold by lia.
    rewrite (proj2 (Z.leb_le _ 127)) by lia. cbn [rev app mark Nat.eqb].
    replace (c mod 128) with (c - 128) by (apply Z.mod_unique with 1; lia). f_equal. lia.
  - injection E as <- <-. rewrite Z.mod_small, digits_unfold, (proj2 (Z.leb_le _ 127)) by lia. cbn [rev app mark Nat.eqb].
    f_equal. lia.
Qed.

Lemma tmp_bound w n : 0 < w -> word w n -> (0 < tmp_size w)%nat /\ n < 128 ^ Z.of_nat (tmp_size w).
Proof.
  intros Hw Hn. unfold tmp_size, word in *. assert (H1 : 1 <= (w + 6) / 7) by (apply Z.div_le_lower_bound; lia).
  split; [lia |]. rewrite Z2Nat.id by lia. change 128 with (2 ^ 7). rewrite <- Z.pow_mul_r by lia.
  apply Z.lt_le_trans with (2 ^ w); [lia |]. apply Z.pow_le_mono_r; [lia |].
  pose proof (Z.div_mod (w + 6) 7 ltac:(lia)). pose proof (Z.mod_pos_bound (w + 6) 7 ltac:(lia)). lia.
Qed.

Lemma size_loop_length f n len : size_loop f n = Z.of_nat (length (write_loop f n len)).
Proof.
  revert n len. induction f as [|f IH]; intros n len; [reflexivity |]. cbn [size_loop write_loop].
  destruct (n <=? 0x7F); [reflexivity |]. cbn [length]. rewrite (IH _ (S len)). lia.
Qed.

Lemma write_loop_length f n len : (length (write_loop f n len) <= f)%nat.
Proof.
  revert n len. induction f as [|f IH]; intros n len; cbn [write_loop]; [cbn; lia |].
  destruct (n <=? 0x7F); cbn [length]; [lia |]. specialize (IH ((n ≫ 7) - 1) (S len)). lia.
Qed.

(** ** Theorems *)

(** compact sizes.  Writing a size up to MAX_SIZE and reading it back gives
    the size and the rest of the stream, in the announced number of bytes; a
    size cut short is rejected; and whatever [ReadCompactSize] accepts is the
    canonical encoding of a size up to MAX_SIZE. *)
Theorem compact_size_codec n rest : 0 <= n <= MAX_SIZE ->
  ReadCompactSize (WriteCompactSize n ++ rest) = Some (n, rest) /\
  Z.of_nat (length (WriteCompactSize n)) = GetSizeOfCompactSize n /\
  (forall p q, WriteCompactSize n = p ++ q -> q <> [] -> ReadCompactSize p = None) /\
  forall s n' r, Forall byte s -> ReadCompactSize s = Some (n', r) -> 0 <= n' <= MAX_SIZE /\ s = WriteCompactSize n' ++ r.
Proof.
  intros Hn. split; [exact (round_trip n rest Hn) |]. split; [apply compact_size_length; unfold word, MAX_SIZE in *; lia |].
  split; [|exact compact_size_canonical]. intros p q E Hq. exact (prefix_rejected WriteCompactSize ReadCompactSize _ n p q Hn E Hq).
Qed.

Lemma compact_size_codec_witness :
  ReadCompactSize (WriteCompactSize 70000 ++ [9]) = Some (70000, [9]) /\ ReadCompactSize [254; 112; 17] = None.
Proof.
  destruct (compact_size_codec 70000 [9] ltac:(unfold MAX_SIZE; lia)) as (H1 & _ & H2 & _).
  split; [exact H1 | apply (H2 _ [1; 0]); [reflexivity | discriminate]].
Defined.

(** Variable-length integers.  For an unsigned type of [w] bits the digits
    of every value fit into the array [tmp] (the loop of [WriteVarInt] ends
    within it, whatever the fuel), their number is [GetSizeOfVarInt], reading
    them back gives the value, and among the byte strings whose value is below
    2^w the encoding is the only one. *)
Theorem var_int_codec w n rest : 0 < w -> word w n ->
  ReadVarInt w (WriteVarInt w n ++ rest) = Some (n, rest) /\
  (forall fuel, (tmp_size w <= fuel)%nat -> rev (write_loop fuel n 0) = WriteVarInt w n) /\
  (length (WriteVarInt w n) <= tmp_size w)%nat /\ Z.of_nat (length (WriteVarInt w n)) = GetSizeOfVarInt w n /\
  forall s n' r, Forall byte s -> exact_loop 0 s = Some (n', r) -> n' < 2 ^ w ->
    ReadVarInt w s = Some (n', r) /\ s = WriteVarInt w n' ++ r.
Proof.
  intros Hw Hn. destruct (tmp_bound w n Hw Hn) as [T0 T1]. pose proof Hn as [N0 N1].
  assert (E : forall m, word w m -> WriteVarInt w m = rev (digits m 0)).
  { intros m Hm. unfold WriteVarInt. f_equal. destruct (tmp_bound w m Hw Hm). destruct Hm. apply write_loop_digits; auto. }
  split; [rewrite E by exact Hn; apply read_digits; exact Hn |]. split.
  { intros fuel Hf. rewrite E by exact Hn. f_equal. apply write_loop_digits; [exact N0 | lia |].
    apply Z.lt_le_trans with (1 := T1). apply Z.pow_le_mono_r; lia. }
  split; [unfold WriteVarInt; rewrite length_rev; apply write_loop_length |].
  split; [unfold WriteVarInt, GetSizeOfVarInt; rewrite length_rev; symmetry; apply size_loop_length |].
  intros s m r Hs Em Hm. split; [apply read_exact; auto; lia |].
  pose proof (exact_grows 0 s m r Hs ltac:(lia) Em). rewrite E by (unfold word; lia). apply exact_canonical; auto.
Qed.

Lemma var_int_codec_witness :
  ReadVarInt 64 (WriteVarInt 64 (2 ^ 64 - 1) ++ [7]) = Some (2 ^ 64 - 1, [7]) /\ [0x82; 0xFE; 0x7F] = WriteVarInt 64 65535 ++ [].
Proof.
  split; [exact (proj1 (var_int_codec 64 (2 ^ 64 - 1) [7] ltac:(lia) ltac:(unfold word; lia))) |].
  destruct (var_int_codec 64 0 [] ltac:(lia) ltac:(unfold word; lia)) as (_ & _ & _ & _ & H).
  apply (H [0x82; 0xFE; 0x7F] 65535 []); [repeat constructor; unfold word; lia | reflexivity | reflexivity].
Defined.

(** "every integer has exactly one encoding" does not hold of the reader:
    [ReadVarInt] does not check for overflow, so for a 32-bit and for a 64-bit
    type it also accepts, as zero, an encoding of 2^32 and of 2^64. *)
Theorem var_int_accepts_overlong :
  ReadVarInt 32 [0x8E; 0xFE; 0xFE; 0xFF; 0x00] = Some (0, []) /\ WriteVarInt 32 0 = [0] /\
  ReadVarInt 64 (rev (write_loop 11 (2 ^ 64) 0)) = Some (0, []) /\ WriteVarInt 64 0 = [0].
Proof. repeat split; vm_compute; reflexivity. Qed.
