(* ===== verification/Merkle.v ===== *)
(** * Merkle: the Merkle tree of the proof of work

    Models crypto/MerkleTreeProof/merkle-tree.cpp and merkle-tree.hpp: building
    the layers of a tree of 16-byte hashes, extracting proofs and checking them.

    A [std::vector<uint8_t>] is a list of bytes, a [std::deque] a list;
    exceptions are values of [merkle_error]. *)

From S2P Require Import Prelude Words Blake2b.

Definition MERKLE_TREE_ELEMENT_SIZE_B : nat := 16.

Abbreviation Buffer := (list Z).
Abbreviation Elements := (list (list Z)).

(** The [std::runtime_error]s. *)
Inductive merkle_error :=
  | EmptyElementsList
  | ElementSize (size : nat)
  | ElementNotFound
  | IndexIsZero
  | IndexDoesNotPointToElement.


(** ** Hashes *)

(** The digest of [data], fed to the 4-round BLAKE2b one byte at a time. *)
Definition hash (data : Buffer) : Buffer :=
  let state := fst (blake2b_init (Some zeroed) 16) in
  let state := fold_left (fun state b => fst (blake2b_4r_update state (Some [b]) 1)) data state in
  let '(_, digest, _) := blake2b_4r_final state (Some (replicate 16 0)) 16 in
  default [] digest.

(** [first > second] on vectors: lexicographic. *)
Fixpoint vector_gt (a b : Buffer) : bool :=
  match a, b with
  | [], _ => false
  | _ :: _, [] => true
  | x :: a, y :: b => if y <? x then true else if x <? y then false else vector_gt a b
  end.

Definition combinedHash (first second : Buffer) (preserveOrder : bool) : Buffer :=
  hash (if preserveOrder || vector_gt first second then first ++ second else second ++ first).

(** ** The tree *)

Record MerkleTree := mk_tree { preserveOrder_ : bool; elements_ : Elements; layers_ : list Elements }.

Definition getNextLayer (preserveOrder : bool) (previous_layer : Elements) : Elements :=
  map (fun i => combinedHash (nth (2 * i) previous_layer []) (nth (2 * i + 1) previous_layer []) preserveOrder)
    (seq 0 (length previous_layer / 2)) ++
  (if Nat.odd (length previous_layer) then [default [] (last previous_layer)] else []).

(** [while (layers_.back().size() > 1) getNextLayer();] after the first layer. *)
Fixpoint layers_from (fuel : nat) (preserveOrder : bool) (layer : Elements) : list Elements :=
  match fuel with
  | O => [layer]
  | S fuel =>
      layer :: if (1 <? length layer)%nat then layers_from fuel preserveOrder (getNextLayer preserveOrder layer)
               else []
  end.

Definition getLayers (preserveOrder : bool) (elements : Elements) : list Elements :=
  if bool_decide (elements = []) then [elements] else layers_from (length elements) preserveOrder elements.

(** The elements the constructor keeps. *)
Fixpoint keep_elements (preserveOrder : bool) (elements kept : Elements) : Elements + merkle_error :=
  match elements with
  | [] => inl kept
  | e :: es =>
      if bool_decide (e = []) then keep_elements preserveOrder es kept else
      if negb (length e =? MERKLE_TREE_ELEMENT_SIZE_B)%nat then inr (ElementSize (length e)) else
      if negb preserveOrder && bool_decide (e ∈ kept) then keep_elements preserveOrder es kept
      else keep_elements preserveOrder es (kept ++ [e])
  end.

(** [std::sort] in increasing lexicographic order. *)
Fixpoint insert_sorted (e : Buffer) (l : Elements) : Elements :=
  match l with
  | [] => [e]
  | x :: l => if vector_gt e x then x :: insert_sorted e l else e :: x :: l
  end.
Definition sort (l : Elements) : Elements := fold_right insert_sorted [] l.

(** The constructor. *)
Definition new_MerkleTree (elements : Elements) (preserveOrder : bool) : MerkleTree + merkle_error :=
  if bool_decide (elements = []) then inr EmptyElementsList else
  match keep_elements preserveOrder elements [] with
  | inr e => inr e
  | inl kept =>
      let kept := if preserveOrder then kept else sort kept in
      inl (mk_tree preserveOrder kept (getLayers preserveOrder kept))
  end.

Definition getRoot (t : MerkleTree) : Buffer := nth 0 (default [] (last (layers_ t))) [].

Definition merkleRoot (elements : Elements) (preserveOrder : bool) : Buffer + merkle_error :=
  match new_MerkleTree elements preserveOrder with inl t => inl (getRoot t) | inr e => inr e end.

(** ** Proofs *)

Definition getPair (layer : Elements) (index : nat) : option Buffer :=
  let pairIndex := if Nat.odd index then (index - 1)%nat else (index + 1)%nat in
  if (length layer <=? pairIndex)%nat then None else Some (nth pairIndex layer []).

Fixpoint getProof_at (layers : list Elements) (index : nat) : Elements :=
  match layers with
  | [] => []
  | layer :: layers =>
      (match getPair layer index with Some peer => [peer] | None => [] end) ++
      getProof_at layers (index / 2)
  end.

(** The place of the first element equal to [element]. *)
Fixpoint find_element (element : Buffer) (l : Elements) (i : nat) : option nat :=
  match l with
  | [] => None
  | x :: l => if bool_decide (x = element) then Some i else find_element element l (S i)
  end.

Definition getProof (t : MerkleTree) (element : Buffer) : Elements + merkle_error :=
  match find_element element (elements_ t) 0 with
  | Some index => inl (getProof_at (layers_ t) index)
  | None => inr ElementNotFound
  end.

Definition getProofOrdered (t : MerkleTree) (element : Buffer) (index : nat) : Elements + merkle_error :=
  if (index =? 0)%nat then inr IndexIsZero else
  let index := (index - 1)%nat in
  if (length (elements_ t) <=? index)%nat || negb (bool_decide (nth index (elements_ t) [] = element))
  then inr IndexDoesNotPointToElement
  else inl (getProof_at (layers_ t) index).

Definition checkProof (proof : Elements) (root element : Buffer) : bool :=
  bool_decide (fold_left (fun tempHash p => combinedHash tempHash p false) proof element = root).

(** [while (((index & 1) == 0) && (index >= (1u << remaining))) index = index / 2;] *)
Fixpoint adjust_index (fuel : nat) (index : Z) (remaining : nat) : Z :=
  match fuel with
  | O => index
  | S fuel =>
      if (Z.land index 1 =? 0) && (u32 (1 ≪ Z.of_nat remaining) <=? index)
      then adjust_index fuel (index / 2) remaining else index
  end.

(** The loop over the proof; [None] where the shift [1u << remaining] has no
    defined value. *)
Fixpoint check_loop (proof : Elements) (tempHash : Buffer) (index : Z) : option Buffer :=
  match proof with
  | [] => Some tempHash
  | p :: ps =>
      let remaining := length proof in
      if (32 <=? remaining)%nat then None else
      let index := adjust_index 64 index remaining in
      let tempHash := if negb (Z.land index 1 =? 0) then combinedHash p tempHash true
                      else combinedHash tempHash p true in
      check_loop ps tempHash (index / 2)
  end.

Definition checkProofOrdered (proof : Elements) (root element : Buffer) (index : Z) : option bool :=
  match check_loop proof element (u64 (index - 1)) with
  | Some tempHash => Some (bool_decide (tempHash = root))
  | None => None
  end.
