(* ===== verification/MerkleCorrect.v ===== *)
(** * MerkleCorrect: proofs of membership

    The hash of the tree is BLAKE2b-128 with 4 rounds; in a tree of a power of
    two elements (the proof of work has 2^22) every extracted proof is accepted,
    and an accepted proof for anything else hashes, in some layer, a message
    that clashes with the one of the honest path; for other sizes an honest
    proof can be rejected. *)

From S2P Require Import Prelude Words Blake2b Blake2Spec Blake2bCorrect Blake2bHash Merkle.

(** ** The hash *)

Lemma byte_updates data st msg :
  represents 4 (init_chain 16 0) 16 st msg -> Forall byte msg -> Forall byte data ->
  exists st', fold_left (fun state b => fst (blake2b_4r_update state (Some [b]) 1)) data (Some st) = Some st' /\
    represents 4 (init_chain 16 0) 16 st' (msg ++ data) /\ Forall byte (msg ++ data).
Proof.
  revert st msg. induction data as [|b data IH]; intros st msg Hr Hm Hd.
  - exists st. rewrite app_nil_r. auto.
  - apply Forall_cons in Hd as [Hb Hd]. cbn [fold_left].
    destruct (readable_list [b]) as [Hrd Hs]; [constructor; auto | cbn; lia |]. change (Z.of_nat (length [b])) with 1 in *.
    destruct (update_readable blake2b_4r_compress 4 _ 16 st msg (Some [b]) 1 (init_chain_length 16 0) Hr Hm Hrd)
      as (st1 & E & Hr1).
    unfold blake2b_4r_update at 2. rewrite E. cbn [fst].
    rewrite Hs in Hr1. destruct (IH st1 (msg ++ [b]) Hr1) as (st' & E' & Hr' & Hm');
      [apply Forall_app; auto | auto |].
    exists st'. rewrite <- app_assoc in Hr', Hm'. auto.
Qed.

Lemma merkle_hash_spec data : Forall byte data -> Merkle.hash data = Blake2Spec.hash 4 16 [] data.
Proof.
  intros Hd. unfold Merkle.hash.
  destruct (blake2b_init_represents 4 zeroed 16 ltac:(lia)) as (st & -> & Hr). cbn [fst].
  destruct (byte_updates data st [] Hr (Forall_nil_2 _) Hd) as (st' & -> & Hr' & Hm').
  destruct (final_digest blake2b_4r_compress 4 _ 16 (init_chain_length 16 0) st' _ (replicate 16 0) 16 Hr' Hm' ltac:(lia))
    as (st2 & E & _). unfold blake2b_4r_final. rewrite E. cbn [from_option id].
  apply memcpy_all. exact (hash_length 4 16 [] data ltac:(lia)).
Qed.

Lemma merkle_hash_ok data : Forall byte data -> length (Merkle.hash data) = 16%nat /\ Forall byte (Merkle.hash data).
Proof.
  intros Hd. rewrite merkle_hash_spec by auto.
  split; [apply Nat2Z.inj; rewrite hash_length; [reflexivity | lia] | apply hash_bytes].
Qed.

(** ** Fuel *)

(** More fuel than elements does not change the layers, and more than 64 halvings
    do not change an index: the loops have ended. *)
Lemma next_layer_shrinks po l : length (getNextLayer po l) = (length l - length l / 2)%nat.
Proof.
  unfold getNextLayer. rewrite length_app, length_map, length_seq. pose proof (Nat.div_mod_eq (length l) 2).
  destruct (Nat.odd (length l)) eqn:E; cbn [length].
  - apply Nat.odd_spec in E as [m E]. assert (length l / 2 = m)%nat by (rewrite E; symmetry; apply Nat.div_unique with 1%nat; lia). lia.
  - rewrite <- Nat.negb_even in E. apply negb_false_iff, Nat.even_spec in E as [m E].
    assert (length l / 2 = m)%nat by (rewrite E; symmetry; apply Nat.div_unique with 0%nat; lia). lia.
Qed.

Lemma layers_fuel po f g l : (length l <= f)%nat -> (length l <= g)%nat -> (0 < f)%nat -> (0 < g)%nat ->
  layers_from f po l = layers_from g po l.
Proof.
  revert g l. induction f as [|f IH]; intros [|g] l Hf Hg Pf Pg; try lia. cbn [layers_from]. f_equal.
  destruct (Nat.ltb_spec 1 (length l)) as [H|]; [|reflexivity].
  assert (1 <= length l / 2)%nat by (apply Nat.div_le_lower_bound; lia).
  pose proof (next_layer_shrinks po l). apply IH; lia.
Qed.

Lemma adjust_index_fuel f g index remaining : (remaining < 32)%nat -> 0 <= index < 2 ^ Z.of_nat f -> (f <= g)%nat ->
  adjust_index f index remaining = adjust_index g index remaining.
Proof.
  intros Hr. assert (Hs : 1 <= u32 (1 ≪ Z.of_nat remaining)).
  { rewrite Z.shiftl_1_l. pose proof (Z.pow_pos_nonneg 2 (Z.of_nat remaining) ltac:(lia) ltac:(lia)).
    rewrite wrap_small; [lia |]. split; [lia |]. apply Z.pow_lt_mono_r; lia. }
  revert g index. induction f as [|f IH]; intros g index Hi Hg.
  - replace index with 0 by (cbn in Hi; lia). destruct g as [|g]; [reflexivity |]. cbn [adjust_index].
    rewrite (proj2 (Z.leb_gt _ 0)) by lia. rewrite andb_false_r. reflexivity.
  - destruct g as [|g]; [lia |]. cbn [adjust_index]. destruct (_ && _); [|reflexivity].
    apply IH; [|lia]. rewrite Nat2Z.inj_succ, Z.pow_succ_r in Hi by lia. split; [apply Z.div_pos; lia | apply Z.div_lt_upper_bound; lia].
Qed.

(** ** Layers of a full tree *)

Definition element_ok (e : Buffer) : Prop := length e = 16%nat /\ Forall byte e.

Lemma combined_ok a b : element_ok a -> element_ok b -> element_ok (combinedHash a b true).
Proof. intros [? ?] [? ?]. apply merkle_hash_ok. cbn [orb]. apply Forall_app. auto. Qed.

Lemma next_layer_length po l m : length l = (2 * m)%nat -> length (getNextLayer po l) = m.
Proof.
  intros H. unfold getNextLayer. rewrite length_app, length_map, length_seq, H.
  replace (2 * m / 2)%nat with m by (rewrite Nat.mul_comm, Nat.div_mul; lia).
  rewrite Nat.odd_mul. cbn. lia.
Qed.

Lemma next_layer_nth po l m j : length l = (2 * m)%nat -> (j < m)%nat ->
  nth j (getNextLayer po l) [] = combinedHash (nth (2 * j) l []) (nth (2 * j + 1) l []) po.
Proof.
  intros H Hj. unfold getNextLayer. rewrite H.
  replace (2 * m / 2)%nat with m by (rewrite Nat.mul_comm, Nat.div_mul; lia).
  rewrite app_nth1 by (rewrite length_map, length_seq; lia).
  set (f := fun i => _). rewrite (nth_indep _ [] (f 0%nat)) by (rewrite length_map, length_seq; lia).
  rewrite map_nth, seq_nth by lia. reflexivity.
Qed.

Lemma nth_element_ok l i : Forall element_ok l -> (i < length l)%nat -> element_ok (nth i l []).
Proof. intros Hl Hi. rewrite Forall_forall in Hl. apply Hl, list_elem_of_In, nth_In. exact Hi. Qed.

Lemma next_layer_ok l m : length l = (2 * m)%nat -> Forall element_ok l -> Forall element_ok (getNextLayer true l).
Proof.
  intros H Hl. apply Forall_lookup. intros j x Hx. pose proof (lookup_lt_Some _ _ _ Hx) as Hj.
  rewrite (next_layer_length _ _ m H) in Hj.
  assert (E : x = nth j (getNextLayer true l) []) by (rewrite nth_lookup, Hx; reflexivity).
  rewrite E, (next_layer_nth _ _ m) by auto. apply combined_ok; apply nth_element_ok; auto; lia.
Qed.

(** The root of a full tree of depth [k]. *)
Fixpoint root_of (k : nat) (l : Elements) : Buffer :=
  match k with O => nth 0 l [] | S k => root_of k (getNextLayer true l) end.

(** The proof for place [i]. *)
Fixpoint path_of (k : nat) (l : Elements) (i : nat) : Elements :=
  match k with
  | O => []
  | S k => nth (if Nat.odd i then i - 1 else i + 1)%nat l [] :: path_of k (getNextLayer true l) (i / 2)
  end.

Lemma layers_from_full k l fuel : length l = (2 ^ k)%nat -> (k <= fuel)%nat ->
  nth 0 (default [] (last (layers_from fuel true l))) [] = root_of k l /\
  forall i, (i < 2 ^ k)%nat -> getProof_at (layers_from fuel true l) i = path_of k l i.
Proof.
  revert l fuel. induction k as [|k IH]; intros l fuel Hl Hf.
  - cbn in Hl. assert (E : layers_from fuel true l = [l]).
    { destruct fuel; [reflexivity |]. cbn [layers_from]. rewrite Hl. reflexivity. }
    rewrite E. split; [reflexivity |]. intros i Hi. cbn in Hi. replace i with 0%nat by lia.
    cbn [getProof_at app]. unfold getPair. rewrite Hl. reflexivity.
  - destruct fuel as [|fuel]; [lia |]. cbn [layers_from].
    assert (H2 : (2 <= 2 ^ S k)%nat) by (cbn; pose proof (Nat.pow_nonzero 2 k); lia).
    destruct (Nat.ltb_spec 1 (length l)); [|lia].
    assert (Hn : length (getNextLayer true l) = (2 ^ k)%nat) by (apply next_layer_length; rewrite Hl; reflexivity).
    destruct (IH (getNextLayer true l) fuel Hn ltac:(lia)) as [IHr IHp]. split.
    + cbn [root_of]. rewrite <- IHr. destruct fuel; reflexivity.
    + intros i Hi. cbn [getProof_at path_of]. rewrite IHp by (apply Nat.Div0.div_lt_upper_bound; cbn in Hi; lia).
      unfold getPair. set (q := if Nat.odd i then _ else _).
      assert (Hq : (q < length l)%nat).
      { rewrite Hl. unfold q. destruct (Nat.odd i) eqn:Eo; [lia |].
        assert (Nat.even i = true) by (rewrite <- Nat.negb_odd, Eo; reflexivity).
        apply Nat.even_spec in H0 as [y ->]. cbn in *. lia. }
      destruct (Nat.leb_spec (length l) q); [lia |]. reflexivity.
Qed.

Lemma keep_all l kept : Forall element_ok l -> keep_elements true l kept = inl (kept ++ l).
Proof.
  intros Hl. revert kept. induction Hl as [|e l [He _] Hl IH]; intros kept; [rewrite app_nil_r; reflexivity |].
  cbn [keep_elements]. rewrite bool_decide_eq_false_2 by (intros ->; discriminate).
  unfold MERKLE_TREE_ELEMENT_SIZE_B. rewrite He. cbn [Nat.eqb negb andb]. rewrite IH, <- app_assoc. reflexivity.
Qed.

Lemma new_tree_full k l : Forall element_ok l -> length l = (2 ^ k)%nat ->
  exists t, new_MerkleTree l true = inl t /\ elements_ t = l /\ getRoot t = root_of k l /\
    forall i, (i < 2 ^ k)%nat -> getProof_at (layers_ t) i = path_of k l i.
Proof.
  intros Hl Hlen. assert (Hne : l <> []) by (intros ->; cbn in Hlen; pose proof (Nat.pow_nonzero 2 k); lia).
  unfold new_MerkleTree. rewrite bool_decide_eq_false_2, keep_all by auto. cbn [app].
  eexists. split; [reflexivity |]. split; [reflexivity |]. cbn [layers_ getRoot].
  unfold getRoot, getLayers. cbn [layers_]. rewrite bool_decide_eq_false_2 by auto.
  apply layers_from_full; [auto |]. rewrite Hlen. pose proof (Nat.pow_gt_lin_r 2 k). lia.
Qed.

(** ** Checking a proof *)

Lemma path_length k l i : length (path_of k l i) = k.
Proof. revert l i. induction k as [|k IH]; intros l i; [reflexivity | cbn [path_of length]; rewrite IH; reflexivity]. Qed.

(** The index is not adjusted when it is below [2 ^ remaining]. *)
Lemma adjust_index_small fuel i k : (k < 32)%nat -> 0 <= i < 2 ^ Z.of_nat k -> adjust_index fuel i k = i.
Proof.
  intros Hk Hi. destruct fuel; [reflexivity |]. cbn [adjust_index]. rewrite Z.shiftl_1_l, wrap_small.
  - destruct (Z.leb_spec (2 ^ Z.of_nat k) i); [lia |]. rewrite andb_false_r. reflexivity.
  - unfold word. split; [lia |]. apply Z.pow_lt_mono_r; lia.
Qed.

(** The parent of [h] at place [i] with sibling [p]. *)
Definition parent (i : nat) (h p : Buffer) : Buffer :=
  if Nat.odd i then combinedHash p h true else combinedHash h p true.

Lemma check_loop_step p ps h i : (length (p :: ps) < 32)%nat -> (i < 2 ^ length (p :: ps))%nat ->
  check_loop (p :: ps) h (Z.of_nat i) = check_loop ps (parent i h p) (Z.of_nat (i / 2)).
Proof.
  intros Hl Hi. cbn [check_loop]. destruct (Nat.leb_spec 32 (length (p :: ps))); [lia |].
  assert (Hz : 0 <= Z.of_nat i < 2 ^ Z.of_nat (length (p :: ps))).
  { split; [lia |]. apply Nat2Z.inj_lt in Hi. rewrite Nat2Z.inj_pow in Hi. exact Hi. }
  rewrite adjust_index_small by auto. rewrite Nat2Z.inj_div. f_equal.
  unfold parent. replace 1 with (Z.ones 1) at 1 by reflexivity. rewrite Z.land_ones by lia.
  rewrite <- Nat.negb_even. destruct (Nat.even i) eqn:Ev; cbn [negb].
  - apply Nat.even_spec in Ev as [y ->]. rewrite Nat2Z.inj_mul.
    replace ((Z.of_nat 2 * Z.of_nat y) mod 2 ^ 1) with 0; [reflexivity |].
    rewrite Z.mul_comm. symmetry. apply Z.mod_mul. lia.
  - assert (Eo : Nat.odd i = true) by (rewrite <- Nat.negb_even, Ev; reflexivity).
    apply Nat.odd_spec in Eo as [y ->]. rewrite Nat2Z.inj_add, Nat2Z.inj_mul.
    replace ((Z.of_nat 2 * Z.of_nat y + Z.of_nat 1) mod 2 ^ 1) with 1; [reflexivity |].
    rewrite Z.add_comm, (Z.mul_comm (Z.of_nat 2)). symmetry. apply Z.mod_add. lia.
Qed.

(** Place [i] and its sibling in the next layer. *)
Lemma parent_next m l i p : length l = (2 * m)%nat -> (i < 2 * m)%nat ->
  p = nth (if Nat.odd i then i - 1 else i + 1)%nat l [] ->
  parent i (nth i l []) p = nth (i / 2) (getNextLayer true l) [].
Proof.
  intros Hl Hi ->. rewrite (next_layer_nth true l m) by (auto; apply Nat.Div0.div_lt_upper_bound; lia).
  unfold parent. destruct (Nat.odd i) eqn:Eo.
  - apply Nat.odd_spec in Eo as [y ->]. replace ((2 * y + 1) / 2)%nat with y.
    + replace (2 * y + 1 - 1)%nat with (2 * y)%nat by lia. reflexivity.
    + rewrite Nat.add_comm, Nat.mul_comm, Nat.div_add by lia. reflexivity.
  - assert (Ee : Nat.even i = true) by (rewrite <- Nat.negb_odd, Eo; reflexivity).
    apply Nat.even_spec in Ee as [y ->]. rewrite (Nat.mul_comm 2 y), Nat.div_mul, (Nat.mul_comm y 2) by lia. reflexivity.
Qed.

Lemma pow2_S k : (2 ^ S k = 2 * 2 ^ k)%nat.
Proof. reflexivity. Qed.

Lemma check_loop_path k l i : (k < 32)%nat -> length l = (2 ^ k)%nat -> (i < 2 ^ k)%nat ->
  check_loop (path_of k l i) (nth i l []) (Z.of_nat i) = Some (root_of k l).
Proof.
  revert l i. induction k as [|k IH]; intros l i Hk Hl Hi; [cbn in Hi; replace i with 0%nat by lia; reflexivity |].
  cbn [path_of]. rewrite check_loop_step by (cbn [length]; rewrite path_length; auto).
  rewrite (parent_next (2 ^ k) l i) by auto. cbn [root_of].
  apply IH; [lia | apply next_layer_length; exact Hl |].
  apply Nat.Div0.div_lt_upper_bound. exact Hi.
Qed.

(** The message hashed at place [i]: an element and its sibling, in order. *)
Definition pair_message (i : nat) (h p : Buffer) : Buffer := if Nat.odd i then p ++ h else h ++ p.

(** The messages hashed on the way from element [h] at place [i] to the root,
    from the lowest layer upwards, when [proof] gives the siblings. *)
Fixpoint opening_messages (proof : Elements) (h : Buffer) (i : nat) : list Buffer :=
  match proof with
  | [] => []
  | p :: ps => pair_message i h p :: opening_messages ps (Merkle.hash (pair_message i h p)) (i / 2)
  end.

(** Two given messages that differ and have the same hash. *)
Definition clash (m : Buffer * Buffer) : Prop := fst m <> snd m /\ Merkle.hash (fst m) = Merkle.hash (snd m).

Lemma parent_message i h p : parent i h p = Merkle.hash (pair_message i h p).
Proof. unfold parent, pair_message, combinedHash. destruct (Nat.odd i); reflexivity. Qed.

Lemma pair_message_inj i h p h' p' : length h = 16%nat -> length p = 16%nat -> length h' = 16%nat -> length p' = 16%nat ->
  pair_message i h p = pair_message i h' p' -> h = h' /\ p = p'.
Proof. unfold pair_message. intros. destruct (Nat.odd i); apply app_inj_1 in H3 as [-> ->]; auto; congruence. Qed.

(** Two parents at the same place: equal children, or the two messages clash. *)
Lemma parent_inj i h p h' p' : element_ok h -> element_ok p -> element_ok h' -> element_ok p' ->
  parent i h p = parent i h' p' -> h = h' /\ p = p' \/ clash (pair_message i h p, pair_message i h' p').
Proof.
  intros [] [] [] [] E. rewrite !parent_message in E.
  destruct (decide (pair_message i h p = pair_message i h' p')) as [Em|Hne]; [left | right; split; assumption].
  apply (pair_message_inj i); auto.
Qed.

Lemma sibling_lt k i : (i < 2 ^ S k)%nat -> ((if Nat.odd i then i - 1 else i + 1) < 2 ^ S k)%nat.
Proof.
  rewrite pow2_S. intros Hi. destruct (Nat.odd i) eqn:Eo; [lia |].
  assert (Ee : Nat.even i = true) by (rewrite <- Nat.negb_odd, Eo; reflexivity).
  apply Nat.even_spec in Ee as [y ->]. lia.
Qed.

Lemma check_loop_sound k l i proof e : (k < 32)%nat -> length l = (2 ^ k)%nat -> (i < 2 ^ k)%nat ->
  Forall element_ok l -> Forall element_ok proof -> element_ok e -> length proof = k ->
  check_loop proof e (Z.of_nat i) = Some (root_of k l) ->
  e = nth i l [] /\ proof = path_of k l i \/
  Exists clash (zip (opening_messages proof e i) (opening_messages (path_of k l i) (nth i l []) i)).
Proof.
  revert l i proof e. induction k as [|k IH]; intros l i proof e Hk Hl Hi Fl Fp He Hp E.
  - destruct proof; [|discriminate]. cbn in Hi, E. injection E as ->. left. replace i with 0%nat by lia. auto.
  - destruct proof as [|p ps]; [discriminate |]. rewrite check_loop_step in E by (rewrite Hp; auto).
    apply Forall_cons in Fp as [Op Fp]. cbn [root_of] in E. injection Hp as Hp.
    assert (Hi2 : (i / 2 < 2 ^ k)%nat) by (apply Nat.Div0.div_lt_upper_bound; exact Hi).
    assert (Hpar : element_ok (parent i e p)) by (unfold parent; destruct (Nat.odd i); apply combined_ok; auto).
    cbn [path_of]. set (q := if Nat.odd i then (i - 1)%nat else (i + 1)%nat).
    assert (Hq : (q < length l)%nat) by (rewrite Hl; apply sibling_lt; exact Hi).
    pose proof (parent_next (2 ^ k) l i (nth q l []) Hl Hi eq_refl) as En.
    cbn [opening_messages zip_with]. rewrite <- !parent_message, En.
    destruct (IH (getNextLayer true l) (i / 2)%nat ps (parent i e p)) as [[E1 E2]|Hc]; auto; try lia.
    + apply next_layer_length. exact Hl.
    + apply (next_layer_ok l (2 ^ k)); auto.
    + rewrite <- En in E1. apply parent_inj in E1 as [[-> ->]|Hc]; auto; [left; rewrite E2; auto | apply nth_element_ok; auto; lia | apply nth_element_ok; auto].
Qed.

(** ** Openings of a tree *)

Lemma root_of_ok k l : length l = (2 ^ k)%nat -> Forall element_ok l -> element_ok (root_of k l).
Proof.
  revert l. induction k as [|k IH]; intros l Hl Fl; [apply nth_element_ok; [auto | cbn in Hl; lia] |].
  apply IH; [apply next_layer_length; exact Hl | apply (next_layer_ok l (2 ^ k)); auto].
Qed.

Lemma path_of_ok k l i : length l = (2 ^ k)%nat -> Forall element_ok l -> (i < 2 ^ k)%nat -> Forall element_ok (path_of k l i).
Proof.
  revert l i. induction k as [|k IH]; intros l i Hl Fl Hi; [constructor |]. cbn [path_of]. constructor.
  - apply nth_element_ok; [exact Fl | rewrite Hl; apply sibling_lt; exact Hi].
  - apply IH; [apply next_layer_length; exact Hl | apply (next_layer_ok l (2 ^ k)); auto |].
    apply Nat.Div0.div_lt_upper_bound. exact Hi.
Qed.

Lemma index_u64 k i : (k < 32)%nat -> (i < 2 ^ k)%nat -> u64 (Z.of_nat (S i) - 1) = Z.of_nat i.
Proof.
  intros Hk Hi. assert (2 ^ k <= 2 ^ 31)%nat by (apply Nat.pow_le_mono_r; lia).
  assert (Z.of_nat (2 ^ 31) = 2 ^ 31) by (rewrite Nat2Z.inj_pow; reflexivity).
  rewrite wrap_small; [lia | unfold word; lia].
Qed.

(** Extracting the proof of place [i] succeeds, and the proof is accepted. *)
Lemma tree_opening k l t i : (k < 32)%nat -> length l = (2 ^ k)%nat -> Forall element_ok l ->
  new_MerkleTree l true = inl t -> (i < 2 ^ k)%nat ->
  getProofOrdered t (nth i l []) (S i) = inl (path_of k l i) /\ getRoot t = root_of k l /\
  checkProofOrdered (path_of k l i) (root_of k l) (nth i l []) (Z.of_nat (S i)) = Some true.
Proof.
  intros Hk Hl Fl Et Hi. destruct (new_tree_full k l Fl Hl) as (t' & Et' & Ee & Er & Ep).
  rewrite Et in Et'. injection Et' as <-. split; [|split; [exact Er |]].
  - unfold getProofOrdered. rewrite Ee. cbn [Nat.eqb]. replace (S i - 1)%nat with i by lia.
    destruct (Nat.leb_spec (length l) i); [lia |]. rewrite bool_decide_eq_true_2 by reflexivity.
    cbn [orb negb]. rewrite Ep by auto. reflexivity.
  - unfold checkProofOrdered. rewrite (index_u64 k) by auto. rewrite check_loop_path by auto.
    rewrite bool_decide_eq_true_2 by reflexivity. reflexivity.
Qed.

(** An accepted proof of the right length is the honest one, or a message that
    checking it hashes clashes with the honest message of the same layer. *)
Lemma tree_opening_sound k l i proof e : (k < 32)%nat -> length l = (2 ^ k)%nat -> Forall element_ok l -> (i < 2 ^ k)%nat ->
  length proof = k -> Forall element_ok proof -> element_ok e ->
  checkProofOrdered proof (root_of k l) e (Z.of_nat (S i)) = Some true ->
  e = nth i l [] /\ proof = path_of k l i \/
  Exists clash (zip (opening_messages proof e i) (opening_messages (path_of k l i) (nth i l []) i)).
Proof.
  intros Hk Hl Fl Hi Hp Fp He Hc. unfold checkProofOrdered in Hc. rewrite (index_u64 k) in Hc by auto.
  destruct (check_loop proof e (Z.of_nat i)) as [h|] eqn:E; [|discriminate].
  injection Hc as Hc. apply bool_decide_eq_true_1 in Hc. subst h.
  exact (check_loop_sound k l i proof e Hk Hl Hi Fl Fp He Hp E).
Qed.

(** ** Theorems *)

(** C37: membership proofs.  For a list of 2^k well-formed elements, k below 32,
    building the ordered tree succeeds, and for every place: the proof that
    [getProofOrdered] extracts has k hashes and is accepted by
    [checkProofOrdered] against the root for the element of that place
    (1-based); and conversely, if any proof of k well-formed hashes is accepted
    for any well-formed element at that place, then the element is the one of
    the tree and the proof is the extracted one, unless in one of the k layers
    the message that checking the presented proof hashes (a function of the
    element, the proof and the place) differs from the message of the honest
    path in that same layer and has the same hash. *)
Theorem merkle_proofs_complete_and_sound k elements i :
  (k < 32)%nat -> length elements = (2 ^ k)%nat -> Forall element_ok elements -> (i < 2 ^ k)%nat ->
  exists t proof, new_MerkleTree elements true = inl t /\
    getProofOrdered t (nth i elements []) (S i) = inl proof /\ length proof = k /\
    checkProofOrdered proof (getRoot t) (nth i elements []) (Z.of_nat (S i)) = Some true /\
    forall proof' e, length proof' = k -> Forall element_ok proof' -> element_ok e ->
      checkProofOrdered proof' (getRoot t) e (Z.of_nat (S i)) = Some true ->
      e = nth i elements [] /\ proof' = proof \/
      Exists clash (zip (opening_messages proof' e i) (opening_messages proof (nth i elements []) i)).
Proof.
  intros Hk Hl Fl Hi. destruct (new_tree_full k elements Fl Hl) as (t & Et & _).
  destruct (tree_opening k elements t i Hk Hl Fl Et Hi) as (H1 & H2 & H3). rewrite <- H2 in H3.
  exists t, (path_of k elements i). split; [exact Et |]. split; [exact H1 |]. split; [apply path_length |]. split; [exact H3 |].
  intros proof' e Hp' Fp' He Hc. rewrite H2 in Hc. eapply tree_opening_sound; eauto.
Qed.

Definition sample_elements (n : nat) : Elements := map (fun i => replicate 16 (Z.of_nat i)) (seq 1 n).

Lemma sample_elements_ok n : (n < 256)%nat -> Forall element_ok (sample_elements n).
Proof.
  intros Hn. apply Forall_forall. intros e He. apply list_elem_of_In, in_map_iff in He as (i & <- & Hi).
  apply in_seq in Hi. split; [reflexivity |]. apply Forall_replicate. unfold word. lia.
Qed.

Lemma merkle_proofs_witness : exists t proof,
  new_MerkleTree (sample_elements 4) true = inl t /\
  checkProofOrdered proof (getRoot t) (replicate 16 3) 3 = Some true /\
  forall proof' e, length proof' = 2%nat -> Forall element_ok proof' -> element_ok e ->
    checkProofOrdered proof' (getRoot t) e 3 = Some true ->
    e = replicate 16 3 /\ proof' = proof \/
    Exists clash (zip (opening_messages proof' e 2) (opening_messages proof (replicate 16 3) 2)).
Proof.
  destruct (merkle_proofs_complete_and_sound 2 (sample_elements 4) 2 ltac:(lia) eq_refl
    (sample_elements_ok 4 ltac:(lia)) ltac:(cbn; lia)) as (t & proof & Et & _ & _ & Ec & Hs).
  exists t, proof. split; [exact Et |]. split; [exact Ec | exact Hs].
Defined.

(** [checkProofOrdered] is meant for trees of any size ("we don't assume
    that the tree is padded to a power of 2"), but rejects an honest proof: in
    the ordered tree of 21 elements the proof that [getProofOrdered] extracts
    for element 19 is refused by [checkProofOrdered] against the root of that
    very tree.  The loop takes the even index 18 down to 9, because it is at
    least 2^4, although the proof starts at the lowest layer. *)
Theorem merkle_honest_proof_rejected :
  match new_MerkleTree (sample_elements 21) true with
  | inl t =>
      match getProofOrdered t (replicate 16 19) 19 with
      | inl proof => checkProofOrdered proof (getRoot t) (replicate 16 19) 19
      | inr _ => None
      end
  | inr _ => None
  end = Some false.
Proof. vm_compute. reflexivity. Qed.
