(* ===== verification/Arith256.v ===== *)
(** * Arith256: big integers of the proof of work

    Models arith_uint256.h and arith_uint256.cpp: [base_uint<BITS>] as the list
    of its [WIDTH] 32-bit limbs, least significant first, its operators limb by
    limb, and the compact encoding of targets of [arith_uint256].

    [pn[i]] is the [i]-th limb; [uint64_t] intermediate values are wrapped at 64
    bits.  An exception of the code is [None]. *)

From S2P Require Import Prelude Words.

Abbreviation limbs := (list Z).

Section base_uint.
Context (WIDTH : nat).

(** ** Construction *)

Definition zero : limbs := replicate WIDTH 0.

(** [base_uint(uint64_t b)] and [operator=(uint64_t b)]. *)
Definition of_u64 (b : Z) : limbs := u32 b :: u32 (b ≫ 32) :: replicate (WIDTH - 2) 0.

(** [operator!]. *)
Definition is_zero (pn : limbs) : bool := forallb (fun x => x =? 0) pn.

(** ** Bit operators *)

Definition bit_not (pn : limbs) : limbs := map (fun x => u32 (Z.lnot x)) pn.
Definition bit_xor (a b : limbs) : limbs := zip_with Z.lxor a b.
Definition bit_and (a b : limbs) : limbs := zip_with Z.land a b.
Definition bit_or (a b : limbs) : limbs := zip_with Z.lor a b.

(** [operator<<=]: iteration [i] of the loop, from the copy [a] into [pn]. *)
Definition shl_step (a : limbs) (k : nat) (shift : Z) (pn : limbs) (i : nat) : limbs :=
  let pn := if (i + k + 1 <? WIDTH)%nat && negb (shift =? 0)
            then <[(i + k + 1)%nat := Z.lor pn.[i + k + 1] (a.[i] ≫ (32 - shift))]> pn else pn in
  if (i + k <? WIDTH)%nat
  then <[(i + k)%nat := Z.lor pn.[i + k] (u32 (a.[i] ≪ shift))]> pn else pn.

Definition shl (a : limbs) (shift : Z) : limbs :=
  fold_left (shl_step a (Z.to_nat (shift / 32)) (shift mod 32)) (seq 0 WIDTH) zero.

(** [operator>>=]. *)
Definition shr_step (a : limbs) (k : nat) (shift : Z) (pn : limbs) (i : nat) : limbs :=
  let pn := if (k + 1 <=? i)%nat && negb (shift =? 0)
            then <[(i - k - 1)%nat := Z.lor pn.[i - k - 1] (u32 (a.[i] ≪ (32 - shift)))]> pn else pn in
  if (k <=? i)%nat
  then <[(i - k)%nat := Z.lor pn.[i - k] (a.[i] ≫ shift)]> pn else pn.

Definition shr (a : limbs) (shift : Z) : limbs :=
  fold_left (shr_step a (Z.to_nat (shift / 32)) (shift mod 32)) (seq 0 WIDTH) zero.

(** ** Arithmetic *)

(** [operator+=]: the loop with its carry. *)
Fixpoint add_carry_loop (carry : Z) (a b : limbs) : limbs :=
  match a, b with
  | x :: a, y :: b =>
      let n := u64 (carry + x + y) in
      Z.land n 0xffffffff :: add_carry_loop (n ≫ 32) a b
  | _, _ => []
  end.
Definition add (a b : limbs) : limbs := add_carry_loop 0 a b.

(** [operator++]: increment limbs while they wrap to zero. *)
Fixpoint inc (pn : limbs) : limbs :=
  match pn with
  | [] => []
  | x :: pn => let x := u32 (x + 1) in if x =? 0 then x :: inc pn else x :: pn
  end.

(** [operator--]. *)
Fixpoint dec (pn : limbs) : limbs :=
  match pn with
  | [] => []
  | x :: pn => let x := u32 (x - 1) in if x =? 0xffffffff then x :: dec pn else x :: pn
  end.

(** Unary and binary [operator-]. *)
Definition neg (pn : limbs) : limbs := inc (bit_not pn).
Definition sub (a b : limbs) : limbs := add a (neg b).

(** [operator*=(uint32_t)]. *)
Fixpoint mul32_loop (carry b32 : Z) (pn : limbs) : limbs :=
  match pn with
  | [] => []
  | x :: pn => let n := u64 (carry + u64 (b32 * x)) in
      Z.land n 0xffffffff :: mul32_loop (n ≫ 32) b32 pn
  end.
Definition mul32 (pn : limbs) (b32 : Z) : limbs := mul32_loop 0 b32 pn.

(** [operator*=(const base_uint&)]: the inner loop, on the limbs from [j] on. *)
Fixpoint mul_row (carry aj : Z) (pn b : limbs) : limbs :=
  match pn, b with
  | x :: pn, y :: b => let n := u64 (carry + x + u64 (aj * y)) in
      Z.land n 0xffffffff :: mul_row (n ≫ 32) aj pn b
  | _, _ => []
  end.
Definition mul (a b : limbs) : limbs :=
  fold_left (fun pn j => take j pn ++ mul_row 0 a.[j] (drop j pn) b) (seq 0 WIDTH) zero.

(** ** Comparison *)

(** From the most significant limb down. *)
Fixpoint compare_down (a b : limbs) : Z :=
  match a, b with
  | x :: a, y :: b => if x <? y then -1 else if y <? x then 1 else compare_down a b
  | _, _ => 0
  end.
Definition CompareTo (a b : limbs) : Z := compare_down (rev a) (rev b).

Definition EqualTo (a : limbs) (b : Z) : bool :=
  forallb (fun x => x =? 0) (drop 2 a) && (a.[1] =? b ≫ 32) && (a.[0] =? Z.land b 0xffffffff).

(** [bits()]: the inner loop over [bits = 31 .. 1] of one limb, then the limbs. *)
Fixpoint limb_bits (n : nat) (x : Z) : Z :=
  match n with
  | O => 1
  | S m => if negb (Z.land x (1 ≪ Z.of_nat n) =? 0) then Z.of_nat n + 1 else limb_bits m x
  end.
Fixpoint bits_down (pos : nat) (pn : limbs) : Z :=
  match pos with
  | O => 0
  | S p => if negb (pn.[p] =? 0) then 32 * Z.of_nat p + limb_bits 31 pn.[p] else bits_down p pn
  end.
Definition bits (pn : limbs) : Z := bits_down WIDTH pn.

(** ** Division *)

(** [while (shift >= 0)]: quotient, remainder and divisor; [n] is [shift + 1]. *)
Fixpoint div_loop (n : nat) (q num div : limbs) : limbs * limbs :=
  match n with
  | O => (q, num)
  | S shift =>
      let '(q, num) :=
        if 0 <=? CompareTo num div then
          (<[(shift / 32)%nat := Z.lor q.[shift / 32] (u32 (1 ≪ Z.of_nat (Nat.land shift 31)))]> q, sub num div)
        else (q, num) in
      div_loop shift q num (shr div 1)
  end.

(** [operator/=]; [None] is the exception "Division by zero". *)
Definition div (a b : limbs) : option limbs :=
  let num_bits := bits a in
  let div_bits := bits b in
  if div_bits =? 0 then None else
  if num_bits <? div_bits then Some zero else
  let shift := num_bits - div_bits in
  Some (fst (div_loop (Z.to_nat (shift + 1)) zero a (shl b shift))).

Definition GetLow64 (pn : limbs) : Z := Z.lor pn.[0] (u64 (pn.[1] ≪ 32)).

(** ** Conversion from and to byte blobs *)

Definition UintToArith (a : list Z) : limbs := map (fun x => le_decode (take 4 (drop (x * 4) a))) (seq 0 WIDTH).
Definition ArithToUint (a : limbs) : list Z := flat_map (fun x => le_encode 4 a.[x]) (seq 0 WIDTH).
End base_uint.

(** ** arith_uint256 *)

Abbreviation W256 := 8%nat.

(** The value and the two flags. *)
Definition SetCompact (nCompact : Z) : limbs * bool * bool :=
  let nSize := nCompact ≫ 24 in
  let nWord := Z.land nCompact 0x007fffff in
  let '(nWord, v) :=
    if nSize <=? 3 then
      let nWord := nWord ≫ (8 * (3 - nSize)) in (nWord, of_u64 W256 nWord)
    else (nWord, shl W256 (of_u64 W256 nWord) (8 * (nSize - 3))) in
  let negative := negb (nWord =? 0) && negb (Z.land nCompact 0x00800000 =? 0) in
  let overflow := negb (nWord =? 0) &&
    ((34 <? nSize) || ((0xff <? nWord) && (33 <? nSize)) || ((0xffff <? nWord) && (32 <? nSize))) in
  (v, negative, overflow).

(** Mantissa and exponent of the encoding: [nCompact] and [nSize] where
    [GetCompact] reaches its assertions. *)
Definition compact_parts (v : limbs) : Z * Z :=
  let nSize := (bits W256 v + 7) / 8 in
  let nCompact :=
    if nSize <=? 3 then u32 (u64 (GetLow64 v ≪ (8 * (3 - nSize))))
    else u32 (GetLow64 (shr W256 v (8 * (nSize - 3)))) in
  if negb (Z.land nCompact 0x00800000 =? 0) then (nCompact ≫ 8, nSize + 1) else (nCompact, nSize).

(** The two assertions. *)
Definition compact_asserts (v : limbs) : bool :=
  let '(nCompact, nSize) := compact_parts v in
  (Z.land nCompact (u32 (Z.lnot 0x007fffff)) =? 0) && (nSize <? 256).

(** The value returned when the assertions hold. *)
Definition GetCompact (v : limbs) (fNegative : bool) : Z :=
  let '(nCompact, nSize) := compact_parts v in
  let nCompact := Z.lor nCompact (u32 (nSize ≪ 24)) in
  Z.lor nCompact (if fNegative && negb (Z.land nCompact 0x007fffff =? 0) then 0x00800000 else 0).

Definition UintToArith256 := UintToArith W256.
Definition ArithToUint256 := ArithToUint W256.
