(* ===== verification/Arith256Correct.v ===== *)
(** * Arith256Correct: the limbs compute modulo 2^BITS

    The value of a list of limbs, and that every operator of [base_uint] is the
    corresponding operation on values: modulo 2^(32 WIDTH) for sums, products
    and shifts, exact for comparison and division.

    The shifts of [base_uint] multiply and divide by powers of two, [bits] is
    the bit length, and the shift-and-subtract loop of [operator/=] computes
    the exact quotient. *)

From S2P Require Import Prelude Words Arith256.

(** ** The value of a list of limbs *)

Fixpoint eval (l : limbs) : Z := match l with [] => 0 | x :: l => x + 2 ^ 32 * eval l end.

Abbreviation limb := (word 32).
Abbreviation modulus n := (2 ^ (32 * Z.of_nat n)).

Lemma modulus_S n : modulus (S n) = 2 ^ 32 * modulus n.
Proof. rewrite <- Z.pow_add_r by lia. f_equal. lia. Qed.

Lemma modulus_pos n : 0 < modulus n.
Proof. apply Z.pow_pos_nonneg; lia. Qed.

Lemma eval_bounds l : Forall limb l -> 0 <= eval l < modulus (length l).
Proof.
  induction 1 as [|x l Hx Hl IH]; [cbn; lia |].
  cbn [eval length]. rewrite modulus_S. unfold word in Hx. nia.
Qed.

Lemma eval_app a b : eval (a ++ b) = eval a + modulus (length a) * eval b.
Proof.
  induction a as [|x a IH]; [cbn [app eval length]; change (modulus 0) with 1; lia |].
  cbn [app eval length]. rewrite IH, modulus_S. ring.
Qed.

Lemma eval_replicate_0 n : eval (replicate n 0) = 0.
Proof. induction n as [|n IH]; [reflexivity |]. cbn [replicate eval]. rewrite IH. reflexivity. Qed.

Lemma eval_insert l i x : (i < length l)%nat -> eval (<[i := x]> l) = eval l + modulus i * (x - l.[i]).
Proof.
  revert i. induction l as [|y l IH]; intros i Hi; [cbn in Hi; lia |].
  destruct i as [|i]; cbn [insert list_insert eval nth].
  - change (modulus 0) with 1. lia.
  - change (list_insert i x l) with (<[i := x]> l). rewrite IH by (cbn in Hi; lia). rewrite modulus_S. ring.
Qed.

(** The bits of the value are the bits of the limbs. *)
Lemma eval_testbit l j : Forall limb l -> 0 <= j ->
  Z.testbit (eval l) j = Z.testbit l.[Z.to_nat (j / 32)] (j mod 32).
Proof.
  intros Hl. revert j. induction Hl as [|x l Hx Hl IH]; intros j Hj.
  - cbn [eval]. rewrite Z.bits_0. destruct (Z.to_nat (j / 32)); cbn [nth]; rewrite Z.bits_0; reflexivity.
  - cbn [eval]. assert (Ex : x + 2 ^ 32 * eval l = Z.lor x (eval l ≪ 32)).
    { pose proof (eval_bounds l Hl). rewrite lor_shiftl_add by (auto; lia). lia. }
    rewrite Ex, Z.lor_spec, Z.shiftl_spec by lia. destruct (Z.ltb_spec j 32).
    + rewrite (Z.testbit_neg_r _ (j - 32)) by lia. rewrite orb_false_r.
      rewrite Z.div_small, Z.mod_small by lia. reflexivity.
    + rewrite (word_bit_high 32 x j) by (auto; lia). rewrite IH by lia. cbn [orb].
      replace (j / 32) with (1 + (j - 32) / 32) by (rewrite <- Z.div_add_l by lia; f_equal; lia).
      rewrite Z2Nat.inj_add by (try apply Z.div_pos; lia). cbn [Z.to_nat Pos.to_nat Pos.iter_op plus nth].
      f_equal. rewrite <- (Z.mod_add (j - 32) 1) by lia. f_equal. lia.
Qed.

(** A result that differs from [z] by a multiple of the modulus is [z] reduced. *)
Lemma eval_unique l z q : Forall limb l -> z = eval l + modulus (length l) * q -> eval l = z mod modulus (length l).
Proof.
  intros Hl ->. pose proof (eval_bounds l Hl). rewrite Z.mul_comm, Z.mod_add by lia. symmetry. apply Z.mod_small. auto.
Qed.

(** The low limb and the carry of a 64-bit sum. *)
Lemma low_carry n : 0 <= n < 2 ^ 64 ->
  n = Z.land n 0xffffffff + 2 ^ 32 * (n ≫ 32) /\ limb (Z.land n 0xffffffff) /\ 0 <= n ≫ 32 < 2 ^ 32.
Proof.
  intros Hn. replace 0xffffffff with (Z.ones 32) by reflexivity.
  rewrite Z.land_ones, Z.shiftr_div_pow2 by lia. split.
  - pose proof (Z.div_mod n (2 ^ 32)). lia.
  - split; [apply Z.mod_pos_bound; lia |]. split; [apply Z.div_pos; lia | apply Z.div_lt_upper_bound; lia].
Qed.

(** ** Sums *)

Lemma add_loop_spec c a b : Forall limb a -> Forall limb b -> length a = length b -> 0 <= c <= 1 ->
  Forall limb (add_carry_loop c a b) /\ length (add_carry_loop c a b) = length a /\
  exists q, c + eval a + eval b = eval (add_carry_loop c a b) + modulus (length a) * q.
Proof.
  intros Ha. revert c b. induction Ha as [|x a Hx Ha IH]; intros c b Hb Hlen Hc.
  - destruct b; [|discriminate]. split; [constructor |]. split; [reflexivity |]. exists c. cbn. change (modulus 0) with 1. lia.
  - destruct Hb as [|y b Hy Hb]; [discriminate |]. injection Hlen as Hlen. unfold word in Hx, Hy.
    cbn [add_carry_loop]. rewrite wrap_small by (unfold word; lia).
    destruct (low_carry (c + x + y)) as (En & Hw & Hcr); [lia |].
    assert (Hc' : 0 <= (c + x + y) ≫ 32 <= 1).
    { rewrite Z.shiftr_div_pow2 in * by lia. split; [lia |]. apply Z.lt_succ_r, Z.div_lt_upper_bound; lia. }
    destruct (IH _ b Hb Hlen Hc') as (Fr & Lr & q & Eq).
    split; [constructor; auto |]. split; [cbn; auto |]. exists q. cbn [eval length]. rewrite modulus_S.
    assert (2 ^ 32 * ((c + x + y) ≫ 32 + eval a + eval b) =
      2 ^ 32 * (eval (add_carry_loop ((c + x + y) ≫ 32) a b) + modulus (length a) * q)) by (rewrite Eq; reflexivity).
    lia.
Qed.

Section width.
Context (W : nat).

Definition ok (l : limbs) : Prop := length l = W /\ Forall limb l.
Abbreviation N := (modulus W).

Lemma ok_bounds l : ok l -> 0 <= eval l < N.
Proof. intros [El H]. rewrite <- El. apply eval_bounds. exact H. Qed.

Lemma zero_ok : ok (zero W) /\ eval (zero W) = 0.
Proof.
  split; [split; [apply length_replicate | apply Forall_replicate; unfold word; lia] | apply eval_replicate_0].
Qed.

Lemma add_spec a b : ok a -> ok b -> ok (add a b) /\ eval (add a b) = (eval a + eval b) mod N.
Proof.
  intros [La Fa] [Lb Fb]. destruct (add_loop_spec 0 a b Fa Fb) as (F & L & q & E); [congruence | lia |].
  unfold add. split; [split; [congruence | exact F] |]. rewrite <- La, <- L. apply (eval_unique _ _ q F). rewrite L. lia.
Qed.

Lemma bit_not_spec a : ok a -> ok (bit_not a) /\ eval (bit_not a) = N - 1 - eval a.
Proof.
  intros [El F]. unfold ok, bit_not. rewrite <- El, length_map. clear El.
  assert (H : Forall limb (map (fun x => u32 (Z.lnot x)) a) /\
    eval (map (fun x => u32 (Z.lnot x)) a) = modulus (length a) - 1 - eval a).
  { induction F as [|x a Hx F [IHF IHE]]; [split; [constructor | reflexivity] |].
    cbn [map eval length]. rewrite modulus_S, IHE. split; [constructor; [apply wrap_word; lia | exact IHF] |].
    assert (E : u32 (Z.lnot x) = 2 ^ 32 - 1 - x).
    { unfold wrap, Z.lnot, word in *. rewrite <- (Z.mod_add _ 1) by lia. rewrite Z.mod_small; lia. }
    rewrite E. lia. }
  destruct H. auto.
Qed.

Lemma inc_spec a : ok a -> ok (inc a) /\ eval (inc a) = (eval a + 1) mod N.
Proof.
  intros [El F]. unfold ok. rewrite <- El. clear El.
  assert (H : Forall limb (inc a) /\ length (inc a) = length a /\ exists q, eval a + 1 = eval (inc a) + modulus (length a) * q).
  { induction F as [|x a Hx F (IF & IL & q & IE)]; [split; [constructor |]; split; [reflexivity |]; exists 1; reflexivity |].
    cbn [inc]. unfold word in Hx. destruct (Z.eqb_spec (u32 (x + 1)) 0) as [E|E].
    - assert (x = 2 ^ 32 - 1).
      { destruct (decide (x = 2 ^ 32 - 1)); [auto |]. rewrite wrap_small in E by (unfold word; lia). lia. }
      rewrite E. split; [constructor; [unfold word; lia | auto] |]. split; [cbn; auto |].
      exists q. cbn [eval length]. rewrite modulus_S. lia.
    - assert (x <> 2 ^ 32 - 1) by (intros ->; apply E; reflexivity).
      rewrite wrap_small by (unfold word; lia). split; [constructor; [unfold word; lia | auto] |]. split; [reflexivity |].
      exists 0. cbn [eval]. lia. }
  destruct H as (IF & IL & q & E). split; [auto |]. rewrite <- IL. apply (eval_unique _ _ q IF). rewrite IL. exact E.
Qed.

Lemma neg_spec a : ok a -> ok (neg a) /\ eval (neg a) = (- eval a) mod N.
Proof.
  intros Ha. destruct (bit_not_spec a Ha) as [Hn En]. destruct (inc_spec _ Hn) as [Hi Ei]. split; [exact Hi |].
  unfold neg. rewrite Ei, En. rewrite <- (Z.mod_add (- eval a) 1) by (pose proof (modulus_pos W); lia). f_equal. lia.
Qed.

Lemma sub_spec a b : ok a -> ok b -> ok (sub a b) /\ eval (sub a b) = (eval a - eval b) mod N.
Proof.
  intros Ha Hb. destruct (neg_spec b Hb) as [Hn En]. destruct (add_spec a _ Ha Hn) as [Hs Es]. split; [exact Hs |].
  unfold sub. rewrite Es, En, Zplus_mod_idemp_r. f_equal.
Qed.

(** ** Products *)

Lemma mul32_loop_spec c b l : Forall limb l -> limb b -> limb c ->
  Forall limb (mul32_loop c b l) /\ length (mul32_loop c b l) = length l /\
  exists q, c + eval l * b = eval (mul32_loop c b l) + modulus (length l) * q.
Proof.
  intros F Hb. revert c. induction F as [|x l Hx F IH]; intros c Hc.
  - split; [constructor |]. split; [reflexivity |]. exists c. cbn. lia.
  - cbn [mul32_loop]. unfold word in Hx, Hb, Hc.
    assert (Hm : 0 <= b * x <= (2 ^ 32 - 1) * (2 ^ 32 - 1)) by nia.
    rewrite (wrap_small 64 (b * x)) by (unfold word; lia). rewrite wrap_small by (unfold word; lia).
    destruct (low_carry (c + b * x)) as (En & Hw & Hcr); [lia |].
    destruct (IH _ Hcr) as (Fr & Lr & q & Eq).
    split; [constructor; auto |]. split; [cbn; auto |]. exists q. cbn [eval length]. rewrite modulus_S.
    assert (2 ^ 32 * ((c + b * x) ≫ 32 + eval l * b) =
      2 ^ 32 * (eval (mul32_loop ((c + b * x) ≫ 32) b l) + modulus (length l) * q)) by (rewrite Eq; reflexivity).
    lia.
Qed.

Lemma mul32_spec a b : ok a -> limb b -> ok (mul32 a b) /\ eval (mul32 a b) = (eval a * b) mod N.
Proof.
  intros [La Fa] Hb. destruct (mul32_loop_spec 0 b a Fa Hb) as (F & L & q & E); [unfold word; lia |].
  unfold mul32. split; [split; [congruence | exact F] |]. rewrite <- La, <- L. apply (eval_unique _ _ q F). rewrite L. lia.
Qed.

Lemma mul_row_spec c aj pn b : Forall limb pn -> Forall limb b -> (length pn <= length b)%nat ->
  limb aj -> limb c ->
  Forall limb (mul_row c aj pn b) /\ length (mul_row c aj pn b) = length pn /\
  exists q, c + eval pn + aj * eval b = eval (mul_row c aj pn b) + modulus (length pn) * q.
Proof.
  intros Fp. revert c b. induction Fp as [|x pn Hx Fp IH]; intros c b Fb Hlen Ha Hc.
  - split; [constructor |]. split; [reflexivity |]. exists (c + aj * eval b). cbn. lia.
  - destruct Fb as [|y b Hy Fb]; [cbn in Hlen; lia |]. cbn [mul_row]. cbn [length] in Hlen. unfold word in Hx, Hy, Ha, Hc.
    assert (Hm : 0 <= aj * y <= (2 ^ 32 - 1) * (2 ^ 32 - 1)) by nia.
    rewrite (wrap_small 64 (aj * y)) by (unfold word; lia). rewrite wrap_small by (unfold word; lia).
    destruct (low_carry (c + x + aj * y)) as (En & Hw & Hcr); [lia |].
    destruct (IH _ b Fb ltac:(lia) Ha Hcr) as (Fr & Lr & q & Eq).
    split; [constructor; auto |]. split; [cbn; auto |]. exists q. cbn [eval length]. rewrite modulus_S.
    assert (2 ^ 32 * ((c + x + aj * y) ≫ 32 + eval pn + aj * eval b) =
      2 ^ 32 * (eval (mul_row ((c + x + aj * y) ≫ 32) aj pn b) + modulus (length pn) * q)) by (rewrite Eq; reflexivity).
    lia.
Qed.

Lemma take_nth_eval l j : (j < length l)%nat -> eval (take (S j) l) = eval (take j l) + modulus j * l.[j].
Proof.
  intros Hj. rewrite (take_S_r l j l.[j]).
  - rewrite eval_app, length_take. replace (j `min` length l)%nat with j by lia. cbn [eval]. lia.
  - rewrite nth_lookup. destruct (lookup_lt_is_Some_2 l j Hj) as [x ->]. reflexivity.
Qed.

Lemma mul_spec a b : ok a -> ok b -> ok (mul W a b) /\ eval (mul W a b) = (eval a * eval b) mod N.
Proof.
  intros [La Fa] [Lb Fb].
  assert (H : forall n, (n <= W)%nat ->
    let pn := fold_left (fun pn j => take j pn ++ mul_row 0 a.[j] (drop j pn) b) (seq 0 n) (zero W) in
    ok pn /\ exists q, eval (take n a) * eval b = eval pn + N * q).
  { induction n as [|n IH]; intros Hn.
    - cbv zeta. cbn [seq fold_left]. split; [apply zero_ok |]. exists 0. rewrite take_0, (proj2 zero_ok). cbn [eval]. ring.
    - rewrite seq_S, fold_left_app. cbn [fold_left plus]. destruct (IH ltac:(lia)) as [[Lp Fp] [q Eq]].
      set (pn := fold_left _ (seq 0 n) (zero W)) in *. clearbody pn. cbv zeta.
      assert (Haj : limb a.[n]).
      { rewrite nth_lookup. destruct (lookup_lt_is_Some_2 a n) as [x Hx]; [lia |]. rewrite Hx. cbn.
        rewrite Forall_lookup in Fa. eauto. }
      destruct (mul_row_spec 0 a.[n] (drop n pn) b) as (Fr & Lr & q' & Er);
        [apply Forall_drop; auto | auto | rewrite length_drop; lia | auto | unfold word; lia |].
      rewrite length_drop in Lr, Er. split.
      + split; [rewrite length_app, length_take, Lr; lia | apply Forall_app; split; [apply Forall_take; auto | auto]].
      + exists (q + q'). rewrite take_nth_eval by lia. rewrite eval_app, length_take.
        replace (n `min` length pn)%nat with n by lia.
        rewrite <- (take_drop n pn) in Eq. rewrite eval_app, length_take in Eq. replace (n `min` length pn)%nat with n in Eq by lia.
        assert (EN : N = modulus n * modulus (length pn - n)) by (rewrite <- Z.pow_add_r by lia; f_equal; lia).
        rewrite EN in *. set (m1 := modulus n) in *. set (m2 := modulus (length pn - n)) in *.
        assert (m1 * (0 + eval (drop n pn) + a.[n] * eval b) =
          m1 * (eval (mul_row 0 a.[n] (drop n pn) b) + m2 * q')) by (rewrite Er; reflexivity). lia. }
  destruct (H W ltac:(lia)) as [Hok [q E]]. fold (mul W a b) in Hok, E. split; [exact Hok |].
  destruct Hok as [Lm Fm]. rewrite take_ge in E by lia. pose proof (eval_unique _ _ q Fm eq_refl) as E'.
  rewrite Lm in E'. rewrite E. exact E'.
Qed.

(** ** Comparison *)

Lemma compare_down_spec a b : length a = length b -> Forall limb a -> Forall limb b ->
  compare_down (rev a) (rev b) = match eval a ?= eval b with Lt => -1 | Eq => 0 | Gt => 1 end.
Proof.
  revert b. induction a as [|x a IH] using rev_ind; intros b Hl Fa Fb.
  - destruct b; [reflexivity | discriminate].
  - destruct b as [|y b _] using rev_ind; [rewrite length_app in Hl; cbn in Hl; lia |].
    rewrite !length_app in Hl. cbn in Hl. rewrite !rev_app_distr. cbn [rev app compare_down].
    apply Forall_app in Fa as [Fa Fx], Fb as [Fb Fy]. apply Forall_inv in Fx, Fy. rewrite !eval_app. cbn [eval].
    pose proof (eval_bounds a Fa). pose proof (eval_bounds b Fb). assert (El : length a = length b) by lia. rewrite El in *.
    destruct (Z.ltb_spec x y); [|destruct (Z.ltb_spec y x)].
    + rewrite (proj2 (Z.compare_lt_iff _ _)); [reflexivity | nia].
    + rewrite (proj2 (Z.compare_gt_iff _ _)); [reflexivity | nia].
    + replace y with x by lia. rewrite IH by auto. rewrite Z.add_comm, (Z.add_comm (eval b)), Z.add_compare_mono_l. reflexivity.
Qed.

Lemma CompareTo_spec a b : ok a -> ok b ->
  CompareTo a b = match eval a ?= eval b with Lt => -1 | Eq => 0 | Gt => 1 end.
Proof. intros [La Fa] [Lb Fb]. apply compare_down_spec; auto. congruence. Qed.

Lemma CompareTo_ge a b : ok a -> ok b -> (0 <=? CompareTo a b) = (eval b <=? eval a).
Proof.
  intros Ha Hb. rewrite CompareTo_spec by auto.
  destruct (Z.compare_spec (eval a) (eval b)), (Z.leb_spec (eval b) (eval a)); cbn; lia.
Qed.
End width.

(** ** Or-ing a word into a limb *)

Definition or_at (j : nat) (v : Z) (l : limbs) : limbs := <[j := Z.lor l.[j] v]> l.

Lemma or_at_length j v l : length (or_at j v l) = length l.
Proof. apply length_insert. Qed.

Lemma or_at_nth j v l j' : (j < length l)%nat ->
  (or_at j v l).[j'] = if decide (j' = j) then Z.lor l.[j] v else l.[j'].
Proof.
  intros Hj. unfold or_at. rewrite !nth_lookup. destruct (decide (j' = j)) as [-> | Hne].
  - rewrite list_lookup_insert_eq by lia. reflexivity.
  - rewrite list_lookup_insert_ne by lia. reflexivity.
Qed.

Lemma nth_limb l j : Forall limb l -> limb l.[j].
Proof.
  intros F. rewrite nth_lookup. destruct (l !! j) eqn:E; cbn; [rewrite Forall_lookup in F; eauto | unfold word; lia].
Qed.

Lemma or_at_limbs j v l : Forall limb l -> limb v -> Forall limb (or_at j v l).
Proof.
  intros F Hv. unfold or_at. apply Forall_insert; [exact F |]. apply word_lor; [lia | apply nth_limb; exact F | exact Hv].
Qed.

Lemma zero_nth W j : (zero W).[j] = 0.
Proof. apply nth_replicate. Qed.

Section width.
Context (W : nat).
Abbreviation N := (modulus W).
Abbreviation ok := (ok W).

(** Two values with the same bits below the width. *)
Lemma eval_of_bits l z : ok l -> 0 <= z < N ->
  (forall j t, (j < W)%nat -> 0 <= t < 32 -> Z.testbit l.[j] t = Z.testbit z (32 * Z.of_nat j + t)) -> eval l = z.
Proof.
  intros [El F] Hz H. apply Z.bits_inj'. intros p Hp. rewrite eval_testbit by auto.
  destruct (Z.ltb_spec p (32 * Z.of_nat W)) as [Hlt | Hge].
  - assert (Hq : 0 <= p / 32 < Z.of_nat W) by (split; [apply Z.div_pos; lia | apply Z.div_lt_upper_bound; lia]).
    rewrite H by (try apply Z.mod_pos_bound; lia). f_equal. rewrite Z2Nat.id by lia. symmetry. apply Z.div_mod. lia.
  - assert (Hq : Z.of_nat W <= p / 32) by (apply Z.div_le_lower_bound; lia).
    rewrite nth_overflow by lia. rewrite Z.bits_0. symmetry.
    apply (word_bit_high (32 * Z.of_nat W)); [exact Hz | lia].
Qed.

(** ** Left shift *)

Lemma shl_step_or a k r pn i : length pn = W ->
  shl_step W a k r pn i =
    let pn := if (i + k + 1 <? W)%nat && negb (r =? 0) then or_at (i + k + 1) (a.[i] ≫ (32 - r)) pn else pn in
    if (i + k <? W)%nat then or_at (i + k) (u32 (a.[i] ≪ r)) pn else pn.
Proof. reflexivity. Qed.

Lemma shl_step_spec a k r pn i : Forall limb a -> ok pn -> 0 <= r < 32 ->
  ok (shl_step W a k r pn i) /\
  forall j t, (j < W)%nat -> 0 <= t < 32 -> Z.testbit (shl_step W a k r pn i).[j] t =
    Z.testbit pn.[j] t || ((j =? i + k)%nat && (r <=? t) && Z.testbit a.[i] (t - r)) ||
                          ((j =? i + k + 1)%nat && (t <? r) && Z.testbit a.[i] (t + 32 - r)).
Proof.
  intros Fa [Lp Fp] Hr. rewrite shl_step_or by auto. pose proof (nth_limb a i Fa) as Hai.
  set (p1 := if _ && _ then _ else _).
  assert (H1 : ok p1 /\ forall j t, (j < W)%nat -> 0 <= t < 32 ->
    Z.testbit p1.[j] t = Z.testbit pn.[j] t || ((j =? i + k + 1)%nat && (t <? r) && Z.testbit a.[i] (t + 32 - r))).
  { unfold p1. destruct (Nat.ltb_spec (i + k + 1) W), (Z.eqb_spec r 0); cbn [andb negb];
      try (split; [split; auto |]; intros j t Hj Ht; destruct (Nat.eqb_spec j (i + k + 1)), (Z.ltb_spec t r);
           cbn [andb]; rewrite ?orb_false_r; (reflexivity || lia)).
    split; [split; [rewrite or_at_length; auto | apply or_at_limbs; [auto | apply word_shiftr; auto; lia]] |].
    intros j t Hj Ht. rewrite or_at_nth by lia. destruct (Nat.eqb_spec j (i + k + 1)).
    - rewrite decide_True by auto. subst j. rewrite Z.lor_spec, Z.shiftr_spec by lia. f_equal.
      replace (t + (32 - r)) with (t + 32 - r) by lia. destruct (Z.ltb_spec t r); cbn [andb]; [reflexivity |].
      apply (word_bit_high 32); [exact Hai | lia].
    - rewrite decide_False by auto. cbn [andb]. rewrite orb_false_r. reflexivity. }
  destruct H1 as [[L1 F1] H1]. cbv zeta. destruct (Nat.ltb_spec (i + k) W).
  - split; [split; [rewrite or_at_length; auto | apply or_at_limbs; [auto | apply wrap_word; lia]] |].
    intros j t Hj Ht. rewrite or_at_nth by lia. destruct (Nat.eqb_spec j (i + k)).
    + rewrite decide_True by auto. subst j. rewrite Z.lor_spec, H1 by lia.
      replace (i + k =? i + k + 1)%nat with false by (symmetry; apply Nat.eqb_neq; lia).
      cbn [andb]. rewrite !orb_false_r. f_equal. unfold wrap. rewrite Z.mod_pow2_bits_low, Z.shiftl_spec by lia.
      destruct (Z.leb_spec r t); cbn [andb]; [reflexivity | apply Z.testbit_neg_r; lia].
    + rewrite decide_False by auto. rewrite H1 by lia. cbn [andb]. rewrite orb_false_r. reflexivity.
  - split; [split; auto |]. intros j t Hj Ht. rewrite H1 by lia.
    replace (j =? i + k)%nat with false by (symmetry; apply Nat.eqb_neq; lia). cbn [andb]. rewrite orb_false_r. reflexivity.
Qed.

Lemma shl_spec a s : ok a -> 0 <= s -> ok (shl W a s) /\ eval (shl W a s) = (eval a * 2 ^ s) mod N.
Proof.
  intros [La Fa] Hs. unfold shl. set (k := Z.to_nat (s / 32)). set (r := s mod 32).
  assert (Hr : 0 <= r < 32) by (apply Z.mod_pos_bound; lia).
  assert (Es : s = 32 * Z.of_nat k + r).
  { unfold k, r. rewrite Z2Nat.id by (apply Z.div_pos; lia). apply Z.div_mod. lia. }
  assert (H : forall n, (n <= W)%nat -> ok (fold_left (shl_step W a k r) (seq 0 n) (zero W)) /\
    forall j t, (j < W)%nat -> 0 <= t < 32 ->
      Z.testbit (fold_left (shl_step W a k r) (seq 0 n) (zero W)).[j] t =
      (32 * Z.of_nat j + t - s <? 32 * Z.of_nat n) && Z.testbit (eval a) (32 * Z.of_nat j + t - s)).
  { induction n as [|n IH]; intros Hn.
    - split; [apply zero_ok |]. intros j t Hj Ht. cbn [seq fold_left].
      rewrite zero_nth, Z.bits_0. destruct (Z.ltb_spec (32 * Z.of_nat j + t - s) (32 * Z.of_nat 0)); [|reflexivity].
      cbn [andb]. symmetry. apply Z.testbit_neg_r. lia.
    - rewrite seq_S, fold_left_app. cbn [fold_left plus]. destruct (IH ltac:(lia)) as [Hok Hbits].
      destruct (shl_step_spec a k r _ n Fa Hok Hr) as [Hok' Hbits']. split; [exact Hok' |].
      intros j t Hj Ht. rewrite Hbits', Hbits by lia. clear Hbits' Hbits Hok Hok' IH.
      destruct (Z.ltb_spec (32 * Z.of_nat j + t - s) (32 * Z.of_nat n)) as [H1|H1].
      + replace (32 * Z.of_nat j + t - s <? 32 * Z.of_nat (S n)) with true by (symmetry; apply Z.ltb_lt; lia).
        cbn [andb]. destruct (Nat.eqb_spec j (n + k)), (Nat.eqb_spec j (n + k + 1)), (Z.leb_spec r t), (Z.ltb_spec t r);
          cbn [andb]; rewrite ?orb_false_r; (reflexivity || lia).
      + cbn [andb orb]. destruct (Z.ltb_spec (32 * Z.of_nat j + t - s) (32 * Z.of_nat (S n))) as [H2|H2]; cbn [andb].
        * rewrite eval_testbit by (auto; lia).
          set (u := 32 * Z.of_nat j + t - s - 32 * Z.of_nat n). assert (Hu : 0 <= u < 32) by lia.
          replace (32 * Z.of_nat j + t - s) with (u + Z.of_nat n * 32) by lia.
          rewrite Z.div_add, Z.mod_add, (Z.div_small u), (Z.mod_small u), Z.add_0_l, Nat2Z.id by lia.
          destruct (Nat.eqb_spec j (n + k)), (Nat.eqb_spec j (n + k + 1)), (Z.leb_spec r t), (Z.ltb_spec t r);
            cbn [andb orb]; rewrite ?orb_false_r; solve [lia | f_equal; lia].
        * destruct (Nat.eqb_spec j (n + k)), (Nat.eqb_spec j (n + k + 1)), (Z.leb_spec r t), (Z.ltb_spec t r);
            cbn [andb orb]; (reflexivity || lia). }
  destruct (H W ltac:(lia)) as [Hok Hbits]. split; [exact Hok |]. apply eval_of_bits; [exact Hok | apply Z.mod_pos_bound, modulus_pos |].
  intros j t Hj Ht. rewrite Hbits by lia. rewrite Z.mod_pow2_bits_low by lia.
  replace (_ <? _) with true by (symmetry; apply Z.ltb_lt; lia). cbn [andb].
  destruct (Z.ltb_spec (32 * Z.of_nat j + t) s).
  - rewrite Z.testbit_neg_r by lia. symmetry. apply Z.mul_pow2_bits_low. lia.
  - symmetry. apply Z.mul_pow2_bits. lia.
Qed.

(** ** Right shift *)

Lemma shr_step_or a k r pn i :
  shr_step a k r pn i =
    let pn := if (k + 1 <=? i)%nat && negb (r =? 0) then or_at (i - k - 1) (u32 (a.[i] ≪ (32 - r))) pn else pn in
    if (k <=? i)%nat then or_at (i - k) (a.[i] ≫ r) pn else pn.
Proof. reflexivity. Qed.

Lemma shr_step_spec a k r pn i : Forall limb a -> ok pn -> (i < W)%nat -> 0 <= r < 32 ->
  ok (shr_step a k r pn i) /\
  forall j t, (j < W)%nat -> 0 <= t < 32 -> Z.testbit (shr_step a k r pn i).[j] t =
    Z.testbit pn.[j] t || ((i =? j + k)%nat && (t + r <? 32) && Z.testbit a.[i] (t + r)) ||
                          ((i =? j + k + 1)%nat && (32 - r <=? t) && Z.testbit a.[i] (t + r - 32)).
Proof.
  intros Fa [Lp Fp] Hi Hr. rewrite shr_step_or. pose proof (nth_limb a i Fa) as Hai.
  set (p1 := if _ && _ then _ else _).
  assert (H1 : ok p1 /\ forall j t, (j < W)%nat -> 0 <= t < 32 ->
    Z.testbit p1.[j] t = Z.testbit pn.[j] t || ((i =? j + k + 1)%nat && (32 - r <=? t) && Z.testbit a.[i] (t + r - 32))).
  { unfold p1. destruct (Nat.leb_spec (k + 1) i), (Z.eqb_spec r 0); cbn [andb negb];
      try (split; [split; auto |]; intros j t Hj Ht; destruct (Nat.eqb_spec i (j + k + 1)), (Z.leb_spec (32 - r) t);
           cbn [andb]; rewrite ?orb_false_r; (reflexivity || lia)).
    split; [split; [rewrite or_at_length; auto | apply or_at_limbs; [auto | apply wrap_word; lia]] |].
    intros j t Hj Ht. rewrite or_at_nth by lia. destruct (Nat.eqb_spec i (j + k + 1)).
    - rewrite decide_True by lia. replace (i - k - 1)%nat with j by lia. rewrite Z.lor_spec. f_equal.
      unfold wrap. rewrite Z.mod_pow2_bits_low, Z.shiftl_spec by lia. replace (t - (32 - r)) with (t + r - 32) by lia.
      destruct (Z.leb_spec (32 - r) t); cbn [andb]; [reflexivity | apply Z.testbit_neg_r; lia].
    - rewrite decide_False by lia. cbn [andb]. rewrite orb_false_r. reflexivity. }
  destruct H1 as [[L1 F1] H1]. cbv zeta. destruct (Nat.leb_spec k i).
  - split; [split; [rewrite or_at_length; auto | apply or_at_limbs; [auto | apply word_shiftr; auto; lia]] |].
    intros j t Hj Ht. rewrite or_at_nth by lia. destruct (Nat.eqb_spec i (j + k)).
    + rewrite decide_True by lia. replace (i - k)%nat with j by lia. rewrite Z.lor_spec, H1 by lia.
      replace (i =? j + k + 1)%nat with false by (symmetry; apply Nat.eqb_neq; lia).
      cbn [andb]. rewrite !orb_false_r. f_equal. rewrite Z.shiftr_spec by lia.
      destruct (Z.ltb_spec (t + r) 32); cbn [andb]; [reflexivity | apply (word_bit_high 32); [exact Hai | lia]].
    + rewrite decide_False by lia. rewrite H1 by lia. cbn [andb]. rewrite orb_false_r. reflexivity.
  - split; [split; auto |]. intros j t Hj Ht. rewrite H1 by lia.
    replace (i =? j + k)%nat with false by (symmetry; apply Nat.eqb_neq; lia). cbn [andb]. rewrite orb_false_r. reflexivity.
Qed.

Lemma shr_spec a s : ok a -> 0 <= s -> ok (shr W a s) /\ eval (shr W a s) = eval a / 2 ^ s.
Proof.
  intros [La Fa] Hs. unfold shr. set (k := Z.to_nat (s / 32)). set (r := s mod 32).
  assert (Hr : 0 <= r < 32) by (apply Z.mod_pos_bound; lia).
  assert (Es : s = 32 * Z.of_nat k + r).
  { unfold k, r. rewrite Z2Nat.id by (apply Z.div_pos; lia). apply Z.div_mod. lia. }
  assert (H : forall n, (n <= W)%nat -> ok (fold_left (shr_step a k r) (seq 0 n) (zero W)) /\
    forall j t, (j < W)%nat -> 0 <= t < 32 ->
      Z.testbit (fold_left (shr_step a k r) (seq 0 n) (zero W)).[j] t =
      (32 * Z.of_nat j + t + s <? 32 * Z.of_nat n) && Z.testbit (eval a) (32 * Z.of_nat j + t + s)).
  { induction n as [|n IH]; intros Hn.
    - split; [apply zero_ok |]. intros j t Hj Ht. cbn [seq fold_left].
      rewrite zero_nth, Z.bits_0. replace (_ <? _) with false by (symmetry; apply Z.ltb_ge; lia). reflexivity.
    - rewrite seq_S, fold_left_app. cbn [fold_left plus]. destruct (IH ltac:(lia)) as [Hok Hbits].
      destruct (shr_step_spec a k r _ n Fa Hok ltac:(lia) Hr) as [Hok' Hbits']. split; [exact Hok' |].
      intros j t Hj Ht. rewrite Hbits', Hbits by lia. clear Hbits' Hbits Hok Hok' IH.
      destruct (Z.ltb_spec (32 * Z.of_nat j + t + s) (32 * Z.of_nat n)) as [H1|H1].
      + replace (32 * Z.of_nat j + t + s <? 32 * Z.of_nat (S n)) with true by (symmetry; apply Z.ltb_lt; lia).
        cbn [andb]. destruct (Nat.eqb_spec n (j + k)), (Nat.eqb_spec n (j + k + 1)), (Z.leb_spec (32 - r) t), (Z.ltb_spec (t + r) 32);
          cbn [andb]; rewrite ?orb_false_r; (reflexivity || lia).
      + cbn [andb orb]. destruct (Z.ltb_spec (32 * Z.of_nat j + t + s) (32 * Z.of_nat (S n))) as [H2|H2]; cbn [andb].
        * rewrite eval_testbit by (auto; lia).
          set (u := 32 * Z.of_nat j + t + s - 32 * Z.of_nat n). assert (Hu : 0 <= u < 32) by lia.
          replace (32 * Z.of_nat j + t + s) with (u + Z.of_nat n * 32) by lia.
          rewrite Z.div_add, Z.mod_add, (Z.div_small u), (Z.mod_small u), Z.add_0_l, Nat2Z.id by lia.
          destruct (Nat.eqb_spec n (j + k)), (Nat.eqb_spec n (j + k + 1)), (Z.leb_spec (32 - r) t), (Z.ltb_spec (t + r) 32);
            cbn [andb orb]; rewrite ?orb_false_r; solve [lia | f_equal; lia].
        * destruct (Nat.eqb_spec n (j + k)), (Nat.eqb_spec n (j + k + 1)), (Z.leb_spec (32 - r) t), (Z.ltb_spec (t + r) 32);
            cbn [andb orb]; (reflexivity || lia). }
  destruct (H W ltac:(lia)) as [Hok Hbits]. pose proof (ok_bounds W a (conj La Fa)) as Ba.
  pose proof (Z.pow_pos_nonneg 2 s).
  split; [exact Hok |]. apply eval_of_bits; [exact Hok | split; [apply Z.div_pos; lia | apply Z.div_lt_upper_bound; nia] |].
  intros j t Hj Ht. rewrite Hbits, Z.div_pow2_bits by lia.
  destruct (Z.ltb_spec (32 * Z.of_nat j + t + s) (32 * Z.of_nat W)); cbn [andb]; [reflexivity |].
  symmetry. apply (word_bit_high (32 * Z.of_nat W)); [exact Ba | lia].
Qed.

(** ** Bit length *)

Lemma limb_bits_spec n x : 0 < x < 2 ^ Z.of_nat (S n) ->
  2 ^ (limb_bits n x - 1) <= x < 2 ^ limb_bits n x /\ 1 <= limb_bits n x <= Z.of_nat n + 1.
Proof.
  induction n as [|n IH]; intros Hx; [cbn; change (2 ^ Z.of_nat 1) with 2 in Hx; lia |].
  cbn [limb_bits]. rewrite Z.shiftl_1_l.
  assert (E : Z.land x (2 ^ Z.of_nat (S n)) = if Z.testbit x (Z.of_nat (S n)) then 2 ^ Z.of_nat (S n) else 0).
  { apply Z.bits_inj'. intros p Hp. rewrite Z.land_spec, Z.pow2_bits_eqb by lia.
    destruct (Z.eqb_spec (Z.of_nat (S n)) p) as [<- | Hne].
    - destruct (Z.testbit x _); [rewrite Z.pow2_bits_true by lia | rewrite Z.bits_0]; reflexivity.
    - rewrite andb_false_r. destruct (Z.testbit x _); [rewrite Z.pow2_bits_false by lia | rewrite Z.bits_0]; reflexivity. }
  rewrite E. pose proof (Z.pow_pos_nonneg 2 (Z.of_nat (S n))).
  destruct (Z.testbit x (Z.of_nat (S n))) eqn:Eb.
  - rewrite (proj2 (Z.eqb_neq _ _)) by lia. cbn [negb].
    replace (Z.of_nat (S n) + 1) with (Z.of_nat (S (S n))) by lia.
    replace (Z.of_nat (S (S n)) - 1) with (Z.of_nat (S n)) by lia. split; [|lia]. split; [|lia].
    destruct (Z.leb_spec (2 ^ Z.of_nat (S n)) x) as [|Hlt]; [auto |].
    rewrite (word_bit_high (Z.of_nat (S n)) x (Z.of_nat (S n))) in Eb by (unfold word; lia). discriminate.
  - cbn [Z.eqb negb]. enough (x < 2 ^ Z.of_nat (S n)) by (destruct IH; lia).
    destruct (Z.ltb_spec x (2 ^ Z.of_nat (S n))) as [|Hge]; [auto |]. exfalso.
    assert (Ex : x = 2 ^ Z.of_nat (S n) + (x - 2 ^ Z.of_nat (S n))) by lia.
    replace (2 ^ Z.of_nat (S (S n))) with (2 * 2 ^ Z.of_nat (S n)) in Hx
      by (rewrite <- Z.pow_succ_r by lia; f_equal; lia).
    assert (Et : Z.testbit x (Z.of_nat (S n)) = true).
    { apply Z.testbit_true; [lia |].
      replace (x / 2 ^ Z.of_nat (S n)) with 1; [reflexivity |].
      apply (Z.div_unique _ _ _ (x - 2 ^ Z.of_nat (S n))); lia. }
    congruence.
Qed.

Lemma bits_spec l : ok l -> 0 <= bits W l <= 32 * Z.of_nat W /\ eval l < 2 ^ bits W l /\ (0 < bits W l -> 2 ^ (bits W l - 1) <= eval l).
Proof.
  intros [El F]. unfold bits.
  assert (H : forall p, (p <= W)%nat -> 0 <= bits_down p l <= 32 * Z.of_nat p /\
    eval (take p l) < 2 ^ bits_down p l /\ (0 < bits_down p l -> 2 ^ (bits_down p l - 1) <= eval (take p l))).
  { induction p as [|p IH]; intros Hp; [rewrite take_0; cbn; lia |].
    specialize (IH ltac:(lia)). cbn [bits_down]. rewrite take_nth_eval by lia. pose proof (nth_limb l p F) as Hx.
    unfold word in Hx. destruct (Z.eqb_spec l.[p] 0) as [E|E]; cbn [negb]; [rewrite E, Z.mul_0_r, Z.add_0_r; lia |].
    destruct (limb_bits_spec 31 l.[p]) as [[H1 H2] H3]; [change (Z.of_nat 32) with 32; lia |].
    pose proof (eval_bounds (take p l) (Forall_take _ _ _ F)) as Hb. rewrite length_take in Hb.
    replace (p `min` length l)%nat with p in Hb by lia.
    split; [lia |]. rewrite Z.pow_add_r by lia.
    replace (32 * Z.of_nat p + limb_bits 31 l.[p] - 1) with (32 * Z.of_nat p + (limb_bits 31 l.[p] - 1)) by lia.
    rewrite Z.pow_add_r by lia. pose proof (modulus_pos p). split; [nia |]. intros _. nia. }
  specialize (H W ltac:(lia)). rewrite take_ge in H by lia. exact H.
Qed.
End width.
