(* ===== verification/Arith256Compact.v ===== *)
(** * Arith256Compact: the compact encoding of targets

    What [SetCompact] decodes, when its flags are raised, and that [GetCompact]
    is its inverse on canonical encodings.

    The shift-and-subtract loop of [base_uint::operator/=] computes the exact
    quotient, and the summary theorems on the arithmetic of [base_uint]. *)

From S2P Require Import Prelude Words Arith256 Arith256Correct.

(** Encoding and decoding in two pieces. *)
Lemma le_encode_add n m z : le_encode (n + m) z = le_encode n (z mod 256 ^ Z.of_nat n) ++ le_encode m (z / 256 ^ Z.of_nat n).
Proof.
  revert z. induction n as [|n IH]; intros z; [cbn [plus le_encode app]; change (256 ^ Z.of_nat 0) with 1; rewrite Z.div_1_r; reflexivity |].
  cbn [plus le_encode app]. rewrite IH, Nat2Z.inj_succ, Z.pow_succ_r by lia.
  pose proof (Z.pow_pos_nonneg 256 (Z.of_nat n)). rewrite <- Z.div_div by lia. f_equal; [|do 2 f_equal].
  - rewrite Z.rem_mul_r by lia. rewrite (Z.mul_comm 256), Z.mod_add, Z.mod_mod by lia. reflexivity.
  - rewrite Z.rem_mul_r by lia. rewrite (Z.mul_comm 256), Z.div_add by lia.
    rewrite (Z.div_small (z mod 256)) by (apply Z.mod_pos_bound; lia). reflexivity.
Qed.

Section width.
Context (W : nat).
Abbreviation N := (modulus W).
Abbreviation ok := (ok W).

(** Setting a clear bit adds its weight. *)
Lemma set_bit_spec q s : ok q -> (s < 32 * W)%nat -> Z.testbit (eval q) (Z.of_nat s) = false ->
  let q' := or_at (s / 32) (u32 (1 ≪ Z.of_nat (Nat.land s 31))) q in
  ok q' /\ eval q' = eval q + 2 ^ Z.of_nat s.
Proof.
  intros [Lq Fq] Hs Hb. cbv zeta.
  assert (El : Nat.land s 31 = (s mod 32)%nat) by (apply (Nat.land_ones s 5)).
  pose proof (Nat.mod_upper_bound s 32 ltac:(lia)) as Hm. pose proof (Nat.div_mod_eq s 32) as Edm.
  rewrite El, Z.shiftl_1_l. set (t := (s mod 32)%nat) in *. set (j := (s / 32)%nat) in *.
  assert (Hp : 0 < 2 ^ Z.of_nat t < 2 ^ 32) by (split; [apply Z.pow_pos_nonneg; lia | apply Z.pow_lt_mono_r; lia]).
  rewrite wrap_small by (unfold word; lia). split.
  - split; [rewrite or_at_length; auto | apply or_at_limbs; [auto | unfold word; lia]].
  - unfold or_at. rewrite eval_insert by lia.
    rewrite eval_testbit in Hb by (auto; lia).
    replace (Z.of_nat s / 32) with (Z.of_nat j) in Hb by (unfold j; rewrite Nat2Z.inj_div; reflexivity).
    replace (Z.of_nat s mod 32) with (Z.of_nat t) in Hb by (unfold t; rewrite Nat2Z.inj_mod; reflexivity).
    rewrite Nat2Z.id in Hb.
    assert (Eo : Z.lor q.[j] (2 ^ Z.of_nat t) = q.[j] + 2 ^ Z.of_nat t).
    { symmetry. assert (Z.land q.[j] (2 ^ Z.of_nat t) = 0).
      { apply Z.bits_inj'. intros p Hp'. rewrite Z.land_spec, Z.bits_0, Z.pow2_bits_eqb by lia.
        destruct (Z.eqb_spec (Z.of_nat t) p) as [<- |]; [rewrite Hb; reflexivity | apply andb_false_r]. }
      rewrite <- Z.lxor_lor by auto. apply Z.add_nocarry_lxor. auto. }
    rewrite Eo. replace (q.[j] + 2 ^ Z.of_nat t - q.[j]) with (2 ^ Z.of_nat t) by lia.
    rewrite <- Z.pow_add_r by lia. do 2 f_equal. lia.
Qed.

Lemma div_loop_spec b n q num d Q : ok q -> ok num -> ok d -> 0 < b ->
  (n <= 32 * W)%nat -> (0 < Z.of_nat n -> eval d = b * 2 ^ (Z.of_nat n - 1)) ->
  eval num < b * 2 ^ Z.of_nat n -> eval q = Q * 2 ^ Z.of_nat n ->
  ok (fst (div_loop W n q num d)) /\ ok (snd (div_loop W n q num d)) /\
  eval q * b + eval num = eval (fst (div_loop W n q num d)) * b + eval (snd (div_loop W n q num d)) /\
  eval (snd (div_loop W n q num d)) < b.
Proof.
  revert q num d Q. induction n as [|n IH]; intros q num d Q Hq Hn Hd Hb Hw Ed En Eq.
  - cbn [div_loop fst snd]. change (2 ^ Z.of_nat 0) with 1 in En. repeat split; try apply Hq; try apply Hn; lia.
  - cbn [div_loop]. rewrite Nat2Z.inj_succ, Z.pow_succ_r in * by lia. specialize (Ed ltac:(lia)).
    replace (Z.succ (Z.of_nat n) - 1) with (Z.of_nat n) in Ed by lia.
    pose proof (Z.pow_pos_nonneg 2 (Z.of_nat n) ltac:(lia) ltac:(lia)) as Hp.
    destruct (shr_spec W d 1 Hd ltac:(lia)) as [Hd' Ed']. change (2 ^ 1) with 2 in Ed'.
    assert (Ed2 : 0 < Z.of_nat n -> eval (shr W d 1) = b * 2 ^ (Z.of_nat n - 1)).
    { intros Hn0. rewrite Ed', Ed. replace (Z.of_nat n) with (1 + (Z.of_nat n - 1)) at 1 by lia.
      rewrite Z.pow_add_r by lia. change (2 ^ 1) with 2. rewrite <- (Z.div_mul (b * 2 ^ (Z.of_nat n - 1)) 2) by lia.
      f_equal. lia. }
    rewrite (CompareTo_ge W) by auto. destruct (Z.leb_spec (eval d) (eval num)) as [Hle|Hlt].
    + assert (Hbit : Z.testbit (eval q) (Z.of_nat n) = false).
      { rewrite Eq. replace (Q * (2 * 2 ^ Z.of_nat n)) with (Q * 2 ^ (Z.of_nat n + 1)) by (rewrite Z.pow_add_r by lia; lia).
        apply Z.mul_pow2_bits_low. lia. }
      destruct (set_bit_spec q n Hq ltac:(lia) Hbit) as [Hq' Eq'].
      destruct (sub_spec W num d Hn Hd) as [Hs Es].
      pose proof (ok_bounds W num Hn) as Bn. pose proof (ok_bounds W d Hd) as Bd.
      rewrite Z.mod_small in Es by lia.
      destruct (IH _ (sub num d) (shr W d 1) (2 * Q + 1) Hq' Hs Hd') as (H1 & H2 & H3 & H4); [lia | lia | exact Ed2 | lia | lia |].
      unfold or_at in *. split; [exact H1 |]. split; [exact H2 |]. split; [|exact H4]. rewrite <- H3, Eq', Es, Ed. lia.
    + apply (IH q num (shr W d 1) (2 * Q)); auto; lia.
Qed.

Lemma div_spec a b : ok a -> ok b ->
  match div W a b with
  | None => eval b = 0
  | Some q => eval b <> 0 /\ ok q /\ eval q = eval a / eval b
  end.
Proof.
  intros Ha Hb. unfold div. destruct (bits_spec W a Ha) as ([Ba1 Ba2] & Ba3 & Ba4).
  destruct (bits_spec W b Hb) as ([Bb1 Bb2] & Bb3 & Bb4). pose proof (ok_bounds W a Ha). pose proof (ok_bounds W b Hb).
  destruct (Z.eqb_spec (bits W b) 0) as [E0|E0]; [rewrite E0 in Bb3; change (2 ^ 0) with 1 in Bb3; lia |].
  assert (Hpos : 0 < eval b) by (pose proof (Z.pow_pos_nonneg 2 (bits W b - 1)); lia).
  destruct (Z.ltb_spec (bits W a) (bits W b)) as [Hlt|Hge].
  - destruct (zero_ok W) as [Hz Ez]. split; [lia |]. split; [exact Hz |]. rewrite Ez. symmetry. apply Z.div_small.
    pose proof (Z.pow_le_mono_r 2 (bits W a) (bits W b - 1)). lia.
  - set (s := bits W a - bits W b).
    destruct (shl_spec W b s Hb ltac:(lia)) as [Hd Ed].
    assert (Hs2 : eval b * 2 ^ s < N).
    { apply Z.lt_le_trans with (2 ^ bits W b * 2 ^ s).
      - apply Z.mul_lt_mono_pos_r; [apply Z.pow_pos_nonneg; lia | exact Bb3].
      - rewrite <- Z.pow_add_r by lia. apply Z.pow_le_mono_r; lia. }
    rewrite Z.mod_small in Ed by (split; [apply Z.mul_nonneg_nonneg; lia | exact Hs2]).
    destruct (zero_ok W) as [Hz Ez].
    destruct (div_loop_spec (eval b) (Z.to_nat (s + 1)) (zero W) a (shl W b s) 0 Hz Ha Hd Hpos) as (H1 & H2 & H3 & H4);
      [lia | rewrite Z2Nat.id by lia; intros _; rewrite Ed; do 2 f_equal; lia | | rewrite Ez; lia |].
    { rewrite Z2Nat.id by lia. apply Z.lt_le_trans with (2 ^ bits W a); [exact Ba3 |].
      replace (bits W a) with ((bits W b - 1) + (s + 1)) by lia. rewrite Z.pow_add_r by lia.
      apply Z.mul_le_mono_nonneg_r; [apply Z.pow_nonneg; lia | apply Bb4; lia]. }
    split; [lia |]. split; [exact H1 |]. rewrite Ez in H3.
    pose proof (ok_bounds W _ H2). apply Z.div_unique_pos with (eval (snd (div_loop W (Z.to_nat (s + 1)) (zero W) a (shl W b s)))); lia.
Qed.

(** ** Decrement and comparisons with words *)

Lemma dec_spec a : ok a -> ok (dec a) /\ eval (dec a) = (eval a - 1) mod N.
Proof.
  intros [El F]. unfold Arith256Correct.ok. rewrite <- El. clear El.
  assert (H : Forall limb (dec a) /\ length (dec a) = length a /\ exists q, eval a - 1 = eval (dec a) + modulus (length a) * q).
  { induction F as [|x a Hx F (IF & IL & q & IE)]; [split; [constructor |]; split; [reflexivity |]; exists (-1); reflexivity |].
    cbn [dec]. unfold word in Hx. destruct (Z.eqb_spec x 0) as [-> |E].
    - change (u32 (0 - 1)) with 0xffffffff. cbn [Z.eqb Pos.eqb]. split; [constructor; [unfold word; lia | auto] |].
      split; [cbn; auto |]. exists q. cbn [eval length]. rewrite modulus_S. lia.
    - rewrite wrap_small by (unfold word; lia). rewrite (proj2 (Z.eqb_neq _ _)) by lia.
      split; [constructor; [unfold word; lia | auto] |]. split; [reflexivity |]. exists 0. cbn [eval]. lia. }
  destruct H as (IF & IL & q & E). split; [auto |]. rewrite <- IL. apply (eval_unique _ _ q IF). rewrite IL. exact E.
Qed.

Lemma is_zero_spec a : Forall limb a -> is_zero a = (eval a =? 0).
Proof.
  induction 1 as [|x a Hx F IH]; [reflexivity |]. unfold is_zero in *. cbn [forallb eval]. rewrite IH.
  pose proof (eval_bounds a F). unfold word in Hx. destruct (Z.eqb_spec x 0), (Z.eqb_spec (eval a) 0), (Z.eqb_spec (x + 2 ^ 32 * eval a) 0);
    cbn [andb]; (reflexivity || lia).
Qed.

Lemma EqualTo_spec a b : (2 <= W)%nat -> ok a -> word 64 b -> EqualTo a b = (eval a =? b).
Proof.
  intros HW [La Fa] Hb. destruct a as [|x [|y r]]; cbn [length] in La; [lia | lia |].
  pose proof (Forall_inv Fa) as Hx. pose proof (Forall_inv (Forall_inv_tail Fa)) as Hy.
  pose proof (Forall_inv_tail (Forall_inv_tail Fa)) as Fr. unfold EqualTo. cbn [nth]. change (drop 2 (x :: y :: r)) with r.
  fold (is_zero r). rewrite is_zero_spec by auto. change 0xffffffff with (Z.ones 32).
  rewrite Z.land_ones, Z.shiftr_div_pow2 by lia. cbn [eval].
  pose proof (eval_bounds r Fr). pose proof (Z.div_mod b (2 ^ 32) ltac:(lia)). pose proof (Z.mod_pos_bound b (2 ^ 32) ltac:(lia)).
  assert (0 <= b / 2 ^ 32 < 2 ^ 32) by (unfold word in Hb; split; [apply Z.div_pos; lia | apply Z.div_lt_upper_bound; lia]).
  unfold word in *. set (q := b / 2 ^ 32) in *. set (m := b mod 2 ^ 32) in *. clearbody q m.
  destruct (Z.eqb_spec (eval r) 0), (Z.eqb_spec y q), (Z.eqb_spec x m), (Z.eqb_spec (x + 2 ^ 32 * (y + 2 ^ 32 * eval r)) b);
    cbn [andb]; (reflexivity || (exfalso; lia)).
Qed.

(** ** Bitwise operators *)

Lemma bitop_spec (op : Z -> Z -> Z) (f : bool -> bool -> bool) a b : ok a -> ok b -> f false false = false ->
  (forall x y i, Z.testbit (op x y) i = f (Z.testbit x i) (Z.testbit y i)) ->
  (forall w x y, 0 <= w -> word w x -> word w y -> word w (op x y)) ->
  ok (zip_with op a b) /\ eval (zip_with op a b) = op (eval a) (eval b).
Proof.
  intros [La Fa] [Lb Fb] Hf Hop Hw.
  assert (Hok : ok (zip_with op a b)).
  { split; [rewrite length_zip_with; lia |]. rewrite Forall_lookup. intros i x Hi.
    apply lookup_zip_with_Some in Hi as (y & z & -> & Hy & Hz). rewrite Forall_lookup in Fa, Fb. apply Hw; eauto; lia. }
  split; [exact Hok |]. apply (eval_of_bits W); [exact Hok | |].
  - apply (Hw (32 * Z.of_nat W)); [lia | apply (ok_bounds W a (conj La Fa)) | apply (ok_bounds W b (conj Lb Fb))].
  - intros j t Hj Ht. rewrite Hop, !eval_testbit by (auto; lia).
    assert (Hd : (32 * Z.of_nat j + t) / 32 = Z.of_nat j) by (symmetry; apply Z.div_unique_pos with t; lia).
    assert (Hm : (32 * Z.of_nat j + t) mod 32 = t) by (symmetry; apply Z.mod_unique_pos with (Z.of_nat j); lia).
    rewrite Hd, Hm, Nat2Z.id, <- Hop. f_equal. rewrite !nth_lookup, lookup_zip_with.
    destruct (lookup_lt_is_Some_2 a j) as [x ->]; [lia |]. destruct (lookup_lt_is_Some_2 b j) as [y ->]; [lia |]. reflexivity.
Qed.

(** ** Conversion from and to byte blobs *)

Lemma UintToArith_spec bs : length bs = (4 * W)%nat -> Forall byte bs ->
  ok (UintToArith W bs) /\ eval (UintToArith W bs) = le_decode bs.
Proof.
  unfold UintToArith, Arith256Correct.ok. rewrite length_map, length_seq. intros Hl Fb.
  cut (Forall limb (map (fun x => le_decode (take 4 (drop (x * 4) bs))) (seq 0 W)) /\
       eval (map (fun x => le_decode (take 4 (drop (x * 4) bs))) (seq 0 W)) = le_decode bs); [tauto |].
  revert bs Hl Fb. induction W as [|n IH]; intros bs Hl Fb.
  - destruct bs; [|discriminate]. split; [constructor | reflexivity].
  - assert (E : bs = take 4 bs ++ drop 4 bs) by (symmetry; apply take_drop).
    assert (L4 : length (take 4 bs) = 4%nat) by (rewrite length_take; lia).
    cbn [seq map eval Nat.mul]. rewrite drop_0. rewrite <- seq_shift, map_map.
    destruct (IH (drop 4 bs)) as [IHF IHE]; [rewrite length_drop; lia | apply Forall_drop; auto |].
    assert (Em : map (fun x => le_decode (take 4 (drop (S x * 4) bs))) (seq 0 n) =
                 map (fun x => le_decode (take 4 (drop (x * 4) (drop 4 bs)))) (seq 0 n)).
    { apply map_ext. intros x. rewrite drop_drop. do 3 f_equal. }
    rewrite Em. split; [constructor; [|exact IHF] |].
    + pose proof (le_decode_range (take 4 bs) (Forall_take _ _ _ Fb)) as R. rewrite L4 in R. exact R.
    + rewrite IHE. transitivity (le_decode (take 4 bs ++ drop 4 bs)); [rewrite le_decode_app, L4; reflexivity | f_equal; auto].
Qed.

Lemma ArithToUint_spec a : ok a -> ArithToUint W a = le_encode (4 * W) (eval a).
Proof.
  intros [La Fa]. unfold ArithToUint. rewrite <- La. clear La. induction Fa as [|x a Hx Fa IH]; [reflexivity |].
  cbn [length seq flat_map nth]. rewrite <- seq_shift, flat_map_concat_map, map_map, <- flat_map_concat_map.
  cbn [nth]. rewrite IH. replace (4 * S (length a))%nat with (4 + 4 * length a)%nat by lia. cbn [eval].
  rewrite le_encode_add. f_equal; f_equal; unfold word in Hx.
  - apply Z.mod_unique_pos with (eval a); lia.
  - apply Z.div_unique_pos with x; lia.
Qed.
End width.

(** ** The claims *)

(** [l] is a [base_uint] of [W] limbs with value [z]. *)
Definition represents (W : nat) (l : limbs) (z : Z) : Prop := ok W l /\ eval l = z.

(** The limb loops of [base_uint] compute modulo 2^(32 WIDTH): sum,
    difference, product, negation, increment and decrement; the shifts by any
    amount multiply modulo 2^(32 WIDTH) and divide by the power of two; the
    bitwise operators act on the values; [CompareTo] is the sign of the
    comparison and [operator!] the test for zero. *)
Theorem base_uint_arithmetic W a b x y : represents W a x -> represents W b y ->
  let N := modulus W in
  represents W (add a b) ((x + y) mod N) /\ represents W (sub a b) ((x - y) mod N) /\
  represents W (mul W a b) ((x * y) mod N) /\ (forall n, word 32 n -> represents W (mul32 a n) ((x * n) mod N)) /\
  represents W (neg a) ((- x) mod N) /\ represents W (inc a) ((x + 1) mod N) /\ represents W (dec a) ((x - 1) mod N) /\
  (forall s, 0 <= s -> represents W (shl W a s) ((x * 2 ^ s) mod N) /\ represents W (shr W a s) (x / 2 ^ s)) /\
  represents W (bit_not a) (N - 1 - x) /\ represents W (bit_and a b) (Z.land x y) /\
  represents W (bit_or a b) (Z.lor x y) /\ represents W (bit_xor a b) (Z.lxor x y) /\
  CompareTo a b = Z.sgn (x - y) /\ is_zero a = (x =? 0).
Proof.
  intros [Ha <-] [Hb <-]. cbv zeta. unfold represents.
  split; [apply add_spec; auto |]. split; [apply sub_spec; auto |]. split; [apply mul_spec; auto |].
  split; [intros n Hn; apply mul32_spec; auto |]. split; [apply neg_spec; auto |]. split; [apply inc_spec; auto |].
  split; [apply dec_spec; auto |]. split; [intros s Hs; split; [apply shl_spec | apply shr_spec]; auto |].
  split; [apply bit_not_spec; auto |].
  split; [apply (bitop_spec W _ andb); auto using Z.land_spec, word_land_l |].
  split; [apply (bitop_spec W _ orb); auto using Z.lor_spec, word_lor |].
  split; [apply (bitop_spec W _ xorb); auto using Z.lxor_spec, word_lxor |].
  split; [|apply is_zero_spec, Ha]. rewrite (CompareTo_spec W) by auto.
  destruct (Z.compare_spec (eval a) (eval b)); [rewrite Z.sgn_null | rewrite Z.sgn_neg | rewrite Z.sgn_pos]; lia.
Qed.

Lemma base_uint_arithmetic_witness :
  represents 2 [0xffffffff; 0xffffffff] (2 ^ 64 - 1) /\ represents 2 (mul 2 [0xffffffff; 0xffffffff] [3; 0]) (2 ^ 64 - 3).
Proof.
  assert (Ha : represents 2 [0xffffffff; 0xffffffff] (2 ^ 64 - 1))
    by (split; [split; [reflexivity | repeat constructor; unfold word; lia] | reflexivity]).
  assert (Hb : represents 2 [3; 0] 3) by (split; [split; [reflexivity | repeat constructor; unfold word; lia] | reflexivity]).
  split; [exact Ha |]. destruct (base_uint_arithmetic 2 _ _ _ _ Ha Hb) as (_ & _ & H & _). exact H.
Defined.

(** [operator/=] throws exactly on a zero divisor and otherwise terminates
    with the exact quotient, for every width: the loop runs once per bit of
    difference and the limb index it sets a bit in is in range. *)
Theorem base_uint_division W a b x y : represents W a x -> represents W b y ->
  (y = 0 -> div W a b = None) /\
  (y <> 0 -> exists q, div W a b = Some q /\ represents W q (x / y)).
Proof.
  intros [Ha <-] [Hb <-]. pose proof (div_spec W a b Ha Hb) as H. destruct (div W a b) as [q|].
  - destruct H as (H1 & H2 & H3). split; [intros ?; contradiction | intros _]. exists q. repeat split; try apply H2; auto.
  - split; [reflexivity | intros ?; contradiction].
Qed.

Lemma base_uint_division_witness : represents 2 [0; 1] (2 ^ 32) /\ represents 2 [7; 0] 7 /\
  exists q, div 2 [0; 1] [7; 0] = Some q /\ represents 2 q (2 ^ 32 / 7).
Proof.
  assert (Ha : represents 2 [0; 1] (2 ^ 32)) by (split; [split; [reflexivity | repeat constructor; unfold word; lia] | reflexivity]).
  assert (Hb : represents 2 [7; 0] 7) by (split; [split; [reflexivity | repeat constructor; unfold word; lia] | reflexivity]).
  split; [exact Ha |]. split; [exact Hb |]. apply (base_uint_division 2 _ _ _ _ Ha Hb). lia.
Defined.

(** A 256-bit blob read as a number is its little-endian value, and
    writing the number back gives the same 32 bytes. *)
Theorem uint256_conversion_round_trip bs : length bs = 32%nat -> Forall byte bs ->
  represents 8 (UintToArith256 bs) (le_decode bs) /\ ArithToUint256 (UintToArith256 bs) = bs.
Proof.
  intros Hl Fb. destruct (UintToArith_spec 8 bs Hl Fb) as [Hok He]. split; [split; assumption |].
  unfold ArithToUint256, UintToArith256. rewrite (ArithToUint_spec 8) by auto. rewrite He.
  change (4 * 8)%nat with 32%nat. rewrite <- Hl. apply le_encode_decode. exact Fb.
Qed.

Lemma uint256_conversion_witness : length (replicate 32 7) = 32%nat /\ ArithToUint256 (UintToArith256 (replicate 32 7)) = replicate 32 7.
Proof.
  split; [reflexivity |]. apply uint256_conversion_round_trip; [reflexivity |]. apply Forall_replicate. unfold word. lia.
Defined.

Abbreviation ok256 := (ok W256).
Abbreviation N256 := (modulus W256).

(** ** Small words and the low limbs *)

Lemma of_u64_spec n : word 64 n -> ok256 (of_u64 W256 n) /\ eval (of_u64 W256 n) = n.
Proof.
  intros Hn. unfold of_u64. assert (Hs : limb (n ≫ 32)).
  { unfold word in *. rewrite Z.shiftr_div_pow2 by lia. split; [apply Z.div_pos; lia | apply Z.div_lt_upper_bound; lia]. }
  split.
  - split; [reflexivity |]. repeat constructor; try apply wrap_word; try (unfold word; lia).
  - cbn [eval replicate Nat.sub]. rewrite (wrap_small 32 (n ≫ 32)) by exact Hs. unfold wrap.
    rewrite Z.shiftr_div_pow2 by lia. pose proof (Z.div_mod n (2 ^ 32)). lia.
Qed.

Lemma GetLow64_spec v : ok256 v -> GetLow64 v = eval v mod 2 ^ 64.
Proof.
  intros [Lv Fv]. assert (E : exists x y r, v = x :: y :: r) by (destruct v as [|x [|y r]]; try discriminate; eauto).
  destruct E as (x & y & r & ->). pose proof (Forall_inv Fv) as Hx. pose proof (Forall_inv (Forall_inv_tail Fv)) as Hy.
  pose proof Hx as Hx'. pose proof Hy as Hy'.
  unfold GetLow64. cbn [nth]. unfold word in Hx', Hy'. rewrite wrap_small by (unfold word; rewrite Z.shiftl_mul_pow2 by lia; lia).
  rewrite lor_shiftl_add by (auto; lia). cbn [eval]. apply Z.mod_unique_pos with (eval r); lia.
Qed.

(** ** The sign bit and the mantissa *)

Lemma mantissa_bits c : Z.land c 0x007fffff = c mod 2 ^ 23.
Proof. change 0x007fffff with (Z.ones 23). apply Z.land_ones. lia. Qed.

Lemma sign_bit c : negb (Z.land c 0x00800000 =? 0) = Z.testbit c 23.
Proof.
  assert (E : Z.land c 0x00800000 = if Z.testbit c 23 then 2 ^ 23 else 0).
  { change 0x00800000 with (2 ^ 23). apply Z.bits_inj'. intros p Hp. rewrite Z.land_spec, Z.pow2_bits_eqb by lia.
    destruct (Z.eqb_spec 23 p) as [<- |].
    - destruct (Z.testbit c 23); [rewrite Z.pow2_bits_true by lia | rewrite Z.bits_0]; reflexivity.
    - rewrite andb_false_r. destruct (Z.testbit c 23); [rewrite Z.pow2_bits_false by lia | rewrite Z.bits_0]; reflexivity. }
  rewrite E. destruct (Z.testbit c 23); reflexivity.
Qed.

Lemma sign_bit_lt m : 0 <= m < 2 ^ 24 -> Z.testbit m 23 = (2 ^ 23 <=? m).
Proof.
  intros Hm. destruct (Z.leb_spec (2 ^ 23) m).
  - apply Z.testbit_true; [lia |]. replace (m / 2 ^ 23) with 1; [reflexivity |].
    apply (Z.div_unique _ _ _ (m - 2 ^ 23)); lia.
  - apply (word_bit_high 23); unfold word; lia.
Qed.

(** ** Decoding *)

(** The mantissa scaled by its exponent, an integer. *)
Definition scaled (size m : Z) : Z := if size <=? 3 then m / 2 ^ (8 * (3 - size)) else m * 2 ^ (8 * (size - 3)).

Lemma overflow_iff size m : 0 <= size < 256 -> 0 <= m < 2 ^ 23 ->
  negb (m =? 0) && ((34 <? size) || ((0xff <? m) && (33 <? size)) || ((0xffff <? m) && (32 <? size))) =
  (N256 <=? m * 2 ^ (8 * (size - 3))).
Proof.
  intros Hs Hm. change N256 with (2 ^ 256).
  destruct (Z.leb_spec (2 ^ 256) (m * 2 ^ (8 * (size - 3)))) as [H|H].
  - assert (Hm0 : m <> 0) by (intros ->; lia). rewrite (proj2 (Z.eqb_neq _ _) Hm0). cbn [negb andb].
    destruct (Z.ltb_spec 34 size); [reflexivity |].
    assert (H33 : 32 < size).
    { destruct (Z.ltb_spec 32 size); [auto |]. pose proof (Z.pow_le_mono_r 2 (8 * (size - 3)) 232).
      assert (m * 2 ^ (8 * (size - 3)) < 2 ^ 256); [|lia].
      apply Z.le_lt_trans with (m * 2 ^ 232); [apply Z.mul_le_mono_nonneg_l; lia | lia]. }
    assert (size = 33 \/ size = 34) as [-> | ->] by lia; cbn [Z.sub Z.mul Z.ltb] in *.
    + change (2 ^ (8 * (33 - 3))) with (2 ^ 240) in H. destruct (Z.ltb_spec 0xffff m); [|lia].
      rewrite orb_true_r. reflexivity.
    + change (2 ^ (8 * (34 - 3))) with (2 ^ 248) in H. destruct (Z.ltb_spec 0xff m); [reflexivity | lia].
  - destruct (Z.eqb_spec m 0); [reflexivity |]. cbn [negb andb].
    destruct (Z.ltb_spec 34 size).
    { exfalso. pose proof (Z.pow_le_mono_r 2 256 (8 * (size - 3))).
      assert (1 * 2 ^ (8 * (size - 3)) <= m * 2 ^ (8 * (size - 3))) by (apply Z.mul_le_mono_nonneg_r; lia). lia. }
    destruct (Z.ltb_spec 33 size).
    { replace size with 34 in * by lia. change (2 ^ (8 * (34 - 3))) with (2 ^ 248) in H.
      destruct (Z.ltb_spec 0xff m); [lia |]. destruct (Z.ltb_spec 0xffff m); [lia | reflexivity]. }
    rewrite andb_false_r. destruct (Z.ltb_spec 32 size); [|rewrite andb_false_r; reflexivity].
    replace size with 33 in * by lia. change (2 ^ (8 * (33 - 3))) with (2 ^ 240) in H.
    destruct (Z.ltb_spec 0xffff m); [lia | reflexivity].
Qed.

Lemma SetCompact_spec c : word 32 c ->
  let size := c / 2 ^ 24 in
  let m := c mod 2 ^ 23 in
  exists v, SetCompact c = (v, negb (scaled size m =? 0) && Z.testbit c 23, N256 <=? scaled size m) /\
    ok256 v /\ eval v = scaled size m mod N256.
Proof.
  intros Hc. cbv zeta. unfold SetCompact. rewrite mantissa_bits, sign_bit. rewrite (Z.shiftr_div_pow2 c) by lia.
  set (size := c / 2 ^ 24). set (m := c mod 2 ^ 23).
  assert (Hs : 0 <= size < 256) by (unfold word in Hc; split; [apply Z.div_pos; lia | apply Z.div_lt_upper_bound; lia]).
  assert (Hm : 0 <= m < 2 ^ 23) by (apply Z.mod_pos_bound; lia).
  unfold scaled. destruct (Z.leb_spec size 3) as [Hle|Hgt].
  - rewrite Z.shiftr_div_pow2 by lia. set (k := m / 2 ^ (8 * (3 - size))).
    assert (Hk : 0 <= k < 2 ^ 23).
    { pose proof (Z.pow_pos_nonneg 2 (8 * (3 - size))). split; [apply Z.div_pos; lia | apply Z.div_lt_upper_bound; nia]. }
    destruct (of_u64_spec k) as [Hok He]; [unfold word; lia |]. eexists. split; [|split; [exact Hok |]].
    + f_equal. replace (34 <? size) with false by lia. replace (33 <? size) with false by lia.
      replace (32 <? size) with false by lia. rewrite !andb_false_r. symmetry. apply Z.leb_gt.
      change N256 with (2 ^ 256). lia.
    + rewrite He. symmetry. apply Z.mod_small. change N256 with (2 ^ 256). lia.
  - destruct (of_u64_spec m) as [Hok He]; [unfold word; lia |].
    destruct (shl_spec W256 _ (8 * (size - 3)) Hok ltac:(lia)) as [Hok' He']. eexists. split; [|split; [exact Hok' |]].
    + rewrite overflow_iff by lia. f_equal. f_equal. f_equal. f_equal. pose proof (Z.pow_pos_nonneg 2 (8 * (size - 3))).
      destruct (Z.eqb_spec m 0) as [-> |]; [reflexivity |]. symmetry. apply Z.eqb_neq. nia.
    + rewrite He', He. reflexivity.
Qed.

(** ** Encoding *)

(** [x] has exactly [n] significant bytes. *)
Definition byte_length (x n : Z) : Prop := 0 <= n /\ 0 <= x < 2 ^ (8 * n) /\ (0 < n -> 2 ^ (8 * n - 8) <= x).

Lemma byte_length_bits v : ok256 v -> byte_length (eval v) ((bits W256 v + 7) / 8) /\ (bits W256 v + 7) / 8 <= 32.
Proof.
  intros Hv. destruct (bits_spec W256 v Hv) as ([H1 H2] & H3 & H4). pose proof (ok_bounds W256 v Hv) as [Hb _].
  set (b := bits W256 v) in *. clearbody b. set (n := (b + 7) / 8).
  assert (Hn : 8 * n - 7 <= b <= 8 * n) by (pose proof (Z.div_mod (b + 7) 8); pose proof (Z.mod_pos_bound (b + 7) 8); unfold n; lia).
  change (32 * Z.of_nat W256) with 256 in H2. split; [|lia]. split; [lia |]. split.
  - split; [exact Hb |]. apply Z.lt_le_trans with (2 ^ b); [exact H3 | apply Z.pow_le_mono_r; lia].
  - intros Hp. apply Z.le_trans with (2 ^ (b - 1)); [apply Z.pow_le_mono_r; lia | apply H4; lia].
Qed.

Lemma byte_length_unique x n n' : byte_length x n -> byte_length x n' -> n = n'.
Proof.
  intros (H1 & H2 & H3) (H1' & H2' & H3').
  destruct (Z.lt_trichotomy n n') as [H | [H | H]]; [exfalso | exact H | exfalso].
  - pose proof (Z.pow_le_mono_r 2 (8 * n) (8 * n' - 8)). lia.
  - pose proof (Z.pow_le_mono_r 2 (8 * n') (8 * n - 8)). lia.
Qed.

(** The three most significant bytes of [x]. *)
Definition leading (x n : Z) : Z := if n <=? 3 then x * 2 ^ (8 * (3 - n)) else x / 2 ^ (8 * (n - 3)).

Lemma leading_bounds x n : byte_length x n -> 0 <= leading x n < 2 ^ 24 /\ (0 < n -> 2 ^ 16 <= leading x n).
Proof.
  intros (H1 & [H2 H2'] & H3). unfold leading. destruct (Z.leb_spec n 3) as [Hle|Hgt].
  - pose proof (Z.pow_pos_nonneg 2 (8 * (3 - n)) ltac:(lia) ltac:(lia)) as Hp.
    assert (E24 : 2 ^ (8 * n) * 2 ^ (8 * (3 - n)) = 2 ^ 24) by (rewrite <- Z.pow_add_r by lia; f_equal; lia).
    split; [nia |]. intros Hn. assert (E16 : 2 ^ (8 * n - 8) * 2 ^ (8 * (3 - n)) = 2 ^ 16) by (rewrite <- Z.pow_add_r by lia; f_equal; lia).
    specialize (H3 Hn). nia.
  - pose proof (Z.pow_pos_nonneg 2 (8 * (n - 3)) ltac:(lia) ltac:(lia)) as Hp.
    split; [split; [apply Z.div_pos; lia |] |].
    + apply Z.div_lt_upper_bound; [lia |]. rewrite <- Z.pow_add_r by lia. replace (8 * (n - 3) + 24) with (8 * n) by lia. exact H2'.
    + intros Hn. apply Z.div_le_lower_bound; [lia |]. rewrite <- Z.pow_add_r by lia.
      replace (8 * (n - 3) + 16) with (8 * n - 8) by lia. auto.
Qed.

(** Mantissa and exponent of the encoding of [x] with [n] significant bytes,
    the number of bits it drops, and the encoding. *)
Definition parts (x n : Z) : Z * Z :=
  if 2 ^ 23 <=? leading x n then (leading x n / 2 ^ 8, n + 1) else (leading x n, n).
Definition dropped (x n : Z) : Z := 8 * Z.max 0 (snd (parts x n) - 3).
Definition compact_of (x n : Z) (negative : bool) : Z :=
  fst (parts x n) + snd (parts x n) * 2 ^ 24 + (if negative && negb (fst (parts x n) =? 0) then 2 ^ 23 else 0).

Lemma parts_bounds x n : byte_length x n -> 0 <= fst (parts x n) < 2 ^ 23 /\ n <= snd (parts x n) <= n + 1 /\
  (0 < n -> 2 ^ 15 <= fst (parts x n)).
Proof.
  intros Hn. destruct (leading_bounds x n Hn) as [Hl Hl']. unfold parts.
  destruct (Z.leb_spec (2 ^ 23) (leading x n)); cbn [fst snd]; [|lia].
  split; [split; [apply Z.div_pos; lia | apply Z.div_lt_upper_bound; lia] |]. split; [lia |].
  intros _. apply Z.div_le_lower_bound; lia.
Qed.

Lemma compact_parts_spec v n : ok256 v -> byte_length (eval v) n -> compact_parts v = parts (eval v) n.
Proof.
  intros Hv Hn. destruct (byte_length_bits v Hv) as [Hn' Hle]. rewrite <- (byte_length_unique _ _ _ Hn Hn') in Hle.
  unfold compact_parts. rewrite <- (byte_length_unique _ _ _ Hn Hn').
  destruct (leading_bounds _ _ Hn) as [Hl _]. pose proof Hn as (H1 & H2 & _).
  set (nC := if n <=? 3 then _ else _).
  assert (E : nC = leading (eval v) n).
  { unfold nC, leading in *. destruct (Z.leb_spec n 3) as [H3|H3].
    - rewrite GetLow64_spec by auto. pose proof (Z.pow_le_mono_r 2 (8 * n) 64).
      rewrite (Z.mod_small (eval v)) by lia. rewrite Z.shiftl_mul_pow2 by lia. rewrite (wrap_small 64), wrap_small by (unfold word; lia). reflexivity.
    - destruct (shr_spec W256 v (8 * (n - 3)) Hv ltac:(lia)) as [Hs Es].
      rewrite GetLow64_spec by auto. rewrite Es, Z.mod_small, wrap_small by (unfold word; lia). reflexivity. }
  rewrite E. rewrite sign_bit, sign_bit_lt by exact Hl. unfold parts.
  rewrite Z.shiftr_div_pow2 by lia. reflexivity.
Qed.

(** The final bit operations put the fields side by side. *)
Lemma compact_word m size f : 0 <= m < 2 ^ 23 -> 0 <= size <= 33 ->
  Z.lor (Z.lor m (u32 (size ≪ 24))) (if f && negb (Z.land (Z.lor m (u32 (size ≪ 24))) 0x007fffff =? 0) then 0x00800000 else 0) =
  m + size * 2 ^ 24 + (if f && negb (m =? 0) then 2 ^ 23 else 0).
Proof.
  intros Hm Hs. rewrite wrap_small by (unfold word; rewrite Z.shiftl_mul_pow2 by lia; lia).
  rewrite (lor_shiftl_add m size 24) by (unfold word; lia).
  rewrite mantissa_bits. replace (m + size * 2 ^ 24) with (m + (2 * size) * 2 ^ 23) at 2 by lia.
  rewrite Z.mod_add, (Z.mod_small m) by lia. destruct (f && negb (m =? 0)); [|rewrite Z.lor_0_r; lia].
  change 0x00800000 with (1 ≪ 23). rewrite <- (lor_shiftl_add m size 24) by (unfold word; lia).
  rewrite <- Z.lor_assoc, (Z.lor_comm (size ≪ 24)), Z.lor_assoc, (lor_shiftl_add m 1 23) by (unfold word; lia).
  rewrite !lor_shiftl_add by (unfold word; lia). lia.
Qed.

Lemma GetCompact_of v n f : ok256 v -> byte_length (eval v) n -> GetCompact v f = compact_of (eval v) n f.
Proof.
  intros Hv Hn. destruct (byte_length_bits v Hv) as [Hn' Hle]. rewrite <- (byte_length_unique _ _ _ Hn Hn') in Hle.
  unfold GetCompact, compact_of. rewrite (compact_parts_spec v n Hv Hn). destruct (parts_bounds _ _ Hn) as (Hm & Hs & _).
  destruct Hn as [H0 _]. destruct (parts (eval v) n) as [m size]. apply compact_word; cbn [fst snd] in *; lia.
Qed.

Lemma compact_asserts_hold v : ok256 v -> compact_asserts v = true.
Proof.
  intros Hv. destruct (byte_length_bits v Hv) as [Hn Hle]. unfold compact_asserts.
  rewrite (compact_parts_spec v _ Hv Hn). destruct (parts_bounds _ _ Hn) as (Hm & Hs & _).
  destruct (parts _ _) as [m size]. cbn [fst snd] in *. apply andb_true_intro. split; [|lia].
  apply Z.eqb_eq. rewrite <- (Z.mod_small m (2 ^ 23)) by lia. rewrite <- mantissa_bits, <- Z.land_assoc.
  change (Z.land _ (u32 _)) with 0. apply Z.land_0_r.
Qed.

(** ** Round trip *)

Lemma pow_split a b : 0 <= a -> 0 <= b -> 2 ^ (8 * (a + b)) = 2 ^ (8 * a) * 2 ^ (8 * b).
Proof. intros. rewrite <- Z.pow_add_r by lia. f_equal. lia. Qed.

Lemma parts_scaled x n : byte_length x n -> scaled (snd (parts x n)) (fst (parts x n)) = x / 2 ^ dropped x n * 2 ^ dropped x n.
Proof.
  intros Hn. destruct (leading_bounds x n Hn) as [Hl Hl']. destruct Hn as (H0 & _ & _).
  unfold dropped, parts, scaled, leading in *.
  destruct (Z.leb_spec n 3) as [H3|H3];
    [destruct (Z.leb_spec (2 ^ 23) (x * 2 ^ (8 * (3 - n)))) as [Hb|Hb]
    |destruct (Z.leb_spec (2 ^ 23) (x / 2 ^ (8 * (n - 3)))) as [Hb|Hb]]; cbn [fst snd].
  - destruct (Z.leb_spec (n + 1) 3).
    + rewrite Z.max_l by lia. change (2 ^ (8 * 0)) with 1. rewrite Z.div_1_r, Z.mul_1_r, Z.div_div by (try apply Z.pow_pos_nonneg; lia).
      change (2 ^ 8) with (2 ^ (8 * 1)). rewrite <- pow_split by lia. replace (1 + (3 - (n + 1))) with (3 - n) by lia.
      apply Z.div_mul. pose proof (Z.pow_pos_nonneg 2 (8 * (3 - n))). lia.
    + replace n with 3 in * by lia. change (8 * Z.max 0 (3 + 1 - 3)) with 8. change (8 * (3 + 1 - 3)) with 8.
      change (2 ^ (8 * (3 - 3))) with 1. rewrite Z.mul_1_r. reflexivity.
  - rewrite Z.max_l by lia. rewrite (proj2 (Z.leb_le n 3)) by lia. change (2 ^ (8 * 0)) with 1.
    rewrite Z.div_1_r, Z.mul_1_r. apply Z.div_mul. pose proof (Z.pow_pos_nonneg 2 (8 * (3 - n))). lia.
  - rewrite Z.max_r by lia. rewrite (proj2 (Z.leb_gt (n + 1) 3)) by lia. f_equal.
    rewrite Z.div_div by (try apply Z.pow_pos_nonneg; lia). f_equal. change (2 ^ 8) with (2 ^ (8 * 1)).
    rewrite <- pow_split by lia. do 2 f_equal. lia.
  - rewrite Z.max_r by lia. rewrite (proj2 (Z.leb_gt n 3)) by lia. reflexivity.
Qed.

Lemma dropped_lt x n : byte_length x n -> 0 < dropped x n -> 2 ^ (dropped x n + 15) <= x.
Proof.
  intros Hn Hd. pose proof Hn as (H0 & Hx & H1).
  destruct (parts_bounds x n Hn) as (Hm & Hs & Hm15). pose proof (parts_scaled x n Hn) as E.
  assert (H3 : 3 < snd (parts x n)) by (unfold dropped in Hd; lia).
  unfold scaled in E. rewrite (proj2 (Z.leb_gt _ 3)) in E by lia.
  replace (8 * (snd (parts x n) - 3)) with (dropped x n) in E by (unfold dropped; lia).
  pose proof (Z.pow_pos_nonneg 2 (dropped x n) ltac:(lia) ltac:(lia)) as Hp.
  rewrite Z.pow_add_r by lia. pose proof (Z.mul_div_le x (2 ^ dropped x n) Hp). specialize (Hm15 ltac:(lia)). nia.
Qed.

(** Dropping those bits changes neither the length nor the encoding. *)
Lemma dropped_bytes x n : byte_length x n -> 0 < dropped x n -> dropped x n <= 8 * n - 8 /\ n >= 3.
Proof.
  intros Hn Hd. pose proof (dropped_lt x n Hn Hd) as H. destruct Hn as (H0 & Hx & _).
  assert (Hlt : dropped x n + 15 < 8 * n) by (apply (Z.pow_lt_mono_r_iff 2); lia).
  unfold dropped in *. lia.
Qed.

Lemma leading_ge3 x n : 3 <= n -> leading x n = x / 2 ^ (8 * (n - 3)).
Proof.
  intros Hn. unfold leading. destruct (Z.leb_spec n 3); [|reflexivity]. replace n with 3 by lia. cbn [Z.sub Z.mul].
  change (2 ^ (8 * (3 - 3))) with 1. rewrite Z.mul_1_r, Z.div_1_r. reflexivity.
Qed.

Lemma truncated x n : byte_length x n ->
  let y := x / 2 ^ dropped x n * 2 ^ dropped x n in byte_length y n /\ parts y n = parts x n.
Proof.
  intros Hn. cbv zeta. assert (Hd0 : 0 <= dropped x n) by (unfold dropped; lia).
  destruct (Z.eqb_spec (dropped x n) 0) as [-> |Hne]; [change (2 ^ 0) with 1; rewrite Z.div_1_r, Z.mul_1_r; auto |].
  destruct (dropped_bytes x n Hn ltac:(lia)) as [Hd8 H3]. destruct (leading_bounds x n Hn) as [Hl _].
  pose proof Hn as (H0 & Hx & H1). set (d := dropped x n) in *.
  pose proof (Z.pow_pos_nonneg 2 d ltac:(lia) ltac:(lia)) as Hp.
  pose proof (Z.mul_div_le x (2 ^ d) Hp) as Hle. split.
  - split; [exact H0 |]. split; [split; [apply Z.mul_nonneg_nonneg; [apply Z.div_pos; lia | lia] | lia] |].
    intros Hp0. specialize (H1 Hp0). replace (8 * n - 8) with ((8 * n - 8 - d) + d) in * by lia.
    rewrite Z.pow_add_r in * by lia. apply Z.mul_le_mono_nonneg_r; [lia |]. apply Z.div_le_lower_bound; lia.
  - unfold parts. rewrite !leading_ge3 in * by lia.
    set (e := 8 * (n - 3)). pose proof (Z.pow_pos_nonneg 2 e ltac:(lia) ltac:(lia)) as He.
    assert (Ed : d = if 2 ^ 23 <=? x / 2 ^ e then e + 8 else e).
    { unfold d, dropped, parts. rewrite leading_ge3 by lia. destruct (_ <=? _); cbn [snd]; lia. }
    destruct (Z.leb_spec (2 ^ 23) (x / 2 ^ e)) as [Hb|Hb]; rewrite Ed.
    + rewrite Z.pow_add_r, <- Z.div_div by lia. set (L := x / 2 ^ e) in *.
      replace (L / 2 ^ 8 * (2 ^ e * 2 ^ 8)) with (L / 2 ^ 8 * 2 ^ 8 * 2 ^ e) by ring.
      rewrite Z.div_mul by lia.
      assert (2 ^ 15 <= L / 2 ^ 8) by (apply Z.div_le_lower_bound; lia).
      rewrite (proj2 (Z.leb_le _ _)) by lia. rewrite Z.div_mul by lia. reflexivity.
    + rewrite Z.div_mul by lia. rewrite (proj2 (Z.leb_gt _ _)) by lia. reflexivity.
Qed.

Lemma compact_fields m sg size : 0 <= m < 2 ^ 23 -> 0 <= sg <= 1 ->
  let c := m + sg * 2 ^ 23 + size * 2 ^ 24 in
  c / 2 ^ 24 = size /\ c mod 2 ^ 23 = m /\ Z.testbit c 23 = (sg =? 1).
Proof.
  intros Hm Hsg. cbv zeta. split; [|split].
  - symmetry. apply Z.div_unique_pos with (m + sg * 2 ^ 23); lia.
  - replace (m + sg * 2 ^ 23 + size * 2 ^ 24) with (m + (sg + 2 * size) * 2 ^ 23) by lia.
    rewrite Z.mod_add by lia. apply Z.mod_small. lia.
  - rewrite <- (Z.mod_pow2_bits_low _ 24) by lia. rewrite Z.mod_add, Z.mod_small, sign_bit_lt by lia.
    destruct (Z.leb_spec (2 ^ 23) (m + sg * 2 ^ 23)), (Z.eqb_spec sg 1); lia.
Qed.

(** A mantissa is zero exactly when the number and its truncation are. *)
Lemma zero_agree x n : byte_length x n ->
  (fst (parts x n) =? 0) = (x =? 0) /\ (x / 2 ^ dropped x n * 2 ^ dropped x n =? 0) = (x =? 0).
Proof.
  intros Hn. pose proof (truncated x n Hn) as [(_ & Ht & Ht') _]. destruct (parts_bounds x n Hn) as (Hm & _ & Hm').
  destruct Hn as (H0 & Hx & H1). destruct (Z.eqb_spec n 0) as [E|E].
  - unfold parts, leading in *. rewrite E in *. change (2 ^ (8 * 0)) with 1 in *. replace x with 0 by lia. auto.
  - specialize (Hm' ltac:(lia)). specialize (H1 ltac:(lia)). specialize (Ht' ltac:(lia)).
    pose proof (Z.pow_pos_nonneg 2 (8 * n - 8)).
    rewrite !(proj2 (Z.eqb_neq _ 0)) by lia. auto.
Qed.

(** ** The claims *)

(** [SetCompact] decodes the sign bit, the mantissa (23 bits) and the
    exponent (8 bits): it stores the mantissa scaled by 256^(exponent - 3),
    reports overflow exactly when that number has more than 256 bits, and
    reports negative exactly when the sign bit is set on a non-zero number. *)
Theorem compact_decoding_exact c : word 32 c ->
  let x := scaled (c / 2 ^ 24) (c mod 2 ^ 23) in
  let '(v, negative, overflow) := SetCompact c in
  (negative = true <-> x <> 0 /\ Z.testbit c 23 = true) /\
  (overflow = true <-> 2 ^ 256 <= x) /\
  ok256 v /\ (overflow = false -> eval v = x).
Proof.
  intros Hc. destruct (SetCompact_spec c Hc) as (v & -> & Hok & He). cbv zeta.
  set (x := scaled _ _) in *. change N256 with (2 ^ 256) in *. split; [|split; [apply Z.leb_le | split; [exact Hok |]]].
  - rewrite andb_true_iff, negb_true_iff, Z.eqb_neq. reflexivity.
  - intros Ho. apply Z.leb_gt in Ho. rewrite He. apply Z.mod_small. split; [|exact Ho].
    unfold x, scaled. pose proof (Z.mod_pos_bound c (2 ^ 23)).
    destruct (Z.leb_spec (c / 2 ^ 24) 3); [apply Z.div_pos | apply Z.mul_nonneg_nonneg];
      try (apply Z.pow_pos_nonneg || apply Z.pow_nonneg); lia.
Qed.

Lemma compact_decoding_witness :
  word 32 0x1d00ffff /\ let '(v, _, _) := SetCompact 0x1d00ffff in eval v = 0xffff * 2 ^ 208.
Proof.
  assert (Hw : word 32 0x1d00ffff) by (unfold word; lia). split; [exact Hw |].
  pose proof (compact_decoding_exact 0x1d00ffff Hw) as H.
  assert (Ho : snd (SetCompact 0x1d00ffff) = false) by (vm_compute; reflexivity).
  destruct (SetCompact 0x1d00ffff) as [[v ng] ov]. destruct H as (_ & _ & _ & H). rewrite (H Ho). vm_compute. reflexivity.
Defined.

(** The assertions of [GetCompact] hold for every 256-bit number.
    Encoding and decoding it again never overflows, keeps
    the sign of a non-zero number and drops only low bits, at least 16
    significant bits being kept; the decoded number has the same encoding. *)
Theorem compact_round_trip v f : ok256 v ->
  compact_asserts v = true /\
  exists y k, SetCompact (GetCompact v f) = (y, f && negb (eval v =? 0), false) /\ ok256 y /\
    0 <= k /\ eval y = eval v / 2 ^ k * 2 ^ k /\ (0 < k -> 2 ^ (k + 15) <= eval v) /\
    GetCompact y f = GetCompact v f.
Proof.
  intros Hv. split; [exact (compact_asserts_hold v Hv) |]. destruct (byte_length_bits v Hv) as [Hn Hn32]. set (n := (bits W256 v + 7) / 8) in *.
  pose proof (GetCompact_of v n f Hv Hn) as Eg. pose proof Hn as (H0 & Hx & H1).
  destruct (parts_bounds _ _ Hn) as (Hm & Hs & Hm15). pose proof (parts_scaled _ _ Hn) as Esc.
  pose proof (truncated _ _ Hn) as [Ht Ep]. pose proof (dropped_lt _ _ Hn) as Hd.
  pose proof (ok_bounds _ _ Hv) as Bv.
  set (x := eval v) in *. set (d := dropped x n) in *. set (m := fst (parts x n)) in *. set (size := snd (parts x n)) in *.
  assert (Hd0 : 0 <= d) by (unfold d, dropped; lia).
  assert (Hy : 0 <= x / 2 ^ d * 2 ^ d <= x).
  { pose proof (Z.pow_pos_nonneg 2 d ltac:(lia) ltac:(lia)). pose proof (Z.mul_div_le x (2 ^ d)). pose proof (Z.div_pos x (2 ^ d)). lia. }
  set (sg := if f && negb (m =? 0) then 1 else 0).
  assert (Ec : GetCompact v f = (m + sg * 2 ^ 23) + size * 2 ^ 24).
  { rewrite Eg. unfold compact_of. fold m size. unfold sg. destruct (f && negb (m =? 0)); lia. }
  assert (Hsg : 0 <= sg <= 1) by (unfold sg; destruct (f && negb (m =? 0)); lia).
  destruct (SetCompact_spec (GetCompact v f)) as (y & Es & Hok & He); [unfold word; lia |].
  rewrite Ec in Es, He. destruct (compact_fields m sg size Hm Hsg) as (E1 & E2 & E3).
  rewrite E1, E2, ?E3, Esc in *. rewrite (Z.mod_small _ _) in He by lia.
  destruct (zero_agree _ _ Hn) as [Z1 Z2]. fold m d in Z1, Z2. exists y, d. split.
  { rewrite Ec, Es, Z2. rewrite (proj2 (Z.leb_gt N256 _)) by lia. do 2 f_equal. unfold sg. rewrite Z1.
    destruct f, (x =? 0); reflexivity. }
  do 4 (split; [assumption |]). rewrite (GetCompact_of y n f Hok), Eg, He by (rewrite He; exact Ht). unfold compact_of. rewrite Ep.
  reflexivity.
Qed.

Lemma compact_round_trip_witness : ok256 [1; 2; 3; 4; 5; 6; 7; 0] /\
  exists y k, SetCompact (GetCompact [1; 2; 3; 4; 5; 6; 7; 0] true) = (y, true, false) /\ 0 <= k /\
    eval y = eval [1; 2; 3; 4; 5; 6; 7; 0] / 2 ^ k * 2 ^ k.
Proof.
  assert (Hok : ok256 [1; 2; 3; 4; 5; 6; 7; 0]) by (split; [reflexivity | repeat constructor; unfold word; lia]).
  split; [exact Hok |]. destruct (compact_round_trip _ true Hok) as (_ & y & k & H1 & _ & H2 & H3 & _).
  exists y, k. split; [rewrite H1; reflexivity | split; assumption].
Defined.
