(* ===== verification/Pow.v ===== *)
(** * Pow: difficulty adjustment and the proof-of-work check

    Models pow.cpp.  The block index is the list of the blocks from
    [pindexLast] back to the genesis block: the head is [*pindexLast], the tail
    its [pprev] chain, the empty list the null pointer.  A failed [assert], a
    null dereference and the division-by-zero exception are [None].

    [int64_t] values are [Z]; the conversions the code makes implicitly are
    written out: [bnNew *= nActualTimespan] takes the [uint32_t] overload and
    [bnNew /= nTargetTimespan] converts to [uint64_t]. *)

From S2P Require Import Prelude Words Arith256.

(** The fields of [Consensus::Params] that pow.cpp reads. *)
Record Params := {
  powLimit : list Z;
  fPowAllowMinDifficultyBlocks : bool;
  fPowNoRetargeting : bool;
  nPowTargetSpacing : Z;
}.

(** The fields of [CBlockIndex] that pow.cpp reads; [GetBlockTime] is [nTime]. *)
Record CBlockIndex := { nHeight : Z; nTime : Z; nBits : Z }.

Definition nPastBlocks : Z := 24.

(** The averaging loop, from [nCountBlocks] on, with [remaining] iterations
    left: the average and the last [pindex]. *)
Fixpoint past_target_loop (remaining : nat) (nCountBlocks : Z) (pindex : CBlockIndex) (pprev : list CBlockIndex)
    (bnPastTargetAvg : limbs) : option (limbs * CBlockIndex) :=
  match remaining with
  | O => Some (bnPastTargetAvg, pindex)
  | S remaining =>
      let bnTarget := fst (fst (SetCompact (nBits pindex))) in
      match (if nCountBlocks =? 1 then Some bnTarget
             else div W256 (add (mul32 bnPastTargetAvg nCountBlocks) bnTarget) (of_u64 W256 (nCountBlocks + 1))) with
      | None => None
      | Some bnPastTargetAvg =>
          if negb (nCountBlocks =? nPastBlocks) then
            match pprev with
            | [] => None
            | p :: pprev => past_target_loop remaining (nCountBlocks + 1) p pprev bnPastTargetAvg
            end
          else past_target_loop remaining (nCountBlocks + 1) pindex pprev bnPastTargetAvg
      end
  end.

Definition DarkGravityWave (chain : list CBlockIndex) (params : Params) : option Z :=
  let bnPowLimit := UintToArith256 (powLimit params) in
  match chain with
  | [] => Some (GetCompact bnPowLimit false)
  | pindexLast :: pprev =>
      if nHeight pindexLast <? 401 then Some (GetCompact bnPowLimit false) else
      if nHeight pindexLast <? nPastBlocks then Some (GetCompact bnPowLimit false) else
      match past_target_loop 24 1 pindexLast pprev (zero W256) with
      | None => None
      | Some (bnPastTargetAvg, pindex) =>
          let nActualTimespan := nTime pindexLast - nTime pindex in
          let nTargetTimespan := nPastBlocks * nPowTargetSpacing params in
          let nActualTimespan :=
            if nActualTimespan <? Z.quot nTargetTimespan 3 then Z.quot nTargetTimespan 3 else nActualTimespan in
          let nActualTimespan :=
            if nTargetTimespan * 3 <? nActualTimespan then nTargetTimespan * 3 else nActualTimespan in
          let bnNew := mul32 bnPastTargetAvg (u32 nActualTimespan) in
          match div W256 bnNew (of_u64 W256 (u64 nTargetTimespan)) with
          | None => None
          | Some bnNew =>
              let bnNew := if 0 <? CompareTo bnNew bnPowLimit then bnPowLimit else bnNew in
              Some (GetCompact bnNew false)
          end
      end
  end.

(** [pblockTime] is [pblock->GetBlockTime()]. *)
Definition GetNextWorkRequired (chain : list CBlockIndex) (pblockTime : Z) (params : Params) : option Z :=
  let bnPowLimit := UintToArith256 (powLimit params) in
  if fPowNoRetargeting params then Some (GetCompact bnPowLimit false) else
  if fPowAllowMinDifficultyBlocks params then
    match chain with
    | [] => None
    | pindexLast :: _ =>
        if (64114 <=? nHeight pindexLast) && (nTime pindexLast + nPowTargetSpacing params * 4 <? pblockTime)
        then Some (GetCompact bnPowLimit false) else DarkGravityWave chain params
    end
  else DarkGravityWave chain params.

Definition CheckProofOfWork (hash : list Z) (nBits : Z) (params : Params) : bool :=
  let '(bnTarget, fNegative, fOverflow) := SetCompact nBits in
  if fNegative || EqualTo bnTarget 0 || fOverflow || (0 <? CompareTo bnTarget (UintToArith256 (powLimit params)))
  then false
  else if 0 <? CompareTo (UintToArith256 hash) bnTarget then false
  else true.

(** The consensus parameters of the main network (chainparams.cpp). *)
Definition main_params : Params :=
  {| powLimit := replicate 31 0xff ++ [0]; fPowAllowMinDifficultyBlocks := false;
     fPowNoRetargeting := false; nPowTargetSpacing := 150 |}.
