(* ===== verification/PowCorrect.v ===== *)
(** * PowCorrect: the difficulty adjustment

    [CheckProofOfWork] in terms of numbers, the range of the next target, its
    exact value while the products fit in 256 bits, and what happens when they
    do not. *)

From S2P Require Import Prelude Words Arith256 Arith256Correct Arith256Compact Pow.

(** ** Numbers *)

(** The target of a block and the number a 32-byte blob holds. *)
Definition target (b : CBlockIndex) : Z := eval (fst (fst (SetCompact (nBits b)))).
Definition limit (params : Params) : Z := le_decode (powLimit params).

Definition blob_ok (bs : list Z) : Prop := length bs = 32%nat /\ Forall byte bs.
Definition block_ok (b : CBlockIndex) : Prop := word 32 (nBits b) /\ word 32 (nTime b).

Lemma blob_value bs : blob_ok bs -> ok256 (UintToArith256 bs) /\ eval (UintToArith256 bs) = le_decode bs.
Proof. intros [Hl Fb]. apply (UintToArith_spec 8 bs Hl Fb). Qed.

Lemma target_ok b : block_ok b -> ok256 (fst (fst (SetCompact (nBits b)))).
Proof. intros [Hb _]. destruct (SetCompact_spec _ Hb) as (v & -> & Hok & _). exact Hok. Qed.

Lemma CompareTo_gt a b : ok256 a -> ok256 b -> (0 <? CompareTo a b) = (eval b <? eval a).
Proof.
  intros Ha Hb. rewrite (CompareTo_spec W256) by auto.
  destruct (Z.compare_spec (eval a) (eval b)), (Z.ltb_spec (eval b) (eval a)); (reflexivity || lia).
Qed.

(** ** The check of a proof of work *)

(** The condition both checks of a hash against a target share. *)
Lemma target_met hash bits pow_limit : blob_ok hash -> word 32 bits -> blob_ok pow_limit ->
  let t := scaled (bits / 2 ^ 24) (bits mod 2 ^ 23) in
  (let '(bnTarget, fNegative, fOverflow) := SetCompact bits in
   fNegative || EqualTo bnTarget 0 || fOverflow || (0 <? CompareTo bnTarget (UintToArith256 pow_limit)) ||
   (0 <? CompareTo (UintToArith256 hash) bnTarget)) = false <->
  Z.testbit bits 23 = false /\ 1 <= t <= le_decode pow_limit /\ le_decode hash <= t.
Proof.
  intros Hh Hb Hp. cbv zeta. destruct (blob_value _ Hh) as [Hok1 He1]. destruct (blob_value _ Hp) as [Hok2 He2].
  destruct (SetCompact_spec bits Hb) as (v & E & Hok & He). rewrite E.
  set (t := scaled _ _) in *. rewrite (EqualTo_spec 8) by (auto; unfold word; lia). rewrite !CompareTo_gt by auto.
  rewrite He1, He2. pose proof (ok_bounds _ _ Hok2) as Bl. rewrite He2 in Bl.
  assert (Ht : 0 <= t).
  { unfold t, scaled. pose proof (Z.mod_pos_bound bits (2 ^ 23)).
    destruct (Z.leb_spec (bits / 2 ^ 24) 3); [apply Z.div_pos | apply Z.mul_nonneg_nonneg];
      try (apply Z.pow_pos_nonneg || apply Z.pow_nonneg); lia. }
  destruct (Z.leb_spec N256 t) as [Ho|Ho].
  { rewrite orb_true_r. cbn [orb]. split; [discriminate |]. lia. }
  rewrite Z.mod_small in He by lia. rewrite He.
  destruct (Z.testbit bits 23), (Z.eqb_spec t 0), (Z.ltb_spec (le_decode pow_limit) t), (Z.ltb_spec t (le_decode hash));
    cbn [andb orb negb]; split; try discriminate; try (intros (? & ? & ?)); try discriminate; try lia; auto; repeat split; lia.
Qed.

(** [CheckProofOfWork] accepts exactly when the compact target is
    non-negative, its exact value (before any reduction modulo 2^256) lies
    between 1 and the network limit, and the hash is at most that value. *)
Theorem CheckProofOfWork_exact hash bits params : blob_ok hash -> word 32 bits -> blob_ok (powLimit params) ->
  let t := scaled (bits / 2 ^ 24) (bits mod 2 ^ 23) in
  CheckProofOfWork hash bits params = true <->
  Z.testbit bits 23 = false /\ 1 <= t <= limit params /\ le_decode hash <= t.
Proof.
  intros Hh Hb Hp. cbv zeta. unfold limit. rewrite <- (target_met hash bits (powLimit params) Hh Hb Hp).
  unfold CheckProofOfWork. destruct (SetCompact bits) as [[v ng] ov].
  destruct (ng || EqualTo v 0 || ov || _); [cbn [orb]; split; discriminate |].
  cbn [orb]. destruct (0 <? CompareTo (UintToArith256 hash) v); split; (discriminate || reflexivity).
Qed.

Lemma CheckProofOfWork_witness :
  blob_ok (replicate 32 0) /\ word 32 0x1d00ffff /\ blob_ok (powLimit main_params) /\
  CheckProofOfWork (replicate 32 0) 0x1d00ffff main_params = true.
Proof.
  assert (H1 : blob_ok (replicate 32 0)) by (split; [reflexivity | apply Forall_replicate; unfold word; lia]).
  assert (H2 : word 32 0x1d00ffff) by (unfold word; lia).
  assert (H3 : blob_ok (powLimit main_params))
    by (split; [reflexivity | cbn; repeat constructor; unfold word; lia]).
  split; [exact H1 |]. split; [exact H2 |]. split; [exact H3 |].
  apply (CheckProofOfWork_exact _ _ _ H1 H2 H3). vm_compute. repeat split; discriminate.
Defined.

(** ** The average of the past targets *)

(** The recurrence of the loop on numbers. *)
Fixpoint running_average (n avg : Z) (ts : list Z) : Z :=
  match ts with
  | [] => avg
  | t :: ts => running_average (n + 1) (if n =? 1 then t else (avg * n + t) / (n + 1)) ts
  end.

Lemma running_average_bounds lo hi n avg ts : 1 <= n -> (n <> 1 -> lo <= avg <= hi) -> Forall (fun t => lo <= t <= hi) ts ->
  (n <> 1 \/ ts <> []) -> lo <= running_average n avg ts <= hi.
Proof.
  intros Hn Ha F. revert n avg Hn Ha. induction F as [|t ts Ht F IH]; intros n avg Hn Ha Hne.
  - cbn. destruct Hne; [auto | congruence].
  - cbn [running_average]. apply IH; [lia | | left; lia]. intros _. destruct (Z.eqb_spec n 1); [exact Ht |].
    specialize (Ha n0). split; [apply Z.div_le_lower_bound; nia | apply Z.div_le_upper_bound; nia].
Qed.

Lemma of_u64_ok n : 0 <= n < 2 ^ 64 -> ok256 (of_u64 W256 n) /\ eval (of_u64 W256 n) = n.
Proof. apply of_u64_spec. Qed.

(** The loop always returns when enough blocks precede. *)
Lemma past_target_loop_total remaining n pindex pprev avg : n = 25 - Z.of_nat remaining -> (remaining <= 24)%nat ->
  (remaining <= S (length pprev))%nat -> block_ok pindex -> Forall block_ok pprev -> ok256 avg ->
  exists avg' b, past_target_loop remaining n pindex pprev avg = Some (avg', b) /\ ok256 avg' /\
    nth_error (pindex :: pprev) (pred remaining) = Some b /\
    (forall L, 0 <= L -> 25 * L < N256 -> (n <> 1 -> eval avg <= L) ->
      Forall (fun b => target b <= L) (take remaining (pindex :: pprev)) ->
      eval avg' = running_average n (eval avg) (map target (take remaining (pindex :: pprev)))).
Proof.
  revert n pindex pprev avg. induction remaining as [|r IH]; intros n pindex pprev avg Hn Hr Hl Hb Fb Ha.
  - exists avg, pindex. cbn. auto.
  - cbn [past_target_loop]. pose proof (target_ok _ Hb) as Ht. pose proof (ok_bounds _ _ Ha) as Ba. pose proof (ok_bounds _ _ Ht) as Bt.
    set (step := if n =? 1 then _ else _).
    assert (Hstep : exists avg1, step = Some avg1 /\ ok256 avg1 /\
      forall L, 0 <= L -> 25 * L < N256 -> (n <> 1 -> eval avg <= L) -> target pindex <= L ->
        eval avg1 = (if n =? 1 then target pindex else (eval avg * n + target pindex) / (n + 1)) /\ eval avg1 <= L).
    { unfold step. destruct (Z.eqb_spec n 1) as [E1|E1]; [eexists; split; [reflexivity |]; auto |].
      destruct (mul32_spec 8 avg n Ha) as [Hm Em]; [unfold word; lia |].
      destruct (add_spec 8 _ _ Hm Ht) as [Hs Es]. destruct (of_u64_ok (n + 1)) as [Hd Ed]; [lia |].
      pose proof (div_spec 8 _ _ Hs Hd) as D. destruct (div W256 _ _) as [avg1|]; [|lia].
      destruct D as (_ & Hok & Eq). exists avg1. split; [reflexivity |]. split; [exact Hok |].
      intros L HL0 HL Hal HtL. specialize (Hal E1). unfold target in *. change (modulus 8) with N256 in *.
      rewrite Z.mod_small in Em by nia. rewrite Z.mod_small in Es by nia.
      rewrite Eq, Ed, Es, Em. split; [reflexivity |]. apply Z.div_le_upper_bound; nia. }
    destruct Hstep as (avg1 & -> & Hok1 & HL1).
    destruct (Z.eqb_spec n nPastBlocks) as [E24|E24]; cbn [negb]; unfold nPastBlocks in E24.
    + assert (r = 0%nat) as -> by lia. exists avg1, pindex. cbn [past_target_loop]. split; [reflexivity |]. split; [exact Hok1 |].
      split; [reflexivity |]. intros L HL0 HL Hal F. apply Forall_inv in F. destruct (HL1 L HL0 HL Hal F) as [-> _]. reflexivity.
    + destruct pprev as [|p pprev]; [cbn in Hl; lia |]. apply Forall_cons in Fb as [Hp Fb]. cbn [length] in Hl.
      destruct (IH (n + 1) p pprev avg1) as (avg' & b & E & Hok & Eb & HL'); [lia | lia | lia | auto | auto | auto |].
      exists avg', b. split; [exact E |]. split; [exact Hok |]. split; [destruct r as [|r]; [lia | exact Eb] |].
      intros L HL0 HL Hal F. cbn [take] in F. apply Forall_cons in F as [F1 F2].
      destruct (HL1 L HL0 HL Hal F1) as [E1 Hle]. rewrite (HL' L HL0 HL (fun _ => Hle) F2), E1. reflexivity.
Qed.

(** ** The next target *)

(** The timespan of the last 24 blocks, limited to a factor of three. *)
Definition target_timespan (params : Params) : Z := nPastBlocks * nPowTargetSpacing params.
Definition clamped_timespan (T actual : Z) : Z := Z.min (3 * T) (Z.max (T / 3) actual).

Definition params_ok (params : Params) : Prop := blob_ok (powLimit params) /\ 0 < target_timespan params < 2 ^ 64.

(** The number a compact encoding decodes to, without sign or overflow; 0 is
    such a number, and no valid target. *)
Definition decodes_to (c : Z) (v : limbs) : Prop := SetCompact c = (v, false, false) /\ ok256 v.

Lemma dropped_below x n : byte_length x n -> 1 <= x -> 2 ^ dropped x n <= x.
Proof.
  intros Hn Hx. destruct (parts_bounds x n Hn) as (_ & Hs & _). destruct Hn as (H0 & Hb & Hl).
  assert (0 < n) by (destruct (Z.eq_dec n 0) as [->|]; [cbn in Hb; lia | lia]). specialize (Hl ltac:(lia)).
  unfold dropped. destruct (Z.max_spec 0 (snd (parts x n) - 3)) as [[_ ->]|[_ ->]]; [|cbn; lia].
  etransitivity; [apply Z.pow_le_mono_r; [lia|] | exact Hl]. lia.
Qed.

(** Encoding rounds down, and not to 0. *)
Lemma GetCompact_below v : ok256 v ->
  exists y, decodes_to (GetCompact v false) y /\ eval y <= eval v /\ (1 <= eval v -> 1 <= eval y).
Proof.
  intros Hv. destruct (byte_length_bits v Hv) as [Hn Hn32]. set (n := (bits W256 v + 7) / 8) in *.
  destruct (parts_bounds _ _ Hn) as (Hm & Hs & _). pose proof (parts_scaled _ _ Hn) as Esc.
  pose proof (ok_bounds _ _ Hv) as Bv. pose proof Hn as (H0 & _ & _).
  assert (Ec : GetCompact v false = fst (parts (eval v) n) + 0 * 2 ^ 23 + snd (parts (eval v) n) * 2 ^ 24)
    by (rewrite (GetCompact_of v n false Hv Hn); unfold compact_of; cbn [andb]; lia).
  destruct (compact_fields (fst (parts (eval v) n)) 0 (snd (parts (eval v) n)) Hm) as (E1 & E2 & E3); [lia |].
  assert (Hd0 : 0 <= dropped (eval v) n) by (unfold dropped; lia).
  assert (Hy : 0 <= eval v / 2 ^ dropped (eval v) n * 2 ^ dropped (eval v) n <= eval v).
  { pose proof (Z.pow_pos_nonneg 2 (dropped (eval v) n) ltac:(lia) ltac:(lia)).
    pose proof (Z.mul_div_le (eval v) (2 ^ dropped (eval v) n)). pose proof (Z.div_pos (eval v) (2 ^ dropped (eval v) n)). lia. }
  destruct (SetCompact_spec (GetCompact v false)) as (y & Es & Hok & He); [unfold word; lia |].
  rewrite Ec in Es, He. rewrite E1, E2, ?E3, Esc in *. rewrite Z.mod_small in He by lia.
  exists y. split; [|split; [lia |]].
  2: { intros Hv1. pose proof (dropped_below _ _ Hn Hv1). pose proof (Z.pow_pos_nonneg 2 (dropped (eval v) n) ltac:(lia) ltac:(lia)).
       pose proof (Z.div_le_lower_bound (eval v) (2 ^ dropped (eval v) n) 1 ltac:(lia) ltac:(lia)). rewrite He. nia. }
  split; [|exact Hok]. rewrite Ec, Es. rewrite andb_false_r, (proj2 (Z.leb_gt N256 _)) by lia. reflexivity.
Qed.

(** The chain that [DarkGravityWave] can walk. *)
Definition chain_ok (chain : list CBlockIndex) : Prop :=
  Forall block_ok chain /\ match chain with [] => True | b :: _ => 401 <= nHeight b -> (24 <= length chain)%nat end.

Lemma clamp_code T a : 0 < T ->
  (let a := if a <? Z.quot T 3 then Z.quot T 3 else a in if T * 3 <? a then T * 3 else a) = clamped_timespan T a.
Proof.
  intros HT. unfold clamped_timespan. rewrite Z.quot_div_nonneg by lia.
  assert (T / 3 <= T) by (apply Z.div_le_upper_bound; lia). cbv zeta.
  destruct (Z.ltb_spec a (T / 3)); [destruct (Z.ltb_spec (T * 3) (T / 3)) | destruct (Z.ltb_spec (T * 3) a)]; lia.
Qed.

(** The value before encoding, and its exact formula when nothing wraps. *)
Lemma DarkGravityWave_value chain params : params_ok params -> chain_ok chain ->
  exists v, DarkGravityWave chain params = Some (GetCompact v false) /\ ok256 v /\ eval v <= limit params /\
    forall first last L, nHeight first >= 401 -> head chain = Some first -> nth_error chain 23 = Some last ->
      let T := target_timespan params in
      0 <= L -> Forall (fun b => target b <= L) (take 24 chain) -> 25 * L < 2 ^ 256 -> 3 * T < 2 ^ 32 -> L * (3 * T) < 2 ^ 256 ->
      let avg := running_average 1 0 (map target (take 24 chain)) in
      eval v = Z.min (limit params) (avg * clamped_timespan T (nTime first - nTime last) / T).
Proof.
  intros [Hp HT] [Fb Hlen]. destruct (blob_value _ Hp) as [Hlok Hle]. fold (limit params) in Hle.
  unfold DarkGravityWave. destruct chain as [|b chain].
  { exists (UintToArith256 (powLimit params)). split; [reflexivity |]. split; [exact Hlok |]. split; [lia |]. discriminate. }
  destruct (Z.ltb_spec (nHeight b) 401).
  { eexists. split; [reflexivity |]. split; [exact Hlok |]. split; [lia |].
    intros ? ? ? ? [= <-]. lia. }
  specialize (Hlen ltac:(lia)). apply Forall_cons in Fb as [Hb Fb]. cbn [length] in Hlen.
  replace (nHeight b <? nPastBlocks) with false by (symmetry; apply Z.ltb_ge; unfold nPastBlocks; lia).
  destruct (past_target_loop_total 24 1 b chain (zero W256)) as (avg & last & -> & Hok & En & Hval);
    [reflexivity | lia | lia | exact Hb | exact Fb | apply (zero_ok 8) |].
  unfold target_timespan in *. set (T := nPastBlocks * nPowTargetSpacing params) in *. cbv zeta.
  change (if T * 3 <? _ then _ else _) with (let a := if nTime b - nTime last <? Z.quot T 3 then Z.quot T 3 else nTime b - nTime last in
    if T * 3 <? a then T * 3 else a). rewrite clamp_code by lia. set (A := clamped_timespan T (nTime b - nTime last)).
  destruct (mul32_spec 8 avg (u32 A) Hok) as [Hm Em]; [apply wrap_word; lia |].
  destruct (of_u64_ok (u64 T)) as [Hd Ed]; [apply wrap_word; lia |].
  rewrite (wrap_small 64 T) in * by (unfold word; lia).
  pose proof (div_spec 8 _ _ Hm Hd) as D. destruct (div W256 _ _) as [q|]; [|lia]. destruct D as (_ & Hq & Eq).
  rewrite CompareTo_gt by auto. rewrite Hle.
  exists (if limit params <? eval q then UintToArith256 (powLimit params) else q). split; [reflexivity |].
  split; [destruct (_ <? _); auto |]. split; [destruct (Z.ltb_spec (limit params) (eval q)); lia |].
  intros first last' L Hh [= <-] En' HL0 HF HL HT3 HLT. change (nth_error (b :: chain) 23 = Some last) in En. assert (last' = last) as -> by congruence.
  assert (Havg : eval avg = running_average 1 0 (map target (take 24 (b :: chain)))).
  { rewrite (Hval L); [rewrite (proj2 (zero_ok 8)); reflexivity | lia | exact HL | lia | exact HF]. }
  assert (Hle' : 0 <= running_average 1 0 (map target (take 24 (b :: chain))) <= L).
  { apply running_average_bounds; [lia | lia | | right; discriminate]. apply Forall_map, Forall_forall. intros x Hx.
    split; [|rewrite Forall_forall in HF; auto]. unfold target. apply eval_bounds.
    rewrite Forall_forall in Fb. apply (proj2 (target_ok x ltac:(
      apply elem_of_take in Hx as (i & Hi & _); destruct i as [|i]; [injection Hi as <-; exact Hb | apply Fb; eapply list_elem_of_lookup_2; exact Hi]))). }
  rewrite <- Havg in *. assert (HA : 0 <= A <= 3 * T) by (unfold A, clamped_timespan; pose proof (Z.div_pos T 3); lia).
  rewrite (wrap_small 32 A) in Em, Eq by (unfold word; lia). change (modulus 8) with (2 ^ 256) in Em.
  rewrite Z.mod_small in Em by nia. rewrite Ed, Em in Eq. fold A. rewrite <- Eq.
  destruct (Z.ltb_spec (limit params) (eval q)); lia.
Qed.

(** The check of a hash against a target that decodes within the limit. *)
Lemma decoded_check c v hash params : decodes_to c v -> eval v <= limit params -> blob_ok hash -> blob_ok (powLimit params) ->
  CheckProofOfWork hash c params = true <-> 1 <= eval v /\ le_decode hash <= eval v.
Proof.
  intros [Ec Hok] Hl Hh Hp. destruct (blob_value _ Hh) as [Hok1 He1]. destruct (blob_value _ Hp) as [Hok2 He2]. fold (limit params) in He2.
  pose proof (ok_bounds _ _ Hok) as Bv. unfold CheckProofOfWork. rewrite Ec, (EqualTo_spec 8) by (auto; unfold word; lia).
  rewrite !CompareTo_gt by auto. rewrite He1, He2. cbn [orb].
  destruct (Z.eqb_spec (eval v) 0), (Z.ltb_spec (limit params) (eval v)), (Z.ltb_spec (eval v) (le_decode hash)); cbn [orb]; split; try discriminate; try lia; auto.
Qed.

(** Nothing wraps when the next target is computed from the last 24 blocks, and
    their targets are not so small that the quotient is 0. *)
Definition retarget_fits (chain : list CBlockIndex) (params : Params) : Prop :=
  let T := target_timespan params in
  match chain with
  | [] => True
  | first :: _ => 401 <= nHeight first ->
      exists lo L, Forall (fun b => lo <= target b <= L) (take 24 chain) /\ 0 <= lo /\ 25 * L < 2 ^ 256 /\ 3 * T < 2 ^ 32 /\
        L * (3 * T) < 2 ^ 256 /\ T <= lo * (T / 3)
  end.

Lemma DarkGravityWave_positive chain params v : params_ok params -> chain_ok chain -> 1 <= limit params -> retarget_fits chain params ->
  DarkGravityWave chain params = Some (GetCompact v false) -> ok256 v ->
  exists y, decodes_to (GetCompact v false) y /\ 1 <= eval y.
Proof.
  intros Hp Hc Hl Hf E Hv. destruct (DarkGravityWave_value chain params Hp Hc) as (u & Eu & Hu & _ & Hval).
  rewrite Eu in E. apply (inj Some) in E. destruct (blob_value _ (proj1 Hp)) as [Hlok Hle]. fold (limit params) in Hle.
  enough (H : exists w, GetCompact u false = GetCompact w false /\ ok256 w /\ 1 <= eval w).
  { destruct H as (w & Ew & Hw & Hw1). rewrite <- E, Ew. destruct (GetCompact_below w Hw) as (y & Hy & _ & Hy1). exists y. auto. }
  assert (Hlim : DarkGravityWave chain params = Some (GetCompact (UintToArith256 (powLimit params)) false) ->
    exists w, GetCompact u false = GetCompact w false /\ ok256 w /\ 1 <= eval w).
  { intros El. rewrite El in Eu. apply (inj Some) in Eu. exists (UintToArith256 (powLimit params)). split; [symmetry; exact Eu | split; [exact Hlok | lia]]. }
  destruct chain as [|b chain]; [apply Hlim; reflexivity |].
  destruct (Z.ltb_spec (nHeight b) 401) as [Hh|Hh].
  { apply Hlim. unfold DarkGravityWave. rewrite (proj2 (Z.ltb_lt _ _) Hh). reflexivity. }
  destruct (Hf Hh) as (lo & L & HF & Hlo & HL & HT & HLT & HlT). destruct Hc as [_ Hlen]. specialize (Hlen Hh).
  destruct (nth_error (b :: chain) 23) as [last|] eqn:En; [|apply nth_error_None in En; lia].
  exists u. split; [reflexivity |]. split; [exact Hu |].
  assert (Ha : lo <= running_average 1 0 (map target (take 24 (b :: chain))) <= L).
  { apply running_average_bounds; [lia | lia | apply Forall_map; exact HF | right; discriminate]. }
  rewrite (Hval b last L); [|lia|reflexivity|reflexivity|lia|eapply Forall_impl; [exact HF|cbn; lia]|exact HL|exact HT|exact HLT].
  destruct Hp as [_ HT0]. set (T := target_timespan params) in *. apply Z.min_glb; [exact Hl |]. apply Z.div_le_lower_bound; [lia |].
  assert (T / 3 <= clamped_timespan T (nTime b - nTime last)) by (unfold clamped_timespan; assert (T / 3 <= T) by (apply Z.div_le_upper_bound; lia); lia).
  assert (0 <= T / 3) by (apply Z.div_pos; lia). nia.
Qed.

(** C36: The difficulty adjustment stays within the network limit.  On every
    chain that is long enough its loops finish without a failed assertion or a
    division by zero, and the compact value decodes without sign or overflow to
    a number of at most [powLimit]; [CheckProofOfWork] with it accepts exactly
    the hashes up to that number if it is not 0, and no hash if it is 0.  It is
    not 0 when the limit is not and, from height 401 on, the last 24 targets are
    such that no product wraps and the quotient is at least 1. *)
Theorem next_work_within_limit chain pblockTime params : params_ok params -> chain_ok chain -> chain <> [] ->
  exists c v, GetNextWorkRequired chain pblockTime params = Some c /\ decodes_to c v /\ eval v <= limit params /\
    (forall hash, blob_ok hash -> CheckProofOfWork hash c params = true <-> 1 <= eval v /\ le_decode hash <= eval v) /\
    (1 <= limit params -> retarget_fits chain params -> 1 <= eval v).
Proof.
  intros Hp Hc Hne. destruct (DarkGravityWave_value chain params Hp Hc) as (v & E & Hok & Hle & _).
  destruct (blob_value _ (proj1 Hp)) as [Hlok Hl]. fold (limit params) in Hl.
  destruct (GetCompact_below v Hok) as (y & Hy & Hyv & _). destruct (GetCompact_below _ Hlok) as (z & Hz & Hzl & Hz1).
  assert (Hdgw : 1 <= limit params -> retarget_fits chain params -> 1 <= eval y).
  { intros Hl1 Hf. destruct (DarkGravityWave_positive chain params v Hp Hc Hl1 Hf E Hok) as (y' & [Ey _] & Hy'). destruct Hy as [Ey2 _]. congruence. }
  assert (Hd : forall c u, decodes_to c u -> eval u <= limit params -> forall hash, blob_ok hash ->
    CheckProofOfWork hash c params = true <-> 1 <= eval u /\ le_decode hash <= eval u) by (intros; apply decoded_check; auto; apply Hp).
  rewrite Hl in Hzl, Hz1. assert (Hyl : eval y <= limit params) by lia.
  unfold GetNextWorkRequired. destruct (fPowNoRetargeting params); [exists (GetCompact (UintToArith256 (powLimit params)) false), z; split_and!; auto; apply Hz |].
  destruct (fPowAllowMinDifficultyBlocks params); [|exists (GetCompact v false), y; split_and!; auto; apply Hy].
  destruct chain as [|b chain]; [congruence |].
  destruct (_ && _); [exists (GetCompact (UintToArith256 (powLimit params)) false), z; split_and!; auto; apply Hz | exists (GetCompact v false), y; split_and!; auto; apply Hy].
Qed.

(** Thirty blocks with the same target, [spacing] seconds apart. *)
Definition sample_block (bits spacing : Z) (i : nat) : CBlockIndex :=
  {| nHeight := 500 - Z.of_nat i; nTime := 1600000000 - spacing * Z.of_nat i; nBits := bits |}.
Definition sample_chain (bits spacing : Z) : list CBlockIndex := map (sample_block bits spacing) (seq 0 30).

Lemma main_params_ok : params_ok main_params.
Proof.
  split; [split; [reflexivity | cbn; repeat constructor; unfold word; lia] |]. vm_compute. split; reflexivity.
Qed.

Lemma sample_chain_ok bits spacing : word 32 bits -> 0 <= spacing <= 1000 -> chain_ok (sample_chain bits spacing).
Proof.
  intros Hb Hs. split; [|intros _; unfold sample_chain; rewrite length_map, length_seq; lia].
  unfold sample_chain. apply Forall_map, Forall_forall. intros i Hi. apply elem_of_seq in Hi.
  split; cbn [sample_block nBits nTime]; [exact Hb | unfold word; nia].
Qed.

Lemma sample_targets : Forall (fun b => 0xffff * 2 ^ 208 <= target b <= 0xffff * 2 ^ 208) (take 24 (sample_chain 0x1d00ffff 100)).
Proof.
  apply Forall_take, Forall_map, Forall_forall. intros i _.
  replace (target (sample_block 0x1d00ffff 100 i)) with (0xffff * 2 ^ 208) by (vm_compute; reflexivity). lia.
Qed.

Lemma next_work_within_limit_witness : params_ok main_params /\ chain_ok (sample_chain 0x1d00ffff 100) /\
  exists c v, GetNextWorkRequired (sample_chain 0x1d00ffff 100) 1600000100 main_params = Some c /\
    decodes_to c v /\ 1 <= eval v <= limit main_params.
Proof.
  assert (Hc : chain_ok (sample_chain 0x1d00ffff 100)) by (apply sample_chain_ok; [unfold word|]; lia).
  split; [exact main_params_ok |]. split; [exact Hc |].
  destruct (next_work_within_limit (sample_chain 0x1d00ffff 100) 1600000100 main_params main_params_ok Hc ltac:(discriminate)) as (c & v & H1 & H2 & H3 & _ & H4).
  exists c, v. split; [exact H1 |]. split; [exact H2 |]. split; [|exact H3]. apply H4; [vm_compute; discriminate |].
  intros _. exists (0xffff * 2 ^ 208), (0xffff * 2 ^ 208). split; [exact sample_targets |]. vm_compute. repeat split; discriminate.
Defined.

(** A chain of 30 blocks with the target 2^244, the last 24 of them in 4096
    seconds, on the main network: the average times 4096 is 2^256, which wraps to
    0, and the next target is 0, which no block can meet. *)
Definition wrapping_chain : list CBlockIndex :=
  map (fun i => {| nHeight := 500 - Z.of_nat i; nTime := if (i <? 23)%nat then 1600004096 else 1600000000; nBits := 0x1f100000 |}) (seq 0 30).

Theorem next_work_can_be_zero : chain_ok wrapping_chain /\
  GetNextWorkRequired wrapping_chain 1600004246 main_params = Some 0 /\
  forall hash, CheckProofOfWork hash 0 main_params = false.
Proof.
  split; [|split; [vm_compute; reflexivity | intros hash; unfold CheckProofOfWork; vm_compute; reflexivity]].
  split; [|intros _; cbn; lia]. unfold wrapping_chain. apply Forall_map, Forall_forall. intros i _. split; cbn [nBits nTime]; [unfold word; lia |].
  destruct (i <? 23)%nat; unfold word; lia.
Qed.

(** While the 24 past targets are at most [L], with 25 L and 3 L T below
    2^256 for the target timespan T, the new target is exactly the running
    average of the past targets times the actual timespan, limited to between
    T/3 and 3 T, divided by T, and limited to [powLimit]; the average lies
    between the smallest and the largest past target. *)
Theorem retarget_exact chain params first last lo L : params_ok params -> chain_ok chain ->
  head chain = Some first -> 401 <= nHeight first -> nth_error chain 23 = Some last ->
  Forall (fun b => lo <= target b <= L) (take 24 chain) -> 0 <= lo ->
  let T := target_timespan params in
  25 * L < 2 ^ 256 -> 3 * T < 2 ^ 32 -> 3 * T * L < 2 ^ 256 ->
  let avg := running_average 1 0 (map target (take 24 chain)) in
  lo <= avg <= L /\
  exists v, DarkGravityWave chain params = Some (GetCompact v false) /\ ok256 v /\
    eval v = Z.min (limit params) (avg * clamped_timespan T (nTime first - nTime last) / T).
Proof.
  intros Hp Hc Hf Hh Hl HF Hlo T HL HT HLT avg.
  assert (Ha : lo <= avg <= L).
  { apply running_average_bounds; [lia | lia | apply Forall_map; exact HF |]. right.
    destruct chain; [discriminate | discriminate]. }
  split; [exact Ha |]. destruct (DarkGravityWave_value chain params Hp Hc) as (v & E & Hok & _ & H).
  exists v. split; [exact E |]. split; [exact Hok |]. apply (H first last L); try assumption; try lia.
  eapply Forall_impl; [exact HF |]. cbn. intros; lia.
Qed.

Lemma retarget_exact_witness :
  Forall (fun b => 0xffff * 2 ^ 208 <= target b <= 0xffff * 2 ^ 208) (take 24 (sample_chain 0x1d00ffff 100)) /\
  exists v, DarkGravityWave (sample_chain 0x1d00ffff 100) main_params = Some (GetCompact v false) /\
    eval v = 0xffff * 2 ^ 208 * 2300 / 3600.
Proof.
  pose proof sample_targets as HF.
  split; [exact HF |].
  destruct (retarget_exact (sample_chain 0x1d00ffff 100) main_params (sample_block 0x1d00ffff 100 0) (sample_block 0x1d00ffff 100 23)
    (0xffff * 2 ^ 208) (0xffff * 2 ^ 208) main_params_ok (sample_chain_ok 0x1d00ffff 100 ltac:(unfold word; lia) ltac:(lia)) eq_refl)
    as (_ & v & E & _ & Hv); [vm_compute; discriminate | reflexivity | exact HF | lia | reflexivity | reflexivity | reflexivity |].
  exists v. split; [exact E |]. rewrite Hv. vm_compute. reflexivity.
Defined.

(** On the main network the product of the retargeting formula does not fit
    in 256 bits near the limit: after blocks at the limit that took 3588 of
    the intended 3600 seconds, the next target is 912 times smaller than the
    limit, where the formula asks for a factor of 3588/3600. *)
Theorem retarget_wraps_at_limit :
  let chain := sample_chain 0x2000ffff 156 in
  GetCompact (UintToArith256 (powLimit main_params)) false = 0x2000ffff /\
  exists c, DarkGravityWave chain main_params = Some c /\
    eval (fst (fst (SetCompact 0x2000ffff))) / eval (fst (fst (SetCompact c))) = 912 /\
    2 ^ 256 <= eval (fst (fst (SetCompact 0x2000ffff))) * 3588.
Proof.
  cbv zeta. split; [vm_compute; reflexivity |]. eexists. split; [vm_compute; reflexivity |].
  split; [vm_compute; reflexivity | vm_compute; discriminate].
Qed.
