(* ===== verification/Mtp.v ===== *)
(** * Mtp: the Merkle tree proof

    Models crypto/MerkleTreeProof/mtp.cpp: mining ([mtp_hash1], [mtp_hash]) and
    verification ([mtp_verify]) of the proof of work, composed from the models
    of Argon2, BLAKE2b, the Merkle tree and the 256-bit integers.

    The constants [L], [M_COST] and [LANES] of the file are arguments of the
    definitions; the values of the code are [code_L], [code_M_COST] and
    [code_LANES].  Also arguments are: the constructor of
    [boost::multiprecision::uint256_t] from a string, [malloc], and the initial
    contents of local byte buffers, which the code leaves uninitialised.

    A run of Argon2 is nondeterministic (threads), so [Argon2CtxMtp],
    [mtp_hash1] and [mtp_hash] are relations; everything after the memory is
    filled is a function. *)

From S2P Require Import Prelude Words Blake2b Argon2 Argon2Core Argon2Threads Merkle Arith256.

Definition code_L : nat := 16.
Definition code_M_COST : Z := 1024 * 1024 * 4.
Definition code_LANES : Z := 4.
Definition T_COST : Z := 1.

(** ** Bytes of a block and of a hash *)

Definition StoreBlock (src : block) : list Z :=
  flat_map (fun i => store64 src.[i]) (seq 0 ARGON2_QWORDS_IN_BLOCK).

(** The digest of a block: 4-round BLAKE2b, 16 bytes. *)
Definition compute_blake2b (input : block) : list Z :=
  let tmp_block := copy_block input in
  let tmp_block_bytes := StoreBlock tmp_block in
  let state := fst (blake2b_init (Some zeroed) 16) in
  let state := fst (blake2b_4r_update state (Some tmp_block_bytes) ARGON2_BLOCK_SIZE) in
  let '(_, digest, _) := blake2b_4r_final state (Some (replicate 16 0)) 16 in
  default [] digest.

(** [base_blob::GetHex]: the characters, most significant byte first. *)
Definition hex_char (d : Z) : Z := if d <? 10 then 48 + d else 87 + d.
Definition GetHex (y : list Z) : list Z := flat_map (fun b => [hex_char (b ≫ 4); hex_char (Z.land b 15)]) (rev y).

(** y[0], the hash of the header, the root and the nonce. *)
Definition hash_y0 (input root : list Z) (nonce : Z) : list Z :=
  let state := fst (blake2b_init (Some zeroed) 32) in
  let state := fst (blake2b_update state (Some input) 80) in
  let state := fst (blake2b_update state (Some root) 16) in
  let state := fst (blake2b_update state (Some (le_encode 4 nonce)) 4) in
  let '(_, y, _) := blake2b_final state (Some (replicate 32 0)) 32 in
  default [] y.

(** y[j], the hash of y[j - 1] and the bytes of block x[ij]. *)
Definition hash_yj (y_prev : list Z) (blockhash_bytes : list Z) : list Z :=
  let ctx_yj := fst (blake2b_init (Some zeroed) 32) in
  let ctx_yj := fst (blake2b_update ctx_yj (Some y_prev) 32) in
  let ctx_yj := fst (blake2b_update ctx_yj (Some blockhash_bytes) ARGON2_BLOCK_SIZE) in
  let '(_, y, _) := blake2b_final ctx_yj (Some (replicate 32 0)) 32 in
  default [] y.

(** ** Indices *)

Definition IndexBeta (instance : argon2_instance_t) (position : argon2_position_t) (pseudo_rand : Z)
    (same_lane : bool) : Z :=
  let reference_area_size :=
    if pass position =? 0 then
      if slice position =? 0 then u32 (index position - 1)
      else if same_lane then u32 (u32 (u32 (slice position * segment_length instance) + index position) - 1)
      else u32 (u32 (slice position * segment_length instance) + (if index position =? 0 then -1 else 0))
    else if same_lane then u32 (u32 (u32 (lane_length instance - segment_length instance) + index position) - 1)
    else u32 (u32 (lane_length instance - segment_length instance) + (if index position =? 0 then -1 else 0)) in
  let relative_position := pseudo_rand in
  let relative_position := u64 (relative_position * relative_position) ≫ 32 in
  let relative_position :=
    u64 (u32 (reference_area_size - 1) - (u64 (reference_area_size * relative_position) ≫ 32)) in
  let start_position :=
    if negb (pass position =? 0) then
      if slice position =? ARGON2_SYNC_POINTS - 1 then 0 else u32 ((slice position + 1) * segment_length instance)
    else 0 in
  let absolute_position := u64 (start_position + relative_position) mod lane_length instance in
  u32 absolute_position.

(** The index before [ij] in its lane. *)
Definition index_before (ij lane_length : Z) : Z :=
  let ij_prev := if ij mod lane_length =? 0 then u32 (u32 (ij + lane_length) - 1) else u32 (ij - 1) in
  if ij mod lane_length =? 1 then u32 (ij - 1) else ij_prev.

(** The reference of block [ij], from the first word of the block before it. *)
Definition computed_ref_block (segment_length lane_length lanes ij prev_block_opening : Z) : Z :=
  let ref_lane := u32 ((prev_block_opening ≫ 32) mod lanes) in
  let pseudo_rand := u32 (Z.land prev_block_opening 0xFFFFFFFF) in
  let lane := ij / lane_length in
  let slice := u32 (ij - u32 (lane * lane_length)) / segment_length in
  let pos_index := u32 (u32 (ij - u32 (lane * lane_length)) - u32 (slice * segment_length)) in
  let ref_lane := if slice =? 0 then lane else ref_lane in
  let position := mk_position 0 lane (u8 slice) pos_index in
  (* only these two fields of the instance are read *)
  let instance := mk_instance 0 0 0 segment_length lane_length 0 0 Argon2_d [] in
  let ref_index := IndexBeta instance position pseudo_rand (ref_lane =? lane) in
  u32 (u32 (lane_length * ref_lane) + ref_index).

Definition GetBlockIndex (ij : Z) (instance : argon2_instance_t) (memory : list block) : Z * Z :=
  let ij_prev := index_before ij (lane_length instance) in
  let prev_block_opening := (block_at memory ij_prev).[0] in
  (ij_prev, computed_ref_block (segment_length instance) (lane_length instance) (lanes instance) ij prev_block_opening).

(** ** The target *)

(** The condition that rejects a hash [y] in [mtp_verify] and in [mtp_hash1]. *)
Definition hash_rejected (target : Z) (pow_limit y : list Z) : bool :=
  let '(bn_target, negative, overflow) := SetCompact target in
  negative || EqualTo bn_target 0 || overflow ||
  (0 <? CompareTo bn_target (UintToArith256 pow_limit)) ||
  (0 <? CompareTo (UintToArith256 y) bn_target).

Section mtp.
Context (L : nat) (M_COST LANES : Z).
Context (uint256_t : list Z -> Z) (malloc : allocator).
Context (h0_garbage blockhash_garbage bytes_garbage : list Z).

(** ** The Argon2 instance *)

(** The output buffer is neither read nor written. *)
Definition make_context (input : list Z) : argon2_context :=
  mk_argon2_context (Some (replicate 32 0)) 32 (Some (take 80 input)) 80 (Some (take 80 input)) 80
    None 0 None 0 T_COST M_COST LANES LANES ARGON2_VERSION_13 false false 0.

Definition make_instance (context : argon2_context) : argon2_instance_t :=
  let memory_blocks := m_cost context in
  let memory_blocks :=
    if memory_blocks <? u32 (2 * ARGON2_SYNC_POINTS * ctx_lanes context)
    then u32 (2 * ARGON2_SYNC_POINTS * ctx_lanes context) else memory_blocks in
  let segment_length := memory_blocks / u32 (ctx_lanes context * ARGON2_SYNC_POINTS) in
  let threads := if ctx_lanes context <? ctx_threads context then ctx_lanes context else ctx_threads context in
  mk_instance (ctx_version context) (t_cost context) (m_cost context) segment_length
    (u32 (segment_length * ARGON2_SYNC_POINTS)) (ctx_lanes context) threads Argon2_d h0_garbage.

(** The possible results of [Argon2CtxMtp]: the return code, the instance and
    the memory it points to.  The check of [type] passes for every value of the
    enumeration. *)
Inductive Argon2CtxMtp (context : argon2_context) (instance : argon2_instance_t) :
    argon2_error_codes -> argon2_instance_t -> option (list block) -> Prop :=
  | ctx_invalid : validate_inputs (Some context) <> ARGON2_OK ->
      Argon2CtxMtp context instance (validate_inputs (Some context)) instance None
  | ctx_no_memory res : validate_inputs (Some context) = ARGON2_OK ->
      res = initialize true malloc malloc blockhash_garbage bytes_garbage (Some instance) None (Some context) ->
      init_code res <> ARGON2_OK ->
      Argon2CtxMtp context instance (init_code res) (default instance (init_instance res)) (init_memory res)
  | ctx_filled res inst mem rc mem' : validate_inputs (Some context) = ARGON2_OK ->
      res = initialize true malloc malloc blockhash_garbage bytes_garbage (Some instance) None (Some context) ->
      init_code res = ARGON2_OK -> init_instance res = Some inst -> init_memory res = Some mem ->
      fill_memory_blocks_mtp mem (Some inst) rc mem' ->
      Argon2CtxMtp context instance rc inst (Some mem').

(** [numeric_cast<uint32_t>(t % M_COST)]. *)
Definition index_of (y : list Z) : Z := uint256_t ([48; 120] ++ GetHex y) mod M_COST.

(** ** Verification *)

(** A failed check makes the function return false: [Some None]; [None] is an
    undefined operation. *)
Definition check_opening {A} (c : option bool) (k : option (option A)) : option (option A) :=
  match c with None => None | Some false => Some None | Some true => k end.

(** Iteration [j] of step 8: from y[j - 1] to y[j]. *)
Definition verify_step (h0 root : list Z) (block_mtp : list block) (proof_mtp : list Elements)
    (j : nat) (y : list Z) : option (option (list Z)) :=
  let ij := index_of y in
  let prev_block := copy_block (nth (j * 2 - 2) block_mtp []) in
  let ref_block := copy_block (nth (j * 2 - 1) block_mtp []) in
  let memory_blocks_2 :=
    if M_COST <? 2 * ARGON2_SYNC_POINTS * LANES then 2 * ARGON2_SYNC_POINTS * LANES else M_COST in
  let segment_length_2 := memory_blocks_2 / (LANES * ARGON2_SYNC_POINTS) in
  let lane_length := u32 (segment_length_2 * ARGON2_SYNC_POINTS) in
  let ij_prev := index_before ij lane_length in
  let hash_prev := compute_blake2b prev_block in
  check_opening (checkProofOrdered (nth (j * 3 - 2) proof_mtp []) root hash_prev (u32 (ij_prev + 1))) (
  let ref := computed_ref_block segment_length_2 lane_length LANES ij prev_block.[0] in
  let hash_ref := compute_blake2b ref_block in
  check_opening (checkProofOrdered (nth (j * 3 - 1) proof_mtp []) root hash_ref (u32 (ref + 1))) (
  let block_ij := fill_block_mtp (copy_block (nth (j * 2 - 2) block_mtp [])) (copy_block (nth (j * 2 - 1) block_mtp []))
                    [] false ref h0 in
  let hash_ij := compute_blake2b block_ij in
  check_opening (checkProofOrdered (nth (j * 3 - 3) proof_mtp []) root hash_ij (u32 (ij + 1)))
    (Some (Some (hash_yj y (StoreBlock (copy_block block_ij))))))).

Fixpoint verify_loop (h0 root : list Z) (block_mtp : list block) (proof_mtp : list Elements)
    (js : list nat) (y : list Z) : option (option (list Z)) :=
  match js with
  | [] => Some (Some y)
  | j :: js =>
      match verify_step h0 root block_mtp proof_mtp j y with
      | Some (Some y) => verify_loop h0 root block_mtp proof_mtp js y
      | r => r
      end
  end.

(** The result and, if it was reached, the value stored at [mtpHashValue]. *)
Definition mtp_verify (input : list Z) (target : Z) (hash_root_mtp : list Z) (nonce : Z)
    (block_mtp : list block) (proof_mtp : list Elements) (pow_limit : list Z) : option (bool * option (list Z)) :=
  let root := take 16 hash_root_mtp in
  let context_verify := make_context input in
  let instance := make_instance context_verify in
  let y0 := hash_y0 input hash_root_mtp nonce in
  let h0 := default [] (fst (initial_hash (Some h0_garbage) (Some context_verify) (type instance))) in
  match verify_loop h0 root block_mtp proof_mtp (seq 1 L) y0 with
  | None => None
  | Some None => Some (false, None)
  | Some (Some y) => Some (negb (hash_rejected target pow_limit y), Some y)
  end.

(** ** Mining *)

(** Step 2: the elements of the Merkle tree. *)
Definition tree_elements (instance : argon2_instance_t) (memory : list block) : Elements :=
  map (fun i => compute_blake2b (block_at memory i)) (seqZ 0 (memory_blocks instance)).

(** The arrays [blocks] and [proof_blocks] live across the attempts. *)
Record mining_arrays := mk_arrays { blocks : list block; proof_blocks : list Elements }.

(** How an attempt ends: with all the y's computed, skipped ([init_blocks]), or
    by an exception of the Merkle tree. *)
Inductive attempt_result :=
  | Chained (y : list Z) (arrays : mining_arrays)
  | InitBlocks (arrays : mining_arrays)
  | Thrown (e : merkle_error).

(** Iteration [j] of step 5. *)
Definition mine_step (instance : argon2_instance_t) (memory : list block) (tree : MerkleTree)
    (j : nat) (y : list Z) (a : mining_arrays) : attempt_result :=
  let ij := index_of y in
  let except_index := M_COST / LANES in
  if (ij mod except_index =? 0) || (ij mod except_index =? 1) then InitBlocks a else
  let y := hash_yj y (StoreBlock (copy_block (block_at memory ij))) in
  let '(prev_index, ref_index) := GetBlockIndex ij instance memory in
  let bs := <[(j * 2 - 2)%nat := copy_block (block_at memory prev_index)]> (blocks a) in
  let bs := <[(j * 2 - 1)%nat := copy_block (block_at memory ref_index)]> bs in
  let hash_curr := compute_blake2b (block_at memory ij) in
  match getProofOrdered tree hash_curr (Z.to_nat (u32 (ij + 1))) with
  | inr e => Thrown e
  | inl proof_curr =>
      let ps := <[(j * 3 - 3)%nat := proof_curr]> (proof_blocks a) in
      let hash_prev := compute_blake2b (block_at memory prev_index) in
      match getProofOrdered tree hash_prev (Z.to_nat (u32 (prev_index + 1))) with
      | inr e => Thrown e
      | inl proof_prev =>
          let ps := <[(j * 3 - 2)%nat := proof_prev]> ps in
          let hash_ref := compute_blake2b (block_at memory ref_index) in
          match getProofOrdered tree hash_ref (Z.to_nat (u32 (ref_index + 1))) with
          | inr e => Thrown e
          | inl proof_ref => Chained y (mk_arrays bs (<[(j * 3 - 1)%nat := proof_ref]> ps))
          end
      end
  end.

Fixpoint mine_chain (instance : argon2_instance_t) (memory : list block) (tree : MerkleTree)
    (js : list nat) (y : list Z) (a : mining_arrays) : attempt_result :=
  match js with
  | [] => Chained y a
  | j :: js =>
      match mine_step instance memory tree j y a with
      | Chained y a => mine_chain instance memory tree js y a
      | r => r
      end
  end.

(** [memset(&blocks[0], 0, sizeof(sizeof(block) * L * 2))]: eight bytes. *)
Definition memset_blocks (bs : list block) : list block :=
  match bs with [] => [] | b :: bs => <[0%nat := 0]> b :: bs end.

(** What [mtp_hash1] leaves in its output arguments when it returns true. *)
Record mtp_output := mk_output {
  out_root : list Z; out_nonce : Z; out_blocks : list block; out_proofs : list Elements; out_hash : list Z }.

Inductive hash1_result :=
  | Hash1Done (o : mtp_output)
  | Hash1NewTree                       (* returns false *)
  | Hash1Throws (e : merkle_error)
  | Hash1NullMemory.                   (* dereferences instance.memory, a null pointer *)

(** The body of the loop over nonces: an output, an exception, or the arrays
    for the next nonce. *)
Definition mine_attempt (input root : list Z) (target : Z) (pow_limit : list Z) (instance : argon2_instance_t)
    (memory : list block) (tree : MerkleTree) (n_nonce_internal : Z) (a : mining_arrays)
  : hash1_result + mining_arrays :=
  let a := mk_arrays (memset_blocks (blocks a)) (proof_blocks a) in
  match mine_chain instance memory tree (seq 1 L) (hash_y0 input root n_nonce_internal) a with
  | Thrown e => inl (Hash1Throws e)
  | InitBlocks a => inr a
  | Chained y a =>
      if hash_rejected target pow_limit y then inr a
      else inl (Hash1Done (mk_output root n_nonce_internal (blocks a) (proof_blocks a) y))
  end.

(** [p] consecutive attempts, from nonce [n] on. *)
Fixpoint mine_search (attempt : Z -> mining_arrays -> hash1_result + mining_arrays) (p : positive) (n : Z) (a : mining_arrays)
  : hash1_result + mining_arrays :=
  match p with
  | xH => attempt n a
  | xO p =>
      match mine_search attempt p n a with
      | inl r => inl r
      | inr a => mine_search attempt p (n + Zpos p) a
      end
  | xI p =>
      match attempt n a with
      | inl r => inl r
      | inr a =>
          match mine_search attempt p (n + 1) a with
          | inl r => inl r
          | inr a => mine_search attempt p (n + 1 + Zpos p) a
          end
      end
  end.

Definition UINT_MAX : positive := 4294967295.

(** Steps 2 to 7, on the filled memory; [a] is the initial contents of the
    local arrays.  The nonces tried are 0 to UINT_MAX - 1. *)
Definition mtp_hash1_from (input : list Z) (target : Z) (pow_limit : list Z) (instance : argon2_instance_t)
    (memory : list block) (a : mining_arrays) : hash1_result :=
  match new_MerkleTree (tree_elements instance memory) true with
  | inr e => Hash1Throws e
  | inl ordered_tree =>
      let root := getRoot ordered_tree in
      match mine_search (mine_attempt input root target pow_limit instance memory ordered_tree) UINT_MAX 0 a with
      | inl r => r
      | inr _ => Hash1NewTree
      end
  end.

(** The possible results of [mtp_hash1], with the return code of Argon2, which
    the code ignores. *)
Inductive mtp_hash1 (input : list Z) (target : Z) (pow_limit : list Z) : argon2_error_codes -> hash1_result -> Prop :=
  | hash1_null code inst :
      Argon2CtxMtp (make_context input) (make_instance (make_context input)) code inst None ->
      mtp_hash1 input target pow_limit code Hash1NullMemory
  | hash1_runs code inst memory a :
      Argon2CtxMtp (make_context input) (make_instance (make_context input)) code inst (Some memory) ->
      length (blocks a) = (L * 2)%nat -> length (proof_blocks a) = (L * 3)%nat ->
      mtp_hash1 input target pow_limit code (mtp_hash1_from input target pow_limit inst memory a).

(** The possible outputs of [mtp_hash], with the code of the last Argon2 run:
    repeat [mtp_hash1] until it returns true. *)
Inductive mtp_hash (input : list Z) (target : Z) (pow_limit : list Z) : argon2_error_codes -> mtp_output -> Prop :=
  | hash_done code o : mtp_hash1 input target pow_limit code (Hash1Done o) -> mtp_hash input target pow_limit code o
  | hash_again code code' o : mtp_hash1 input target pow_limit code Hash1NewTree ->
      mtp_hash input target pow_limit code' o -> mtp_hash input target pow_limit code' o.
End mtp.
