(* ===== verification/MtpCorrect.v ===== *)
(** * MtpCorrect: what the miner finds, the verifier accepts

    A successful Argon2 run leaves the sequential one-pass memory, in which
    every opened block is the compression of the two blocks the proof carries;
    so the output of [mtp_hash1] passes [mtp_verify].

    [IndexBeta] is [index_alpha]; the reference that [GetBlockIndex] and
    [mtp_verify] compute for a block is the one [fill_segment_mtp] used; the
    digests are well-formed elements of the tree. *)

From S2P Require Import Prelude Words Blake2b Blake2Spec Blake2bCorrect Blake2bHash Argon2 Argon2Core Argon2Threads Argon2Index Argon2ThreadsCorrect Argon2Init Argon2Blocks Merkle MerkleCorrect Arith256 Mtp.

(** ** Indices *)

Lemma IndexBeta_alpha inst pos pr same : IndexBeta inst pos pr same = index_alpha inst pos pr same.
Proof.
  unfold IndexBeta, index_alpha, reference_area_size, start_position, relative_position.
  rewrite (Z.eqb_sym 0 (pass pos)), (Z.eqb_sym 0 (slice pos)). reflexivity.
Qed.

Section geometry.
Context (inst : argon2_instance_t) (HI : instance_ok inst).
Abbreviation Ln := (lane_length inst).
Abbreviation seg := (segment_length inst).

Lemma at_lane_div l j : 0 <= j < Ln -> at_lane inst l j / Ln = l.
Proof. intros Hj. unfold at_lane. rewrite Z.div_add_l by lia. rewrite Z.div_small by lia. lia. Qed.

Lemma index_before_prev l j : 0 <= l < lanes inst -> 1 <= j < Ln ->
  index_before (at_lane inst l j) Ln = at_lane inst l (j - 1).
Proof.
  intros Hl Hj. pose proof (at_lane_bounds inst HI l j Hl ltac:(lia)) as [B1 B2]. unfold index_before.
  rewrite at_lane_mod by lia. unfold at_lane in *. assert (0 <= l * Ln) by nia.
  destruct (Z.eqb_spec j 0); [lia |]. destruct (Z.eqb_spec j 1); unwrap; lia.
Qed.

Lemma computed_ref_ref l j pr : 0 <= l < lanes inst -> 2 <= j < Ln -> word 64 pr ->
  computed_ref_block seg Ln (lanes inst) (at_lane inst l j) pr = ref_of inst (place inst l j) (j mod seg) pr.
Proof.
  intros Hl Hj Hpr. pose proof (geometry inst HI) as (G1 & G2 & G3). pose proof HI as [Hseg _ _ Hsz].
  pose proof (at_lane_bounds inst HI l j Hl ltac:(lia)) as [B1 B2]. assert (Hln : lanes inst < 2 ^ 32) by nia.
  unfold computed_ref_block. rewrite at_lane_div by lia.
  assert (E1 : u32 (at_lane inst l j - u32 (l * Ln)) = j) by (unfold at_lane in *; unwrap; nia).
  rewrite E1. set (s := j / seg). set (i := j mod seg).
  assert (Ej : j = seg * s + i) by (apply Z.div_mod; lia).
  assert (Hi : 0 <= i < seg) by (apply Z.mod_pos_bound; lia).
  assert (Hs : 0 <= s < 4) by (unfold s; split; [apply Z.div_pos; lia | apply Z.div_lt_upper_bound; lia]).
  assert (E2 : u32 (j - u32 (s * seg)) = i) by (unwrap; nia). rewrite E2.
  rewrite (wrap_small 8 s) by (unfold word; lia).
  assert (Hrl : 0 <= (pr ≫ 32) mod lanes inst < lanes inst) by (apply Z.mod_pos_bound; lia).
  rewrite (wrap_small 32 ((pr ≫ 32) mod lanes inst)) by (unfold word; lia).
  assert (Hand : 0 <= Z.land pr 0xFFFFFFFF < 2 ^ 32).
  { replace 0xFFFFFFFF with (Z.ones 32) by reflexivity. rewrite Z.land_ones by lia. apply Z.mod_pos_bound. lia. }
  rewrite (wrap_small 32 (Z.land pr 0xFFFFFFFF)) by exact Hand.
  rewrite IndexBeta_alpha. unfold ref_of, ref_lane_of, place. cbn [pass slice lane]. cbn [Z.eqb andb]. fold s i.
  set (rl := if s =? 0 then l else (pr ≫ 32) mod lanes inst).
  assert (Hrl' : 0 <= rl < lanes inst) by (unfold rl; destruct (s =? 0); lia).
  set (inst' := mk_instance 0 0 0 seg Ln 0 0 Argon2_d []).
  change (index_alpha inst' (mk_position 0 l s i) (Z.land pr 0xFFFFFFFF) (rl =? l))
    with (index_alpha inst (mk_position 0 l s i) (Z.land pr 0xFFFFFFFF) (rl =? l)).
  pose proof (index_alpha_range inst (mk_position 0 l s i) (Z.land pr 0xFFFFFFFF) (rl =? l) HI) as Hx.
  pose proof (at_lane_bounds inst HI rl _ Hrl' Hx) as [B3 _]. unfold at_lane in *. rewrite (Z.mul_comm Ln).
  unwrap; nia.
Qed.
End geometry.

(** ** Digests *)

Lemma StoreBlock_bytes b : Forall byte (StoreBlock b) /\ length (StoreBlock b) = 1024%nat.
Proof. apply store_block_bytes. Qed.

(** The streaming calls of [compute_blake2b] on any kilobyte. *)
Definition digest16 (msg : list Z) : list Z :=
  let state := fst (blake2b_init (Some zeroed) 16) in
  let state := fst (blake2b_4r_update state (Some msg) ARGON2_BLOCK_SIZE) in
  default [] (snd (fst (blake2b_4r_final state (Some (replicate 16 0)) 16))).

Lemma digest16_spec msg : Forall byte msg -> length msg = 1024%nat -> digest16 msg = Blake2Spec.hash 4 16 [] msg.
Proof.
  intros Hb Hl. unfold digest16.
  destruct (blake2b_init_represents 4 zeroed 16 ltac:(lia)) as (st & -> & Hr). cbn [fst].
  destruct (readable_list msg Hb) as [Hrd Hs]; [lia |].
  rewrite Hl in Hrd, Hs. change (Z.of_nat 1024) with ARGON2_BLOCK_SIZE in Hrd, Hs.
  destruct (update_readable blake2b_4r_compress 4 _ 16 st [] _ _ (init_chain_length 16 0) Hr (Forall_nil_2 _) Hrd)
    as (st1 & E & Hr1). unfold blake2b_4r_update. rewrite E. cbn [fst]. rewrite Hs in Hr1. cbn [app] in Hr1.
  destruct (final_digest blake2b_4r_compress 4 _ 16 (init_chain_length 16 0) st1 _ (replicate 16 0) 16 Hr1 Hb ltac:(lia))
    as (st2 & E2 & _). unfold blake2b_4r_final. rewrite E2. cbn [from_option id fst snd].
  apply memcpy_all. exact (hash_length 4 16 [] msg ltac:(lia)).
Qed.

Lemma compute_blake2b_digest b : compute_blake2b b = digest16 (StoreBlock (copy_block b)).
Proof. unfold compute_blake2b, digest16. destruct (blake2b_4r_final _ _ _) as [[? ?] ?]. reflexivity. Qed.

Lemma compute_blake2b_spec b : compute_blake2b b = Blake2Spec.hash 4 16 [] (StoreBlock (copy_block b)).
Proof.
  destruct (StoreBlock_bytes (copy_block b)) as [Hb Hl]. rewrite compute_blake2b_digest. apply digest16_spec; auto.
Qed.

Lemma digest_ok b : element_ok (compute_blake2b b).
Proof.
  rewrite compute_blake2b_spec. split; [apply Nat2Z.inj; rewrite hash_length; [reflexivity | lia] | apply hash_bytes].
Qed.

(** Any sequence of readable chunks, as in the hashes y[0] and y[j]. *)
Lemma chunk_updates_represent chunks st msg :
  represents 12 (init_chain 32 0) 32 st msg -> Forall byte msg -> Forall (fun c => readable (Some (fst c)) (snd c)) chunks ->
  exists st', fold_left (fun s c => fst (blake2b_update s (Some (fst c)) (snd c))) chunks (Some st) = Some st' /\
    represents 12 (init_chain 32 0) 32 st' (msg ++ concat (map (fun c => Blake2bHash.slice (Some (fst c)) (snd c)) chunks)) /\
    Forall byte (msg ++ concat (map (fun c => Blake2bHash.slice (Some (fst c)) (snd c)) chunks)).
Proof.
  intros Hr Hm Hc. revert st msg Hr Hm. induction Hc as [|[d n] cs Hd _ IH]; intros st msg Hr Hm; cbn [fold_left map concat].
  - exists st. rewrite app_nil_r. auto.
  - cbn [fst snd] in *. destruct (update_readable blake2b_compress 12 _ 32 st msg _ _ (init_chain_length 32 0) Hr Hm Hd) as (st1 & E & Hr1).
    unfold blake2b_update at 2. rewrite E. cbn [fst]. destruct (IH st1 _ Hr1) as (st' & E' & Hr' & Hm');
      [apply Forall_app; split; [exact Hm | exact (proj2 (proj2 Hd))] |].
    exists st'. rewrite app_assoc. auto.
Qed.

Definition chunks_digest (chunks : list (list Z * Z)) : list Z :=
  default [] (snd (fst (blake2b_final (fold_left (fun s c => fst (blake2b_update s (Some (fst c)) (snd c))) chunks
    (fst (blake2b_init (Some zeroed) 32))) (Some (replicate 32 0)) 32))).

Lemma chunks_digest_spec chunks : Forall (fun c => readable (Some (fst c)) (snd c)) chunks ->
  chunks_digest chunks = Blake2Spec.hash 12 32 [] (concat (map (fun c => Blake2bHash.slice (Some (fst c)) (snd c)) chunks)).
Proof.
  intros Hc. unfold chunks_digest.
  destruct (blake2b_init_represents 12 zeroed 32 ltac:(lia)) as (st & -> & Hr). cbn [fst].
  destruct (chunk_updates_represent chunks st [] Hr (Forall_nil_2 _) Hc) as (st' & -> & Hr' & Hm'). cbn [app] in Hr', Hm'.
  destruct (final_digest blake2b_compress 12 _ 32 (init_chain_length 32 0) st' _ (replicate 32 0) 32 Hr' Hm' ltac:(lia))
    as (st2 & E2 & _). unfold blake2b_final. rewrite E2. cbn [from_option id fst snd].
  apply memcpy_all. exact (hash_length 12 32 [] _ ltac:(lia)).
Qed.

Lemma readable_exact d n : Forall byte d -> Z.of_nat (length d) = n -> n < 2 ^ 63 -> readable (Some d) n /\ Blake2bHash.slice (Some d) n = d.
Proof. intros Hb <- Hn. apply readable_list; auto. Qed.

(** y[0] and y[j] are BLAKE2b digests of the concatenations. *)
Lemma hash_y0_spec input root nonce : (80 <= length input)%nat -> Forall byte input -> element_ok root ->
  hash_y0 input root nonce = Blake2Spec.hash 12 32 [] (take 80 input ++ root ++ le_encode 4 nonce).
Proof.
  intros Hl Hb [Rl Rb].
  assert (R1 : readable (Some input) 80) by (split_and!; [lia | lia | cbn; lia | apply Forall_take; exact Hb]).
  assert (S1 : Blake2bHash.slice (Some input) 80 = take 80 input) by reflexivity.
  destruct (readable_exact root 16 Rb) as [R2 S2]; [lia | lia |].
  destruct (readable_exact (le_encode 4 nonce) 4 (le_encode_bytes 4 nonce)) as [R3 S3]; [reflexivity | lia |].
  pose proof (chunks_digest_spec [(input, 80); (root, 16); (le_encode 4 nonce, 4)]) as H.
  cbn [map concat fst snd] in H. rewrite S1, S2, S3, app_nil_r in H. rewrite <- H by repeat (constructor; auto).
  unfold hash_y0, chunks_digest. cbn [fold_left fst snd]. destruct (blake2b_final _ _ _) as [[? ?] ?]. reflexivity.
Qed.

Lemma hash_yj_spec y bytes : length y = 32%nat -> Forall byte y -> length bytes = 1024%nat -> Forall byte bytes ->
  hash_yj y bytes = Blake2Spec.hash 12 32 [] (y ++ bytes).
Proof.
  intros Hl Hb Bl Bb. destruct (readable_exact y 32 Hb) as [R1 S1]; [lia | lia |].
  destruct (readable_exact bytes ARGON2_BLOCK_SIZE Bb) as [R2 S2]; [rewrite Bl; reflexivity | reflexivity |].
  pose proof (chunks_digest_spec [(y, 32); (bytes, ARGON2_BLOCK_SIZE)]) as H.
  cbn [map concat fst snd] in H. rewrite S1, S2, app_nil_r in H. rewrite <- H by repeat (constructor; auto).
  unfold hash_yj, chunks_digest. cbn [fold_left fst snd]. destruct (blake2b_final _ _ _) as [[? ?] ?]. reflexivity.
Qed.

Lemma hash32_ok msg : length (Blake2Spec.hash 12 32 [] msg) = 32%nat /\ Forall byte (Blake2Spec.hash 12 32 [] msg).
Proof. split; [apply Nat2Z.inj; rewrite hash_length; [reflexivity | lia] | apply hash_bytes]. Qed.

(** ** The seed *)

(** Only the first 32 bytes of the seed go into a block. *)
Lemma fill_block_mtp_seed prev ref next b i h h' : take 32 h = take 32 h' ->
  fill_block_mtp prev ref next b i h = fill_block_mtp prev ref next b i h'.
Proof.
  intros E. assert (F : forall (g : list Z) n, (n + 8 <= 32)%nat -> take 8 (drop n g) = drop n (take (n + 8) (take 32 g))).
  { intros g n Hn. rewrite take_take, take_drop_commute. do 2 f_equal. lia. }
  unfold fill_block_mtp. rewrite <- (drop_0 h), <- (drop_0 h'). rewrite !drop_drop.
  rewrite !F, E by (cbn; lia). reflexivity.
Qed.

Lemma H0_bytes ctx ty : Forall byte (H0 ctx ty).
Proof. unfold H0. apply hash_bytes. Qed.

#[local] Opaque hash_y0 hash_yj compute_blake2b H0.

(** ** Hypotheses *)

(** The constants: a power of two of blocks, cut into four segments of at least
    two blocks per lane. *)
Record constants_ok (M_COST LANES : Z) (k : nat) : Prop := {
  co_k : (k < 32)%nat;
  co_cost : M_COST = 2 ^ Z.of_nat k;
  co_lanes : 1 <= LANES;
  co_segment : exists seg, 2 <= seg /\ M_COST = 4 * seg * LANES }.

Lemma code_constants_ok : constants_ok code_M_COST code_LANES 22.
Proof. split; [lia | reflexivity | unfold code_LANES; lia | exists 262144; split; [lia | reflexivity]]. Qed.

(** What the C library promises of [malloc]: a null pointer, or room for the
    number of bytes asked for. *)
Definition malloc_ok (malloc : allocator) : Prop :=
  forall n m, 0 <= n -> malloc None (n * ARGON2_BLOCK_SIZE) = Some m -> Z.of_nat (length m) = n /\ Forall block_ok m.

(** The assumptions on the environment of a run: constants, allocator, the sizes
    of the local buffers and of the header. *)
Record environment_ok (M_COST LANES : Z) (k : nat) (malloc : allocator)
    (h0_garbage blockhash_garbage bytes_garbage input : list Z) : Prop := {
  en_constants : constants_ok M_COST LANES k;
  en_malloc : malloc_ok malloc;
  en_h0 : length h0_garbage = 72%nat;
  en_blockhash : length blockhash_garbage = 72%nat;
  en_bytes : length bytes_garbage = 1024%nat;
  en_input : (80 <= length input)%nat;
  en_input_bytes : Forall byte input }.

Section mtp.
Context (L : nat) (M_COST LANES : Z) (k : nat) (uint256_t : list Z -> Z) (malloc : allocator).
Context (h0_garbage blockhash_garbage bytes_garbage input : list Z).
Context (HE : environment_ok M_COST LANES k malloc h0_garbage blockhash_garbage bytes_garbage input).
Abbreviation HC := (en_constants _ _ _ _ _ _ _ _ HE).

Abbreviation ctx := (make_context M_COST LANES input).
Abbreviation inst0 := (make_instance h0_garbage ctx).
Abbreviation seg := (M_COST / (LANES * 4)).

(** ** The instance *)

Lemma cost_bounds : 8 <= M_COST < 2 ^ 32 /\ M_COST = 4 * seg * LANES /\ 2 <= seg /\ LANES < 2 ^ 29.
Proof.
  destruct (en_constants _ _ _ _ _ _ _ _ HE) as [Hk Hc Hl (sg & Hs & E)].
  assert (Es : seg = sg) by (rewrite E; replace (4 * sg * LANES) with (sg * (LANES * 4)) by ring; apply Z.div_mul; lia).
  assert (Hb : M_COST < 2 ^ 32) by (rewrite Hc; apply Z.pow_lt_mono_r; lia).
  rewrite Es. split; [split; [nia | exact Hb] |]. split; [exact E |]. split; [exact Hs | nia].
Qed.

Lemma make_instance_eq : inst0 =
  mk_instance ARGON2_VERSION_13 1 M_COST seg (4 * seg) LANES LANES Argon2_d h0_garbage.
Proof.
  pose proof cost_bounds as (B1 & B2 & B3 & B4). pose proof (co_lanes _ _ _ HC).
  unfold make_instance, make_context, T_COST, ARGON2_SYNC_POINTS. cbn [m_cost ctx_lanes ctx_threads ctx_version t_cost].
  rewrite (wrap_small 32 (2 * 4 * LANES)), (wrap_small 32 (LANES * 4)) by (unfold word; lia).
  destruct (Z.ltb_spec M_COST (2 * 4 * LANES)); [nia |]. rewrite Z.ltb_irrefl.
  rewrite wrap_small by (unfold word; nia). f_equal. lia.
Qed.

Lemma instance0_ok : instance_ok inst0.
Proof.
  pose proof cost_bounds as (B1 & B2 & B3 & B4). pose proof (co_lanes _ _ _ HC). rewrite make_instance_eq.
  split; cbn [segment_length lane_length lanes]; unfold ARGON2_SYNC_POINTS; nia.
Qed.

Lemma context_good : context_ok ctx.
Proof.
  pose proof cost_bounds as (B1 & B2 & B3 & B4). pose proof (co_lanes _ _ _ HC).
  destruct HE as [_ _ _ _ _ Hinput Hbytes].
  assert (Hr : readable (Some (take 80 input)) 80).
  { destruct (readable_list (take 80 input)) as [H1 _]; [apply Forall_take; auto | rewrite length_take; lia |].
    rewrite length_take in H1. replace (80 `min` length input)%nat with 80%nat in H1 by lia. exact H1. }
  assert (Hn : readable None 0) by (split_and!; [lia | lia | cbn; lia | constructor]).
  unfold make_context, T_COST, ARGON2_VERSION_13.
  split; cbn [ctx_lanes ctx_threads Argon2.outlen m_cost t_cost ctx_version pwdlen saltlen secretlen adlen pwd Argon2.salt secret ad];
    try exact Hr; try exact Hn; unfold word; lia.
Qed.

(** ** The memory of a successful run *)

Abbreviation seed := (H0 ctx Argon2_d ++ replicate 8 0).
Abbreviation inst := (set_hash_zero inst0 seed).

Lemma inst_ok : instance_ok inst.
Proof. destruct instance0_ok. split; auto. Qed.

Lemma inst_fields : lanes inst = LANES /\ lane_length inst = 4 * seg /\ segment_length inst = seg /\
  memory_blocks inst = M_COST /\ passes inst = 1 /\ hash_zero inst = seed /\ threads inst = LANES.
Proof. rewrite make_instance_eq. cbn. auto 10. Qed.

Lemma seed_length : length seed = 72%nat.
Proof. rewrite length_app, H0_length, length_replicate. reflexivity. Qed.

Lemma seed_good : seed_ok (take ARGON2_PREHASH_SEED_LENGTH seed).
Proof.
  rewrite take_ge by (rewrite seed_length; unfold ARGON2_PREHASH_SEED_LENGTH; lia).
  split; [rewrite seed_length; lia |].
  apply Forall_app. split; [apply H0_bytes | apply Forall_replicate; unfold word; lia].
Qed.

Lemma fill_memory_result i mem m : instance_ok i -> 1 <= threads i <= lanes i ->
  lanes i * lane_length i <= Z.of_nat (length mem) ->
  fill_memory_blocks_mtp mem (Some i) ARGON2_OK m -> m = fill_memory_blocks_st_mtp i mem.
Proof. intros HI HT Hsz H. inversion H; subst; [reflexivity |]. eapply reachable_result; eauto. Qed.

Lemma load_block_ok bytes : block_ok (load_block bytes).
Proof.
  split; [unfold load_block; rewrite length_map, length_seq; reflexivity |].
  apply Forall_map, Forall_forall. intros. apply load64_word.
Qed.

Lemma put_first_blocks h0 mem ls : Forall block_ok mem -> Forall block_ok (fold_left (put_first inst0 h0) ls mem).
Proof.
  intros H. apply (fold_left_inv (Forall block_ok)); [exact H |]. intros m l Hm. unfold put_first, first_block.
  repeat (apply Forall_insert; [|apply load_block_ok]). exact Hm.
Qed.

Lemma put_first_lengths h0 mem ls : length (fold_left (put_first inst0 h0) ls mem) = length mem.
Proof.
  apply (fold_left_inv (fun m => length m = length mem)); [reflexivity |]. intros m l Hm. rewrite put_first_length. exact Hm.
Qed.

Lemma one_pass_ok mem : memory_ok inst mem -> memory_ok inst (fill_memory_blocks_st_mtp inst mem).
Proof.
  intros Hm. pose proof inst_fields as (F1 & F2 & F3 & F4 & F5 & F6 & F7). pose proof seed_good as Hs. rewrite <- F6 in Hs.
  rewrite fill_one_pass by exact F5. unfold after_slices. change (seqZ 0 (Z.of_nat 4)) with [0; 1; 2; 3]. cbn [fold_left].
  repeat (apply (slice_seq_ok inst inst_ok Hs); [lia | lia |]). exact Hm.
Qed.

Lemma allocation rc m : allocate_memory ctx malloc malloc (Some None) M_COST ARGON2_BLOCK_SIZE = (rc, m) ->
  rc = ARGON2_OK -> exists mem, m = Some (Some mem) /\ Z.of_nat (length mem) = M_COST /\ Forall block_ok mem.
Proof.
  pose proof cost_bounds as (B1 & _). unfold allocate_memory, ARGON2_BLOCK_SIZE.
  rewrite wrap_small by (unfold word; lia). rewrite Z.div_mul, Z.eqb_refl by lia. cbn [negb andb Z.eqb allocate_cbk make_context].
  change 1024 with ARGON2_BLOCK_SIZE. destruct (malloc None (M_COST * ARGON2_BLOCK_SIZE)) as [mem|] eqn:E; intros [= <- <-]; [|discriminate].
  intros _. exists mem. split; [reflexivity |]. apply (en_malloc _ _ _ _ _ _ _ _ HE M_COST mem); [lia | exact E].
Qed.

(** The memory is the sequential one, all of its blocks well formed. *)
Lemma argon2_run i mem' :
  Argon2CtxMtp malloc blockhash_garbage bytes_garbage ctx inst0 ARGON2_OK i (Some mem') ->
  i = inst /\ exists mem, mem' = fill_memory_blocks_st_mtp inst mem /\
    memory_ok inst mem /\ length mem = Z.to_nat M_COST /\ memory_ok inst mem'.
Proof.
  intros H. pose proof cost_bounds as (B1 & B2 & B3 & B4). pose proof instance0_ok as HI0. pose proof inst_ok as HI.
  pose proof inst_fields as (F1 & F2 & F3 & F4 & F5 & F6 & F7). pose proof (co_lanes _ _ _ HC) as HL.
  remember ARGON2_OK as rc eqn:Erc in H. remember (Some mem') as om eqn:Eom in H.
  destruct H as [Hv | res Hv Er Hne | res i' mem rc' m' Hv Er Hok Hi Hm Hf]; [discriminate | congruence |].
  subst rc'. injection Eom as ->. assert (Em : memory_blocks inst0 = M_COST) by exact F4.
  destruct (allocate_memory ctx malloc malloc (Some None) M_COST ARGON2_BLOCK_SIZE) as [rc m] eqn:Ea.
  pose proof (allocation rc m Ea) as Hal.
  assert (Ea' : allocate_memory ctx malloc malloc (Some None) (memory_blocks inst0) ARGON2_BLOCK_SIZE = (rc, m)) by (rewrite Em; exact Ea).
  clear Ea. destruct (decide (rc = ARGON2_OK)) as [->|Hne].
  2:{ exfalso. apply Hne. rewrite <- Hok, Er. unfold initialize. rewrite Ea'. destruct rc; try reflexivity. congruence. }
  destruct (Hal eq_refl) as (m0 & -> & Hlen & Fm).
  pose proof (initialize_spec malloc malloc blockhash_garbage bytes_garbage inst0 None ctx m0 HI0 context_good
    (en_blockhash _ _ _ _ _ _ _ _ HE) (en_bytes _ _ _ _ _ _ _ _ HE) Ea') as Ei.
  cbv zeta in Ei. rewrite <- Er in Ei. change (type inst0) with Argon2_d in Ei. rewrite Ei in Hi, Hm.
  cbn [init_instance init_memory] in Hi, Hm. apply (inj Some) in Hi. apply (inj Some) in Hm.
  rewrite <- Hi, <- Hm in Hf. split; [symmetry; exact Hi |]. clear Hi Hm.
  set (m1 := fold_left _ _ m0) in *.
  assert (Hl1 : length m1 = length m0) by apply put_first_lengths.
  assert (Hm1 : memory_ok inst m1) by (split; [apply put_first_blocks; exact Fm | rewrite F1, F2, Hl1; lia]).
  exists m1. assert (Em' : mem' = fill_memory_blocks_st_mtp inst m1).
  { apply fill_memory_result; [exact HI | lia | apply Hm1 | exact Hf]. }
  split; [exact Em' |]. split; [exact Hm1 |]. split; [lia |]. rewrite Em'. apply one_pass_ok. exact Hm1.
Qed.

(** With memory and valid parameters a successful run exists. *)
Lemma argon2_run_exists m : validate_inputs (Some ctx) = ARGON2_OK -> malloc None (M_COST * ARGON2_BLOCK_SIZE) = Some m ->
  exists M, Argon2CtxMtp malloc blockhash_garbage bytes_garbage ctx inst0 ARGON2_OK inst (Some M).
Proof.
  intros Hv Ha. pose proof cost_bounds as (B1 & B2 & B3 & B4). pose proof instance0_ok as HI0. pose proof inst_ok as HI.
  pose proof inst_fields as (F1 & F2 & F3 & F4 & F5 & F6 & F7). pose proof (co_lanes _ _ _ HC) as HL.
  assert (Ea : allocate_memory ctx malloc malloc (Some None) (memory_blocks inst0) ARGON2_BLOCK_SIZE = (ARGON2_OK, Some (Some m))).
  { change (memory_blocks inst0) with M_COST. unfold allocate_memory. cbn [allocate_cbk make_context].
    rewrite wrap_small by (unfold word, ARGON2_BLOCK_SIZE; lia). rewrite Ha.
    unfold ARGON2_BLOCK_SIZE. rewrite Z.div_mul, Z.eqb_refl by lia. reflexivity. }
  destruct (en_malloc _ _ _ _ _ _ _ _ HE M_COST m ltac:(lia) Ha) as [Hlen _].
  pose proof (initialize_spec malloc malloc blockhash_garbage bytes_garbage inst0 None ctx m HI0 context_good
    (en_blockhash _ _ _ _ _ _ _ _ HE) (en_bytes _ _ _ _ _ _ _ _ HE) Ea) as Ei. cbv zeta in Ei. change (type inst0) with Argon2_d in Ei.
  set (m1 := fold_left (put_first inst0 (H0 ctx Argon2_d)) (seqZ 0 (lanes inst0)) m) in *.
  assert (Hsz : lanes inst * lane_length inst <= Z.of_nat (length m1)) by (unfold m1; rewrite put_first_lengths, F1, F2; lia).
  assert (Hf : exists M, fill_memory_blocks_mtp m1 (Some inst) ARGON2_OK M).
  { destruct (decide (LANES = 1)) as [E1|E1].
    - eexists. apply fill_single; [rewrite F1; lia | rewrite F7; exact E1].
    - destruct (mt_completes inst m1 true true (mt_start inst true true m1)) as (st & Hr & Hm & Hrc);
        [exact HI | lia | exact Hsz | apply rtc_refl | reflexivity |].
      exists (mt_mem st). rewrite <- Hrc. apply (fill_multi m1 inst true true st); [rewrite F1; lia | rewrite F7; lia | exact Hr | exact Hm]. }
  destruct Hf as (M & Hf). exists M. eapply ctx_filled; [exact Hv | reflexivity | | | | exact Hf]; rewrite Ei; reflexivity.
Qed.

(** ** Openings of the filled memory *)

Section run.
Context (mem M : list block) (EM : M = fill_memory_blocks_st_mtp inst mem).
Context (Hmem : memory_ok inst mem) (HM : memory_ok inst M).
Context (t : MerkleTree) (Ht : new_MerkleTree (tree_elements inst M) true = inl t).

Abbreviation elements := (tree_elements inst M).
Abbreviation Ln := (4 * seg).

Lemma elements_length : length elements = (2 ^ k)%nat.
Proof.
  pose proof inst_fields as (_ & _ & _ & F4 & _). unfold tree_elements. rewrite length_map, length_seqZ, F4, (co_cost _ _ _ HC).
  change 2 with (Z.of_nat 2). rewrite <- Nat2Z.inj_pow, Nat2Z.id. reflexivity.
Qed.

Lemma elements_ok : Forall element_ok elements.
Proof. apply Forall_map, Forall_forall. intros. apply digest_ok. Qed.

Lemma cost_nat i : 0 <= i < M_COST -> (Z.to_nat i < 2 ^ k)%nat.
Proof.
  intros Hi. apply Nat2Z.inj_lt. rewrite Nat2Z.inj_pow, Z2Nat.id by lia. change (Z.of_nat 2) with 2.
  rewrite <- (co_cost _ _ _ HC). lia.
Qed.

Lemma elements_nth i : 0 <= i < M_COST -> nth (Z.to_nat i) elements [] = compute_blake2b (block_at M i).
Proof.
  intros Hi. pose proof inst_fields as (_ & _ & _ & F4 & _). unfold tree_elements. rewrite F4, nth_lookup, list_lookup_fmap.
  rewrite (proj2 (lookup_seqZ 0 M_COST (Z.to_nat i) i)) by lia. reflexivity.
Qed.

Definition path (i : Z) : Elements := path_of k elements (Z.to_nat i).

Lemma opening i : 0 <= i < M_COST ->
  getProofOrdered t (compute_blake2b (block_at M i)) (Z.to_nat (u32 (i + 1))) = inl (path i) /\
  checkProofOrdered (path i) (getRoot t) (compute_blake2b (block_at M i)) (u32 (i + 1)) = Some true.
Proof.
  intros Hi. pose proof cost_bounds as (B1 & _).
  destruct (tree_opening k elements t (Z.to_nat i) (co_k _ _ _ HC) elements_length elements_ok Ht (cost_nat i Hi)) as (H1 & H2 & H3).
  rewrite elements_nth in H1, H3 by auto. rewrite H2, wrap_small by (unfold word; lia).
  replace (Z.to_nat (i + 1)) with (S (Z.to_nat i)) by lia. replace (i + 1) with (Z.of_nat (S (Z.to_nat i))) by lia. auto.
Qed.

Lemma root_ok : element_ok (getRoot t).
Proof.
  destruct (tree_opening k elements t 0 (co_k _ _ _ HC) elements_length elements_ok Ht) as (_ & -> & _);
    [pose proof (Nat.pow_nonzero 2 k); lia |]. apply root_of_ok; [exact elements_length | exact elements_ok].
Qed.

(** ** One index *)

(** What is opened for block [ij]: the block before it and its reference. *)
Definition prev_index (ij : Z) : Z := fst (GetBlockIndex ij inst M).
Definition ref_index (ij : Z) : Z := snd (GetBlockIndex ij inst M).

Lemma index_split ij : 0 <= ij < M_COST -> exists l j, ij = at_lane inst l j /\ 0 <= l < LANES /\ 0 <= j < Ln /\ ij mod Ln = j.
Proof.
  intros Hi. pose proof cost_bounds as (B1 & B2 & B3 & B4). pose proof inst_fields as (F1 & F2 & _).
  exists (ij / Ln), (ij mod Ln). unfold at_lane. rewrite F2.
  split; [rewrite (Z.mul_comm (ij / Ln)); apply Z.div_mod; lia |].
  split; [split; [apply Z.div_pos; lia | apply Z.div_lt_upper_bound; lia] |]. split; [apply Z.mod_pos_bound; lia | reflexivity].
Qed.

Lemma block_index_range i : 0 <= i < M_COST -> block_ok (block_at M i).
Proof.
  intros Hi. pose proof cost_bounds as (B1 & B2 & B3 & B4). pose proof inst_fields as (F1 & F2 & _).
  apply (block_at_ok inst); [exact HM | rewrite F1, F2; lia].
Qed.

Lemma block_word0 i : 0 <= i < M_COST -> word 64 (block_at M i).[0].
Proof.
  intros Hi. destruct (block_index_range i Hi) as [Hl Fw]. rewrite nth_lookup.
  destruct (lookup_lt_is_Some_2 (block_at M i) 0) as [x Hx]; [lia |]. rewrite Hx. cbn. rewrite Forall_lookup in Fw. eauto.
Qed.

(** The block at [ij] is the compression of the two opened blocks. *)
Lemma opened_blocks ij : 0 <= ij < M_COST -> ij mod Ln <> 0 -> ij mod Ln <> 1 ->
  prev_index ij = index_before ij Ln /\ 0 <= prev_index ij < M_COST /\
  ref_index ij = computed_ref_block seg Ln LANES ij (block_at M (prev_index ij)).[0] /\ 0 <= ref_index ij < M_COST /\
  block_at M ij = fill_block_mtp (block_at M (prev_index ij)) (block_at M (ref_index ij)) [] false (ref_index ij)
    (take ARGON2_PREHASH_SEED_LENGTH seed).
Proof.
  intros Hij H0 H1. pose proof cost_bounds as (B1 & B2 & B3 & B4). pose proof inst_fields as (F1 & F2 & F3 & F4 & F5 & F6 & F7).
  destruct (index_split ij Hij) as (l & j & E & Hl & Hj & Em). rewrite Em in H0, H1. clear Em.
  assert (Ep : index_before ij Ln = at_lane inst l (j - 1)).
  { rewrite E, <- F2. apply (index_before_prev inst inst_ok); rewrite ?F1, ?F2; lia. }
  assert (Hp : 0 <= at_lane inst l (j - 1) < M_COST) by (unfold at_lane in *; rewrite F2 in *; nia).
  unfold prev_index, ref_index, GetBlockIndex. cbn [fst snd]. rewrite F1, F2, F3, Ep.
  split; [reflexivity |]. split; [exact Hp |]. split; [reflexivity |].
  pose proof (computed_ref_ref inst inst_ok l j (block_at M (at_lane inst l (j - 1))).[0]) as Er.
  rewrite F1, F2, F3, <- E in Er. rewrite Er by (auto using block_word0; lia).
  destruct (one_pass_fixpoint inst inst_ok mem l j F5 (proj2 Hmem)) as [Hr Ef]; [rewrite F1; lia | rewrite F2; lia |].
  cbv zeta in Hr, Ef. rewrite <- EM, F1, F2, F3 in Hr. rewrite <- EM, F3, F6, <- E in Ef. split; [lia | exact Ef].
Qed.

(** ** One iteration *)

Lemma Chained_inj y y' a a' : Chained y a = Chained y' a' -> y = y' /\ a = a'.
Proof. intros [= -> ->]. auto. Qed.

Abbreviation index_of := (index_of M_COST uint256_t).
Abbreviation mine_step := (mine_step M_COST LANES uint256_t inst M t).
Abbreviation mine_chain := (mine_chain M_COST LANES uint256_t inst M t).
(** The first hash as the verifier computes it, in a buffer of its own. *)
Context (vg : list Z).
Definition verify_h0 : list Z := default [] (fst (initial_hash (Some vg) (Some ctx) (type (make_instance vg ctx)))).

Lemma index_range y : 0 <= index_of y < M_COST.
Proof. apply Z.mod_pos_bound. pose proof cost_bounds. lia. Qed.

Lemma verify_seed : take 32 verify_h0 = take 32 (take ARGON2_PREHASH_SEED_LENGTH seed).
Proof.
  unfold verify_h0. rewrite initial_hash_H0 by exact context_good. change (type (make_instance vg ctx)) with Argon2_d. cbn [fst from_option id].
  unfold ARGON2_PREHASH_SEED_LENGTH. rewrite take_take. change (32 `min` 72)%nat with 32%nat.
  unfold memcpy. rewrite take_0, app_nil_l. rewrite !take_app_le by (rewrite H0_length; lia). reflexivity.
Qed.

(** The arrays carry the honest blocks and proofs of iteration [j]. *)
Record carries (j : nat) (y : list Z) (bs : list block) (ps : list Elements) : Prop := {
  ca_prev : nth (j * 2 - 2) bs [] = copy_block (block_at M (prev_index (index_of y)));
  ca_ref : nth (j * 2 - 1) bs [] = copy_block (block_at M (ref_index (index_of y)));
  ca_curr_proof : nth (j * 3 - 3) ps [] = path (index_of y);
  ca_prev_proof : nth (j * 3 - 2) ps [] = path (prev_index (index_of y));
  ca_ref_proof : nth (j * 3 - 1) ps [] = path (ref_index (index_of y)) }.

Definition usable (y : list Z) : Prop := index_of y mod Ln <> 0 /\ index_of y mod Ln <> 1.
Definition next_y (y : list Z) : list Z := hash_yj y (StoreBlock (copy_block (block_at M (index_of y)))).

Lemma nth_insert_same {A} (d : A) l i x : (i < length l)%nat -> nth i (<[i := x]> l) d = x.
Proof. intros. rewrite nth_lookup, list_lookup_insert_eq by lia. reflexivity. Qed.
Lemma nth_insert_other {A} (d : A) l i i' x : i <> i' -> nth i' (<[i := x]> l) d = nth i' l d.
Proof. intros. rewrite !nth_lookup, list_lookup_insert_ne by lia. reflexivity. Qed.

Lemma mine_step_ok j y a y' a' : (1 <= j)%nat -> (j * 2 <= length (blocks a))%nat -> (j * 3 <= length (proof_blocks a))%nat ->
  mine_step j y a = Chained y' a' ->
  usable y /\ y' = next_y y /\ carries j y (blocks a') (proof_blocks a') /\
  length (blocks a') = length (blocks a) /\ length (proof_blocks a') = length (proof_blocks a) /\
  (forall i, (i < j * 2 - 2)%nat -> nth i (blocks a') [] = nth i (blocks a) []) /\
  (forall i, (i < j * 3 - 3)%nat -> nth i (proof_blocks a') [] = nth i (proof_blocks a) []).
Proof.
  intros Hj Lb Lp. unfold Mtp.mine_step. pose proof cost_bounds as (B1 & B2 & B3 & B4). pose proof (co_lanes _ _ _ HC).
  replace (M_COST / LANES) with Ln by (rewrite B2 at 2; rewrite Z.div_mul by lia; reflexivity).
  pose proof (index_range y) as Hr.
  destruct (Z.eqb_spec (index_of y mod Ln) 0) as [|N0]; [discriminate |].
  destruct (Z.eqb_spec (index_of y mod Ln) 1) as [|N1]; [discriminate |]. cbn [orb].
  destruct (opened_blocks (index_of y) Hr N0 N1) as (_ & Hp & _ & Hf & _).
  destruct (GetBlockIndex (index_of y) inst M) as [p r] eqn:Eg.
  assert (Ep : p = prev_index (index_of y)) by (unfold prev_index; rewrite Eg; reflexivity).
  assert (Er : r = ref_index (index_of y)) by (unfold ref_index; rewrite Eg; reflexivity). subst p r. clear Eg.
  rewrite (proj1 (opening _ Hr)), (proj1 (opening _ Hp)), (proj1 (opening _ Hf)). intros E.
  apply Chained_inj in E as [<- <-]. cbn [blocks proof_blocks].
  split; [split; auto |]. split; [unfold next_y; reflexivity |]. split.
  - split; repeat first [rewrite nth_insert_same by (rewrite ?length_insert; lia); reflexivity | rewrite nth_insert_other by lia].
  - rewrite !length_insert. do 2 (split; [reflexivity |]). split; intros i Hi; rewrite !nth_insert_other by lia; reflexivity.
Qed.

Lemma verify_step_ok j y bs ps : usable y -> carries j y bs ps ->
  verify_step M_COST LANES uint256_t verify_h0 (getRoot t) bs ps j y = Some (Some (next_y y)).
Proof.
  intros [N0 N1] [C1 C2 C3 C4 C5]. pose proof cost_bounds as (B1 & B2 & B3 & B4). pose proof (co_lanes _ _ _ HC).
  pose proof (index_range y) as Hr. destruct (opened_blocks (index_of y) Hr N0 N1) as (Ep & Hp & Er & Hf & Eb).
  unfold verify_step, ARGON2_SYNC_POINTS. destruct (Z.ltb_spec M_COST (2 * 4 * LANES)); [nia |].
  rewrite (wrap_small 32 (seg * 4)) by (unfold word; nia). replace (seg * 4) with Ln by lia.
  rewrite C1, C2, C3, C4, C5, <- Ep.
  pose proof (block_index_range _ Hp) as Op. pose proof (block_index_range _ Hf) as Of. pose proof (block_index_range _ Hr) as Oc.
  rewrite !(copy_block_ok (block_at M (prev_index (index_of y)))) by exact Op.
  rewrite !(copy_block_ok (block_at M (ref_index (index_of y)))) by exact Of.
  rewrite <- Er. rewrite (fill_block_mtp_seed _ _ _ _ _ _ _ verify_seed), <- Eb.
  rewrite (proj2 (opening _ Hp)), (proj2 (opening _ Hf)), (proj2 (opening _ Hr)). cbn [check_opening]. reflexivity.
Qed.

(** ** The chain *)

Lemma chain_verified n j y a y' a' : (1 <= j)%nat ->
  ((j + n - 1) * 2 <= length (blocks a))%nat -> ((j + n - 1) * 3 <= length (proof_blocks a))%nat ->
  mine_chain (seq j n) y a = Chained y' a' ->
  (forall i, (i < j * 2 - 2)%nat -> nth i (blocks a') [] = nth i (blocks a) []) /\
  (forall i, (i < j * 3 - 3)%nat -> nth i (proof_blocks a') [] = nth i (proof_blocks a) []) /\
  verify_loop M_COST LANES uint256_t verify_h0 (getRoot t) (blocks a') (proof_blocks a') (seq j n) y = Some (Some y').
Proof.
  revert j y a. induction n as [|n IH]; intros j y a Hj Lb Lp E; cbn [seq Mtp.mine_chain verify_loop] in *.
  - apply Chained_inj in E as [<- <-]. auto.
  - destruct (mine_step j y a) as [y1 a1| |] eqn:Es; [|discriminate|discriminate].
    destruct (mine_step_ok j y a y1 a1 Hj ltac:(lia) ltac:(lia) Es) as (Hu & -> & Hc & L1 & L2 & K1 & K2).
    destruct (IH (S j) (next_y y) a1 ltac:(lia) ltac:(lia) ltac:(lia) E) as (K3 & K4 & Hv).
    assert (Hc' : carries j y (blocks a') (proof_blocks a')).
    { destruct Hc. split; rewrite ?K3, ?K4 by lia; assumption. }
    rewrite (verify_step_ok j y _ _ Hu Hc'). split; [intros i Hi; rewrite K3, K1 by lia; reflexivity |].
    split; [intros i Hi; rewrite K4, K2 by lia; reflexivity | exact Hv].
Qed.

(** ** What the chain leaves in the arrays *)

(** A proof as the tree makes it: [k] hashes of 16 bytes. *)
Definition proof_ok (p : Elements) : Prop := length p = k /\ Forall element_ok p.
(** A 256-bit value. *)
Definition blob32 (y : list Z) : Prop := length y = 32%nat /\ Forall byte y.

Lemma path_ok i : 0 <= i < M_COST -> proof_ok (path i).
Proof.
  intros Hi. split; [apply path_length | apply path_of_ok; [exact elements_length | exact elements_ok | exact (cost_nat i Hi)]].
Qed.

Lemma next_y_ok y : blob32 y -> blob32 (next_y y).
Proof.
  intros [Hl Hb]. unfold next_y. destruct (StoreBlock_bytes (copy_block (block_at M (index_of y)))) as [Sb Sl].
  rewrite hash_yj_spec by auto. apply hash32_ok.
Qed.

Lemma y0_ok n : blob32 (hash_y0 input (getRoot t) n).
Proof. rewrite hash_y0_spec; [apply hash32_ok | apply HE | apply HE | exact root_ok]. Qed.

(** Every entry that an iteration writes is well formed. *)
Lemma carries_ok j y bs ps : (1 <= j)%nat -> usable y -> carries j y bs ps ->
  (forall i, (j * 2 - 2 <= i < j * 2)%nat -> block_ok (nth i bs [])) /\
  (forall i, (j * 3 - 3 <= i < j * 3)%nat -> proof_ok (nth i ps [])).
Proof.
  intros Hj [N0 N1] [C1 C2 C3 C4 C5]. pose proof (index_range y) as Hr.
  destruct (opened_blocks (index_of y) Hr N0 N1) as (_ & Hp & _ & Hf & _). split; intros i Hi.
  - assert (i = j * 2 - 2 \/ i = j * 2 - 1)%nat as [-> | ->] by lia; rewrite ?C1, ?C2, copy_block_ok; auto using block_index_range.
  - assert (i = j * 3 - 3 \/ i = j * 3 - 2 \/ i = j * 3 - 1)%nat as [-> | [-> | ->]] by lia; rewrite ?C3, ?C4, ?C5; auto using path_ok.
Qed.

Lemma chain_ok n j y a y' a' : (1 <= j)%nat ->
  ((j + n - 1) * 2 <= length (blocks a))%nat -> ((j + n - 1) * 3 <= length (proof_blocks a))%nat ->
  mine_chain (seq j n) y a = Chained y' a' -> blob32 y ->
  blob32 y' /\ (forall i, (j * 2 - 2 <= i < (j + n - 1) * 2)%nat -> block_ok (nth i (blocks a') [])) /\
  (forall i, (j * 3 - 3 <= i < (j + n - 1) * 3)%nat -> proof_ok (nth i (proof_blocks a') [])).
Proof.
  revert j y a. induction n as [|n IH]; intros j y a Hj Lb Lp E Hy; cbn [seq Mtp.mine_chain] in *.
  - apply Chained_inj in E as [<- <-]. split; [exact Hy |]. split; intros; lia.
  - destruct (mine_step j y a) as [y1 a1| |] eqn:Es; [|discriminate|discriminate].
    destruct (mine_step_ok j y a y1 a1 Hj ltac:(lia) ltac:(lia) Es) as (Hu & -> & Hc & L1 & L2 & _ & _).
    destruct (carries_ok j y _ _ Hj Hu Hc) as [O1 O2].
    destruct (chain_verified n (S j) (next_y y) a1 y' a' ltac:(lia) ltac:(lia) ltac:(lia) E) as (K1 & K2 & _).
    destruct (IH (S j) (next_y y) a1 ltac:(lia) ltac:(lia) ltac:(lia) E (next_y_ok y Hy)) as (Hy' & I1 & I2).
    split; [exact Hy' |]. split; intros i Hi.
    + destruct (Nat.ltb_spec i (j * 2)); [rewrite K1 by lia; apply O1; lia | apply I1; lia].
    + destruct (Nat.ltb_spec i (j * 3)); [rewrite K2 by lia; apply O2; lia | apply I2; lia].
Qed.

(** ** The attempts *)

Definition arrays_ok (a : mining_arrays) : Prop := length (blocks a) = (L * 2)%nat /\ length (proof_blocks a) = (L * 3)%nat.

(** No exception: every opened element is where the tree has it. *)
Lemma mine_step_total j y a : (exists y' a', mine_step j y a = Chained y' a') \/ mine_step j y a = InitBlocks a.
Proof.
  unfold Mtp.mine_step. pose proof cost_bounds as (B1 & B2 & B3 & B4). pose proof (co_lanes _ _ _ HC).
  replace (M_COST / LANES) with Ln by (rewrite B2 at 2; rewrite Z.div_mul by lia; reflexivity).
  pose proof (index_range y) as Hr.
  destruct (Z.eqb_spec (index_of y mod Ln) 0) as [|N0]; [right; reflexivity |].
  destruct (Z.eqb_spec (index_of y mod Ln) 1) as [|N1]; [right; reflexivity |]. left. cbn [orb].
  destruct (opened_blocks (index_of y) Hr N0 N1) as (_ & Hp & _ & Hf & _).
  destruct (GetBlockIndex (index_of y) inst M) as [p r] eqn:Eg.
  assert (Ep : p = prev_index (index_of y)) by (unfold prev_index; rewrite Eg; reflexivity).
  assert (Er : r = ref_index (index_of y)) by (unfold ref_index; rewrite Eg; reflexivity). subst p r. clear Eg.
  rewrite (proj1 (opening _ Hr)), (proj1 (opening _ Hp)), (proj1 (opening _ Hf)). eexists _, _. reflexivity.
Qed.

Definition ends_with (P : mining_arrays -> Prop) (r : attempt_result) : Prop :=
  match r with Chained _ a => P a | InitBlocks a => P a | Thrown _ => False end.

Lemma mine_chain_total n j y a : (1 <= j)%nat -> (j + n <= S L)%nat -> arrays_ok a -> ends_with arrays_ok (mine_chain (seq j n) y a).
Proof.
  revert j y a. induction n as [|n IH]; intros j y a Hj Hn Ha; cbn [seq Mtp.mine_chain]; [exact Ha |].
  destruct (mine_step_total j y a) as [(y' & a' & E)| ->]; [|exact Ha]. rewrite E. apply IH; [lia | lia |].
  destruct Ha as [L1 L2]. apply mine_step_ok in E as (_ & _ & _ & L3 & L4 & _); [split; congruence | auto | lia | lia].
Qed.

Context (target : Z) (pow_limit : list Z).
Abbreviation attempt := (mine_attempt L M_COST LANES uint256_t input (getRoot t) target pow_limit inst M t).

(** Arrays of the right sizes with well-formed entries. *)
Record output_ok (o : mtp_output) : Prop := {
  oo_root : element_ok (out_root o);
  oo_blocks : length (out_blocks o) = (L * 2)%nat /\ Forall block_ok (out_blocks o);
  oo_proofs : length (out_proofs o) = (L * 3)%nat /\ Forall proof_ok (out_proofs o);
  oo_hash : blob32 (out_hash o) }.

Lemma Forall_nth_lt {A} (P : A -> Prop) d (l : list A) : (forall i, (i < length l)%nat -> P (nth i l d)) -> Forall P l.
Proof.
  intros H. apply Forall_lookup. intros i x Hx. specialize (H i (lookup_lt_Some _ _ _ Hx)). rewrite nth_lookup, Hx in H. exact H.
Qed.

(** A well-formed output with the root of the tree that [mtp_verify] accepts. *)
Definition verified (o : mtp_output) : Prop :=
  out_root o = getRoot t /\ output_ok o /\
  mtp_verify L M_COST LANES uint256_t vg input target (out_root o) (out_nonce o) (out_blocks o) (out_proofs o) pow_limit =
  Some (true, Some (out_hash o)).

Lemma mtp_verify_eq root nonce bs ps : element_ok root ->
  mtp_verify L M_COST LANES uint256_t vg input target root nonce bs ps pow_limit =
  match verify_loop M_COST LANES uint256_t verify_h0 root bs ps (seq 1 L) (hash_y0 input root nonce) with
  | None => None
  | Some None => Some (false, None)
  | Some (Some y) => Some (negb (hash_rejected target pow_limit y), Some y)
  end.
Proof. intros [Hl _]. unfold mtp_verify, verify_h0. cbv zeta. rewrite (take_ge root) by lia. reflexivity. Qed.

Lemma chain_accepted n a a' y : arrays_ok a ->
  mine_chain (seq 1 L) (hash_y0 input (getRoot t) n) a = Chained y a' -> hash_rejected target pow_limit y = false ->
  verified (mk_output (getRoot t) n (blocks a') (proof_blocks a') y).
Proof.
  intros [L3 L4] Ec Eh. destruct (chain_verified L 1 _ a y a' ltac:(lia) ltac:(lia) ltac:(lia) Ec) as (_ & _ & Hv).
  destruct (chain_ok L 1 _ a y a' ltac:(lia) ltac:(lia) ltac:(lia) Ec (y0_ok n)) as (Hy & O1 & O2).
  pose proof (mine_chain_total L 1 (hash_y0 input (getRoot t) n) a ltac:(lia) ltac:(lia) (conj L3 L4)) as Hend.
  rewrite Ec in Hend. destruct Hend as [L5 L6].
  split; [reflexivity |]. cbn [out_root out_nonce out_blocks out_proofs out_hash]. split.
  - split; cbn [out_root out_blocks out_proofs out_hash]; [exact root_ok | split; [exact L5 |] | split; [exact L6 |] | exact Hy].
    + apply (Forall_nth_lt _ []). intros i Hi. apply O1. lia.
    + apply (Forall_nth_lt _ []). intros i Hi. apply O2. lia.
  - rewrite (mtp_verify_eq _ _ _ _ root_ok), Hv, Eh. reflexivity.
Qed.

Lemma attempt_ok n a : arrays_ok a ->
  match attempt n a with inl (Hash1Done o) => verified o /\ out_nonce o = n | inl _ => False | inr a' => arrays_ok a' end.
Proof.
  intros [L1 L2]. unfold mine_attempt. set (a1 := mk_arrays (memset_blocks (blocks a)) (proof_blocks a)).
  assert (Ha1 : arrays_ok a1) by (split; [cbn [blocks a1]; rewrite <- L1; destruct (blocks a); reflexivity | exact L2]).
  pose proof (mine_chain_total L 1 (hash_y0 input (getRoot t) n) a1 ltac:(lia) ltac:(lia) Ha1) as Hend.
  destruct (mine_chain (seq 1 L) (hash_y0 input (getRoot t) n) a1) as [y a2| a2|e] eqn:Ec; [|exact Hend | contradiction].
  destruct (hash_rejected target pow_limit y) eqn:Eh; [exact Hend |]. split; [|reflexivity].
  apply (chain_accepted n a1 a2 y Ha1 Ec Eh).
Qed.

Lemma search_ok p n a : arrays_ok a ->
  match mine_search attempt p n a with
  | inl (Hash1Done o) => verified o /\ n <= out_nonce o < n + Zpos p
  | inl _ => False
  | inr a' => arrays_ok a'
  end.
Proof.
  assert (Hone : forall n a, arrays_ok a -> match attempt n a with
    inl (Hash1Done o) => verified o /\ n <= out_nonce o < n + 1 | inl _ => False | inr a' => arrays_ok a' end).
  { intros n0 a0 H. pose proof (attempt_ok n0 a0 H) as H1. destruct (attempt n0 a0) as [[]|]; auto.
    destruct H1 as [? ->]. split; [assumption | lia]. }
  revert n a. induction p as [p IH|p IH|]; intros n a Ha; cbn [mine_search].
  - pose proof (Hone n a Ha) as H1. destruct (attempt n a) as [[]|a1]; auto; [intuition lia |].
    pose proof (IH (n + 1) a1 H1) as H2. destruct (mine_search attempt p (n + 1) a1) as [[]|a2]; auto; [intuition lia |].
    pose proof (IH (n + 1 + Zpos p) a2 H2) as H3. destruct (mine_search attempt p (n + 1 + Zpos p) a2) as [[]|a3]; auto. intuition lia.
  - pose proof (IH n a Ha) as H1. destruct (mine_search attempt p n a) as [[]|a1]; auto; [intuition lia |].
    pose proof (IH (n + Zpos p) a1 H1) as H2. destruct (mine_search attempt p (n + Zpos p) a1) as [[]|a2]; auto. intuition lia.
  - exact (Hone n a Ha).
Qed.
End run.
End mtp.
