(* ===== verification/MtpTheorems.v ===== *)
(** * MtpTheorems: completeness, binding and liveness of the proof of work

    The output of a successful mining run is accepted; an accepted proof for the
    root of an honest tree carries the honest blocks, proofs and hash, unless a
    message it makes the verifier hash clashes with the honest message of the
    same place; on a target that no hash can meet mining repeats forever. *)

From S2P Require Import Prelude Words Blake2b Blake2Spec Blake2bCorrect Blake2bHash.
From S2P Require Import Argon2 Argon2Core Argon2Threads Argon2Index Argon2ThreadsCorrect.
From S2P Require Import Argon2Init Argon2Blocks.
From S2P Require Import Merkle MerkleCorrect Arith256 Arith256Correct Arith256Compact PowCorrect.
From S2P Require Import Mtp MtpCorrect.

#[local] Opaque hash_y0 hash_yj compute_blake2b H0.

(** A null memory comes with an error code. *)
Lemma run_null malloc g2 g3 ctx inst i : ~ Argon2CtxMtp malloc g2 g3 ctx inst ARGON2_OK i None.
Proof.
  intros H. remember ARGON2_OK as rc eqn:Erc in H. remember (@None (list block)) as om eqn:Eom in H.
  destruct H as [Hv | res Hv Er Hne | res i' mem rc' m' Hv Er Hok Hi Hm Hf]; [exact (Hv Erc) | exact (Hne Erc) | discriminate].
Qed.

Section theorems.
Context (L : nat) (M_COST LANES : Z) (k : nat) (uint256_t : list Z -> Z) (malloc : allocator).
Context (h0_garbage blockhash_garbage bytes_garbage input : list Z).
Context (HE : environment_ok M_COST LANES k malloc h0_garbage blockhash_garbage bytes_garbage input).
Abbreviation ctx := (make_context M_COST LANES input).
Abbreviation inst0 := (make_instance h0_garbage ctx).
Abbreviation run := (Argon2CtxMtp malloc blockhash_garbage bytes_garbage ctx inst0).

(** A run of Argon2 that returns ARGON2_OK: its instance, memory and tree. *)
Record good_run (i : argon2_instance_t) (M : list block) (t : MerkleTree) : Prop := {
  gr_inst : i = set_hash_zero inst0 (H0 ctx Argon2_d ++ replicate 8 0);
  gr_mem : exists mem, M = fill_memory_blocks_st_mtp i mem /\ memory_ok i mem;
  gr_ok : memory_ok i M;
  gr_tree : new_MerkleTree (tree_elements i M) true = inl t }.

Lemma run_good i M : run ARGON2_OK i (Some M) -> exists t, good_run i M t.
Proof.
  intros Hr. destruct (argon2_run M_COST LANES k malloc _ _ _ input HE i M Hr) as (-> & mem & EM & Hmem & _ & HM).
  destruct (new_tree_full k _ (elements_ok M_COST LANES h0_garbage input M)
    (elements_length M_COST LANES k malloc _ _ _ input HE M)) as (t & Et & _).
  exists t. split; [reflexivity | exists mem; auto | exact HM | exact Et].
Qed.

(** The result of [mtp_hash1] after a good run. *)
Lemma hash1_good i M t vg target pow_limit a : good_run i M t -> arrays_ok L a ->
  mtp_hash1_from L M_COST LANES uint256_t input target pow_limit i M a = Hash1NewTree \/
  exists o, mtp_hash1_from L M_COST LANES uint256_t input target pow_limit i M a = Hash1Done o /\
    0 <= out_nonce o < 2 ^ 32 - 1 /\
    verified L M_COST LANES k uint256_t input t vg target pow_limit o.
Proof.
  intros [-> (mem & EM & Hmem) HM Et] Ha.
  unfold mtp_hash1_from. rewrite Et.
  pose proof (search_ok L M_COST LANES k uint256_t malloc _ _ _ input HE mem M EM Hmem HM t Et vg target pow_limit UINT_MAX 0 a Ha) as Hs.
  destruct (mine_search _ UINT_MAX 0 a) as [[o| | |]|a']; try contradiction; [|left; reflexivity].
  right. exists o. split; [reflexivity |]. destruct Hs as [Hv Hn]. split; [unfold UINT_MAX in Hn; lia | exact Hv].
Qed.
End theorems.

(** ** Completeness *)

Lemma hash1_verified L M_COST LANES k uint256_t malloc g1 g2 g3 input vg target pow_limit r :
  environment_ok M_COST LANES k malloc g1 g2 g3 input ->
  mtp_hash1 L M_COST LANES uint256_t malloc g1 g2 g3 input target pow_limit ARGON2_OK r ->
  r = Hash1NewTree \/
  exists o, r = Hash1Done o /\ 0 <= out_nonce o < 2 ^ 32 - 1 /\ output_ok L k o /\
    mtp_verify L M_COST LANES uint256_t vg input target (out_root o) (out_nonce o) (out_blocks o) (out_proofs o) pow_limit =
    Some (true, Some (out_hash o)).
Proof.
  intros HE H. remember ARGON2_OK as rc eqn:Erc. destruct H as [code i Hr|code i M a Hr L1 L2]; subst code.
  - exfalso. exact (run_null _ _ _ _ _ _ Hr).
  - destruct (run_good _ _ _ _ _ _ _ _ HE i M Hr) as (t & Hg).
    destruct (hash1_good L _ _ _ uint256_t _ _ _ _ _ HE i M t vg target pow_limit a Hg (conj L1 L2)) as [H|(o & E & Hn & _ & Ho & Hv)];
      [auto | right; exists o; auto].
Qed.

(** C1: what the miner finds, the verifier accepts.  For every header, target and
    limit: when Argon2 returns ARGON2_OK (whatever the interleaving of its
    threads), [mtp_hash1] throws no exception; it either returns false, all
    2^32 - 1 nonces having failed, or returns a root, a nonce below 2^32 - 1,
    2 L well-formed blocks, 3 L proofs of k hashes and a 256-bit hash such that
    [mtp_verify] returns true on them and reports that same hash. *)
Theorem mined_proof_verifies L M_COST LANES k uint256_t malloc g1 g2 g3 input vg target pow_limit r :
  environment_ok M_COST LANES k malloc g1 g2 g3 input ->
  mtp_hash1 L M_COST LANES uint256_t malloc g1 g2 g3 input target pow_limit ARGON2_OK r ->
  r = Hash1NewTree \/
  exists o, r = Hash1Done o /\ 0 <= out_nonce o < 2 ^ 32 - 1 /\ output_ok L k o /\
    mtp_verify L M_COST LANES uint256_t vg input target (out_root o) (out_nonce o) (out_blocks o) (out_proofs o) pow_limit =
    Some (true, Some (out_hash o)).
Proof. apply hash1_verified. Qed.

(** The allocator of an idle machine, and a header. *)
Definition sample_malloc : allocator := fun _ n => Some (replicate (Z.to_nat (n / ARGON2_BLOCK_SIZE)) (replicate 128 0)).
Definition sample_header : list Z := replicate 80 7.

(** A reader of hexadecimal strings, for the constructor of the big integer. *)
Definition hex_value (cs : list Z) : Z :=
  fold_left (fun acc c => 16 * acc + (if c <? 58 then c - 48 else c - 87)) (drop 2 cs) 0.

Lemma sample_environment : environment_ok code_M_COST code_LANES 22 sample_malloc
  (replicate 72 0) (replicate 72 0) (replicate 1024 0) sample_header.
Proof.
  split; [exact code_constants_ok | | reflexivity | reflexivity | reflexivity | cbn; lia | apply Forall_replicate; unfold word; lia].
  intros n m Hn E. unfold sample_malloc in E. apply (inj Some) in E. rewrite <- E. unfold ARGON2_BLOCK_SIZE. rewrite Z.div_mul by lia. rewrite length_replicate, Z2Nat.id by lia.
  split; [reflexivity |]. apply Forall_replicate. split; [reflexivity | apply Forall_replicate; unfold word; lia].
Qed.

Lemma sample_run : exists M, Argon2CtxMtp sample_malloc (replicate 72 0) (replicate 1024 0)
  (make_context code_M_COST code_LANES sample_header)
  (make_instance (replicate 72 0) (make_context code_M_COST code_LANES sample_header)) ARGON2_OK
  (set_hash_zero (make_instance (replicate 72 0) (make_context code_M_COST code_LANES sample_header))
    (H0 (make_context code_M_COST code_LANES sample_header) Argon2_d ++ replicate 8 0)) (Some M).
Proof.
  destruct (argon2_run_exists code_M_COST code_LANES 22 sample_malloc _ _ _ sample_header sample_environment
    (replicate (Z.to_nat (code_M_COST * ARGON2_BLOCK_SIZE / ARGON2_BLOCK_SIZE)) (replicate 128 0))) as (M & HM);
    [vm_compute; reflexivity | reflexivity | exists M; exact HM].
Qed.

Lemma mined_proof_verifies_witness : exists r,
  mtp_hash1 code_L code_M_COST code_LANES hex_value sample_malloc (replicate 72 0) (replicate 72 0) (replicate 1024 0)
    sample_header 0x207fffff (replicate 31 0xff ++ [0x7f]) ARGON2_OK r /\
  (r = Hash1NewTree \/ exists o, r = Hash1Done o /\ 0 <= out_nonce o < 2 ^ 32 - 1 /\ output_ok code_L 22 o /\
    mtp_verify code_L code_M_COST code_LANES hex_value (replicate 72 5) sample_header 0x207fffff (out_root o) (out_nonce o)
      (out_blocks o) (out_proofs o) (replicate 31 0xff ++ [0x7f]) = Some (true, Some (out_hash o))).
Proof.
  destruct sample_run as (M & HM). eexists. assert (H := hash1_runs code_L code_M_COST code_LANES hex_value sample_malloc (replicate 72 0)
    (replicate 72 0) (replicate 1024 0) sample_header 0x207fffff (replicate 31 0xff ++ [0x7f]) ARGON2_OK _ M
    (mk_arrays (replicate 32 []) (replicate 48 [])) HM eq_refl eq_refl).
  split; [exact H |]. exact (mined_proof_verifies code_L code_M_COST code_LANES 22 hex_value sample_malloc _ _ _ sample_header
    (replicate 72 5) 0x207fffff _ _ sample_environment H).
Defined.

(** ** Binding *)

Lemma digest_hash b : compute_blake2b b = Merkle.hash (StoreBlock (copy_block b)).
Proof. rewrite compute_blake2b_spec, merkle_hash_spec by apply StoreBlock_bytes. reflexivity. Qed.

Lemma flat_map_pieces {A} (f g : A -> list Z) n l : (forall x, length (f x) = n) -> (forall x, length (g x) = n) ->
  flat_map f l = flat_map g l -> forall x, In x l -> f x = g x.
Proof.
  intros Hf Hg. induction l as [|a l IH]; intros E x Hx; [destruct Hx |]. cbn [flat_map] in E.
  apply app_inj_1 in E as [E1 E2]; [|rewrite Hf, Hg; reflexivity]. destruct Hx as [<- |Hx]; auto.
Qed.

(** A block is determined by its bytes. *)
Lemma StoreBlock_inj b b' : Argon2Blocks.block_ok b -> Argon2Blocks.block_ok b' -> StoreBlock b = StoreBlock b' -> b = b'.
Proof.
  intros [Hl Fb] [Hl' Fb'] E. unfold StoreBlock in E.
  assert (Hs : forall c i, length (store64 (c .[ i ])) = 8%nat) by (intros; rewrite store64_low; apply le_encode_length).
  apply list_eq_same_length with 128%nat; [exact Hl' | exact Hl |]. intros i x x' Hi Hx Hx'.
  pose proof (flat_map_pieces _ _ 8 _ (Hs b) (Hs b') E i) as Ei. cbv beta in Ei. rewrite !store64_low in Ei.
  rewrite !nth_lookup, Hx, Hx' in Ei. cbn [from_option default id] in Ei.
  rewrite Forall_lookup in Fb, Fb'. pose proof (Fb _ _ Hx) as W. pose proof (Fb' _ _ Hx') as W'.
  assert (Ed : le_decode (le_encode 8 x) = le_decode (le_encode 8 x')) by (f_equal; apply Ei, in_seq; unfold ARGON2_QWORDS_IN_BLOCK; lia).
  rewrite !le_decode_encode in Ed. change (256 ^ Z.of_nat 8) with (2 ^ 64) in Ed.
  rewrite !Z.mod_small in Ed by assumption. exact Ed.
Qed.

(** The messages hashed to open block [b] at place [z]: its bytes, then the
    pairs on the way to the root. *)
Definition opened_messages (b : block) (proof : Elements) (z : Z) : list (list Z) :=
  StoreBlock (copy_block b) :: opening_messages proof (compute_blake2b b) (Z.to_nat z).

Lemma good_root M_COST LANES k malloc g1 g2 g3 input (HE : environment_ok M_COST LANES k malloc g1 g2 g3 input) i M t :
  good_run M_COST LANES g1 input i M t -> element_ok (getRoot t).
Proof. intros [-> _ _ Et]. exact (root_ok _ _ _ _ _ _ _ _ HE M t Et). Qed.

Section binding.
Context (L : nat) (M_COST LANES : Z) (k : nat) (uint256_t : list Z -> Z) (malloc : allocator).
Context (h0_garbage blockhash_garbage bytes_garbage input : list Z).
Context (HE : environment_ok M_COST LANES k malloc h0_garbage blockhash_garbage bytes_garbage input).
Context (i : argon2_instance_t) (M : list block) (t : MerkleTree).
Context (Hg : good_run M_COST LANES h0_garbage input i M t).
Abbreviation next_y := (next_y M_COST uint256_t M).

Abbreviation seg := (M_COST / (LANES * 4)).
Abbreviation Ln := (4 * seg).
Abbreviation path := (path M_COST LANES k h0_garbage input M).
Abbreviation carries := (carries M_COST LANES k uint256_t h0_garbage input M).

Lemma index_before_range ij : 0 <= ij < M_COST -> 0 <= index_before ij Ln < M_COST.
Proof.
  intros Hi. pose proof (cost_bounds M_COST LANES k malloc _ _ _ input HE) as (B1 & B2 & B3 & B4).
  pose proof (co_lanes _ _ _ (en_constants _ _ _ _ _ _ _ _ HE)) as HL.
  pose proof (Z.div_mod ij Ln ltac:(lia)) as Hd. pose proof (Z.mod_pos_bound ij Ln ltac:(lia)) as Hm.
  assert (Hq : 0 <= ij / Ln < LANES) by (split; [apply Z.div_pos; lia | apply Z.div_lt_upper_bound; lia]).
  assert (Hs : ij mod Ln = 0 -> ij + Ln <= M_COST) by nia.
  unfold index_before. destruct (Z.eqb_spec (ij mod Ln) 0) as [Hz|Hz], (Z.eqb_spec (ij mod Ln) 1); try specialize (Hs Hz); unwrap; lia.
Qed.

Lemma computed_ref_range ij w : 0 <= ij < M_COST -> 0 <= computed_ref_block seg Ln LANES ij w < M_COST.
Proof.
  intros Hi. pose proof (cost_bounds M_COST LANES k malloc _ _ _ input HE) as (B1 & B2 & B3 & B4).
  pose proof (co_lanes _ _ _ (en_constants _ _ _ _ _ _ _ _ HE)) as HL.
  assert (Hq : 0 <= ij / Ln < LANES) by (split; [apply Z.div_pos; lia | apply Z.div_lt_upper_bound; lia]).
  unfold computed_ref_block. cbv zeta. set (s := u32 (ij - _) / seg).
  set (rl := if s =? 0 then _ else _). set (x := IndexBeta _ _ _ _).
  assert (Hr : 0 <= rl < LANES).
  { unfold rl. destruct (s =? 0); [exact Hq |]. pose proof (Z.mod_pos_bound (w ≫ 32) LANES ltac:(lia)). unwrap. lia. }
  assert (Hx : 0 <= x < Ln).
  { unfold x, IndexBeta. cbn [lane_length]. set (q := u64 _ mod Ln).
    assert (0 <= q < Ln) by (apply Z.mod_pos_bound; lia). unwrap. lia. }
  assert (0 <= Ln * rl /\ Ln * rl + Ln <= M_COST) by nia. unwrap; lia.
Qed.

(** Every step presents two blocks of 128 words and three proofs of [k] hashes. *)
Record presented (bs : list block) (ps : list Elements) (j : nat) : Prop := {
  pr_blocks : forall n, (j * 2 - 2 <= n < j * 2)%nat -> Argon2Blocks.block_ok (nth n bs []);
  pr_proofs : forall n, (j * 3 - 3 <= n < j * 3)%nat -> length (nth n ps []) = k /\ Forall element_ok (nth n ps []) }.

(** Opening block [b] at place [z], beside the opening of the block of [M]. *)
Definition compared (b : block) (proof : Elements) (z : Z) : list (list Z * list Z) :=
  zip (opened_messages b proof z) (opened_messages (block_at M z) (path z) z).

(** All the messages that step [j] of the verifier hashes when it reaches the
    step with [y], each beside the honest message of the same place and layer. *)
Definition step_messages (h0 : list Z) (bs : list block) (ps : list Elements) (j : nat) (y : list Z) : list (list Z * list Z) :=
  let ij := index_of M_COST uint256_t y in
  let prev_block := nth (j * 2 - 2) bs [] in
  let ref_block := nth (j * 2 - 1) bs [] in
  let ref := computed_ref_block seg Ln LANES ij (prev_block .[ 0 ]) in
  compared prev_block (nth (j * 3 - 2) ps []) (index_before ij Ln) ++
  compared ref_block (nth (j * 3 - 1) ps []) ref ++
  compared (fill_block_mtp prev_block ref_block [] false ref h0) (nth (j * 3 - 3) ps []) ij.

Lemma opening_binds b proof z : 0 <= z < M_COST -> length proof = k -> Forall element_ok proof ->
  checkProofOrdered proof (getRoot t) (compute_blake2b b) (u32 (z + 1)) = Some true ->
  StoreBlock (copy_block b) = StoreBlock (copy_block (block_at M z)) /\ proof = path z \/ Exists clash (compared b proof z).
Proof.
  intros Hz Hl Hf Ec. destruct Hg as [Ei _ _ Et]. pose proof (en_constants _ _ _ _ _ _ _ _ HE) as HC.
  pose proof (elements_length M_COST LANES k malloc _ _ _ input HE M) as El.
  pose proof (elements_ok M_COST LANES h0_garbage input M) as Fe.
  pose proof (cost_nat M_COST LANES k malloc _ _ _ input HE _ Hz) as Hn.
  pose proof (elements_nth M_COST LANES k malloc _ _ _ input HE M _ Hz) as Enth.
  pose proof (cost_bounds M_COST LANES k malloc _ _ _ input HE) as (B1 & _). subst i.
  destruct (tree_opening k _ t _ (co_k _ _ _ HC) El Fe Et Hn) as (_ & Er & _). rewrite Er in Ec.
  rewrite wrap_small in Ec by (unfold word; lia). replace (z + 1) with (Z.of_nat (S (Z.to_nat z))) in Ec by lia.
  unfold compared, opened_messages. cbn [zip_with].
  destruct (tree_opening_sound k _ _ _ _ (co_k _ _ _ HC) El Fe Hn Hl Hf (digest_ok b) Ec) as [[Ed Ep]|Hc];
    [|right; right; rewrite <- Enth; exact Hc].
  rewrite Enth, !digest_hash in Ed.
  destruct (decide (StoreBlock (copy_block b) = StoreBlock (copy_block (block_at M z)))) as [E|Hne]; [left | right; left; split]; auto.
Qed.

(** An accepted step carries the honest blocks and proofs and computes the
    honest y[j], unless two of its messages clash. *)
Lemma verify_step_sound h0 bs ps j y y' : (1 <= j)%nat -> presented bs ps j ->
  verify_step M_COST LANES uint256_t h0 (getRoot t) bs ps j y = Some (Some y') ->
  y' = next_y y /\ carries j y bs ps \/ Exists clash (step_messages h0 bs ps j y).
Proof.
  intros Hj [Hb Hp] E. pose proof (index_range M_COST LANES k uint256_t malloc _ _ _ input HE y) as Hr.
  pose proof (cost_bounds M_COST LANES k malloc _ _ _ input HE) as (B1 & B2 & B3 & B4).
  pose proof (co_lanes _ _ _ (en_constants _ _ _ _ _ _ _ _ HE)) as HL.
  pose proof (inst_fields M_COST LANES k malloc _ _ _ input HE) as (F1 & F2 & F3 & _).
  pose proof (Hb (j * 2 - 2)%nat ltac:(lia)) as Ob. pose proof (Hb (j * 2 - 1)%nat ltac:(lia)) as Ob'.
  destruct (Hp (j * 3 - 3)%nat ltac:(lia)) as [L1 P1]. destruct (Hp (j * 3 - 2)%nat ltac:(lia)) as [L2 P2].
  destruct (Hp (j * 3 - 1)%nat ltac:(lia)) as [L3 P3].
  unfold verify_step, ARGON2_SYNC_POINTS in E. cbv zeta in E. destruct (Z.ltb_spec M_COST (2 * 4 * LANES)); [nia |].
  rewrite (wrap_small 32 (seg * 4)) in E by (unfold word; nia). replace (seg * 4) with Ln in E by lia.
  rewrite !(copy_block_ok _ Ob), !(copy_block_ok _ Ob') in E. unfold step_messages. cbv zeta.
  set (ij := index_of M_COST uint256_t y) in *. set (pb := nth (j * 2 - 2) bs []) in *. set (rb := nth (j * 2 - 1) bs []) in *.
  set (ref := computed_ref_block seg Ln LANES ij (pb .[ 0 ])) in *. set (b := fill_block_mtp pb rb [] false ref h0) in *.
  pose proof (index_before_range ij Hr) as Rp. pose proof (computed_ref_range ij (pb .[ 0 ]) Hr) as Rr. fold ref in Rr.
  destruct (checkProofOrdered (nth (j * 3 - 2) ps []) _ _ _) as [[]|] eqn:E2; cbn [check_opening] in E; [|discriminate|discriminate].
  destruct (checkProofOrdered (nth (j * 3 - 1) ps []) _ _ _) as [[]|] eqn:E3; cbn [check_opening] in E; [|discriminate|discriminate].
  destruct (checkProofOrdered (nth (j * 3 - 3) ps []) _ _ _) as [[]|] eqn:E1; cbn [check_opening] in E; [|discriminate|discriminate].
  apply (inj Some), (inj Some) in E. rewrite !Exists_app.
  destruct (opening_binds _ _ _ Rp L2 P2 E2) as [[Bp Qp]|]; [|auto].
  destruct (opening_binds _ _ _ Rr L3 P3 E3) as [[Br Qr]|]; [|auto].
  destruct (opening_binds _ _ _ Hr L1 P1 E1) as [[Bc Qc]|]; [|auto]. left.
  assert (OM : forall z, 0 <= z < M_COST -> Argon2Blocks.block_ok (block_at M z)).
  { intros z Hz. destruct Hg as [Ei _ HM _]. subst i. exact (block_index_range M_COST LANES k malloc _ _ _ input HE M HM z Hz). }
  rewrite !copy_block_ok in Bp, Br by auto. apply StoreBlock_inj in Bp; [|auto|auto]. apply StoreBlock_inj in Br; [|auto|auto].
  assert (Ip : prev_index M_COST LANES h0_garbage input M ij = index_before ij Ln)
    by (unfold prev_index, GetBlockIndex; cbn [fst]; rewrite F2; reflexivity).
  assert (Ir : ref_index M_COST LANES h0_garbage input M ij = ref).
  { unfold ref_index, GetBlockIndex. cbn [snd]. rewrite F1, F2, F3, <- Bp. reflexivity. }
  split; [subst y'; unfold MtpCorrect.next_y; fold ij; rewrite Bc; reflexivity |].
  split; fold ij pb rb; rewrite ?Ip, ?Ir, ?copy_block_ok by auto; assumption.
Qed.

Lemma verify_loop_sound h0 bs ps n j y y' : (1 <= j)%nat -> (forall j', (j <= j' < j + n)%nat -> presented bs ps j') ->
  verify_loop M_COST LANES uint256_t h0 (getRoot t) bs ps (seq j n) y = Some (Some y') ->
  y' = Nat.iter n next_y y /\ (forall m, (m < n)%nat -> carries (j + m) (Nat.iter m next_y y) bs ps) \/
  exists m, (m < n)%nat /\ Exists clash (step_messages h0 bs ps (j + m) (Nat.iter m next_y y)).
Proof.
  revert j y. induction n as [|n IH]; intros j y Hj Hp E; cbn [seq verify_loop] in E.
  - apply (inj Some), (inj Some) in E. left. split; [auto | lia].
  - destruct (verify_step _ _ _ _ _ _ _ j y) as [[y1|]|] eqn:Es; [|discriminate|discriminate].
    destruct (verify_step_sound h0 bs ps j y y1 Hj (Hp j ltac:(lia)) Es) as [[-> Hc]|Hc];
      [|right; exists 0%nat; rewrite Nat.add_0_r; split; [lia | exact Hc]].
    destruct (IH (S j) (next_y y) ltac:(lia)) as [[-> Hm]|(m & Hm & Hx)]; [intros; apply Hp; lia | exact E | left | right].
    + split; [rewrite Nat.iter_succ_r; reflexivity |]. intros [|m] Hm'; [rewrite Nat.add_0_r; exact Hc |].
      rewrite Nat.iter_succ_r, <- Nat.add_succ_comm. apply Hm. lia.
    + exists (S m). rewrite Nat.iter_succ_r, <- Nat.add_succ_comm. split; [lia | exact Hx].
Qed.
End binding.

(** C2: a verified hash is the honest one, and so are the data behind it.  Let M
    be the memory of a successful Argon2 run for the header, t its Merkle tree
    and y[j] the chain of hashes over blocks of M that the miner computes for a
    nonce.  Let blocks of 128 words and proofs of k hashes each (the shape the
    miner gives them) be presented with the root of t.  If [mtp_verify] reaches
    the comparison with the target, reporting y, then its result is exactly
    whether y meets the target, and: y is y[L] and in every step j the presented
    blocks and proofs are the ones of M and t for y[j - 1]; unless in some step
    j one of the 3 (k + 1) messages the verifier hashes, from the presented
    blocks and proofs at the places given by y[j - 1], differs from the message
    of the same place and layer of the honest tree and has the same 4-round
    BLAKE2b digest. *)
Theorem verified_hash_is_honest L M_COST LANES k uint256_t malloc g1 g2 g3 input vg target pow_limit i M t nonce bs ps b y :
  environment_ok M_COST LANES k malloc g1 g2 g3 input ->
  Argon2CtxMtp malloc g2 g3 (make_context M_COST LANES input) (make_instance g1 (make_context M_COST LANES input))
    ARGON2_OK i (Some M) ->
  new_MerkleTree (tree_elements i M) true = inl t ->
  (forall j, (1 <= j <= L)%nat -> presented k bs ps j) ->
  mtp_verify L M_COST LANES uint256_t vg input target (getRoot t) nonce bs ps pow_limit = Some (b, Some y) ->
  let y_at j := Nat.iter j (next_y M_COST uint256_t M) (hash_y0 input (getRoot t) nonce) in
  b = negb (hash_rejected target pow_limit y) /\
  (y = y_at L /\ (forall j, (j < L)%nat -> carries M_COST LANES k uint256_t g1 input M (S j) (y_at j) bs ps) \/
   exists j, (j < L)%nat /\
     Exists clash (step_messages M_COST LANES k uint256_t g1 input M (verify_h0 M_COST LANES input vg) bs ps (S j) (y_at j))).
Proof.
  intros HE Hr Et Hp E y_at. destruct (run_good _ _ _ _ _ _ _ _ HE i M Hr) as (t' & Hg).
  assert (t' = t) as -> by (destruct Hg; congruence).
  pose proof (good_root _ _ _ _ _ _ _ _ HE i M t Hg) as Hroot.
  rewrite (mtp_verify_eq L M_COST LANES uint256_t input vg) in E by exact Hroot.
  destruct (verify_loop _ _ _ _ _ _ _ _ _) as [[y1|]|] eqn:El; [|discriminate|discriminate].
  apply (inj Some) in E. assert (Ey : y1 = y) by congruence. subst y1. split; [congruence |].
  apply (verify_loop_sound _ _ k uint256_t _ _ _ _ input HE i M t Hg) in El; [exact El | lia | intros; apply Hp; lia].
Qed.

(** Honest data for every step are accepted. *)
Lemma verify_loop_complete M_COST LANES k uint256_t malloc g1 g2 g3 input i M t vg bs ps n j y :
  environment_ok M_COST LANES k malloc g1 g2 g3 input -> good_run M_COST LANES g1 input i M t ->
  (forall j' y, (j <= j' < j + n)%nat ->
    usable M_COST LANES uint256_t y /\ carries M_COST LANES k uint256_t g1 input M j' y bs ps) ->
  verify_loop M_COST LANES uint256_t (verify_h0 M_COST LANES input vg) (getRoot t) bs ps (seq j n) y =
  Some (Some (Nat.iter n (next_y M_COST uint256_t M) y)).
Proof.
  intros HE Hg. pose proof Hg as [-> (mem & EM & Hmem) HM Et]. revert j y.
  induction n as [|n IH]; intros j y H; [reflexivity |]. cbn [seq verify_loop]. rewrite Nat.iter_succ_r.
  destruct (H j y ltac:(lia)) as [Hu Hc].
  rewrite (verify_step_ok M_COST LANES k uint256_t malloc _ _ _ input HE mem M EM Hmem HM t Et vg j y bs ps Hu Hc).
  apply IH. intros; apply H; lia.
Qed.

Lemma verify_complete L M_COST LANES k uint256_t malloc g1 g2 g3 input i M t vg bs ps target pow_limit nonce :
  environment_ok M_COST LANES k malloc g1 g2 g3 input -> good_run M_COST LANES g1 input i M t ->
  (forall j y, (1 <= j < 1 + L)%nat ->
    usable M_COST LANES uint256_t y /\ carries M_COST LANES k uint256_t g1 input M j y bs ps) ->
  let y := Nat.iter L (next_y M_COST uint256_t M) (hash_y0 input (getRoot t) nonce) in
  mtp_verify L M_COST LANES uint256_t vg input target (getRoot t) nonce bs ps pow_limit =
  Some (negb (hash_rejected target pow_limit y), Some y).
Proof.
  intros HE Hg H y. rewrite mtp_verify_eq by exact (good_root _ _ _ _ _ _ _ _ HE _ _ _ Hg).
  rewrite (verify_loop_complete _ _ k _ malloc g1 g2 g3 _ i M) by auto. reflexivity.
Qed.

(** The same blocks and proofs for sixteen steps. *)
Definition repeat_blocks (b b' : block) : list block := flat_map (fun _ => [b; b']) (seq 1 16).
Definition repeat_proofs (p p' p'' : Elements) : list Elements := flat_map (fun _ => [p; p'; p'']) (seq 1 16).

Lemma repeated j b b' p p' p'' : (1 <= j <= 16)%nat ->
  nth (j * 2 - 2) (repeat_blocks b b') [] = b /\ nth (j * 2 - 1) (repeat_blocks b b') [] = b' /\
  nth (j * 3 - 3) (repeat_proofs p p' p'') [] = p /\ nth (j * 3 - 2) (repeat_proofs p p' p'') [] = p' /\
  nth (j * 3 - 1) (repeat_proofs p p' p'') [] = p''.
Proof.
  intros Hj. destruct j as [|j]; [lia |]. do 16 (destruct j as [|j]; [repeat split |]). lia.
Qed.

(** An integer constructor that always gives the same usable index, so that the
    opened blocks need no evaluation of the hashes. *)
Definition constant_index (cs : list Z) : Z := 12345.

Lemma verified_hash_is_honest_witness : exists i M t bs ps b y,
  Argon2CtxMtp sample_malloc (replicate 72 0) (replicate 1024 0) (make_context code_M_COST code_LANES sample_header)
    (make_instance (replicate 72 0) (make_context code_M_COST code_LANES sample_header)) ARGON2_OK i (Some M) /\
  mtp_verify code_L code_M_COST code_LANES constant_index (replicate 72 9) sample_header 0x207fffff (getRoot t) 7 bs ps
    (replicate 32 0xff) = Some (b, Some y) /\
  let y_at j := Nat.iter j (next_y code_M_COST constant_index M) (hash_y0 sample_header (getRoot t) 7) in
  (y = y_at code_L /\ (forall j, (j < code_L)%nat ->
     carries code_M_COST code_LANES 22 constant_index (replicate 72 0) sample_header M (S j) (y_at j) bs ps) \/
   exists j, (j < code_L)%nat /\
     Exists clash (step_messages code_M_COST code_LANES 22 constant_index (replicate 72 0) sample_header M
       (verify_h0 code_M_COST code_LANES sample_header (replicate 72 9)) bs ps (S j) (y_at j))).
Proof.
  destruct sample_run as (M & HM). pose proof sample_environment as HE.
  destruct (run_good _ _ _ _ _ _ _ _ HE _ _ HM) as (t & Hg).
  pose proof Hg as [_ (mem & EM & Hmem) HMok Et].
  set (pr := prev_index code_M_COST code_LANES (replicate 72 0) sample_header M 12345).
  set (rf := ref_index code_M_COST code_LANES (replicate 72 0) sample_header M 12345).
  set (bs := repeat_blocks (copy_block (block_at M pr)) (copy_block (block_at M rf))).
  set (pth := path code_M_COST code_LANES 22 (replicate 72 0) sample_header M).
  set (ps := repeat_proofs (pth 12345) (pth pr) (pth rf)).
  assert (Ei : forall y, index_of code_M_COST constant_index y = 12345) by reflexivity.
  assert (H : forall j y, (1 <= j < 1 + code_L)%nat -> usable code_M_COST code_LANES constant_index y /\
    carries code_M_COST code_LANES 22 constant_index (replicate 72 0) sample_header M j y bs ps).
  { intros j y Hj. unfold code_L in Hj. split; [unfold usable; rewrite Ei; split; vm_compute; discriminate |].
    destruct (repeated j (copy_block (block_at M pr)) (copy_block (block_at M rf)) (pth 12345) (pth pr) (pth rf)) as (R1 & R2 & R3 & R4 & R5); [lia |].
    split; rewrite Ei; [exact R1 | exact R2 | exact R3 | exact R4 | exact R5]. }
  pose proof (verify_complete code_L code_M_COST code_LANES 22 constant_index _ _ _ _ sample_header _ M t (replicate 72 9) bs ps
    0x207fffff (replicate 32 0xff) 7 HE Hg H) as Hv. cbv zeta in Hv.
  eexists _, M, t, bs, ps, _, _. split; [exact HM |]. split; [exact Hv |].
  refine (proj2 (verified_hash_is_honest code_L code_M_COST code_LANES 22 constant_index sample_malloc _ _ _ sample_header
    (replicate 72 9) 0x207fffff (replicate 32 0xff) _ M t 7 bs ps _ _ HE HM Et _ Hv)).
  intros j Hj. destruct (H j [] ltac:(lia)) as [Hu Hc].
  destruct (carries_ok code_M_COST code_LANES 22 constant_index _ _ _ _ sample_header HE mem M EM Hmem HMok j [] bs ps ltac:(lia) Hu Hc) as [O1 O2].
  split; assumption.
Defined.

(** ** Targets no hash can meet *)

(** A compact target that encodes a number between 1 and the limit. *)
Definition target_usable (target : Z) (pow_limit : list Z) : Prop :=
  let t := scaled (target / 2 ^ 24) (target mod 2 ^ 23) in
  Z.testbit target 23 = false /\ 1 <= t <= le_decode pow_limit.

Lemma bad_target_rejects target pow_limit y : word 32 target -> blob_ok pow_limit -> ~ target_usable target pow_limit ->
  hash_rejected target pow_limit y = true.
Proof.
  intros Ht Hp Hbad.
  assert (Hz : blob_ok (replicate 32 0)) by (split; [reflexivity | apply Forall_replicate; unfold word; lia]).
  pose proof (target_met (replicate 32 0) target pow_limit Hz Ht Hp) as Hm. cbv zeta in Hm. unfold hash_rejected.
  destruct (SetCompact_spec target Ht) as (v & Es & Hok & _). destruct (blob_value _ Hz) as [Hzok Hze].
  destruct (SetCompact target) as [[v' ng] ov]. assert (v' = v) as -> by congruence. clear Es.
  rewrite (CompareTo_gt _ v Hzok Hok), Hze in Hm. change (le_decode (replicate 32 0)) with 0 in Hm.
  pose proof (ok_bounds _ _ Hok) as Bv. replace (eval v <? 0) with false in Hm by (symmetry; apply Z.ltb_ge; lia).
  rewrite orb_false_r in Hm. destruct (ng || EqualTo v 0 || ov || (0 <? CompareTo v (UintToArith256 pow_limit))); [reflexivity |].
  exfalso. apply Hbad. destruct (proj1 Hm eq_refl) as (H1 & H2 & _). split; assumption.
Qed.

Lemma search_never_done L M_COST LANES uint256_t input root target pow_limit inst M t p n a o :
  (forall y, hash_rejected target pow_limit y = true) ->
  mine_search (mine_attempt L M_COST LANES uint256_t input root target pow_limit inst M t) p n a <> inl (Hash1Done o).
Proof.
  intros Hr. set (att := mine_attempt _ _ _ _ _ _ _ _ _ _ _).
  assert (Hone : forall n a, att n a <> inl (Hash1Done o)).
  { intros n0 a0. unfold att, mine_attempt. destruct (mine_chain _ _ _ _ _ _ _ _ _) as [y a1|a1|e]; [rewrite Hr | |]; discriminate. }
  revert n a. induction p as [p IH|p IH|]; intros n a; cbn [mine_search]; [| |apply Hone].
  - pose proof (Hone n a). destruct (att n a) as [r|a1]; [congruence |].
    pose proof (IH (n + 1) a1). destruct (mine_search att p (n + 1) a1) as [r|a2]; [congruence | apply IH].
  - pose proof (IH n a). destruct (mine_search att p n a) as [r|a2]; [congruence | apply IH].
Qed.

(** C40: on a target that no hash can meet (negative, zero, or above the limit)
    mining does not end: with Argon2 returning ARGON2_OK every call of
    [mtp_hash1] tries all nonces and returns false, and no sequence of calls
    lets [mtp_hash] return, whatever Argon2 returns. *)
Theorem mining_repeats_on_bad_target L M_COST LANES k uint256_t malloc g1 g2 g3 input target pow_limit :
  environment_ok M_COST LANES k malloc g1 g2 g3 input ->
  word 32 target -> blob_ok pow_limit -> ~ target_usable target pow_limit ->
  (forall r, mtp_hash1 L M_COST LANES uint256_t malloc g1 g2 g3 input target pow_limit ARGON2_OK r -> r = Hash1NewTree) /\
  (forall code o, ~ mtp_hash L M_COST LANES uint256_t malloc g1 g2 g3 input target pow_limit code o).
Proof.
  intros HE Ht Hp Hbad. pose proof (fun y => bad_target_rejects target pow_limit y Ht Hp Hbad) as Hrej.
  assert (Hnever : forall i M a o, mtp_hash1_from L M_COST LANES uint256_t input target pow_limit i M a <> Hash1Done o).
  { intros i M a o. unfold mtp_hash1_from. destruct (new_MerkleTree _ _) as [t|e]; [|discriminate].
    pose proof (search_never_done L M_COST LANES uint256_t input (getRoot t) target pow_limit i M t UINT_MAX 0 a o Hrej) as Hs.
    destruct (mine_search _ UINT_MAX 0 a) as [r|a']; [congruence | discriminate]. }
  split.
  - intros r H. remember ARGON2_OK as rc eqn:Erc. destruct H as [code i Hr|code i M a Hr L1 L2]; subst code.
    + exfalso. exact (run_null _ _ _ _ _ _ Hr).
    + destruct (run_good _ _ _ _ _ _ _ _ HE i M Hr) as (t & Hg).
      destruct (hash1_good L _ _ _ uint256_t _ _ _ _ _ HE i M t [] target pow_limit a Hg (conj L1 L2)) as [H|(o & E & _)];
        [exact H | exfalso; exact (Hnever i M a o E)].
  - intros code o H. induction H as [code o H | code code' o _ _ IH]; [|exact IH].
    remember (Hash1Done o) as r eqn:Er. destruct H as [code i Hr|code i M a Hr L1 L2]; [discriminate | exact (Hnever i M a o Er)].
Qed.

Lemma mining_repeats_witness : ~ target_usable 0 (replicate 32 0xff) /\
  exists r, mtp_hash1 code_L code_M_COST code_LANES hex_value sample_malloc (replicate 72 0) (replicate 72 0) (replicate 1024 0)
    sample_header 0 (replicate 32 0xff) ARGON2_OK r /\ r = Hash1NewTree.
Proof.
  assert (Hbad : ~ target_usable 0 (replicate 32 0xff)) by (intros [_ H]; vm_compute in H; destruct H as [H _]; apply H; reflexivity).
  split; [exact Hbad |]. destruct sample_run as (M & HM).
  assert (H := hash1_runs code_L code_M_COST code_LANES hex_value sample_malloc (replicate 72 0) (replicate 72 0) (replicate 1024 0)
    sample_header 0 (replicate 32 0xff) ARGON2_OK _ M (mk_arrays (replicate 32 []) (replicate 48 [])) HM eq_refl eq_refl).
  eexists. split; [exact H |].
  refine (proj1 (mining_repeats_on_bad_target code_L code_M_COST code_LANES 22 hex_value sample_malloc _ _ _ sample_header 0 (replicate 32 0xff)
    sample_environment _ _ Hbad) _ H); [unfold word; lia |].
  split; [reflexivity | apply Forall_replicate; unfold word; lia].
Defined.
