(* ===== verification/BlockHeader.v ===== *)
(** * BlockHeader: block headers with a Merkle tree proof

    Models [CMTPHashData] and [CBlockHeader] of primitives/block.h and block.cpp
    (fields, serialization, hashes), [mtp::hash] and [mtp::verify] of
    crypto/MerkleTreeProof/mtp.cpp, [CheckMerkleTreeProof] of pow.cpp, and the
    checks of a header in [CheckBlockHeader] and [ReadBlockFromDisk] of
    validation.cpp.

    [nMTPSwitchTime] is the consensus parameter of that name. *)

From S2P Require Import Prelude Words Blake2b SphBlake Lyra2 Argon2 Argon2Core Argon2Threads Merkle Arith256 Pow Mtp Serialize.

(** ** Headers *)

Record CMTPHashData := mk_hash_data { hashRootMTP : list Z; nBlockMTP : list block; nProofMTP : list Elements }.

(** [mtpHashData] is a shared pointer, possibly null. *)
Record CBlockHeader := mk_header {
  nVersion : Z; hashPrevBlock : list Z; hashMerkleRoot : list Z; hdr_nTime : Z; hdr_nBits : Z; nNonce : Z;
  nVersionMTP : Z; mtpHashValue : list Z; reserved0 : list Z; reserved1 : list Z;
  mtpHashData : option CMTPHashData; cachedPoWHash : list Z }.

Definition ZC_GENESIS_BLOCK_TIME : Z := 1539907200.
Definition CURRENT_VERSION : Z := 2.
Definition GetZerocoinChainID : Z := 0x2718.
Definition BLOCK_VERSION_CHAIN_START : Z := 1 ≪ 16.

Definition null256 : list Z := replicate 32 0.
Definition IsNull (blob : list Z) : bool := forallb (fun b => b =? 0) blob.

(** [SetNull] leaves [nVersionMTP] alone; a new header has it at 0x1000. *)
Definition SetNull (h : CBlockHeader) : CBlockHeader :=
  mk_header (Z.lor CURRENT_VERSION (GetZerocoinChainID * BLOCK_VERSION_CHAIN_START)) null256 null256 0 0 0
    (nVersionMTP h) null256 null256 null256 None null256.

Definition IsMTP (nMTPSwitchTime : Z) (h : CBlockHeader) : bool :=
  (ZC_GENESIS_BLOCK_TIME <? hdr_nTime h) && (nMTPSwitchTime <=? hdr_nTime h).

(** ** Serialization *)

Section serialization.
Context (MTP_L : nat).

(** One proof: its number of hashes in a byte, then the hashes; [None] is a
    failed assertion. *)
Definition write_proof (p : Elements) : option stream :=
  if negb (length p <? 256)%nat then None else
  if negb (forallb (fun mtpData => (length mtpData =? 16)%nat) p) then None else
  Some (ser_writedata8 (Z.of_nat (length p)) ++ concat p).

Fixpoint write_proofs (ps : list Elements) : option stream :=
  match ps with
  | [] => Some []
  | p :: ps => b ← write_proof p; bs ← write_proofs ps; Some (b ++ bs)
  end.

Definition Serialize_hash_data (d : CMTPHashData) : option stream :=
  proofs ← write_proofs (nProofMTP d);
  Some (hashRootMTP d ++ flat_map (flat_map ser_writedata64) (nBlockMTP d) ++ proofs).

Definition read_proof : reader Elements := fun s =>
  '(numberOfProofBlocks, s) ← ser_readdata8 s; read_array (read 16) (Z.to_nat numberOfProofBlocks) s.

Definition Unserialize_hash_data : reader CMTPHashData := fun s =>
  '(root, s) ← read 16 s;
  '(blocks, s) ← read_array (read_array ser_readdata64 128) (MTP_L * 2) s;
  '(proofs, s) ← read_array read_proof (MTP_L * 3) s;
  Some (mk_hash_data root blocks proofs, s).

(** The six fields of every header: also the bytes that [BEGIN(nVersion)]
    points to, on a little-endian machine. *)
Definition base_fields (h : CBlockHeader) : stream :=
  ser_writedata32 (nVersion h) ++ hashPrevBlock h ++ hashMerkleRoot h ++ ser_writedata32 (hdr_nTime h) ++
  ser_writedata32 (hdr_nBits h) ++ ser_writedata32 (nNonce h).

Definition mtp_fields (h : CBlockHeader) : stream :=
  ser_writedata32 (nVersionMTP h) ++ mtpHashValue h ++ reserved0 h ++ reserved1 h.

(** [gethash]: the stream has the type flag SER_GETHASH. *)
Definition Serialize_header (nMTPSwitchTime : Z) (gethash : bool) (h : CBlockHeader) : option stream :=
  if IsMTP nMTPSwitchTime h then
    match mtpHashData h with
    | Some d => if negb gethash then data ← Serialize_hash_data d; Some (base_fields h ++ mtp_fields h ++ data)
                else Some (base_fields h ++ mtp_fields h)
    | None => Some (base_fields h ++ mtp_fields h)
    end
  else Some (base_fields h).

(** Reading overwrites the fields of an existing header [h]. *)
Definition read_base_fields (h : CBlockHeader) : reader CBlockHeader := fun s =>
  '(version, s) ← Unserialize_int32 s;
  '(prev, s) ← read 32 s;
  '(root, s) ← read 32 s;
  '(time, s) ← ser_readdata32 s;
  '(bits, s) ← ser_readdata32 s;
  '(nonce, s) ← ser_readdata32 s;
  Some (mk_header version prev root time bits nonce (nVersionMTP h) (mtpHashValue h) (reserved0 h) (reserved1 h)
          (mtpHashData h) (cachedPoWHash h), s).

Definition read_mtp_fields (h : CBlockHeader) : reader CBlockHeader := fun s =>
  '(version, s) ← Unserialize_int32 s;
  '(value, s) ← read 32 s;
  '(r0, s) ← read 32 s;
  '(r1, s) ← read 32 s;
  Some (mk_header (nVersion h) (hashPrevBlock h) (hashMerkleRoot h) (hdr_nTime h) (hdr_nBits h) (nNonce h)
          version value r0 r1 (mtpHashData h) (cachedPoWHash h), s).

Definition set_mtpHashData (h : CBlockHeader) (d : option CMTPHashData) : CBlockHeader :=
  mk_header (nVersion h) (hashPrevBlock h) (hashMerkleRoot h) (hdr_nTime h) (hdr_nBits h) (nNonce h)
    (nVersionMTP h) (mtpHashValue h) (reserved0 h) (reserved1 h) d (cachedPoWHash h).

Definition Unserialize_header (nMTPSwitchTime : Z) (h : CBlockHeader) : reader CBlockHeader := fun s =>
  '(h, s) ← read_base_fields h s;
  if IsMTP nMTPSwitchTime h then
    '(h, s) ← read_mtp_fields h s;
    '(d, s) ← Unserialize_hash_data s;
    Some (set_mtpHashData h (Some d), s)
  else Some (h, s).

(** [SerializationOp] for [CReadBlockHeader]: without the proof data. *)
Definition ReadBlockHeader (nMTPSwitchTime : Z) (h : CBlockHeader) : reader CBlockHeader := fun s =>
  '(h, s) ← read_base_fields h s;
  if IsMTP nMTPSwitchTime h then read_mtp_fields h s else Some (h, s).
End serialization.

(** ** Hashes *)

Section lyra2z.
(** The allocations and the uninitialised buffers of [lyra2z_hash]. *)
Context (alloc : nat -> bool) (blake_ctx : SphBlake.context) (hashB : list Z).

Definition GetHash (h : CBlockHeader) : list Z := lyra2z_hash alloc blake_ctx hashB (base_fields h).

(** The value and the header with its mutable cache. *)
Definition GetPoWHash (nMTPSwitchTime : Z) (h : CBlockHeader) : list Z * CBlockHeader :=
  if negb (IsNull (cachedPoWHash h)) then (cachedPoWHash h, h) else
  let powHash := if IsMTP nMTPSwitchTime h then mtpHashValue h else GetHash h in
  (powHash, mk_header (nVersion h) (hashPrevBlock h) (hashMerkleRoot h) (hdr_nTime h) (hdr_nBits h) (nNonce h)
              (nVersionMTP h) (mtpHashValue h) (reserved0 h) (reserved1 h) (mtpHashData h) powHash).

(** [false] is the rejection "high-hash".  The height that the code looks up is
    not used by [GetPoWHash]. *)
Definition CheckBlockHeader (nMTPSwitchTime : Z) (h : CBlockHeader) (params : Params) (fCheckPOW : bool) : bool * CBlockHeader :=
  if fCheckPOW then
    let '(hash, h) := GetPoWHash nMTPSwitchTime h in
    if negb (CheckProofOfWork hash (hdr_nBits h) params) then (false, h) else (true, h)
  else (true, h).
End lyra2z.

(** ** The Merkle tree proof of a header *)

(** The bytes of the stream. *)
Definition serializeMtpHeader (h : CBlockHeader) : stream :=
  ser_writedata32 (nVersion h) ++ hashPrevBlock h ++ hashMerkleRoot h ++ ser_writedata32 (hdr_nTime h) ++
  ser_writedata32 (hdr_nBits h) ++ ser_writedata32 (nVersionMTP h).

(** The miner assigns the result of [mtp::hash] to [mtpHashValue]. *)
Definition set_mtpHashValue (h : CBlockHeader) (v : list Z) : CBlockHeader :=
  mk_header (nVersion h) (hashPrevBlock h) (hashMerkleRoot h) (hdr_nTime h) (hdr_nBits h) (nNonce h)
    (nVersionMTP h) v (reserved0 h) (reserved1 h) (mtpHashData h) (cachedPoWHash h).

Section proof.
Context (L : nat) (M_COST LANES : Z) (uint256_t : list Z -> Z) (malloc : allocator).
Context (h0_garbage blockhash_garbage bytes_garbage : list Z).

(** The header after [mtp::hash] and the value it returns, for the last return
    code of Argon2: the nonce and the proof data are stored in the header. *)
Inductive hash (h : CBlockHeader) (powLimit : list Z) : argon2_error_codes -> CBlockHeader -> list Z -> Prop :=
  | hash_found code o :
      mtp_hash L M_COST LANES uint256_t malloc h0_garbage blockhash_garbage bytes_garbage
        (serializeMtpHeader h) (hdr_nBits h) powLimit code o ->
      hash h powLimit code
        (mk_header (nVersion h) (hashPrevBlock h) (hashMerkleRoot h) (hdr_nTime h) (hdr_nBits h) (out_nonce o)
           (nVersionMTP h) (mtpHashValue h) (reserved0 h) (reserved1 h)
           (Some (mk_hash_data (out_root o) (out_blocks o) (out_proofs o))) (cachedPoWHash h))
        (out_hash o).

(** The result and the value stored at the pointer; [None] for a null
    [mtpHashData] or an undefined operation. *)
Definition verify (nonce : Z) (h : CBlockHeader) (powLimit : list Z) : option (bool * option (list Z)) :=
  match mtpHashData h with
  | None => None
  | Some d => mtp_verify L M_COST LANES uint256_t h0_garbage (serializeMtpHeader h) (hdr_nBits h) (hashRootMTP d) nonce
                (nBlockMTP d) (nProofMTP d) powLimit
  end.

(** [calculatedMtpHashValue] is zero unless stored to. *)
Definition CheckMerkleTreeProof (nMTPSwitchTime : Z) (h : CBlockHeader) (params : Params) : option bool :=
  if negb (IsMTP nMTPSwitchTime h) then Some true else
  match mtpHashData h with
  | None => Some false
  | Some _ =>
      match verify (nNonce h) h (powLimit params) with
      | None => None
      | Some (ok, v) => Some (ok && bool_decide (mtpHashValue h = default null256 v))
      end
  end.

(** The checks of [ReadBlockFromDisk] on the header it has read. *)
Definition check_read_header (alloc : nat -> bool) (blake_ctx : SphBlake.context) (hashB : list Z)
    (nMTPSwitchTime : Z) (h : CBlockHeader) (params : Params) : option bool :=
  match CheckMerkleTreeProof nMTPSwitchTime h params with
  | None => None
  | Some false => Some false
  | Some true => Some (CheckProofOfWork (fst (GetPoWHash alloc blake_ctx hashB nMTPSwitchTime h)) (hdr_nBits h) params)
  end.
End proof.
