(* ===== verification/MtpBlock.v ===== *)
(** * MtpBlock: a mined block is valid, also after a trip through a file

    Composes the mining of a header ([mtp::hash]), its serialization and the
    checks that [ReadBlockFromDisk] and [CheckBlockHeader] make on the header
    that is read back.

    Round trip of headers with their proof data, rejection of truncated
    messages, and what the reader lets through that the check of the proof
    cannot handle. *)

From S2P Require Import Prelude Words Blake2b SphBlake Lyra2 Argon2 Argon2Core Argon2Threads Argon2Blocks Serialize SerializeCorrect Merkle MerkleCorrect Arith256 Pow Mtp MtpCorrect MtpTheorems BlockHeader.

(** ** Proof data *)

(** What the arrays of [CMTPHashData] hold: the sizes the types fix, and proofs
    of at most 255 hashes of 16 bytes. *)
Definition proof_shape (p : Elements) : Prop := (length p < 256)%nat /\ Forall (fun e => length e = 16%nat) p.
Record data_ok (L : nat) (d : CMTPHashData) : Prop := {
  do_root : length (hashRootMTP d) = 16%nat;
  do_blocks : length (nBlockMTP d) = (L * 2)%nat /\ Forall (fun b => length b = 128%nat /\ Forall (word 64) b) (nBlockMTP d);
  do_proofs : length (nProofMTP d) = (L * 3)%nat /\ Forall proof_shape (nProofMTP d) }.

Definition proof_bytes (p : Elements) : stream := ser_writedata8 (Z.of_nat (length p)) ++ flat_map id p.
Definition data_bytes (d : CMTPHashData) : stream :=
  hashRootMTP d ++ flat_map (flat_map ser_writedata64) (nBlockMTP d) ++ flat_map proof_bytes (nProofMTP d).

Lemma concat_flat_map {A} (ls : list (list A)) : concat ls = flat_map id ls.
Proof. induction ls as [|l ls IH]; [reflexivity |]. cbn [concat flat_map]. rewrite IH. reflexivity. Qed.

Lemma write_proof_bytes p : proof_shape p -> write_proof p = Some (proof_bytes p).
Proof.
  intros [Hl HF]. unfold write_proof, proof_bytes. rewrite (proj2 (Nat.ltb_lt _ _) Hl), concat_flat_map. cbn [negb].
  replace (forallb _ p) with true; [reflexivity |]. symmetry. apply forallb_forall. intros e He.
  apply Nat.eqb_eq. rewrite Forall_forall in HF. apply HF. apply list_elem_of_In. exact He.
Qed.

Lemma write_proofs_bytes ps : Forall proof_shape ps -> write_proofs ps = Some (flat_map proof_bytes ps).
Proof.
  induction 1 as [|p ps Hp _ IH]; [reflexivity |]. cbn [write_proofs flat_map]. rewrite (write_proof_bytes p Hp), IH. reflexivity.
Qed.

Lemma serialize_data L d : data_ok L d -> Serialize_hash_data d = Some (data_bytes d).
Proof. intros [_ _ [_ HF]]. unfold Serialize_hash_data. rewrite (write_proofs_bytes _ HF). reflexivity. Qed.

#[export] Instance proof_round_trip : RoundTrip proof_bytes read_proof proof_shape.
Proof.
  split; [|apply extends_bind; [apply le_extends | intros n; apply (array_extends (read 16)); apply _]].
  intros p rest [Hl HF]. unfold proof_bytes, read_proof. rewrite <- app_assoc.
  rewrite (round_trip (dec := ser_readdata8) (Z.of_nat (length p))) by (unfold word; lia). cbn [mbind option_bind].
  rewrite Nat2Z.id. apply (round_trip (enc := flat_map id)). auto.
Qed.

Ltac extends_tac := repeat first [apply _ | apply extends_some | apply extends_bind | intros ?].

#[export] Instance data_round_trip L : RoundTrip data_bytes (Unserialize_hash_data L) (data_ok L).
Proof.
  split; [|unfold Unserialize_hash_data; extends_tac].
  intros [root blocks proofs] rest [H1 H2 H3]. unfold data_bytes, Unserialize_hash_data. cbn [hashRootMTP nBlockMTP nProofMTP] in *.
  rewrite <- !app_assoc. rewrite (round_trip (enc := id) root) by exact H1. cbn [mbind option_bind].
  rewrite (round_trip (dec := read_array (read_array ser_readdata64 128) (L * 2)) blocks) by exact H2. cbn [mbind option_bind].
  rewrite (round_trip (dec := read_array read_proof (L * 3)) proofs) by exact H3. reflexivity.
Qed.

(** ** Headers *)

(** The ranges of the fields; a header of an MTP block has its proof data. *)
Record header_ok (L : nat) (nMTPSwitchTime : Z) (h : CBlockHeader) : Prop := {
  ho_versions : - 2 ^ 31 <= nVersion h < 2 ^ 31 /\ - 2 ^ 31 <= nVersionMTP h < 2 ^ 31;
  ho_words : word 32 (hdr_nTime h) /\ word 32 (hdr_nBits h) /\ word 32 (nNonce h);
  ho_links : length (hashPrevBlock h) = 32%nat /\ length (hashMerkleRoot h) = 32%nat;
  ho_blobs : length (mtpHashValue h) = 32%nat /\ length (reserved0 h) = 32%nat /\ length (reserved1 h) = 32%nat;
  ho_data : IsMTP nMTPSwitchTime h = true -> exists d, mtpHashData h = Some d /\ data_ok L d }.

(** The first six fields of [h], the other ones of [h0]. *)
Definition with_base (h h0 : CBlockHeader) : CBlockHeader :=
  mk_header (nVersion h) (hashPrevBlock h) (hashMerkleRoot h) (hdr_nTime h) (hdr_nBits h) (nNonce h)
    (nVersionMTP h0) (mtpHashValue h0) (reserved0 h0) (reserved1 h0) (mtpHashData h0) (cachedPoWHash h0).

(** All fields of [h], the given proof data, the cache of [h0]. *)
Definition with_all (h : CBlockHeader) (d : option CMTPHashData) (h0 : CBlockHeader) : CBlockHeader :=
  mk_header (nVersion h) (hashPrevBlock h) (hashMerkleRoot h) (hdr_nTime h) (hdr_nBits h) (nNonce h)
    (nVersionMTP h) (mtpHashValue h) (reserved0 h) (reserved1 h) d (cachedPoWHash h0).

(** The header that a receiver has after reading [h] into [h0]. *)
Definition received (nMTPSwitchTime : Z) (h h0 : CBlockHeader) : CBlockHeader :=
  if IsMTP nMTPSwitchTime h then with_all h (mtpHashData h) h0 else with_base h h0.

#[export] Instance base_extends h0 : Extends (read_base_fields h0).
Proof. unfold read_base_fields. extends_tac. Qed.
#[export] Instance mtp_extends h0 : Extends (read_mtp_fields h0).
Proof. unfold read_mtp_fields. extends_tac. Qed.

Lemma read_base L switch h h0 rest : header_ok L switch h ->
  read_base_fields h0 (base_fields h ++ rest) = Some (with_base h h0, rest).
Proof.
  intros [[V _] (W1 & W2 & W3) [B1 B2] _ _]. unfold read_base_fields, base_fields. rewrite <- !app_assoc.
  rewrite (round_trip (dec := Unserialize_int32) (nVersion h)) by exact V. cbn [mbind option_bind].
  rewrite (round_trip (enc := id) (hashPrevBlock h)) by exact B1. cbn [mbind option_bind].
  rewrite (round_trip (enc := id) (hashMerkleRoot h)) by exact B2. cbn [mbind option_bind].
  rewrite (round_trip (dec := ser_readdata32) (hdr_nTime h)) by exact W1. cbn [mbind option_bind].
  rewrite (round_trip (dec := ser_readdata32) (hdr_nBits h)) by exact W2. cbn [mbind option_bind].
  rewrite (round_trip (dec := ser_readdata32) (nNonce h)) by exact W3. reflexivity.
Qed.

Lemma read_mtp L switch h h0 rest : header_ok L switch h ->
  read_mtp_fields (with_base h h0) (mtp_fields h ++ rest) = Some (with_all h (mtpHashData h0) h0, rest).
Proof.
  intros [[_ V] _ _ (B1 & B2 & B3) _]. unfold read_mtp_fields, mtp_fields. rewrite <- !app_assoc.
  rewrite (round_trip (dec := Unserialize_int32) (nVersionMTP h)) by exact V. cbn [mbind option_bind].
  rewrite (round_trip (enc := id) (mtpHashValue h)) by exact B1. cbn [mbind option_bind].
  rewrite (round_trip (enc := id) (reserved0 h)) by exact B2. cbn [mbind option_bind].
  rewrite (round_trip (enc := id) (reserved1 h)) by exact B3. reflexivity.
Qed.

#[export] Instance header_extends L switch h0 : Extends (Unserialize_header L switch h0).
Proof.
  unfold Unserialize_header. apply extends_bind; [apply _ |]. intros h. apply extends_if; [|auto with ser].
  apply extends_bind; [apply _ |]. intros h1. apply extends_bind; [apply data_round_trip | auto with ser].
Qed.

(** The bytes of a well-formed header. *)
Definition header_bytes (switch : Z) (h : CBlockHeader) : stream :=
  base_fields h ++ if IsMTP switch h then mtp_fields h ++ match mtpHashData h with Some d => data_bytes d | None => [] end else [].

Lemma serialize_header L switch h : header_ok L switch h -> Serialize_header switch false h = Some (header_bytes switch h).
Proof.
  intros Hh. unfold Serialize_header, header_bytes. destruct (IsMTP switch h) eqn:E; [|rewrite app_nil_r; reflexivity].
  destruct (ho_data _ _ _ Hh E) as (d & -> & Hd). cbn [negb]. rewrite (serialize_data L d Hd). reflexivity.
Qed.

Lemma unserialize_header L switch h h0 rest : header_ok L switch h ->
  Unserialize_header L switch h0 (header_bytes switch h ++ rest) = Some (received switch h h0, rest).
Proof.
  intros Hh. unfold Unserialize_header, header_bytes, received. rewrite <- app_assoc, (read_base L switch) by exact Hh.
  cbn [mbind option_bind]. change (IsMTP switch (with_base h h0)) with (IsMTP switch h).
  destruct (IsMTP switch h) eqn:E; [|reflexivity]. destruct (ho_data _ _ _ Hh E) as (d & Ed & Hd). rewrite Ed.
  rewrite <- app_assoc, (read_mtp L switch) by exact Hh. cbn [mbind option_bind]. rewrite (round_trip d) by exact Hd. reflexivity.
Qed.

(** ** Theorems *)

(** headers survive the network.  A well-formed header is written without a
    failed assertion; reading the bytes into any header [h0] gives all its
    fields back (without MTP the six of the old format), keeps the cached hash
    of [h0] and leaves the rest of the stream; every strict prefix is rejected
    with an exception.  In the form for hashing, without the proof data, the
    fields are read back by the reader of header messages. *)
Theorem header_round_trip L switch h h0 rest : header_ok L switch h ->
  exists bytes, Serialize_header switch false h = Some bytes /\
    Unserialize_header L switch h0 (bytes ++ rest) = Some (received switch h h0, rest) /\
    (forall p q, bytes = p ++ q -> q <> [] -> Unserialize_header L switch h0 p = None) /\
    exists bytes', Serialize_header switch true h = Some bytes' /\
      ReadBlockHeader switch h0 (bytes' ++ rest) =
      Some (if IsMTP switch h then with_all h (mtpHashData h0) h0 else with_base h h0, rest).
Proof.
  intros Hh. exists (header_bytes switch h). split; [exact (serialize_header L switch h Hh) |].
  split; [exact (unserialize_header L switch h h0 rest Hh) |]. split.
  - intros p q E Hq. destruct (Unserialize_header L switch h0 p) as [[x r]|] eqn:Ep; [exfalso | reflexivity].
    apply (extends p x r q) in Ep. rewrite <- E in Ep. pose proof (unserialize_header L switch h h0 [] Hh) as H.
    rewrite app_nil_r, Ep in H. apply (inj Some) in H. assert (Er : r ++ q = []) by congruence. apply app_eq_nil in Er. tauto.
  - exists (base_fields h ++ if IsMTP switch h then mtp_fields h else []). split.
    + unfold Serialize_header. destruct (IsMTP switch h); [destruct (mtpHashData h) |]; rewrite ?app_nil_r; reflexivity.
    + unfold ReadBlockHeader. rewrite <- app_assoc, (read_base L switch) by exact Hh. cbn [mbind option_bind].
      change (IsMTP switch (with_base h h0)) with (IsMTP switch h).
      destruct (IsMTP switch h); [apply (read_mtp L switch h h0 rest Hh) | reflexivity].
Qed.

(** A header with proofs of [n] hashes. *)
Definition sample_data (n : nat) : CMTPHashData :=
  mk_hash_data (replicate 16 1) (replicate 32 (replicate 128 5)) (replicate 48 (replicate n (replicate 16 3))).
Definition sample_mtp_header (n : nat) : CBlockHeader :=
  mk_header (-5) (replicate 32 1) (replicate 32 2) 1600000000 0x2000ffff 77 0x1000 (replicate 32 4) null256 null256
    (Some (sample_data n)) null256.

Lemma sample_mtp_header_ok n : (n < 256)%nat -> header_ok 16 1550000000 (sample_mtp_header n).
Proof.
  intros Hn. split; cbn [nVersion nVersionMTP hdr_nTime hdr_nBits nNonce hashPrevBlock hashMerkleRoot mtpHashValue reserved0 reserved1
    mtpHashData sample_mtp_header]; [lia | unfold word; lia | auto | auto |].
  intros _. exists (sample_data n). split; [reflexivity |]. split; [reflexivity | split; [reflexivity |] | split; [reflexivity |]].
  - apply Forall_replicate. split; [reflexivity | apply Forall_replicate; unfold word; lia].
  - apply Forall_replicate. split; [rewrite length_replicate; exact Hn | apply Forall_replicate; reflexivity].
Qed.

Lemma header_round_trip_witness : header_ok 16 1550000000 (sample_mtp_header 20) /\
  exists bytes, Serialize_header 1550000000 false (sample_mtp_header 20) = Some bytes /\
    Unserialize_header 16 1550000000 (sample_mtp_header 3) (bytes ++ [9]) = Some (sample_mtp_header 20, [9]).
Proof.
  split; [apply sample_mtp_header_ok; lia |].
  destruct (header_round_trip 16 1550000000 (sample_mtp_header 20) (sample_mtp_header 3) [9] (sample_mtp_header_ok 20 ltac:(lia)))
    as (bytes & H1 & H2 & _). exists bytes. split; [exact H1 | exact H2].
Defined.

(** An oversized proof gets through to an undefined operation.  The format
    admits proofs of up to 255 hashes.  Such a header, with 32 hashes or more
    in the proof of the first opened block, is read from the network without
    error, and the check of its Merkle tree proof then shifts a 32-bit integer
    by 32 places or more, whatever the other fields hold. *)
Theorem oversized_proof_is_undefined L M_COST LANES uint256_t vg switch h h0 params d :
  header_ok L switch h -> IsMTP switch h = true -> mtpHashData h = Some d -> (1 <= L)%nat ->
  (32 <= length (nth 1 (nProofMTP d) []))%nat ->
  exists bytes, Serialize_header switch false h = Some bytes /\
    Unserialize_header L switch h0 bytes = Some (received switch h h0, []) /\
    CheckMerkleTreeProof L M_COST LANES uint256_t vg switch (received switch h h0) params = None.
Proof.
  intros Hh Hm Hd HL Hp. exists (header_bytes switch h). split; [exact (serialize_header L switch h Hh) |].
  split; [rewrite <- (app_nil_r (header_bytes switch h)); exact (unserialize_header L switch h h0 [] Hh) |].
  unfold received. rewrite Hm. unfold CheckMerkleTreeProof, verify. change (IsMTP switch (with_all h (mtpHashData h) h0)) with (IsMTP switch h).
  rewrite Hm. cbn [negb mtpHashData with_all]. rewrite Hd. unfold mtp_verify. destruct L as [|L]; [lia |]. cbn [seq verify_loop].
  unfold verify_step. change (1 * 3 - 2)%nat with 1%nat. unfold checkProofOrdered at 1.
  destruct (nth 1 (nProofMTP d) []) as [|p ps]; [cbn in Hp; lia |]. cbn [check_loop].
  rewrite (proj2 (Nat.leb_le 32 (length (p :: ps)))) by exact Hp. reflexivity.
Qed.

Lemma oversized_proof_witness : exists bytes,
  Unserialize_header 16 1550000000 (sample_mtp_header 0) bytes = Some (sample_mtp_header 40, []) /\
  CheckMerkleTreeProof 16 code_M_COST code_LANES (fun _ => 0) (replicate 72 0) 1550000000 (sample_mtp_header 40) main_params = None.
Proof.
  destruct (oversized_proof_is_undefined 16 code_M_COST code_LANES (fun _ => 0) (replicate 72 0) 1550000000 (sample_mtp_header 40)
    (sample_mtp_header 0) main_params (sample_data 40) (sample_mtp_header_ok 40 ltac:(lia))) as (bytes & _ & H1 & H2);
    [reflexivity | reflexivity | lia | cbn [nProofMTP sample_data]; rewrite nth_lookup, lookup_replicate_2 by lia; cbn; lia |].
  exists bytes. split; [exact H1 | exact H2].
Defined.

(** The fields of a header before it is mined. *)
Record template_ok (h : CBlockHeader) : Prop := {
  to_versions : - 2 ^ 31 <= nVersion h < 2 ^ 31 /\ - 2 ^ 31 <= nVersionMTP h < 2 ^ 31;
  to_words : word 32 (hdr_nTime h) /\ word 32 (hdr_nBits h);
  to_prev : length (hashPrevBlock h) = 32%nat /\ Forall byte (hashPrevBlock h);
  to_root : length (hashMerkleRoot h) = 32%nat /\ Forall byte (hashMerkleRoot h);
  to_reserved : length (reserved0 h) = 32%nat /\ length (reserved1 h) = 32%nat }.

Lemma serialize_ok h : template_ok h -> length (serializeMtpHeader h) = 80%nat /\ Forall byte (serializeMtpHeader h).
Proof.
  intros [_ _ [L1 F1] [L2 F2] _]. unfold serializeMtpHeader, ser_writedata32. split.
  - rewrite !length_app, !le_encode_length, L1, L2. reflexivity.
  - repeat (apply Forall_app; split); auto using le_encode_bytes.
Qed.

Lemma CheckProofOfWork_rejected hash nBits params :
  CheckProofOfWork hash nBits params = negb (hash_rejected nBits (powLimit params) hash).
Proof.
  unfold CheckProofOfWork, hash_rejected. destruct (SetCompact nBits) as [[v ng] ov].
  destruct (ng || EqualTo v 0 || ov || _); [reflexivity |]. cbn [orb]. destruct (0 <? _); reflexivity.
Qed.

(** A successful verification, whose value is the one in the header. *)
Lemma verified_block_checks L M_COST LANES uint256_t vg switch h d params :
  mtpHashData h = Some d ->
  mtp_verify L M_COST LANES uint256_t vg (serializeMtpHeader h) (hdr_nBits h) (hashRootMTP d) (nNonce h) (nBlockMTP d) (nProofMTP d)
    (powLimit params) = Some (true, Some (mtpHashValue h)) ->
  CheckMerkleTreeProof L M_COST LANES uint256_t vg switch h params = Some true /\
  CheckProofOfWork (mtpHashValue h) (hdr_nBits h) params = true.
Proof.
  intros Ed Hv. unfold CheckMerkleTreeProof, verify. rewrite Ed, Hv. split.
  - destruct (IsMTP switch h); [|reflexivity]. cbn [negb from_option id andb]. rewrite bool_decide_eq_true_2 by reflexivity. reflexivity.
  - rewrite CheckProofOfWork_rejected. unfold mtp_verify in Hv. cbv zeta in Hv.
    destruct (verify_loop _ _ _ _ _ _ _ _ _) as [[y|]|]; [|discriminate|discriminate].
    apply (inj Some) in Hv. congruence.
Qed.

(** With an empty cache the proof of work of an MTP header is [mtpHashValue]. *)
Lemma fresh_pow_hash alloc ctx hashB switch h : cachedPoWHash h = null256 -> IsMTP switch h = true ->
  fst (GetPoWHash alloc ctx hashB switch h) = mtpHashValue h.
Proof. intros Hc Hm. unfold GetPoWHash. rewrite Hc, Hm. reflexivity. Qed.

Lemma checked_header alloc ctx hashB L M_COST LANES uint256_t vg switch h params :
  cachedPoWHash h = null256 -> IsMTP switch h = true ->
  CheckMerkleTreeProof L M_COST LANES uint256_t vg switch h params = Some true ->
  CheckProofOfWork (mtpHashValue h) (hdr_nBits h) params = true ->
  check_read_header L M_COST LANES uint256_t vg alloc ctx hashB switch h params = Some true /\
  fst (CheckBlockHeader alloc ctx hashB switch h params true) = true.
Proof.
  intros Hc Hm H1 H2. unfold check_read_header, CheckBlockHeader. rewrite H1, fresh_pow_hash by auto. split; [congruence |].
  unfold GetPoWHash. rewrite Hc, Hm. cbn [IsNull null256 replicate forallb Z.eqb andb negb hdr_nBits]. rewrite H2. reflexivity.
Qed.

(** The mined header is well formed. *)
Lemma mined_header_ok L k switch h o : (k < 256)%nat -> template_ok h -> 0 <= out_nonce o < 2 ^ 32 - 1 -> output_ok L k o ->
  header_ok L switch
    (set_mtpHashValue (mk_header (nVersion h) (hashPrevBlock h) (hashMerkleRoot h) (hdr_nTime h) (hdr_nBits h) (out_nonce o)
       (nVersionMTP h) (mtpHashValue h) (reserved0 h) (reserved1 h)
       (Some (mk_hash_data (out_root o) (out_blocks o) (out_proofs o))) (cachedPoWHash h)) (out_hash o)).
Proof.
  intros Hk [V W [P _] [R _] [R0 R1]] Hn [[O1 _] [O2 O2'] [O3 O3'] [O4 _]]. split; cbn.
  - exact V.
  - unfold word in *. lia.
  - auto.
  - auto.
  - intros _. eexists. split; [reflexivity |]. split; cbn; [exact O1 | split; [exact O2 | exact O2'] | split; [exact O3 |]].
    eapply Forall_impl; [exact O3' |]. intros p [Hl HF]. split; [lia |]. eapply Forall_impl; [exact HF |]. intros e [He _]. exact He.
Qed.

(** C11: a mined block is valid, also after a trip through a file.  When the
    Argon2 run for a header returns ARGON2_OK and [mtp_hash1] finds a proof,
    then [mtp::hash] can return with that proof stored in the header; the
    header with the returned value in [mtpHashValue] is written without a
    failed assertion; and read back into a cleared header it passes
    [CheckMerkleTreeProof] and the proof-of-work check of [ReadBlockFromDisk],
    and [CheckBlockHeader]. *)
Theorem mined_block_is_valid L M_COST LANES k uint256_t malloc g1 g2 g3 vg switch h params r :
  environment_ok M_COST LANES k malloc g1 g2 g3 (serializeMtpHeader h) -> template_ok h -> IsMTP switch h = true ->
  mtp_hash1 L M_COST LANES uint256_t malloc g1 g2 g3 (serializeMtpHeader h) (hdr_nBits h) (powLimit params) ARGON2_OK r ->
  r = Hash1NewTree \/
  exists h' v bytes, hash L M_COST LANES uint256_t malloc g1 g2 g3 h (powLimit params) ARGON2_OK h' v /\
    Serialize_header switch false (set_mtpHashValue h' v) = Some bytes /\
    forall rest h0, exists b, Unserialize_header L switch (SetNull h0) (bytes ++ rest) = Some (b, rest) /\
      serializeMtpHeader b = serializeMtpHeader h /\ mtpHashValue b = v /\ mtpHashData b = mtpHashData h' /\
      forall alloc ctx hashB,
        check_read_header L M_COST LANES uint256_t vg alloc ctx hashB switch b params = Some true /\
        fst (CheckBlockHeader alloc ctx hashB switch b params true) = true.
Proof.
  intros HE Ht Hm H.
  destruct (hash1_verified L M_COST LANES k uint256_t malloc g1 g2 g3 _ vg _ _ r HE H) as [E|(o & -> & Hn & Ho & Hv)]; [auto | right].
  pose proof (co_k _ _ _ (en_constants _ _ _ _ _ _ _ _ HE)) as Hk.
  pose proof (mined_header_ok L k switch h o ltac:(lia) Ht Hn Ho) as Hok.
  eexists _, _, _. split; [apply hash_found, hash_done, H |]. split; [exact (serialize_header L switch _ Hok) |].
  intros rest h0. eexists. split; [exact (unserialize_header L switch _ (SetNull h0) rest Hok) |].
  unfold received. set (b := set_mtpHashValue _ _). change (IsMTP switch b) with (IsMTP switch h). rewrite Hm.
  split; [reflexivity |]. split; [reflexivity |]. split; [reflexivity |]. intros alloc ctx hashB.
  destruct (verified_block_checks L M_COST LANES uint256_t vg switch (with_all b (mtpHashData b) (SetNull h0))
    (mk_hash_data (out_root o) (out_blocks o) (out_proofs o)) params eq_refl Hv) as [C1 C2].
  apply checked_header; [reflexivity | exact Hm | exact C1 | exact C2].
Qed.

Definition sample_block_header : CBlockHeader :=
  mk_header 2 (replicate 32 1) (replicate 32 2) 1600000000 0x2000ffff 0 0x1000 null256 null256 null256 None null256.

Lemma sample_template_ok : template_ok sample_block_header.
Proof.
  split; cbn [nVersion nVersionMTP hdr_nTime hdr_nBits sample_block_header hashPrevBlock hashMerkleRoot]; unfold word; try lia; auto.
  - split; [reflexivity | apply Forall_replicate; unfold word; lia].
  - split; [reflexivity | apply Forall_replicate; unfold word; lia].
Qed.

Lemma mined_block_witness : exists r,
  mtp_hash1 code_L code_M_COST code_LANES hex_value sample_malloc (replicate 72 0) (replicate 72 0) (replicate 1024 0)
    (serializeMtpHeader sample_block_header) 0x2000ffff (powLimit main_params) ARGON2_OK r /\
  (r = Hash1NewTree \/ exists h' v bytes, Serialize_header 1550000000 false (set_mtpHashValue h' v) = Some bytes /\
    forall rest h0, exists b, Unserialize_header code_L 1550000000 (SetNull h0) (bytes ++ rest) = Some (b, rest)).
Proof.
  assert (HE : environment_ok code_M_COST code_LANES 22 sample_malloc (replicate 72 0) (replicate 72 0) (replicate 1024 0)
    (serializeMtpHeader sample_block_header)).
  { destruct sample_environment as [C1 C2 C3 C4 C5 _ _].
    destruct (serialize_ok sample_block_header sample_template_ok) as [Hl Hb]. split; auto; lia. }
  destruct (argon2_run_exists code_M_COST code_LANES 22 sample_malloc _ _ _ _ HE
    (replicate (Z.to_nat (code_M_COST * ARGON2_BLOCK_SIZE / ARGON2_BLOCK_SIZE)) (replicate 128 0))) as (M & HM);
    [vm_compute; reflexivity | reflexivity |].
  assert (H := hash1_runs code_L code_M_COST code_LANES hex_value sample_malloc (replicate 72 0) (replicate 72 0) (replicate 1024 0)
    (serializeMtpHeader sample_block_header) 0x2000ffff (powLimit main_params) ARGON2_OK _ M
    (mk_arrays (replicate 32 []) (replicate 48 [])) HM eq_refl eq_refl).
  eexists. split; [exact H |].
  destruct (mined_block_is_valid code_L code_M_COST code_LANES 22 hex_value sample_malloc _ _ _ (replicate 72 9) 1550000000
    sample_block_header main_params _ HE sample_template_ok eq_refl H) as [E|(h' & v & bytes & _ & E & Hb)]; [left; exact E | right].
  exists h', v, bytes. split; [exact E |]. intros rest h0. destruct (Hb rest h0) as (b & Eb & _). exists b. exact Eb.
Defined.
