(* ===== verification/CryptoCommon.v ===== *)
(** * CryptoCommon: byte order helpers and the streaming of the SHA family

    Models crypto/common.h (reads and writes in either byte order) and the
    members [Write], [Finalize] and [Reset] that CSHA256, CSHA1 and CRIPEMD160
    (crypto/sha256.cpp, sha1.cpp, ripemd160.cpp) have in the same form: they
    differ in the initial state, in [Transform] and in the byte order only,
    which are the parameters here.

    [bytes] is a [uint64_t]; lengths in memory are below 2^64. *)

From S2P Require Import Prelude Words.

(** ** Reads and writes *)

Definition ReadLE32 (ptr : list Z) : Z := le_decode (take 4 ptr).
Definition ReadBE32 (ptr : list Z) : Z := le_decode (rev (take 4 ptr)).
Definition WriteLE32 (x : Z) : list Z := le_encode 4 x.
Definition WriteLE64 (x : Z) : list Z := le_encode 8 x.
Definition WriteBE32 (x : Z) : list Z := rev (le_encode 4 x).
Definition WriteBE64 (x : Z) : list Z := rev (le_encode 8 x).

(** An assignment to a local [uint32_t] of a transform: kept apart from the [let]
    of Rocq so that the unrolled rounds can be followed one at a time. *)
Definition assign (e : Z) (rest : Z -> list Z) : list Z := rest e.
Notation "'wlet' x := e 'in' rest" := (assign e (fun x => rest)) (at level 10, x name, rest at level 200, only parsing).

(** ** The hasher objects *)

Record hasher := mk_hasher { s : list Z; buf : list Z; bytes : Z }.

Section streaming.
Context (Initialize : list Z) (Transform : list Z -> list Z -> list Z).
Context (write32 write64 : Z -> list Z).

(** [while (end >= data + 64)]: the state, the counter and what remains. *)
Fixpoint write_chunks (fuel : nat) (st : list Z) (n : Z) (data : list Z) : list Z * Z * list Z :=
  match fuel with
  | O => (st, n, data)
  | S fuel =>
      if (64 <=? length data)%nat
      then write_chunks fuel (Transform st (take 64 data)) (u64 (n + 64)) (drop 64 data)
      else (st, n, data)
  end.

Definition Write (h : hasher) (data : list Z) : hasher :=
  let bufsize := Z.to_nat (bytes h mod 64) in
  let '(h, data, bufsize) :=
    if negb (bufsize =? 0)%nat && (64 <=? bufsize + length data)%nat then
      let b := memcpy (buf h) bufsize (take (64 - bufsize) data) in
      (mk_hasher (Transform (s h) b) b (u64 (bytes h + Z.of_nat (64 - bufsize))), drop (64 - bufsize) data, 0%nat)
    else (h, data, bufsize) in
  let '(st, n, data) := write_chunks (length data) (s h) (bytes h) data in
  if (0 <? length data)%nat
  then mk_hasher st (memcpy (buf h) bufsize data) (u64 (n + Z.of_nat (length data)))
  else mk_hasher st (buf h) n.

Definition pad : list Z := 0x80 :: replicate 63 0.

(** The hasher after [Finalize]: the padding and the length are written. *)
Definition finalized (h : hasher) : hasher :=
  let sizedesc := write64 (u64 (bytes h ≪ 3)) in
  let h := Write h (take (Z.to_nat (1 + (119 - bytes h mod 64) mod 64)) pad) in
  Write h sizedesc.

(** The digest. *)
Definition Finalize (h : hasher) : list Z := flat_map write32 (s (finalized h)).

Definition Reset (h : hasher) : hasher := mk_hasher Initialize (buf h) 0.
End streaming.
