(* ===== verification/ShaSpec.v ===== *)
(** * ShaSpec: SHA-1, SHA-256 (FIPS 180-4) and RIPEMD-160

    The functions, constants, message schedules and padding of the standards,
    in their notation: functions of 32-bit words, tables indexed by the round,
    and a fold over the 64-byte blocks of the padded message. *)

From S2P Require Import Prelude Words.

(** ** Words and blocks *)

Definition add32 (x y : Z) : Z := u32 (x + y).
Definition ROTL (n x : Z) : Z := Z.lor (u32 (x ≪ n)) (x ≫ (32 - n)).
Definition ROTR (n x : Z) : Z := Z.lor (x ≫ n) (u32 (x ≪ (32 - n))).
Definition SHR (n x : Z) : Z := x ≫ n.
Definition NOT (x : Z) : Z := u32 (Z.lnot x).

Definition be_word (bs : list Z) : Z := le_decode (rev bs).
Definition be_bytes (n : nat) (x : Z) : list Z := rev (le_encode n x).

(** The 16 words of a block. *)
Definition block_words (word_of : list Z -> Z) (block : list Z) : list Z :=
  map (fun i => word_of (take 4 (drop (4 * i) block))) (seq 0 16).

(** The padded message: a one bit, zeros, and the length in bits modulo 2^64. *)
Definition padded (length_field : Z -> list Z) (msg : list Z) : list Z :=
  let n := Z.of_nat (length msg) in
  msg ++ [0x80] ++ replicate (Z.to_nat ((55 - n) mod 64)) 0 ++ length_field (u64 (8 * n)).

(** The state after the first [n] blocks of [data]. *)
Fixpoint blocks_fold (compress : list Z -> list Z -> list Z) (n : nat) (st data : list Z) : list Z :=
  match n with
  | O => st
  | S n => blocks_fold compress n (compress st (take 64 data)) (drop 64 data)
  end.

Definition md_digest (compress : list Z -> list Z -> list Z) (init : list Z) (word_bytes length_field : Z -> list Z)
    (msg : list Z) : list Z :=
  let m := padded length_field msg in
  flat_map word_bytes (blocks_fold compress (length m / 64) init m).

(** ** SHA-256 *)

Module SHA256.
Definition Ch (x y z : Z) : Z := Z.land x y ⊕ Z.land (NOT x) z.
Definition Maj (x y z : Z) : Z := Z.land x y ⊕ Z.land x z ⊕ Z.land y z.
Definition S0 (x : Z) : Z := ROTR 2 x ⊕ ROTR 13 x ⊕ ROTR 22 x.
Definition S1 (x : Z) : Z := ROTR 6 x ⊕ ROTR 11 x ⊕ ROTR 25 x.
Definition s0 (x : Z) : Z := ROTR 7 x ⊕ ROTR 18 x ⊕ SHR 3 x.
Definition s1 (x : Z) : Z := ROTR 17 x ⊕ ROTR 19 x ⊕ SHR 10 x.

(** The constants: the first 32 bits of the fractional parts of the cube roots of
    the first 64 primes, and of the square roots of the first eight. *)
Definition is_prime (n : nat) : bool := forallb (fun d => negb (n mod d =? 0)%nat) (seq 2 (n - 2)).
Definition primes : list Z := map Z.of_nat (List.filter is_prime (seq 2 310)).

(** The largest [r] with [r ^ 3 <= n], for [n] below 2^120. *)
Definition cube_root (n : Z) : Z :=
  fold_left (fun r i => let r' := r + 2 ^ Z.of_nat i in if r' ^ 3 <=? n then r' else r) (rev (seq 0 40)) 0.

Definition K : list Z := Eval vm_compute in map (fun p => cube_root (p * 2 ^ 96) mod 2 ^ 32) primes.
Definition H0 : list Z := Eval vm_compute in map (fun p => Z.sqrt (p * 2 ^ 64) mod 2 ^ 32) (take 8 primes).

(** W_t from the words before it. *)
Definition next (W : list Z) (t : nat) : Z :=
  u32 (s1 W.[t - 2] + W.[t - 7] + s0 W.[t - 15] + W.[t - 16]).

Definition step (st : list Z) (kw : Z * Z) : list Z :=
  match st with
  | [a; b; c; d; e; f; g; h] =>
      let T1 := u32 (h + S1 e + Ch e f g + fst kw + snd kw) in
      let T2 := u32 (S0 a + Maj a b c) in
      [u32 (T1 + T2); a; b; c; u32 (d + T1); e; f; g]
  | _ => st
  end.
End SHA256.

(** The schedule: [n] more words appended to [W]. *)
Fixpoint schedule (next : list Z -> nat -> Z) (n : nat) (W : list Z) : list Z :=
  match n with O => W | S n => schedule next n (W ++ [next W (length W)]) end.

Definition sha256_compress (H block : list Z) : list Z :=
  let W := schedule SHA256.next 48 (block_words be_word block) in
  zip_with add32 H (fold_left SHA256.step (zip SHA256.K W) H).

Definition sha256 (msg : list Z) : list Z := md_digest sha256_compress SHA256.H0 (be_bytes 4) (be_bytes 8) msg.

(** ** SHA-1 *)

Module SHA1.
Definition Ch (x y z : Z) : Z := Z.land x y ⊕ Z.land (NOT x) z.
Definition Parity (x y z : Z) : Z := x ⊕ y ⊕ z.
Definition Maj (x y z : Z) : Z := Z.land x y ⊕ Z.land x z ⊕ Z.land y z.

Definition f (t : nat) : Z -> Z -> Z -> Z :=
  if (t <? 20)%nat then Ch else if (t <? 40)%nat then Parity else if (t <? 60)%nat then Maj else Parity.
Definition K (t : nat) : Z :=
  if (t <? 20)%nat then 0x5a827999 else if (t <? 40)%nat then 0x6ed9eba1 else if (t <? 60)%nat then 0x8f1bbcdc else 0xca62c1d6.

Definition H0 : list Z := [0x67452301; 0xefcdab89; 0x98badcfe; 0x10325476; 0xc3d2e1f0].

Definition next (W : list Z) (t : nat) : Z := ROTL 1 (W.[t - 3] ⊕ W.[t - 8] ⊕ W.[t - 14] ⊕ W.[t - 16]).

Definition step (st : list Z) (tw : nat * Z) : list Z :=
  match st with
  | [a; b; c; d; e] => [u32 (ROTL 5 a + f (fst tw) b c d + e + K (fst tw) + snd tw); a; ROTL 30 b; c; d]
  | _ => st
  end.
End SHA1.

Definition sha1_compress (H block : list Z) : list Z :=
  let W := schedule SHA1.next 64 (block_words be_word block) in
  zip_with add32 H (fold_left SHA1.step (zip (seq 0 80) W) H).

Definition sha1 (msg : list Z) : list Z := md_digest sha1_compress SHA1.H0 (be_bytes 4) (be_bytes 8) msg.

(** ** RIPEMD-160 *)

Module RMD160.
(** The functions of the five groups of 16 rounds. *)
Definition f (g : nat) (x y z : Z) : Z :=
  match g with
  | 0 => x ⊕ y ⊕ z
  | 1 => Z.lor (Z.land x y) (Z.land (NOT x) z)
  | 2 => Z.lor x (NOT y) ⊕ z
  | 3 => Z.lor (Z.land x z) (Z.land y (NOT z))
  | _ => x ⊕ Z.lor y (NOT z)
  end%nat.

Definition K : list Z := [0; 0x5a827999; 0x6ed9eba1; 0x8f1bbcdc; 0xa953fd4e].
Definition K' : list Z := [0x50a28be6; 0x5c4dd124; 0x6d703ef3; 0x7a6d76e9; 0].

(** The word and the rotation of each round, on the two lines. *)
Definition r : list nat :=
  [0; 1; 2; 3; 4; 5; 6; 7; 8; 9; 10; 11; 12; 13; 14; 15;
   7; 4; 13; 1; 10; 6; 15; 3; 12; 0; 9; 5; 2; 14; 11; 8;
   3; 10; 14; 4; 9; 15; 8; 1; 2; 7; 0; 6; 13; 11; 5; 12;
   1; 9; 11; 10; 0; 8; 12; 4; 13; 3; 7; 15; 14; 5; 6; 2;
   4; 0; 5; 9; 7; 12; 2; 10; 14; 1; 3; 8; 11; 6; 15; 13]%nat.
Definition r' : list nat :=
  [5; 14; 7; 0; 9; 2; 11; 4; 13; 6; 15; 8; 1; 10; 3; 12;
   6; 11; 3; 7; 0; 13; 5; 10; 14; 15; 8; 12; 4; 9; 1; 2;
   15; 5; 1; 3; 7; 14; 6; 9; 11; 8; 12; 2; 10; 0; 4; 13;
   8; 6; 4; 1; 3; 11; 15; 0; 5; 12; 2; 13; 9; 7; 10; 14;
   12; 15; 10; 4; 1; 5; 8; 7; 6; 2; 13; 14; 0; 3; 9; 11]%nat.
Definition s : list Z :=
  [11; 14; 15; 12; 5; 8; 7; 9; 11; 13; 14; 15; 6; 7; 9; 8;
   7; 6; 8; 13; 11; 9; 7; 15; 7; 12; 15; 9; 11; 7; 13; 12;
   11; 13; 6; 7; 14; 9; 13; 15; 14; 8; 13; 6; 5; 12; 7; 5;
   11; 12; 14; 15; 14; 15; 9; 8; 9; 14; 5; 6; 8; 6; 5; 12;
   9; 15; 5; 11; 6; 8; 13; 12; 5; 12; 13; 14; 11; 8; 5; 6].
Definition s' : list Z :=
  [8; 9; 9; 11; 13; 15; 15; 5; 7; 7; 8; 11; 14; 14; 12; 6;
   9; 13; 15; 7; 12; 8; 9; 11; 7; 7; 12; 7; 6; 15; 13; 11;
   9; 7; 15; 11; 8; 6; 6; 14; 12; 13; 5; 14; 13; 13; 7; 5;
   15; 5; 8; 11; 14; 14; 6; 14; 6; 9; 12; 9; 12; 5; 15; 8;
   8; 5; 12; 9; 12; 5; 14; 6; 8; 13; 6; 5; 15; 13; 11; 11].

Definition H0 : list Z := [0x67452301; 0xefcdab89; 0x98badcfe; 0x10325476; 0xc3d2e1f0].

(** One round of a line: function, word, constant and rotation. *)
Definition step (g : Z -> Z -> Z -> Z) (x k n : Z) (st : list Z) : list Z :=
  match st with
  | [A; B; C; D; E] => [E; u32 (ROTL n (u32 (A + g B C D + x + k)) + E); B; ROTL 10 C; D]
  | _ => st
  end.

Definition left_line (X H : list Z) : list Z :=
  fold_left (fun st j => step (f (j / 16)) X.[nth j r 0%nat] K.[j / 16] s.[j] st) (seq 0 80) H.
Definition right_line (X H : list Z) : list Z :=
  fold_left (fun st j => step (f (4 - j / 16)) X.[nth j r' 0%nat] K'.[j / 16] s'.[j] st) (seq 0 80) H.
End RMD160.

Definition rmd160_compress (H block : list Z) : list Z :=
  let X := block_words le_decode block in
  let L := RMD160.left_line X H in
  let R := RMD160.right_line X H in
  map (fun i => u32 (H.[S i mod 5] + L.[(i + 2) mod 5] + R.[(i + 3) mod 5])) (seq 0 5).

Definition rmd160 (msg : list Z) : list Z := md_digest rmd160_compress RMD160.H0 (le_encode 4) (le_encode 8) msg.
