(* ===== verification/Sha256.v ===== *)
(** * Sha256: crypto/sha256.cpp

    The 64 rounds of [Transform] are the source's, on the rotated variables.  A
    sum of [uint32_t] values is wrapped once. *)

From S2P Require Import Prelude Words CryptoCommon.

Definition Ch (x y z : Z) : Z := z ⊕ Z.land x (y ⊕ z).
Definition Maj (x y z : Z) : Z := Z.lor (Z.land x y) (Z.land z (Z.lor x y)).
Definition Sigma0 (x : Z) : Z := Z.lor (x ≫ 2) (u32 (x ≪ 30)) ⊕ Z.lor (x ≫ 13) (u32 (x ≪ 19)) ⊕ Z.lor (x ≫ 22) (u32 (x ≪ 10)).
Definition Sigma1 (x : Z) : Z := Z.lor (x ≫ 6) (u32 (x ≪ 26)) ⊕ Z.lor (x ≫ 11) (u32 (x ≪ 21)) ⊕ Z.lor (x ≫ 25) (u32 (x ≪ 7)).
Definition sigma0 (x : Z) : Z := Z.lor (x ≫ 7) (u32 (x ≪ 25)) ⊕ Z.lor (x ≫ 18) (u32 (x ≪ 14)) ⊕ (x ≫ 3).
Definition sigma1 (x : Z) : Z := Z.lor (x ≫ 17) (u32 (x ≪ 15)) ⊕ Z.lor (x ≫ 19) (u32 (x ≪ 13)) ⊕ (x ≫ 10).

(** The new values of [d] and [h]. *)
Definition Round (a b c d e f g h k w : Z) : Z * Z :=
  let t1 := u32 (h + Sigma1 e + Ch e f g + k + w) in
  let t2 := u32 (Sigma0 a + Maj a b c) in
  (u32 (d + t1), u32 (t1 + t2)).

Definition Initialize : list Z :=
  [0x6a09e667; 0xbb67ae85; 0x3c6ef372; 0xa54ff53a; 0x510e527f; 0x9b05688c; 0x1f83d9ab; 0x5be0cd19].

Definition Transform (s : list Z) (chunk : list Z) : list Z :=
  let a := s.[0] in let b := s.[1] in let c := s.[2] in let d := s.[3] in
  let e := s.[4] in let f := s.[5] in let g := s.[6] in let h := s.[7] in
  wlet w0 := ReadBE32 (drop 0 chunk) in
  let '(d, h) := Round a b c d e f g h 0x428a2f98 w0 in
  wlet w1 := ReadBE32 (drop 4 chunk) in
  let '(c, g) := Round h a b c d e f g 0x71374491 w1 in
  wlet w2 := ReadBE32 (drop 8 chunk) in
  let '(b, f) := Round g h a b c d e f 0xb5c0fbcf w2 in
  wlet w3 := ReadBE32 (drop 12 chunk) in
  let '(a, e) := Round f g h a b c d e 0xe9b5dba5 w3 in
  wlet w4 := ReadBE32 (drop 16 chunk) in
  let '(h, d) := Round e f g h a b c d 0x3956c25b w4 in
  wlet w5 := ReadBE32 (drop 20 chunk) in
  let '(g, c) := Round d e f g h a b c 0x59f111f1 w5 in
  wlet w6 := ReadBE32 (drop 24 chunk) in
  let '(f, b) := Round c d e f g h a b 0x923f82a4 w6 in
  wlet w7 := ReadBE32 (drop 28 chunk) in
  let '(e, a) := Round b c d e f g h a 0xab1c5ed5 w7 in
  wlet w8 := ReadBE32 (drop 32 chunk) in
  let '(d, h) := Round a b c d e f g h 0xd807aa98 w8 in
  wlet w9 := ReadBE32 (drop 36 chunk) in
  let '(c, g) := Round h a b c d e f g 0x12835b01 w9 in
  wlet w10 := ReadBE32 (drop 40 chunk) in
  let '(b, f) := Round g h a b c d e f 0x243185be w10 in
  wlet w11 := ReadBE32 (drop 44 chunk) in
  let '(a, e) := Round f g h a b c d e 0x550c7dc3 w11 in
  wlet w12 := ReadBE32 (drop 48 chunk) in
  let '(h, d) := Round e f g h a b c d 0x72be5d74 w12 in
  wlet w13 := ReadBE32 (drop 52 chunk) in
  let '(g, c) := Round d e f g h a b c 0x80deb1fe w13 in
  wlet w14 := ReadBE32 (drop 56 chunk) in
  let '(f, b) := Round c d e f g h a b 0x9bdc06a7 w14 in
  wlet w15 := ReadBE32 (drop 60 chunk) in
  let '(e, a) := Round b c d e f g h a 0xc19bf174 w15 in
  wlet w0 := u32 (w0 + sigma1 w14 + w9 + sigma0 w1) in
  let '(d, h) := Round a b c d e f g h 0xe49b69c1 w0 in
  wlet w1 := u32 (w1 + sigma1 w15 + w10 + sigma0 w2) in
  let '(c, g) := Round h a b c d e f g 0xefbe4786 w1 in
  wlet w2 := u32 (w2 + sigma1 w0 + w11 + sigma0 w3) in
  let '(b, f) := Round g h a b c d e f 0x0fc19dc6 w2 in
  wlet w3 := u32 (w3 + sigma1 w1 + w12 + sigma0 w4) in
  let '(a, e) := Round f g h a b c d e 0x240ca1cc w3 in
  wlet w4 := u32 (w4 + sigma1 w2 + w13 + sigma0 w5) in
  let '(h, d) := Round e f g h a b c d 0x2de92c6f w4 in
  wlet w5 := u32 (w5 + sigma1 w3 + w14 + sigma0 w6) in
  let '(g, c) := Round d e f g h a b c 0x4a7484aa w5 in
  wlet w6 := u32 (w6 + sigma1 w4 + w15 + sigma0 w7) in
  let '(f, b) := Round c d e f g h a b 0x5cb0a9dc w6 in
  wlet w7 := u32 (w7 + sigma1 w5 + w0 + sigma0 w8) in
  let '(e, a) := Round b c d e f g h a 0x76f988da w7 in
  wlet w8 := u32 (w8 + sigma1 w6 + w1 + sigma0 w9) in
  let '(d, h) := Round a b c d e f g h 0x983e5152 w8 in
  wlet w9 := u32 (w9 + sigma1 w7 + w2 + sigma0 w10) in
  let '(c, g) := Round h a b c d e f g 0xa831c66d w9 in
  wlet w10 := u32 (w10 + sigma1 w8 + w3 + sigma0 w11) in
  let '(b, f) := Round g h a b c d e f 0xb00327c8 w10 in
  wlet w11 := u32 (w11 + sigma1 w9 + w4 + sigma0 w12) in
  let '(a, e) := Round f g h a b c d e 0xbf597fc7 w11 in
  wlet w12 := u32 (w12 + sigma1 w10 + w5 + sigma0 w13) in
  let '(h, d) := Round e f g h a b c d 0xc6e00bf3 w12 in
  wlet w13 := u32 (w13 + sigma1 w11 + w6 + sigma0 w14) in
  let '(g, c) := Round d e f g h a b c 0xd5a79147 w13 in
  wlet w14 := u32 (w14 + sigma1 w12 + w7 + sigma0 w15) in
  let '(f, b) := Round c d e f g h a b 0x06ca6351 w14 in
  wlet w15 := u32 (w15 + sigma1 w13 + w8 + sigma0 w0) in
  let '(e, a) := Round b c d e f g h a 0x14292967 w15 in
  wlet w0 := u32 (w0 + sigma1 w14 + w9 + sigma0 w1) in
  let '(d, h) := Round a b c d e f g h 0x27b70a85 w0 in
  wlet w1 := u32 (w1 + sigma1 w15 + w10 + sigma0 w2) in
  let '(c, g) := Round h a b c d e f g 0x2e1b2138 w1 in
  wlet w2 := u32 (w2 + sigma1 w0 + w11 + sigma0 w3) in
  let '(b, f) := Round g h a b c d e f 0x4d2c6dfc w2 in
  wlet w3 := u32 (w3 + sigma1 w1 + w12 + sigma0 w4) in
  let '(a, e) := Round f g h a b c d e 0x53380d13 w3 in
  wlet w4 := u32 (w4 + sigma1 w2 + w13 + sigma0 w5) in
  let '(h, d) := Round e f g h a b c d 0x650a7354 w4 in
  wlet w5 := u32 (w5 + sigma1 w3 + w14 + sigma0 w6) in
  let '(g, c) := Round d e f g h a b c 0x766a0abb w5 in
  wlet w6 := u32 (w6 + sigma1 w4 + w15 + sigma0 w7) in
  let '(f, b) := Round c d e f g h a b 0x81c2c92e w6 in
  wlet w7 := u32 (w7 + sigma1 w5 + w0 + sigma0 w8) in
  let '(e, a) := Round b c d e f g h a 0x92722c85 w7 in
  wlet w8 := u32 (w8 + sigma1 w6 + w1 + sigma0 w9) in
  let '(d, h) := Round a b c d e f g h 0xa2bfe8a1 w8 in
  wlet w9 := u32 (w9 + sigma1 w7 + w2 + sigma0 w10) in
  let '(c, g) := Round h a b c d e f g 0xa81a664b w9 in
  wlet w10 := u32 (w10 + sigma1 w8 + w3 + sigma0 w11) in
  let '(b, f) := Round g h a b c d e f 0xc24b8b70 w10 in
  wlet w11 := u32 (w11 + sigma1 w9 + w4 + sigma0 w12) in
  let '(a, e) := Round f g h a b c d e 0xc76c51a3 w11 in
  wlet w12 := u32 (w12 + sigma1 w10 + w5 + sigma0 w13) in
  let '(h, d) := Round e f g h a b c d 0xd192e819 w12 in
  wlet w13 := u32 (w13 + sigma1 w11 + w6 + sigma0 w14) in
  let '(g, c) := Round d e f g h a b c 0xd6990624 w13 in
  wlet w14 := u32 (w14 + sigma1 w12 + w7 + sigma0 w15) in
  let '(f, b) := Round c d e f g h a b 0xf40e3585 w14 in
  wlet w15 := u32 (w15 + sigma1 w13 + w8 + sigma0 w0) in
  let '(e, a) := Round b c d e f g h a 0x106aa070 w15 in
  wlet w0 := u32 (w0 + sigma1 w14 + w9 + sigma0 w1) in
  let '(d, h) := Round a b c d e f g h 0x19a4c116 w0 in
  wlet w1 := u32 (w1 + sigma1 w15 + w10 + sigma0 w2) in
  let '(c, g) := Round h a b c d e f g 0x1e376c08 w1 in
  wlet w2 := u32 (w2 + sigma1 w0 + w11 + sigma0 w3) in
  let '(b, f) := Round g h a b c d e f 0x2748774c w2 in
  wlet w3 := u32 (w3 + sigma1 w1 + w12 + sigma0 w4) in
  let '(a, e) := Round f g h a b c d e 0x34b0bcb5 w3 in
  wlet w4 := u32 (w4 + sigma1 w2 + w13 + sigma0 w5) in
  let '(h, d) := Round e f g h a b c d 0x391c0cb3 w4 in
  wlet w5 := u32 (w5 + sigma1 w3 + w14 + sigma0 w6) in
  let '(g, c) := Round d e f g h a b c 0x4ed8aa4a w5 in
  wlet w6 := u32 (w6 + sigma1 w4 + w15 + sigma0 w7) in
  let '(f, b) := Round c d e f g h a b 0x5b9cca4f w6 in
  wlet w7 := u32 (w7 + sigma1 w5 + w0 + sigma0 w8) in
  let '(e, a) := Round b c d e f g h a 0x682e6ff3 w7 in
  wlet w8 := u32 (w8 + sigma1 w6 + w1 + sigma0 w9) in
  let '(d, h) := Round a b c d e f g h 0x748f82ee w8 in
  wlet w9 := u32 (w9 + sigma1 w7 + w2 + sigma0 w10) in
  let '(c, g) := Round h a b c d e f g 0x78a5636f w9 in
  wlet w10 := u32 (w10 + sigma1 w8 + w3 + sigma0 w11) in
  let '(b, f) := Round g h a b c d e f 0x84c87814 w10 in
  wlet w11 := u32 (w11 + sigma1 w9 + w4 + sigma0 w12) in
  let '(a, e) := Round f g h a b c d e 0x8cc70208 w11 in
  wlet w12 := u32 (w12 + sigma1 w10 + w5 + sigma0 w13) in
  let '(h, d) := Round e f g h a b c d 0x90befffa w12 in
  wlet w13 := u32 (w13 + sigma1 w11 + w6 + sigma0 w14) in
  let '(g, c) := Round d e f g h a b c 0xa4506ceb w13 in
  wlet w14 := u32 (w14 + sigma1 w12 + w7 + sigma0 w15) in
  let '(f, b) := Round c d e f g h a b 0xbef9a3f7 w14 in
  wlet w15 := u32 (w15 + sigma1 w13 + w8 + sigma0 w0) in
  let '(e, a) := Round b c d e f g h a 0xc67178f2 w15 in
  [u32 (s.[0] + a); u32 (s.[1] + b); u32 (s.[2] + c); u32 (s.[3] + d);
   u32 (s.[4] + e); u32 (s.[5] + f); u32 (s.[6] + g); u32 (s.[7] + h)].

(** The class CSHA256; [b] is the uninitialised buffer of a new object. *)
Definition CSHA256 (b : list Z) : hasher := mk_hasher Initialize b 0.
Definition SHA256_Write : hasher -> list Z -> hasher := Write Transform.
Definition SHA256_Finalize : hasher -> list Z := Finalize Transform WriteBE32 WriteBE64.
Definition SHA256_finalized : hasher -> hasher := finalized Transform WriteBE64.
Definition SHA256_Reset : hasher -> hasher := Reset Initialize.
