(* ===== verification/Sha1.v ===== *)
(** * Sha1: crypto/sha1.cpp *)

From S2P Require Import Prelude Words CryptoCommon.

(** The new values of [b] and [e]. *)
Definition Round (a b c d e f k w : Z) : Z * Z :=
  (Z.lor (u32 (b ≪ 30)) (b ≫ 2), u32 (e + Z.lor (u32 (a ≪ 5)) (a ≫ 27) + f + k + w)).

Definition f1 (b c d : Z) : Z := d ⊕ Z.land b (c ⊕ d).
Definition f2 (b c d : Z) : Z := b ⊕ c ⊕ d.
Definition f3 (b c d : Z) : Z := Z.lor (Z.land b c) (Z.land d (Z.lor b c)).

Definition left (x : Z) : Z := Z.lor (u32 (x ≪ 1)) (x ≫ 31).

Definition Initialize : list Z := [0x67452301; 0xEFCDAB89; 0x98BADCFE; 0x10325476; 0xC3D2E1F0].

Definition k1 : Z := 0x5A827999.
Definition k2 : Z := 0x6ED9EBA1.
Definition k3 : Z := 0x8F1BBCDC.
Definition k4 : Z := 0xCA62C1D6.

Definition Transform (s : list Z) (chunk : list Z) : list Z :=
  let a := s.[0] in let b := s.[1] in let c := s.[2] in let d := s.[3] in let e := s.[4] in
  wlet w0 := ReadBE32 (drop 0 chunk) in
  let '(b, e) := Round a b c d e (f1 b c d) k1 w0 in
  wlet w1 := ReadBE32 (drop 4 chunk) in
  let '(a, d) := Round e a b c d (f1 a b c) k1 w1 in
  wlet w2 := ReadBE32 (drop 8 chunk) in
  let '(e, c) := Round d e a b c (f1 e a b) k1 w2 in
  wlet w3 := ReadBE32 (drop 12 chunk) in
  let '(d, b) := Round c d e a b (f1 d e a) k1 w3 in
  wlet w4 := ReadBE32 (drop 16 chunk) in
  let '(c, a) := Round b c d e a (f1 c d e) k1 w4 in
  wlet w5 := ReadBE32 (drop 20 chunk) in
  let '(b, e) := Round a b c d e (f1 b c d) k1 w5 in
  wlet w6 := ReadBE32 (drop 24 chunk) in
  let '(a, d) := Round e a b c d (f1 a b c) k1 w6 in
  wlet w7 := ReadBE32 (drop 28 chunk) in
  let '(e, c) := Round d e a b c (f1 e a b) k1 w7 in
  wlet w8 := ReadBE32 (drop 32 chunk) in
  let '(d, b) := Round c d e a b (f1 d e a) k1 w8 in
  wlet w9 := ReadBE32 (drop 36 chunk) in
  let '(c, a) := Round b c d e a (f1 c d e) k1 w9 in
  wlet w10 := ReadBE32 (drop 40 chunk) in
  let '(b, e) := Round a b c d e (f1 b c d) k1 w10 in
  wlet w11 := ReadBE32 (drop 44 chunk) in
  let '(a, d) := Round e a b c d (f1 a b c) k1 w11 in
  wlet w12 := ReadBE32 (drop 48 chunk) in
  let '(e, c) := Round d e a b c (f1 e a b) k1 w12 in
  wlet w13 := ReadBE32 (drop 52 chunk) in
  let '(d, b) := Round c d e a b (f1 d e a) k1 w13 in
  wlet w14 := ReadBE32 (drop 56 chunk) in
  let '(c, a) := Round b c d e a (f1 c d e) k1 w14 in
  wlet w15 := ReadBE32 (drop 60 chunk) in
  let '(b, e) := Round a b c d e (f1 b c d) k1 w15 in
  wlet w0 := left (w0 ⊕ w13 ⊕ w8 ⊕ w2) in
  let '(a, d) := Round e a b c d (f1 a b c) k1 w0 in
  wlet w1 := left (w1 ⊕ w14 ⊕ w9 ⊕ w3) in
  let '(e, c) := Round d e a b c (f1 e a b) k1 w1 in
  wlet w2 := left (w2 ⊕ w15 ⊕ w10 ⊕ w4) in
  let '(d, b) := Round c d e a b (f1 d e a) k1 w2 in
  wlet w3 := left (w3 ⊕ w0 ⊕ w11 ⊕ w5) in
  let '(c, a) := Round b c d e a (f1 c d e) k1 w3 in
  wlet w4 := left (w4 ⊕ w1 ⊕ w12 ⊕ w6) in
  let '(b, e) := Round a b c d e (f2 b c d) k2 w4 in
  wlet w5 := left (w5 ⊕ w2 ⊕ w13 ⊕ w7) in
  let '(a, d) := Round e a b c d (f2 a b c) k2 w5 in
  wlet w6 := left (w6 ⊕ w3 ⊕ w14 ⊕ w8) in
  let '(e, c) := Round d e a b c (f2 e a b) k2 w6 in
  wlet w7 := left (w7 ⊕ w4 ⊕ w15 ⊕ w9) in
  let '(d, b) := Round c d e a b (f2 d e a) k2 w7 in
  wlet w8 := left (w8 ⊕ w5 ⊕ w0 ⊕ w10) in
  let '(c, a) := Round b c d e a (f2 c d e) k2 w8 in
  wlet w9 := left (w9 ⊕ w6 ⊕ w1 ⊕ w11) in
  let '(b, e) := Round a b c d e (f2 b c d) k2 w9 in
  wlet w10 := left (w10 ⊕ w7 ⊕ w2 ⊕ w12) in
  let '(a, d) := Round e a b c d (f2 a b c) k2 w10 in
  wlet w11 := left (w11 ⊕ w8 ⊕ w3 ⊕ w13) in
  let '(e, c) := Round d e a b c (f2 e a b) k2 w11 in
  wlet w12 := left (w12 ⊕ w9 ⊕ w4 ⊕ w14) in
  let '(d, b) := Round c d e a b (f2 d e a) k2 w12 in
  wlet w13 := left (w13 ⊕ w10 ⊕ w5 ⊕ w15) in
  let '(c, a) := Round b c d e a (f2 c d e) k2 w13 in
  wlet w14 := left (w14 ⊕ w11 ⊕ w6 ⊕ w0) in
  let '(b, e) := Round a b c d e (f2 b c d) k2 w14 in
  wlet w15 := left (w15 ⊕ w12 ⊕ w7 ⊕ w1) in
  let '(a, d) := Round e a b c d (f2 a b c) k2 w15 in
  wlet w0 := left (w0 ⊕ w13 ⊕ w8 ⊕ w2) in
  let '(e, c) := Round d e a b c (f2 e a b) k2 w0 in
  wlet w1 := left (w1 ⊕ w14 ⊕ w9 ⊕ w3) in
  let '(d, b) := Round c d e a b (f2 d e a) k2 w1 in
  wlet w2 := left (w2 ⊕ w15 ⊕ w10 ⊕ w4) in
  let '(c, a) := Round b c d e a (f2 c d e) k2 w2 in
  wlet w3 := left (w3 ⊕ w0 ⊕ w11 ⊕ w5) in
  let '(b, e) := Round a b c d e (f2 b c d) k2 w3 in
  wlet w4 := left (w4 ⊕ w1 ⊕ w12 ⊕ w6) in
  let '(a, d) := Round e a b c d (f2 a b c) k2 w4 in
  wlet w5 := left (w5 ⊕ w2 ⊕ w13 ⊕ w7) in
  let '(e, c) := Round d e a b c (f2 e a b) k2 w5 in
  wlet w6 := left (w6 ⊕ w3 ⊕ w14 ⊕ w8) in
  let '(d, b) := Round c d e a b (f2 d e a) k2 w6 in
  wlet w7 := left (w7 ⊕ w4 ⊕ w15 ⊕ w9) in
  let '(c, a) := Round b c d e a (f2 c d e) k2 w7 in
  wlet w8 := left (w8 ⊕ w5 ⊕ w0 ⊕ w10) in
  let '(b, e) := Round a b c d e (f3 b c d) k3 w8 in
  wlet w9 := left (w9 ⊕ w6 ⊕ w1 ⊕ w11) in
  let '(a, d) := Round e a b c d (f3 a b c) k3 w9 in
  wlet w10 := left (w10 ⊕ w7 ⊕ w2 ⊕ w12) in
  let '(e, c) := Round d e a b c (f3 e a b) k3 w10 in
  wlet w11 := left (w11 ⊕ w8 ⊕ w3 ⊕ w13) in
  let '(d, b) := Round c d e a b (f3 d e a) k3 w11 in
  wlet w12 := left (w12 ⊕ w9 ⊕ w4 ⊕ w14) in
  let '(c, a) := Round b c d e a (f3 c d e) k3 w12 in
  wlet w13 := left (w13 ⊕ w10 ⊕ w5 ⊕ w15) in
  let '(b, e) := Round a b c d e (f3 b c d) k3 w13 in
  wlet w14 := left (w14 ⊕ w11 ⊕ w6 ⊕ w0) in
  let '(a, d) := Round e a b c d (f3 a b c) k3 w14 in
  wlet w15 := left (w15 ⊕ w12 ⊕ w7 ⊕ w1) in
  let '(e, c) := Round d e a b c (f3 e a b) k3 w15 in
  wlet w0 := left (w0 ⊕ w13 ⊕ w8 ⊕ w2) in
  let '(d, b) := Round c d e a b (f3 d e a) k3 w0 in
  wlet w1 := left (w1 ⊕ w14 ⊕ w9 ⊕ w3) in
  let '(c, a) := Round b c d e a (f3 c d e) k3 w1 in
  wlet w2 := left (w2 ⊕ w15 ⊕ w10 ⊕ w4) in
  let '(b, e) := Round a b c d e (f3 b c d) k3 w2 in
  wlet w3 := left (w3 ⊕ w0 ⊕ w11 ⊕ w5) in
  let '(a, d) := Round e a b c d (f3 a b c) k3 w3 in
  wlet w4 := left (w4 ⊕ w1 ⊕ w12 ⊕ w6) in
  let '(e, c) := Round d e a b c (f3 e a b) k3 w4 in
  wlet w5 := left (w5 ⊕ w2 ⊕ w13 ⊕ w7) in
  let '(d, b) := Round c d e a b (f3 d e a) k3 w5 in
  wlet w6 := left (w6 ⊕ w3 ⊕ w14 ⊕ w8) in
  let '(c, a) := Round b c d e a (f3 c d e) k3 w6 in
  wlet w7 := left (w7 ⊕ w4 ⊕ w15 ⊕ w9) in
  let '(b, e) := Round a b c d e (f3 b c d) k3 w7 in
  wlet w8 := left (w8 ⊕ w5 ⊕ w0 ⊕ w10) in
  let '(a, d) := Round e a b c d (f3 a b c) k3 w8 in
  wlet w9 := left (w9 ⊕ w6 ⊕ w1 ⊕ w11) in
  let '(e, c) := Round d e a b c (f3 e a b) k3 w9 in
  wlet w10 := left (w10 ⊕ w7 ⊕ w2 ⊕ w12) in
  let '(d, b) := Round c d e a b (f3 d e a) k3 w10 in
  wlet w11 := left (w11 ⊕ w8 ⊕ w3 ⊕ w13) in
  let '(c, a) := Round b c d e a (f3 c d e) k3 w11 in
  wlet w12 := left (w12 ⊕ w9 ⊕ w4 ⊕ w14) in
  let '(b, e) := Round a b c d e (f2 b c d) k4 w12 in
  wlet w13 := left (w13 ⊕ w10 ⊕ w5 ⊕ w15) in
  let '(a, d) := Round e a b c d (f2 a b c) k4 w13 in
  wlet w14 := left (w14 ⊕ w11 ⊕ w6 ⊕ w0) in
  let '(e, c) := Round d e a b c (f2 e a b) k4 w14 in
  wlet w15 := left (w15 ⊕ w12 ⊕ w7 ⊕ w1) in
  let '(d, b) := Round c d e a b (f2 d e a) k4 w15 in
  wlet w0 := left (w0 ⊕ w13 ⊕ w8 ⊕ w2) in
  let '(c, a) := Round b c d e a (f2 c d e) k4 w0 in
  wlet w1 := left (w1 ⊕ w14 ⊕ w9 ⊕ w3) in
  let '(b, e) := Round a b c d e (f2 b c d) k4 w1 in
  wlet w2 := left (w2 ⊕ w15 ⊕ w10 ⊕ w4) in
  let '(a, d) := Round e a b c d (f2 a b c) k4 w2 in
  wlet w3 := left (w3 ⊕ w0 ⊕ w11 ⊕ w5) in
  let '(e, c) := Round d e a b c (f2 e a b) k4 w3 in
  wlet w4 := left (w4 ⊕ w1 ⊕ w12 ⊕ w6) in
  let '(d, b) := Round c d e a b (f2 d e a) k4 w4 in
  wlet w5 := left (w5 ⊕ w2 ⊕ w13 ⊕ w7) in
  let '(c, a) := Round b c d e a (f2 c d e) k4 w5 in
  wlet w6 := left (w6 ⊕ w3 ⊕ w14 ⊕ w8) in
  let '(b, e) := Round a b c d e (f2 b c d) k4 w6 in
  wlet w7 := left (w7 ⊕ w4 ⊕ w15 ⊕ w9) in
  let '(a, d) := Round e a b c d (f2 a b c) k4 w7 in
  wlet w8 := left (w8 ⊕ w5 ⊕ w0 ⊕ w10) in
  let '(e, c) := Round d e a b c (f2 e a b) k4 w8 in
  wlet w9 := left (w9 ⊕ w6 ⊕ w1 ⊕ w11) in
  let '(d, b) := Round c d e a b (f2 d e a) k4 w9 in
  wlet w10 := left (w10 ⊕ w7 ⊕ w2 ⊕ w12) in
  let '(c, a) := Round b c d e a (f2 c d e) k4 w10 in
  wlet w11 := left (w11 ⊕ w8 ⊕ w3 ⊕ w13) in
  let '(b, e) := Round a b c d e (f2 b c d) k4 w11 in
  wlet w12 := left (w12 ⊕ w9 ⊕ w4 ⊕ w14) in
  let '(a, d) := Round e a b c d (f2 a b c) k4 w12 in
  wlet w13 := left (w13 ⊕ w10 ⊕ w5 ⊕ w15) in
  let '(e, c) := Round d e a b c (f2 e a b) k4 w13 in
  wlet w14 := left (w14 ⊕ w11 ⊕ w6 ⊕ w0) in
  let '(d, b) := Round c d e a b (f2 d e a) k4 w14 in
  wlet w15 := left (w15 ⊕ w12 ⊕ w7 ⊕ w1) in
  let '(c, a) := Round b c d e a (f2 c d e) k4 w15 in
  [u32 (s.[0] + a); u32 (s.[1] + b); u32 (s.[2] + c); u32 (s.[3] + d); u32 (s.[4] + e)].

(** The class CSHA1; [b] is the uninitialised buffer of a new object. *)
Definition CSHA1 (b : list Z) : hasher := mk_hasher Initialize b 0.
Definition SHA1_Write : hasher -> list Z -> hasher := Write Transform.
Definition SHA1_Finalize : hasher -> list Z := Finalize Transform WriteBE32 WriteBE64.
Definition SHA1_Reset : hasher -> hasher := Reset Initialize.
