(* ===== verification/ShaStream.v ===== *)
(** * ShaStream: the streaming of the SHA family

    A hasher represents the bytes written so far: [s] is the state after the
    full blocks, the front of [buf] is the rest, and [bytes] is the length
    modulo 2^64.  [Write] appends to what is represented, so the digest does
    not depend on how the message was cut, and [Finalize] applies the padding
    of the standards. *)

From S2P Require Import Prelude Words CryptoCommon ShaSpec.

(** ** Folding a compression function over blocks *)

Lemma blocks_fold_add f n m st data :
  blocks_fold f (n + m) st data = blocks_fold f m (blocks_fold f n st data) (drop (64 * n) data).
Proof.
  revert st data. induction n as [|n IH]; intros st data; [done|].
  cbn [Nat.add blocks_fold]. rewrite IH, drop_drop. do 2 f_equal. lia.
Qed.

Lemma blocks_fold_app f n st data rest :
  (64 * n <= length data)%nat -> blocks_fold f n st (data ++ rest) = blocks_fold f n st data.
Proof.
  revert st data. induction n as [|n IH]; intros st data Hn; [done|].
  cbn [blocks_fold]. rewrite take_app_le, drop_app_le by lia. apply IH. rewrite length_drop. lia.
Qed.

(** Two compression functions that agree on the reachable states. *)
Lemma blocks_fold_ext (P : list Z -> Prop) f g n st data :
  (forall st b, P st -> f st b = g st b /\ P (g st b)) -> P st ->
  blocks_fold f n st data = blocks_fold g n st data /\ P (blocks_fold g n st data).
Proof.
  intros Hfg. revert st data. induction n as [|n IH]; intros st data HP; [done|].
  cbn [blocks_fold]. destruct (Hfg st (take 64 data) HP) as [-> HP']. by apply IH.
Qed.

Section stream.
Context (Initialize : list Z) (Transform : list Z -> list Z -> list Z).
Context (write32 write64 : Z -> list Z).
Context (length_write64 : forall x, length (write64 x) = 8%nat).

Definition full (msg : list Z) : nat := length msg / 64.

Record represents (h : hasher) (msg : list Z) : Prop := {
  rep_state : s h = blocks_fold Transform (full msg) Initialize msg;
  rep_buf : take (length msg mod 64) (buf h) = drop (64 * full msg) msg;
  rep_length : length (buf h) = 64%nat;
  rep_bytes : bytes h = u64 (Z.of_nat (length msg)) }.

Lemma represents_Reset h : length (buf h) = 64%nat -> represents (Reset Initialize h) [].
Proof. intros. by split. Qed.

(** The loop over the full blocks of what is left of the data. *)
Lemma write_chunks_spec fuel st n data :
  (length data <= fuel)%nat -> word 64 n ->
  write_chunks Transform fuel st n data
  = (blocks_fold Transform (full data) st data, u64 (n + Z.of_nat (64 * full data)), drop (64 * full data) data).
Proof.
  unfold full. revert st n data. induction fuel as [|fuel IH]; intros st n data Hf Hn.
  - destruct data; [|cbn in Hf; lia]. cbn. by rewrite Z.add_0_r, wrap_small.
  - cbn [write_chunks]. destruct (Nat.leb_spec 64 (length data)) as [Hl|Hl].
    + rewrite IH by (rewrite ?length_drop; auto with words; lia).
      rewrite length_drop.
      replace (length data / 64)%nat with (S ((length data - 64) / 64)).
      2:{ replace (length data) with ((length data - 64) + 1 * 64)%nat at 2 by lia.
          rewrite Nat.div_add by lia. lia. }
      cbn [blocks_fold]. rewrite drop_drop. unfold wrap. rewrite Zplus_mod_idemp_l.
      f_equal; [f_equal; f_equal; lia|f_equal; lia].
    + rewrite (Nat.div_small (length data) 64) by lia. cbn. by rewrite Z.add_0_r, wrap_small.
Qed.

Lemma length_take_tail msg : length (drop (64 * full msg) msg) = (length msg mod 64)%nat.
Proof. unfold full. rewrite length_drop. pose proof (Nat.div_mod (length msg) 64). lia. Qed.

Lemma bufsize_spec h msg : represents h msg -> Z.to_nat (bytes h mod 64) = (length msg mod 64)%nat.
Proof.
  intros Hr. rewrite (rep_bytes _ _ Hr). unfold wrap.
  rewrite Z.mod_mod_divide by (exists (2 ^ 58); lia).
  change 64 with (Z.of_nat 64). by rewrite <-Nat2Z.inj_mod, Nat2Z.id.
Qed.

(** What is appended to [msg] when no block of [msg] is completed in the middle
    of [data]: the second half of [Write]. *)
Definition no_split (msg data : list Z) : Prop :=
  (length msg mod 64 = 0 \/ length msg mod 64 + length data < 64)%nat.

Lemma no_split_full msg data :
  no_split msg data ->
  full (msg ++ data) = (full msg + full data)%nat /\
  (length (msg ++ data) mod 64 = length msg mod 64 + length data mod 64)%nat.
Proof.
  unfold no_split, full. intros H. rewrite length_app.
  pose proof (Nat.div_mod (length msg) 64). pose proof (Nat.div_mod (length data) 64).
  pose proof (Nat.mod_upper_bound (length msg) 64). pose proof (Nat.mod_upper_bound (length data) 64).
  assert (length msg mod 64 + length data mod 64 < 64)%nat.
  { destruct H as [H|H]; [lia|]. rewrite (Nat.mod_small (length data)) by lia. lia. }
  split; symmetry.
  - apply (Nat.div_unique _ _ _ (length msg mod 64 + length data mod 64)); lia.
  - apply (Nat.mod_unique _ _ (length msg / 64 + length data / 64)); lia.
Qed.

Lemma no_split_tail msg data :
  no_split msg data ->
  drop (64 * full (msg ++ data)) (msg ++ data) = drop (64 * full msg) msg ++ drop (64 * full data) data.
Proof.
  intros H. rewrite (proj1 (no_split_full _ _ H)). pose proof (length_take_tail msg) as Ht.
  rewrite length_drop in Ht. pose proof (Nat.div_mod (length msg) 64). fold (full msg) in *.
  destruct H as [H|H].
  - rewrite (drop_ge msg (64 * full msg)) by lia. rewrite drop_app_ge by lia. cbn [app]. f_equal. lia.
  - replace (full data) with 0%nat by (unfold full; rewrite Nat.div_small; lia).
    rewrite Nat.add_0_r, drop_app_le by lia. done.
Qed.

Definition write_rest (h : hasher) (bufsize : nat) (data : list Z) : hasher :=
  let '(st, n, data) := write_chunks Transform (length data) (s h) (bytes h) data in
  if (0 <? length data)%nat
  then mk_hasher st (memcpy (buf h) bufsize data) (u64 (n + Z.of_nat (length data)))
  else mk_hasher st (buf h) n.

Lemma represents_rest h msg data :
  represents h msg -> no_split msg data -> represents (write_rest h (length msg mod 64) data) (msg ++ data).
Proof.
  intros Hr H. destruct (no_split_full _ _ H) as [Hf Hm]. pose proof (no_split_tail _ _ H) as Ht.
  pose proof (length_take_tail data) as Hl.
  assert (Hs : blocks_fold Transform (full (msg ++ data)) Initialize (msg ++ data)
               = blocks_fold Transform (full data) (s h) data).
  { rewrite Hf, blocks_fold_add, blocks_fold_app, (rep_state _ _ Hr).
    2:{ unfold full. pose proof (Nat.div_mod (length msg) 64). lia. }
    destruct H as [H|H].
    - f_equal. pose proof (length_take_tail msg) as Hk. rewrite length_drop in Hk.
      rewrite drop_app_ge by (unfold full; pose proof (Nat.div_mod (length msg) 64); lia).
      replace (64 * full msg - length msg)%nat with 0%nat; [done|].
      unfold full. pose proof (Nat.div_mod (length msg) 64). lia.
    - replace (full data) with 0%nat by (unfold full; rewrite Nat.div_small; lia). done. }
  assert (Hb : word 64 (bytes h)) by (rewrite (rep_bytes _ _ Hr); auto with words).
  assert (Hn : Z.of_nat (length msg + length data)
               = Z.of_nat (length msg) + Z.of_nat (64 * full data) + Z.of_nat (length data mod 64)).
  { unfold full. pose proof (Nat.div_mod (length data) 64). lia. }
  pose proof (Nat.mod_upper_bound (length (msg ++ data)) 64).
  unfold write_rest. rewrite write_chunks_spec by done. rewrite Hl.
  destruct (Nat.ltb_spec 0 (length data mod 64)) as [Hp|Hp]; split; cbn [s buf bytes]; try done.
  - rewrite Hm, <-Hl, memcpy_take; [|rewrite (rep_length _ _ Hr); lia].
    by rewrite Ht, (rep_buf _ _ Hr).
  - rewrite memcpy_length; rewrite ?(rep_length _ _ Hr); lia.
  - rewrite (rep_bytes _ _ Hr), length_app, Hn. unfold wrap.
    by rewrite Zplus_mod_idemp_l, <-!Zplus_assoc, Zplus_mod_idemp_l.
  - rewrite Hm, Ht, (nil_length_inv (drop (64 * full data) data)), app_nil_r by lia.
    by replace (length data mod 64)%nat with 0%nat by lia; rewrite Nat.add_0_r, (rep_buf _ _ Hr).
  - apply (rep_length _ _ Hr).
  - rewrite (rep_bytes _ _ Hr), length_app, Hn. unfold wrap.
    rewrite Zplus_mod_idemp_l. f_equal. lia.
Qed.

(** The first half of [Write]: a partial block is completed and processed. *)
Lemma represents_fill h msg data (k := (length msg mod 64)%nat) :
  represents h msg -> k <> 0%nat -> length data = (64 - k)%nat ->
  let b := memcpy (buf h) k data in
  represents (mk_hasher (Transform (s h) b) b (u64 (bytes h + Z.of_nat (64 - k)))) (msg ++ data).
Proof.
  intros Hr Hk Hd b. pose proof (Nat.mod_upper_bound (length msg) 64). subst k.
  pose proof (Nat.div_mod (length msg) 64) as Hdm. pose proof (rep_length _ _ Hr) as Hlb.
  assert (Hlen : length (msg ++ data) = (64 * S (full msg))%nat) by (rewrite length_app; unfold full; lia).
  assert (Hf : full (msg ++ data) = S (full msg)) by (unfold full at 1; rewrite Hlen, Nat.mul_comm; apply Nat.div_mul; lia).
  assert (Hb : b = drop (64 * full msg) msg ++ data).
  { rewrite <-(rep_buf _ _ Hr). subst b. unfold memcpy.
    by rewrite (drop_ge (buf h)), app_nil_r by lia. }
  split; cbn [s buf bytes].
  - rewrite Hf, <-Nat.add_1_r, blocks_fold_add, blocks_fold_app, <-(rep_state _ _ Hr) by (unfold full; lia).
    cbn [blocks_fold]. f_equal. rewrite drop_app_le by (unfold full; lia).
    rewrite <-Hb. symmetry. apply take_ge. subst b. rewrite memcpy_length; lia.
  - rewrite Hf, Hlen, drop_ge by lia. by rewrite Nat.mul_comm, Nat.Div0.mod_mul.
  - subst b. rewrite memcpy_length; lia.
  - rewrite (rep_bytes _ _ Hr), length_app, Hd. unfold wrap. rewrite Zplus_mod_idemp_l. f_equal. lia.
Qed.

Lemma represents_Write h msg data : represents h msg -> represents (Write Transform h data) (msg ++ data).
Proof.
  intros Hr. unfold Write. rewrite (bufsize_spec _ _ Hr).
  pose proof (Nat.mod_upper_bound (length msg) 64).
  destruct (Nat.eqb_spec (length msg mod 64) 0) as [H0|H0]; cbn [negb andb].
  { apply (represents_rest _ _ _ Hr). by left. }
  destruct (Nat.leb_spec 64 (length msg mod 64 + length data)) as [H1|H1].
  - set (d := take (64 - length msg mod 64) data).
    assert (Hd : length d = (64 - length msg mod 64)%nat) by (subst d; rewrite length_take; lia).
    pose proof (represents_fill _ _ _ Hr H0 Hd) as Hr'.
    replace (msg ++ data) with ((msg ++ d) ++ drop (64 - length msg mod 64) data)
      by (subst d; by rewrite <-app_assoc, take_drop).
    assert (Hm : (length (msg ++ d) mod 64 = 0)%nat).
    { rewrite length_app, Hd. pose proof (Nat.div_mod (length msg) 64).
      replace (length msg + (64 - length msg mod 64))%nat with (S (length msg / 64) * 64)%nat by lia.
      apply Nat.Div0.mod_mul. }
    pose proof (represents_rest _ _ (drop (64 - length msg mod 64) data) Hr' (or_introl Hm)) as Hw.
    by rewrite Hm in Hw.
  - apply (represents_rest _ _ _ Hr). by right.
Qed.

(** Any number of calls of [Write]. *)
Lemma represents_writes h msg parts :
  represents h msg -> represents (fold_left (Write Transform) parts h) (msg ++ concat parts).
Proof.
  revert h msg. induction parts as [|d parts IH]; intros h msg Hr; cbn [fold_left concat].
  - by rewrite app_nil_r.
  - rewrite app_assoc. by apply IH, represents_Write.
Qed.

Lemma represents_finalized h msg : represents h msg -> represents (finalized Transform write64 h) (padded write64 msg).
Proof.
  intros Hr. unfold finalized.
  set (n := Z.of_nat (length msg)). assert (Hn : 0 <= n) by lia.
  assert (Hpad : take (Z.to_nat (1 + (119 - bytes h mod 64) mod 64)) pad = [0x80] ++ replicate (Z.to_nat ((55 - n) mod 64)) 0).
  { rewrite (rep_bytes _ _ Hr). fold n. unfold wrap.
    rewrite Z.mod_mod_divide by (exists (2 ^ 58); lia).
    replace ((119 - n mod 64) mod 64) with ((55 - n) mod 64)
      by (rewrite Zminus_mod_idemp_r; replace (119 - n) with (55 - n + 1 * 64) by lia; by rewrite Z.mod_add).
    pose proof (Z.mod_pos_bound (55 - n) 64). rewrite Z2Nat.inj_add by lia.
    change (Z.to_nat 1) with 1%nat. unfold pad. cbn [Nat.add take app]. f_equal.
    rewrite take_replicate. f_equal. clear Hr. lia. }
  assert (Hsz : u64 (bytes h ≪ 3) = u64 (8 * n)).
  { rewrite (rep_bytes _ _ Hr), Z.shiftl_mul_pow2 by lia. fold n. unfold wrap.
    rewrite Zmult_mod_idemp_l. f_equal. lia. }
  rewrite Hpad, Hsz. unfold padded. fold n. rewrite !app_assoc, <-(app_assoc msg).
  by apply represents_Write, represents_Write.
Qed.

Lemma Finalize_spec h msg :
  represents h msg ->
  Finalize Transform write32 write64 h = md_digest Transform Initialize write32 write64 msg.
Proof.
  intros Hr. unfold Finalize, md_digest. by rewrite (rep_state _ _ (represents_finalized _ _ Hr)).
Qed.

(** The length of the padded message is a multiple of the block size. *)
Lemma padded_length msg : (length (padded write64 msg) mod 64 = 0)%nat.
Proof.
  unfold padded. rewrite !length_app, length_replicate, length_write64. cbn [length].
  set (n := Z.of_nat (length msg)).
  pose proof (Z.mod_pos_bound (55 - n) 64). apply Nat2Z.inj.
  rewrite Nat2Z.inj_mod, !Nat2Z.inj_add, Z2Nat.id by lia. fold n.
  replace (n + (Z.of_nat 1 + ((55 - n) mod 64 + Z.of_nat 8))) with (n + 9 + (55 - n) mod 64) by lia.
  change (Z.of_nat 64) with 64. rewrite Zplus_mod_idemp_r. by replace (n + 9 + (55 - n)) with (1 * 64) by lia.
Qed.
End stream.
