(* ===== verification/ShaRounds.v ===== *)
(** * ShaRounds: the unrolled transforms compute the standards' rounds

    [Transform] of sha256.cpp and sha1.cpp keeps 16 words that it overwrites and
    rotates the names of the state variables instead of their values; the
    standards index a schedule of 64 or 80 words and shift the state.  The proofs
    run both round by round. *)

From S2P Require Import Prelude Words CryptoCommon ShaSpec.
From S2P Require Sha256 Sha1 Ripemd160.

(** ** Schedules as functions *)

Lemma schedule_length next n W : length (schedule next n W) = (length W + n)%nat.
Proof. revert W. induction n as [|n IH]; intros W; cbn; [lia|]. rewrite IH, length_app. cbn. lia. Qed.

Lemma schedule_prefix next n W i : (i < length W)%nat -> (schedule next n W).[i] = W.[i].
Proof.
  revert W. induction n as [|n IH]; intros W Hi; cbn; [done|].
  rewrite IH by (rewrite length_app; cbn; lia). by apply app_nth1.
Qed.

(** A new word is [next] of the words before it, which the rest leaves alone. *)
Lemma schedule_next next m n W t :
  (forall V V' t, (m <= t)%nat -> (forall i, (i < t)%nat -> V.[i] = V'.[i]) -> next V t = next V' t) ->
  (m <= length W)%nat -> (length W <= t < length W + n)%nat ->
  (schedule next n W).[t] = next (schedule next n W) t.
Proof.
  intros Hnext. revert W. induction n as [|n IH]; intros W Hm Ht; cbn; [lia|].
  destruct (decide (t = length W)) as [->|Hne].
  - rewrite schedule_prefix by (rewrite length_app; cbn; lia).
    rewrite app_nth2, Nat.sub_diag by lia. cbn. apply Hnext; [lia|]. intros i Hi.
    rewrite schedule_prefix by (rewrite length_app; cbn; lia). by rewrite app_nth1.
  - apply IH; rewrite length_app; cbn; lia.
Qed.

Lemma list_as_map n (l : list Z) : length l = n -> l = map (fun i => l.[i]) (seq 0 n).
Proof.
  intros <-. apply (list_eq_same_length _ _ (length l)); [by rewrite length_map, length_seq|done|].
  intros i x y Hi Hx Hy. rewrite list_lookup_fmap, lookup_seq_lt in Hy by lia. cbn in Hy.
  injection Hy as <-. by rewrite (nth_lookup_Some _ _ 0 _ Hx).
Qed.

Lemma length_block_words rd block : length (block_words rd block) = 16%nat.
Proof. done. Qed.

Lemma block_word rd block i : (i < 16)%nat -> (block_words rd block).[i] = rd (take 4 (drop (4 * i) block)).
Proof.
  intros Hi. unfold block_words. apply nth_lookup_Some.
  by rewrite list_lookup_fmap, lookup_seq_lt.
Qed.

(** ** Bit identities of the round functions *)

Ltac word_bits :=
  apply (word_eq 32); [lia|auto 8 with words|auto 8 with words|];
  intros i Hi; autorewrite with bits; rewrite ?(proj2 (Z.ltb_lt i 32)) by lia;
  cbn [andb]; btauto.

Lemma NOT_word x : word 32 (NOT x).
Proof. unfold NOT. auto with words. Qed.
#[export] Hint Resolve NOT_word : words.

Lemma Ch_spec x y z :
  word 32 x -> word 32 y -> word 32 z -> Z.land x y ⊕ Z.land (NOT x) z = z ⊕ Z.land x (y ⊕ z).
Proof. intros. unfold NOT. word_bits. Qed.

Lemma Maj_spec x y z :
  word 32 x -> word 32 y -> word 32 z ->
  Z.land x y ⊕ Z.land x z ⊕ Z.land y z = Z.lor (Z.land x y) (Z.land z (Z.lor x y)).
Proof. intros. word_bits. Qed.

(** ** Running the two sides *)

(** A local variable of the source takes the value [v]. *)
Lemma assign_value (e v : Z) (rest : Z -> list Z) (R : list Z) : e = v -> rest v = R -> assign e rest = R.
Proof. by intros ->. Qed.

(** A round of the source: [HR] gives its results, that they are words, and the
    standard's step. *)
Ltac run_round HR :=
  lazymatch goal with |- (match ?r with _ => _ end) = _ =>
    let x := fresh "x" in let y := fresh "y" in let E := fresh "E" in let S := fresh "S" in
    assert (exists x y, r = (x, y) /\ word 32 x /\ word 32 y /\ _) as (x & y & E & ? & ? & S) by (apply HR; (assumption || reflexivity));
    rewrite E, S; clear E S; cbv match
  end.

(** ** SHA-256 *)

Section sha256.
Import Sha256.

(** One round of the source is one step of the standard, with the state shifted. *)
Lemma sha256_round a b c d e f g h k w :
  word 32 a -> word 32 b -> word 32 c -> word 32 e -> word 32 f -> word 32 g ->
  exists d' h', Round a b c d e f g h k w = (d', h') /\ word 32 d' /\ word 32 h' /\
    forall l, fold_left SHA256.step ((k, w) :: l) [a; b; c; d; e; f; g; h]
              = fold_left SHA256.step l [h'; a; b; c; d'; e; f; g].
Proof.
  intros. do 2 eexists. split; [done|]. split; [auto with words|]. split; [auto with words|].
  intros l. cbn [fold_left SHA256.step fst snd]. f_equal.
  unfold SHA256.Ch, SHA256.Maj. rewrite Ch_spec, Maj_spec by done.
  unfold SHA256.S0, SHA256.S1, ROTR, Sigma0, Sigma1, Ch, Maj. by f_equal.
Qed.

Lemma sha256_rounds (W : nat -> Z) (st chunk : list Z) :
  Forall (word 32) st -> length st = 8%nat ->
  (forall i, (i < 16)%nat -> ReadBE32 (drop (4 * i) chunk) = W i) ->
  (forall t, (t < 48)%nat -> u32 (W t + sigma1 (W (14 + t)%nat) + W (9 + t)%nat + sigma0 (W (1 + t)%nat)) = W (16 + t)%nat) ->
  Transform st chunk = zip_with add32 st (fold_left SHA256.step (zip SHA256.K (map W (seq 0 64))) st).
Proof.
  intros Hw Hl Hload Hsched.
  destruct st as [|a [|b [|c [|d [|e [|f [|g [|h [|]]]]]]]]]; try done.
  rewrite !Forall_cons in Hw. destruct Hw as (Ha & Hb & Hc & Hd & He & Hf & Hg & Hh & _).
  set (F := zip_with add32 [a; b; c; d; e; f; g; h]).
  cbn [seq map zip zip_with SHA256.K]. cbv beta zeta delta [Transform]. cbn [nth].
  pose proof sha256_round as HR. pose proof assign_value as HA.
  revert HR Hsched HA. generalize Round sigma0 sigma1 assign. intros Round sigma0 sigma1 assign HR Hsched HA.
  do 16 (
    lazymatch goal with |- assign (ReadBE32 (drop ?n _)) _ = _ =>
      let t := eval vm_compute in (n / 4)%nat in
      apply (HA _ (W t)); [apply (Hload t); lia|cbv beta] end;
    run_round HR).
  do 48 (
    lazymatch goal with |- assign (u32 (W ?t + _ + _ + _)) _ = _ =>
      let t' := eval vm_compute in (t + 16)%nat in
      apply (HA _ (W t')); [apply (Hsched t); lia|cbv beta] end;
    run_round HR).
  done.
Qed.

Lemma sha256_next_ext V V' t :
  (16 <= t)%nat -> (forall i, (i < t)%nat -> V.[i] = V'.[i]) -> SHA256.next V t = SHA256.next V' t.
Proof. intros Ht H. unfold SHA256.next. by rewrite !H by lia. Qed.

Lemma sha256_next W t :
  u32 (W.[t] + sigma1 W.[14 + t] + W.[9 + t] + sigma0 W.[1 + t]) = SHA256.next W (16 + t).
Proof.
  unfold SHA256.next. change SHA256.s0 with sigma0. change SHA256.s1 with sigma1.
  replace (16 + t - 2)%nat with (14 + t)%nat by lia. replace (16 + t - 7)%nat with (9 + t)%nat by lia.
  replace (16 + t - 15)%nat with (1 + t)%nat by lia. replace (16 + t - 16)%nat with t by lia.
  f_equal. lia.
Qed.

(** The states of the standard: 8 words. *)
Lemma add32_words st st' : Forall (word 32) (zip_with add32 st st').
Proof. revert st'. induction st as [|x st IH]; intros [|y st']; cbn; constructor; [apply wrap_word; lia|done]. Qed.

Lemma sha256_step_length l st : length st = 8%nat -> length (fold_left SHA256.step l st) = 8%nat.
Proof.
  intros H. apply fold_left_inv; [done|]. intros st' kw H'.
  destruct st' as [|? [|? [|? [|? [|? [|? [|? [|? [|]]]]]]]]]; done.
Qed.

Lemma sha256_transform st block :
  Forall (word 32) st /\ length st = 8%nat ->
  Transform st block = sha256_compress st block /\
  Forall (word 32) (sha256_compress st block) /\ length (sha256_compress st block) = 8%nat.
Proof.
  intros [Hw Hl]. split.
  2:{ split; [apply add32_words|]. unfold sha256_compress.
      by rewrite length_zip_with, sha256_step_length, Hl. }
  unfold sha256_compress. set (W := schedule _ _ _).
  assert (HW : length W = 64%nat) by (subst W; by rewrite schedule_length).
  assert (Hload : forall i, (i < 16)%nat -> ReadBE32 (drop (4 * i) block) = W.[i])
    by (intros i Hi; subst W; rewrite schedule_prefix by done; symmetry; by apply block_word).
  assert (Hnext : forall t, (t < 48)%nat -> W.[16 + t] = SHA256.next W (16 + t)).
  { intros t Ht. apply (schedule_next _ 16); rewrite ?length_block_words; try lia. apply sha256_next_ext. }
  clearbody W. rewrite (list_as_map 64 W) by done.
  apply sha256_rounds; [done|done|done|].
  intros t Ht. rewrite Hnext by done. apply sha256_next.
Qed.
End sha256.

(** ** SHA-1 *)

Section sha1.
Import Sha1.

Lemma sha1_round t a b c d e k w f :
  word 32 a -> word 32 b -> word 32 c -> word 32 d ->
  (f = if (t <? 20)%nat then f1 b c d else if (t <? 40)%nat then f2 b c d else if (t <? 60)%nat then f3 b c d else f2 b c d) ->
  k = SHA1.K t ->
  exists b' e', Round a b c d e f k w = (b', e') /\ word 32 b' /\ word 32 e' /\
    forall l, fold_left SHA1.step ((t, w) :: l) [a; b; c; d; e] = fold_left SHA1.step l [e'; a; b'; c; d].
Proof.
  intros. subst. do 2 eexists. split; [done|]. split; [auto with words|]. split; [auto with words|].
  intros l. cbn [fold_left SHA1.step fst snd]. do 2 f_equal.
  unfold SHA1.f, SHA1.Ch, SHA1.Maj, SHA1.Parity.
  change (ROTL 5 a) with (Z.lor (u32 (a ≪ 5)) (a ≫ 27)).
  by do 3 (destruct (_ <? _)%nat; [rewrite ?Ch_spec, ?Maj_spec by done; unfold f1, f2, f3; f_equal; lia|]); unfold f2; f_equal; lia.
Qed.

Lemma sha1_rounds (W : nat -> Z) (st chunk : list Z) :
  Forall (word 32) st -> length st = 5%nat ->
  (forall i, (i < 16)%nat -> ReadBE32 (drop (4 * i) chunk) = W i) ->
  (forall t, (t < 64)%nat -> left (W t ⊕ W (13 + t)%nat ⊕ W (8 + t)%nat ⊕ W (2 + t)%nat) = W (16 + t)%nat) ->
  Transform st chunk = zip_with add32 st (fold_left SHA1.step (zip (seq 0 80) (map W (seq 0 80))) st).
Proof.
  intros Hw Hl Hload Hsched.
  destruct st as [|a [|b [|c [|d [|e [|]]]]]]; try done.
  rewrite !Forall_cons in Hw. destruct Hw as (Ha & Hb & Hc & Hd & He & _).
  set (F := zip_with add32 [a; b; c; d; e]).
  cbn [seq map zip zip_with]. cbv beta zeta delta [Transform]. cbn [nth].
  pose proof sha1_round as HR. pose proof assign_value as HA.
  revert HR Hsched HA. generalize Round left assign. intros Round left assign HR Hsched HA.
  do 16 (
    lazymatch goal with |- assign (ReadBE32 (drop ?n _)) _ = _ =>
      let t := eval vm_compute in (n / 4)%nat in
      apply (HA _ (W t)); [apply (Hload t); lia|cbv beta] end;
    lazymatch goal with |- _ = F (fold_left _ ((?t, _) :: _) _) => run_round (HR t) end).
  do 64 (
    lazymatch goal with |- assign (left (W ?t ⊕ _ ⊕ _ ⊕ _)) _ = _ =>
      let t' := eval vm_compute in (t + 16)%nat in
      apply (HA _ (W t')); [apply (Hsched t); lia|cbv beta] end;
    lazymatch goal with |- _ = F (fold_left _ ((?t, _) :: _) _) => run_round (HR t) end).
  done.
Qed.

Lemma sha1_next_ext V V' t :
  (16 <= t)%nat -> (forall i, (i < t)%nat -> V.[i] = V'.[i]) -> SHA1.next V t = SHA1.next V' t.
Proof. intros Ht H. unfold SHA1.next. by rewrite !H by lia. Qed.

Lemma sha1_next W t : left (W.[t] ⊕ W.[13 + t] ⊕ W.[8 + t] ⊕ W.[2 + t]) = SHA1.next W (16 + t).
Proof.
  unfold SHA1.next. change (ROTL 1) with left.
  replace (16 + t - 3)%nat with (13 + t)%nat by lia. replace (16 + t - 8)%nat with (8 + t)%nat by lia.
  replace (16 + t - 14)%nat with (2 + t)%nat by lia. replace (16 + t - 16)%nat with t by lia.
  f_equal. apply Z.bits_inj'. intros. autorewrite with bits. btauto.
Qed.

Lemma sha1_step_length l st : length st = 5%nat -> length (fold_left SHA1.step l st) = 5%nat.
Proof.
  intros H. apply fold_left_inv; [done|]. intros st' kw H'.
  destruct st' as [|? [|? [|? [|? [|? [|]]]]]]; done.
Qed.

Lemma sha1_transform st block :
  Forall (word 32) st /\ length st = 5%nat ->
  Transform st block = sha1_compress st block /\
  Forall (word 32) (sha1_compress st block) /\ length (sha1_compress st block) = 5%nat.
Proof.
  intros [Hw Hl]. split.
  2:{ split; [apply add32_words|]. unfold sha1_compress.
      by rewrite length_zip_with, sha1_step_length, Hl. }
  unfold sha1_compress. set (W := schedule _ _ _).
  assert (HW : length W = 80%nat) by (subst W; by rewrite schedule_length).
  assert (Hload : forall i, (i < 16)%nat -> ReadBE32 (drop (4 * i) block) = W.[i])
    by (intros i Hi; subst W; rewrite schedule_prefix by done; symmetry; by apply block_word).
  assert (Hnext : forall t, (t < 64)%nat -> W.[16 + t] = SHA1.next W (16 + t)).
  { intros t Ht. apply (schedule_next _ 16); rewrite ?length_block_words; try lia. apply sha1_next_ext. }
  clearbody W. rewrite (list_as_map 80 W) by done.
  apply sha1_rounds; [done|done|done|].
  intros t Ht. rewrite Hnext by done. apply sha1_next.
Qed.
End sha1.

(** ** RIPEMD-160 *)

Section ripemd160.
Import Ripemd160.

(** A line of the standard as a fold over its rows: function, word, constant and
    rotation of each round. *)
Definition row_step (st : list Z) (row : (Z -> Z -> Z -> Z) * Z * Z * Z) : list Z :=
  let '(g, x, k, n) := row in RMD160.step g x k n st.

Definition left_row (X : list Z) (j : nat) : (Z -> Z -> Z -> Z) * Z * Z * Z :=
  (RMD160.f (j / 16), X.[nth j RMD160.r 0%nat], RMD160.K.[j / 16], RMD160.s.[j]).
Definition right_row (X : list Z) (j : nat) : (Z -> Z -> Z -> Z) * Z * Z * Z :=
  (RMD160.f (4 - j / 16), X.[nth j RMD160.r' 0%nat], RMD160.K'.[j / 16], RMD160.s'.[j]).

Lemma rows_fold f (row : nat -> (Z -> Z -> Z -> Z) * Z * Z * Z) js st :
  (forall st j, f st j = row_step st (row j)) -> fold_left f js st = fold_left row_step (map row js) st.
Proof. intros Hf. revert st. induction js as [|j js IH]; intros st; cbn; [done|]. rewrite Hf. apply IH. Qed.

Lemma left_line_rows X st : RMD160.left_line X st = fold_left row_step (map (left_row X) (seq 0 80)) st.
Proof. apply rows_fold. reflexivity. Qed.

Lemma right_line_rows X st : RMD160.right_line X st = fold_left row_step (map (right_row X) (seq 0 80)) st.
Proof. apply rows_fold. reflexivity. Qed.

(** The macro [R] is a round with the function [g] and the constant [k]. *)
Definition is_round (R : Z -> Z -> Z -> Z -> Z -> Z -> Z -> Z * Z) (g : Z -> Z -> Z -> Z) (k : Z) : Prop :=
  forall a b c d e x n, exists a' c', R a b c d e x n = (a', c') /\
    forall l, fold_left row_step ((g, x, k, n) :: l) [a; b; c; d; e] = fold_left row_step l [e; a'; b; c'; d].

Lemma is_round_Round g k : is_round (fun a b c d e x n => Round a b c d e (g b c d) x k n) g k.
Proof. intros a b c d e x n. do 2 eexists. by split. Qed.

Ltac run_line :=
  lazymatch goal with H : is_round ?R _ _ |- (match ?R ?a ?b ?c ?d ?e ?x ?n with _ => _ end) = _ =>
    let a' := fresh "x" in let c' := fresh "y" in let E := fresh "E" in let S := fresh "S" in
    destruct (H a b c d e x n) as (a' & c' & E & S); rewrite E, S; clear E S; cbv match
  end.

Lemma ripemd160_rounds (X : nat -> Z) (st chunk : list Z) :
  length st = 5%nat ->
  (forall i, (i < 16)%nat -> ReadLE32 (drop (4 * i) chunk) = X i) ->
  Transform st chunk =
  (let L := RMD160.left_line (map X (seq 0 16)) st in
   let R := RMD160.right_line (map X (seq 0 16)) st in
   map (fun i => u32 (st.[S i mod 5] + L.[(i + 2) mod 5] + R.[(i + 3) mod 5])) (seq 0 5)).
Proof.
  intros Hl Hload.
  destruct st as [|a [|b [|c [|d [|e [|]]]]]]; try done.
  set (G := fun L R : list Z => map (fun i => u32 ([a; b; c; d; e].[S i mod 5] + L.[(i + 2) mod 5] + R.[(i + 3) mod 5])) (seq 0 5)).
  change (Transform [a; b; c; d; e] chunk =
    G (RMD160.left_line (map X (seq 0 16)) [a; b; c; d; e]) (RMD160.right_line (map X (seq 0 16)) [a; b; c; d; e])).
  rewrite left_line_rows, right_line_rows.
  let l := eval lazy -[RMD160.f] in (map (left_row (map X (seq 0 16))) (seq 0 80)) in
  replace (map (left_row (map X (seq 0 16))) (seq 0 80)) with l by (lazy -[RMD160.f]; reflexivity).
  let l := eval lazy -[RMD160.f] in (map (right_row (map X (seq 0 16))) (seq 0 80)) in
  replace (map (right_row (map X (seq 0 16))) (seq 0 80)) with l by (lazy -[RMD160.f]; reflexivity).
  assert (H11 : is_round R11 (RMD160.f 0) 0) by exact (is_round_Round _ _).
  assert (H21 : is_round R21 (RMD160.f 1) 0x5A827999) by exact (is_round_Round _ _).
  assert (H31 : is_round R31 (RMD160.f 2) 0x6ED9EBA1) by exact (is_round_Round _ _).
  assert (H41 : is_round R41 (RMD160.f 3) 0x8F1BBCDC) by exact (is_round_Round _ _).
  assert (H51 : is_round R51 (RMD160.f 4) 0xA953FD4E) by exact (is_round_Round _ _).
  assert (H12 : is_round R12 (RMD160.f 4) 0x50A28BE6) by exact (is_round_Round _ _).
  assert (H22 : is_round R22 (RMD160.f 3) 0x5C4DD124) by exact (is_round_Round _ _).
  assert (H32 : is_round R32 (RMD160.f 2) 0x6D703EF3) by exact (is_round_Round _ _).
  assert (H42 : is_round R42 (RMD160.f 1) 0x7A6D76E9) by exact (is_round_Round _ _).
  assert (H52 : is_round R52 (RMD160.f 0) 0) by exact (is_round_Round _ _).
  cbv beta zeta delta [Transform]. cbn [nth].
  pose proof assign_value as HA.
  revert H11 H21 H31 H41 H51 H12 H22 H32 H42 H52 HA.
  generalize R11 R21 R31 R41 R51 R12 R22 R32 R42 R52 assign. intros.
  do 16 (
    lazymatch goal with |- _ (ReadLE32 (drop ?n _)) _ = _ =>
      let t := eval vm_compute in (n / 4)%nat in
      apply (HA _ (X t)); [apply (Hload t); lia|cbv beta] end).
  do 160 run_line.
  done.
Qed.

Lemma ripemd160_transform st block :
  length st = 5%nat ->
  Transform st block = rmd160_compress st block /\ length (rmd160_compress st block) = 5%nat.
Proof.
  intros Hl. split; [|done]. unfold rmd160_compress.
  rewrite (list_as_map 16 (block_words _ _)) by done.
  apply ripemd160_rounds; [done|]. intros i Hi. symmetry. by apply block_word.
Qed.
End ripemd160.
