(* ===== verification/Hash.v ===== *)
(** * Hash: hash.h and crypto/hmac_sha256.cpp

    The double hashes CHash256 (SHA-256 twice) and CHash160 (SHA-256, then
    RIPEMD-160), the functions [Hash] and [Hash160] over byte ranges, and
    CHMAC_SHA256.  An object whose class keeps a CSHA256 is that hasher; the
    argument [b] of a constructor is the uninitialised buffer of the new object. *)

From S2P Require Import Prelude Words CryptoCommon Sha256 Ripemd160.

(** ** CHash256 and CHash160 *)

Definition CHash256 (b : list Z) : hasher := CSHA256 b.
Definition CHash256_Write (sha : hasher) (data : list Z) : hasher := SHA256_Write sha data.
Definition CHash256_Reset (sha : hasher) : hasher := SHA256_Reset sha.
Definition CHash256_Finalize (sha : hasher) : list Z :=
  let buf := SHA256_Finalize sha in
  SHA256_Finalize (SHA256_Write (SHA256_Reset (SHA256_finalized sha)) buf).

Definition CHash160 (b : list Z) : hasher := CSHA256 b.
Definition CHash160_Write (sha : hasher) (data : list Z) : hasher := SHA256_Write sha data.
Definition CHash160_Finalize (b : list Z) (sha : hasher) : list Z :=
  let buf := SHA256_Finalize sha in
  RIPEMD160_Finalize (RIPEMD160_Write (CRIPEMD160 b) buf).

(** ** Hashes of one, two and three byte ranges *)

Definition Hash (b p : list Z) : list Z := CHash256_Finalize (CHash256_Write (CHash256 b) p).
Definition Hash2 (b p1 p2 : list Z) : list Z :=
  CHash256_Finalize (CHash256_Write (CHash256_Write (CHash256 b) p1) p2).
Definition Hash3 (b p1 p2 p3 : list Z) : list Z :=
  CHash256_Finalize (CHash256_Write (CHash256_Write (CHash256_Write (CHash256 b) p1) p2) p3).
Definition Hash160 (b b' p : list Z) : list Z := CHash160_Finalize b' (CHash160_Write (CHash160 b) p).

(** ** HMAC-SHA-256 *)

Record hmac := mk_hmac { outer : hasher; inner : hasher }.

Definition CHMAC_SHA256 (b b_outer b_inner : list Z) (key : list Z) : hmac :=
  let rkey :=
    if (length key <=? 64)%nat then key ++ replicate (64 - length key) 0
    else SHA256_Finalize (SHA256_Write (CSHA256 b) key) ++ replicate 32 0 in
  let rkey := map (fun x => x ⊕ 0x5c) rkey in
  let outer := SHA256_Write (CSHA256 b_outer) rkey in
  let rkey := map (fun x => x ⊕ (0x5c ⊕ 0x36)) rkey in
  let inner := SHA256_Write (CSHA256 b_inner) rkey in
  mk_hmac outer inner.

Definition CHMAC_SHA256_Write (h : hmac) (data : list Z) : hmac := mk_hmac (outer h) (SHA256_Write (inner h) data).

Definition CHMAC_SHA256_Finalize (h : hmac) : list Z :=
  let temp := SHA256_Finalize (inner h) in
  SHA256_Finalize (SHA256_Write (outer h) temp).
