(* ===== verification/HashCorrect.v ===== *)
(** * HashCorrect: the hash classes compute the standards' functions

    SHA-256, SHA-1 and RIPEMD-160 of any message in any partition into writes;
    the double hashes; HMAC of RFC 2104. *)

From S2P Require Import Prelude Words CryptoCommon ShaSpec ShaStream ShaRounds Hash.
From S2P Require Sha256 Sha1 Ripemd160.
Import Sha256 Sha1 Ripemd160.

(** ** The digests of the code and of the standards *)

(** A code transform that agrees with a compression function on the states
    that satisfy [P] gives the same digests. *)
Lemma md_digest_ext (P : list Z -> Prop) f g init wr len msg :
  (forall st b, P st -> f st b = g st b /\ P (g st b)) -> P init ->
  md_digest f init wr len msg = md_digest g init wr len msg.
Proof.
  intros Hfg HP. unfold md_digest. f_equal.
  apply (blocks_fold_ext P); auto.
Qed.

Lemma sha256_digest msg : md_digest Sha256.Transform Sha256.Initialize WriteBE32 WriteBE64 msg = sha256 msg.
Proof.
  apply (md_digest_ext (fun st => Forall (word 32) st /\ length st = 8%nat)).
  - apply sha256_transform.
  - split; [|done]. repeat constructor; unfold word; lia.
Qed.

Lemma sha1_digest msg : md_digest Sha1.Transform Sha1.Initialize WriteBE32 WriteBE64 msg = sha1 msg.
Proof.
  apply (md_digest_ext (fun st => Forall (word 32) st /\ length st = 5%nat)).
  - apply sha1_transform.
  - split; [|done]. repeat constructor; unfold word; lia.
Qed.

Lemma ripemd160_digest msg : md_digest Ripemd160.Transform Ripemd160.Initialize WriteLE32 WriteLE64 msg = rmd160 msg.
Proof.
  apply (md_digest_ext (fun st => length st = 5%nat)); [|done]. apply ripemd160_transform.
Qed.

Create HintDb hashes discriminated.

(** ** Objects of the classes *)

Definition sha256_rep : hasher -> list Z -> Prop := represents Sha256.Initialize Sha256.Transform.

Lemma CSHA256_rep b : length b = 64%nat -> sha256_rep (CSHA256 b) [].
Proof. intros. by split. Qed.

Lemma SHA256_Write_rep h msg data : sha256_rep h msg -> sha256_rep (SHA256_Write h data) (msg ++ data).
Proof. apply represents_Write. Qed.

Lemma SHA256_Reset_rep h : length (buf h) = 64%nat -> sha256_rep (SHA256_Reset h) [].
Proof. intros. by split. Qed.

Lemma SHA256_Finalize_rep h msg : sha256_rep h msg -> SHA256_Finalize h = sha256 msg.
Proof. intros Hr. rewrite <-sha256_digest. by apply Finalize_spec. Qed.

Lemma SHA256_finalized_buf h msg : sha256_rep h msg -> length (buf (SHA256_finalized h)) = 64%nat.
Proof. intros Hr. apply (rep_length _ _ _ _ (represents_finalized _ _ WriteBE64 _ _ Hr)). Qed.

#[export] Hint Resolve CSHA256_rep SHA256_Write_rep SHA256_Reset_rep SHA256_finalized_buf : hashes.

(** C20: CSHA256, CSHA1 and CRIPEMD160 refine the standards: whatever the cut of a message into calls of [Write], and whatever the uninitialised buffer of the new object holds, [Finalize] returns the SHA-256 or SHA-1 digest of FIPS 180-4, or the RIPEMD-160 digest, of the concatenation.  The unrolled transforms with their 16 rotating words are the standards' rounds over the full schedule, and the padding and the length field are exact modulo 2^64 bits. *)
Theorem hashers_refine_standards (b : list Z) (parts : list (list Z)) :
  length b = 64%nat ->
  SHA256_Finalize (fold_left SHA256_Write parts (CSHA256 b)) = sha256 (concat parts) /\
  SHA1_Finalize (fold_left SHA1_Write parts (CSHA1 b)) = sha1 (concat parts) /\
  RIPEMD160_Finalize (fold_left RIPEMD160_Write parts (CRIPEMD160 b)) = rmd160 (concat parts).
Proof.
  intros Hb. rewrite <-sha256_digest, <-sha1_digest, <-ripemd160_digest.
  split; [|split]; apply Finalize_spec, (represents_writes _ _ _ [] parts); by split.
Qed.

(** "abc" in two writes: the test vectors of the standards. *)
Lemma hashers_refine_standards_witness :
  length (replicate 64 0) = 64%nat /\
  SHA256_Finalize (fold_left SHA256_Write [[97]; [98; 99]] (CSHA256 (replicate 64 0)))
  = [0xba; 0x78; 0x16; 0xbf; 0x8f; 0x01; 0xcf; 0xea; 0x41; 0x41; 0x40; 0xde; 0x5d; 0xae; 0x22; 0x23;
     0xb0; 0x03; 0x61; 0xa3; 0x96; 0x17; 0x7a; 0x9c; 0xb4; 0x10; 0xff; 0x61; 0xf2; 0x00; 0x15; 0xad].
Proof.
  split; [reflexivity|].
  rewrite (proj1 (hashers_refine_standards (replicate 64 0) [[97]; [98; 99]] eq_refl)).
  vm_compute. reflexivity.
Defined.

(** ** Double hashes and HMAC *)

(** The byte string that HMAC uses for the key. *)
Definition hmac_key (key : list Z) : list Z :=
  let k := if (length key <=? 64)%nat then key else sha256 key in k ++ replicate (64 - length k) 0.

(** HMAC-SHA-256 (RFC 2104). *)
Definition hmac_sha256 (key msg : list Z) : list Z :=
  let opad := map (fun x => x ⊕ 0x5c) (hmac_key key) in
  let ipad := map (fun x => x ⊕ 0x36) (hmac_key key) in
  sha256 (opad ++ sha256 (ipad ++ msg)).

Lemma CHash256_Finalize_rep h msg : sha256_rep h msg -> CHash256_Finalize h = sha256 (sha256 msg).
Proof.
  intros Hr. unfold CHash256_Finalize.
  rewrite (SHA256_Finalize_rep _ ([] ++ SHA256_Finalize h)) by eauto with hashes.
  by rewrite (SHA256_Finalize_rep _ _ Hr).
Qed.

Lemma Hash_spec b p : length b = 64%nat -> Hash b p = sha256 (sha256 p).
Proof. intros. unfold Hash. rewrite (CHash256_Finalize_rep _ ([] ++ p)); [done|]. apply SHA256_Write_rep; by split. Qed.

Lemma Hash2_spec b p1 p2 : length b = 64%nat -> Hash2 b p1 p2 = sha256 (sha256 (p1 ++ p2)).
Proof.
  intros. unfold Hash2. rewrite (CHash256_Finalize_rep _ (([] ++ p1) ++ p2)); [done|].
  by apply SHA256_Write_rep, SHA256_Write_rep; split.
Qed.

Lemma Hash3_spec b p1 p2 p3 : length b = 64%nat -> Hash3 b p1 p2 p3 = sha256 (sha256 (p1 ++ p2 ++ p3)).
Proof.
  intros. unfold Hash3. rewrite (CHash256_Finalize_rep _ ((([] ++ p1) ++ p2) ++ p3)).
  - by rewrite <-!app_assoc.
  - by apply SHA256_Write_rep, SHA256_Write_rep, SHA256_Write_rep; split.
Qed.

Lemma Hash160_spec b b' p : length b = 64%nat -> length b' = 64%nat -> Hash160 b b' p = rmd160 (sha256 p).
Proof.
  intros Hb Hb'. unfold Hash160, CHash160_Finalize.
  rewrite (SHA256_Finalize_rep _ ([] ++ p)) by (apply SHA256_Write_rep; by split).
  rewrite <-ripemd160_digest. apply Finalize_spec.
  apply (represents_Write _ _ _ []). by split.
Qed.

Lemma length_sha256 msg : length (sha256 msg) = 32%nat.
Proof.
  unfold sha256, md_digest.
  assert (H : forall n st data, length st = 8%nat -> length (blocks_fold sha256_compress n st data) = 8%nat).
  { induction n as [|n IH]; intros st data Hst; [done|]. apply IH.
    unfold sha256_compress. by rewrite length_zip_with, sha256_step_length, Hst. }
  specialize (H (length (padded (be_bytes 8) msg) / 64)%nat SHA256.H0 (padded (be_bytes 8) msg) eq_refl).
  by destruct (blocks_fold _ _ _ _) as [|? [|? [|? [|? [|? [|? [|? [|? [|]]]]]]]]].
Qed.

Lemma hmac_rkey b key :
  length b = 64%nat ->
  (if (length key <=? 64)%nat then key ++ replicate (64 - length key) 0
   else SHA256_Finalize (SHA256_Write (CSHA256 b) key) ++ replicate 32 0) = hmac_key key.
Proof.
  intros Hb. unfold hmac_key. destruct (Nat.leb_spec (length key) 64); [done|].
  rewrite length_sha256. f_equal. apply (SHA256_Finalize_rep _ ([] ++ key)). apply SHA256_Write_rep. by split.
Qed.

Lemma HMAC_spec b b1 b2 key parts :
  length b = 64%nat -> length b1 = 64%nat -> length b2 = 64%nat ->
  CHMAC_SHA256_Finalize (fold_left CHMAC_SHA256_Write parts (CHMAC_SHA256 b b1 b2 key)) = hmac_sha256 key (concat parts).
Proof.
  intros Hb H1 H2. unfold CHMAC_SHA256. rewrite hmac_rkey by done.
  set (o := SHA256_Write (CSHA256 b1) _). set (i := SHA256_Write (CSHA256 b2) _).
  assert (Hf : forall h, fold_left CHMAC_SHA256_Write parts h = mk_hmac (outer h) (fold_left SHA256_Write parts (inner h))).
  { induction parts as [|d parts IH]; intros h; [by destruct h|]. cbn [fold_left]. by rewrite IH. }
  rewrite Hf. unfold CHMAC_SHA256_Finalize. cbn [outer inner].
  assert (Hi : sha256_rep i (map (fun x => x ⊕ 0x36) (hmac_key key))).
  { subst i. rewrite map_map.
    replace (map (fun x => x ⊕ 0x36) (hmac_key key)) with ([] ++ map (fun x => x ⊕ 0x5c ⊕ (0x5c ⊕ 0x36)) (hmac_key key)).
    - apply SHA256_Write_rep. by split.
    - apply map_ext. intros x. by rewrite Z.lxor_assoc. }
  assert (Ho : sha256_rep o (map (fun x => x ⊕ 0x5c) (hmac_key key))).
  { subst o. apply (SHA256_Write_rep _ []). by split. }
  rewrite (SHA256_Finalize_rep _ _ (SHA256_Write_rep _ _ _ Ho)). unfold hmac_sha256. do 2 f_equal.
  apply SHA256_Finalize_rep. by apply represents_writes.
Qed.

(** The hashes built on them: [Hash] of one, two and three ranges is SHA-256 of SHA-256 of their concatenation although [Finalize] reuses the object after [Reset]; [Hash160] is RIPEMD-160 of SHA-256; and CHMAC_SHA256 is the HMAC of RFC 2104 for keys shorter than, as long as and longer than a block, in any number of writes. *)
Theorem hash_classes_spec (b b1 b2 p1 p2 p3 key : list Z) (parts : list (list Z)) :
  length b = 64%nat -> length b1 = 64%nat -> length b2 = 64%nat ->
  Hash b p1 = sha256 (sha256 p1) /\
  Hash2 b p1 p2 = sha256 (sha256 (p1 ++ p2)) /\
  Hash3 b p1 p2 p3 = sha256 (sha256 (p1 ++ p2 ++ p3)) /\
  Hash160 b b1 p1 = rmd160 (sha256 p1) /\
  CHMAC_SHA256_Finalize (fold_left CHMAC_SHA256_Write parts (CHMAC_SHA256 b b1 b2 key)) = hmac_sha256 key (concat parts).
Proof. intros. by rewrite Hash_spec, Hash2_spec, Hash3_spec, Hash160_spec, HMAC_spec. Qed.

(** The HMAC of "what do ya want for nothing?" under "Jefe" (RFC 4231). *)
Lemma hash_classes_spec_witness :
  let b := replicate 64 0 in
  length b = 64%nat /\
  CHMAC_SHA256_Finalize (fold_left CHMAC_SHA256_Write
    [[119; 104; 97; 116; 32; 100; 111; 32; 121; 97; 32]; [119; 97; 110; 116; 32; 102; 111; 114; 32; 110; 111; 116; 104; 105; 110; 103; 63]]
    (CHMAC_SHA256 b b b [74; 101; 102; 101]))
  = [0x5b; 0xdc; 0xc1; 0x46; 0xbf; 0x60; 0x75; 0x4e; 0x6a; 0x04; 0x24; 0x26; 0x08; 0x95; 0x75; 0xc7;
     0x5a; 0x00; 0x3f; 0x08; 0x9d; 0x27; 0x39; 0x83; 0x9d; 0xec; 0x58; 0xb9; 0x64; 0xec; 0x38; 0x43].
Proof.
  intros b. split; [reflexivity|].
  pose proof (hash_classes_spec b b b [] [] [] [74; 101; 102; 101]
    [[119; 104; 97; 116; 32; 100; 111; 32; 121; 97; 32]; [119; 97; 110; 116; 32; 102; 111; 114; 32; 110; 111; 116; 104; 105; 110; 103; 63]]
    eq_refl eq_refl eq_refl) as (_ & _ & _ & _ & H).
  rewrite H. vm_compute. reflexivity.
Defined.
