(* ===== verification/SipHash.v ===== *)
(** * SipHash: SipHash-2-4 of hash.cpp

    The class CSipHasher with its two [Write] members and the unrolled functions
    for 256-bit values, against SipHash-2-4 as published.  The member [count] is
    an [int]: messages are below 2^31 bytes. *)

From S2P Require Import Prelude Words.

(** ** The code *)

Definition ROTL (x b : Z) : Z := Z.lor (u64 (x ≪ b)) (x ≫ (64 - b)).

(** The four words of state. *)
Definition quad : Type := Z * Z * Z * Z.

Definition SIPROUND (v : quad) : quad :=
  let '(v0, v1, v2, v3) := v in
  let v0 := u64 (v0 + v1) in let v1 := ROTL v1 13 in let v1 := v1 ⊕ v0 in
  let v0 := ROTL v0 32 in
  let v2 := u64 (v2 + v3) in let v3 := ROTL v3 16 in let v3 := v3 ⊕ v2 in
  let v0 := u64 (v0 + v3) in let v3 := ROTL v3 21 in let v3 := v3 ⊕ v0 in
  let v2 := u64 (v2 + v1) in let v1 := ROTL v1 17 in let v1 := v1 ⊕ v2 in
  let v2 := ROTL v2 32 in
  (v0, v1, v2, v3).

(** [v3 ^= d], [v0 ^= d] and [v2 ^= d]. *)
Definition xor3 (d : Z) (v : quad) : quad := let '(v0, v1, v2, v3) := v in (v0, v1, v2, v3 ⊕ d).
Definition xor0 (d : Z) (v : quad) : quad := let '(v0, v1, v2, v3) := v in (v0 ⊕ d, v1, v2, v3).
Definition xor2 (d : Z) (v : quad) : quad := let '(v0, v1, v2, v3) := v in (v0, v1, v2 ⊕ d, v3).
Definition xor_all (v : quad) : Z := let '(v0, v1, v2, v3) := v in v0 ⊕ v1 ⊕ v2 ⊕ v3.

Record sip := mk_sip { v : quad; tmp : Z; count : Z }.

Definition CSipHasher (k0 k1 : Z) : sip :=
  mk_sip (0x736f6d6570736575 ⊕ k0, 0x646f72616e646f6d ⊕ k1, 0x6c7967656e657261 ⊕ k0, 0x7465646279746573 ⊕ k1) 0 0.

(** [Write(uint64_t)]; [None] is the failed assertion. *)
Definition Write64 (h : sip) (data : Z) : option sip :=
  if negb (count h mod 8 =? 0) then None
  else Some (mk_sip (xor0 data (SIPROUND (SIPROUND (xor3 data (v h))))) (tmp h) (count h + 8)).

(** The body of the loop of [Write(data, size)]. *)
Definition write_byte (h : sip) (x : Z) : sip :=
  let t := Z.lor (tmp h) (u64 (x ≪ (8 * (count h mod 8)))) in
  let c := count h + 1 in
  if Z.land c 7 =? 0 then mk_sip (xor0 t (SIPROUND (SIPROUND (xor3 t (v h))))) 0 c
  else mk_sip (v h) t c.

Definition Write (h : sip) (data : list Z) : sip := fold_left write_byte data h.

Definition Finalize (h : sip) : Z :=
  let t := Z.lor (tmp h) (u64 (u64 (count h) ≪ 56)) in
  let w := xor0 t (SIPROUND (SIPROUND (xor3 t (v h)))) in
  xor_all (SIPROUND (SIPROUND (SIPROUND (SIPROUND (xor2 0xFF w))))).

(** uint256::GetUint64 *)
Definition GetUint64 (val : list Z) (pos : nat) : Z :=
  let p := drop (pos * 8) val in
  Z.lor (Z.lor (Z.lor (Z.lor (Z.lor (Z.lor (Z.lor p.[0] (u64 (p.[1] ≪ 8))) (u64 (p.[2] ≪ 16))) (u64 (p.[3] ≪ 24)))
    (u64 (p.[4] ≪ 32))) (u64 (p.[5] ≪ 40))) (u64 (p.[6] ≪ 48))) (u64 (p.[7] ≪ 56)).

Definition SipHashUint256 (k0 k1 : Z) (val : list Z) : Z :=
  let d := GetUint64 val 0 in
  let v := (0x736f6d6570736575 ⊕ k0, 0x646f72616e646f6d ⊕ k1, 0x6c7967656e657261 ⊕ k0, 0x7465646279746573 ⊕ k1 ⊕ d) in
  let v := xor0 d (SIPROUND (SIPROUND v)) in
  let d := GetUint64 val 1 in
  let v := xor0 d (SIPROUND (SIPROUND (xor3 d v))) in
  let d := GetUint64 val 2 in
  let v := xor0 d (SIPROUND (SIPROUND (xor3 d v))) in
  let d := GetUint64 val 3 in
  let v := xor0 d (SIPROUND (SIPROUND (xor3 d v))) in
  let v := xor0 (u64 (4 ≪ 59)) (SIPROUND (SIPROUND (xor3 (u64 (4 ≪ 59)) v))) in
  xor_all (SIPROUND (SIPROUND (SIPROUND (SIPROUND (xor2 0xFF v))))).

Definition SipHashUint256Extra (k0 k1 : Z) (val : list Z) (extra : Z) : Z :=
  let d := GetUint64 val 0 in
  let v := (0x736f6d6570736575 ⊕ k0, 0x646f72616e646f6d ⊕ k1, 0x6c7967656e657261 ⊕ k0, 0x7465646279746573 ⊕ k1 ⊕ d) in
  let v := xor0 d (SIPROUND (SIPROUND v)) in
  let d := GetUint64 val 1 in
  let v := xor0 d (SIPROUND (SIPROUND (xor3 d v))) in
  let d := GetUint64 val 2 in
  let v := xor0 d (SIPROUND (SIPROUND (xor3 d v))) in
  let d := GetUint64 val 3 in
  let v := xor0 d (SIPROUND (SIPROUND (xor3 d v))) in
  let d := Z.lor (u64 (36 ≪ 56)) extra in
  let v := xor0 d (SIPROUND (SIPROUND (xor3 d v))) in
  xor_all (SIPROUND (SIPROUND (SIPROUND (SIPROUND (xor2 0xFF v))))).

(** ** SipHash-2-4 as published *)

Definition sip_round (w : quad) : quad :=
  let '(v0, v1, v2, v3) := w in
  let rotl x b := Z.lor (u64 (x ≪ b)) (x ≫ (64 - b)) in
  let v0 := u64 (v0 + v1) in let v2 := u64 (v2 + v3) in
  let v1 := rotl v1 13 in let v3 := rotl v3 16 in
  let v1 := v1 ⊕ v0 in let v3 := v3 ⊕ v2 in
  let v0 := rotl v0 32 in
  let v2 := u64 (v2 + v1) in let v0 := u64 (v0 + v3) in
  let v1 := rotl v1 17 in let v3 := rotl v3 21 in
  let v1 := v1 ⊕ v2 in let v3 := v3 ⊕ v0 in
  let v2 := rotl v2 32 in
  (v0, v1, v2, v3).

Definition absorb (w : quad) (m : Z) : quad := xor0 m (sip_round (sip_round (xor3 m w))).

(** The words of the message: the last one ends in the length modulo 256. *)
Fixpoint sip_words (fuel : nat) (n : Z) (msg : list Z) : list Z :=
  match fuel with
  | S fuel =>
      if (8 <=? length msg)%nat then le_decode (take 8 msg) :: sip_words fuel n (drop 8 msg)
      else [le_decode (msg ++ replicate (7 - length msg) 0 ++ [n mod 256])]
  | O => []
  end.

Definition siphash24 (k0 k1 : Z) (msg : list Z) : Z :=
  let init := (k0 ⊕ 0x736f6d6570736575, k1 ⊕ 0x646f72616e646f6d, k0 ⊕ 0x6c7967656e657261, k1 ⊕ 0x7465646279746573) in
  let w := fold_left absorb (sip_words (S (length msg)) (Z.of_nat (length msg)) msg) init in
  xor_all (sip_round (sip_round (sip_round (sip_round (xor2 0xff w))))).

(** The test vector of the paper: key 00..0f, message 00..0e. *)
Example siphash24_paper :
  siphash24 0x0706050403020100 0x0f0e0d0c0b0a0908 (map Z.of_nat (seq 0 15)) = 0xa129ca6149be45e5.
Proof. vm_compute. reflexivity. Qed.

(** ** The streaming hasher *)

Lemma SIPROUND_spec w : SIPROUND w = sip_round w.
Proof. by destruct w as [[[v0 v1] v2] v3]. Qed.

Lemma absorb_spec m w : xor0 m (SIPROUND (SIPROUND (xor3 m w))) = absorb w m.
Proof. by rewrite !SIPROUND_spec. Qed.

Lemma le_decode_zeros n : le_decode (replicate n 0) = 0.
Proof. induction n as [|n IH]; cbn; [done|]. by rewrite IH. Qed.

(** Or-ing a byte in above the bytes collected so far. *)
Lemma lor_byte tail x :
  Forall byte tail -> byte x -> (length tail <= 7)%nat ->
  Z.lor (le_decode tail) (u64 (x ≪ (8 * Z.of_nat (length tail)))) = le_decode (tail ++ [x]).
Proof.
  intros Ht Hx Hl. pose proof (le_decode_range tail Ht) as Hr.
  rewrite <-(Z.pow_mul_r 2 8) in Hr by lia.
  assert (Hp : 2 ^ (8 * Z.of_nat (length tail)) * 2 ^ 8 <= 2 ^ 64)
    by (rewrite <-Z.pow_add_r by lia; apply Z.pow_le_mono_r; lia).
  rewrite wrap_small.
  2:{ rewrite Z.shiftl_mul_pow2 by lia. unfold word in *. nia. }
  rewrite lor_shiftl_add by (unfold word in *; lia).
  rewrite le_decode_app, (Z.mul_comm (256 ^ _)). cbn [le_decode]. rewrite <-(Z.pow_mul_r 2 8) by lia. f_equal. lia.
Qed.

(** The last word. *)
Lemma last_word tail n :
  Forall byte tail -> (length tail <= 7)%nat -> 0 <= n ->
  Z.lor (le_decode tail) (u64 (u64 n ≪ 56)) = le_decode (tail ++ replicate (7 - length tail) 0 ++ [n mod 256]).
Proof.
  intros Ht Hl Hn. set (t7 := tail ++ replicate (7 - length tail) 0).
  assert (Hd : le_decode t7 = le_decode tail) by (subst t7; rewrite le_decode_app, le_decode_zeros; lia).
  assert (H7 : length t7 = 7%nat) by (subst t7; rewrite length_app, length_replicate; lia).
  rewrite app_assoc. fold t7. rewrite <-lor_byte.
  - rewrite Hd, H7. f_equal. change (8 * Z.of_nat 7) with 56.
    apply (word_eq 64); auto with words. intros i Hi. autorewrite with bits.
    destruct (Z.ltb_spec i 64); [|lia]. cbn [andb].
    destruct (Z.ltb_spec (i - 56) 0).
    + by rewrite !Z.testbit_neg_r by lia.
    + rewrite wrap_testbit by lia. destruct (Z.ltb_spec (i - 56) 64); [|lia].
      change 256 with (2 ^ 8). rewrite Z.mod_pow2_bits_low by lia. done.
  - subst t7. apply Forall_app. split; [done|]. apply Forall_replicate. unfold word. lia.
  - apply Z.mod_pos_bound. lia.
  - lia.
Qed.

Lemma write_byte_spec h tail x :
  Forall byte tail -> byte x -> (length tail <= 7)%nat ->
  tmp h = le_decode tail -> 0 <= count h -> count h mod 8 = Z.of_nat (length tail) ->
  write_byte h x =
  if (length tail =? 7)%nat then mk_sip (absorb (v h) (le_decode (tail ++ [x]))) 0 (count h + 1)
  else mk_sip (v h) (le_decode (tail ++ [x])) (count h + 1).
Proof.
  intros Ht Hx Hl Htmp Hc Hm. unfold write_byte.
  rewrite Hm, Htmp, lor_byte, absorb_spec by done.
  assert (Hand : Z.land (count h + 1) 7 = (count h + 1) mod 8) by exact (Z.land_ones (count h + 1) 3 ltac:(lia)).
  rewrite Hand. pose proof (Z.div_mod (count h) 8 ltac:(lia)) as Hdm.
  destruct (Nat.eqb_spec (length tail) 7) as [H7|H7].
  - replace ((count h + 1) mod 8) with 0; [done|].
    apply (Z.mod_unique_pos _ _ (count h / 8 + 1)); lia.
  - replace ((count h + 1) mod 8) with (count h mod 8 + 1)
      by (apply (Z.mod_unique_pos _ _ (count h / 8)); lia).
    destruct (Z.eqb_spec (count h mod 8 + 1) 0); [lia|done].
Qed.

(** From a state with [tail] pending, the rest of the message is absorbed word by
    word. *)
Lemma Write_absorbs data h tail fuel :
  Forall byte tail -> Forall byte data -> (length tail <= 7)%nat -> (length (tail ++ data) < fuel)%nat ->
  tmp h = le_decode tail -> 0 <= count h -> count h mod 8 = Z.of_nat (length tail) ->
  count (Write h data) = count h + Z.of_nat (length data) /\
  absorb (v (Write h data)) (Z.lor (tmp (Write h data)) (u64 (u64 (count (Write h data)) ≪ 56)))
  = fold_left absorb (sip_words fuel (count h + Z.of_nat (length data)) (tail ++ data)) (v h).
Proof.
  revert h tail fuel. induction data as [|x data IH]; intros h tail fuel Ht Hd Hl Hf Htmp Hc Hm.
  - cbn [Write fold_left]. destruct fuel as [|fuel]; [lia|]. rewrite app_nil_r, Z.add_0_r.
    split; [done|]. cbn [sip_words]. destruct (Nat.leb_spec 8 (length tail)); [lia|].
    cbn [fold_left]. rewrite Htmp. by rewrite last_word.
  - apply Forall_cons in Hd as [Hx Hd].
    change (Write h (x :: data)) with (Write (write_byte h x) data).
    replace (count h + Z.of_nat (length (x :: data))) with (count h + 1 + Z.of_nat (length data)) by (cbn; lia).
    rewrite (write_byte_spec h tail x) by done.
    pose proof (Z.div_mod (count h) 8 ltac:(lia)) as Hdm.
    rewrite length_app in Hf. cbn [length] in Hf.
    destruct (Nat.eqb_spec (length tail) 7) as [H7|H7].
    + destruct fuel as [|fuel]; [lia|].
      destruct (IH (mk_sip (absorb (v h) (le_decode (tail ++ [x]))) 0 (count h + 1)) [] fuel) as [Hn Hv];
        [done|done|cbn; lia|cbn; lia|done|cbn; lia| |].
      { cbn. symmetry. apply (Z.mod_unique_pos _ _ (count h / 8 + 1)); lia. }
      split; [done|]. rewrite Hv. cbn [count v app sip_words]. rewrite length_app. cbn [length].
      destruct (Nat.leb_spec 8 (length tail + S (length data))); [|lia].
      change (x :: data) with ([x] ++ data). rewrite app_assoc.
      by rewrite take_app_length', drop_app_length' by (rewrite length_app; cbn; lia).
    + destruct (IH (mk_sip (v h) (le_decode (tail ++ [x])) (count h + 1)) (tail ++ [x]) fuel) as [Hn Hv];
        try (cbn; rewrite ?length_app; cbn; lia || done).
      * apply Forall_app. split; [done|]. constructor; [done|constructor].
      * cbn. rewrite length_app. cbn. symmetry. apply (Z.mod_unique_pos _ _ (count h / 8)); lia.
      * split; [done|]. rewrite Hv. by rewrite <-app_assoc.
Qed.

Lemma sip_Write_app h a b : Write h (a ++ b) = Write (Write h a) b.
Proof. apply fold_left_app. Qed.

Lemma sip_Finalize_spec k0 k1 msg : Forall byte msg -> Finalize (Write (CSipHasher k0 k1) msg) = siphash24 k0 k1 msg.
Proof.
  intros Hm. unfold Finalize. rewrite absorb_spec, !SIPROUND_spec.
  destruct (Write_absorbs msg (CSipHasher k0 k1) [] (S (length msg))) as [_ ->]; try (cbn; lia || done).
  unfold siphash24. cbn [app count CSipHasher v Z.add].
  by rewrite !(Z.lxor_comm k0), !(Z.lxor_comm k1).
Qed.

(** ** The word-wise members and the specialised functions *)

Lemma GetUint64_spec val pos :
  Forall byte val -> (pos * 8 + 8 <= length val)%nat -> GetUint64 val pos = le_decode (take 8 (drop (pos * 8) val)).
Proof.
  intros Hb Hl. unfold GetUint64.
  assert (Hd : (8 <= length (drop (pos * 8) val))%nat) by (rewrite length_drop; lia).
  apply (Forall_drop _ (pos * 8)) in Hb.
  destruct (drop (pos * 8) val) as [|b0 [|b1 [|b2 [|b3 [|b4 [|b5 [|b6 [|b7 rest]]]]]]]]; try (cbn in Hd; lia).
  rewrite !Forall_cons in Hb. destruct Hb as (H0 & H1 & H2 & H3 & H4 & H5 & H6 & H7 & _).
  cbn [nth take].
  assert (Hs : forall tail x n, Forall byte tail -> byte x -> (length tail <= 7)%nat -> n = 8 * Z.of_nat (length tail) ->
    Z.lor (le_decode tail) (u64 (x ≪ n)) = le_decode (tail ++ [x])) by (intros; subst n; by apply lor_byte).
  replace b0 with (le_decode [b0]) at 1 by (cbn; lia).
  by repeat (rewrite Hs by (cbn [app length]; first [lia|assumption|rewrite ?Forall_cons, Forall_nil; tauto])).
Qed.

(** Bytes that do not complete a word are collected. *)
Lemma Write_pending data h tail :
  Forall byte tail -> Forall byte data -> (length tail + length data <= 7)%nat ->
  tmp h = le_decode tail -> 0 <= count h -> count h mod 8 = Z.of_nat (length tail) ->
  Write h data = mk_sip (v h) (le_decode (tail ++ data)) (count h + Z.of_nat (length data)).
Proof.
  revert h tail. induction data as [|x data IH]; intros h tail Ht Hd Hl Htmp Hc Hm.
  - rewrite app_nil_r, <-Htmp. cbn. rewrite Z.add_0_r. by destruct h.
  - apply Forall_cons in Hd as [Hx Hd]. cbn [length] in Hl.
    change (Write h (x :: data)) with (Write (write_byte h x) data).
    rewrite (write_byte_spec h tail x) by (done || lia).
    destruct (Nat.eqb_spec (length tail) 7); [lia|].
    pose proof (Z.div_mod (count h) 8 ltac:(lia)) as Hdm.
    rewrite (IH _ (tail ++ [x])); cbn [tmp count v]; rewrite ?length_app; cbn [length]; try (lia || done).
    + rewrite <-app_assoc. cbn [app]. f_equal. lia.
    + apply Forall_app. split; [done|]. constructor; [done|constructor].
    + symmetry. apply (Z.mod_unique_pos _ _ (count h / 8)); lia.
Qed.

(** Eight bytes are absorbed as one word. *)
Lemma Write_word h l :
  Forall byte l -> length l = 8%nat -> tmp h = 0 -> 0 <= count h -> count h mod 8 = 0 ->
  Write h l = mk_sip (absorb (v h) (le_decode l)) 0 (count h + 8).
Proof.
  intros Hb Hl Ht Hc Hm. pose proof (Z.div_mod (count h) 8 ltac:(lia)) as Hdm.
  destruct (exists_last (l := l)) as (l7 & x & ->); [by destruct l|].
  apply Forall_app in Hb as [Hb Hx]. apply Forall_cons in Hx as [Hx _].
  rewrite length_app in Hl. cbn [length] in Hl.
  rewrite sip_Write_app, (Write_pending l7 h []) by (done || cbn [length]; lia).
  cbn [app]. change (Write ?h [x]) with (write_byte h x).
  rewrite (write_byte_spec _ l7) by (try done; cbn [count]; try lia; symmetry; apply (Z.mod_unique_pos _ _ (count h / 8)); lia).
  destruct (Nat.eqb_spec (length l7) 7); [|lia]. cbn [v count]. f_equal. lia.
Qed.

(** Writing a word is writing its eight bytes. *)
Lemma Write64_spec h d :
  word 64 d -> tmp h = 0 -> 0 <= count h -> count h mod 8 = 0 -> Write64 h d = Some (Write h (le_encode 8 d)).
Proof.
  intros Hd Ht Hc Hm. unfold Write64. rewrite Hm. cbn [Z.eqb negb]. rewrite absorb_spec, Ht.
  rewrite Write_word; [|apply le_encode_bytes|apply le_encode_length|done..].
  rewrite le_decode_encode. change (256 ^ Z.of_nat 8) with (2 ^ 64). by rewrite Z.mod_small.
Qed.

(** The four words of a 256-bit value. *)
Lemma Write_256 h val :
  Forall byte val -> length val = 32%nat -> tmp h = 0 -> count h = 0 ->
  Write h val = mk_sip (absorb (absorb (absorb (absorb (v h) (GetUint64 val 0)) (GetUint64 val 1)) (GetUint64 val 2)) (GetUint64 val 3)) 0 32.
Proof.
  intros Hb Hl Ht Hc. rewrite !GetUint64_spec by (done || lia).
  assert (Hv : val = take 8 (drop (0 * 8) val) ++ take 8 (drop (1 * 8) val) ++ take 8 (drop (2 * 8) val) ++ take 8 (drop (3 * 8) val)).
  { do 33 (destruct val as [|? val]; [cbn in Hl; lia || done|]). cbn in Hl. lia. }
  rewrite Hv at 1. rewrite !sip_Write_app.
  assert (H8 : forall i, (i < 4)%nat -> length (take 8 (drop (i * 8) val)) = 8%nat)
    by (intros i Hi; rewrite length_take, length_drop; lia).
  assert (Hf : forall i, Forall byte (take 8 (drop (i * 8) val))) by (intros i; by apply Forall_take, Forall_drop).
  rewrite (Write_word h) by (auto; rewrite ?Hc; done || apply H8; lia).
  rewrite Hc. cbn [Z.add].
  do 3 (rewrite (Write_word (mk_sip _ _ _)) by (cbn [tmp count]; auto; done || apply H8; lia);
        cbn [v count Z.add Pos.add Pos.succ]).
  done.
Qed.

(** SipHash: in any number of writes of bytes, CSipHasher computes SipHash-2-4 of the concatenation; writing a 64-bit integer is writing its eight bytes, and is refused by the assertion off a word boundary; and the two unrolled functions return what the streaming class returns on the 32 bytes of the value, or on these and the four bytes of the extra integer. *)
Theorem siphash_refines (k0 k1 : Z) (parts : list (list Z)) (val : list Z) (extra : Z) (h : sip) (d : Z) :
  Forall (Forall byte) parts -> Forall byte val -> length val = 32%nat -> word 32 extra ->
  word 64 d -> tmp h = 0 -> 0 <= count h ->
  Finalize (fold_left Write parts (CSipHasher k0 k1)) = siphash24 k0 k1 (concat parts) /\
  SipHashUint256 k0 k1 val = siphash24 k0 k1 val /\
  SipHashUint256Extra k0 k1 val extra = siphash24 k0 k1 (val ++ le_encode 4 extra) /\
  (count h mod 8 = 0 -> Write64 h d = Some (Write h (le_encode 8 d))) /\
  (count h mod 8 <> 0 -> Write64 h d = None).
Proof.
  intros Hp Hv Hl He Hd Ht Hc. split; [|split; [|split; [|split]]].
  - rewrite <-sip_Finalize_spec by (rewrite Forall_concat; done). f_equal.
    generalize (CSipHasher k0 k1). clear. induction parts as [|p parts IH]; intros h; [done|].
    cbn [fold_left concat]. by rewrite IH, sip_Write_app.
  - rewrite <-sip_Finalize_spec, Write_256 by done.
    unfold SipHashUint256, Finalize. cbn [v tmp count CSipHasher].
    by rewrite !absorb_spec, <-(absorb_spec (GetUint64 val 0)).
  - rewrite <-sip_Finalize_spec by (apply Forall_app; split; [done|apply le_encode_bytes]).
    rewrite sip_Write_app, (Write_256 (CSipHasher k0 k1)) by done.
    rewrite (Write_pending _ _ []) by (try done; rewrite ?le_encode_length; try apply le_encode_bytes; done || cbn; lia).
    unfold SipHashUint256Extra, Finalize. cbn [v tmp count CSipHasher app].
    rewrite !absorb_spec, <-(absorb_spec (GetUint64 val 0)), le_encode_length, le_decode_encode.
    rewrite (Z.mod_small extra) by exact He. by rewrite Z.lor_comm.
  - by apply Write64_spec.
  - intros Hm. unfold Write64. destruct (Z.eqb_spec (count h mod 8) 0); done.
Qed.

(** The paper's vector in two writes, and the published key on 32 zero bytes. *)
Lemma siphash_refines_witness :
  let h := CSipHasher 0x0706050403020100 0x0f0e0d0c0b0a0908 in
  let val := replicate 32 0 in
  Forall byte val /\ tmp h = 0 /\
  Finalize (fold_left Write [map Z.of_nat (seq 0 3); map Z.of_nat (seq 3 12)] h) = 0xa129ca6149be45e5 /\
  Write64 h 5 = Some (Write h (le_encode 8 5)).
Proof.
  assert (Hb : forall n, Forall byte (replicate n 0)) by (intros n; apply Forall_replicate; unfold word; lia).
  intros h val.
  pose proof (siphash_refines 0x0706050403020100 0x0f0e0d0c0b0a0908 [map Z.of_nat (seq 0 3); map Z.of_nat (seq 3 12)] val 7 h 5) as H.
  destruct H as (H1 & _ & _ & H4 & _).
  - rewrite !Forall_cons, Forall_nil. cbn. repeat split; repeat (apply Forall_cons; split; [unfold word; lia|]); constructor.
  - apply Hb.
  - reflexivity.
  - unfold word. lia.
  - unfold word. lia.
  - reflexivity.
  - cbn. lia.
  - split; [apply Hb|]. split; [reflexivity|]. split; [|apply H4; reflexivity].
    unfold h. rewrite H1. vm_compute. reflexivity.
Defined.
