(* ===== verification/ConsensusMerkle.v ===== *)
(** * ConsensusMerkle: consensus/merkle.cpp

    The constant-space Merkle root and branch calculator.  A 256-bit hash is a
    value of the type [A], and [hash l r] is the double SHA-256 of the 64 bytes of
    [l] and [r] (CHash256 written twice, [Hash.Hash2]); [null] is the zero hash.
    A shift by 32 or more, which C leaves undefined, is [None].

    [count] is a [uint32_t]; the loop over the leaves visits [leaves[count]] for
    [count] = 0, 1, ..., the elements of the list in order. *)

From S2P Require Import Prelude Words.

Section merkle.
Context {A : Type} `{EqDecision A} (null : A) (hash : A -> A -> A).

(** [!(count & (((uint32_t)1) << level))] *)
Definition bit_clear (count : Z) (level : nat) : bool := Z.land count (u32 (1 ≪ Z.of_nat level)) =? 0.

(** The block guarded by [if (pbranch)] in both loops: the new [matchh] and branch. *)
Definition push_sibling (track : bool) (inner : list A) (matchlevel : Z) (level : nat) (h : A) (matchh : bool)
    (branch : list A) : bool * list A :=
  if track then
    if matchh then (matchh, branch ++ [nth level inner null])
    else if matchlevel =? Z.of_nat level then (true, branch ++ [h])
    else (matchh, branch)
  else (matchh, branch).

(** The [for] loop over the clear low bits of [count]. *)
Fixpoint combine_loop (fuel : nat) (count : Z) (track : bool) (inner : list A) (matchlevel : Z)
    (level : nat) (h : A) (matchh mutated : bool) (branch : list A) : option (nat * A * bool * bool * list A) :=
  match fuel with
  | O => None
  | S fuel =>
      if bit_clear count level then
        let '(matchh, branch) := push_sibling track inner matchlevel level h matchh branch in
        let mutated := mutated || bool_decide (nth level inner null = h) in
        combine_loop fuel count track inner matchlevel (S level) (hash (nth level inner null) h) matchh mutated branch
      else Some (level, h, matchh, mutated, branch)
  end.

(** The local variables of MerkleComputation. *)
Record mstate := mk_mstate { count : Z; inner : list A; mutated : bool; matchlevel : Z; branch : list A }.

(** The body of the loop over the leaves. *)
Definition process_leaf (track : bool) (branchpos : Z) (st : mstate) (leaf : A) : option mstate :=
  let h := leaf in
  let matchh := count st =? branchpos in
  let c := u32 (count st + 1) in
  match combine_loop 32 c track (inner st) (matchlevel st) 0 h matchh (mutated st) (branch st) with
  | Some (level, h, matchh, mutated, branch) =>
      Some (mk_mstate c (<[level := h]> (inner st)) mutated (if matchh then Z.of_nat level else matchlevel st) branch)
  | None => None
  end.

Fixpoint process_leaves (track : bool) (branchpos : Z) (st : mstate) (leaves : list A) : option mstate :=
  match leaves with
  | [] => Some st
  | leaf :: leaves =>
      match process_leaf track branchpos st leaf with
      | Some st => process_leaves track branchpos st leaves
      | None => None
      end
  end.

(** [while (!(count & (((uint32_t)1) << level))) level++] *)
Fixpoint skip_loop (fuel : nat) (count : Z) (level : nat) : option nat :=
  match fuel with
  | O => None
  | S fuel => if bit_clear count level then skip_loop fuel count (S level) else Some level
  end.

(** The inner loop of the final sweep. *)
Fixpoint propagate_loop (fuel : nat) (count : Z) (track : bool) (inner : list A) (matchlevel : Z)
    (level : nat) (h : A) (matchh : bool) (branch : list A) : option (nat * A * bool * list A) :=
  match fuel with
  | O => None
  | S fuel =>
      if bit_clear count level then
        let '(matchh, branch) := push_sibling track inner matchlevel level h matchh branch in
        propagate_loop fuel count track inner matchlevel (S level) (hash (nth level inner null) h) matchh branch
      else Some (level, h, matchh, branch)
  end.

(** The outer loop of the final sweep. *)
Fixpoint sweep_loop (fuel : nat) (count : Z) (track : bool) (inner : list A) (matchlevel : Z)
    (level : nat) (h : A) (matchh : bool) (branch : list A) : option (A * list A) :=
  match fuel with
  | O => None
  | S fuel =>
      if count =? u32 (1 ≪ Z.of_nat level) then Some (h, branch)
      else
        let branch := if track && matchh then branch ++ [h] else branch in
        let h := hash h h in
        let count := u32 (count + u32 (1 ≪ Z.of_nat level)) in
        let level := S level in
        match propagate_loop (32 - level) count track inner matchlevel level h matchh branch with
        | Some (level, h, matchh, branch) => sweep_loop fuel count track inner matchlevel level h matchh branch
        | None => None
        end
  end.

(** [*proot], [*pmutated] and [*pbranch]; [track] says that [pbranch] is not null. *)
Definition MerkleComputation (leaves : list A) (track : bool) (branchpos : Z) : option (A * bool * list A) :=
  if (length leaves =? 0)%nat then Some (null, false, [])
  else
    match process_leaves track branchpos (mk_mstate 0 (replicate 32 null) false (-1) []) leaves with
    | Some st =>
        match skip_loop 32 (count st) 0 with
        | Some level =>
            let h := nth level (inner st) null in
            let matchh := matchlevel st =? Z.of_nat level in
            match sweep_loop 32 (count st) track (inner st) (matchlevel st) level h matchh (branch st) with
            | Some (h, branch) => Some (h, mutated st, branch)
            | None => None
            end
        | None => None
        end
    | None => None
    end.

Definition ComputeMerkleRoot (leaves : list A) : option (A * bool) :=
  match MerkleComputation leaves false (u32 (-1)) with
  | Some (root, mutated, _) => Some (root, mutated)
  | None => None
  end.

Definition ComputeMerkleBranch (leaves : list A) (position : Z) : option (list A) :=
  match MerkleComputation leaves true position with
  | Some (_, _, branch) => Some branch
  | None => None
  end.

Fixpoint ComputeMerkleRootFromBranch (leaf : A) (vMerkleBranch : list A) (nIndex : Z) : A :=
  match vMerkleBranch with
  | [] => leaf
  | sibling :: rest =>
      let h := if negb (Z.land nIndex 1 =? 0) then hash sibling leaf else hash leaf sibling in
      ComputeMerkleRootFromBranch h rest (nIndex ≫ 1)
  end.

(** ** The tree, level by level *)

(** The parents of a level: an odd last node is paired with itself. *)
Fixpoint parents (level : list A) : list A :=
  match level with
  | x :: y :: rest => hash x y :: parents rest
  | [x] => [hash x x]
  | [] => []
  end.

(** The root: levels are computed until one node is left. *)
Fixpoint tree_root (fuel : nat) (level : list A) : A :=
  match fuel, level with
  | _, [] => null
  | _, [x] => x
  | O, x :: _ => x
  | S fuel, _ => tree_root fuel (parents level)
  end.

Definition merkle_root (leaves : list A) : A := tree_root (length leaves) leaves.
End merkle.
