(* ===== verification/ConsensusMerkleCorrect.v ===== *)
(** * ConsensusMerkleCorrect: the calculator computes the tree

    The calculator keeps one pending subtree per set bit of [count].  The node of
    level [k] and index [i] of the tree over all the leaves is [pnode k i]; the
    proofs show that every hash the calculator holds is one of these nodes, that
    the sweep duplicates exactly the odd last nodes, and that the branch collects
    the siblings of the path. *)

From S2P Require Import Prelude Words ConsensusMerkle.

(** ** Counting in binary *)

(** The number of complete blocks of [2 ^ k] among [c] leaves. *)
Definition full_blocks (c : Z) (k : nat) : Z := c / 2 ^ Z.of_nat k.

Lemma full_blocks_S c k : full_blocks c (S k) = full_blocks c k / 2.
Proof.
  unfold full_blocks. rewrite Nat2Z.inj_succ, Z.pow_succ_r, Z.mul_comm by lia.
  by rewrite Z.div_div by lia.
Qed.

Lemma pow_pos k : 0 < 2 ^ Z.of_nat k.
Proof. apply Z.pow_pos_nonneg; lia. Qed.

Lemma pow_S k : 2 ^ Z.of_nat (S k) = 2 * 2 ^ Z.of_nat k.
Proof. rewrite Nat2Z.inj_succ, Z.pow_succ_r by lia. done. Qed.

Lemma level_bound k c : 0 < c <= 2 ^ 31 -> (exists d, c = d * 2 ^ Z.of_nat k) -> (k < 32)%nat.
Proof.
  intros Hc [d Hd]. pose proof (pow_pos k). destruct (decide (k < 32)%nat); [done|].
  assert (2 ^ 32 <= 2 ^ Z.of_nat k) by (apply Z.pow_le_mono_r; lia).
  assert (0 < d) by nia. assert (2 ^ Z.of_nat k <= c) by nia. lia.
Qed.

Lemma bit_clear_spec c k : 0 <= c -> (k < 32)%nat -> bit_clear c k = Z.even (full_blocks c k).
Proof.
  intros Hc Hk. unfold bit_clear, full_blocks.
  rewrite <-Z.shiftr_div_pow2, <-Z.negb_odd, <-Z.bit0_odd, Z.shiftr_spec, Z.add_0_l by lia.
  rewrite wrap_small.
  2:{ rewrite Z.shiftl_mul_pow2 by lia. pose proof (pow_pos k).
      assert (2 ^ Z.of_nat k < 2 ^ 32) by (apply Z.pow_lt_mono_r; lia). unfold word. lia. }
  destruct (Z.testbit c (Z.of_nat k)) eqn:E; cbn [negb].
  - apply Z.eqb_neq. intros H0. assert (Hb : Z.testbit (Z.land c (1 ≪ Z.of_nat k)) (Z.of_nat k) = true).
    { rewrite Z.land_spec, E, Z.shiftl_spec, Z.sub_diag by lia. done. }
    by rewrite H0, Z.testbit_0_l in Hb.
  - apply Z.eqb_eq. apply Z.bits_inj'. intros i Hi. rewrite Z.land_spec, Z.shiftl_spec, Z.bits_0 by lia.
    destruct (decide (i = Z.of_nat k)) as [->|Hne]; [by rewrite E|].
    destruct (decide (i < Z.of_nat k)).
    + rewrite (Z.testbit_neg_r 1) by lia. apply andb_false_r.
    + rewrite (Z.bits_above_log2 1) by (cbn; lia). apply andb_false_r.
Qed.

Section tree.
Context {A : Type} `{EqDecision A} (null : A) (hash : A -> A -> A) (leaves : list A).

(** ** The nodes of the tree *)

Fixpoint width (k : nat) : Z :=
  match k with O => Z.of_nat (length leaves) | S k => (width k + 1) / 2 end.

Fixpoint pnode (k : nat) (i : Z) : A :=
  match k with
  | O => nth (Z.to_nat i) leaves null
  | S k => hash (pnode k (2 * i)) (pnode k (if 2 * i + 1 <? width k then 2 * i + 1 else 2 * i))
  end.

Abbreviation n := (Z.of_nat (length leaves)).

Lemma width_bound k : n <= width k * 2 ^ Z.of_nat k /\ (0 < n -> (width k - 1) * 2 ^ Z.of_nat k < n).
Proof.
  induction k as [|k [IH1 IH2]].
  - cbn. lia.
  - cbn [width]. rewrite pow_S. pose proof (pow_pos k). pose proof (Z.div_mod (width k + 1) 2).
    pose proof (Z.mod_pos_bound (width k + 1) 2). split; nia.
Qed.

Lemma level_width_pos k : 0 < n -> 0 < width k.
Proof. intros. induction k as [|k IH]; cbn [width]; [done|]. pose proof (Z.div_mod (width k + 1) 2). pose proof (Z.mod_pos_bound (width k + 1) 2). lia. Qed.

(** A node whose block is complete has two distinct children. *)
Lemma pnode_complete k i :
  (2 * i + 2) * 2 ^ Z.of_nat k <= n -> pnode (S k) i = hash (pnode k (2 * i)) (pnode k (2 * i + 1)).
Proof.
  intros H. cbn [pnode]. pose proof (width_bound k) as [Hw _]. pose proof (pow_pos k).
  destruct (Z.ltb_spec (2 * i + 1) (width k)); [done|nia].
Qed.

(** *** The levels *)

Definition is_level (k : nat) (lv : list A) : Prop :=
  Z.of_nat (length lv) = width k /\ forall i : nat, (i < length lv)%nat -> nth i lv null = pnode k (Z.of_nat i).

Lemma parents_spec lv :
  length (parents hash lv) = ((length lv + 1) / 2)%nat /\
  forall i, (i < length (parents hash lv))%nat ->
    nth i (parents hash lv) null
    = hash (nth (2 * i) lv null) (nth (if (2 * i + 1 <? length lv)%nat then (2 * i + 1)%nat else (2 * i)%nat) lv null).
Proof.
  induction lv as [lv IH] using (induction_ltof1 _ (@length A)). unfold ltof in IH.
  destruct lv as [|x [|y lv]].
  - split; [done|]. intros i Hi. cbn in Hi. lia.
  - split; [done|]. intros [|i] Hi; [done|cbn in Hi; lia].
  - destruct (IH lv) as [IH1 IH2]; [cbn; lia|]. cbn [parents length]. split.
    + rewrite IH1. replace (S (S (length lv)) + 1)%nat with (length lv + 1 + 1 * 2)%nat by lia.
      rewrite Nat.div_add by lia. lia.
    + intros [|i] Hi; [done|]. cbn [nth].
      rewrite IH2 by lia. replace (2 * S i)%nat with (S (S (2 * i)))%nat by lia. cbn [nth Nat.add].
      replace (S (S (2 * i + 1)) <? S (S (length lv)))%nat with (2 * i + 1 <? length lv)%nat by done.
      destruct (2 * i + 1 <? length lv)%nat; done.
Qed.

Lemma parents_level k lv : is_level k lv -> is_level (S k) (parents hash lv).
Proof.
  intros [Hl Hn]. destruct (parents_spec lv) as [Pl Pn]. split.
  - rewrite Pl, Nat2Z.inj_div, Nat2Z.inj_add, Hl. done.
  - intros i Hi. rewrite (Pn i Hi). cbn [pnode]. rewrite <-Hl.
    rewrite Pl in Hi. pose proof (Nat.div_mod (length lv + 1) 2) as Hd. pose proof (Nat.mod_upper_bound (length lv + 1) 2).
    replace (2 * Z.of_nat i + 1 <? Z.of_nat (length lv)) with (2 * i + 1 <? length lv)%nat.
    2:{ destruct (Nat.ltb_spec (2 * i + 1) (length lv)); symmetry; [apply Z.ltb_lt|apply Z.ltb_ge]; lia. }
    destruct (Nat.ltb_spec (2 * i + 1) (length lv)); rewrite !Hn by lia; f_equal; f_equal; lia.
Qed.

Lemma leaves_level : is_level 0 leaves.
Proof. split; [done|]. intros i Hi. cbn. by rewrite Nat2Z.id. Qed.

(** [top k]: level [k] is the first with one node. *)
Definition top (k : nat) : Prop := width k = 1 /\ forall j, (j < k)%nat -> 1 < width j.

Lemma tree_root_level fuel k lv :
  is_level k lv -> 0 < width k -> (length lv <= S fuel)%nat -> (forall j, (j < k)%nat -> 1 < width j) ->
  exists t, top t /\ tree_root null hash fuel lv = pnode t 0.
Proof.
  revert k lv. induction fuel as [|fuel IH]; intros k lv Hlv Hw Hf Hj; pose proof Hlv as [Hl Hn].
  - exists k. destruct lv as [|x [|y lv]]; cbn in Hf, Hl; try lia.
    split; [split; [lia|done]|]. change 0 with (Z.of_nat 0). rewrite <-(Hn 0%nat); [done|cbn; lia].
  - destruct lv as [|x [|y lv]]; cbn [length] in Hl; [lia| |].
    + exists k. split; [split; [lia|done]|]. change 0 with (Z.of_nat 0). rewrite <-(Hn 0%nat); [done|cbn; lia].
    + change (tree_root null hash (S fuel) (x :: y :: lv)) with (tree_root null hash fuel (parents hash (x :: y :: lv))).
      pose proof (parents_level _ _ Hlv) as Hp. apply (IH (S k)); [done| | |].
      * destruct Hp as [Hpl _]. rewrite <-Hpl. cbn [parents length]. lia.
      * destruct (parents_spec (x :: y :: lv)) as [-> _]. cbn [length] in *.
        apply Nat.lt_succ_r, Nat.Div0.div_lt_upper_bound. lia.
      * intros j Hj'. destruct (decide (j = k)) as [->|]; [lia|apply Hj; lia].
Qed.

Lemma top_unique j k : top j -> top k -> j = k.
Proof.
  intros [Hj Hj'] [Hk Hk']. destruct (Nat.lt_trichotomy j k) as [H|[H|H]]; [|done|].
  - specialize (Hk' _ H). lia.
  - specialize (Hj' _ H). lia.
Qed.

Lemma merkle_root_top t : leaves <> [] -> top t -> merkle_root null hash leaves = pnode t 0.
Proof.
  intros Hne Ht. assert (0 < n) by (destruct leaves; [done|cbn; lia]).
  destruct (tree_root_level (length leaves) 0 leaves leaves_level) as (t' & Ht' & Hr); [done|lia|intros; lia|].
  by rewrite (top_unique _ _ Ht Ht').
Qed.

(** ** The path of a position *)

Context (track : bool) (p : Z) (Hp : 0 <= p).
Context (Hn : 0 < n <= 2 ^ 31).

Definition sibling (k : nat) (i : Z) : Z := if Z.odd i then i - 1 else if i + 1 <? width k then i + 1 else i.

(** The siblings on the levels below [k]. *)
Definition branch_upto (k : nat) : list A := map (fun j => pnode j (sibling j (full_blocks p j))) (seq 0 k).

Lemma branch_upto_S k : branch_upto (S k) = branch_upto k ++ [pnode k (sibling k (full_blocks p k))].
Proof. unfold branch_upto. by rewrite seq_S, map_app. Qed.

(** The pending subtree of level [m] after [c] leaves holds the position. *)
Definition covers (c : Z) (m : nat) : Prop :=
  Z.odd (full_blocks c m) = true /\ full_blocks p m = full_blocks c m - 1.

Definition inner_inv (c : Z) (inn : list A) : Prop :=
  forall k, (k < 32)%nat -> Z.odd (full_blocks c k) = true -> nth k inn null = pnode k (full_blocks c k - 1).

(** Two sibling nodes with complete blocks, the last of them ending at [e]. *)
Definition equal_pair (e : Z) (k : nat) (i : Z) : Prop :=
  0 <= i /\ (2 * i + 2) * 2 ^ Z.of_nat k = e /\ pnode k (2 * i) = pnode k (2 * i + 1).

Definition mutated_before (c : Z) : Prop := exists e k i, e <= c /\ equal_pair e k i.

(** *** One leaf *)

(** The loop of leaf [c] at level [k]. *)
Record cinv (c ml : Z) (k : nat) (h : A) (mh mu : bool) (br : list A) : Prop := {
  ci_div : c + 1 = full_blocks (c + 1) k * 2 ^ Z.of_nat k;
  ci_h : h = pnode k (full_blocks (c + 1) k - 1);
  ci_match : track = true ->
    if mh then full_blocks p k = full_blocks (c + 1) k - 1 /\ br = branch_upto k
    else p <> c /\ (p < c -> exists m, (k <= m)%nat /\ ml = Z.of_nat m /\ covers c m /\ br = branch_upto m) /\
         (c < p -> ml = -1 /\ br = []);
  ci_mut : mu = true <-> mutated_before c \/ exists j i, (j < k)%nat /\ equal_pair (c + 1) j i }.

(** A clear bit of [c + 1] above clear bits is a set bit of [c]. *)
Lemma full_blocks_pred c k :
  c + 1 = full_blocks (c + 1) k * 2 ^ Z.of_nat k -> full_blocks c k = full_blocks (c + 1) k - 1.
Proof.
  intros H. set (d := full_blocks (c + 1) k) in *. pose proof (pow_pos k).
  unfold full_blocks. symmetry. apply (Z.div_unique _ _ _ (2 ^ Z.of_nat k - 1)); nia.
Qed.

Lemma even_double d : Z.even d = true -> d = 2 * (d / 2).
Proof. intros H. apply Z.even_spec in H as [e ->]. rewrite Z.mul_comm, Z.div_mul by lia. lia. Qed.

Lemma combine_step c inn ml k h mh mu br :
  0 <= c -> c + 1 <= n -> (k < 32)%nat -> inner_inv c inn -> cinv c ml k h mh mu br ->
  Z.even (full_blocks (c + 1) k) = true ->
  cinv c ml (S k) (hash (nth k inn null) h) (fst (push_sibling null track inn ml k h mh br))
    (mu || bool_decide (nth k inn null = h)) (snd (push_sibling null track inn ml k h mh br)).
Proof.
  intros Hc Hcn Hk Hin [Hdiv Hh Hm Hmu] Hev.
  set (d := full_blocks (c + 1) k) in *. pose proof (even_double d Hev) as Hd. set (e := d / 2) in *.
  pose proof (full_blocks_pred c k Hdiv) as Hpred. fold d in Hpred. pose proof (pow_pos k) as Hpos.
  assert (He : full_blocks (c + 1) (S k) = e) by (rewrite full_blocks_S; done).
  assert (Hinner : nth k inn null = pnode k (2 * (e - 1))).
  { rewrite Hin; [f_equal; lia|done|]. rewrite Hpred, Hd.
    replace (2 * e - 1) with (1 + 2 * (e - 1)) by lia. by rewrite Z.odd_add_mul_2. }
  assert (Hh' : h = pnode k (2 * (e - 1) + 1)) by (rewrite Hh; f_equal; lia).
  split.
  - rewrite He, pow_S. nia.
  - rewrite He, pnode_complete, Hinner, Hh'; [done|nia].
  - intros Ht. specialize (Hm Ht). unfold push_sibling. rewrite Ht. rewrite He.
    destruct mh; cbn [fst snd].
    + destruct Hm as [Hpk ->]. rewrite full_blocks_S, Hpk, branch_upto_S, Hpk, Hinner.
      split; [unfold e; rewrite Hd; Z.to_euclidean_division_equations; lia|].
      do 3 f_equal. unfold sibling. replace (d - 1) with (1 + 2 * (e - 1)) by lia. rewrite Z.odd_add_mul_2. cbn. lia.
    + destruct Hm as (Hpc & Hlt & Hgt). destruct (Z.eqb_spec ml (Z.of_nat k)) as [Eml|Eml]; cbn [fst snd].
      * assert (Hl : p < c) by (destruct (decide (c < p)) as [H|H]; [destruct (Hgt H); lia|lia]).
        destruct (Hlt Hl) as (m & Hkm & Hml & [_ Hcov] & ->). assert (m = k) as -> by lia.
        rewrite Hpred in Hcov. rewrite full_blocks_S, Hcov, branch_upto_S, Hcov, Hh'.
        split; [unfold e; rewrite Hd; Z.to_euclidean_division_equations; lia|].
        do 3 f_equal. unfold sibling. replace (d - 1 - 1) with (2 * (e - 1)) by lia.
        rewrite Z.odd_mul. cbn [Z.odd andb].
        destruct (Z.ltb_spec (2 * (e - 1) + 1) (width k)); [done|].
        pose proof (width_bound k) as [Hw _]. nia.
      * split; [done|]. split; [|done]. intros Hl. destruct (Hlt Hl) as (m & Hkm & Hml & Hcov & ->).
        exists m. split; [|done]. destruct (decide (m = k)); [lia|lia].
  - rewrite orb_true_iff, Hmu, bool_decide_eq_true, Hinner, Hh'. split.
    + intros [[H|(j & i & Hj & H)]|H]; [by left|right; exists j, i; split; [lia|done]|].
      right. exists k, (e - 1). split; [lia|]. unfold equal_pair. split; [nia|]. split; [nia|done].
    + intros [H|(j & i & Hj & H)]; [by left; left|]. destruct (decide (j = k)) as [->|].
      * right. destruct H as (Hi & Hi' & Heq). assert (i = e - 1) as -> by nia. done.
      * left. right. exists j, i. split; [lia|done].
Qed.

Lemma combine_spec fuel c inn ml k h mh mu br :
  0 <= c -> c + 1 <= n -> (fuel + k = 32)%nat -> inner_inv c inn -> cinv c ml k h mh mu br ->
  exists k' h' mh' mu' br',
    combine_loop null hash fuel (c + 1) track inn ml k h mh mu br = Some (k', h', mh', mu', br') /\
    Z.odd (full_blocks (c + 1) k') = true /\ (k' < 32)%nat /\ cinv c ml k' h' mh' mu' br'.
Proof.
  intros Hc Hcn. revert k h mh mu br. induction fuel as [|fuel IH]; intros k h mh mu br Hf Hin Hi.
  all: assert (k < 32)%nat by (apply (level_bound k (c + 1)); [lia|eexists; apply (ci_div _ _ _ _ _ _ _ Hi)]).
  { lia. }
  cbn [combine_loop]. rewrite bit_clear_spec by lia.
  destruct (Z.even (full_blocks (c + 1) k)) eqn:Hev.
  - pose proof (combine_step c inn ml k h mh mu br Hc Hcn ltac:(lia) Hin Hi Hev) as Hs.
    destruct (push_sibling null track inn ml k h mh br) as [mh' br']. cbn [fst snd] in Hs.
    by apply IH; [lia| |].
  - exists k, h, mh, mu, br. split; [done|]. split; [by rewrite <-Z.negb_even, Hev|]. by split.
Qed.

(** Bits below the lowest set bit, and bits above it. *)
Lemma full_blocks_low c j k : (j < k)%nat -> c = full_blocks c k * 2 ^ Z.of_nat k -> Z.odd (full_blocks c j) = false.
Proof.
  intros Hj Hc. set (d := full_blocks c k) in *.
  assert (E : full_blocks c j = 2 * (d * 2 ^ Z.of_nat (k - S j))).
  { unfold full_blocks. rewrite Hc. replace (Z.of_nat k) with (Z.of_nat (S (k - S j)) + Z.of_nat j) by lia.
    rewrite Z.pow_add_r, pow_S by lia. rewrite Z.mul_assoc, Z.div_mul; [lia|]. pose proof (pow_pos j). lia. }
  rewrite E. by rewrite Z.odd_mul.
Qed.

Lemma full_blocks_high c j k :
  (k < j)%nat -> c + 1 = full_blocks (c + 1) k * 2 ^ Z.of_nat k -> Z.odd (full_blocks (c + 1) k) = true ->
  full_blocks (c + 1) j = full_blocks c j.
Proof.
  intros Hj Hd Ho. induction Hj as [|j Hj IH].
  - rewrite !full_blocks_S, (full_blocks_pred c k Hd). apply Z.odd_spec in Ho as [e ->].
    Z.to_euclidean_division_equations. lia.
  - by rewrite !(full_blocks_S _ j), IH.
Qed.

(** *** The state after [c] leaves *)

Record minv (c : Z) (st : mstate) : Prop := {
  mi_count : count st = c;
  mi_len : length (inner st) = 32%nat;
  mi_inner : inner_inv c (inner st);
  mi_mut : mutated st = true <-> mutated_before c;
  mi_match : track = true ->
    (p < c -> exists m, matchlevel st = Z.of_nat m /\ covers c m /\ branch st = branch_upto m) /\
    (c <= p -> matchlevel st = -1 /\ branch st = []) }.

Lemma minv_init : minv 0 (mk_mstate 0 (replicate 32 null) false (-1) []).
Proof.
  split; try done.
  - split; [done|]. intros (e & k & i & He & Hi & Hi' & _). pose proof (pow_pos k). nia.
  - intros _. split; [lia|done].
Qed.

Lemma cinv_init c st : 0 <= c -> minv c st ->
  cinv c (matchlevel st) 0 (nth (Z.to_nat c) leaves null) (c =? p) (mutated st) (branch st).
Proof.
  intros Hc Hi. assert (H0 : forall x, full_blocks x 0 = x) by (intros x; unfold full_blocks; by rewrite Z.div_1_r).
  split.
  - rewrite H0. cbn. lia.
  - rewrite H0. cbn. do 2 f_equal. lia.
  - intros Ht. destruct (mi_match _ _ Hi Ht) as [Hlt Hge]. destruct (Z.eqb_spec c p) as [->|].
    + rewrite !H0. split; [lia|]. by apply Hge.
    + split; [done|]. split; [|intros; apply Hge; lia].
      intros Hl. destruct (Hlt Hl) as (m & ? & ? & ?). exists m. split; [lia|done].
  - rewrite (mi_mut _ _ Hi). split; [by left|]. intros [H|(j & i & Hj & _)]; [done|lia].
Qed.

Lemma cinv_done c st k h mh mu br :
  0 <= c -> minv c st -> cinv c (matchlevel st) k h mh mu br -> (k < 32)%nat ->
  Z.odd (full_blocks (c + 1) k) = true ->
  minv (c + 1) (mk_mstate (c + 1) (<[k := h]> (inner st)) mu (if mh then Z.of_nat k else matchlevel st) br).
Proof.
  intros Hc Hi [Hdiv Hh Hm Hmu] Hk Ho. pose proof (pow_pos k) as Hpos.
  assert (Hlow : forall j, (j < k)%nat -> Z.odd (full_blocks (c + 1) j) = false)
    by (intros j Hj; by apply (full_blocks_low _ j k)).
  assert (Hhigh : forall j, (k < j)%nat -> full_blocks (c + 1) j = full_blocks c j)
    by (intros j Hj; by apply (full_blocks_high c j k)).
  split; cbn [count inner mutated matchlevel branch].
  - done.
  - by rewrite length_insert, (mi_len _ _ Hi).
  - intros j Hj Hoj. destruct (Nat.lt_trichotomy j k) as [H|[->|H]].
    + by rewrite Hlow in Hoj.
    + rewrite (nth_lookup_Some _ _ null h); [done|]. apply list_lookup_insert_eq. rewrite (mi_len _ _ Hi). lia.
    + rewrite Hhigh in * by done. rewrite <-(mi_inner _ _ Hi j Hj Hoj).
      by rewrite !nth_lookup, list_lookup_insert_ne by lia.
  - rewrite Hmu. split.
    + intros [(e & j & i & He & H)|(j & i & Hj & H)]; [exists e, j, i|exists (c + 1), j, i]; split; (lia || done).
    + intros (e & j & i & He & H). destruct (decide (e = c + 1)) as [->|]; [right|left; exists e, j, i; split; [lia|done]].
      exists j, i. split; [|done]. destruct H as (Hi0 & He' & _).
      destruct (decide (j < k)%nat) as [|Hge]; [done|exfalso].
      assert (E : full_blocks (c + 1) k = 2 * ((i + 1) * 2 ^ Z.of_nat (j - k))).
      { unfold full_blocks. rewrite <-He'. replace (Z.of_nat j) with (Z.of_nat (j - k) + Z.of_nat k) by lia.
        rewrite Z.pow_add_r by lia. rewrite Z.mul_assoc, Z.div_mul by lia. lia. }
      rewrite E, Z.odd_mul in Ho. done.
  - intros Ht. specialize (Hm Ht). destruct mh.
    + destruct Hm as [Hpk Hbr]. split; [intros _; exists k; by repeat split|].
      intros Hge. exfalso. unfold full_blocks in Hpk at 1.
      pose proof (Z.div_mod p (2 ^ Z.of_nat k) ltac:(lia)). pose proof (Z.mod_pos_bound p (2 ^ Z.of_nat k) ltac:(lia)). nia.
    + destruct Hm as (Hpc & Hlt & Hgt). split; [|intros; apply Hgt; lia].
      intros Hl. destruct (Hlt ltac:(lia)) as (m & Hkm & Hml & [Hcov Hcov'] & Hbr).
      exists m. split; [done|]. split; [|done].
      assert (m <> k). { intros ->. rewrite (full_blocks_pred c k Hdiv) in Hcov. apply Z.odd_spec in Ho as [x Hx]. rewrite Hx in Hcov. replace (2 * x + 1 - 1) with (2 * x) in Hcov by lia. by rewrite Z.odd_mul in Hcov. }
      split; rewrite (Hhigh m) by lia; done.
Qed.

Lemma process_leaf_spec c st :
  0 <= c -> c + 1 <= n -> minv c st ->
  exists st', process_leaf null hash track p st (nth (Z.to_nat c) leaves null) = Some st' /\ minv (c + 1) st'.
Proof.
  intros Hc Hcn Hi. unfold process_leaf. rewrite (mi_count _ _ Hi), (wrap_small 32 (c + 1)) by (unfold word; lia).
  destruct (combine_spec 32 c (inner st) (matchlevel st) 0 (nth (Z.to_nat c) leaves null) (c =? p) (mutated st) (branch st))
    as (k & h & mh & mu & br & E & Ho & Hk & Hci); [done|done|done|apply (mi_inner _ _ Hi)|by apply cinv_init|].
  rewrite E. eexists. split; [done|]. by apply cinv_done.
Qed.

Lemma process_leaves_spec rest c st :
  0 <= c -> rest = drop (Z.to_nat c) leaves -> c <= n -> minv c st ->
  exists st', process_leaves null hash track p st rest = Some st' /\ minv n st'.
Proof.
  revert c st. induction rest as [|x rest IH]; intros c st Hc Hr Hcn Hi.
  - exists st. split; [done|]. assert (length (drop (Z.to_nat c) leaves) = 0%nat) as Hl by (by rewrite <-Hr).
    rewrite length_drop in Hl. by replace n with c by lia.
  - assert (Hx : leaves !! Z.to_nat c = Some x).
    { replace (Z.to_nat c) with (Z.to_nat c + 0)%nat by lia. by rewrite <-lookup_drop, <-Hr. }
    pose proof (lookup_lt_Some _ _ _ Hx).
    destruct (process_leaf_spec c st) as (st' & E & Hi'); [done|lia|done|].
    rewrite (nth_lookup_Some _ _ _ _ Hx) in E. cbn [process_leaves]. rewrite E.
    apply (IH (c + 1)); [lia| |lia|done].
    replace (Z.to_nat (c + 1)) with (S (Z.to_nat c)) by lia.
    by rewrite (drop_S _ _ _ Hx) in Hr; injection Hr.
Qed.

(** *** The final sweep *)

Section sweep.
Context (inn : list A) (ml : Z) (Hinn : inner_inv n inn).

(** At level [k], [cc] is the number of leaves rounded up to blocks of [2 ^ k],
    and [h] is the last node of the level; [rounded] says that a node has been
    duplicated below. *)
Record sinv (rounded : bool) (cc : Z) (k : nat) (h : A) (mh : bool) (br : list A) : Prop := {
  si_count : cc = width k * 2 ^ Z.of_nat k;
  si_h : h = pnode k (width k - 1);
  si_round : full_blocks n k = if rounded then width k - 1 else width k;
  si_below : forall j, (j < k)%nat -> 1 < width j;
  si_level : (k < 32)%nat;
  si_match : track = true -> p < n ->
    if mh then full_blocks p k = width k - 1 /\ br = branch_upto k
    else exists m, (k <= m)%nat /\ (rounded = false -> m <> k) /\ ml = Z.of_nat m /\ covers n m /\ br = branch_upto m }.

Lemma width_level k : 1 < width k -> (k < 31)%nat.
Proof.
  intros Hw. pose proof (width_bound k) as [_ H]. specialize (H ltac:(lia)). pose proof (pow_pos k).
  destruct (decide (k < 31)%nat) as [|Hk]; [done|].
  assert (2 ^ 31 <= 2 ^ Z.of_nat k) by (apply Z.pow_le_mono_r; lia). nia.
Qed.

Lemma sinv_count_bound r cc k h mh br : sinv r cc k h mh br -> 0 < cc <= 2 ^ 31.
Proof.
  intros [-> _ _ _ Hk _]. pose proof (width_bound k) as [_ H]. specialize (H ltac:(lia)).
  pose proof (level_width_pos k ltac:(lia)). pose proof (pow_pos k) as Hp1. pose proof (pow_pos (31 - k)) as Hp2.
  assert (E : 2 ^ 31 = 2 ^ Z.of_nat (31 - k) * 2 ^ Z.of_nat k) by (rewrite <-Z.pow_add_r by lia; f_equal; lia).
  rewrite E in *. nia.
Qed.

Lemma full_blocks_count k w : full_blocks (w * 2 ^ Z.of_nat k) k = w.
Proof. unfold full_blocks. apply Z.div_mul. pose proof (pow_pos k). lia. Qed.

(** A pair at an even level, once a node has been duplicated. *)
Lemma propagate_step cc k h mh br :
  sinv true cc k h mh br -> Z.even (width k) = true ->
  sinv true cc (S k) (hash (nth k inn null) h) (fst (push_sibling null track inn ml k h mh br))
    (snd (push_sibling null track inn ml k h mh br)).
Proof.
  intros [Hcc Hh Hr Hb Hk Hm] Hev. pose proof (even_double _ Hev) as Hd.
  set (w := width k) in *. set (e := w / 2) in *. pose proof (level_width_pos k ltac:(lia)) as Hw. fold w in Hw.
  assert (He : width (S k) = e) by (cbn [width]; fold w; Z.to_euclidean_division_equations; lia).
  assert (Hlt : 1 < w) by lia. pose proof (width_level k Hlt) as Hk'.
  assert (Hinner : nth k inn null = pnode k (2 * (e - 1))).
  { rewrite Hinn; [f_equal; lia|lia|]. rewrite Hr. replace (w - 1) with (1 + 2 * (e - 1)) by lia. by rewrite Z.odd_add_mul_2. }
  assert (Hh' : h = pnode k (2 * (e - 1) + 1)) by (rewrite Hh; f_equal; lia).
  split.
  - rewrite He, pow_S. nia.
  - rewrite He. cbn [pnode]. fold w. destruct (Z.ltb_spec (2 * (e - 1) + 1) w); [|lia]. by rewrite Hinner, Hh'.
  - rewrite full_blocks_S, Hr, He. Z.to_euclidean_division_equations. lia.
  - intros j Hj. destruct (decide (j = k)) as [->|]; [done|apply Hb; lia].
  - lia.
  - intros Ht Hpn. specialize (Hm Ht Hpn). unfold push_sibling. rewrite Ht, He.
    destruct mh; cbn [fst snd].
    + destruct Hm as [Hpk ->]. rewrite full_blocks_S, Hpk, branch_upto_S, Hpk, Hinner.
      split; [Z.to_euclidean_division_equations; lia|].
      do 3 f_equal. unfold sibling. replace (w - 1) with (1 + 2 * (e - 1)) by lia. rewrite Z.odd_add_mul_2. cbn. lia.
    + destruct Hm as (m & Hkm & _ & Hml & [Hc1 Hc2] & ->). rewrite Hml.
      destruct (Z.eqb_spec (Z.of_nat m) (Z.of_nat k)) as [Eml|Eml]; cbn [fst snd].
      * assert (m = k) as -> by lia. rewrite Hr in Hc2. rewrite full_blocks_S, Hc2, branch_upto_S, Hc2, Hh'.
        split; [Z.to_euclidean_division_equations; lia|].
        do 3 f_equal. unfold sibling. replace (w - 1 - 1) with (2 * (e - 1)) by lia.
        rewrite Z.odd_mul. cbn [Z.odd andb]. fold w. destruct (Z.ltb_spec (2 * (e - 1) + 1) w); [done|lia].
      * exists m. repeat split; try done; lia.
Qed.

Lemma propagate_spec fuel cc k h mh br :
  sinv true cc k h mh br -> (fuel + k = 32)%nat ->
  exists k' h' mh' br',
    propagate_loop null hash fuel cc track inn ml k h mh br = Some (k', h', mh', br') /\
    sinv true cc k' h' mh' br' /\ Z.odd (width k') = true /\ (k <= k')%nat.
Proof.
  revert k h mh br. induction fuel as [|fuel IH]; intros k h mh br Hs Hf; [pose proof (si_level _ _ _ _ _ _ Hs); lia|].
  cbn [propagate_loop]. pose proof (sinv_count_bound _ _ _ _ _ _ Hs) as Hcc.
  rewrite bit_clear_spec by (lia || apply (si_level _ _ _ _ _ _ Hs)).
  assert (Hfb : full_blocks cc k = width k) by (rewrite (si_count _ _ _ _ _ _ Hs); apply full_blocks_count).
  rewrite Hfb.
  destruct (Z.even (width k)) eqn:Hev.
  - pose proof (propagate_step _ _ _ _ _ Hs Hev) as Hs'.
    destruct (push_sibling null track inn ml k h mh br) as [mh' br']. cbn [fst snd] in Hs'.
    destruct (IH _ _ _ _ Hs') as (k' & h' & mh2 & br2 & E & Hi & Ho & Hle); [lia|].
    exists k', h', mh2, br2. repeat split; try done; try apply Hi. lia.
  - exists k, h, mh, br. split; [done|]. split; [done|]. split; [by rewrite <-Z.negb_even, Hev|done].
Qed.

(** An odd last node is paired with itself. *)
Lemma double_step r cc k h mh br :
  sinv r cc k h mh br -> Z.odd (width k) = true -> width k <> 1 ->
  sinv true (cc + 2 ^ Z.of_nat k) (S k) (hash h h) mh (if track && mh then br ++ [h] else br).
Proof.
  intros [Hcc Hh Hr Hb Hk Hm] Ho H1. apply Z.odd_spec in Ho as [e Hd].
  set (w := width k) in *. pose proof (level_width_pos k ltac:(lia)) as Hw. fold w in Hw.
  assert (He : width (S k) = e + 1) by (cbn [width]; fold w; rewrite Hd; Z.to_euclidean_division_equations; lia).
  assert (Hlt : 1 < w) by lia. pose proof (width_level k Hlt) as Hk'.
  split.
  - rewrite He, pow_S. nia.
  - rewrite He. cbn [pnode]. fold w. destruct (Z.ltb_spec (2 * (e + 1 - 1) + 1) w); [lia|]. rewrite Hh. do 2 f_equal; lia.
  - rewrite full_blocks_S, Hr, He. destruct r; rewrite Hd; Z.to_euclidean_division_equations; lia.
  - intros j Hj. destruct (decide (j = k)) as [->|]; [done|apply Hb; lia].
  - lia.
  - intros Ht Hpn. specialize (Hm Ht Hpn). rewrite Ht, He. destruct mh; cbn [andb].
    + destruct Hm as [Hpk ->]. rewrite full_blocks_S, Hpk, branch_upto_S, Hpk, Hh.
      split; [Z.to_euclidean_division_equations; lia|].
      do 3 f_equal. unfold sibling. fold w. replace (w - 1) with (2 * e) by lia. rewrite Z.odd_mul. cbn [Z.odd andb].
      destruct (Z.ltb_spec (2 * e + 1) w); [lia|done].
    + destruct Hm as (m & Hkm & Hne & Hml & [Hc1 Hc2] & ->). exists m.
      assert (m <> k).
      { destruct r; [|by apply Hne]. intros ->. rewrite Hr in Hc1. replace (w - 1) with (2 * e) in Hc1 by lia. by rewrite Z.odd_mul in Hc1. }
      repeat split; try done; lia.
Qed.

Lemma sweep_spec fuel r cc k h mh br :
  sinv r cc k h mh br -> Z.odd (width k) = true -> (32 <= fuel + k)%nat ->
  exists t br', sweep_loop null hash fuel cc track inn ml k h mh br = Some (pnode t 0, br') /\ top t /\
    (track = true -> p < n -> br' = branch_upto t).
Proof.
  revert r cc k h mh br. induction fuel as [|fuel IH]; intros r cc k h mh br Hs Ho Hf; pose proof (si_level _ _ _ _ _ _ Hs) as Hk; [lia|].
  pose proof (sinv_count_bound _ _ _ _ _ _ Hs) as Hcc. pose proof (pow_pos k) as Hpos.
  assert (Hp32 : 2 ^ Z.of_nat k < 2 ^ 32) by (apply Z.pow_lt_mono_r; lia).
  cbn [sweep_loop]. rewrite (Z.shiftl_mul_pow2 1), Z.mul_1_l by lia.
  rewrite (wrap_small 32 (2 ^ Z.of_nat k)) by (unfold word; lia).
  destruct (Z.eqb_spec cc (2 ^ Z.of_nat k)) as [E|E].
  - assert (Hw : width k = 1) by (rewrite (si_count _ _ _ _ _ _ Hs) in E; nia).
    exists k, br. rewrite (si_h _ _ _ _ _ _ Hs), Hw. split; [done|]. split; [by split; [|apply (si_below _ _ _ _ _ _ Hs)]|].
    intros Ht Hpn. pose proof (si_match _ _ _ _ _ _ Hs Ht Hpn) as Hm. destruct mh; [apply Hm|exfalso].
    destruct Hm as (m & Hkm & Hne & Hml & [Hc1 Hc2] & _).
    assert (Hm1 : full_blocks n m = 0 \/ m = k).
    { pose proof (si_round _ _ _ _ _ _ Hs) as Hr. rewrite Hw in Hr.
      destruct (decide (m = k)) as [|Hmk]; [by right|left]. unfold full_blocks in *. apply Z.div_small. split; [lia|].
      assert (n / 2 ^ Z.of_nat k < 2) by (destruct r; lia).
      assert (2 ^ Z.of_nat (S k) <= 2 ^ Z.of_nat m) by (apply Z.pow_le_mono_r; lia). rewrite pow_S in *.
      pose proof (Z.div_mod n (2 ^ Z.of_nat k) ltac:(lia)). pose proof (Z.mod_pos_bound n (2 ^ Z.of_nat k) ltac:(lia)). nia. }
    destruct Hm1 as [Hz| ->]; [by rewrite Hz in Hc1|].
    pose proof (si_round _ _ _ _ _ _ Hs) as Hr. destruct r; [|by apply Hne]. rewrite Hr, Hw in Hc1. done.
  - assert (Hw : width k <> 1) by (intros Hw; apply E; rewrite (si_count _ _ _ _ _ _ Hs), Hw; lia).
    pose proof (double_step _ _ _ _ _ _ Hs Ho Hw) as Hs'.
    pose proof (sinv_count_bound _ _ _ _ _ _ Hs') as Hcc'.
    rewrite (wrap_small 32 (cc + 2 ^ Z.of_nat k)) by (unfold word; lia).
    pose proof (si_level _ _ _ _ _ _ Hs').
    destruct (propagate_spec (32 - S k) _ _ _ _ _ Hs') as (k' & h' & mh' & br' & -> & Hs2 & Ho2 & Hle); [lia|].
    apply (IH _ _ _ _ _ _ Hs2 Ho2). lia.
Qed.
End sweep.

(** *** The whole computation *)

Lemma skip_spec fuel k :
  (fuel + k = 32)%nat -> n = full_blocks n k * 2 ^ Z.of_nat k -> width k = full_blocks n k ->
  (forall j, (j < k)%nat -> 1 < width j) ->
  exists k', skip_loop fuel n k = Some k' /\ (k' < 32)%nat /\ Z.odd (width k') = true /\
    n = full_blocks n k' * 2 ^ Z.of_nat k' /\ width k' = full_blocks n k' /\ forall j, (j < k')%nat -> 1 < width j.
Proof.
  revert k. induction fuel as [|fuel IH]; intros k Hf Hd Hw Hb.
  all: assert (Hk : (k < 32)%nat) by (apply (level_bound k n Hn); by eexists).
  { lia. }
  cbn [skip_loop]. rewrite bit_clear_spec by lia. rewrite <-Hw. pose proof (level_width_pos k ltac:(lia)).
  destruct (Z.even (width k)) eqn:Hev.
  - pose proof (even_double _ Hev) as He. apply IH; [lia| | |].
    + rewrite full_blocks_S, pow_S, <-Hw. rewrite <-Hw in Hd. nia.
    + rewrite full_blocks_S, <-Hw. cbn [width]. Z.to_euclidean_division_equations. lia.
    + intros j Hj. destruct (decide (j = k)) as [->|]; [lia|apply Hb; lia].
  - exists k. split; [done|]. split; [done|]. split; [by rewrite <-Z.negb_even, Hev|]. done.
Qed.

Lemma MerkleComputation_spec :
  exists t mu br, MerkleComputation null hash leaves track p = Some (pnode t 0, mu, br) /\ top t /\
    (mu = true <-> mutated_before n) /\ (track = true -> p < n -> br = branch_upto t).
Proof.
  unfold MerkleComputation. destruct (Nat.eqb_spec (length leaves) 0) as [|Hne]; [lia|].
  destruct (process_leaves_spec leaves 0 _ ltac:(lia) eq_refl ltac:(lia) minv_init) as (st & -> & Hst).
  rewrite (mi_count _ _ Hst).
  assert (H0 : full_blocks n 0 = n) by (unfold full_blocks; by rewrite Z.div_1_r).
  destruct (skip_spec 32 0) as (k & -> & Hk & Ho & Hd & Hw & Hb); [done|rewrite H0; cbn; lia|by rewrite H0|intros; lia|].
  set (mh := matchlevel st =? Z.of_nat k).
  assert (Hs : sinv (matchlevel st) false n k (nth k (inner st) null) mh (branch st)).
  { split; [by rewrite Hw|rewrite (mi_inner _ _ Hst); [by rewrite Hw|done|by rewrite <-Hw]|by rewrite Hw|done|done|].
    intros Ht Hpn. destruct (mi_match _ _ Hst Ht) as [Hm _]. destruct (Hm Hpn) as (m & Hml & [Hc1 Hc2] & ->).
    subst mh. rewrite Hml. destruct (Z.eqb_spec (Z.of_nat m) (Z.of_nat k)) as [E|E].
    - assert (m = k) as -> by lia. by rewrite Hw, Hc2.
    - exists m. repeat split; try done; try lia. destruct (decide (m < k)%nat) as [Hlt|]; [|lia].
      by rewrite (full_blocks_low n m k Hlt Hd) in Hc1. }
  destruct (sweep_spec (inner st) (matchlevel st) (mi_inner _ _ Hst) 32 _ _ _ _ _ _ Hs Ho ltac:(lia)) as (t & br & -> & Ht & Hbr).
  exists t, (mutated st), br. split; [done|]. split; [done|]. split; [apply (mi_mut _ _ Hst)|done].
Qed.

(** *** From the branch back to the root *)

Lemma path_width k : p < n -> 0 <= full_blocks p k < width k.
Proof.
  intros Hpn. pose proof (width_bound k) as [Hw _]. pose proof (pow_pos k). unfold full_blocks. split.
  - apply Z.div_pos; lia.
  - apply Z.div_lt_upper_bound; lia.
Qed.

Lemma pnode_path k :
  p < n ->
  pnode (S k) (full_blocks p (S k))
  = if Z.odd (full_blocks p k) then hash (pnode k (sibling k (full_blocks p k))) (pnode k (full_blocks p k))
    else hash (pnode k (full_blocks p k)) (pnode k (sibling k (full_blocks p k))).
Proof.
  intros Hpn. pose proof (path_width k Hpn) as Hi. rewrite full_blocks_S. set (i := full_blocks p k) in *.
  cbn [pnode]. unfold sibling. destruct (Z.odd i) eqn:Ho.
  - apply Z.odd_spec in Ho as [e He]. assert (i / 2 = e) as -> by (rewrite He; Z.to_euclidean_division_equations; lia).
    destruct (Z.ltb_spec (2 * e + 1) (width k)); [|lia]. f_equal; f_equal; lia.
  - assert (Hev : Z.even i = true) by (by rewrite <-Z.negb_odd, Ho). pose proof (even_double _ Hev) as He.
    rewrite <-He. done.
Qed.

Lemma root_from_path k j :
  p < n ->
  ComputeMerkleRootFromBranch hash (pnode k (full_blocks p k))
    (map (fun j => pnode j (sibling j (full_blocks p j))) (seq k j)) (full_blocks p k)
  = pnode (j + k) (full_blocks p (j + k)).
Proof.
  intros Hpn. revert k. induction j as [|j IH]; intros k; [done|].
  cbn [seq map ComputeMerkleRootFromBranch]. replace (S j + k)%nat with (j + S k)%nat by lia. rewrite <-IH.
  rewrite pnode_path by done.
  assert (Hb : negb (Z.land (full_blocks p k) 1 =? 0) = Z.odd (full_blocks p k)).
  { change 1 with (Z.ones 1) at 1. rewrite Z.land_ones by lia. change (2 ^ 1) with 2.
    rewrite Zmod_odd. by destruct (Z.odd (full_blocks p k)). }
  rewrite Hb. rewrite Z.shiftr_div_pow2 by lia. change (2 ^ 1) with 2. rewrite <-full_blocks_S.
  by destruct (Z.odd (full_blocks p k)).
Qed.

Lemma root_from_branch t :
  p < n -> top t -> ComputeMerkleRootFromBranch hash (nth (Z.to_nat p) leaves null) (branch_upto t) p = pnode t 0.
Proof.
  intros Hpn [Hw _]. assert (H0 : full_blocks p 0 = p) by (unfold full_blocks; by rewrite Z.div_1_r).
  pose proof (root_from_path 0 t Hpn) as H. rewrite H0, Nat.add_0_r in H. fold (branch_upto t) in H.
  pose proof (path_width t Hpn). by replace (full_blocks p t) with 0 in H by lia.
Qed.
End tree.

(** The pairs that are hashed from leaf [x] at position [i] to the root. *)
Fixpoint branch_pairs {A} (hash : A -> A -> A) (x : A) (br : list A) (i : Z) : list (A * A) :=
  match br with
  | [] => []
  | s :: br => let pair := if negb (Z.land i 1 =? 0) then (s, x) else (x, s) in pair :: branch_pairs hash (hash (fst pair) (snd pair)) br (i ≫ 1)
  end.

(** Two pairs that differ and have the same hash. *)
Definition pairs_clash {A} (hash : A -> A -> A) (m : (A * A) * (A * A)) : Prop :=
  fst m <> snd m /\ hash (fst (fst m)) (snd (fst m)) = hash (fst (snd m)) (snd (snd m)).

(** Two openings of the same length at the same position give the same root only
    with the same leaf, or two pairs that they hash at the same level clash. *)
Lemma branch_binding {A} `{EqDecision A} (hash : A -> A -> A) br br' x x' i :
  length br = length br' ->
  ComputeMerkleRootFromBranch hash x br i = ComputeMerkleRootFromBranch hash x' br' i ->
  x = x' \/ Exists (pairs_clash hash) (zip (branch_pairs hash x br i) (branch_pairs hash x' br' i)).
Proof.
  revert br' x x' i. induction br as [|s br IH]; intros [|s' br'] x x' i Hl H; try done; [by left|].
  cbn in Hl. injection Hl as Hl. cbn [ComputeMerkleRootFromBranch] in H. cbn [branch_pairs zip_with].
  destruct (decide (x = x')) as [|Hne]; [by left|]. right. rewrite Exists_cons.
  destruct (negb (Z.land i 1 =? 0)); cbn [fst snd]; (destruct (IH _ _ _ _ Hl H) as [E|E]; [left|by right]); (split; cbn [fst snd]; [congruence|done]).
Qed.
