(* ===== verification/ConsensusMerkleTheorems.v ===== *)
(** * ConsensusMerkleTheorems: root, branch and duplicated transactions

    The theorems on ComputeMerkleRoot, ComputeMerkleBranch and
    ComputeMerkleRootFromBranch, for any pair hash; the witnesses use the double
    SHA-256 of hash.h. *)

From S2P Require Import Prelude Words ConsensusMerkle ConsensusMerkleCorrect.
From S2P Require Hash.

Section blocks.
Context {A : Type} `{EqDecision A} (null : A) (hash : A -> A -> A).

(** ** Complete subtrees *)

(** The leaves below node [i] of level [k]. *)
Definition block (leaves : list A) (k : nat) (i : Z) : list A :=
  take (2 ^ k) (drop (Z.to_nat i * 2 ^ k) leaves).

(** A complete node depends on the leaves of its block only. *)
Lemma pnode_block L L' k i i' :
  0 <= i -> 0 <= i' ->
  (i + 1) * 2 ^ Z.of_nat k <= Z.of_nat (length L) -> (i' + 1) * 2 ^ Z.of_nat k <= Z.of_nat (length L') ->
  (forall x, 0 <= x < 2 ^ Z.of_nat k ->
    nth (Z.to_nat (i * 2 ^ Z.of_nat k + x)) L null = nth (Z.to_nat (i' * 2 ^ Z.of_nat k + x)) L' null) ->
  pnode null hash L k i = pnode null hash L' k i'.
Proof.
  revert i i'. induction k as [|k IH]; intros i i' Hi Hi' Hl Hl' H.
  - cbn [pnode]. specialize (H 0 ltac:(cbn; lia)). cbn in H. by rewrite !Z.mul_1_r, !Z.add_0_r in H.
  - rewrite pow_S in *. pose proof (pow_pos k). rewrite !pnode_complete by lia.
    f_equal; apply IH; try lia; intros x Hx.
    + specialize (H x ltac:(lia)). by replace (2 * i * 2 ^ Z.of_nat k) with (i * (2 * 2 ^ Z.of_nat k)) by lia;
        replace (2 * i' * 2 ^ Z.of_nat k) with (i' * (2 * 2 ^ Z.of_nat k)) by lia.
    + specialize (H (2 ^ Z.of_nat k + x) ltac:(lia)).
      replace ((2 * i + 1) * 2 ^ Z.of_nat k + x) with (i * (2 * 2 ^ Z.of_nat k) + (2 ^ Z.of_nat k + x)) by lia.
      by replace ((2 * i' + 1) * 2 ^ Z.of_nat k + x) with (i' * (2 * 2 ^ Z.of_nat k) + (2 ^ Z.of_nat k + x)) by lia.
Qed.

Lemma pow_nat k : Z.of_nat (2 ^ k) = 2 ^ Z.of_nat k.
Proof. by rewrite Nat2Z.inj_pow. Qed.

(** The top of a list of [2 ^ k] leaves is level [k]. *)
Lemma width_pow (L : list A) k j :
  length L = (2 ^ k)%nat -> (j <= k)%nat -> width L j = 2 ^ Z.of_nat (k - j).
Proof.
  intros Hl. induction j as [|j IH]; intros Hj.
  - cbn. rewrite Hl, Nat.sub_0_r. apply pow_nat.
  - cbn [width]. rewrite IH by lia. replace (k - j)%nat with (S (k - S j)) by lia. rewrite pow_S.
    Z.to_euclidean_division_equations. lia.
Qed.

Lemma top_pow (L : list A) k : length L = (2 ^ k)%nat -> top L k.
Proof.
  intros Hl. split.
  - by rewrite (width_pow L k), Nat.sub_diag.
  - intros j Hj. rewrite (width_pow L k) by (done || lia).
    assert (2 ^ 1 <= 2 ^ Z.of_nat (k - j)) by (apply Z.pow_le_mono_r; lia). lia.
Qed.

Lemma pnode_merkle_root L k i :
  0 <= i -> (i + 1) * 2 ^ Z.of_nat k <= Z.of_nat (length L) ->
  pnode null hash L k i = merkle_root null hash (block L k i).
Proof.
  intros Hi Hl. pose proof (pow_pos k). pose proof (pow_nat k) as Hpn.
  assert (Hlen : length (block L k i) = (2 ^ k)%nat) by (unfold block; rewrite length_take, length_drop; nia).
  rewrite (merkle_root_top null hash _ k); [|intros E; rewrite E in Hlen; cbn in Hlen; lia|by apply top_pow].
  apply pnode_block; try lia. intros x Hx. unfold block.
  rewrite !nth_lookup, lookup_take_lt, lookup_drop by nia. do 2 f_equal. nia.
Qed.
End blocks.

(** C17: The constant-space algorithm of MerkleComputation computes the Merkle tree: for up to 2^31 leaves no shift is out of range, no counter wraps, and the root is that of the tree built level by level in which an odd last node is paired with itself; the mutated flag is raised exactly when two sibling subtrees with all their leaves present have the same root. *)
Theorem merkle_root_spec {A : Type} `{EqDecision A} (null : A) (hash : A -> A -> A) (leaves : list A) :
  Z.of_nat (length leaves) <= 2 ^ 31 ->
  exists mutated, ComputeMerkleRoot null hash leaves = Some (merkle_root null hash leaves, mutated) /\
    (mutated = true <-> exists k i, 0 <= i /\ (2 * i + 2) * 2 ^ Z.of_nat k <= Z.of_nat (length leaves) /\
       merkle_root null hash (block leaves k (2 * i)) = merkle_root null hash (block leaves k (2 * i + 1))).
Proof.
  intros Hl. destruct (decide (leaves = [])) as [->|Hne].
  - exists false. split; [done|]. split; [done|]. intros (k & i & Hi & Hk & _). cbn in Hk. pose proof (pow_pos k). nia.
  - assert (0 < Z.of_nat (length leaves)) by (destruct leaves; [done|cbn; lia]).
    destruct (MerkleComputation_spec null hash leaves false (u32 (-1)) ltac:(vm_compute; discriminate) ltac:(lia)) as (t & mu & br & E & Ht & Hmu & _).
    exists mu. unfold ComputeMerkleRoot. rewrite E, (merkle_root_top null hash leaves t Hne Ht). split; [done|].
    rewrite Hmu. split.
    + intros (e & k & i & He & Hi & <- & Heq). exists k, i. pose proof (pow_pos k).
      by rewrite <-!pnode_merkle_root by lia.
    + intros (k & i & Hi & He & Heq). exists ((2 * i + 2) * 2 ^ Z.of_nat k), k, i. pose proof (pow_pos k).
      rewrite <-!pnode_merkle_root in Heq by lia. by split.
Qed.

(** ComputeMerkleBranch and ComputeMerkleRootFromBranch are inverse: for every position of up to 2^31 leaves the branch exists, and from it and the leaf the root is recovered.  The branch binds: another leaf with another branch of that length at that position has this root only if, at some level, the pair it hashes differs from the pair of the honest branch and has the same hash. *)
Theorem merkle_branch_round_trip {A : Type} `{EqDecision A} (null : A) (hash : A -> A -> A) (leaves : list A) (position : nat) :
  (position < length leaves)%nat -> Z.of_nat (length leaves) <= 2 ^ 31 ->
  exists branch, ComputeMerkleBranch null hash leaves (Z.of_nat position) = Some branch /\
    ComputeMerkleRootFromBranch hash (nth position leaves null) branch (Z.of_nat position) = merkle_root null hash leaves /\
    forall leaf' branch', length branch = length branch' ->
      ComputeMerkleRootFromBranch hash leaf' branch' (Z.of_nat position) = merkle_root null hash leaves ->
      nth position leaves null = leaf' \/
      Exists (pairs_clash hash) (zip (branch_pairs hash (nth position leaves null) branch (Z.of_nat position)) (branch_pairs hash leaf' branch' (Z.of_nat position))).
Proof.
  intros Hp Hl.
  destruct (MerkleComputation_spec null hash leaves true (Z.of_nat position) ltac:(lia) ltac:(lia)) as (t & mu & br & E & Ht & _ & Hbr).
  specialize (Hbr eq_refl ltac:(lia)). exists br. unfold ComputeMerkleBranch. rewrite E. split; [done|].
  assert (Hne : leaves <> []) by (by intros ->; cbn in Hp; lia).
  pose proof (root_from_branch null hash leaves (Z.of_nat position) ltac:(lia) t ltac:(lia) Ht) as Hr.
  rewrite Nat2Z.id, <-Hbr, <-(merkle_root_top null hash leaves t Hne Ht) in Hr. split; [done|].
  intros leaf' branch' Hlen Hr'. apply (branch_binding hash br branch' _ _ (Z.of_nat position)); [done|congruence].
Qed.

(** ** Duplicated transactions (CVE-2012-2459) *)

Section duplicate.
Context {A : Type} `{EqDecision A} (null : A) (hash : A -> A -> A) (L : list A) (k : nat) (w : Z).
Context (Hw : Z.odd w = true) (Hw1 : 1 < w) (HL : Z.of_nat (length L) = w * 2 ^ Z.of_nat k).

(** The last [2 ^ k] leaves once more. *)
Definition duplicate_last : list A := L ++ drop (length L - 2 ^ k) L.
Abbreviation L' := duplicate_last.

Lemma duplicate_length : Z.of_nat (length L') = (w + 1) * 2 ^ Z.of_nat k.
Proof.
  unfold duplicate_last. rewrite length_app, length_drop. pose proof (pow_nat k). pose proof (pow_pos k). nia.
Qed.

Lemma width_multiple (l : list A) v j : Z.of_nat (length l) = v * 2 ^ Z.of_nat k -> (j <= k)%nat -> width l j = v * 2 ^ Z.of_nat (k - j).
Proof.
  intros Hl. induction j as [|j IH]; intros Hj; [by rewrite Nat.sub_0_r|].
  cbn [width]. rewrite IH by lia. replace (k - j)%nat with (S (k - S j)) by lia. rewrite pow_S.
  replace (v * (2 * 2 ^ Z.of_nat (k - S j)) + 1) with (1 + v * 2 ^ Z.of_nat (k - S j) * 2) by lia.
  rewrite Z.div_add by lia. change (1 / 2) with 0. lia.
Qed.

Lemma duplicate_width j : (k < j)%nat -> width L' j = width L j.
Proof.
  intros Hj. induction Hj as [|j Hj IH]; cbn [width]; [|by rewrite IH].
  rewrite (width_multiple _ _ k HL), (width_multiple _ _ k duplicate_length), Nat.sub_diag by lia.
  change (2 ^ Z.of_nat 0) with 1. apply Z.odd_spec in Hw as [e ->]. Z.to_euclidean_division_equations. lia.
Qed.

(** Level [k]: the same nodes, and the last one twice. *)
Lemma duplicate_nodes i : 0 <= i <= w -> pnode null hash L' k i = pnode null hash L k (Z.min i (w - 1)).
Proof.
  intros Hi. pose proof (pow_pos k). pose proof (pow_nat k). pose proof duplicate_length as Hl.
  apply pnode_block; try nia. intros x Hx. unfold duplicate_last. rewrite !nth_lookup. f_equal.
  destruct (decide (i < w)) as [Hlt|Hge].
  - rewrite Z.min_l by lia. rewrite lookup_app_l by nia. done.
  - assert (i = w) as -> by lia. rewrite Z.min_r by lia. rewrite lookup_app_r, lookup_drop by nia. f_equal. nia.
Qed.

Lemma duplicate_above j i : (k < j)%nat -> 0 <= i < width L j -> pnode null hash L' j i = pnode null hash L j i.
Proof.
  intros Hj. revert i. induction Hj as [|j Hj IH]; intros i Hi; cbn [pnode].
  - cbn [width] in Hi. rewrite (width_multiple _ _ k HL), (width_multiple _ _ k duplicate_length), Nat.sub_diag in * by lia.
    change (2 ^ Z.of_nat 0) with 1 in *. rewrite !Z.mul_1_r in *. apply Z.odd_spec in Hw as [e He].
    assert (i <= e) by (Z.to_euclidean_division_equations; lia).
    destruct (Z.ltb_spec (2 * i + 1) (w + 1)); [|lia].
    rewrite !duplicate_nodes by lia. destruct (Z.ltb_spec (2 * i + 1) w); f_equal; f_equal; lia.
  - cbn [width] in Hi. rewrite duplicate_width by lia.
    destruct (Z.ltb_spec (2 * i + 1) (width L j)); rewrite !IH by (Z.to_euclidean_division_equations; lia); done.
Qed.

Lemma duplicate_top t : top L t -> (k < t)%nat /\ top L' t.
Proof.
  intros [Ht Hb]. pose proof (pow_pos k).
  assert (Hk : (k < t)%nat).
  { destruct (decide (k < t)%nat); [done|]. rewrite (width_multiple _ _ t HL) in Ht by lia. pose proof (pow_pos (k - t)). nia. }
  split; [done|]. split; [by rewrite duplicate_width|].
  intros j Hj. destruct (decide (k < j)%nat); [rewrite duplicate_width by done; by apply Hb|].
  rewrite (width_multiple _ _ j duplicate_length) by lia. pose proof (pow_pos (k - j)). nia.
Qed.

Lemma duplicate_root : merkle_root null hash L' = merkle_root null hash L.
Proof.
  pose proof (pow_pos k). assert (HneL : L <> []) by (intros E; rewrite E in HL; cbn in HL; nia).
  destruct (tree_root_level null hash L (length L) 0 L (leaves_level _ _ _)) as (t & Ht & _);
    [apply level_width_pos; nia|lia|intros; lia|].
  destruct (duplicate_top t Ht) as [Hk Ht'].
  rewrite (merkle_root_top null hash L t HneL Ht), (merkle_root_top null hash L' t); [|intros E; by apply app_eq_nil in E as [? _]|done].
  apply duplicate_above; [done|]. destruct Ht as [-> _]. lia.
Qed.
End duplicate.

(** C29: The defence against CVE-2012-2459: repeating the last 2^k leaves of a list of w * 2^k leaves, w odd and above 1, does not change the root, and ComputeMerkleRoot reports it: the flag is raised on the longer list. *)
Theorem merkle_duplicate_detected {A : Type} `{EqDecision A} (null : A) (hash : A -> A -> A) (leaves : list A) (k : nat) (w : Z) :
  Z.odd w = true -> 1 < w -> Z.of_nat (length leaves) = w * 2 ^ Z.of_nat k -> (w + 1) * 2 ^ Z.of_nat k <= 2 ^ 31 ->
  exists mutated,
    ComputeMerkleRoot null hash leaves = Some (merkle_root null hash leaves, mutated) /\
    ComputeMerkleRoot null hash (duplicate_last leaves k) = Some (merkle_root null hash leaves, true).
Proof.
  intros Hw Hw1 Hl Hmax. pose proof (pow_pos k). pose proof (duplicate_length leaves k w Hw1 Hl) as Hl'.
  destruct (MerkleComputation_spec null hash leaves false (u32 (-1)) ltac:(vm_compute; discriminate) ltac:(nia)) as (t & mu & br & E & Ht & _).
  destruct (MerkleComputation_spec null hash (duplicate_last leaves k) false (u32 (-1)) ltac:(vm_compute; discriminate) ltac:(nia)) as (t' & mu' & br' & E' & Ht' & Hmu' & _).
  exists mu. unfold ComputeMerkleRoot. rewrite E, E'.
  rewrite <-(merkle_root_top null hash leaves t), <-(merkle_root_top null hash (duplicate_last leaves k) t'); [|..]; try done.
  2, 3: intros Hnil; rewrite Hnil in *; cbn in *; nia.
  split; [done|]. rewrite (duplicate_root null hash leaves k w) by done. do 2 f_equal.
  apply Hmu'. apply Z.odd_spec in Hw as Hodd. destruct Hodd as [e He].
  exists ((2 * e + 2) * 2 ^ Z.of_nat k), k, e. split; [nia|]. split; [lia|]. split; [done|].
  rewrite !(duplicate_nodes null hash leaves k w) by (done || lia). f_equal. lia.
Qed.

(** ** Witnesses *)

(** The pair hash of the code, and six transaction hashes. *)
Definition sha_pair : list Z -> list Z -> list Z := Hash.Hash2 (replicate 64 0).
Definition six : list (list Z) := map (fun i => replicate 32 (Z.of_nat i)) (seq 1 6).

Lemma merkle_root_spec_witness :
  Z.of_nat (length six) <= 2 ^ 31 /\
  ComputeMerkleRoot (replicate 32 0) sha_pair six = Some (merkle_root (replicate 32 0) sha_pair six, false).
Proof.
  assert (Hl : Z.of_nat (length six) <= 2 ^ 31) by (vm_compute; discriminate).
  split; [exact Hl|].
  destruct (merkle_root_spec (replicate 32 0) sha_pair six Hl) as (mu & E & _).
  destruct mu; [|exact E].
  assert (Hs : option_map snd (ComputeMerkleRoot (replicate 32 0) sha_pair six) = Some false) by (vm_compute; reflexivity).
  rewrite E in Hs. discriminate Hs.
Defined.

Lemma merkle_branch_round_trip_witness :
  exists branch, ComputeMerkleBranch (replicate 32 0) sha_pair six 4 = Some branch /\
    ComputeMerkleRootFromBranch sha_pair (replicate 32 5) branch 4 = merkle_root (replicate 32 0) sha_pair six.
Proof.
  destruct (merkle_branch_round_trip (replicate 32 0) sha_pair six 4) as (br & E & H & _).
  - vm_compute. lia.
  - vm_compute. discriminate.
  - exists br. split; [exact E|exact H].
Defined.

(** The example of the comment in merkle.cpp: 1 2 3 4 5 6 and 1 2 3 4 5 6 5 6. *)
Lemma merkle_duplicate_detected_witness :
  duplicate_last six 1 = map (fun i => replicate 32 i) [1; 2; 3; 4; 5; 6; 5; 6] /\
  exists mutated,
    ComputeMerkleRoot (replicate 32 0) sha_pair six = Some (merkle_root (replicate 32 0) sha_pair six, mutated) /\
    ComputeMerkleRoot (replicate 32 0) sha_pair (duplicate_last six 1) = Some (merkle_root (replicate 32 0) sha_pair six, true).
Proof.
  split; [vm_compute; reflexivity|].
  apply (merkle_duplicate_detected (replicate 32 0) sha_pair six 1 3).
  - reflexivity.
  - lia.
  - reflexivity.
  - cbn. lia.
Defined.

(** Above 2^31 leaves the sweep rounds [count] up to 2^32, which is 0 as a
    [uint32_t]: no bit is ever set again and [level] leaves the range of the shift. *)
Lemma merkle_sweep_overflow {A : Type} (null : A) (hash : A -> A -> A) (inner : list A) (h : A) :
  sweep_loop null hash 32 (2 ^ 31 + 1) false inner (-1) 0 h false [] = None.
Proof. vm_compute. reflexivity. Qed.
