(* ===== verification/Chain.v ===== *)
(** * Chain: the block index and the active chain

    Models chain.cpp, the members of CBlockIndex and CChain in chain.h, and
    AddToBlockIndex of validation.cpp.  Block index entries live in a heap: a
    pointer is an address, [None] the null pointer.  The result [None] of a
    function is a null dereference, a failed assertion or an exhausted loop bound;
    the theorems show that it does not occur on the heaps the program builds.

    Only the fields that this code reads or writes are kept. *)

From stdpp Require Import gmap.
From S2P Require Import Prelude Words Arith256.

Abbreviation ptr := (option nat).

Record CBlockIndex := mk_index {
  phashBlock : option (list Z); pprev : ptr; pskip : ptr; nHeight : Z; nChainWork : limbs;
  nStatus : Z; nVersion : Z; nTime : Z; nBits : Z;
  nSequenceId : Z; nTimeMax : Z }.

Abbreviation heap := (gmap nat CBlockIndex).

(** [*p] *)
Definition deref (h : heap) (p : ptr) : option CBlockIndex := a ← p; h !! a.

(** ** Skip list *)

Definition InvertLowestOne (n : Z) : Z := Z.land n (n - 1).

Definition GetSkipHeight (height : Z) : Z :=
  if height <? 2 then 0
  else if negb (Z.land height 1 =? 0) then InvertLowestOne (InvertLowestOne (height - 1)) + 1
  else InvertLowestOne height.

(** [while (heightWalk > height)] *)
Fixpoint walk_loop (fuel : nat) (h : heap) (pindexWalk : ptr) (heightWalk height : Z) : option ptr :=
  match fuel with
  | O => None
  | S fuel =>
      if height <? heightWalk then
        let heightSkip := GetSkipHeight heightWalk in
        let heightSkipPrev := GetSkipHeight (heightWalk - 1) in
        b ← deref h pindexWalk;
        if bool_decide (pskip b <> None) &&
           ((heightSkip =? height) ||
            ((height <? heightSkip) && negb ((heightSkipPrev <? heightSkip - 2) && (height <=? heightSkipPrev))))
        then walk_loop fuel h (pskip b) heightSkip height
        else walk_loop fuel h (pprev b) (heightWalk - 1) height
      else Some pindexWalk
  end.

Definition GetAncestor (h : heap) (this : ptr) (height : Z) : option ptr :=
  b ← deref h this;
  if (nHeight b <? height) || (height <? 0) then Some None
  else walk_loop (S (Z.to_nat (nHeight b - height))) h this (nHeight b) height.

(** [BuildSkip] of the entry [b]: the value of [pskip]. *)
Definition BuildSkip (h : heap) (b : CBlockIndex) : option ptr :=
  match pprev b with
  | Some _ => GetAncestor h (pprev b) (GetSkipHeight (nHeight b))
  | None => Some (pskip b)
  end.

(** ** Times and work *)

Definition nMedianTimeSpan : nat := 11.

(** The times of the entry and of the ones before it, at most [n] of them. *)
Fixpoint past_times (n : nat) (h : heap) (pindex : ptr) : option (list Z) :=
  match n, pindex with
  | O, _ => Some []
  | S _, None => Some []
  | S n, Some _ => b ← deref h pindex; l ← past_times n h (pprev b); Some (nTime b :: l)
  end.

(** [std::sort] by insertion. *)
Fixpoint sort_insert (x : Z) (l : list Z) : list Z :=
  match l with
  | [] => [x]
  | y :: l => if x <=? y then x :: y :: l else y :: sort_insert x l
  end.
Definition sort (l : list Z) : list Z := foldr sort_insert [] l.

Definition median (l : list Z) : Z := (sort l).[length l / 2].

Definition GetMedianTimePast (h : heap) (this : ptr) : option Z :=
  times ← past_times nMedianTimeSpan h this;
  Some (median times).

Definition GetBlockProof (bits : Z) : option limbs :=
  let '(bnTarget, fNegative, fOverflow) := SetCompact bits in
  if fNegative || fOverflow || EqualTo bnTarget 0 then Some (zero W256)
  else q ← div W256 (bit_not bnTarget) (add bnTarget (of_u64 W256 1)); Some (add q (of_u64 W256 1)).

(** ** The validity level of an entry *)

Definition BLOCK_VALID_TREE : Z := 2.
Definition BLOCK_VALID_MASK : Z := Z.lor (Z.lor (Z.lor (Z.lor 1 BLOCK_VALID_TREE) 3) 4) 5.
Definition BLOCK_FAILED_MASK : Z := Z.lor 32 64.

Definition set_status (b : CBlockIndex) (x : Z) : CBlockIndex :=
  mk_index (phashBlock b) (pprev b) (pskip b) (nHeight b) (nChainWork b) x (nVersion b) (nTime b) (nBits b)
    (nSequenceId b) (nTimeMax b).

(** [None] is the failed assertion. *)
Definition IsValid (b : CBlockIndex) (nUpTo : Z) : option bool :=
  if negb (Z.ldiff nUpTo BLOCK_VALID_MASK =? 0) then None
  else if negb (Z.land (nStatus b) BLOCK_FAILED_MASK =? 0) then Some false
  else Some (nUpTo <=? Z.land (nStatus b) BLOCK_VALID_MASK).

Definition RaiseValidity (b : CBlockIndex) (nUpTo : Z) : option (bool * CBlockIndex) :=
  if negb (Z.ldiff nUpTo BLOCK_VALID_MASK =? 0) then None
  else if negb (Z.land (nStatus b) BLOCK_FAILED_MASK =? 0) then Some (false, b)
  else if Z.land (nStatus b) BLOCK_VALID_MASK <? nUpTo
  then Some (true, set_status b (Z.lor (Z.ldiff (nStatus b) BLOCK_VALID_MASK) nUpTo))
  else Some (false, b).

(** ** The block index of the node *)

(** [mapPrevBlockIndex] is a multimap: the pairs in the order of insertion. *)
Record node := mk_node {
  heap_of : heap;
  mapBlockIndex : gmap (list Z) nat;
  pindexBestHeader : ptr;
  setDirtyBlockIndex : gset nat;
  mapPrevBlockIndex : list (list Z * nat) }.

(** A header to be added: its hash, [hashPrevBlock] and the fields kept. *)
Record header := mk_hdr { hash : list Z; hashPrevBlock : list Z; hdrVersion : Z; hdrTime : Z; hdrBits : Z }.

(** [CBlockIndex(block)]: [SetNull], then the fields of the header. *)
Definition new_index (block : header) : CBlockIndex :=
  mk_index None None None 0 (zero W256) 0 (hdrVersion block) (hdrTime block) (hdrBits block) 0 0.

(** [*phashBlock]; [None] is a null dereference. *)
Definition GetBlockHash (b : CBlockIndex) : option (list Z) := phashBlock b.

Definition set_hash (b : CBlockIndex) (x : list Z) : CBlockIndex :=
  mk_index (Some x) (pprev b) (pskip b) (nHeight b) (nChainWork b) (nStatus b) (nVersion b) (nTime b) (nBits b) 0 (nTimeMax b).
Definition set_prev (b : CBlockIndex) (q : nat) (height : Z) : CBlockIndex :=
  mk_index (phashBlock b) (Some q) (pskip b) height (nChainWork b) (nStatus b) (nVersion b) (nTime b) (nBits b)
    (nSequenceId b) (nTimeMax b).
Definition set_skip (b : CBlockIndex) (s : ptr) : CBlockIndex :=
  mk_index (phashBlock b) (pprev b) s (nHeight b) (nChainWork b) (nStatus b) (nVersion b) (nTime b) (nBits b)
    (nSequenceId b) (nTimeMax b).
Definition set_totals (b : CBlockIndex) (timeMax : Z) (work : limbs) : CBlockIndex :=
  mk_index (phashBlock b) (pprev b) (pskip b) (nHeight b) work (nStatus b) (nVersion b) (nTime b) (nBits b)
    (nSequenceId b) timeMax.

(** The part of AddToBlockIndex on the new entry, [new CBlockIndex(block)] at the
    address [a]: its parent, height, skip pointer, totals and validity level. *)
Definition fill_index (st : node) (map' : gmap (list Z) nat) (a : nat) (block : header) : option CBlockIndex :=
  let h := heap_of st in
  let b := set_hash (new_index block) (hash block) in
  b ← match map' !! hashPrevBlock block with
      | Some q =>
          prev ← <[a := b]> h !! q;
          let b := set_prev b q (nHeight prev + 1) in
          s ← BuildSkip (<[a := b]> h) b;
          Some (set_skip b s)
      | None => Some b
      end;
  proof ← GetBlockProof (nBits b);
  b ← match pprev b with
      | Some q => prev ← <[a := b]> h !! q; Some (set_totals b (Z.max (nTimeMax prev) (nTime b)) (add (nChainWork prev) proof))
      | None => Some (set_totals b (nTime b) (add (zero W256) proof))
      end;
  r ← RaiseValidity b BLOCK_VALID_TREE;
  Some (snd r).

Definition AddToBlockIndex (st : node) (a : nat) (block : header) : option (node * ptr) :=
  match mapBlockIndex st !! hash block with
  | Some p => Some (st, Some p)
  | None =>
      let map' := <[hash block := a]> (mapBlockIndex st) in
      b ← fill_index st map' a block;
      let h := <[a := b]> (heap_of st) in
      best ← match pindexBestHeader st with
          | None => Some (Some a)
          | Some q => old ← h !! q; Some (if CompareTo (nChainWork old) (nChainWork b) <? 0 then Some a else Some q)
          end;
      succ ← match pprev b with
          | Some q => prev ← h !! q; x ← GetBlockHash prev; Some (mapPrevBlockIndex st ++ [(x, a)])
          | None => Some (mapPrevBlockIndex st)
          end;
      Some (mk_node h map' best ({[ a ]} ∪ setDirtyBlockIndex st) succ, Some a)
  end.

(** ** CChain *)

Abbreviation vChain := (list (option nat)).

Definition Height (c : vChain) : Z := Z.of_nat (length c) - 1.
Definition Tip (c : vChain) : ptr := if (0 <? length c)%nat then nth (length c - 1) c None else None.
Definition Genesis (c : vChain) : ptr := if (0 <? length c)%nat then nth 0 c None else None.
Definition at_height (c : vChain) (height : Z) : ptr :=
  if (height <? 0) || (Z.of_nat (length c) <=? height) then None else nth (Z.to_nat height) c None.
Definition Contains (h : heap) (c : vChain) (pindex : ptr) : option bool :=
  b ← deref h pindex; Some (bool_decide (at_height c (nHeight b) = pindex)).
Definition Next (h : heap) (c : vChain) (pindex : ptr) : option ptr :=
  b ← deref h pindex; present ← Contains h c pindex;
  Some (if (present : bool) then at_height c (nHeight b + 1) else None).

(** [while (pindex && vChain[pindex->nHeight] != pindex)] *)
Fixpoint set_loop (fuel : nat) (h : heap) (c : vChain) (pindex : ptr) : option vChain :=
  match fuel with
  | O => None
  | S fuel =>
      match pindex with
      | None => Some c
      | Some _ =>
          b ← deref h pindex;
          if bool_decide (nth (Z.to_nat (nHeight b)) c None = pindex) then Some c
          else set_loop fuel h (<[Z.to_nat (nHeight b) := pindex]> c) (pprev b)
      end
  end.

(** [std::vector::resize] *)
Definition resize_ptrs (c : vChain) (n : nat) : vChain := take n c ++ replicate (n - length c) None.

Definition SetTip (h : heap) (c : vChain) (pindex : ptr) : option vChain :=
  match pindex with
  | None => Some []
  | Some _ =>
      b ← deref h pindex;
      set_loop (S (S (Z.to_nat (nHeight b)))) h (resize_ptrs c (Z.to_nat (nHeight b + 1))) pindex
  end.

(** [while (pindex && !Contains(pindex))] *)
Fixpoint fork_loop (fuel : nat) (h : heap) (c : vChain) (pindex : ptr) : option ptr :=
  match fuel with
  | O => None
  | S fuel =>
      match pindex with
      | None => Some None
      | Some _ =>
          present ← Contains h c pindex;
          if (present : bool) then Some pindex else b ← deref h pindex; fork_loop fuel h c (pprev b)
      end
  end.

Definition FindFork (h : heap) (c : vChain) (pindex : ptr) : option ptr :=
  match pindex with
  | None => Some None
  | Some _ =>
      b ← deref h pindex;
      p ← (if Height c <? nHeight b then GetAncestor h pindex (Height c) else Some pindex);
      fork_loop (S (S (Z.to_nat (nHeight b)))) h c p
  end.

(** [p->GetBlockHash()] *)
Definition hash_at (h : heap) (p : ptr) : option (list Z) := b ← deref h p; GetBlockHash b.

(** The entries whose hashes GetLocator collects. *)
Fixpoint locator_loop (fuel : nat) (h : heap) (c : vChain) (pindex : ptr) (nStep : Z) (vHave : list ptr) : option (list ptr) :=
  match fuel with
  | O => None
  | S fuel =>
      match pindex with
      | None => Some vHave
      | Some _ =>
          let vHave := vHave ++ [pindex] in
          b ← deref h pindex;
          if nHeight b =? 0 then Some vHave
          else
            let nHeight' := Z.max (nHeight b - nStep) 0 in
            present ← Contains h c pindex;
            p ← (if (present : bool) then Some (at_height c nHeight') else GetAncestor h pindex nHeight');
            let nStep := if (10 <? length vHave)%nat then nStep * 2 else nStep in
            locator_loop fuel h c p nStep vHave
      end
  end.

Definition GetLocator (fuel : nat) (h : heap) (c : vChain) (pindex : ptr) : option (list (list Z)) :=
  let pindex := match pindex with None => Tip c | Some _ => pindex end in
  vHave ← locator_loop fuel h c pindex 1 [];
  mapM (hash_at h) vHave.

(** [operator==]; [None] is the read before the start of an empty vector. *)
Definition chain_eq (a b : vChain) : option bool :=
  if (length a =? length b)%nat then
    if (length a =? 0)%nat then None
    else Some (bool_decide (nth (length a - 1) a None = nth (length b - 1) b None))
  else Some false.

(** [std::lower_bound] by bisection: [len] elements from [first] are left. *)
Fixpoint lower_bound (fuel : nat) (comp : ptr -> option bool) (c : vChain) (first len : nat) : option nat :=
  match fuel with
  | O => None
  | S fuel =>
      if (len =? 0)%nat then Some first
      else
        let half := (len / 2)%nat in
        before ← comp (nth (first + half) c None);
        if (before : bool) then lower_bound fuel comp c (S (first + half)) (len - half - 1)
        else lower_bound fuel comp c first half
  end.

Definition FindEarliestAtLeast (h : heap) (c : vChain) (time : Z) : option ptr :=
  lower ← lower_bound (S (length c)) (fun p => b ← deref h p; Some (nTimeMax b <? time)) c 0 (length c);
  Some (if (lower =? length c)%nat then None else nth lower c None).

(** ** Equivalent time; [None] is the exception of the division by zero. *)
Definition GetBlockProofEquivalentTime (to from tip : CBlockIndex) (nPowTargetSpacing : Z) : option Z :=
  let '(r, sign) :=
    if 0 <? CompareTo (nChainWork to) (nChainWork from)
    then (sub (nChainWork to) (nChainWork from), 1)
    else (sub (nChainWork from) (nChainWork to), -1) in
  proof ← GetBlockProof (nBits tip);
  r ← div W256 (mul W256 r (of_u64 W256 nPowTargetSpacing)) proof;
  Some (if 63 <? bits W256 r then sign * (2 ^ 63 - 1) else i64 (u64 (u64 sign * GetLow64 r))).
