(* ===== verification/ChainCorrect.v ===== *)
(** * ChainCorrect: the skip list and the active chain

    The invariant [wf] of the heap of block index entries, the functional
    behaviour of GetAncestor on it, and the work of a block.

    The invariant [wf_node] of the block index, and its preservation by
    AddToBlockIndex: the entries, the hash map, the best header, the dirty set and
    the successors agree with each other. *)

From stdpp Require Import gmap.
From S2P Require Import Prelude Words Arith256 Arith256Correct Arith256Compact Chain.

(** ** Ancestors *)

(** [k] steps along [pprev]. *)
Fixpoint up (h : heap) (k : nat) (p : ptr) : ptr :=
  match k with
  | O => p
  | S k => match deref h p with Some b => up h k (pprev b) | None => None end
  end.

Lemma up_None h k : up h k None = None.
Proof. by destruct k. Qed.

Lemma up_add h j k p : up h (j + k) p = up h k (up h j p).
Proof.
  revert p. induction j as [|j IH]; intros p; [done|]. cbn [Nat.add up].
  destruct (deref h p); [apply IH|by rewrite up_None].
Qed.

(** The invariant of the heap: heights count the steps to the genesis block, skip
    pointers lead to the ancestor at [GetSkipHeight], and [nTimeMax] is the
    maximum along the chain. *)
Record wf_entry (h : heap) (a : nat) (b : CBlockIndex) : Prop := {
  wf_height : 0 <= nHeight b;
  wf_first : pprev b = None -> nHeight b = 0 /\ pskip b = None /\ nTimeMax b = nTime b;
  wf_prev : forall q, pprev b = Some q -> exists b', h !! q = Some b' /\ nHeight b = nHeight b' + 1 /\
              nTimeMax b = Z.max (nTimeMax b') (nTime b);
  wf_skip : forall q, pskip b = Some q -> up h (Z.to_nat (nHeight b - GetSkipHeight (nHeight b))) (Some a) = Some q }.

Definition wf (h : heap) : Prop := forall a b, h !! a = Some b -> wf_entry h a b.

(** ** Skip heights *)

Lemma InvertLowestOne_bounds n : 0 <= n -> 0 <= InvertLowestOne n /\ (0 < n -> InvertLowestOne n < n).
Proof.
  intros Hn. unfold InvertLowestOne. destruct (decide (n = 0)) as [->|]; [done|].
  assert (Hle : 0 <= Z.land n (n - 1)) by (apply Z.land_nonneg; lia).
  split; [done|]. intros _.
  assert (Z.land n (n - 1) <= n - 1); [|lia].
  apply Z.ldiff_le; [lia|]. apply Z.bits_inj'. intros i Hi.
  rewrite Z.ldiff_spec, Z.land_spec, Z.bits_0. btauto.
Qed.

Lemma GetSkipHeight_bounds n : 0 < n -> 0 <= GetSkipHeight n < n.
Proof.
  intros Hn. unfold GetSkipHeight. destruct (Z.ltb_spec n 2); [lia|].
  destruct (negb _).
  - pose proof (InvertLowestOne_bounds (n - 1) ltac:(lia)) as [H0 H1].
    pose proof (InvertLowestOne_bounds _ H0) as [H2 H3].
    destruct (decide (InvertLowestOne (n - 1) = 0)) as [E|E]; [rewrite E; change (InvertLowestOne 0) with 0; lia|lia].
  - pose proof (InvertLowestOne_bounds n). lia.
Qed.

Section heap.
Context (h : heap) (Hwf : wf h).

Lemma up_height k a b :
  h !! a = Some b -> Z.of_nat k <= nHeight b ->
  exists a' b', up h k (Some a) = Some a' /\ h !! a' = Some b' /\ nHeight b' = nHeight b - Z.of_nat k.
Proof.
  revert a b. induction k as [|k IH]; intros a b Ha Hk.
  - exists a, b. cbn. split; [done|]. split; [done|lia].
  - cbn [up]. change (deref h (Some a)) with (h !! a). rewrite Ha.
    destruct (pprev b) as [q|] eqn:Eq.
    + destruct (wf_prev _ _ _ (Hwf a b Ha) q Eq) as (b' & Hq & Hh & _).
      destruct (IH q b' Hq) as (a2 & b2 & Hu & Hl & Hh2); [lia|]. exists a2, b2. split; [done|]. split; [done|lia].
    + pose proof (wf_first _ _ _ (Hwf a b Ha) Eq). lia.
Qed.

(** ** GetAncestor *)

Lemma walk_spec fuel a b height :
  h !! a = Some b -> 0 <= height <= nHeight b -> (Z.to_nat (nHeight b - height) < fuel)%nat ->
  walk_loop fuel h (Some a) (nHeight b) height = Some (up h (Z.to_nat (nHeight b - height)) (Some a)).
Proof.
  revert a b. induction fuel as [|fuel IH]; intros a b Ha Hh Hf; [lia|].
  cbn [walk_loop]. destruct (Z.ltb_spec height (nHeight b)) as [Hlt|Hge].
  2:{ by replace (Z.to_nat (nHeight b - height)) with 0%nat by lia. }
  change (deref h (Some a)) with (h !! a). rewrite Ha. cbn [mbind option_bind].
  pose proof (GetSkipHeight_bounds (nHeight b) ltac:(lia)) as Hsk.
  set (skip := GetSkipHeight (nHeight b)) in *.
  destruct (bool_decide (pskip b <> None) && _) eqn:Ec.
  - apply andb_true_iff in Ec as [Es Ec]. apply bool_decide_eq_true in Es.
    destruct (pskip b) as [s|] eqn:Eps; [|done].
    pose proof (wf_skip _ _ _ (Hwf a b Ha) s Eps) as Hup. fold skip in Hup.
    destruct (up_height (Z.to_nat (nHeight b - skip)) a b Ha) as (s' & bs & Hu & Hs & Hhs); [lia|].
    assert (s' = s) as -> by congruence.
    assert (height <= skip).
    { apply orb_true_iff in Ec as [Ec|Ec]; [apply Z.eqb_eq in Ec; lia|]. apply andb_true_iff in Ec as [Ec _]. apply Z.ltb_lt in Ec. lia. }
    replace skip with (nHeight bs) by lia. rewrite (IH s bs Hs) by lia.
    rewrite <-Hu, <-up_add. do 2 f_equal. lia.
  - destruct (pprev b) as [q|] eqn:Eq.
    + destruct (wf_prev _ _ _ (Hwf a b Ha) q Eq) as (b' & Hq & Hh' & _).
      replace (nHeight b - 1) with (nHeight b') by lia. rewrite (IH q b' Hq) by lia.
      replace (Z.to_nat (nHeight b - height)) with (S (Z.to_nat (nHeight b' - height))) by lia.
      cbn [up]. change (deref h (Some a)) with (h !! a). by rewrite Ha, Eq.
    + pose proof (wf_first _ _ _ (Hwf a b Ha) Eq). lia.
Qed.

(** The ancestor of [a] at a height, null when there is none. *)
Definition ancestor (a : nat) (b : CBlockIndex) (height : Z) : ptr :=
  if (nHeight b <? height) || (height <? 0) then None else up h (Z.to_nat (nHeight b - height)) (Some a).

Lemma GetAncestor_spec a b height :
  h !! a = Some b -> GetAncestor h (Some a) height = Some (ancestor a b height).
Proof.
  intros Ha. unfold GetAncestor, ancestor. change (deref h (Some a)) with (h !! a). rewrite Ha.
  cbn [mbind option_bind]. destruct (Z.ltb_spec (nHeight b) height); [done|].
  destruct (Z.ltb_spec height 0); [done|]. cbn [orb]. apply walk_spec; [done|lia|lia].
Qed.

Lemma ancestor_in_heap a b height :
  h !! a = Some b -> 0 <= height <= nHeight b ->
  exists a' b', ancestor a b height = Some a' /\ h !! a' = Some b' /\ nHeight b' = height.
Proof.
  intros Ha Hh. unfold ancestor. destruct (Z.ltb_spec (nHeight b) height); [lia|]. destruct (Z.ltb_spec height 0); [lia|].
  destruct (up_height (Z.to_nat (nHeight b - height)) a b Ha) as (a' & b' & Hu & Hl & Hb); [lia|].
  exists a', b'. split; [done|]. split; [done|]. lia.
Qed.

(** An ancestor of an ancestor. *)
Lemma ancestor_trans a b a' b' x y :
  h !! a = Some b -> h !! a' = Some b' -> ancestor a b x = Some a' -> y <= x -> ancestor a' b' y = ancestor a b y.
Proof.
  intros Ha Ha' Hx Hy. unfold ancestor in *.
  destruct (Z.ltb_spec (nHeight b) x); [done|]. destruct (Z.ltb_spec x 0); [done|]. cbn [orb] in Hx.
  destruct (up_height (Z.to_nat (nHeight b - x)) a b Ha) as (a2 & b2 & Hu & Hl & Hb2); [lia|].
  assert (a2 = a') as -> by congruence. assert (b2 = b') as -> by congruence.
  destruct (Z.ltb_spec (nHeight b') y); [lia|]. destruct (Z.ltb_spec (nHeight b) y); [lia|].
  destruct (Z.ltb_spec y 0); [done|]. cbn [orb]. rewrite <-Hx, <-up_add. f_equal. lia.
Qed.

Lemma ancestor_self a b : h !! a = Some b -> ancestor a b (nHeight b) = Some a.
Proof.
  intros Ha. pose proof (wf_height _ _ _ (Hwf a b Ha)). unfold ancestor.
  destruct (Z.ltb_spec (nHeight b) (nHeight b)); [lia|]. destruct (Z.ltb_spec (nHeight b) 0); [lia|].
  by rewrite Z.sub_diag.
Qed.

Lemma ancestor_pprev a b : h !! a = Some b -> ancestor a b (nHeight b - 1) = pprev b.
Proof.
  intros Ha. pose proof (wf_height _ _ _ (Hwf a b Ha)). unfold ancestor.
  destruct (Z.ltb_spec (nHeight b) (nHeight b - 1)); [lia|]. destruct (Z.ltb_spec (nHeight b - 1) 0).
  - destruct (pprev b) as [q|] eqn:E; [|done]. destruct (wf_prev _ _ _ (Hwf a b Ha) q E) as (b' & Hq & Hb & _).
    pose proof (wf_height _ _ _ (Hwf q b' Hq)). lia.
  - replace (Z.to_nat (nHeight b - (nHeight b - 1))) with 1%nat by lia. cbn.
    change (deref h (Some a)) with (h !! a). by rewrite Ha.
Qed.
End heap.

(** ** The work of a block *)

(** The number of hashes expected for a target: 2^256 / (target + 1). *)
Definition block_work (bits : Z) : Z :=
  let x := scaled (bits / 2 ^ 24) (bits mod 2 ^ 23) in
  if (x =? 0) || Z.testbit bits 23 || (2 ^ 256 <=? x) then 0 else 2 ^ 256 / (x + 1).

Lemma scaled_below size m : 0 <= m < 2 ^ 23 -> scaled size m <> 2 ^ 256 - 1.
Proof.
  intros Hm. unfold scaled. destruct (Z.leb_spec size 3) as [Hs|Hs].
  - assert (m / 2 ^ (8 * (3 - size)) <= m) by (apply Z.div_le_upper_bound; [apply Z.pow_pos_nonneg; lia|]; pose proof (Z.pow_pos_nonneg 2 (8 * (3 - size)) ltac:(lia) ltac:(lia)); nia).
    lia.
  - intros E. replace (8 * (size - 3)) with (8 * (size - 4) + 8) in E by lia. rewrite Z.pow_add_r in E by lia.
    set (q := 2 ^ (8 * (size - 4))) in E. lia.
Qed.

Lemma scaled_nonneg size m : 0 <= m -> 0 <= scaled size m.
Proof.
  intros Hm. unfold scaled. destruct (Z.leb_spec size 3).
  - apply Z.div_pos; [done|]. apply Z.pow_pos_nonneg; lia.
  - apply Z.mul_nonneg_nonneg; [done|]. apply Z.pow_nonneg. lia.
Qed.

Lemma GetBlockProof_spec bits :
  word 32 bits -> exists w, GetBlockProof bits = Some w /\ ok W256 w /\ eval w = block_work bits.
Proof.
  intros Hb. unfold GetBlockProof, block_work.
  pose proof (SetCompact_spec bits Hb) as (v & -> & Hok & Hv).
  set (x := scaled _ _) in *. change (modulus W256) with (2 ^ 256) in *.
  pose proof (Z.mod_pos_bound bits (2 ^ 23) ltac:(lia)) as Hm.
  pose proof (scaled_nonneg (bits / 2 ^ 24) (bits mod 2 ^ 23) ltac:(lia)) as Hx0. fold x in Hx0.
  pose proof (scaled_below (bits / 2 ^ 24) (bits mod 2 ^ 23) Hm) as Hx1. fold x in Hx1. clearbody x.
  rewrite (EqualTo_spec 8 v 0 ltac:(lia) Hok ltac:(unfold word; lia)).
  destruct (Z.leb_spec (2 ^ 256) x) as [Ho|Ho].
  { rewrite !orb_true_r. cbn [orb]. exists (zero W256). by destruct (zero_ok 8). }
  rewrite Z.mod_small in Hv by lia. rewrite Hv.
  destruct (Z.eqb_spec x 0) as [H0|H0].
  { rewrite !orb_true_r. cbn [orb]. exists (zero W256). by destruct (zero_ok 8). }
  cbn [negb andb orb]. rewrite !orb_false_r. destruct (Z.testbit bits 23).
  { exists (zero W256). by destruct (zero_ok 8). }
  destruct (bit_not_spec 8 v Hok) as [Hn En]. pose proof (of_u64_spec 1 ltac:(unfold word; lia)) as Hone.
  destruct Hone as [H1 E1]. destruct (add_spec 8 v _ Hok H1) as [Ha Ea].
  change (modulus 8) with (2 ^ 256) in *. rewrite Hv, E1, Z.mod_small in Ea by lia.
  pose proof (div_spec 8 _ _ Hn Ha) as Hd. destruct (div 8 (bit_not v) (add v (of_u64 W256 1))) as [q|]; [|lia].
  destruct Hd as (_ & Hq & Eq). rewrite En, Ea, Hv in Eq.
  cbn [mbind option_bind]. destruct (add_spec 8 q _ Hq H1) as [Hs Es]. exists (add q (of_u64 W256 1)).
  split; [done|]. split; [done|]. rewrite Es, Eq, E1. change (modulus 8) with (2 ^ 256).
  replace (2 ^ 256 - 1 - x) with (2 ^ 256 + (-1) * (x + 1)) by lia. rewrite Z.div_add by lia.
  assert (2 ^ 256 / (x + 1) <= 2 ^ 255) by (apply Z.div_le_upper_bound; lia).
  assert (0 <= 2 ^ 256 / (x + 1)) by (apply Z.div_pos; lia).
  rewrite Z.mod_small; lia.
Qed.

(** The work of the chain that ends in [p]. *)
Definition work_of (h : heap) (p : ptr) : Z :=
  match deref h p with Some b => eval (nChainWork b) | None => 0 end.

(** [a] is an entry whose parent has the hash [x]. *)
Definition succeeds (h : heap) (x : list Z) (a : nat) : Prop :=
  exists b q prev, h !! a = Some b /\ pprev b = Some q /\ h !! q = Some prev /\ GetBlockHash prev = Some x.

(** What an entry says of itself and of its parent, beside [wf_entry]. *)
Record sound_entry (h : heap) (b : CBlockIndex) : Prop := {
  se_ok : ok W256 (nChainWork b);
  se_work : eval (nChainWork b) = (work_of h (pprev b) + block_work (nBits b)) mod 2 ^ 256;
  se_valid : IsValid b BLOCK_VALID_TREE = Some true }.

(** The invariant: the hash map and [phashBlock] are inverse to each other, the
    best header has the most work, and the multimap holds every entry with a
    parent once, under the hash of the parent. *)
Record wf_node (st : node) : Prop := {
  wn_heap : wf (heap_of st);
  wn_entry : forall a b, heap_of st !! a = Some b -> sound_entry (heap_of st) b;
  wn_hashed : forall a b, heap_of st !! a = Some b -> is_Some (GetBlockHash b);
  wn_map : forall x a, mapBlockIndex st !! x = Some a <-> exists b, heap_of st !! a = Some b /\ GetBlockHash b = Some x;
  wn_best : match pindexBestHeader st with
            | None => heap_of st = ∅
            | Some q => is_Some (heap_of st !! q) /\ forall a, is_Some (heap_of st !! a) -> work_of (heap_of st) (Some a) <= work_of (heap_of st) (Some q)
            end;
  wn_dirty : forall a, a ∈ setDirtyBlockIndex st -> is_Some (heap_of st !! a);
  wn_succ : forall x a, (x, a) ∈ mapPrevBlockIndex st <-> succeeds (heap_of st) x a;
  wn_succ_once : NoDup (mapPrevBlockIndex st) }.

(** ** Adding an entry at a fresh address *)

Lemma up_insert (h : heap) (Hwf : wf h) a b k q b' :
  h !! a = None -> h !! q = Some b' -> up (<[a := b]> h) k (Some q) = up h k (Some q).
Proof.
  intros Ha. revert q b'. induction k as [|k IH]; intros q b' Hq; [done|].
  assert (Hne : a <> q) by congruence.
  cbn [up]. unfold deref. cbn [mbind option_bind]. rewrite lookup_insert_ne, Hq by done.
  destruct (pprev b') as [r|] eqn:Er; [|by rewrite !up_None].
  destruct (wf_prev _ _ _ (Hwf q b' Hq) r Er) as (b2 & Hr & _). by apply (IH r b2).
Qed.

(** Adding one entry that is well formed. *)
Lemma wf_insert (h : heap) a b : wf h -> h !! a = None -> wf_entry (<[a := b]> h) a b -> wf (<[a := b]> h).
Proof.
  intros Hwf Ha Hb a' b' Hl. destruct (decide (a' = a)) as [->|Hne].
  - rewrite lookup_insert_eq in Hl. by injection Hl as <-.
  - rewrite lookup_insert_ne in Hl by done. destruct (Hwf a' b' Hl) as [H1 H2 H3 H4]. split; [done|done| |].
    + intros q Hq. destruct (H3 q Hq) as (b2 & Hb2 & ?). exists b2. split; [|done].
      rewrite lookup_insert_ne; [done|]. congruence.
    + intros q Hq. rewrite (up_insert h Hwf a b _ a' b' Ha Hl). by apply H4.
Qed.

(** The new entry under the parent [q]. *)
Lemma wf_entry_child (h : heap) a q prev b :
  wf h -> h !! a = None -> h !! q = Some prev ->
  pprev b = Some q -> nHeight b = nHeight prev + 1 -> nTimeMax b = Z.max (nTimeMax prev) (nTime b) ->
  pskip b = ancestor h q prev (GetSkipHeight (nHeight b)) -> wf_entry (<[a := b]> h) a b.
Proof.
  intros Hwf Ha Hq Hp Hh Ht Hs. pose proof (wf_height _ _ _ (Hwf q prev Hq)) as Hh0.
  assert (Hne : a <> q) by congruence. split; [lia|congruence| |].
  - intros q' Hq'. assert (q' = q) as -> by congruence. exists prev. rewrite lookup_insert_ne by done. done.
  - intros s Es. pose proof (GetSkipHeight_bounds (nHeight b) ltac:(lia)) as Hsk.
    rewrite Hs in Es. unfold ancestor in Es.
    destruct (Z.ltb_spec (nHeight prev) (GetSkipHeight (nHeight b))); [done|].
    destruct (Z.ltb_spec (GetSkipHeight (nHeight b)) 0); [done|]. cbn [orb] in Es.
    replace (Z.to_nat (nHeight b - GetSkipHeight (nHeight b))) with (S (Z.to_nat (nHeight prev - GetSkipHeight (nHeight b)))) by lia.
    cbn [up]. unfold deref. cbn [mbind option_bind]. rewrite lookup_insert_eq, Hp.
    by rewrite (up_insert h Hwf a b _ q prev Ha Hq).
Qed.

Lemma GetAncestor_insert (h : heap) a b q prev height :
  wf h -> h !! a = None -> h !! q = Some prev ->
  GetAncestor (<[a := b]> h) (Some q) height = Some (ancestor h q prev height).
Proof.
  intros Hwf Ha Hq. rewrite <-(GetAncestor_spec h Hwf q prev height Hq).
  assert (Hdom : forall p, p <> Some a -> deref (<[a := b]> h) p = deref h p).
  { intros [p|] Hp; [|done]. unfold deref. cbn [mbind option_bind]. rewrite lookup_insert_ne; [done|congruence]. }
  unfold GetAncestor. rewrite (Hdom (Some q)) by congruence. destruct (deref h (Some q)) as [x|] eqn:Ex; [|done].
  cbn [mbind option_bind]. destruct (_ || _); [done|].
  assert (Hw : forall fuel p hw, p <> Some a -> walk_loop fuel (<[a := b]> h) p hw height = walk_loop fuel h p hw height).
  { induction fuel as [|fuel IH]; intros p hw Hp; [done|]. cbn [walk_loop]. rewrite (Hdom p Hp).
    destruct (height <? hw); [|done]. destruct (deref h p) as [y|] eqn:Ey; [|done]. cbn [mbind option_bind].
    assert (Hin : forall r, pprev y = Some r \/ pskip y = Some r -> r <> a).
    { destruct p as [p|]; [|done]. assert (Hy : h !! p = Some y) by exact Ey. intros r [Hr|Hr] ->.
      - destruct (wf_prev _ _ _ (Hwf p y Hy) a Hr) as (? & ? & _). congruence.
      - pose proof (wf_skip _ _ _ (Hwf p y Hy) a Hr) as Hu. pose proof (wf_height _ _ _ (Hwf p y Hy)).
        destruct (decide (0 < nHeight y)) as [Hpos|].
        + pose proof (GetSkipHeight_bounds _ Hpos).
          destruct (up_height h Hwf (Z.to_nat (nHeight y - GetSkipHeight (nHeight y))) p y Hy) as (a' & b' & Hu' & Hl' & _); [lia|]. congruence.
        + destruct (pprev y) as [z|] eqn:Ez; [|by destruct (wf_first _ _ _ (Hwf p y Hy) Ez) as (_ & ? & _); congruence].
          destruct (wf_prev _ _ _ (Hwf p y Hy) z Ez) as (bz & Hz & ? & _). pose proof (wf_height _ _ _ (Hwf z bz Hz)). lia. }
    destruct (_ && _).
    - apply IH. intros E. by apply (Hin a); [right|].
    - apply IH. intros E. by apply (Hin a); [left|]. }
  apply Hw. congruence.
Qed.

Lemma deref_insert (h : heap) a b p : h !! a = None -> is_Some (deref h p) -> deref (<[a := b]> h) p = deref h p.
Proof.
  intros Ha [x Hx]. destruct p as [q|]; [|done]. unfold deref in *. cbn [mbind option_bind] in *.
  rewrite lookup_insert_ne; [done|congruence].
Qed.

Lemma wf_parent (h : heap) a b : wf h -> h !! a = Some b -> pprev b = None \/ is_Some (deref h (pprev b)).
Proof.
  intros Hwf Ha. destruct (pprev b) as [q|] eqn:Eq; [right|by left].
  destruct (wf_prev _ _ _ (Hwf a b Ha) q Eq) as (b' & Hb' & _). by exists b'.
Qed.

Lemma work_of_insert (h : heap) a b p : h !! a = None -> p = None \/ is_Some (deref h p) -> work_of (<[a := b]> h) p = work_of h p.
Proof. intros Ha [->|Hp]; [done|]. unfold work_of. by rewrite deref_insert. Qed.

Lemma work_of_new (h : heap) a b : work_of (<[a := b]> h) (Some a) = eval (nChainWork b).
Proof. unfold work_of, deref. cbn [mbind option_bind]. by rewrite lookup_insert_eq. Qed.

Lemma succeeds_insert (h : heap) a b x c :
  wf h -> h !! a = None -> pprev b = None \/ is_Some (deref h (pprev b)) ->
  succeeds (<[a := b]> h) x c <->
  succeeds h x c \/ (c = a /\ exists q prev, pprev b = Some q /\ h !! q = Some prev /\ GetBlockHash prev = Some x).
Proof.
  intros Hwf Ha Hb. split.
  - intros (b' & q & prev & Hc & Hp & Hq & Hx). destruct (decide (c = a)) as [->|Hne].
    + right. split; [done|]. rewrite lookup_insert_eq in Hc. injection Hc as <-. exists q, prev. split; [done|].
      destruct Hb as [Hb|[y Hy]]; [congruence|]. rewrite Hp in Hy. assert (Hqy : h !! q = Some y) by exact Hy.
      rewrite lookup_insert_ne in Hq by congruence. done.
    + left. rewrite lookup_insert_ne in Hc by done. destruct (wf_prev _ _ _ (Hwf c b' Hc) q Hp) as (y & Hy & _).
      exists b', q, prev. rewrite lookup_insert_ne in Hq by congruence. done.
  - intros [(b' & q & prev & Hc & Hp & Hq & Hx)|(-> & q & prev & Hp & Hq & Hx)].
    + exists b', q, prev. rewrite !lookup_insert_ne by congruence. done.
    + exists b, q, prev. rewrite lookup_insert_eq, lookup_insert_ne by congruence. done.
Qed.

Lemma NoDup_snoc {A} (l : list A) x : NoDup l -> x ∉ l -> NoDup (l ++ [x]).
Proof.
  intros Hl Hx. apply NoDup_app. split; [done|]. split; [|apply NoDup_singleton].
  intros y Hy ->%list_elem_of_singleton. done.
Qed.

(** ** The new entry *)

(** A fresh entry is raised to [BLOCK_VALID_TREE]. *)
Lemma RaiseValidity_new b : nStatus b = 0 -> RaiseValidity b BLOCK_VALID_TREE = Some (true, set_status b BLOCK_VALID_TREE).
Proof. intros E. unfold RaiseValidity. by rewrite E. Qed.

Record filled (st : node) (a : nat) (block : header) (b : CBlockIndex) : Prop := {
  fl_hash : GetBlockHash b = Some (hash block);
  fl_prev : pprev b = mapBlockIndex st !! hashPrevBlock block;
  fl_fields : nVersion b = hdrVersion block /\ nTime b = hdrTime block /\ nBits b = hdrBits block /\ nSequenceId b = 0;
  fl_wf : wf_entry (<[a := b]> (heap_of st)) a b;
  fl_sound : sound_entry (heap_of st) b }.

Section add.
Context (st : node) (a : nat) (block : header).
Context (Hst : wf_node st) (Ha : heap_of st !! a = None).
Abbreviation h := (heap_of st).

Lemma map_in_heap x q : mapBlockIndex st !! x = Some q -> exists b, h !! q = Some b /\ GetBlockHash b = Some x.
Proof. apply (wn_map _ Hst). Qed.

Lemma filled_parent b : filled st a block b -> pprev b = None \/ is_Some (deref h (pprev b)).
Proof.
  intros Hb. rewrite (fl_prev _ _ _ _ Hb). destruct (mapBlockIndex st !! _) as [q|] eqn:Eq; [right|by left].
  destruct (map_in_heap _ _ Eq) as (b' & Hb' & _). by exists b'.
Qed.

Lemma fill_index_spec : hash block <> hashPrevBlock block -> word 32 (hdrBits block) ->
  exists b, fill_index st (<[hash block := a]> (mapBlockIndex st)) a block = Some b /\ filled st a block b.
Proof.
  intros Hself Hbits. destruct (GetBlockProof_spec (hdrBits block) Hbits) as (w & Ew & Hw & Vw).
  pose proof (wn_heap _ Hst) as Hwf. unfold fill_index. rewrite lookup_insert_ne by done.
  destruct (mapBlockIndex st !! hashPrevBlock block) as [q|] eqn:Eq.
  - destruct (map_in_heap _ _ Eq) as (prev & Hq & _). rewrite lookup_insert_ne, Hq by congruence.
    cbn [mbind option_bind]. unfold BuildSkip. cbn [set_prev pprev nHeight].
    rewrite (GetAncestor_insert h a _ q prev) by done. cbn [mbind option_bind set_skip set_prev set_hash new_index nBits pprev].
    rewrite Ew. cbn [mbind option_bind]. rewrite lookup_insert_ne, Hq by congruence. cbn [mbind option_bind].
    destruct (wn_entry _ Hst q prev Hq) as [Hok _ _]. destruct (add_spec 8 (nChainWork prev) w Hok Hw) as [Ho Eo].
    rewrite RaiseValidity_new by done. eexists. split; [reflexivity|]. split; [done|done|done| |].
    + by apply (wf_entry_child h a q prev).
    + split; [done| |done]. unfold work_of, deref. cbn [mbind option_bind snd set_status set_totals set_skip set_prev nChainWork pprev nBits]. by rewrite Hq, Eo, Vw.
  - cbn [mbind option_bind set_hash new_index nBits pprev]. rewrite Ew. cbn [mbind option_bind].
    destruct (zero_ok 8) as [Hz Ez]. destruct (add_spec 8 (zero W256) w Hz Hw) as [Ho Eo].
    rewrite RaiseValidity_new by done. eexists. split; [reflexivity|]. split; [done|done|done| |].
    + split; cbn; done || lia.
    + split; [done| |done]. cbn [snd set_status set_totals nChainWork]. by rewrite Eo, Ez, Vw.
Qed.

(** ** The maps of the node *)

Lemma best_header b : filled st a block b ->
  exists q, (match pindexBestHeader st with
      | None => Some (Some a)
      | Some q => old ← <[a := b]> h !! q; Some (if CompareTo (nChainWork old) (nChainWork b) <? 0 then Some a else Some q)
      end) = Some (Some q) /\
    is_Some (<[a := b]> h !! q) /\
    forall c, is_Some (<[a := b]> h !! c) -> work_of (<[a := b]> h) (Some c) <= work_of (<[a := b]> h) (Some q).
Proof.
  intros Hb. pose proof (wn_best _ Hst) as Hbest. destruct (fl_sound _ _ _ _ Hb) as [Hok _ _].
  destruct (pindexBestHeader st) as [q|].
  - destruct Hbest as [[old Hq] Hmax]. rewrite lookup_insert_ne, Hq by congruence. cbn [mbind option_bind].
    destruct (wn_entry _ Hst q old Hq) as [Hoq _ _]. rewrite (CompareTo_spec 8 _ _ Hoq Hok).
    assert (Hold : forall c, is_Some (h !! c) -> work_of (<[a := b]> h) (Some c) <= eval (nChainWork old)).
    { intros c Hc. rewrite work_of_insert by auto. specialize (Hmax c Hc). unfold work_of at 2, deref in Hmax.
      cbn [mbind option_bind] in Hmax. by rewrite Hq in Hmax. }
    assert (Eq : work_of (<[a := b]> h) (Some q) = eval (nChainWork old)).
    { rewrite work_of_insert by (done || right; by exists old). unfold work_of, deref. cbn [mbind option_bind]. by rewrite Hq. }
    assert (Hall : forall c m, eval (nChainWork old) <= m -> eval (nChainWork b) <= m ->
              is_Some (<[a := b]> h !! c) -> work_of (<[a := b]> h) (Some c) <= m).
    { intros c m H1 H2 Hc. destruct (decide (c = a)) as [->|Hne]; [by rewrite work_of_new|].
      rewrite lookup_insert_ne in Hc by done. specialize (Hold c Hc). lia. }
    destruct (Z.compare_spec (eval (nChainWork old)) (eval (nChainWork b))); cbn [Z.ltb Z.compare];
      eexists; (split; [reflexivity|]); (split; [by rewrite ?lookup_insert_eq, ?lookup_insert_ne by congruence|]);
      intros c Hc; rewrite ?work_of_new, ?Eq; apply Hall; done || lia.
  - exists a. split; [done|]. rewrite lookup_insert_eq. split; [done|]. intros c Hc.
    destruct (decide (c = a)) as [->|Hne]; [lia|]. rewrite lookup_insert_ne, Hbest, lookup_empty in Hc by done. by destruct Hc.
Qed.

Lemma successors b : filled st a block b ->
  exists succ, (match pprev b with
      | Some q => prev ← <[a := b]> h !! q; x ← GetBlockHash prev; Some (mapPrevBlockIndex st ++ [(x, a)])
      | None => Some (mapPrevBlockIndex st)
      end) = Some succ /\
    (forall x c, (x, c) ∈ succ <-> succeeds (<[a := b]> h) x c) /\ NoDup succ.
Proof.
  intros Hb. pose proof (filled_parent b Hb) as Hpar. pose proof (wn_heap _ Hst) as Hwf.
  setoid_rewrite (succeeds_insert h a b _ _ Hwf Ha Hpar). setoid_rewrite <- (wn_succ _ Hst).
  destruct (pprev b) as [q|] eqn:Eq.
  - destruct Hpar as [|[prev Hq]]; [done|]. assert (Hq' : h !! q = Some prev) by exact Hq.
    rewrite lookup_insert_ne, Hq' by congruence. destruct (wn_hashed _ Hst q prev Hq') as [x Ex].
    cbn [mbind option_bind]. rewrite Ex. cbn [mbind option_bind]. eexists. split; [reflexivity|]. split.
    + intros y c. rewrite elem_of_app, list_elem_of_singleton. split.
      * intros [Hy|[= -> ->]]; [by left|right]. split; [done|]. by exists q, prev.
      * intros [Hy|(-> & q' & prev' & [= <-] & Hq2 & Hy)]; [by left|right]. congruence.
    + apply NoDup_snoc; [apply (wn_succ_once _ Hst)|].
      intros (b' & q' & prev' & Hab & _)%(wn_succ _ Hst). congruence.
  - eexists. split; [reflexivity|]. split; [|apply (wn_succ_once _ Hst)].
    intros x c. split; [by left|]. intros [Hx|(_ & q & prev & Hq & _)]; done.
Qed.

Lemma wf_node_insert b best succ : filled st a block b -> mapBlockIndex st !! hash block = None ->
  is_Some (<[a := b]> h !! best) ->
  (forall c, is_Some (<[a := b]> h !! c) -> work_of (<[a := b]> h) (Some c) <= work_of (<[a := b]> h) (Some best)) ->
  (forall x c, (x, c) ∈ succ <-> succeeds (<[a := b]> h) x c) -> NoDup succ ->
  wf_node (mk_node (<[a := b]> h) (<[hash block := a]> (mapBlockIndex st)) (Some best) ({[ a ]} ∪ setDirtyBlockIndex st) succ).
Proof.
  intros Hb Hnew Hin Hmax Hsucc Hdup. pose proof (wn_heap _ Hst) as Hwf.
  split; cbn [heap_of mapBlockIndex pindexBestHeader setDirtyBlockIndex mapPrevBlockIndex]; [| | | |done| |done|done].
  - apply wf_insert; [done|done|apply (fl_wf _ _ _ _ Hb)].
  - intros c b' [[<- <-]|[Hne Hc]]%lookup_insert_Some.
    + destruct (fl_sound _ _ _ _ Hb) as [H1 H2 H3]. split; [done| |done]. rewrite work_of_insert by auto using filled_parent. done.
    + destruct (wn_entry _ Hst c b' Hc) as [H1 H2 H3]. split; [done| |done]. rewrite work_of_insert by eauto using wf_parent. done.
  - intros c b' [[<- <-]|[Hne Hc]]%lookup_insert_Some; [rewrite (fl_hash _ _ _ _ Hb); by eexists|by apply (wn_hashed _ Hst c)].
  - intros x c. rewrite lookup_insert_Some, (wn_map _ Hst). setoid_rewrite lookup_insert_Some. split.
    + intros [[<- <-]|(Hne & b' & Hc & Hx)].
      * exists b. split; [by left|apply (fl_hash _ _ _ _ Hb)].
      * exists b'. split; [right|done]. split; [congruence|done].
    + intros (b' & [[<- <-]|[Hne Hc]] & Hx); [left|right].
      * rewrite (fl_hash _ _ _ _ Hb) in Hx. by injection Hx as <-.
      * split; [|by exists b']. intros <-.
        assert (mapBlockIndex st !! hash block = Some c) by (apply (wn_map _ Hst); by exists b'). congruence.
  - intros c [->%elem_of_singleton|Hc]%elem_of_union; [rewrite lookup_insert_eq; by eexists|].
    destruct (wn_dirty _ Hst c Hc) as [b' Hb']. rewrite lookup_insert_ne by congruence. by exists b'.
Qed.

(** What AddToBlockIndex does with a header that is not in the index. *)
Record added (st' : node) (b : CBlockIndex) : Prop := {
  ad_entry : filled st a block b;
  ad_heap : heap_of st' = <[a := b]> h;
  ad_map : mapBlockIndex st' = <[hash block := a]> (mapBlockIndex st);
  ad_dirty : setDirtyBlockIndex st' = {[ a ]} ∪ setDirtyBlockIndex st }.

Lemma AddToBlockIndex_spec : hash block <> hashPrevBlock block -> word 32 (hdrBits block) ->
  exists st' p, AddToBlockIndex st a block = Some (st', Some p) /\ wf_node st' /\
    match mapBlockIndex st !! hash block with
    | Some q => st' = st /\ p = q
    | None => p = a /\ exists b, added st' b
    end.
Proof.
  intros Hself Hbits. unfold AddToBlockIndex. destruct (mapBlockIndex st !! hash block) as [p|] eqn:Ep; [by exists st, p|].
  destruct (fill_index_spec Hself Hbits) as (b & Eb & Hb). rewrite Eb. cbn [mbind option_bind].
  destruct (best_header b Hb) as (q & Eq & Hin & Hmax). rewrite Eq. cbn [mbind option_bind].
  destruct (successors b Hb) as (succ & Es & Hsucc & Hdup). rewrite Es. cbn [mbind option_bind].
  eexists _, a. split; [reflexivity|]. split; [by apply wf_node_insert|]. split; [done|]. exists b. by split.
Qed.
End add.
