(* ===== verification/ChainActive.v ===== *)
(** * ChainActive: the active chain

    The operations of CChain against the ancestors of its tip.

    The remaining operations of chain.cpp and CChain, against their meaning on
    the chain of the ancestors of a tip. *)

From stdpp Require Import gmap.
From S2P Require Import Prelude Words Arith256 Arith256Correct Arith256Compact Chain ChainCorrect.

Lemma nth_replicate_same {A} (x : A) n i : nth i (replicate n x) x = x.
Proof. revert i. induction n as [|n IH]; intros [|i]; cbn; auto. Qed.

Section chain.
Context (h : heap) (Hwf : wf h).

(** [c] lists the ancestors of [tip], genesis first. *)
Definition is_chain (c : vChain) (tip : nat) (b : CBlockIndex) : Prop :=
  h !! tip = Some b /\ Z.of_nat (length c) = nHeight b + 1 /\
  forall i, 0 <= i <= nHeight b -> nth (Z.to_nat i) c None = ancestor h tip b i.

Definition chain_inv (c : vChain) : Prop := c = [] \/ exists tip b, is_chain c tip b.

Lemma at_height_ancestor c tip b i : is_chain c tip b -> at_height c i = ancestor h tip b i.
Proof.
  intros (Ht & Hl & Hc). unfold at_height. destruct (Z.ltb_spec i 0); cbn [orb].
  - unfold ancestor. destruct (Z.ltb_spec i 0); [by rewrite orb_true_r|lia].
  - destruct (Z.leb_spec (Z.of_nat (length c)) i); [|apply Hc; lia].
    unfold ancestor. destruct (Z.ltb_spec (nHeight b) i); [done|lia].
Qed.

(** Two entries with a common ancestor at height [k] agree below it. *)
Lemma ancestors_agree a b a' b' k i :
  h !! a = Some b -> h !! a' = Some b' -> ancestor h a b k = ancestor h a' b' k -> ancestor h a b k <> None -> i <= k ->
  ancestor h a b i = ancestor h a' b' i.
Proof.
  intros Ha Ha' Hk Hne Hi. destruct (ancestor h a b k) as [x|] eqn:Ex; [|done].
  assert (Hkb : 0 <= k <= nHeight b).
  { unfold ancestor in Ex. destruct (Z.ltb_spec (nHeight b) k); [done|]. destruct (Z.ltb_spec k 0); [done|lia]. }
  destruct (ancestor_in_heap h Hwf a b k Ha Hkb) as (x' & bx & Ex' & Hx & _).
  assert (x' = x) as -> by congruence.
  rewrite <-(ancestor_trans h Hwf a b x bx k i Ha Hx Ex Hi). symmetry in Hk.
  by rewrite <-(ancestor_trans h Hwf a' b' x bx k i Ha' Hx Hk Hi).
Qed.

(** ** SetTip *)

(** The loop when the entries above height [k] are set. *)
Lemma set_loop_spec fuel c0 c a b k :
  chain_inv c0 -> h !! a = Some b -> -1 <= k <= nHeight b -> (Z.to_nat (k + 1) < fuel)%nat ->
  Z.of_nat (length c) = nHeight b + 1 ->
  (forall i, 0 <= i <= nHeight b -> nth (Z.to_nat i) c None =
     if i <=? k then nth (Z.to_nat i) (resize_ptrs c0 (Z.to_nat (nHeight b + 1))) None else ancestor h a b i) ->
  exists c', set_loop fuel h c (ancestor h a b k) = Some c' /\ is_chain c' a b.
Proof.
  intros Hc0 Ha. revert c k. induction fuel as [|fuel IH]; intros c k Hk Hf Hl Hc; [lia|].
  destruct (decide (k = -1)) as [->|Hk1].
  { exists c. unfold ancestor at 1. destruct (Z.ltb_spec (nHeight b) (-1)); [lia|]. cbn. split; [done|].
    split; [done|]. split; [done|]. intros i Hi. rewrite Hc by lia. destruct (Z.leb_spec i (-1)); [lia|done]. }
  destruct (ancestor_in_heap h Hwf a b k Ha) as (p & bp & Ep & Hp & Hhp); [lia|].
  rewrite Ep. cbn [set_loop]. change (deref h (Some p)) with (h !! p). rewrite Hp. cbn [mbind option_bind]. rewrite Hhp.
  case_bool_decide as Ed.
  - exists c. split; [done|]. split; [done|]. split; [done|].
    intros i Hi. rewrite Hc by lia. destruct (Z.leb_spec i k) as [Hik|]; [|done].
    rewrite Hc in Ed by lia. destruct (Z.leb_spec k k); [|lia].
    assert (Hin : forall j, 0 <= j <= k -> nth (Z.to_nat j) (resize_ptrs c0 (Z.to_nat (nHeight b + 1))) None = at_height c0 j).
    { intros j Hj. unfold resize_ptrs, at_height. destruct (Z.ltb_spec j 0); [lia|]. cbn [orb].
      destruct (Z.leb_spec (Z.of_nat (length c0)) j).
      - rewrite app_nth2 by (rewrite length_take; lia). apply nth_replicate_same.
      - rewrite app_nth1 by (rewrite length_take; lia). rewrite !nth_lookup, lookup_take_lt by lia. done. }
    rewrite Hin in * by lia. destruct Hc0 as [->|(t & bt & Ht)]; [unfold at_height in Ed; by destruct (_ || _); destruct (Z.to_nat k)|].
    rewrite (at_height_ancestor _ _ _ k Ht) in Ed. rewrite (at_height_ancestor _ _ _ i Ht). destruct Ht as (Ht & _).
    apply (ancestors_agree t bt a b k i Ht Ha); [by rewrite Ed, Ep|by rewrite Ed|lia].
  - replace (pprev bp) with (ancestor h a b (k - 1)).
    2:{ rewrite <-(ancestor_trans h Hwf a b p bp k (k - 1) Ha Hp Ep ltac:(lia)). rewrite <-Hhp. by apply ancestor_pprev. }
    apply IH; [lia|lia|by rewrite length_insert|].
    intros i Hi. destruct (decide (i = k)) as [->|Hne].
    + destruct (Z.leb_spec k (k - 1)); [lia|]. rewrite Ep. apply nth_lookup_Some, list_lookup_insert_eq. lia.
    + rewrite nth_lookup, list_lookup_insert_ne, <-nth_lookup, Hc by lia.
      destruct (Z.leb_spec i k), (Z.leb_spec i (k - 1)); lia || done.
Qed.

Lemma SetTip_spec c a b :
  chain_inv c -> h !! a = Some b -> exists c', SetTip h c (Some a) = Some c' /\ is_chain c' a b.
Proof.
  intros Hc Ha. unfold SetTip. change (deref h (Some a)) with (h !! a). rewrite Ha. cbn [mbind option_bind].
  pose proof (wf_height _ _ _ (Hwf a b Ha)).
  pose proof (ancestor_self h Hwf a b Ha) as Hs. rewrite <-Hs.
  apply (set_loop_spec _ c); [done|done|lia|lia| |].
  - unfold resize_ptrs. rewrite length_app, length_take, length_replicate. lia.
  - intros i Hi. destruct (Z.leb_spec i (nHeight b)); [done|lia].
Qed.

(** ** FindFork *)

(** [f] is the highest entry of the chain [c] among the ancestors of [a]. *)
Definition is_fork (c : vChain) (a : nat) (b : CBlockIndex) (f : ptr) : Prop :=
  match f with
  | Some _ => exists k, ancestor h a b k = f /\ at_height c k = f /\
      forall j, k < j -> ancestor h a b j = None \/ ancestor h a b j <> at_height c j
  | None => forall j, ancestor h a b j = None \/ ancestor h a b j <> at_height c j
  end.

Lemma fork_loop_spec fuel c a b k :
  h !! a = Some b -> -1 <= k <= nHeight b -> (Z.to_nat (k + 1) < fuel)%nat ->
  (forall j, k < j -> ancestor h a b j = None \/ ancestor h a b j <> at_height c j) ->
  exists f, fork_loop fuel h c (ancestor h a b k) = Some f /\ is_fork c a b f.
Proof.
  intros Ha. revert k. induction fuel as [|fuel IH]; intros k Hk Hf Hj; [lia|].
  destruct (decide (k = -1)) as [->|Hk1].
  { exists None. unfold ancestor at 1. destruct (Z.ltb_spec (nHeight b) (-1)); [lia|]. cbn. split; [done|].
    intros j. destruct (decide (-1 < j)); [by apply Hj|left]. unfold ancestor.
    destruct (Z.ltb_spec j 0); [by rewrite orb_true_r|lia]. }
  destruct (ancestor_in_heap h Hwf a b k Ha) as (p & bp & Ep & Hp & Hhp); [lia|].
  rewrite Ep. cbn [fork_loop]. unfold Contains. change (deref h (Some p)) with (h !! p). rewrite Hp.
  cbn [mbind option_bind]. rewrite Hhp. case_bool_decide as Ed.
  - exists (Some p). split; [done|]. exists k. done.
  - replace (pprev bp) with (ancestor h a b (k - 1)).
    2:{ rewrite <-(ancestor_trans h Hwf a b p bp k (k - 1) Ha Hp Ep ltac:(lia)). rewrite <-Hhp. by apply ancestor_pprev. }
    apply IH; [lia|lia|]. intros j Hlt. destruct (decide (j = k)) as [->|]; [right; congruence|apply Hj; lia].
Qed.

Lemma FindFork_spec c a b :
  h !! a = Some b -> exists f, FindFork h c (Some a) = Some f /\ is_fork c a b f.
Proof.
  intros Ha. unfold FindFork. change (deref h (Some a)) with (h !! a). rewrite Ha. cbn [mbind option_bind].
  pose proof (wf_height _ _ _ (Hwf a b Ha)).
  assert (Habove : forall j, Height c < j -> ancestor h a b j = None \/ ancestor h a b j <> at_height c j).
  { intros j Hj. destruct (ancestor h a b j) eqn:E; [right|by left]. unfold at_height, Height in *.
    destruct (Z.leb_spec (Z.of_nat (length c)) j); [by rewrite orb_true_r|lia]. }
  destruct (Z.ltb_spec (Height c) (nHeight b)).
  - rewrite (GetAncestor_spec h Hwf a b) by done. cbn [mbind option_bind].
    apply fork_loop_spec; [done|unfold Height in *; lia|unfold Height in *; lia|done].
  - cbn [mbind option_bind]. rewrite <-(ancestor_self h Hwf a b Ha).
    apply fork_loop_spec; [done|lia|lia|]. intros j Hj. left. unfold ancestor.
    destruct (Z.ltb_spec (nHeight b) j); [done|lia].
Qed.

(** ** GetLocator *)

(** Strictly decreasing heights down to 0. *)
Fixpoint steps_down (k : Z) (hs : list Z) : Prop :=
  match hs with [] => k = 0 | x :: hs => 0 <= x < k /\ steps_down x hs end.

Lemma locator_loop_spec fuel c a b k nStep vHave :
  chain_inv c -> h !! a = Some b -> 0 <= k <= nHeight b -> (Z.to_nat k < fuel)%nat -> 1 <= nStep ->
  exists hs, locator_loop fuel h c (ancestor h a b k) nStep vHave = Some (vHave ++ map (ancestor h a b) (k :: hs)) /\ steps_down k hs.
Proof.
  intros Hc Ha. revert k nStep vHave. induction fuel as [|fuel IH]; intros k nStep vHave Hk Hf Hn; [lia|].
  destruct (ancestor_in_heap h Hwf a b k Ha Hk) as (p & bp & Ep & Hp & Hhp).
  rewrite Ep. cbn [locator_loop]. unfold Contains. change (deref h (Some p)) with (h !! p). rewrite Hp.
  cbn [mbind option_bind]. rewrite Hhp.
  destruct (Z.eqb_spec k 0) as [->|Hk0]; [exists []; cbn [map]; by rewrite Ep|].
  set (k' := Z.max (k - nStep) 0).
  assert (Hnext : (if bool_decide (at_height c k = Some p) then Some (at_height c k') else GetAncestor h (Some p) k') = Some (ancestor h a b k')).
  { case_bool_decide as Ed.
    - destruct Hc as [->|(t & bt & Ht)]; [unfold at_height in Ed; by destruct (_ || _); destruct (Z.to_nat k)|].
      rewrite (at_height_ancestor _ _ _ k Ht) in Ed. rewrite (at_height_ancestor _ _ _ k' Ht). destruct Ht as (Ht & _). f_equal.
      apply (ancestors_agree t bt a b k k' Ht Ha); [by rewrite Ed, Ep|by rewrite Ed|lia].
    - rewrite (GetAncestor_spec h Hwf p bp) by done. f_equal. apply (ancestor_trans h Hwf a b p bp k k' Ha Hp Ep). lia. }
  rewrite Hnext. cbn [mbind option_bind].
  destruct (IH k' (if (10 <? length (vHave ++ [Some p]))%nat then nStep * 2 else nStep) (vHave ++ [Some p])) as (hs & -> & Hs);
    [lia|lia|destruct (10 <? _)%nat; lia|].
  exists (k' :: hs). cbn [map]. rewrite Ep, <-app_assoc. split; [done|]. split; [lia|done].
Qed.

Lemma steps_down_bounds hs k : 0 <= k -> steps_down k hs -> Forall (fun x => 0 <= x <= k) (k :: hs).
Proof.
  revert k. induction hs as [|x hs IH]; intros k Hk Hs; constructor; [lia|done|lia|].
  destruct Hs as [Hx Hs]. specialize (IH x ltac:(lia) Hs). apply (Forall_impl _ _ _ IH). intros y Hy. cbn in Hy. lia.
Qed.

Lemma GetLocator_spec c a b :
  chain_inv c -> h !! a = Some b -> (forall p b', h !! p = Some b' -> is_Some (GetBlockHash b')) ->
  exists hs locator, GetLocator (S (Z.to_nat (nHeight b))) h c (Some a) = Some locator /\
    steps_down (nHeight b) hs /\ Forall2 (fun k x => hash_at h (ancestor h a b k) = Some x) (nHeight b :: hs) locator.
Proof.
  intros Hc Ha Hhash. pose proof (wf_height _ _ _ (Hwf a b Ha)) as Hh.
  destruct (locator_loop_spec (S (Z.to_nat (nHeight b))) c a b (nHeight b) 1 []) as (hs & E & Hs); [done|done|lia|lia|lia|].
  rewrite (ancestor_self h Hwf a b Ha) in E. exists hs. unfold GetLocator. rewrite E. cbn [mbind option_bind app].
  assert (Hall : Forall (fun p => is_Some (hash_at h p)) (map (ancestor h a b) (nHeight b :: hs))).
  { apply Forall_map, (Forall_impl _ _ _ (steps_down_bounds hs _ Hh Hs)). intros k Hk.
    destruct (ancestor_in_heap h Hwf a b k Ha Hk) as (p & b' & Ep & Hp & _). cbn. rewrite Ep. unfold hash_at, deref.
    cbn [mbind option_bind]. rewrite Hp. by apply (Hhash p). }
  apply mapM_is_Some in Hall as [locator El]. exists locator. split; [done|]. split; [done|].
  apply mapM_Some in El. by apply Forall2_fmap_l in El.
Qed.
End chain.

(** ** Bisection *)

Section bisection.
Context (comp : ptr -> option bool) (c : vChain) (f : nat -> bool).
Context (Hcomp : forall i, (i < length c)%nat -> comp (nth i c None) = Some (f i)).
Context (Hmono : forall i j, (i <= j < length c)%nat -> f j = true -> f i = true).

(** The position that bisection returns splits the range. *)
Definition splits (n : nat) : Prop :=
  (n <= length c)%nat /\ (forall i, (i < n)%nat -> f i = true) /\ (forall i, (n <= i < length c)%nat -> f i = false).

Lemma lower_bound_spec fuel first len :
  (len < fuel)%nat -> (first + len <= length c)%nat ->
  (forall i, (i < first)%nat -> f i = true) -> (forall i, (first + len <= i < length c)%nat -> f i = false) ->
  exists n, lower_bound fuel comp c first len = Some n /\ splits n.
Proof.
  revert first len. induction fuel as [|fuel IH]; intros first len Hf Hle Hlo Hhi; [lia|]. cbn [lower_bound].
  destruct (Nat.eqb_spec len 0) as [->|Hne].
  { exists first. split; [done|]. split; [lia|]. split; [done|]. intros i Hi. apply Hhi. lia. }
  assert (Hhalf : (len / 2 < len)%nat) by (apply Nat.div_lt; lia).
  rewrite Hcomp by lia. cbn [mbind option_bind]. destruct (f (first + len / 2)) eqn:Em.
  - apply IH; [lia|lia| |intros i Hi; apply Hhi; lia].
    intros i Hi. apply (Hmono i (first + len / 2)); [lia|done].
  - apply IH; [lia|lia|done|]. intros i Hi. destruct (f i) eqn:Ei; [|done].
    by rewrite (Hmono (first + len / 2) i) in Em by (done || lia).
Qed.
End bisection.

(** ** Search by time *)

Section queries.
Context (h : heap) (Hwf : wf h).

(** [e] is the first block of the chain with a time of at least [time]. *)
Definition is_earliest (c : vChain) (time : Z) (e : ptr) : Prop :=
  match e with
  | Some p => exists k b, at_height c k = Some p /\ h !! p = Some b /\ time <= nTime b /\
      forall j q b', j < k -> at_height c j = Some q -> h !! q = Some b' -> nTime b' < time
  | None => forall j q b', at_height c j = Some q -> h !! q = Some b' -> nTime b' < time
  end.

(** The entry of a chain at a height, and its parent. *)
Lemma chain_entry c tip bt i : is_chain h c tip bt -> (i < length c)%nat ->
  exists p b, nth i c None = Some p /\ h !! p = Some b /\ nHeight b = Z.of_nat i.
Proof.
  intros (Ht & Hl & Hc) Hi. destruct (ancestor_in_heap h Hwf tip bt (Z.of_nat i) Ht) as (p & b & Ep & Hp & Hh); [lia|].
  exists p, b. split; [|done]. rewrite <-Ep, <-Hc by lia. by rewrite Nat2Z.id.
Qed.

Lemma chain_parent c tip bt i p b : is_chain h c tip bt -> (S i < length c)%nat ->
  nth (S i) c None = Some p -> h !! p = Some b -> nth i c None = pprev b.
Proof.
  intros Hc Hi Ep Hp. destruct Hc as (Ht & Hl & Hc).
  destruct (ancestor_in_heap h Hwf tip bt (Z.of_nat (S i)) Ht) as (p' & b' & Ep' & Hp' & Hh); [lia|].
  assert (p' = p) as ->. { rewrite <-(Nat2Z.id (S i)), Hc in Ep by lia. congruence. }
  assert (b' = b) as -> by congruence. rewrite <-(Nat2Z.id i), Hc by lia.
  rewrite <-(ancestor_trans h Hwf tip bt p b _ (Z.of_nat i) Ht Hp Ep') by lia.
  replace (Z.of_nat i) with (nHeight b - 1) by lia. by apply ancestor_pprev.
Qed.

(** The time of the entry at an index, and the maximum up to it. *)
Definition entry_at (c : vChain) (i : nat) : option CBlockIndex := deref h (nth i c None).
Definition max_before (c : vChain) (time : Z) (i : nat) : bool :=
  match entry_at c i with Some b => nTimeMax b <? time | None => false end.

Lemma max_before_step c tip bt time i : is_chain h c tip bt -> (S i < length c)%nat ->
  exists b, entry_at c (S i) = Some b /\ max_before c time (S i) = max_before c time i && (nTime b <? time).
Proof.
  intros Hc Hi. destruct (chain_entry c tip bt (S i) Hc Hi) as (p & b & Ep & Hp & Hh).
  pose proof (chain_parent c tip bt i p b Hc Hi Ep Hp) as Epar. unfold max_before, entry_at. rewrite Ep, Epar.
  exists b. split; [exact Hp|]. destruct (pprev b) as [q|] eqn:Eq.
  - destruct (wf_prev _ _ _ (Hwf p b Hp) q Eq) as (b' & Hq & _ & Hmax).
    unfold deref. cbn [mbind option_bind]. rewrite Hp, Hq, Hmax.
    destruct (Z.ltb_spec (nTimeMax b') time), (Z.ltb_spec (nTime b) time), (Z.ltb_spec (Z.max (nTimeMax b') (nTime b)) time); done || lia.
  - pose proof (wf_first _ _ _ (Hwf p b Hp) Eq). lia.
Qed.

(** The maximum is below [time] exactly when every time up to it is. *)
Lemma max_before_all c tip bt time i : is_chain h c tip bt -> (i < length c)%nat ->
  max_before c time i = true <-> forall j b, (j <= i)%nat -> entry_at c j = Some b -> nTime b < time.
Proof.
  intros Hc. induction i as [|i IH]; intros Hi.
  - destruct (chain_entry c tip bt 0 Hc Hi) as (p & b & Ep & Hp & Hh). unfold max_before, entry_at. rewrite Ep.
    unfold deref. cbn [mbind option_bind]. rewrite Hp. assert (nTimeMax b = nTime b) as ->.
    { destruct (pprev b) as [q|] eqn:Eq; [|apply (wf_first _ _ _ (Hwf p b Hp) Eq)].
      destruct (wf_prev _ _ _ (Hwf p b Hp) q Eq) as (b' & Hq & ? & _). pose proof (wf_height _ _ _ (Hwf q b' Hq)). lia. }
    rewrite Z.ltb_lt. split.
    + intros Hlt j b' Hj E. replace j with 0%nat in E by lia. rewrite Ep in E. cbn [mbind option_bind] in E. congruence.
    + intros Hall. apply (Hall 0%nat); [lia|]. rewrite Ep. cbn [mbind option_bind]. done.
  - destruct (max_before_step c tip bt time i Hc Hi) as (b & Eb & ->). rewrite andb_true_iff, IH, Z.ltb_lt by lia. split.
    + intros [Hlow Hb] j b' Hj E. destruct (decide (j = S i)) as [->|]; [congruence|apply (Hlow j); [lia|done]].
    + intros Hall. split; [|by apply (Hall (S i))]. intros j b' Hj. apply Hall. lia.
Qed.

Lemma at_height_entry c k q b : at_height c k = Some q -> h !! q = Some b ->
  0 <= k < Z.of_nat (length c) /\ entry_at c (Z.to_nat k) = Some b.
Proof.
  unfold at_height, entry_at. destruct (Z.ltb_spec k 0); [done|]. destruct (Z.leb_spec (Z.of_nat (length c)) k); [done|].
  cbn [orb]. intros -> Hq. split; [lia|exact Hq].
Qed.

(** The search by [nTimeMax] finds the first block by [nTime]. *)
Lemma FindEarliestAtLeast_spec c tip bt time : is_chain h c tip bt ->
  exists e, FindEarliestAtLeast h c time = Some e /\ is_earliest c time e.
Proof.
  intros Hc. unfold FindEarliestAtLeast.
  destruct (lower_bound_spec (fun p => b ← deref h p; Some (nTimeMax b <? time)) c (max_before c time)) with (fuel := S (length c)) (first := 0%nat) (len := length c)
    as (n & En & Hn & Hlow & Hhigh); [| |lia|lia|lia|lia|].
  - intros i Hi. unfold max_before, entry_at. destruct (chain_entry c tip bt i Hc Hi) as (p & b & -> & Hp & _).
    unfold deref. cbn [mbind option_bind]. by rewrite Hp.
  - intros i j Hij. rewrite !(max_before_all c tip bt) by (done || lia). intros Hall k b Hk. apply Hall. lia.
  - cbn beta in En. rewrite En. cbn [mbind option_bind].
    assert (Hbefore : forall j q b, j < Z.of_nat n -> at_height c j = Some q -> h !! q = Some b -> nTime b < time).
    { intros j q b Hj Eq Hq. destruct (at_height_entry c j q b Eq Hq) as [Hj0 Ej].
      apply (proj1 (max_before_all c tip bt time (Z.to_nat j) Hc ltac:(lia)) (Hlow (Z.to_nat j) ltac:(lia)) (Z.to_nat j) b); done. }
    eexists. split; [reflexivity|]. destruct (Nat.eqb_spec n (length c)) as [->|Hne].
    + intros j q b Eq Hq. apply (Hbefore j q b); [|done|done]. destruct (at_height_entry c j q b Eq Hq). lia.
    + destruct (chain_entry c tip bt n Hc) as (p & b & Ep & Hp & _); [lia|]. rewrite Ep. exists (Z.of_nat n), b.
      assert (Eh : at_height c (Z.of_nat n) = Some p).
      { unfold at_height. destruct (Z.ltb_spec (Z.of_nat n) 0); [lia|]. destruct (Z.leb_spec (Z.of_nat (length c)) (Z.of_nat n)); [lia|].
        cbn [orb]. by rewrite Nat2Z.id. }
      split; [done|]. split; [done|]. split; [|done]. destruct (Z.leb_spec time (nTime b)) as [|Hlt]; [done|].
      assert (max_before c time n = true) as Ht; [|by rewrite Hhigh in Ht by lia].
      apply (max_before_all c tip bt time n Hc ltac:(lia)). intros j b' Hj Ej.
      destruct (decide (j = n)) as [->|]; [unfold entry_at in Ej; rewrite Ep in Ej; cbn in Ej; congruence|].
      apply (proj1 (max_before_all c tip bt time j Hc ltac:(lia)) (Hlow j ltac:(lia)) j b'); done.
Qed.

(** ** Comparison of chains *)

Lemma chain_eq_spec c1 t1 b1 c2 t2 b2 : is_chain h c1 t1 b1 -> is_chain h c2 t2 b2 ->
  chain_eq c1 c2 = Some (bool_decide (c1 = c2)).
Proof.
  intros H1 H2. assert (Hlast : forall c t b, is_chain h c t b -> nth (length c - 1) c None = Some t /\ (0 < length c)%nat).
  { intros c t b (Ht & Hl & Hc). pose proof (wf_height _ _ _ (Hwf t b Ht)). split; [|lia].
    replace (length c - 1)%nat with (Z.to_nat (nHeight b)) by lia. rewrite Hc by lia. by apply ancestor_self. }
  destruct (Hlast _ _ _ H1) as [E1 L1], (Hlast _ _ _ H2) as [E2 L2]. unfold chain_eq. rewrite E1, E2.
  destruct (Nat.eqb_spec (length c1) (length c2)) as [El|El].
  2:{ rewrite bool_decide_false; [done|]. by intros ->. }
  destruct (Nat.eqb_spec (length c1) 0); [lia|]. f_equal. apply bool_decide_ext. split; [|intros ->; congruence].
  intros [= ->]. destruct H1 as (Ht & Hl1 & Hc1), H2 as (Ht' & Hl2 & Hc2). assert (b1 = b2) as -> by congruence.
  apply (nth_ext _ _ None None El). intros i Hi. rewrite <-(Nat2Z.id i), Hc1, Hc2 by lia. done.
Qed.
End queries.

(** ** Equivalent time *)

(** The product of an [int] sign and a [uint64_t], converted to [int64_t]. *)
Lemma i64_signed_product sg x : sg = 1 \/ sg = -1 -> 0 <= x < 2 ^ 63 -> i64 (u64 (u64 sg * x)) = sg * x.
Proof.
  intros Hsg Hx. unfold i64, u64, wrap. rewrite Z.mul_mod_idemp_l, Z.mod_mod by lia. destruct Hsg as [-> | ->].
  - rewrite Z.mod_small by lia. destruct (Z.ltb_spec (1 * x) (2 ^ 63)); lia.
  - destruct (decide (x = 0)) as [->|Hx0]; [done|]. replace (-1 * x) with ((2 ^ 64 - x) + (-1) * 2 ^ 64) by lia.
    rewrite Z.mod_add, Z.mod_small by lia. destruct (Z.ltb_spec (2 ^ 64 - x) (2 ^ 63)); lia.
Qed.

(** The quotient rounds towards zero and saturates; it is undefined exactly when
    the target of the tip is not a valid one. *)
Lemma GetBlockProofEquivalentTime_spec to from tip spacing :
  ok W256 (nChainWork to) -> ok W256 (nChainWork from) -> word 32 (nBits tip) -> word 64 spacing ->
  let d := eval (nChainWork to) - eval (nChainWork from) in
  GetBlockProofEquivalentTime to from tip spacing
  = if block_work (nBits tip) =? 0 then None
    else Some ((if 0 <? d then 1 else -1) * Z.min (((Z.abs d * spacing) mod 2 ^ 256) / block_work (nBits tip)) (2 ^ 63 - 1)).
Proof.
  intros Ht Hf Hb Hs d. unfold GetBlockProofEquivalentTime.
  pose proof (ok_bounds 8 _ Ht) as Bt. pose proof (ok_bounds 8 _ Hf) as Bf. change (modulus 8) with (2 ^ 256) in Bt, Bf.
  rewrite (CompareTo_spec 8 _ _ Ht Hf).
  assert (Hr : exists r, (if 0 <? match eval (nChainWork to) ?= eval (nChainWork from) with Lt => -1 | Eq => 0 | Gt => 1 end
      then (sub (nChainWork to) (nChainWork from), 1) else (sub (nChainWork from) (nChainWork to), -1))
      = (r, if 0 <? d then 1 else -1) /\ ok W256 r /\ eval r = Z.abs d).
  { destruct (sub_spec 8 _ _ Ht Hf) as [O1 E1], (sub_spec 8 _ _ Hf Ht) as [O2 E2]. change (modulus 8) with (2 ^ 256) in E1, E2.
    destruct (Z.ltb_spec 0 d) as [Hd|Hd].
    - rewrite (proj2 (Z.compare_gt_iff _ _)) by lia. eexists. split; [reflexivity|]. split; [done|]. rewrite E1, Z.mod_small; lia.
    - exists (sub (nChainWork from) (nChainWork to)). split; [destruct (Z.compare_spec (eval (nChainWork to)) (eval (nChainWork from))); done || lia|].
      split; [done|]. rewrite E2, Z.mod_small; lia. }
  destruct Hr as (r & -> & Or & Er). destruct (GetBlockProof_spec _ Hb) as (w & -> & Ow & Ew). cbn [mbind option_bind].
  destruct (of_u64_spec spacing Hs) as [Os Es]. destruct (mul_spec 8 r _ Or Os) as [Om Em]. rewrite Er, Es in Em.
  change (modulus 8) with (2 ^ 256) in Em.
  pose proof (div_spec 8 _ w Om Ow) as Hd. rewrite Em, Ew in Hd. set (x := (Z.abs d * spacing) mod 2 ^ 256) in *.
  destruct (div 8 (mul 8 r (of_u64 W256 spacing)) w) as [q|]; cbn [mbind option_bind].
  2:{ by rewrite Hd. }
  destruct Hd as (Hw0 & Oq & Eqv). destruct (Z.eqb_spec (block_work (nBits tip)) 0); [done|]. f_equal.
  rewrite <-Eqv. set (sg := if 0 <? d then 1 else -1). assert (Hsg : sg = 1 \/ sg = -1) by (unfold sg; destruct (0 <? d); lia).
  destruct (bits_spec 8 q Oq) as ([B1 B2] & B3 & B4). pose proof (ok_bounds 8 q Oq) as Bq. change (bits W256 q) with (bits 8 q).
  destruct (Z.ltb_spec 63 (bits 8 q)) as [Hbig|Hsmall].
  - pose proof (Z.pow_le_mono_r 2 63 (bits 8 q - 1)). rewrite Z.min_r by lia. done.
  - pose proof (Z.pow_le_mono_r 2 (bits 8 q) 63). rewrite Z.min_l by lia. rewrite (GetLow64_spec q Oq), Z.mod_small by lia.
    apply i64_signed_product; [done|lia].
Qed.
