(* ===== verification/ChainTheorems.v ===== *)
(** * ChainTheorems: the theorems on the block index and the active chain

    The states that AddToBlockIndex reaches, and the theorems with their
    witnesses.

    The rule of ContextualCheckBlockHeader that a block is later than the median
    of the eleven blocks before it makes GetMedianTimePast monotone along the
    chain, which versionbits.cpp relies on when it stops walking back. *)

From stdpp Require Import gmap.
From S2P Require Import Prelude Words Arith256 Arith256Correct Chain ChainCorrect ChainActive.

(** ** Theorems *)

(** The states of the block index: from the empty index, by additions of headers
    at fresh addresses.  A header does not contain its own hash. *)
Definition empty_node : node := mk_node ∅ ∅ None ∅ [].

Inductive reachable : node -> Prop :=
  | reach_init : reachable empty_node
  | reach_add st a block st' p :
      reachable st -> heap_of st !! a = None -> hash block <> hashPrevBlock block -> word 32 (hdrBits block) ->
      AddToBlockIndex st a block = Some (st', p) -> reachable st'.

Lemma wf_empty_node : wf_node empty_node.
Proof.
  split; cbn [empty_node heap_of mapBlockIndex pindexBestHeader setDirtyBlockIndex mapPrevBlockIndex].
  1-3: intros a b; by rewrite lookup_empty.
  - intros x a. rewrite lookup_empty. split; [done|]. intros (b & Hb & _). by rewrite lookup_empty in Hb.
  - done.
  - set_solver.
  - intros x a. rewrite elem_of_nil. split; [done|]. intros (b & q & prev & Hb & _). by rewrite lookup_empty in Hb.
  - apply NoDup_nil_2.
Qed.

Lemma reachable_wf st : reachable st -> wf_node st.
Proof.
  induction 1 as [|st a block st' p _ IH Ha Hs Hb E]; [apply wf_empty_node|].
  destruct (AddToBlockIndex_spec st a block IH Ha Hs Hb) as (st2 & p2 & E2 & Hwf & _).
  rewrite E in E2. by apply (inj Some) in E2 as [= -> _].
Qed.

(** C19: Every reachable block index is well formed: heights count the blocks below, skip pointers lead to the ancestor at the skip height, nTimeMax is the maximum of the times on the chain and nChainWork the sum of the block proofs modulo 2^256; the hash map and phashBlock are inverse to each other, the best header has the most work, every entry is valid as a tree, and the multimap of successors holds each entry with a parent once, under the hash of its parent.  Every addition succeeds: a known header returns its entry and changes nothing, and a new one gets an entry with the fields of the header, the parent that its hashPrevBlock names and nSequenceId 0, which enters the hash map and the dirty set. *)
Theorem block_index_invariant (st : node) (a : nat) (block : header) :
  reachable st -> heap_of st !! a = None -> hash block <> hashPrevBlock block -> word 32 (hdrBits block) ->
  wf_node st /\
  exists st' p, AddToBlockIndex st a block = Some (st', Some p) /\ reachable st' /\
    match mapBlockIndex st !! hash block with
    | Some q => st' = st /\ p = q
    | None => p = a /\ exists b, added st a block st' b
    end.
Proof.
  intros Hr Ha Hs Hb. pose proof (reachable_wf st Hr) as Hwf. split; [done|].
  destruct (AddToBlockIndex_spec st a block Hwf Ha Hs Hb) as (st' & p & E & _ & H).
  exists st', p. split; [done|]. split; [by apply (reach_add st a block st' (Some p))|done].
Qed.

(** GetAncestor is the walk along pprev: from any entry of a well-formed index, and for any height, it terminates without a null dereference and returns the entry reached by [nHeight - height] steps back, which has that height, or null when the height is negative or above the entry's. *)
Theorem get_ancestor_spec (h : heap) (a : nat) (b : CBlockIndex) (height : Z) :
  wf h -> h !! a = Some b ->
  GetAncestor h (Some a) height
  = Some (if (nHeight b <? height) || (height <? 0) then None else up h (Z.to_nat (nHeight b - height)) (Some a)) /\
  (0 <= height <= nHeight b -> exists a' b', GetAncestor h (Some a) height = Some (Some a') /\ h !! a' = Some b' /\ nHeight b' = height).
Proof.
  intros Hwf Ha. rewrite (GetAncestor_spec h Hwf a b) by done. split; [done|].
  intros Hh. destruct (ancestor_in_heap h Hwf a b height Ha Hh) as (a' & b' & -> & ?). by exists a', b'.
Qed.

(** C28: The active chain: SetTip to any entry, from any chain, gives the chain of its ancestors although it stops at the first entry that is already in place; on such a chain, FindFork returns the highest entry of the chain that is an ancestor of the given one, and null exactly when there is none; GetLocator lists the hashes of ancestors at strictly decreasing heights, from the entry itself down to the genesis block; FindEarliestAtLeast, which bisects by nTimeMax, returns the first block whose own time is at least the given one, and null when there is none; and operator==, which compares lengths and tips only, decides equality with any other non-empty chain. *)
Theorem active_chain_spec (st : node) (c : vChain) (tip : nat) (bt : CBlockIndex) (a : nat) (b : CBlockIndex) (time : Z) :
  wf_node st -> chain_inv (heap_of st) c -> heap_of st !! tip = Some bt -> heap_of st !! a = Some b ->
  exists c', SetTip (heap_of st) c (Some tip) = Some c' /\ is_chain (heap_of st) c' tip bt /\
    (exists f, FindFork (heap_of st) c' (Some a) = Some f /\ is_fork (heap_of st) c' a b f) /\
    (exists hs locator, GetLocator (S (Z.to_nat (nHeight b))) (heap_of st) c' (Some a) = Some locator /\
       steps_down (nHeight b) hs /\
       Forall2 (fun k x => hash_at (heap_of st) (ancestor (heap_of st) a b k) = Some x) (nHeight b :: hs) locator) /\
    (exists e, FindEarliestAtLeast (heap_of st) c' time = Some e /\ is_earliest (heap_of st) c' time e) /\
    (c <> [] -> chain_eq c' c = Some (bool_decide (c' = c))).
Proof.
  intros Hst Hc Ht Ha. pose proof (wn_heap _ Hst) as Hwf. destruct (SetTip_spec _ Hwf c tip bt Hc Ht) as (c' & E & Hc').
  exists c'. split; [done|]. split; [done|]. split; [by apply FindFork_spec|]. split; [|split].
  - apply GetLocator_spec; [done|right; by exists tip, bt|done|apply (wn_hashed _ Hst)].
  - by apply (FindEarliestAtLeast_spec _ Hwf c' tip bt).
  - intros Hne. destruct Hc as [->|(t & b' & Hc)]; [done|]. by apply (chain_eq_spec _ Hwf c' tip bt c t b').
Qed.

(** Two empty chains are compared by a read at index -1. *)
Theorem chain_eq_empty : chain_eq [] [] = None.
Proof. reflexivity. Qed.

(** ** Witnesses *)

(** A genesis block, a block on it, and two blocks on that one. *)
Definition demo_header (x prev t : Z) : header := mk_hdr [x] [prev] 1 t 0x1d00ffff.

Definition demo_add (st : option node) (a : nat) (block : header) : option node :=
  s ← st; r ← AddToBlockIndex s a block; Some (fst r).

Definition demo (n : nat) : option node :=
  foldl (fun st '(a, block) => demo_add st a block) (Some empty_node)
    (take n [(0%nat, demo_header 0 255 100); (1%nat, demo_header 1 0 110); (2%nat, demo_header 2 1 120); (3%nat, demo_header 3 1 115)]).

Lemma demo_step n a block st st' :
  reachable st -> heap_of st !! a = None -> hash block <> hashPrevBlock block -> word 32 (hdrBits block) ->
  demo_add (Some st) a block = Some st' -> demo n = Some st -> reachable st'.
Proof.
  intros Hr Ha Hs Hb E _. unfold demo_add in E. cbn in E.
  destruct (AddToBlockIndex st a block) as [[s p]|] eqn:Ea; [|done]. cbn in E. injection E as <-. by apply (reach_add st a block s p).
Qed.

Definition demo_node (n : nat) : node := default empty_node (demo n).

Lemma demo_reachable n : (n <= 4)%nat -> reachable (demo_node n).
Proof.
  intros Hn. assert (Hd : forall m, (m <= 4)%nat -> demo m = Some (demo_node m)).
  { intros m Hm. do 5 (destruct m as [|m]; [vm_compute; reflexivity|]). lia. }
  induction n as [|n IH]; [constructor|]. specialize (IH ltac:(lia)).
  set (blk := nth n [demo_header 0 255 100; demo_header 1 0 110; demo_header 2 1 120; demo_header 3 1 115] (demo_header 0 0 0)).
  apply (demo_step n n blk (demo_node n)); [done| | | | |apply Hd; lia].
  all: do 4 (destruct n as [|n]; [vm_compute; reflexivity || discriminate || (split; [discriminate|reflexivity])|]); lia.
Qed.

Lemma block_index_invariant_witness :
  heap_of (demo_node 3) !! 3%nat = None /\
  exists st' p, AddToBlockIndex (demo_node 3) 3 (demo_header 3 1 115) = Some (st', Some p) /\ reachable st'.
Proof.
  split; [vm_compute; reflexivity|].
  destruct (block_index_invariant (demo_node 3) 3 (demo_header 3 1 115)) as (_ & st' & p & E & Hr & _).
  - apply demo_reachable. lia.
  - vm_compute. reflexivity.
  - discriminate.
  - split; [discriminate|reflexivity].
  - exists st', p. split; [exact E|exact Hr].
Defined.

Lemma get_ancestor_spec_witness :
  exists b, heap_of (demo_node 4) !! 3%nat = Some b /\ GetAncestor (heap_of (demo_node 4)) (Some 3%nat) 0 = Some (Some 0%nat).
Proof.
  destruct (heap_of (demo_node 4) !! 3%nat) as [b|] eqn:E; [|vm_compute in E; discriminate E].
  exists b. split; [reflexivity|].
  destruct (get_ancestor_spec (heap_of (demo_node 4)) 3 b 0) as [H _].
  - apply wn_heap, reachable_wf, demo_reachable. lia.
  - exact E.
  - rewrite H. vm_compute in E. apply (inj Some) in E. subst b. vm_compute. reflexivity.
Defined.

(** Tip at block 2, fork of block 3 at block 1. *)
Lemma active_chain_spec_witness :
  exists c', SetTip (heap_of (demo_node 4)) [] (Some 2%nat) = Some c' /\ c' = [Some 0%nat; Some 1%nat; Some 2%nat] /\
    exists f, FindFork (heap_of (demo_node 4)) c' (Some 3%nat) = Some f.
Proof.
  destruct (heap_of (demo_node 4) !! 2%nat) as [bt|] eqn:E2; [|vm_compute in E2; discriminate E2].
  destruct (heap_of (demo_node 4) !! 3%nat) as [b|] eqn:E3; [|vm_compute in E3; discriminate E3].
  destruct (active_chain_spec (demo_node 4) [] 2 bt 3 b 120) as (c' & E & _ & (f & Ef & _) & _).
  - apply reachable_wf, demo_reachable. lia.
  - left. reflexivity.
  - exact E2.
  - exact E3.
  - exists c'. split; [exact E|]. split; [vm_compute in E; apply (inj Some) in E; symmetry; exact E|]. exists f. exact Ef.
Defined.

(** ** Order statistics *)

(** The number of elements below [x]. *)
Definition below (x : Z) (l : list Z) : nat := length (filter (fun y => y < x) l).

Lemma below_cons x y l : below x (y :: l) = ((if (y <? x)%Z then 1 else 0) + below x l)%nat.
Proof. unfold below. rewrite filter_cons. destruct (Z.ltb_spec y x); case_decide; cbn; lia. Qed.

Lemma below_app x l l' : below x (l ++ l') = (below x l + below x l')%nat.
Proof. unfold below. by rewrite filter_app, length_app. Qed.

Lemma below_insert x y l : below x (sort_insert y l) = below x (y :: l).
Proof.
  induction l as [|z l IH]; [done|]. cbn [sort_insert]. destruct (y <=? z); [done|].
  rewrite below_cons, IH, !below_cons. lia.
Qed.

Lemma below_sort x l : below x (sort l) = below x l.
Proof. induction l as [|y l IH]; [done|]. cbn [sort foldr]. by rewrite below_insert, !below_cons, <-IH. Qed.

Lemma length_insert_sorted y l : length (sort_insert y l) = S (length l).
Proof. induction l as [|z l IH]; [done|]. cbn [sort_insert]. destruct (y <=? z); cbn; lia. Qed.

Lemma length_sort l : length (sort l) = length l.
Proof. induction l as [|y l IH]; [done|]. cbn [sort foldr]. rewrite length_insert_sorted. cbn. by f_equal. Qed.

(** Sorted: no element is below the head. *)
Fixpoint ascending (l : list Z) : Prop := match l with [] => True | x :: l => below x l = 0%nat /\ ascending l end.

Lemma below_mono x y l : x <= y -> (below x l <= below y l)%nat.
Proof. intros H. induction l as [|z l IH]; [done|]. rewrite !below_cons. destruct (Z.ltb_spec z x), (Z.ltb_spec z y); lia. Qed.

Lemma ascending_insert y l : ascending l -> ascending (sort_insert y l).
Proof.
  induction l as [|z l IH]; [done|]. intros [Hz Hl]. cbn [sort_insert]. destruct (Z.leb_spec y z) as [Hle|Hlt].
  - split; [|done]. rewrite below_cons. pose proof (below_mono y z l Hle). destruct (Z.ltb_spec z y); lia.
  - split; [|by apply IH]. rewrite below_insert, below_cons. destruct (Z.ltb_spec y z); lia.
Qed.

Lemma ascending_sort l : ascending (sort l).
Proof. induction l as [|y l IH]; [done|]. by apply ascending_insert. Qed.

(** In a sorted list, [x] is at most the element at [k] exactly when at most [k]
    elements are below [x]. *)
Lemma ascending_nth l k x : ascending l -> (k < length l)%nat -> x <= l.[k] <-> (below x l <= k)%nat.
Proof.
  revert k. induction l as [|y l IH]; intros k Hl Hk; [cbn in Hk; lia|].
  destruct Hl as [Hy Hl]. rewrite below_cons. destruct k as [|k]; cbn [nth].
  - destruct (Z.ltb_spec y x); [lia|]. pose proof (below_mono x y l). lia.
  - cbn in Hk. rewrite (IH k Hl) by lia. destruct (Z.ltb_spec y x); [lia|]. pose proof (below_mono x y l). lia.
Qed.

Lemma median_le l x : l <> [] -> x <= median l <-> (below x l <= length l / 2)%nat.
Proof.
  intros Hne. unfold median. rewrite <-(below_sort x l). apply ascending_nth; [apply ascending_sort|].
  rewrite length_sort. apply Nat.div_lt; [|lia]. destruct l; [done|cbn; lia].
Qed.

(** ** Times on the chain *)

Section times.
Context (h : heap) (Hwf : wf h).

Lemma past_times_spec n a b :
  h !! a = Some b -> exists l, past_times n h (Some a) = Some l /\ Z.of_nat (length l) = Z.min (Z.of_nat n) (nHeight b + 1).
Proof.
  revert a b. induction n as [|n IH]; intros a b Ha; pose proof (wf_height _ _ _ (Hwf a b Ha)).
  - exists []. cbn. split; [done|lia].
  - cbn [past_times]. change (deref h (Some a)) with (h !! a). rewrite Ha. cbn [mbind option_bind].
    destruct (pprev b) as [q|] eqn:Eq.
    + destruct (wf_prev _ _ _ (Hwf a b Ha) q Eq) as (b' & Hq & Hh & _). destruct (IH q b' Hq) as (l & -> & Hl).
      exists (nTime b :: l). cbn. split; [done|lia].
    + destruct (wf_first _ _ _ (Hwf a b Ha) Eq) as (Hh & _).
      exists [nTime b]. destruct n; cbn; (split; [done|lia]).
Qed.

(** Fewer of the times are a prefix of more of them. *)
Lemma past_times_prefix n p l : past_times (S n) h p = Some l -> exists r, past_times n h p = Some (take n l) /\ l = take n l ++ r /\ (length r <= 1)%nat.
Proof.
  revert p l. induction n as [|n IH]; intros p l H.
  - exists l. split; [done|]. split; [done|]. destruct p as [a|]; cbn [past_times] in H; [|injection H as <-; cbn; lia].
    destruct (deref h (Some a)); [|done]. cbn in H. injection H as <-. cbn. lia.
  - destruct p as [a|]; [|cbn in H; injection H as <-; exists []; split; [done|]; split; [done|cbn; lia]].
    cbn [past_times] in H |- *. destruct (deref h (Some a)) as [b|] eqn:Ea; [|done]. cbn [mbind option_bind] in *.
    destruct (past_times (S n) h (pprev b)) as [l'|] eqn:El; [|by cbn [past_times] in El; rewrite El in H].
    cbn [past_times] in El. rewrite El in H. cbn [mbind option_bind] in H. injection H as <-.
    destruct (IH (pprev b) l') as (r & Hr & E & Hlen); [done|]. exists r. cbn [take].
    split; [|split; [cbn; by f_equal|done]]. destruct n; cbn [past_times] in *; rewrite Hr; done.
Qed.

Definition time_ok : Prop := forall a b q m,
  h !! a = Some b -> pprev b = Some q -> GetMedianTimePast h (Some q) = Some m -> m < nTime b.

Lemma GetMedianTimePast_total a b : h !! a = Some b -> exists m, GetMedianTimePast h (Some a) = Some m.
Proof.
  intros Ha. destruct (past_times_spec nMedianTimeSpan a b Ha) as (l & E & _).
  exists (median l). unfold GetMedianTimePast. by rewrite E.
Qed.

Lemma median_step a b q m m' :
  time_ok -> h !! a = Some b -> pprev b = Some q ->
  GetMedianTimePast h (Some q) = Some m -> GetMedianTimePast h (Some a) = Some m' -> m <= m'.
Proof.
  intros Ht Ha Hq Hm Hm'. pose proof (Ht a b q m Ha Hq Hm) as Hlt.
  destruct (wf_prev _ _ _ (Hwf a b Ha) q Hq) as (bq & Hbq & _).
  unfold GetMedianTimePast in *. destruct (past_times_spec nMedianTimeSpan q bq Hbq) as (l & E & Hl).
  rewrite E in Hm. cbn in Hm. injection Hm as <-.
  destruct (past_times_prefix 10 (Some q) l E) as (r & Er & El & Hr).
  assert (Ea : past_times nMedianTimeSpan h (Some a) = Some (nTime b :: take 10 l)).
  { change (past_times nMedianTimeSpan h (Some a)) with (b ← deref h (Some a); l ← past_times 10 h (pprev b); Some (nTime b :: l)).
    change (deref h (Some a)) with (h !! a). rewrite Ha. cbn [mbind option_bind]. rewrite Hq, Er. done. }
  rewrite Ea in Hm'. cbn [mbind option_bind] in Hm'. injection Hm' as <-.
  pose proof (wf_height _ _ _ (Hwf q bq Hbq)).
  unfold nMedianTimeSpan in Hl. assert (Hne : l <> []) by (intros ->; cbn in Hl; lia).
  pose proof (proj1 (median_le l (median l) Hne) ltac:(lia)) as Hb.
  apply median_le; [done|]. rewrite below_cons. destruct (Z.ltb_spec (nTime b) (median l)); [lia|].
  cbn [length]. rewrite length_take.
  assert (Hs : forall x, below x l = (below x (take 10 l) + below x r)%nat) by (intros x; by rewrite <-below_app, <-El).
  rewrite Hs in Hb.
  assert (length l <= 11)%nat by lia.
  assert (length l / 2 <= S (10 `min` length l) / 2)%nat; [apply Nat.Div0.div_le_mono; lia|].
  lia.
Qed.

Lemma median_monotone (a : nat) (b : CBlockIndex) (k : nat) (a' : nat) (m m' : Z) :
  time_ok -> h !! a = Some b -> up h k (Some a) = Some a' ->
  GetMedianTimePast h (Some a') = Some m' -> GetMedianTimePast h (Some a) = Some m -> m' <= m.
Proof.
  intros Ht. revert a b m. induction k as [|k IH]; intros a b m Ha Hu Hm' Hm.
  - cbn in Hu. injection Hu as ->. rewrite Hm in Hm'. injection Hm' as <-. lia.
  - cbn [up] in Hu. change (deref h (Some a)) with (h !! a) in Hu. rewrite Ha in Hu.
    destruct (pprev b) as [q|] eqn:Eq; [|by rewrite up_None in Hu].
    destruct (wf_prev _ _ _ (Hwf a b Ha) q Eq) as (bq & Hq & _).
    destruct (GetMedianTimePast_total q bq Hq) as [mq Hmq].
    transitivity mq; [by apply (IH q bq)|by apply (median_step a b q)].
Qed.
End times.

(** With the consensus rule that every block is later than the median time past of its parent, the median time past of the eleven last blocks is defined at every entry of the index and never decreases along the chain: an ancestor's is at most the descendant's. *)
Theorem median_time_monotone (h : heap) (a : nat) (b : CBlockIndex) (k : nat) (a' : nat) :
  wf h -> time_ok h -> h !! a = Some b -> Z.of_nat k <= nHeight b -> up h k (Some a) = Some a' ->
  exists m m', GetMedianTimePast h (Some a) = Some m /\ GetMedianTimePast h (Some a') = Some m' /\ m' <= m.
Proof.
  intros Hwf Ht Ha Hk Hu. destruct (GetMedianTimePast_total h Hwf a b Ha) as [m Hm].
  destruct (up_height h Hwf k a b Ha Hk) as (x & bx & Hx & Hbx & _). assert (x = a') as -> by congruence.
  destruct (GetMedianTimePast_total h Hwf a' bx Hbx) as [m' Hm'].
  exists m, m'. split; [done|]. split; [done|]. by apply (median_monotone h Hwf a b k a' m m').
Qed.
