(* ===== verification/VersionBits.v ===== *)
(** * VersionBits: versionbits.cpp

    The deployment state machine of BIP 9 with its cache, on the block index of
    Chain.v.  The virtual members of AbstractThresholdConditionChecker are the
    fields of [checker]; [version_bits_checker] is VersionBitsConditionChecker.
    The cache is a map from block index pointers (null included) to states, and
    is threaded through the calls.  [None] is a null dereference or a failed
    assertion. *)

From stdpp Require Import gmap.
From S2P Require Import Prelude Words Chain.

Inductive ThresholdState := THRESHOLD_DEFINED | THRESHOLD_STARTED | THRESHOLD_LOCKED_IN | THRESHOLD_ACTIVE | THRESHOLD_FAILED.

#[export] Instance ThresholdState_eq_dec : EqDecision ThresholdState.
Proof. solve_decision. Defined.

Abbreviation ThresholdConditionCache := (gmap (option nat) ThresholdState).

(** The virtual members, at fixed consensus parameters. *)
Record checker := mk_checker {
  Condition : CBlockIndex -> bool;
  BeginTime : Z; EndTime : Z; Period : Z; Threshold : Z }.

Section threshold.
Context (h : heap) (ck : checker).

(** The counting loop of the state STARTED. *)
Fixpoint count_loop (n : nat) (pindexCount : ptr) (count : Z) : option Z :=
  match n with
  | O => Some count
  | S n =>
      b ← deref h pindexCount;
      count_loop n (pprev b) (if Condition ck b then count + 1 else count)
  end.

(** The [switch] on the state: the next state at [pindexPrev]. *)
Definition next_state (state : ThresholdState) (pindexPrev : ptr) : option ThresholdState :=
  match state with
  | THRESHOLD_DEFINED =>
      mtp ← GetMedianTimePast h pindexPrev;
      Some (if EndTime ck <=? mtp then THRESHOLD_FAILED
            else if BeginTime ck <=? mtp then THRESHOLD_STARTED else state)
  | THRESHOLD_STARTED =>
      mtp ← GetMedianTimePast h pindexPrev;
      if EndTime ck <=? mtp then Some THRESHOLD_FAILED
      else
        count ← count_loop (Z.to_nat (Period ck)) pindexPrev 0;
        Some (if Threshold ck <=? count then THRESHOLD_LOCKED_IN else state)
  | THRESHOLD_LOCKED_IN => Some THRESHOLD_ACTIVE
  | THRESHOLD_FAILED => Some state
  | THRESHOLD_ACTIVE => Some state
  end.

(** Walk backwards until the cache knows the state. *)
Fixpoint back_loop (fuel : nat) (cache : ThresholdConditionCache) (pindexPrev : ptr) (vToCompute : list ptr)
    : option (ThresholdConditionCache * ptr * list ptr) :=
  match fuel with
  | O => None
  | S fuel =>
      match cache !! pindexPrev with
      | Some _ => Some (cache, pindexPrev, vToCompute)
      | None =>
          match pindexPrev with
          | None => Some (<[pindexPrev := THRESHOLD_DEFINED]> cache, pindexPrev, vToCompute)
          | Some _ =>
              mtp ← GetMedianTimePast h pindexPrev;
              if mtp <? BeginTime ck then Some (<[pindexPrev := THRESHOLD_DEFINED]> cache, pindexPrev, vToCompute)
              else
                b ← deref h pindexPrev;
                p ← GetAncestor h pindexPrev (nHeight b - Period ck);
                back_loop fuel cache p (pindexPrev :: vToCompute)
          end
      end
  end.

(** Walk forward; the head of the list is the back of the vector. *)
Fixpoint forward_loop (cache : ThresholdConditionCache) (state : ThresholdState) (vToCompute : list ptr)
    : option (ThresholdState * ThresholdConditionCache) :=
  match vToCompute with
  | [] => Some (state, cache)
  | pindexPrev :: vToCompute =>
      stateNext ← next_state state pindexPrev;
      forward_loop (<[pindexPrev := stateNext]> cache) stateNext vToCompute
  end.

(** The last entry of the period before the block that follows [pindexPrev]. *)
Definition period_parent (pindexPrev : ptr) : option ptr :=
  match pindexPrev with
  | None => Some None
  | Some _ => b ← deref h pindexPrev; GetAncestor h pindexPrev (nHeight b - Z.rem (nHeight b + 1) (Period ck))
  end.

(** The loop runs at most [nHeight + 2] times. *)
Definition back_fuel (p : ptr) : nat := match deref h p with Some b => S (S (Z.to_nat (nHeight b))) | None => 1 end.

Definition GetStateFor (pindexPrev : ptr) (cache : ThresholdConditionCache) : option (ThresholdState * ThresholdConditionCache) :=
  p ← period_parent pindexPrev;
  r ← back_loop (back_fuel p) cache p [];
  let '(cache, p, vToCompute) := r in
  state ← cache !! p;
  forward_loop cache state vToCompute.

(** The loop of GetStateSinceHeightFor. *)
Fixpoint since_loop (fuel : nat) (initialState : ThresholdState) (pindexPrev previousPeriodParent : ptr) (cache : ThresholdConditionCache)
    : option (ptr * ThresholdConditionCache) :=
  match fuel with
  | O => None
  | S fuel =>
      match previousPeriodParent with
      | None => Some (pindexPrev, cache)
      | Some _ =>
          r ← GetStateFor previousPeriodParent cache;
          let '(state, cache) := r in
          if bool_decide (state = initialState) then
            let pindexPrev := previousPeriodParent in
            b ← deref h pindexPrev;
            q ← GetAncestor h pindexPrev (nHeight b - Period ck);
            since_loop fuel initialState pindexPrev q cache
          else Some (pindexPrev, cache)
      end
  end.

Definition GetStateSinceHeightFor (pindexPrev : ptr) (cache : ThresholdConditionCache) : option (Z * ThresholdConditionCache) :=
  r ← GetStateFor pindexPrev cache;
  let '(initialState, cache) := r in
  if bool_decide (initialState = THRESHOLD_DEFINED) then Some (0, cache)
  else
    p ← (b ← deref h pindexPrev; GetAncestor h pindexPrev (nHeight b - Z.rem (nHeight b + 1) (Period ck)));
    b ← deref h p;
    q ← GetAncestor h p (nHeight b - Period ck);
    r ← since_loop (back_fuel p) initialState p q cache;
    let '(p, cache) := r in
    b ← deref h p;
    Some (nHeight b + 1, cache).
End threshold.

(** ** Version bits *)

(** As [int32_t]: 0xE0000000 is negative. *)
Definition VERSIONBITS_TOP_BITS : Z := 0x20000000.
Definition VERSIONBITS_TOP_MASK : Z := 0xE0000000 - 2 ^ 32.

(** A deployment: [bit], [nStartTime] and [nTimeout]. *)
Record deployment := mk_deployment { bit : Z; nStartTime : Z; nTimeout : Z }.

Definition Mask (d : deployment) : Z := u32 (1 ≪ bit d).

Definition version_bits_condition (d : deployment) (pindex : CBlockIndex) : bool :=
  (Z.land (nVersion pindex) VERSIONBITS_TOP_MASK =? VERSIONBITS_TOP_BITS) &&
  negb (Z.land (u32 (nVersion pindex)) (Mask d) =? 0).

Definition version_bits_checker (nMinerConfirmationWindow nRuleChangeActivationThreshold : Z) (d : deployment) : checker :=
  mk_checker (version_bits_condition d) (nStartTime d) (nTimeout d) nMinerConfirmationWindow nRuleChangeActivationThreshold.
