(* ===== verification/VersionBitsTheorems.v ===== *)
(** * VersionBitsTheorems: the theorems on deployment states

    The reference is BIP 9 as a relation: the transitions of a deployment with
    their conditions, and the state of a period from that of the period before.
    GetStateFor agrees with it whatever the cache holds, as long as the cache
    holds such states, and keeps it so. *)

From stdpp Require Import gmap.
From S2P Require Import Prelude Words Arith256 Chain ChainCorrect ChainActive ChainTheorems VersionBits.

Section spec.
Context (h : heap) (ck : checker).

(** The last block of the period before the one that ends with [a]. *)
Definition prev_period (a : nat) (b : CBlockIndex) : ptr := ancestor h a b (nHeight b - Period ck).

(** ** BIP 9 *)

(** The blocks of the period that ends with [a], and how many of them signal. *)
Definition period_blocks (a : nat) : list CBlockIndex :=
  omap (fun i => deref h (up h i (Some a))) (seq 0 (Z.to_nat (Period ck))).
Definition signals (a : nat) : Z := Z.of_nat (length (List.filter (Condition ck) (period_blocks a))).

(** One period: [mtp] is the median time past of its last block and [count] the
    number of its blocks that signal. *)
Inductive bip9_step (mtp count : Z) : ThresholdState -> ThresholdState -> Prop :=
  | bip9_waits : mtp < BeginTime ck -> mtp < EndTime ck -> bip9_step mtp count THRESHOLD_DEFINED THRESHOLD_DEFINED
  | bip9_starts : BeginTime ck <= mtp -> mtp < EndTime ck -> bip9_step mtp count THRESHOLD_DEFINED THRESHOLD_STARTED
  | bip9_expires : EndTime ck <= mtp -> bip9_step mtp count THRESHOLD_DEFINED THRESHOLD_FAILED
  | bip9_short : mtp < EndTime ck -> count < Threshold ck -> bip9_step mtp count THRESHOLD_STARTED THRESHOLD_STARTED
  | bip9_locks_in : mtp < EndTime ck -> Threshold ck <= count -> bip9_step mtp count THRESHOLD_STARTED THRESHOLD_LOCKED_IN
  | bip9_fails : EndTime ck <= mtp -> bip9_step mtp count THRESHOLD_STARTED THRESHOLD_FAILED
  | bip9_activates : bip9_step mtp count THRESHOLD_LOCKED_IN THRESHOLD_ACTIVE
  | bip9_active : bip9_step mtp count THRESHOLD_ACTIVE THRESHOLD_ACTIVE
  | bip9_failed : bip9_step mtp count THRESHOLD_FAILED THRESHOLD_FAILED.

(** The state after the period that ends with [p]; before the genesis block a
    deployment is DEFINED. *)
Inductive bip9 : ptr -> ThresholdState -> Prop :=
  | bip9_genesis : bip9 None THRESHOLD_DEFINED
  | bip9_period a b mtp s s' : h !! a = Some b -> (nHeight b + 1) mod Period ck = 0 -> GetMedianTimePast h (Some a) = Some mtp ->
      bip9 (prev_period a b) s -> bip9_step mtp (signals a) s s' -> bip9 (Some a) s'.

(** Every cached state is the state of its period. *)
Definition cache_correct (cache : ThresholdConditionCache) : Prop := forall p s, cache !! p = Some s -> bip9 p s.

Lemma bip9_step_unique mtp count s s1 s2 : bip9_step mtp count s s1 -> bip9_step mtp count s s2 -> s1 = s2.
Proof. intros H1 H2. destruct H1; inversion H2; subst; done || lia. Qed.

Lemma bip9_unique p s1 s2 : bip9 p s1 -> bip9 p s2 -> s1 = s2.
Proof.
  intros H1. revert s2. induction H1 as [|a b mtp s s' Ha Hm Em Hp IH Hs]; intros s2 H2; inversion H2 as [|a' b' mtp' t t' Ha' Hm' Em' Hp' Hs']; subst; [done|].
  rewrite Ha in Ha'. injection Ha' as <-. rewrite Em in Em'. injection Em' as <-. rewrite (IH _ Hp') in Hs. by apply (bip9_step_unique mtp (signals a) t).
Qed.

(** ** The states that the code iterates *)

(** [n] bounds the number of periods. *)
Fixpoint iterated (n : nat) (p : ptr) : ThresholdState :=
  match n, p with
  | S n, Some a =>
      match h !! a with
      | Some b => default THRESHOLD_DEFINED (next_state h ck (iterated n (prev_period a b)) p)
      | None => THRESHOLD_DEFINED
      end
  | _, _ => THRESHOLD_DEFINED
  end.

Definition state_at (p : ptr) : ThresholdState :=
  iterated (match deref h p with Some b => Z.to_nat (nHeight b + 1) | None => 0 end) p.

(** Null, or the last block of a period. *)
Definition aligned (p : ptr) : Prop :=
  match p with None => True | Some a => exists b, h !! a = Some b /\ (nHeight b + 1) mod Period ck = 0 end.

(** Every cached state is the iterated one. *)
Definition coherent (cache : ThresholdConditionCache) : Prop :=
  forall p s, cache !! p = Some s -> aligned p /\ s = state_at p.

Context (Hwf : wf h) (Htime : time_ok h) (Hper : 0 < Period ck) (Hbegin : BeginTime ck <= EndTime ck).

(** ** Periods *)

Lemma aligned_height a b : h !! a = Some b -> (nHeight b + 1) mod Period ck = 0 -> Period ck <= nHeight b + 1.
Proof.
  intros Ha Hm. pose proof (wf_height _ _ _ (Hwf a b Ha)). pose proof (Z.div_mod (nHeight b + 1) (Period ck) ltac:(lia)) as Hd.
  rewrite Hm in Hd. set (q := (nHeight b + 1) / Period ck) in *. assert (0 < q) by nia. nia.
Qed.

Lemma prev_period_spec a b :
  h !! a = Some b -> (nHeight b + 1) mod Period ck = 0 ->
  aligned (prev_period a b) /\
  match prev_period a b with
  | Some q => exists b', h !! q = Some b' /\ nHeight b' = nHeight b - Period ck /\ up h (Z.to_nat (Period ck)) (Some a) = Some q
  | None => nHeight b + 1 = Period ck
  end.
Proof.
  intros Ha Hm. pose proof (aligned_height a b Ha Hm) as Hle. unfold prev_period.
  destruct (decide (nHeight b - Period ck < 0)) as [Hlt|Hge].
  - unfold ancestor. destruct (Z.ltb_spec (nHeight b - Period ck) 0); [|lia]. rewrite orb_true_r. split; [done|lia].
  - destruct (ancestor_in_heap h Hwf a b (nHeight b - Period ck) Ha ltac:(lia)) as (q & b' & E & Hq & Hh).
    rewrite E. split.
    + exists b'. split; [done|]. rewrite Hh. replace (nHeight b - Period ck + 1) with (nHeight b + 1 + (-1) * Period ck) by lia.
      by rewrite Z.mod_add by lia.
    + exists b'. split; [done|]. split; [done|]. unfold ancestor in E.
      destruct (Z.ltb_spec (nHeight b) (nHeight b - Period ck)); [lia|]. destruct (Z.ltb_spec (nHeight b - Period ck) 0); [lia|].
      cbn [orb] in E. by replace (Z.to_nat (Period ck)) with (Z.to_nat (nHeight b - (nHeight b - Period ck))) by lia.
Qed.

(** The bound does not matter. *)
Lemma iterated_bound n m p :
  aligned p -> match deref h p with Some b => (Z.to_nat (nHeight b + 1) <= n)%nat /\ (Z.to_nat (nHeight b + 1) <= m)%nat | None => True end ->
  iterated n p = iterated m p.
Proof.
  revert m p. induction n as [|n IH]; intros m [a|] Hal Hb; try (by destruct m).
  - destruct Hal as (b & Ha & _). change (deref h (Some a)) with (h !! a) in Hb. rewrite Ha in Hb.
    pose proof (wf_height _ _ _ (Hwf a b Ha)). lia.
  - destruct Hal as (b & Ha & Hm). change (deref h (Some a)) with (h !! a) in Hb. rewrite Ha in Hb.
    pose proof (wf_height _ _ _ (Hwf a b Ha)). destruct m as [|m]; [lia|]. cbn [iterated]. rewrite Ha.
    destruct (prev_period_spec a b Ha Hm) as [Hal' Hp]. rewrite (IH m); [done|done|].
    destruct (prev_period a b) as [q|]; [|done]. destruct Hp as (b' & Hq & Hh & _).
    change (deref h (Some q)) with (h !! q). rewrite Hq. lia.
Qed.

Lemma state_at_step a b :
  h !! a = Some b -> (nHeight b + 1) mod Period ck = 0 ->
  state_at (Some a) = default THRESHOLD_DEFINED (next_state h ck (state_at (prev_period a b)) (Some a)).
Proof.
  intros Ha Hm. pose proof (wf_height _ _ _ (Hwf a b Ha)). unfold state_at at 1.
  change (deref h (Some a)) with (h !! a). rewrite Ha. destruct (Z.to_nat (nHeight b + 1)) as [|n] eqn:En; [lia|].
  cbn [iterated]. rewrite Ha. do 2 f_equal. unfold state_at. destruct (prev_period_spec a b Ha Hm) as [Hal Hp].
  apply iterated_bound; [done|]. destruct (prev_period a b) as [q|]; [|done]. destruct Hp as (b' & Hq & Hh & _).
  change (deref h (Some q)) with (h !! q). rewrite Hq. lia.
Qed.

(** ** The transition is defined *)

Lemma count_loop_spec n a b c :
  h !! a = Some b -> Z.of_nat n <= nHeight b + 1 ->
  count_loop h ck n (Some a) c = Some (c + Z.of_nat (length (List.filter (Condition ck) (omap (fun i => deref h (up h i (Some a))) (seq 0 n))))).
Proof.
  revert a b c. induction n as [|n IH]; intros a b c Ha Hn; [cbn; f_equal; lia|].
  cbn [count_loop seq omap list_omap up]. change (deref h (Some a)) with (h !! a). rewrite Ha. cbn [mbind option_bind List.filter].
  assert (Es : omap (fun i => deref h (up h i (Some a))) (seq 1 n) = omap (fun i => deref h (up h i (pprev b))) (seq 0 n)).
  { rewrite <-seq_shift. clear IH Hn. induction (seq 0 n) as [|i l IHl]; [done|]. cbn [map]. unfold omap in *. cbn [list_omap up]. rewrite IHl.
    change (deref h (Some a)) with (h !! a). by rewrite Ha. }
  unfold omap in *. rewrite Es. destruct (pprev b) as [q|] eqn:Eq.
  - destruct (wf_prev _ _ _ (Hwf a b Ha) q Eq) as (bq & Hq & Hh & _). rewrite (IH q bq) by (done || lia). destruct (Condition ck b); cbn [length]; f_equal; lia.
  - destruct (wf_first _ _ _ (Hwf a b Ha) Eq) as (Hh & _). assert (n = 0%nat) as -> by lia. destruct (Condition ck b); cbn; f_equal; lia.
Qed.

Lemma next_state_bip9 s a b mtp :
  h !! a = Some b -> (nHeight b + 1) mod Period ck = 0 -> GetMedianTimePast h (Some a) = Some mtp ->
  exists s', next_state h ck s (Some a) = Some s' /\ bip9_step mtp (signals a) s s'.
Proof.
  intros Ha Hm Em. pose proof (aligned_height a b Ha Hm).
  pose proof (count_loop_spec (Z.to_nat (Period ck)) a b 0 Ha ltac:(lia)) as Ec. change (count_loop h ck (Z.to_nat (Period ck)) (Some a) 0 = Some (signals a)) in Ec.
  destruct s; cbn [next_state]; rewrite ?Em, ?Ec; cbn [mbind option_bind]; try (eexists; split; [reflexivity|constructor]).
  - eexists. split; [reflexivity|]. destruct (Z.leb_spec (EndTime ck) mtp); [by constructor|]. destruct (Z.leb_spec (BeginTime ck) mtp); by constructor.
  - destruct (Z.leb_spec (EndTime ck) mtp); [eexists; split; [reflexivity|by constructor]|]. eexists. split; [reflexivity|].
    destruct (Z.leb_spec (Threshold ck) (signals a)); by constructor.
Qed.

Lemma next_state_total s a b :
  h !! a = Some b -> (nHeight b + 1) mod Period ck = 0 -> exists s', next_state h ck s (Some a) = Some s'.
Proof.
  intros Ha Hm. destruct (GetMedianTimePast_total h Hwf a b Ha) as [m Em]. destruct (next_state_bip9 s a b m Ha Hm Em) as (s' & E & _). by exists s'.
Qed.

(** The iterated state is the one of BIP 9. *)
Lemma state_at_bip9 p : aligned p -> bip9 p (state_at p).
Proof.
  destruct p as [a|]; [|intros _; apply bip9_genesis]. intros (b & Ha & Hm). remember (Z.to_nat (nHeight b)) as k eqn:Ek. revert a b Ek Ha Hm.
  induction k as [k IH] using (well_founded_induction lt_wf). intros a b Ek Ha Hm.
  destruct (GetMedianTimePast_total h Hwf a b Ha) as [m Em]. destruct (prev_period_spec a b Ha Hm) as [Hal Hp].
  destruct (next_state_bip9 (state_at (prev_period a b)) a b m Ha Hm Em) as (s' & E & Hs).
  rewrite (state_at_step a b Ha Hm), E. apply (bip9_period a b m (state_at (prev_period a b))); [done|done|done| |exact Hs].
  destruct (prev_period a b) as [q|]; [|apply bip9_genesis]. destruct Hal as (b2 & Hq2 & Hm2). destruct Hp as (b' & Hq & Hh & _).
  assert (b2 = b') as -> by congruence. pose proof (wf_height _ _ _ (Hwf q b' Hq)). apply (IH (Z.to_nat (nHeight b')) ltac:(lia) q b' eq_refl Hq Hm2).
Qed.

Lemma bip9_aligned p s : bip9 p s -> aligned p.
Proof. destruct 1 as [|a b]; [done|by exists b]. Qed.

Lemma cache_correct_coherent cache : cache_correct cache <-> coherent cache.
Proof.
  split; intros H p s Hs; specialize (H p s Hs).
  - pose proof (bip9_aligned p s H) as Hal. split; [done|]. exact (bip9_unique p s _ H (state_at_bip9 p Hal)).
  - destruct H as [Hal ->]. by apply state_at_bip9.
Qed.

(** Before the start time nothing has happened yet. *)
Lemma state_before_start a b m :
  h !! a = Some b -> (nHeight b + 1) mod Period ck = 0 -> GetMedianTimePast h (Some a) = Some m -> m < BeginTime ck ->
  state_at (Some a) = THRESHOLD_DEFINED.
Proof.
  remember (Z.to_nat (nHeight b)) as k eqn:Ek. revert a b m Ek.
  induction k as [k IH] using (well_founded_induction lt_wf). intros a b m Ek Ha Hm Em Hlt.
  rewrite (state_at_step a b Ha Hm). destruct (prev_period_spec a b Ha Hm) as [Hal Hp].
  assert (Hs : state_at (prev_period a b) = THRESHOLD_DEFINED).
  { destruct (prev_period a b) as [q|]; [|done]. destruct Hal as (b2 & Hq2 & Hm2). destruct Hp as (b' & Hq & Hh & Hu).
    assert (b2 = b') as -> by congruence. destruct (GetMedianTimePast_total h Hwf q b' Hq) as [mq Emq].
    pose proof (median_monotone h Hwf a b _ q m mq Htime Ha Hu Emq Em). pose proof (wf_height _ _ _ (Hwf q b' Hq)).
    apply (IH (Z.to_nat (nHeight b')) ltac:(lia) q b' mq eq_refl Hq Hm2 Emq). lia. }
  rewrite Hs. cbn [next_state]. rewrite Em. cbn [mbind option_bind].
  destruct (Z.leb_spec (EndTime ck) m); [lia|]. destruct (Z.leb_spec (BeginTime ck) m); [lia|done].
Qed.

(** ** The two walks *)

(** [vs] are the ends of the successive periods after [p], up to [target]. *)
Fixpoint stack_ok (p : ptr) (vs : list ptr) (target : ptr) : Prop :=
  match vs with
  | [] => p = target
  | q :: vs => (exists a b, q = Some a /\ h !! a = Some b /\ (nHeight b + 1) mod Period ck = 0 /\ prev_period a b = p) /\ stack_ok q vs target
  end.

Lemma coherent_insert cache p s : coherent cache -> aligned p -> s = state_at p -> coherent (<[p := s]> cache).
Proof.
  intros Hc Hal Hs q t Hq. destruct (decide (q = p)) as [->|Hne].
  - rewrite lookup_insert_eq in Hq. by injection Hq as <-.
  - rewrite lookup_insert_ne in Hq by done. by apply Hc.
Qed.

Lemma back_loop_spec fuel cache p vs target :
  coherent cache -> aligned p -> stack_ok p vs target -> (back_fuel h p <= fuel)%nat ->
  exists cache' p' vs', back_loop h ck fuel cache p vs = Some (cache', p', vs') /\
    coherent cache' /\ is_Some (cache' !! p') /\ stack_ok p' vs' target.
Proof.
  revert p vs. induction fuel as [|fuel IH]; intros p vs Hc Hal Hst Hf.
  { unfold back_fuel in Hf. destruct (deref h p); lia. }
  cbn [back_loop]. destruct (cache !! p) as [s|] eqn:Ep; [exists cache, p, vs; by rewrite Ep|].
  destruct p as [a|].
  2:{ exists (<[None := THRESHOLD_DEFINED]> cache), None, vs. split; [done|]. split; [by apply coherent_insert|].
      split; [by rewrite lookup_insert_eq|done]. }
  destruct Hal as (b & Ha & Hm). destruct (GetMedianTimePast_total h Hwf a b Ha) as [m Em]. rewrite Em. cbn [mbind option_bind].
  destruct (Z.ltb_spec m (BeginTime ck)) as [Hlt|Hge].
  - exists (<[Some a := THRESHOLD_DEFINED]> cache), (Some a), vs. split; [done|]. split; [|by rewrite lookup_insert_eq].
    apply coherent_insert; [done|by exists b|]. symmetry. by apply (state_before_start a b m).
  - change (deref h (Some a)) with (h !! a). rewrite Ha. cbn [mbind option_bind].
    rewrite (GetAncestor_spec h Hwf a b) by done. cbn [mbind option_bind]. fold (prev_period a b).
    destruct (prev_period_spec a b Ha Hm) as [Hal' Hp]. apply IH; [done|done| |].
    + split; [by exists a, b|done].
    + unfold back_fuel in *. change (deref h (Some a)) with (h !! a) in Hf. rewrite Ha in Hf.
      pose proof (wf_height _ _ _ (Hwf a b Ha)).
      destruct (prev_period a b) as [q|]; [|cbn; lia]. destruct Hp as (b' & Hq & Hh & _).
      change (deref h (Some q)) with (h !! q). rewrite Hq. pose proof (wf_height _ _ _ (Hwf q b' Hq)). lia.
Qed.

Lemma forward_loop_spec cache p vs target :
  coherent cache -> stack_ok p vs target ->
  exists cache', forward_loop h ck cache (state_at p) vs = Some (state_at target, cache') /\ coherent cache'.
Proof.
  revert cache p. induction vs as [|q vs IH]; intros cache p Hc Hst; cbn [stack_ok forward_loop] in *.
  - subst p. by exists cache.
  - destruct Hst as [(a & b & -> & Ha & Hm & <-) Hst]. pose proof (state_at_step a b Ha Hm) as Hs.
    destruct (next_state_total (state_at (prev_period a b)) a b Ha Hm) as [s' E]. rewrite E in *. cbn [mbind option_bind].
    change (state_at (Some a) = s') in Hs. subst s'. apply IH; [|done]. apply coherent_insert; [done|by exists b|done].
Qed.

(** The period parent of the code, on null and on an entry. *)
Definition parent_of (p : ptr) : ptr :=
  match p with
  | Some a => match h !! a with Some b => ancestor h a b (nHeight b - (nHeight b + 1) mod Period ck) | None => None end
  | None => None
  end.

Lemma period_parent_spec p :
  (forall a, p = Some a -> is_Some (h !! a)) -> period_parent h ck p = Some (parent_of p) /\ aligned (parent_of p).
Proof.
  intros Hp. destruct p as [a|]; [|done]. destruct (Hp a eq_refl) as [b Ha]. cbn [parent_of period_parent]. rewrite Ha.
  change (deref h (Some a)) with (h !! a). rewrite Ha. cbn [mbind option_bind].
  pose proof (wf_height _ _ _ (Hwf a b Ha)). rewrite Z.rem_mod_nonneg by lia.
  rewrite (GetAncestor_spec h Hwf a b) by done. split; [done|].
  pose proof (Z.mod_pos_bound (nHeight b + 1) (Period ck) ltac:(lia)). pose proof (Z.mod_le (nHeight b + 1) (Period ck) ltac:(lia) ltac:(lia)).
  set (k := nHeight b - _) in *. destruct (decide (k < 0)).
  - unfold ancestor. destruct (Z.ltb_spec k 0); [|lia]. by rewrite orb_true_r.
  - destruct (ancestor_in_heap h Hwf a b k Ha ltac:(lia)) as (q & b' & -> & Hq & Hh). exists b'. split; [done|].
    rewrite Hh. subst k. replace (nHeight b - (nHeight b + 1) mod Period ck + 1) with (nHeight b + 1 - (nHeight b + 1) mod Period ck) by lia.
    by rewrite Zminus_mod_idemp_r, Z.sub_diag.
Qed.

Lemma GetStateFor_spec p cache :
  coherent cache -> (forall a, p = Some a -> is_Some (h !! a)) ->
  exists cache', GetStateFor h ck p cache = Some (state_at (parent_of p), cache') /\ coherent cache'.
Proof.
  intros Hc Hp. destruct (period_parent_spec p Hp) as [E Hal]. unfold GetStateFor. rewrite E. cbn [mbind option_bind].
  destruct (back_loop_spec (back_fuel h (parent_of p)) cache (parent_of p) [] (parent_of p) Hc Hal eq_refl ltac:(lia))
    as (cache' & p' & vs' & -> & Hc' & [s Hs] & Hst). cbn [mbind option_bind]. rewrite Hs. cbn [mbind option_bind].
  destruct (Hc' p' s Hs) as [_ ->]. by apply forward_loop_spec.
Qed.

(** ** The state machine *)

Inductive transition : ThresholdState -> ThresholdState -> Prop :=
  | defined_stays : transition THRESHOLD_DEFINED THRESHOLD_DEFINED
  | defined_starts : transition THRESHOLD_DEFINED THRESHOLD_STARTED
  | defined_fails : transition THRESHOLD_DEFINED THRESHOLD_FAILED
  | started_stays : transition THRESHOLD_STARTED THRESHOLD_STARTED
  | started_fails : transition THRESHOLD_STARTED THRESHOLD_FAILED
  | started_locks_in : transition THRESHOLD_STARTED THRESHOLD_LOCKED_IN
  | locked_in_activates : transition THRESHOLD_LOCKED_IN THRESHOLD_ACTIVE
  | active_stays : transition THRESHOLD_ACTIVE THRESHOLD_ACTIVE
  | failed_stays : transition THRESHOLD_FAILED THRESHOLD_FAILED.

Lemma next_state_transition s p s' : next_state h ck s p = Some s' -> transition s s'.
Proof.
  destruct s; cbn [next_state]; try (intros [= <-]; constructor).
  - destruct (GetMedianTimePast h p) as [m|]; [|done]. cbn [mbind option_bind].
    destruct (EndTime ck <=? m); [|destruct (BeginTime ck <=? m)]; intros [= <-]; constructor.
  - destruct (GetMedianTimePast h p) as [m|]; [|done]. cbn [mbind option_bind].
    destruct (EndTime ck <=? m); [intros [= <-]; constructor|].
    destruct (count_loop h ck (Z.to_nat (Period ck)) p 0) as [c|]; [|done]. cbn [mbind option_bind].
    destruct (Threshold ck <=? c); intros [= <-]; constructor.
Qed.

Lemma state_at_transition a b :
  h !! a = Some b -> (nHeight b + 1) mod Period ck = 0 -> transition (state_at (prev_period a b)) (state_at (Some a)).
Proof.
  intros Ha Hm. rewrite (state_at_step a b Ha Hm).
  destruct (next_state_total (state_at (prev_period a b)) a b Ha Hm) as [s' E]. rewrite E.
  by apply (next_state_transition _ (Some a)).
Qed.

(** The ends of the periods below the entry [a], from the height [y]. *)
Lemma states_along a b y (j : nat) :
  h !! a = Some b -> (y + 1) mod Period ck = 0 -> y <= nHeight b -> -1 <= y - Z.of_nat j * Period ck ->
  rtc transition (state_at (ancestor h a b (y - Z.of_nat j * Period ck))) (state_at (ancestor h a b y)).
Proof.
  intros Ha. revert y. induction j as [|j IH]; intros y Hm Hy Hj.
  - replace (y - Z.of_nat 0 * Period ck) with y by lia. apply rtc_refl.
  - assert (0 <= y) by nia.
    destruct (ancestor_in_heap h Hwf a b y Ha ltac:(lia)) as (q & bq & Eq & Hq & Hh). rewrite Eq.
    apply (rtc_r _ (state_at (prev_period q bq))).
    + unfold prev_period. rewrite Hh. rewrite (ancestor_trans h Hwf a b q bq y (y - Period ck) Ha Hq Eq ltac:(lia)).
      replace (y - Z.of_nat (S j) * Period ck) with (y - Period ck - Z.of_nat j * Period ck) by lia.
      apply IH; [|lia|lia]. replace (y - Period ck + 1) with (y + 1 + (-1) * Period ck) by lia. by rewrite Z.mod_add by lia.
    + apply state_at_transition; [done|by rewrite Hh].
Qed.

Lemma transition_terminal s s' : rtc transition s s' -> s = THRESHOLD_ACTIVE \/ s = THRESHOLD_FAILED -> s' = s.
Proof.
  induction 1 as [|x y z Hxy _ IH]; [done|]. intros [-> | ->]; inversion Hxy; subst; apply IH; auto.
Qed.

(** The parents of an ancestor and of the entry are a number of periods apart. *)
Lemma parent_ancestor a b k a' b' :
  h !! a = Some b -> 0 <= k <= nHeight b -> ancestor h a b k = Some a' -> h !! a' = Some b' ->
  exists (j : nat) y, (y + 1) mod Period ck = 0 /\ y <= nHeight b /\ -1 <= y - Z.of_nat j * Period ck /\
    parent_of (Some a) = ancestor h a b y /\ parent_of (Some a') = ancestor h a b (y - Z.of_nat j * Period ck).
Proof.
  intros Ha Hk Ek Ha'. pose proof (ancestor_in_heap h Hwf a b k Ha Hk) as (x & bx & Ex & Hx & Hhx).
  assert (x = a') as -> by congruence. assert (bx = b') as -> by congruence.
  set (P := Period ck) in *. set (y := nHeight b - (nHeight b + 1) mod P). set (y' := k - (k + 1) mod P).
  pose proof (Z.mod_pos_bound (nHeight b + 1) P ltac:(lia)). pose proof (Z.mod_pos_bound (k + 1) P ltac:(lia)).
  pose proof (Z.div_mod (nHeight b + 1) P ltac:(lia)) as D. pose proof (Z.div_mod (k + 1) P ltac:(lia)) as D'.
  assert (Hle : (k + 1) / P <= (nHeight b + 1) / P) by (apply Z.div_le_mono; lia).
  assert (0 <= (k + 1) / P) by (apply Z.div_pos; lia).
  assert (Hj : y - Z.of_nat (Z.to_nat ((nHeight b + 1) / P - (k + 1) / P)) * P = y') by (subst y y'; rewrite Z2Nat.id by lia; nia).
  exists (Z.to_nat ((nHeight b + 1) / P - (k + 1) / P)), y. rewrite Hj. split; [|split; [|split; [|split]]].
  - subst y. replace (nHeight b - (nHeight b + 1) mod P + 1) with ((nHeight b + 1) / P * P) by lia. apply Z.mod_mul. lia.
  - subst y. lia.
  - subst y'. nia.
  - cbn [parent_of]. rewrite Ha. done.
  - cbn [parent_of]. rewrite Ha'. fold P. rewrite Hhx. apply (ancestor_trans h Hwf a b a' b' k y' Ha Ha' Ek). subst y'. lia.
Qed.

(** ** Since when *)

Lemma parent_of_aligned a b : h !! a = Some b -> (nHeight b + 1) mod Period ck = 0 -> parent_of (Some a) = Some a.
Proof. intros Ha Hm. cbn [parent_of]. rewrite Ha, Hm, Z.sub_0_r. by apply ancestor_self. Qed.

Lemma since_loop_spec fuel s a b y cache :
  coherent cache -> h !! a = Some b -> (y + 1) mod Period ck = 0 -> 0 <= y <= nHeight b -> (Z.to_nat y < fuel)%nat ->
  exists (j : nat) cache', since_loop h ck fuel s (ancestor h a b y) (ancestor h a b (y - Period ck)) cache
      = Some (ancestor h a b (y - Z.of_nat j * Period ck), cache') /\ coherent cache' /\
    0 <= y - Z.of_nat j * Period ck /\
    (forall i : nat, (1 <= i <= j)%nat -> state_at (ancestor h a b (y - Z.of_nat i * Period ck)) = s) /\
    (0 <= y - (Z.of_nat j + 1) * Period ck -> state_at (ancestor h a b (y - (Z.of_nat j + 1) * Period ck)) <> s).
Proof.
  intros Hc0 Ha. revert y cache Hc0. induction fuel as [|fuel IH]; intros y cache Hc Hm Hy Hf; [lia|].
  cbn [since_loop]. set (P := Period ck) in *. destruct (decide (y - P < 0)) as [Hneg|Hpos].
  - assert (En : ancestor h a b (y - P) = None).
    { unfold ancestor. destruct (Z.ltb_spec (y - P) 0); [by rewrite orb_true_r|lia]. }
    rewrite En. exists 0%nat, cache. replace (y - Z.of_nat 0 * P) with y by lia.
    split; [done|]. split; [done|]. split; [lia|]. split; [intros; lia|lia].
  - destruct (ancestor_in_heap h Hwf a b (y - P) Ha ltac:(lia)) as (q & bq & Eq & Hq & Hh). rewrite Eq.
    assert (Hmq : (nHeight bq + 1) mod P = 0).
    { rewrite Hh. replace (y - P + 1) with (y + 1 + (-1) * P) by lia. by rewrite Z.mod_add by lia. }
    destruct (GetStateFor_spec (Some q) cache Hc) as (cache1 & E1 & Hc1); [intros x [= <-]; by eexists|].
    rewrite E1, (parent_of_aligned q bq Hq Hmq). cbn [mbind option_bind]. case_bool_decide as Es.
    + change (deref h (Some q)) with (h !! q). rewrite Hq. cbn [mbind option_bind].
      rewrite (GetAncestor_spec h Hwf q bq) by done. cbn [mbind option_bind]. fold P.
      rewrite Hh, (ancestor_trans h Hwf a b q bq (y - P) (y - P - P) Ha Hq Eq ltac:(lia)), <-Eq.
      destruct (IH (y - P) cache1 Hc1) as (j & cache2 & E2 & Hc2 & Hj & Hall & Hend); [by rewrite <-Hh|lia|lia|].
      exists (S j), cache2. replace (y - Z.of_nat (S j) * P) with (y - P - Z.of_nat j * P) by lia.
      split; [done|]. split; [done|]. split; [done|]. split.
      * intros i Hi. destruct (decide (i = 1%nat)) as [->|]; [replace (y - Z.of_nat 1 * P) with (y - P) by lia; by rewrite Eq|].
        replace (y - Z.of_nat i * P) with (y - P - Z.of_nat (i - 1) * P) by nia. apply Hall. lia.
      * replace (y - (Z.of_nat (S j) + 1) * P) with (y - P - (Z.of_nat j + 1) * P) by lia. done.
    + exists 0%nat, cache1. replace (y - Z.of_nat 0 * P) with y by lia. replace (y - (Z.of_nat 0 + 1) * P) with (y - P) by lia.
      split; [done|]. split; [done|]. split; [lia|]. split; [intros; lia|]. intros _. by rewrite Eq.
Qed.
End spec.

(** C14: GetStateFor computes the state of BIP 9 whatever the cache.  On null or on any block of a well-formed index whose blocks are later than their parents' median time past, for a deployment that starts no later than it times out, and with any cache that holds only states of BIP 9, it terminates without a null dereference, returns the state that BIP 9 gives after the last period finished at that block, and leaves such a cache; the shortcut below the start time changes nothing.  BIP 9 is the relation [bip9]: DEFINED before the genesis block, and one transition per period with its conditions on the median time past of the period's last block and on the number of its blocks that signal; it gives one state to every end of a period. *)
Theorem versionbits_cache_sound (h : heap) (ck : checker) (p : ptr) (cache : ThresholdConditionCache) :
  wf h -> time_ok h -> 0 < Period ck -> BeginTime ck <= EndTime ck ->
  cache_correct h ck cache -> (forall a, p = Some a -> is_Some (h !! a)) ->
  exists s cache', GetStateFor h ck p cache = Some (s, cache') /\ cache_correct h ck cache' /\
    bip9 h ck (parent_of h ck p) s /\ (forall s', bip9 h ck (parent_of h ck p) s' -> s' = s).
Proof.
  intros Hwf Ht Hper Hbe Hc Hp. apply (cache_correct_coherent h ck Hwf Hper) in Hc.
  destruct (GetStateFor_spec h ck Hwf Ht Hper Hbe p cache Hc Hp) as (cache' & E & Hc').
  destruct (period_parent_spec h ck Hwf Hper p Hp) as [_ Hal]. pose proof (state_at_bip9 h ck Hwf Hper _ Hal) as Hb.
  eexists _, cache'. split; [exact E|]. split; [by apply (cache_correct_coherent h ck Hwf Hper)|]. split; [exact Hb|].
  intros s' Hs'. exact (bip9_unique h ck _ _ _ Hs' Hb).
Qed.

(** Deployments only move forward: the state that GetStateFor reports for a block is reached from the state it reports for any ancestor, with any correct caches, by the transitions DEFINED to STARTED or FAILED, STARTED to FAILED or LOCKED_IN, LOCKED_IN to ACTIVE; ACTIVE and FAILED are final on every chain. *)
Theorem versionbits_transitions (h : heap) (ck : checker) (a : nat) (b : CBlockIndex) (k : Z) (a' : nat) (b' : CBlockIndex)
    (cache cache' : ThresholdConditionCache) :
  wf h -> time_ok h -> 0 < Period ck -> BeginTime ck <= EndTime ck -> coherent h ck cache -> coherent h ck cache' ->
  h !! a = Some b -> 0 <= k <= nHeight b -> ancestor h a b k = Some a' -> h !! a' = Some b' ->
  exists s s' c c', GetStateFor h ck (Some a') cache' = Some (s', c') /\ GetStateFor h ck (Some a) cache = Some (s, c) /\
    rtc transition s' s /\ (s' = THRESHOLD_ACTIVE \/ s' = THRESHOLD_FAILED -> s = s').
Proof.
  intros Hwf Ht Hper Hbe Hc Hc' Ha Hk Ek Ha'.
  destruct (GetStateFor_spec h ck Hwf Ht Hper Hbe (Some a) cache Hc) as (c & E & _); [intros x [= <-]; by eexists|].
  destruct (GetStateFor_spec h ck Hwf Ht Hper Hbe (Some a') cache' Hc') as (c' & E' & _); [intros x [= <-]; by eexists|].
  destruct (parent_ancestor h ck Hwf Hper a b k a' b' Ha Hk Ek Ha') as (j & y & Hm & Hy & Hj & Ey & Ey').
  pose proof (states_along h ck Hwf Hper a b y j Ha Hm Hy Hj) as Hr. rewrite <-Ey, <-Ey' in Hr.
  do 4 eexists. split; [exact E'|]. split; [exact E|]. split; [done|]. intros H. by apply transition_terminal.
Qed.

(** GetStateSinceHeightFor returns the height at which the current state began: 0 for DEFINED; otherwise the first block of a period such that all periods from it on have the current state, and the period before it, if there is one, has another. *)
Theorem versionbits_since_height (h : heap) (ck : checker) (a : nat) (b : CBlockIndex) (cache : ThresholdConditionCache) :
  wf h -> time_ok h -> 0 < Period ck -> BeginTime ck <= EndTime ck -> coherent h ck cache -> h !! a = Some b ->
  let s := state_at h ck (parent_of h ck (Some a)) in
  let y := nHeight b - (nHeight b + 1) mod Period ck in
  let before i := state_at h ck (ancestor h a b (y - Z.of_nat i * Period ck)) in
  exists r cache', GetStateSinceHeightFor h ck (Some a) cache = Some (r, cache') /\ coherent h ck cache' /\
    (s = THRESHOLD_DEFINED -> r = 0) /\
    (s <> THRESHOLD_DEFINED -> exists j : nat, r = y + 1 - Z.of_nat j * Period ck /\ 0 < r <= nHeight b + 1 /\
       (forall i, (i <= j)%nat -> before i = s) /\ (0 <= y - (Z.of_nat j + 1) * Period ck -> before (S j) <> s)).
Proof.
  intros Hwf Ht Hper Hbe Hc Ha s y before.
  pose proof (Z.mod_pos_bound (nHeight b + 1) (Period ck) Hper) as Hmod. pose proof (wf_height _ _ _ (Hwf a b Ha)) as Hh0.
  assert (Hp : parent_of h ck (Some a) = ancestor h a b y) by (cbn [parent_of]; by rewrite Ha).
  destruct (GetStateFor_spec h ck Hwf Ht Hper Hbe (Some a) cache Hc) as (c1 & E1 & Hc1); [intros x [= <-]; by eexists|].
  unfold GetStateSinceHeightFor. rewrite E1. cbn [mbind option_bind]. fold s. case_bool_decide as Es.
  { exists 0, c1. split; [done|]. split; [done|]. by split. }
  assert (Hy : 0 <= y).
  { destruct (decide (0 <= y)) as [|Hn]; [done|]. destruct Es. subst s. rewrite Hp. unfold ancestor.
    destruct (Z.ltb_spec y 0); [by rewrite orb_true_r|lia]. }
  assert (Hm : (y + 1) mod Period ck = 0).
  { subst y. replace (nHeight b - (nHeight b + 1) mod Period ck + 1) with (nHeight b + 1 - (nHeight b + 1) mod Period ck) by lia.
    by rewrite Zminus_mod_idemp_r, Z.sub_diag. }
  change (deref h (Some a)) with (h !! a). rewrite Ha. cbn [mbind option_bind]. rewrite Z.rem_mod_nonneg by lia.
  rewrite (GetAncestor_spec h Hwf a b) by done. cbn [mbind option_bind]. fold y.
  destruct (ancestor_in_heap h Hwf a b y Ha ltac:(lia)) as (q & bq & Eq & Hq & Hh).
  assert (Ed : deref h (ancestor h a b y) = Some bq) by (by rewrite Eq). unfold back_fuel. rewrite Ed. cbn [mbind option_bind]. rewrite Hh.
  assert (Eg : GetAncestor h (ancestor h a b y) (y - Period ck) = Some (ancestor h a b (y - Period ck))).
  { rewrite Eq, (GetAncestor_spec h Hwf q bq) by done. f_equal. apply (ancestor_trans h Hwf a b q bq y); done || lia. }
  rewrite Eg. cbn [mbind option_bind].
  destruct (since_loop_spec h ck Hwf Ht Hper Hbe (S (S (Z.to_nat y))) s a b y c1 Hc1 Ha Hm ltac:(lia) ltac:(lia))
    as (j & c2 & E2 & Hc2 & Hj & Hall & Hend).
  rewrite E2. cbn [mbind option_bind].
  destruct (ancestor_in_heap h Hwf a b (y - Z.of_nat j * Period ck) Ha ltac:(nia)) as (r & br & Er & Hr & Hhr).
  rewrite Er. change (deref h (Some r)) with (h !! r). rewrite Hr. cbn [mbind option_bind]. rewrite Hhr.
  eexists _, c2. split; [done|]. split; [done|]. split; [done|]. intros _. exists j. split; [lia|]. split; [nia|]. split.
  - intros i Hi. unfold before. destruct i as [|i]; [|apply Hall; lia].
    replace (y - Z.of_nat 0 * Period ck) with y by lia. subst s. by rewrite Hp.
  - intros H. unfold before. replace (Z.of_nat (S j)) with (Z.of_nat j + 1) by lia. by apply Hend.
Qed.

(** ** Witnesses: the index of ChainActive, with periods of one block *)

Definition demo_heap : heap := heap_of (demo_node 4).
Definition demo_checker : checker := mk_checker (fun _ => true) 105 1000 1 1.

Definition time_check (h : heap) (b : CBlockIndex) : bool :=
  match pprev b with
  | Some q => match GetMedianTimePast h (Some q) with Some m => m <? nTime b | None => true end
  | None => true
  end.

Lemma time_ok_check h : forallb (fun ab => time_check h (snd ab)) (map_to_list h) = true -> time_ok h.
Proof.
  intros H a b q m Ha Hq Hm. apply elem_of_map_to_list in Ha. rewrite forallb_forall in H.
  specialize (H (a, b)). rewrite <-list_elem_of_In in H. specialize (H Ha). unfold time_check in H. cbn [snd] in H.
  rewrite Hq, Hm in H. by apply Z.ltb_lt.
Qed.

Lemma demo_time_ok : time_ok demo_heap.
Proof. apply time_ok_check. vm_compute. reflexivity. Qed.

Lemma demo_wf : wf demo_heap.
Proof. apply wn_heap, reachable_wf, demo_reachable. lia. Qed.

Lemma demo_coherent : coherent demo_heap demo_checker ∅.
Proof. intros p s H. by rewrite lookup_empty in H. Qed.

Lemma demo_lookup a : (a < 4)%nat -> is_Some (demo_heap !! a).
Proof. intros Ha. do 4 (destruct a as [|a]; [vm_compute; by eexists|]). lia. Qed.

Lemma median_time_monotone_witness :
  exists m m', GetMedianTimePast demo_heap (Some 2%nat) = Some m /\ GetMedianTimePast demo_heap (Some 0%nat) = Some m' /\ m' <= m.
Proof.
  destruct (demo_lookup 2 ltac:(lia)) as [b E].
  apply (median_time_monotone demo_heap 2 b 2 0).
  - exact demo_wf.
  - exact demo_time_ok.
  - exact E.
  - vm_compute in E. apply (inj Some) in E. subst b. vm_compute. discriminate.
  - vm_compute. reflexivity.
Defined.

Lemma versionbits_cache_sound_witness :
  exists cache', GetStateFor demo_heap demo_checker (Some 2%nat) ∅ = Some (THRESHOLD_LOCKED_IN, cache') /\
    cache_correct demo_heap demo_checker cache' /\ bip9 demo_heap demo_checker (Some 2%nat) THRESHOLD_LOCKED_IN.
Proof.
  destruct (versionbits_cache_sound demo_heap demo_checker (Some 2%nat) ∅) as (s & cache' & E & Hc & Hb & _).
  - exact demo_wf.
  - exact demo_time_ok.
  - reflexivity.
  - cbn. lia.
  - intros p s H. by rewrite lookup_empty in H.
  - intros a [= <-]. apply demo_lookup. lia.
  - assert (Es : fst <$> GetStateFor demo_heap demo_checker (Some 2%nat) ∅ = Some THRESHOLD_LOCKED_IN) by (vm_compute; reflexivity).
    rewrite E in Es. cbn in Es. apply (inj Some) in Es. subst s. exists cache'. split; [exact E|]. split; [exact Hc|exact Hb].
Defined.

Lemma versionbits_transitions_witness :
  exists s s' c c', GetStateFor demo_heap demo_checker (Some 1%nat) ∅ = Some (s', c') /\
    GetStateFor demo_heap demo_checker (Some 2%nat) ∅ = Some (s, c) /\ rtc transition s' s.
Proof.
  destruct (demo_lookup 2 ltac:(lia)) as [b E]. destruct (demo_lookup 1 ltac:(lia)) as [b' E'].
  destruct (versionbits_transitions demo_heap demo_checker 2 b 1 1 b' ∅ ∅) as (s & s' & c & c' & H1 & H2 & H3 & _).
  - exact demo_wf.
  - exact demo_time_ok.
  - reflexivity.
  - cbn. lia.
  - exact demo_coherent.
  - exact demo_coherent.
  - exact E.
  - vm_compute in E. apply (inj Some) in E. subst b. vm_compute. split; discriminate.
  - vm_compute in E. apply (inj Some) in E. subst b. vm_compute. reflexivity.
  - exact E'.
  - exists s, s', c, c'. split; [exact H1|]. split; [exact H2|exact H3].
Defined.

Lemma versionbits_since_height_witness :
  exists r cache', GetStateSinceHeightFor demo_heap demo_checker (Some 2%nat) ∅ = Some (r, cache') /\ r = 3.
Proof.
  destruct (demo_lookup 2 ltac:(lia)) as [b E].
  destruct (versionbits_since_height demo_heap demo_checker 2 b ∅) as (r & c & H & _).
  - exact demo_wf.
  - exact demo_time_ok.
  - reflexivity.
  - cbn. lia.
  - exact demo_coherent.
  - exact E.
  - exists r, c. split; [exact H|]. assert (Hr : fst <$> GetStateSinceHeightFor demo_heap demo_checker (Some 2%nat) ∅ = Some 3) by (vm_compute; reflexivity).
    rewrite H in Hr. cbn in Hr. apply (inj Some) in Hr. exact Hr.
Defined.

(** The shortcut presumes that deployments start before they time out: with the
    two times exchanged the recursion of BIP 9 fails the deployment at once, and
    GetStateFor keeps it DEFINED until the start time. *)
Example versionbits_start_after_timeout :
  let ck := mk_checker (fun _ => true) 1475020800 50 1 1 in
  fst <$> GetStateFor demo_heap ck (Some 2%nat) ∅ = Some THRESHOLD_DEFINED /\
  state_at demo_heap ck (Some 2%nat) = THRESHOLD_FAILED.
Proof. vm_compute. split; reflexivity. Qed.
