(* ===== verification/Script.v ===== *)
(** * Script: script/script.h and script/script.cpp

    Script numbers, the instruction reader, the builders of pushes, FindAndDelete
    and the classification of scripts.  A script, and a position in it, is the list
    of the bytes from there on; byte vectors are lists of bytes.  A C++ exception
    or a failed assertion is [None]. *)

From S2P Require Import Prelude Words.

Abbreviation valtype := (list Z).

Definition MAX_SCRIPT_ELEMENT_SIZE : Z := 520.
Definition MAX_OPS_PER_SCRIPT : Z := 201.
Definition MAX_PUBKEYS_PER_MULTISIG : Z := 20.
Definition MAX_SCRIPT_SIZE : Z := 10000.
Definition LOCKTIME_THRESHOLD : Z := 500000000.

(** ** Opcodes used by name *)

Definition OP_0 : Z := 0x00.
Definition OP_PUSHDATA1 : Z := 0x4c.
Definition OP_PUSHDATA2 : Z := 0x4d.
Definition OP_PUSHDATA4 : Z := 0x4e.
Definition OP_1NEGATE : Z := 0x4f.
Definition OP_1 : Z := 0x51.
Definition OP_16 : Z := 0x60.
Definition OP_IF : Z := 0x63.
Definition OP_ENDIF : Z := 0x68.
Definition OP_RETURN : Z := 0x6a.
Definition OP_DUP : Z := 0x76.
Definition OP_EQUAL : Z := 0x87.
Definition OP_EQUALVERIFY : Z := 0x88.
Definition OP_HASH160 : Z := 0xa9.
Definition OP_CHECKSIG : Z := 0xac.
Definition OP_CHECKSIGVERIFY : Z := 0xad.
Definition OP_CHECKMULTISIG : Z := 0xae.
Definition OP_CHECKMULTISIGVERIFY : Z := 0xaf.
Definition OP_INVALIDOPCODE : Z := 0xff.
Definition OP_ZEROCOINMINT : Z := 0xc1.
Definition OP_ZEROCOINSPEND : Z := 0xc2.
Definition OP_SIGMAMINT : Z := 0xc3.
Definition OP_SIGMASPEND : Z := 0xc4.
Definition OP_ZEROCOINTOSIGMAREMINT : Z := 0xc8.

(** ** CScriptNum: the value is an [int64_t]

    The constructor is called with at most 5 bytes, so [set_vch] stays within 64
    bits and the shifts do not overflow. *)

(** The loop of [serialize] over the bytes of the magnitude, a [uint64_t]. *)
Fixpoint abs_bytes (fuel : nat) (absvalue : Z) : list Z :=
  match fuel with
  | O => []
  | S fuel => if absvalue =? 0 then [] else Z.land absvalue 0xff :: abs_bytes fuel (absvalue ≫ 8)
  end.

Definition serialize (value : Z) : valtype :=
  if value =? 0 then []
  else
    let neg := value <? 0 in
    let result := abs_bytes 8 (if neg then - value else value) in
    let back := List.last result 0 in
    if negb (Z.land back 0x80 =? 0) then result ++ [if neg then 0x80 else 0]
    else if neg then removelast result ++ [Z.lor back 0x80]
    else result.

(** [result |= vch[i] << 8*i], from [i] on. *)
Fixpoint or_bytes (result : Z) (i : Z) (vch : valtype) : Z :=
  match vch with
  | [] => result
  | x :: vch => or_bytes (Z.lor result (x ≪ (8 * i))) (i + 1) vch
  end.

Definition set_vch (vch : valtype) : Z :=
  match vch with
  | [] => 0
  | _ =>
      let result := or_bytes 0 0 vch in
      if negb (Z.land (List.last vch 0) 0x80 =? 0)
      then - Z.ldiff result (0x80 ≪ (8 * (Z.of_nat (length vch) - 1)))
      else result
  end.

(** The condition under which the constructor rejects a non-minimal encoding. *)
Definition non_minimal (vch : valtype) : bool :=
  (0 <? length vch)%nat && (Z.land (List.last vch 0) 0x7f =? 0) &&
  ((length vch <=? 1)%nat || (Z.land vch.[length vch - 2] 0x80 =? 0)).

Definition nDefaultMaxNumSize : nat := 4.

Definition CScriptNum (vch : valtype) (fRequireMinimal : bool) (nMaxNumSize : nat) : option Z :=
  if (nMaxNumSize <? length vch)%nat then None
  else if fRequireMinimal && non_minimal vch then None
  else Some (set_vch vch).

Definition getint (m_value : Z) : Z :=
  if 2 ^ 31 - 1 <? m_value then 2 ^ 31 - 1 else if m_value <? - 2 ^ 31 then - 2 ^ 31 else m_value.

(** ** Pushes *)

(** [operator<<] of a byte vector: the bytes appended. *)
Definition push_data (b : valtype) : list Z :=
  let n := Z.of_nat (length b) in
  (if n <? OP_PUSHDATA1 then [n]
   else if n <=? 0xff then [OP_PUSHDATA1; n]
   else if n <=? 0xffff then OP_PUSHDATA2 :: le_encode 2 n
   else OP_PUSHDATA4 :: le_encode 4 n) ++ b.

(** [operator<<] of an integer. *)
Definition push_int64 (n : Z) : list Z :=
  if (n =? -1) || ((1 <=? n) && (n <=? 16)) then [n + (OP_1 - 1)]
  else if n =? 0 then [OP_0]
  else push_data (serialize n).

(** ** The instruction reader *)

(** The size of the immediate operand and where it begins. *)
Definition operand_size (opcode : Z) (pc : list Z) : option (Z * list Z) :=
  if opcode <? OP_PUSHDATA1 then Some (opcode, pc)
  else if opcode =? OP_PUSHDATA1 then
    match pc with n :: pc => Some (n, pc) | [] => None end
  else if opcode =? OP_PUSHDATA2 then
    if (length pc <? 2)%nat then None else Some (le_decode (take 2 pc), drop 2 pc)
  else
    if (length pc <? 4)%nat then None else Some (le_decode (take 4 pc), drop 4 pc).

(** The opcode, its data and the position after it. *)
Definition GetOp (pc : list Z) : option (Z * valtype * list Z) :=
  match pc with
  | [] => None
  | opcode :: pc =>
      if opcode <=? OP_PUSHDATA4 then
        match operand_size opcode pc with
        | None => None
        | Some (nSize, pc) =>
            if Z.of_nat (length pc) <? nSize then None
            else Some (opcode, take (Z.to_nat nSize) pc, drop (Z.to_nat nSize) pc)
        end
      else if (opcode =? OP_SIGMASPEND) || (opcode =? OP_SIGMAMINT) then Some (opcode, pc, [])
      else Some (opcode, [], pc)
  end.

Definition DecodeOP_N (opcode : Z) : option Z :=
  if opcode =? OP_0 then Some 0
  else if (OP_1 <=? opcode) && (opcode <=? OP_16) then Some (opcode - (OP_1 - 1)) else None.

Definition EncodeOP_N (n : Z) : option Z :=
  if negb ((0 <=? n) && (n <=? 16)) then None else if n =? 0 then Some OP_0 else Some (OP_1 + n - 1).

(** ** FindAndDelete *)

(** [std::equal(b.begin(), b.end(), pc)] with the size check. *)
Definition starts_with (b pc : list Z) : bool := (length b <=? length pc)%nat && bool_decide (take (length b) pc = b).

Fixpoint skip_matches (fuel : nat) (b pc : list Z) (nFound : Z) : list Z * Z :=
  match fuel with
  | O => (pc, nFound)
  | S fuel => if starts_with b pc then skip_matches fuel b (drop (length b) pc) (nFound + 1) else (pc, nFound)
  end.

(** The loop: [skipped] are the bytes from [pc2] to [pc]. *)
Fixpoint delete_loop (fuel : nat) (b result skipped pc : list Z) (nFound : Z) : list Z * list Z * Z :=
  match fuel with
  | O => (result ++ skipped, pc, nFound)
  | S fuel =>
      let result := result ++ skipped in
      let '(pc, nFound) := skip_matches (length pc) b pc nFound in
      match GetOp pc with
      | Some (_, _, pc') => delete_loop fuel b result (take (length pc - length pc') pc) pc' nFound
      | None => (result, pc, nFound)
      end
  end.

(** The script after the deletions and their number. *)
Definition FindAndDelete (script b : list Z) : list Z * Z :=
  if (length b =? 0)%nat then (script, 0)
  else
    let '(result, pc2, nFound) := delete_loop (S (length script)) b [] [] script 0 in
    if 0 <? nFound then (result ++ pc2, nFound) else (script, nFound).

(** ** Counting and classifying *)

Fixpoint sigop_loop (fuel : nat) (fAccurate : bool) (pc : list Z) (lastOpcode n : Z) : Z :=
  match fuel with
  | O => n
  | S fuel =>
      match GetOp pc with
      | None => n
      | Some (opcode, _, pc) =>
          let n :=
            if (opcode =? OP_CHECKSIG) || (opcode =? OP_CHECKSIGVERIFY) then u32 (n + 1)
            else if (opcode =? OP_CHECKMULTISIG) || (opcode =? OP_CHECKMULTISIGVERIFY) then
              if fAccurate && (OP_1 <=? lastOpcode) && (lastOpcode <=? OP_16)
              then u32 (n + (lastOpcode - (OP_1 - 1))) else u32 (n + MAX_PUBKEYS_PER_MULTISIG)
            else n in
          sigop_loop fuel fAccurate pc opcode n
      end
  end.

Definition GetSigOpCount (script : list Z) (fAccurate : bool) : Z :=
  sigop_loop (length script) fAccurate script OP_INVALIDOPCODE 0.

Definition IsPayToPublicKeyHash (script : list Z) : bool :=
  (length script =? 25)%nat && (script.[0] =? OP_DUP) && (script.[1] =? OP_HASH160) && (script.[2] =? 0x14) &&
  (script.[23] =? OP_EQUALVERIFY) && (script.[24] =? OP_CHECKSIG).

Definition IsPayToScriptHash (script : list Z) : bool :=
  (length script =? 23)%nat && (script.[0] =? OP_HASH160) && (script.[1] =? 0x14) && (script.[22] =? OP_EQUAL).

Definition IsPayToWitnessScriptHash (script : list Z) : bool :=
  (length script =? 34)%nat && (script.[0] =? OP_0) && (script.[1] =? 0x20).

(** The version and the program. *)
Definition IsWitnessProgram (script : list Z) : option (Z * valtype) :=
  if (length script <? 4)%nat || (42 <? length script)%nat then None
  else if negb (script.[0] =? OP_0) && ((script.[0] <? OP_1) || (OP_16 <? script.[0])) then None
  else if script.[1] + 2 =? Z.of_nat (length script) then
    match DecodeOP_N script.[0] with Some version => Some (version, drop 2 script) | None => None end
  else None.

Definition IsUnspendable (script : list Z) : bool :=
  ((0 <? length script)%nat && (script.[0] =? OP_RETURN)) || (MAX_SCRIPT_SIZE <? Z.of_nat (length script)).

(** The script begins with the opcode. *)
Definition first_is (opcode : Z) (script : list Z) : bool := (0 <? length script)%nat && (script.[0] =? opcode).
Definition IsZerocoinMint : list Z -> bool := first_is OP_ZEROCOINMINT.
Definition IsZerocoinSpend : list Z -> bool := first_is OP_ZEROCOINSPEND.
Definition IsSigmaMint : list Z -> bool := first_is OP_SIGMAMINT.
Definition IsSigmaSpend : list Z -> bool := first_is OP_SIGMASPEND.
Definition IsZerocoinRemint : list Z -> bool := first_is OP_ZEROCOINTOSIGMAREMINT.

Fixpoint push_only_loop (fuel : nat) (pc : list Z) : bool :=
  match fuel, pc with
  | _, [] => true
  | O, _ => false
  | S fuel, _ =>
      match GetOp pc with
      | None => false
      | Some (opcode, _, pc) => if OP_16 <? opcode then false else push_only_loop fuel pc
      end
  end.

Definition IsPushOnly (script : list Z) : bool := push_only_loop (length script) script.

(** The last data pushed by a script of pushes; [None] when it is none. *)
Fixpoint last_push_loop (fuel : nat) (pc : list Z) (data : valtype) : option valtype :=
  match fuel, pc with
  | _, [] => Some data
  | O, _ => None
  | S fuel, _ =>
      match GetOp pc with
      | None => None
      | Some (opcode, data, pc) => if OP_16 <? opcode then None else last_push_loop fuel pc data
      end
  end.

(** [GetSigOpCount(scriptSig)] of the script [script]. *)
Definition GetSigOpCount_p2sh (script scriptSig : list Z) : Z :=
  if negb (IsPayToScriptHash script) then GetSigOpCount script true
  else match last_push_loop (length scriptSig) scriptSig [] with
       | None => 0
       | Some subscript => GetSigOpCount subscript true
       end.

Fixpoint canonical_loop (fuel : nat) (pc : list Z) : bool :=
  match fuel, pc with
  | _, [] => true
  | O, _ => false
  | S fuel, _ =>
      match GetOp pc with
      | None => false
      | Some (opcode, data, pc) =>
          let n := Z.of_nat (length data) in
          if OP_16 <? opcode then canonical_loop fuel pc
          else if (opcode <? OP_PUSHDATA1) && (OP_0 <? opcode) && ((n =? 1) && (data.[0] <=? 16)) then false
          else if (opcode =? OP_PUSHDATA1) && (n <? OP_PUSHDATA1) then false
          else if (opcode =? OP_PUSHDATA2) && (n <=? 0xFF) then false
          else if (opcode =? OP_PUSHDATA4) && (n <=? 0xFFFF) then false
          else canonical_loop fuel pc
      end
  end.

Definition HasCanonicalPushes (script : list Z) : bool := canonical_loop (length script) script.
