(* ===== verification/Interpreter.v ===== *)
(** * Interpreter: script/interpreter.cpp

    EvalScript and VerifyScript.  The virtual class BaseSignatureChecker is the
    record [checker]; CPubKey::CheckLowS, which the secp256k1 library computes, is a
    parameter.  The stacks are lists with the top first: [stacktop(-i)] is element
    [i - 1].  A C++ exception inside EvalScript (a script number that is too long or
    not minimal, an access outside the stack) is caught there and becomes
    SCRIPT_ERR_UNKNOWN_ERROR; a failed assertion aborts, [None] in VerifyScript. *)

From S2P Require Import Prelude Words CryptoCommon Sha256 Sha1 Ripemd160 Hash Script.

(** ** Errors and flags *)

Inductive ScriptError :=
  | SCRIPT_ERR_UNKNOWN_ERROR | SCRIPT_ERR_EVAL_FALSE | SCRIPT_ERR_OP_RETURN | SCRIPT_ERR_SCRIPT_SIZE | SCRIPT_ERR_PUSH_SIZE | SCRIPT_ERR_OP_COUNT | SCRIPT_ERR_STACK_SIZE | SCRIPT_ERR_SIG_COUNT | SCRIPT_ERR_PUBKEY_COUNT
  | SCRIPT_ERR_VERIFY | SCRIPT_ERR_EQUALVERIFY | SCRIPT_ERR_CHECKMULTISIGVERIFY | SCRIPT_ERR_CHECKSIGVERIFY | SCRIPT_ERR_NUMEQUALVERIFY
  | SCRIPT_ERR_BAD_OPCODE | SCRIPT_ERR_DISABLED_OPCODE | SCRIPT_ERR_INVALID_STACK_OPERATION | SCRIPT_ERR_INVALID_ALTSTACK_OPERATION | SCRIPT_ERR_UNBALANCED_CONDITIONAL
  | SCRIPT_ERR_NEGATIVE_LOCKTIME | SCRIPT_ERR_UNSATISFIED_LOCKTIME
  | SCRIPT_ERR_SIG_HASHTYPE | SCRIPT_ERR_SIG_DER | SCRIPT_ERR_MINIMALDATA | SCRIPT_ERR_SIG_PUSHONLY | SCRIPT_ERR_SIG_HIGH_S | SCRIPT_ERR_SIG_NULLDUMMY | SCRIPT_ERR_PUBKEYTYPE | SCRIPT_ERR_CLEANSTACK | SCRIPT_ERR_MINIMALIF | SCRIPT_ERR_SIG_NULLFAIL
  | SCRIPT_ERR_DISCOURAGE_UPGRADABLE_NOPS | SCRIPT_ERR_DISCOURAGE_UPGRADABLE_WITNESS_PROGRAM
  | SCRIPT_ERR_WITNESS_PROGRAM_WRONG_LENGTH | SCRIPT_ERR_WITNESS_PROGRAM_WITNESS_EMPTY | SCRIPT_ERR_WITNESS_PROGRAM_MISMATCH | SCRIPT_ERR_WITNESS_MALLEATED | SCRIPT_ERR_WITNESS_MALLEATED_P2SH | SCRIPT_ERR_WITNESS_UNEXPECTED | SCRIPT_ERR_WITNESS_PUBKEYTYPE.

(** [true], or [false] with an error. *)
Inductive result (A : Type) := Ok (a : A) | Fail (e : ScriptError).
Arguments Ok {A} a.
Arguments Fail {A} e.

Definition bind {A B} (r : result A) (k : A -> result B) : result B :=
  match r with Ok a => k a | Fail e => Fail e end.
Notation "'let?' x := r 'in' k" := (bind r (fun x => k)) (at level 10, x pattern, k at level 200).

Definition SCRIPT_VERIFY_P2SH : Z := 1 ≪ 0.
Definition SCRIPT_VERIFY_STRICTENC : Z := 1 ≪ 1.
Definition SCRIPT_VERIFY_DERSIG : Z := 1 ≪ 2.
Definition SCRIPT_VERIFY_LOW_S : Z := 1 ≪ 3.
Definition SCRIPT_VERIFY_NULLDUMMY : Z := 1 ≪ 4.
Definition SCRIPT_VERIFY_SIGPUSHONLY : Z := 1 ≪ 5.
Definition SCRIPT_VERIFY_MINIMALDATA : Z := 1 ≪ 6.
Definition SCRIPT_VERIFY_DISCOURAGE_UPGRADABLE_NOPS : Z := 1 ≪ 7.
Definition SCRIPT_VERIFY_CLEANSTACK : Z := 1 ≪ 8.
Definition SCRIPT_VERIFY_CHECKLOCKTIMEVERIFY : Z := 1 ≪ 9.
Definition SCRIPT_VERIFY_CHECKSEQUENCEVERIFY : Z := 1 ≪ 10.
Definition SCRIPT_VERIFY_WITNESS : Z := 1 ≪ 11.
Definition SCRIPT_VERIFY_DISCOURAGE_UPGRADABLE_WITNESS_PROGRAM : Z := 1 ≪ 12.
Definition SCRIPT_VERIFY_MINIMALIF : Z := 1 ≪ 13.
Definition SCRIPT_VERIFY_NULLFAIL : Z := 1 ≪ 14.
Definition SCRIPT_VERIFY_WITNESS_PUBKEYTYPE : Z := 1 ≪ 15.

(** [(flags & flag) != 0] *)
Definition has (flags flag : Z) : bool := negb (Z.land flags flag =? 0).

Inductive SigVersion := SIGVERSION_BASE | SIGVERSION_WITNESS_V0.

Record checker := mk_checker {
  CheckSig : valtype -> valtype -> list Z -> SigVersion -> bool;
  CheckLockTime : Z -> bool;
  CheckSequence : Z -> bool }.

(** ** Encodings *)

Fixpoint cast_loop (vch : valtype) : bool :=
  match vch with
  | [] => false
  | x :: rest => if negb (x =? 0) then negb ((length rest =? 0)%nat && (x =? 0x80)) else cast_loop rest
  end.
Definition CastToBool (vch : valtype) : bool := cast_loop vch.

Definition IsCompressedOrUncompressedPubKey (vchPubKey : valtype) : bool :=
  if (length vchPubKey <? 33)%nat then false
  else if vchPubKey.[0] =? 0x04 then (length vchPubKey =? 65)%nat
  else if (vchPubKey.[0] =? 0x02) || (vchPubKey.[0] =? 0x03) then (length vchPubKey =? 33)%nat
  else false.

Definition IsCompressedPubKey (vchPubKey : valtype) : bool :=
  if negb (length vchPubKey =? 33)%nat then false
  else if negb (vchPubKey.[0] =? 0x02) && negb (vchPubKey.[0] =? 0x03) then false
  else true.

Definition IsValidSignatureEncoding (sig : valtype) : bool :=
  let size := Z.of_nat (length sig) in
  if size <? 9 then false
  else if 73 <? size then false
  else if negb (sig.[0] =? 0x30) then false
  else if negb (sig.[1] =? size - 3) then false
  else
    let lenR := sig.[3] in
    if size <=? 5 + lenR then false
    else
      let lenS := sig.[Z.to_nat (5 + lenR)] in
      if negb (lenR + lenS + 7 =? size) then false
      else if negb (sig.[2] =? 0x02) then false
      else if lenR =? 0 then false
      else if negb (Z.land sig.[4] 0x80 =? 0) then false
      else if (1 <? lenR) && (sig.[4] =? 0x00) && (Z.land sig.[5] 0x80 =? 0) then false
      else if negb (sig.[Z.to_nat (lenR + 4)] =? 0x02) then false
      else if lenS =? 0 then false
      else if negb (Z.land sig.[Z.to_nat (lenR + 6)] 0x80 =? 0) then false
      else if (1 <? lenS) && (sig.[Z.to_nat (lenR + 6)] =? 0x00) && (Z.land sig.[Z.to_nat (lenR + 7)] 0x80 =? 0) then false
      else true.

Definition IsDefinedHashtypeSignature (vchSig : valtype) : bool :=
  if (length vchSig =? 0)%nat then false
  else
    let nHashType := Z.land vchSig.[length vchSig - 1] (u8 (Z.lnot 0x80)) in
    negb ((nHashType <? 1) || (3 <? nHashType)).

Section checks.
Context (CheckLowS : valtype -> bool).

Definition IsLowDERSignature (vchSig : valtype) : result unit :=
  if negb (IsValidSignatureEncoding vchSig) then Fail SCRIPT_ERR_SIG_DER
  else if negb (CheckLowS (take (length vchSig - 1) vchSig)) then Fail SCRIPT_ERR_SIG_HIGH_S
  else Ok tt.

Definition CheckSignatureEncoding (vchSig : valtype) (flags : Z) : result unit :=
  if (length vchSig =? 0)%nat then Ok tt
  else if has flags (Z.lor (Z.lor SCRIPT_VERIFY_DERSIG SCRIPT_VERIFY_LOW_S) SCRIPT_VERIFY_STRICTENC) && negb (IsValidSignatureEncoding vchSig)
  then Fail SCRIPT_ERR_SIG_DER
  else
    let? _ := if has flags SCRIPT_VERIFY_LOW_S then IsLowDERSignature vchSig else Ok tt in
    if has flags SCRIPT_VERIFY_STRICTENC && negb (IsDefinedHashtypeSignature vchSig) then Fail SCRIPT_ERR_SIG_HASHTYPE
    else Ok tt.

Definition CheckPubKeyEncoding (vchPubKey : valtype) (flags : Z) (sigversion : SigVersion) : result unit :=
  if has flags SCRIPT_VERIFY_STRICTENC && negb (IsCompressedOrUncompressedPubKey vchPubKey) then Fail SCRIPT_ERR_PUBKEYTYPE
  else if has flags SCRIPT_VERIFY_WITNESS_PUBKEYTYPE && (match sigversion with SIGVERSION_WITNESS_V0 => true | _ => false end)
          && negb (IsCompressedPubKey vchPubKey) then Fail SCRIPT_ERR_WITNESS_PUBKEYTYPE
  else Ok tt.

Definition CheckMinimalPush (data : valtype) (opcode : Z) : bool :=
  let n := Z.of_nat (length data) in
  if n =? 0 then opcode =? OP_0
  else if (n =? 1) && (1 <=? data.[0]) && (data.[0] <=? 16) then opcode =? OP_1 + (data.[0] - 1)
  else if (n =? 1) && (data.[0] =? 0x81) then opcode =? OP_1NEGATE
  else if n <=? 75 then opcode =? n
  else if n <=? 255 then opcode =? OP_PUSHDATA1
  else if n <=? 65535 then opcode =? OP_PUSHDATA2
  else true.

(** ** The instructions *)

Inductive unary := U_1ADD | U_1SUB | U_NEGATE | U_ABS | U_NOT | U_0NOTEQUAL.
Inductive binary := B_ADD | B_SUB | B_BOOLAND | B_BOOLOR | B_NUMEQUAL | B_NUMEQUALVERIFY | B_NUMNOTEQUAL
  | B_LESSTHAN | B_GREATERTHAN | B_LESSTHANOREQUAL | B_GREATERTHANOREQUAL | B_MIN | B_MAX.
Inductive hash_op := H_RIPEMD160 | H_SHA1 | H_SHA256 | H_HASH160 | H_HASH256.

(** The cases of the [switch]; [I_number] is OP_1NEGATE and OP_1 to OP_16, the
    boolean of an instruction its NOT or VERIFY form. *)
Inductive instruction :=
  | I_number (n : Z) | I_NOP | I_CHECKLOCKTIMEVERIFY | I_CHECKSEQUENCEVERIFY | I_upgradable_NOP
  | I_IF (negate : bool) | I_ELSE | I_ENDIF | I_VERIFY | I_RETURN
  | I_TOALTSTACK | I_FROMALTSTACK | I_2DROP | I_2DUP | I_3DUP | I_2OVER | I_2ROT | I_2SWAP | I_IFDUP | I_DEPTH
  | I_DROP | I_DUP | I_NIP | I_OVER | I_PICK | I_ROLL | I_ROT | I_SWAP | I_TUCK | I_SIZE
  | I_EQUAL (verify : bool) | I_unary (op : unary) | I_binary (op : binary) | I_WITHIN
  | I_hash (op : hash_op) | I_CODESEPARATOR | I_CHECKSIG (verify : bool) | I_CHECKMULTISIG (verify : bool)
  | I_invalid.

Definition decode (opcode : Z) : instruction :=
  match opcode with
  | 0x4f => I_number (-1)
  | 0x51 => I_number (1)
  | 0x52 => I_number (2)
  | 0x53 => I_number (3)
  | 0x54 => I_number (4)
  | 0x55 => I_number (5)
  | 0x56 => I_number (6)
  | 0x57 => I_number (7)
  | 0x58 => I_number (8)
  | 0x59 => I_number (9)
  | 0x5a => I_number (10)
  | 0x5b => I_number (11)
  | 0x5c => I_number (12)
  | 0x5d => I_number (13)
  | 0x5e => I_number (14)
  | 0x5f => I_number (15)
  | 0x60 => I_number (16)
  | 0x61 => I_NOP | 0xb1 => I_CHECKLOCKTIMEVERIFY | 0xb2 => I_CHECKSEQUENCEVERIFY | 0xb0 => I_upgradable_NOP
  | 0xb3 => I_upgradable_NOP | 0xb4 => I_upgradable_NOP | 0xb5 => I_upgradable_NOP | 0xb6 => I_upgradable_NOP
  | 0xb7 => I_upgradable_NOP | 0xb8 => I_upgradable_NOP | 0xb9 => I_upgradable_NOP | 0x63 => I_IF false
  | 0x64 => I_IF true | 0x67 => I_ELSE | 0x68 => I_ENDIF | 0x69 => I_VERIFY
  | 0x6a => I_RETURN | 0x6b => I_TOALTSTACK | 0x6c => I_FROMALTSTACK | 0x6d => I_2DROP
  | 0x6e => I_2DUP | 0x6f => I_3DUP | 0x70 => I_2OVER | 0x71 => I_2ROT
  | 0x72 => I_2SWAP | 0x73 => I_IFDUP | 0x74 => I_DEPTH | 0x75 => I_DROP
  | 0x76 => I_DUP | 0x77 => I_NIP | 0x78 => I_OVER | 0x79 => I_PICK
  | 0x7a => I_ROLL | 0x7b => I_ROT | 0x7c => I_SWAP | 0x7d => I_TUCK
  | 0x82 => I_SIZE | 0x87 => I_EQUAL false | 0x88 => I_EQUAL true | 0x8b => I_unary U_1ADD
  | 0x8c => I_unary U_1SUB | 0x8f => I_unary U_NEGATE | 0x90 => I_unary U_ABS | 0x91 => I_unary U_NOT
  | 0x92 => I_unary U_0NOTEQUAL | 0x93 => I_binary B_ADD | 0x94 => I_binary B_SUB | 0x9a => I_binary B_BOOLAND
  | 0x9b => I_binary B_BOOLOR | 0x9c => I_binary B_NUMEQUAL | 0x9d => I_binary B_NUMEQUALVERIFY | 0x9e => I_binary B_NUMNOTEQUAL
  | 0x9f => I_binary B_LESSTHAN | 0xa0 => I_binary B_GREATERTHAN | 0xa1 => I_binary B_LESSTHANOREQUAL | 0xa2 => I_binary B_GREATERTHANOREQUAL
  | 0xa3 => I_binary B_MIN | 0xa4 => I_binary B_MAX | 0xa5 => I_WITHIN | 0xa6 => I_hash H_RIPEMD160
  | 0xa7 => I_hash H_SHA1 | 0xa8 => I_hash H_SHA256 | 0xa9 => I_hash H_HASH160 | 0xaa => I_hash H_HASH256
  | 0xab => I_CODESEPARATOR | 0xac => I_CHECKSIG false | 0xad => I_CHECKSIG true | 0xae => I_CHECKMULTISIG false
  | 0xaf => I_CHECKMULTISIG true
  | _ => I_invalid
  end.

(** The opcodes that fail even when they are not executed. *)
Definition disabled (opcode : Z) : bool :=
  existsb (Z.eqb opcode) [0x7e; 0x7f; 0x80; 0x81; 0x83; 0x84; 0x85; 0x86; 0x8d; 0x8e; 0x95; 0x96; 0x97; 0x98; 0x99].

(** ** The state of EvalScript *)

Record estate := mk_estate {
  stack : list valtype; altstack : list valtype; vfExec : list bool; nOpCount : Z; pbegincodehash : list Z }.

Definition with_stack (st : estate) (s : list valtype) : estate := mk_estate s (altstack st) (vfExec st) (nOpCount st) (pbegincodehash st).
Definition with_stacks (st : estate) (s a : list valtype) : estate := mk_estate s a (vfExec st) (nOpCount st) (pbegincodehash st).
Definition with_vfExec (st : estate) (v : list bool) : estate := mk_estate (stack st) (altstack st) v (nOpCount st) (pbegincodehash st).

Definition vchFalse : valtype := [].
Definition vchTrue : valtype := [1].

(** [stacktop(-i)]: [at] throws outside the stack. *)
Definition stacktop (s : list valtype) (i : Z) : result valtype :=
  match s !! Z.to_nat (i - 1) with Some v => Ok v | None => Fail SCRIPT_ERR_UNKNOWN_ERROR end.

Definition popstack (s : list valtype) : result (list valtype) :=
  match s with _ :: s => Ok s | [] => Fail SCRIPT_ERR_UNKNOWN_ERROR end.

(** ** Arithmetic: operands have at most 4 bytes, so the 64-bit operators are exact *)

Definition of_bool (b : bool) : Z := if b then 1 else 0.

Definition exec_unary (op : unary) (bn : Z) : Z :=
  match op with
  | U_1ADD => bn + 1
  | U_1SUB => bn - 1
  | U_NEGATE => - bn
  | U_ABS => if bn <? 0 then - bn else bn
  | U_NOT => of_bool (bn =? 0)
  | U_0NOTEQUAL => of_bool (negb (bn =? 0))
  end.

Definition exec_binary (op : binary) (bn1 bn2 : Z) : Z :=
  match op with
  | B_ADD => bn1 + bn2
  | B_SUB => bn1 - bn2
  | B_BOOLAND => of_bool (negb (bn1 =? 0) && negb (bn2 =? 0))
  | B_BOOLOR => of_bool (negb (bn1 =? 0) || negb (bn2 =? 0))
  | B_NUMEQUAL | B_NUMEQUALVERIFY => of_bool (bn1 =? bn2)
  | B_NUMNOTEQUAL => of_bool (negb (bn1 =? bn2))
  | B_LESSTHAN => of_bool (bn1 <? bn2)
  | B_GREATERTHAN => of_bool (bn2 <? bn1)
  | B_LESSTHANOREQUAL => of_bool (bn1 <=? bn2)
  | B_GREATERTHANOREQUAL => of_bool (bn2 <=? bn1)
  | B_MIN => if bn1 <? bn2 then bn1 else bn2
  | B_MAX => if bn2 <? bn1 then bn1 else bn2
  end.

(** The hashes; [uninit] is the uninitialised buffer of the new hasher objects. *)
Definition exec_hash (uninit : list Z) (op : hash_op) (vch : valtype) : valtype :=
  match op with
  | H_RIPEMD160 => RIPEMD160_Finalize (RIPEMD160_Write (CRIPEMD160 uninit) vch)
  | H_SHA1 => SHA1_Finalize (SHA1_Write (CSHA1 uninit) vch)
  | H_SHA256 => SHA256_Finalize (SHA256_Write (CSHA256 uninit) vch)
  | H_HASH160 => CHash160_Finalize uninit (CHash160_Write (CHash160 uninit) vch)
  | H_HASH256 => CHash256_Finalize (CHash256_Write (CHash256 uninit) vch)
  end.

(** ** EvalScript *)

Section eval.
Context (uninit : list Z) (flags : Z) (checker : checker) (sigversion : SigVersion).

Definition fRequireMinimal : bool := has flags SCRIPT_VERIFY_MINIMALDATA.

Definition num (vch : valtype) (nMaxNumSize : nat) : result Z :=
  match CScriptNum vch fRequireMinimal nMaxNumSize with Some v => Ok v | None => Fail SCRIPT_ERR_UNKNOWN_ERROR end.

(** The push of the result of a check and, in the VERIFY form, its removal. *)
Definition push_check (st : estate) (s : list valtype) (fSuccess verify : bool) (e : ScriptError) : result estate :=
  if verify then if fSuccess then Ok (with_stack st s) else Fail e
  else Ok (with_stack st ((if fSuccess then vchTrue else vchFalse) :: s)).

(** OP_CHECKLOCKTIMEVERIFY and OP_CHECKSEQUENCEVERIFY *)
Definition exec_locktime (st : estate) : result estate :=
  if negb (has flags SCRIPT_VERIFY_CHECKLOCKTIMEVERIFY) then
    if has flags SCRIPT_VERIFY_DISCOURAGE_UPGRADABLE_NOPS then Fail SCRIPT_ERR_DISCOURAGE_UPGRADABLE_NOPS else Ok st
  else match stack st with
  | [] => Fail SCRIPT_ERR_INVALID_STACK_OPERATION
  | v :: _ =>
      let? nLockTime := num v 5 in
      if nLockTime <? 0 then Fail SCRIPT_ERR_NEGATIVE_LOCKTIME
      else if negb (CheckLockTime checker nLockTime) then Fail SCRIPT_ERR_UNSATISFIED_LOCKTIME
      else Ok st
  end.

Definition SEQUENCE_LOCKTIME_DISABLE_FLAG : Z := 1 ≪ 31.

Definition exec_sequence (st : estate) : result estate :=
  if negb (has flags SCRIPT_VERIFY_CHECKSEQUENCEVERIFY) then
    if has flags SCRIPT_VERIFY_DISCOURAGE_UPGRADABLE_NOPS then Fail SCRIPT_ERR_DISCOURAGE_UPGRADABLE_NOPS else Ok st
  else match stack st with
  | [] => Fail SCRIPT_ERR_INVALID_STACK_OPERATION
  | v :: _ =>
      let? nSequence := num v 5 in
      if nSequence <? 0 then Fail SCRIPT_ERR_NEGATIVE_LOCKTIME
      else if negb (Z.land nSequence SEQUENCE_LOCKTIME_DISABLE_FLAG =? 0) then Ok st
      else if negb (CheckSequence checker nSequence) then Fail SCRIPT_ERR_UNSATISFIED_LOCKTIME
      else Ok st
  end.

(** OP_IF and OP_NOTIF *)
Definition exec_if (fExec negate : bool) (st : estate) : result estate :=
  if negb fExec then Ok (with_vfExec st (false :: vfExec st))
  else match stack st with
  | [] => Fail SCRIPT_ERR_UNBALANCED_CONDITIONAL
  | vch :: s =>
      let minimal_if := match sigversion with SIGVERSION_WITNESS_V0 => has flags SCRIPT_VERIFY_MINIMALIF | _ => false end in
      if minimal_if && (1 <? length vch)%nat then Fail SCRIPT_ERR_MINIMALIF
      else if minimal_if && ((length vch =? 1)%nat && negb (vch.[0] =? 1)) then Fail SCRIPT_ERR_MINIMALIF
      else
        let fValue := if negate then negb (CastToBool vch) else CastToBool vch in
        Ok (with_vfExec (with_stack st s) (fValue :: vfExec st))
  end.

(** OP_PICK and OP_ROLL *)
Definition exec_pick (roll : bool) (st : estate) : result estate :=
  match stack st with
  | v :: _ :: _ =>
      let? bn := num v nDefaultMaxNumSize in
      let n := getint bn in
      let? s := popstack (stack st) in
      if (n <? 0) || (Z.of_nat (length s) <=? n) then Fail SCRIPT_ERR_INVALID_STACK_OPERATION
      else
        let? vch := stacktop s (n + 1) in
        Ok (with_stack st (vch :: (if roll then take (Z.to_nat n) s ++ drop (S (Z.to_nat n)) s else s)))
  | _ => Fail SCRIPT_ERR_INVALID_STACK_OPERATION
  end.

(** OP_CHECKSIG: the script that the signature commits to, then the check. *)
Definition drop_signature (scriptCode : list Z) (vchSig : valtype) : list Z :=
  match sigversion with SIGVERSION_BASE => (FindAndDelete scriptCode (push_data vchSig)).1 | _ => scriptCode end.

Definition check_encodings (vchSig vchPubKey : valtype) : result unit :=
  let? _ := CheckSignatureEncoding vchSig flags in CheckPubKeyEncoding vchPubKey flags sigversion.

Definition exec_checksig (verify : bool) (st : estate) : result estate :=
  match stack st with
  | vchPubKey :: vchSig :: s =>
      let scriptCode := drop_signature (pbegincodehash st) vchSig in
      let? _ := check_encodings vchSig vchPubKey in
      let fSuccess := CheckSig checker vchSig vchPubKey scriptCode sigversion in
      if negb fSuccess && has flags SCRIPT_VERIFY_NULLFAIL && negb (length vchSig =? 0)%nat then Fail SCRIPT_ERR_SIG_NULLFAIL
      else push_check st s fSuccess verify SCRIPT_ERR_CHECKSIGVERIFY
  | _ => Fail SCRIPT_ERR_INVALID_STACK_OPERATION
  end.

(** OP_CHECKMULTISIG: the signatures dropped from the script, the matching of
    signatures with keys, and the removal of the arguments. *)
Fixpoint drop_signatures (n : nat) (isig : Z) (s : list valtype) (scriptCode : list Z) : result (list Z) :=
  match n with
  | O => Ok scriptCode
  | S n => let? vchSig := stacktop s isig in drop_signatures n (isig + 1) s (drop_signature scriptCode vchSig)
  end.

Fixpoint multisig_loop (fuel : nat) (s : list valtype) (scriptCode : list Z) (isig ikey nSigsCount nKeysCount : Z) : result bool :=
  if nSigsCount <=? 0 then Ok true
  else match fuel with
  | O => Ok false
  | S fuel =>
      let? vchSig := stacktop s isig in
      let? vchPubKey := stacktop s ikey in
      let? _ := check_encodings vchSig vchPubKey in
      let fOk := CheckSig checker vchSig vchPubKey scriptCode sigversion in
      let isig := if fOk then isig + 1 else isig in
      let nSigsCount := if fOk then nSigsCount - 1 else nSigsCount in
      let nKeysCount := nKeysCount - 1 in
      if nKeysCount <? nSigsCount then Ok false
      else multisig_loop fuel s scriptCode isig (ikey + 1) nSigsCount nKeysCount
  end.

Fixpoint cleanup_loop (n : nat) (s : list valtype) (fSuccess : bool) (ikey2 : Z) : result (list valtype) :=
  match n with
  | O => Ok s
  | S n =>
      let? v := stacktop s 1 in
      if negb fSuccess && has flags SCRIPT_VERIFY_NULLFAIL && (ikey2 =? 0) && negb (length v =? 0)%nat
      then Fail SCRIPT_ERR_SIG_NULLFAIL
      else let? s := popstack s in cleanup_loop n s fSuccess (if 0 <? ikey2 then ikey2 - 1 else ikey2)
  end.

Definition exec_checkmultisig (verify : bool) (st : estate) : result estate :=
  let s := stack st in
  let size := Z.of_nat (length s) in
  if size <? 1 then Fail SCRIPT_ERR_INVALID_STACK_OPERATION
  else
    let? v := stacktop s 1 in
    let? bn := num v nDefaultMaxNumSize in
    let nKeysCount := getint bn in
    if (nKeysCount <? 0) || (MAX_PUBKEYS_PER_MULTISIG <? nKeysCount) then Fail SCRIPT_ERR_PUBKEY_COUNT
    else
      let nOpCount := nOpCount st + nKeysCount in
      if MAX_OPS_PER_SCRIPT <? nOpCount then Fail SCRIPT_ERR_OP_COUNT
      else
        let ikey := 2 in
        let ikey2 := nKeysCount + 2 in
        let i := 2 + nKeysCount in
        if size <? i then Fail SCRIPT_ERR_INVALID_STACK_OPERATION
        else
          let? v := stacktop s i in
          let? bn := num v nDefaultMaxNumSize in
          let nSigsCount := getint bn in
          if (nSigsCount <? 0) || (nKeysCount <? nSigsCount) then Fail SCRIPT_ERR_SIG_COUNT
          else
            let isig := i + 1 in
            let i := isig + nSigsCount in
            if size <? i then Fail SCRIPT_ERR_INVALID_STACK_OPERATION
            else
              let? scriptCode := drop_signatures (Z.to_nat nSigsCount) isig s (pbegincodehash st) in
              let? fSuccess := multisig_loop (Z.to_nat nKeysCount) s scriptCode isig ikey nSigsCount nKeysCount in
              let? s := cleanup_loop (Z.to_nat (i - 1)) s fSuccess ikey2 in
              match s with
              | [] => Fail SCRIPT_ERR_INVALID_STACK_OPERATION
              | dummy :: s =>
                  if has flags SCRIPT_VERIFY_NULLDUMMY && negb (length dummy =? 0)%nat then Fail SCRIPT_ERR_SIG_NULLDUMMY
                  else push_check (mk_estate s (altstack st) (vfExec st) nOpCount (pbegincodehash st)) s fSuccess verify SCRIPT_ERR_CHECKMULTISIGVERIFY
              end.

(** The [switch]; [pc] is the position after the instruction. *)
Definition exec (i : instruction) (fExec : bool) (pc : list Z) (st : estate) : result estate :=
  let invalid := Fail SCRIPT_ERR_INVALID_STACK_OPERATION in
  match i with
  | I_number n => Ok (with_stack st (serialize n :: stack st))
  | I_NOP => Ok st
  | I_CHECKLOCKTIMEVERIFY => exec_locktime st
  | I_CHECKSEQUENCEVERIFY => exec_sequence st
  | I_upgradable_NOP =>
      if has flags SCRIPT_VERIFY_DISCOURAGE_UPGRADABLE_NOPS then Fail SCRIPT_ERR_DISCOURAGE_UPGRADABLE_NOPS else Ok st
  | I_IF negate => exec_if fExec negate st
  | I_ELSE => match vfExec st with b :: v => Ok (with_vfExec st (negb b :: v)) | [] => Fail SCRIPT_ERR_UNBALANCED_CONDITIONAL end
  | I_ENDIF => match vfExec st with _ :: v => Ok (with_vfExec st v) | [] => Fail SCRIPT_ERR_UNBALANCED_CONDITIONAL end
  | I_VERIFY => match stack st with v :: s => if CastToBool v then Ok (with_stack st s) else Fail SCRIPT_ERR_VERIFY | _ => invalid end
  | I_RETURN => Fail SCRIPT_ERR_OP_RETURN
  | I_TOALTSTACK => match stack st with v :: s => Ok (with_stacks st s (v :: altstack st)) | _ => invalid end
  | I_FROMALTSTACK =>
      match altstack st with v :: a => Ok (with_stacks st (v :: stack st) a) | _ => Fail SCRIPT_ERR_INVALID_ALTSTACK_OPERATION end
  | I_2DROP => match stack st with _ :: _ :: s => Ok (with_stack st s) | _ => invalid end
  | I_2DUP => match stack st with x2 :: x1 :: s => Ok (with_stack st (x2 :: x1 :: x2 :: x1 :: s)) | _ => invalid end
  | I_3DUP => match stack st with x3 :: x2 :: x1 :: s => Ok (with_stack st (x3 :: x2 :: x1 :: x3 :: x2 :: x1 :: s)) | _ => invalid end
  | I_2OVER => match stack st with x4 :: x3 :: x2 :: x1 :: s => Ok (with_stack st (x2 :: x1 :: x4 :: x3 :: x2 :: x1 :: s)) | _ => invalid end
  | I_2ROT =>
      match stack st with
      | x6 :: x5 :: x4 :: x3 :: x2 :: x1 :: s => Ok (with_stack st (x2 :: x1 :: x6 :: x5 :: x4 :: x3 :: s))
      | _ => invalid
      end
  | I_2SWAP => match stack st with x4 :: x3 :: x2 :: x1 :: s => Ok (with_stack st (x2 :: x1 :: x4 :: x3 :: s)) | _ => invalid end
  | I_IFDUP => match stack st with v :: s => Ok (if CastToBool v then with_stack st (v :: v :: s) else st) | _ => invalid end
  | I_DEPTH => Ok (with_stack st (serialize (Z.of_nat (length (stack st))) :: stack st))
  | I_DROP => match stack st with _ :: s => Ok (with_stack st s) | _ => invalid end
  | I_DUP => match stack st with v :: s => Ok (with_stack st (v :: v :: s)) | _ => invalid end
  | I_NIP => match stack st with x2 :: _ :: s => Ok (with_stack st (x2 :: s)) | _ => invalid end
  | I_OVER => match stack st with x2 :: x1 :: s => Ok (with_stack st (x1 :: x2 :: x1 :: s)) | _ => invalid end
  | I_PICK => exec_pick false st
  | I_ROLL => exec_pick true st
  | I_ROT => match stack st with x3 :: x2 :: x1 :: s => Ok (with_stack st (x1 :: x3 :: x2 :: s)) | _ => invalid end
  | I_SWAP => match stack st with x2 :: x1 :: s => Ok (with_stack st (x1 :: x2 :: s)) | _ => invalid end
  | I_TUCK => match stack st with x2 :: x1 :: s => Ok (with_stack st (x2 :: x1 :: x2 :: s)) | _ => invalid end
  | I_SIZE => match stack st with v :: s => Ok (with_stack st (serialize (Z.of_nat (length v)) :: v :: s)) | _ => invalid end
  | I_EQUAL verify =>
      match stack st with
      | vch2 :: vch1 :: s => push_check st s (bool_decide (vch1 = vch2)) verify SCRIPT_ERR_EQUALVERIFY
      | _ => invalid
      end
  | I_unary op =>
      match stack st with
      | v :: s => let? bn := num v nDefaultMaxNumSize in Ok (with_stack st (serialize (exec_unary op bn) :: s))
      | _ => invalid
      end
  | I_binary op =>
      match stack st with
      | v2 :: v1 :: s =>
          let? bn1 := num v1 nDefaultMaxNumSize in
          let? bn2 := num v2 nDefaultMaxNumSize in
          let v := serialize (exec_binary op bn1 bn2) in
          match op with
          | B_NUMEQUALVERIFY => if CastToBool v then Ok (with_stack st s) else Fail SCRIPT_ERR_NUMEQUALVERIFY
          | _ => Ok (with_stack st (v :: s))
          end
      | _ => invalid
      end
  | I_WITHIN =>
      match stack st with
      | v3 :: v2 :: v1 :: s =>
          let? bn1 := num v1 nDefaultMaxNumSize in
          let? bn2 := num v2 nDefaultMaxNumSize in
          let? bn3 := num v3 nDefaultMaxNumSize in
          Ok (with_stack st ((if (bn2 <=? bn1) && (bn1 <? bn3) then vchTrue else vchFalse) :: s))
      | _ => invalid
      end
  | I_hash op => match stack st with v :: s => Ok (with_stack st (exec_hash uninit op v :: s)) | _ => invalid end
  | I_CODESEPARATOR => Ok (mk_estate (stack st) (altstack st) (vfExec st) (nOpCount st) pc)
  | I_CHECKSIG verify => exec_checksig verify st
  | I_CHECKMULTISIG verify => exec_checkmultisig verify st
  | I_invalid => Fail SCRIPT_ERR_BAD_OPCODE
  end.

Definition MAX_STACK : Z := 1000.

(** One turn of the loop: the new state and position. *)
Definition step (pc : list Z) (st : estate) : result (estate * list Z) :=
  let fExec := forallb id (vfExec st) in
  match GetOp pc with
  | None => Fail SCRIPT_ERR_BAD_OPCODE
  | Some (opcode, vchPushValue, pc) =>
      if MAX_SCRIPT_ELEMENT_SIZE <? Z.of_nat (length vchPushValue) then Fail SCRIPT_ERR_PUSH_SIZE
      else
        let nOpCount := if OP_16 <? opcode then nOpCount st + 1 else nOpCount st in
        if (OP_16 <? opcode) && (MAX_OPS_PER_SCRIPT <? nOpCount) then Fail SCRIPT_ERR_OP_COUNT
        else
          let st := mk_estate (stack st) (altstack st) (vfExec st) nOpCount (pbegincodehash st) in
          if disabled opcode then Fail SCRIPT_ERR_DISABLED_OPCODE
          else
            let? st :=
              if fExec && (opcode <=? OP_PUSHDATA4) then
                if fRequireMinimal && negb (CheckMinimalPush vchPushValue opcode) then Fail SCRIPT_ERR_MINIMALDATA
                else Ok (with_stack st (vchPushValue :: stack st))
              else if fExec || ((OP_IF <=? opcode) && (opcode <=? OP_ENDIF)) then exec (decode opcode) fExec pc st
              else Ok st in
            if MAX_STACK <? Z.of_nat (length (stack st)) + Z.of_nat (length (altstack st)) then Fail SCRIPT_ERR_STACK_SIZE
            else Ok (st, pc)
  end.

(** Every instruction has at least one byte: the length of the script is enough fuel. *)
Fixpoint eval_loop (fuel : nat) (pc : list Z) (st : estate) : result estate :=
  match pc with
  | [] => Ok st
  | _ => match fuel with
         | O => Fail SCRIPT_ERR_UNKNOWN_ERROR
         | S fuel => let? r := step pc st in eval_loop fuel r.2 r.1
         end
  end.

(** The stack after the script. *)
Definition EvalScript (s : list valtype) (script : list Z) : result (list valtype) :=
  if MAX_SCRIPT_SIZE <? Z.of_nat (length script) then Fail SCRIPT_ERR_SCRIPT_SIZE
  else
    let? st := eval_loop (length script) script (mk_estate s [] [] 0 script) in
    match vfExec st with [] => Ok (stack st) | _ => Fail SCRIPT_ERR_UNBALANCED_CONDITIONAL end.

End eval.

(** ** VerifyScript *)

(** The continuation of VerifyScript aborts ([None]) when an assertion fails. *)
Definition bind_abort {A B} (r : result A) (k : A -> option (result B)) : option (result B) :=
  match r with Ok a => k a | Fail e => Some (Fail e) end.
Notation "'let!' x := r 'in' k" := (bind_abort r (fun x => k)) (at level 10, x pattern, k at level 200).

Definition assert {A} (b : bool) (k : option A) : option A := if b then k else None.

(** [stack.resize(1)] keeps the bottom. *)
Definition resize1 (s : list valtype) : list valtype := [List.last s []].

Section verify.
Context (uninit : list Z) (flags : Z) (checker : checker).

(** The evaluation left [true] on the top. *)
Definition top_is_true (s : list valtype) : result unit :=
  match s with
  | [] => Fail SCRIPT_ERR_EVAL_FALSE
  | v :: _ => if CastToBool v then Ok tt else Fail SCRIPT_ERR_EVAL_FALSE
  end.

(** The script and the initial stack of a version 0 program; [witness] lists the
    items from the bottom. *)
Definition witness_script (witness : list valtype) (program : valtype) : result (list Z * list valtype) :=
  if (length program =? 32)%nat then
    if (length witness =? 0)%nat then Fail SCRIPT_ERR_WITNESS_PROGRAM_WITNESS_EMPTY
    else
      let scriptPubKey := List.last witness [] in
      let hashScriptPubKey := SHA256_Finalize (SHA256_Write (CSHA256 uninit) scriptPubKey) in
      if bool_decide (hashScriptPubKey = program) then Ok (scriptPubKey, rev (removelast witness))
      else Fail SCRIPT_ERR_WITNESS_PROGRAM_MISMATCH
  else if (length program =? 20)%nat then
    if negb (length witness =? 2)%nat then Fail SCRIPT_ERR_WITNESS_PROGRAM_MISMATCH
    else Ok ([OP_DUP; OP_HASH160] ++ push_data program ++ [OP_EQUALVERIFY; OP_CHECKSIG], rev witness)
  else Fail SCRIPT_ERR_WITNESS_PROGRAM_WRONG_LENGTH.

Definition VerifyWitnessProgram (witness : list valtype) (witversion : Z) (program : valtype) : result unit :=
  if witversion =? 0 then
    let? r := witness_script witness program in
    let '(scriptPubKey, s) := r in
    if existsb (fun v => MAX_SCRIPT_ELEMENT_SIZE <? Z.of_nat (length v)) s then Fail SCRIPT_ERR_PUSH_SIZE
    else
      let? s := EvalScript uninit flags checker SIGVERSION_WITNESS_V0 s scriptPubKey in
      if negb (length s =? 1)%nat then Fail SCRIPT_ERR_EVAL_FALSE else top_is_true s
  else if has flags SCRIPT_VERIFY_DISCOURAGE_UPGRADABLE_WITNESS_PROGRAM then Fail SCRIPT_ERR_DISCOURAGE_UPGRADABLE_WITNESS_PROGRAM
  else Ok tt.

(** A witness program, bare or in a P2SH script: the stack and [hadWitness] after it. *)
Definition verify_program (script : list Z) (sig_ok : bool) (e : ScriptError) (witness : list valtype) (s : list valtype) (hadWitness : bool) : result (list valtype * bool) :=
  if has flags SCRIPT_VERIFY_WITNESS then
    match IsWitnessProgram script with
    | Some (witnessversion, witnessprogram) =>
        if negb sig_ok then Fail e
        else let? _ := VerifyWitnessProgram witness witnessversion witnessprogram in Ok (resize1 s, true)
    | None => Ok (s, hadWitness)
    end
  else Ok (s, hadWitness).

Definition VerifyScript (scriptSig scriptPubKey : list Z) (witness : option (list valtype)) : option (result unit) :=
  let witness := default [] witness in
  let eval := EvalScript uninit flags checker SIGVERSION_BASE in
  if has flags SCRIPT_VERIFY_SIGPUSHONLY && negb (IsPushOnly scriptSig) then Some (Fail SCRIPT_ERR_SIG_PUSHONLY)
  else
    let! s := eval [] scriptSig in
    let stackCopy := if has flags SCRIPT_VERIFY_P2SH then s else [] in
    let! s := eval s scriptPubKey in
    let! _ := top_is_true s in
    let! r := verify_program scriptPubKey (length scriptSig =? 0)%nat SCRIPT_ERR_WITNESS_MALLEATED witness s false in
    let finish (s : list valtype) (hadWitness : bool) :=
      assert (negb (has flags SCRIPT_VERIFY_CLEANSTACK) || (has flags SCRIPT_VERIFY_P2SH && has flags SCRIPT_VERIFY_WITNESS))
        (if has flags SCRIPT_VERIFY_CLEANSTACK && negb (length s =? 1)%nat then Some (Fail SCRIPT_ERR_CLEANSTACK)
         else assert (negb (has flags SCRIPT_VERIFY_WITNESS) || has flags SCRIPT_VERIFY_P2SH)
           (if has flags SCRIPT_VERIFY_WITNESS && negb hadWitness && negb (length witness =? 0)%nat
            then Some (Fail SCRIPT_ERR_WITNESS_UNEXPECTED) else Some (Ok tt))) in
    let '(s, hadWitness) := r in
    if has flags SCRIPT_VERIFY_P2SH && IsPayToScriptHash scriptPubKey then
      if negb (IsPushOnly scriptSig) then Some (Fail SCRIPT_ERR_SIG_PUSHONLY)
      else match stackCopy with
      | [] => None
      | pubKeySerialized :: s =>
          let pubKey2 := pubKeySerialized in
          let! s := eval s pubKey2 in
          let! _ := top_is_true s in
          let! r := verify_program pubKey2 (bool_decide (scriptSig = push_data pubKey2)) SCRIPT_ERR_WITNESS_MALLEATED_P2SH witness s hadWitness in
          finish r.1 r.2
      end
    else finish s hadWitness.

End verify.
End checks.

(** ** TransactionSignatureChecker: lock times *)

Definition SEQUENCE_FINAL : Z := 0xffffffff.
Definition SEQUENCE_LOCKTIME_TYPE_FLAG : Z := 1 ≪ 22.
Definition SEQUENCE_LOCKTIME_MASK : Z := 0x0000ffff.

(** [txLockTime] and [nSequence] are the fields of the transaction and of its input. *)
Definition tx_CheckLockTime (txLockTime nSequence : Z) (nLockTime : Z) : bool :=
  if negb (((txLockTime <? LOCKTIME_THRESHOLD) && (nLockTime <? LOCKTIME_THRESHOLD)) ||
           ((LOCKTIME_THRESHOLD <=? txLockTime) && (LOCKTIME_THRESHOLD <=? nLockTime))) then false
  else if txLockTime <? nLockTime then false
  else if SEQUENCE_FINAL =? nSequence then false
  else true.

Definition tx_CheckSequence (txVersion txToSequence : Z) (nSequence : Z) : bool :=
  if u32 txVersion <? 2 then false
  else if negb (Z.land txToSequence SEQUENCE_LOCKTIME_DISABLE_FLAG =? 0) then false
  else
    let nLockTimeMask := Z.lor SEQUENCE_LOCKTIME_TYPE_FLAG SEQUENCE_LOCKTIME_MASK in
    let txToSequenceMasked := Z.land txToSequence nLockTimeMask in
    let nSequenceMasked := Z.land nSequence nLockTimeMask in
    if negb (((txToSequenceMasked <? SEQUENCE_LOCKTIME_TYPE_FLAG) && (nSequenceMasked <? SEQUENCE_LOCKTIME_TYPE_FLAG)) ||
             ((SEQUENCE_LOCKTIME_TYPE_FLAG <=? txToSequenceMasked) && (SEQUENCE_LOCKTIME_TYPE_FLAG <=? nSequenceMasked))) then false
    else if txToSequenceMasked <? nSequenceMasked then false
    else true.

(** ** Signature operations of a witness *)

Definition WitnessSigOps (witversion : Z) (witprogram : valtype) (witness : list valtype) : Z :=
  if witversion =? 0 then
    if (length witprogram =? 20)%nat then 1
    else if (length witprogram =? 32)%nat && (0 <? length witness)%nat then GetSigOpCount (List.last witness []) true
    else 0
  else 0.

(** The data of the last instruction read; the script is one of pushes. *)
Fixpoint last_data_loop (fuel : nat) (pc : list Z) (data : valtype) : valtype :=
  match fuel, pc with
  | O, _ | _, [] => data
  | S fuel, _ => match GetOp pc with Some (_, data, pc) => last_data_loop fuel pc data | None => data end
  end.

Definition CountWitnessSigOps (scriptSig scriptPubKey : list Z) (witness : option (list valtype)) (flags : Z) : option Z :=
  if negb (has flags SCRIPT_VERIFY_WITNESS) then Some 0
  else assert (has flags SCRIPT_VERIFY_P2SH)
    (Some match IsWitnessProgram scriptPubKey with
          | Some (version, program) => WitnessSigOps version program (default [] witness)
          | None =>
              if IsPayToScriptHash scriptPubKey && IsPushOnly scriptSig then
                match IsWitnessProgram (last_data_loop (length scriptSig) scriptSig []) with
                | Some (version, program) => WitnessSigOps version program (default [] witness)
                | None => 0
                end
              else 0
          end).
