(* ===== verification/InterpreterCorrect.v ===== *)
(** * InterpreterCorrect: the instruction reader and the limits of EvalScript

    Every turn of the loop consumes a byte, so EvalScript terminates; it keeps the
    limits on elements, stacks and operations whatever the script is.

    [serialize] and [set_vch] against the mathematical reading of a script number: a
    little-endian magnitude whose highest bit is the sign. *)

From S2P Require Import Prelude Words CryptoCommon ShaSpec Sha256 Sha1 Ripemd160 ShaStream ShaRounds Hash HashCorrect Script.
From S2P Require Import Interpreter.

(** ** The magnitude *)

Lemma or_bytes_decode vch r i :
  0 <= i -> word (8 * i) r -> Forall byte vch -> or_bytes r i vch = r + 2 ^ (8 * i) * le_decode vch.
Proof.
  intros Hi Hr Hb. revert r i Hi Hr. induction Hb as [|x vch Hx Hb IH]; intros r i Hi Hr; cbn [or_bytes le_decode]; [lia|].
  destruct Hx as [Hx0 Hx]. rewrite lor_shiftl_add by (try done; lia).
  assert (Hp : 2 ^ (8 * (i + 1)) = 2 ^ (8 * i) * 256) by (rewrite <-(Z.pow_add_r 2 _ 8) by lia; f_equal; lia).
  rewrite IH, Hp; [ring|lia|]. destruct Hr. split; [nia|]. rewrite Hp. change (2 ^ 8) with 256 in Hx. nia.
Qed.

(** Bytes of the magnitude: they have no leading zero. *)
Lemma abs_bytes_spec fuel a :
  0 <= a < 256 ^ Z.of_nat fuel ->
  Forall byte (abs_bytes fuel a) /\ le_decode (abs_bytes fuel a) = a /\ (length (abs_bytes fuel a) <= fuel)%nat /\
  (a <> 0 -> List.last (abs_bytes fuel a) 0 <> 0).
Proof.
  revert a. induction fuel as [|fuel IH]; intros a Ha; cbn [abs_bytes].
  { cbn in *. repeat split; [constructor|lia..]. }
  rewrite Nat2Z.inj_succ, Z.pow_succ_r in Ha by lia.
  destruct (Z.eqb_spec a 0) as [->|Hne]; [repeat split; [constructor|cbn; lia|done]|].
  change 0xff with (Z.ones 8). rewrite Z.land_ones, Z.shiftr_div_pow2 by lia. change (2 ^ 8) with 256.
  destruct (IH (a / 256)) as (Hb & Hd & Hl & Hn).
  { split; [apply Z.div_pos; lia|]. apply Z.div_lt_upper_bound; lia. }
  pose proof (Z.mod_pos_bound a 256 ltac:(lia)).
  split; [constructor; [unfold word; lia|done]|]. cbn [le_decode length].
  split; [rewrite Hd; pose proof (Z.div_mod a 256); lia|]. split; [lia|]. intros _.
  destruct (decide (a / 256 = 0)) as [Hz|Hz].
  - assert (Hnil : abs_bytes fuel (a / 256) = []) by (rewrite Hz; by destruct fuel).
    rewrite Hnil. cbn. pose proof (Z.div_mod a 256). lia.
  - specialize (Hn Hz). destruct (abs_bytes fuel (a / 256)) as [|y l] eqn:Hl'; [by cbn in Hn|]. by cbn in *.
Qed.

Lemma bytes_snoc l x : Forall byte (l ++ [x]) <-> Forall byte l /\ byte x.
Proof. rewrite Forall_app, Forall_singleton. done. Qed.

Lemma le_decode_snoc l x : le_decode (l ++ [x]) = le_decode l + 256 ^ Z.of_nat (length l) * x.
Proof. rewrite le_decode_app. cbn [le_decode]. lia. Qed.

(** A byte string whose last byte is not zero is the magnitude of its value. *)
Lemma abs_bytes_decode fuel l x :
  Forall byte (l ++ [x]) -> x <> 0 -> (length l < fuel)%nat -> abs_bytes fuel (le_decode (l ++ [x])) = l ++ [x].
Proof.
  revert fuel. induction l as [|y l IH]; intros [|fuel] Hb Hx Hf; cbn [length] in *; try lia.
  - cbn. apply bytes_snoc in Hb as [_ [Hx0 Hx1]]. change (2 ^ 8) with 256 in *.
    rewrite Z.add_0_r. destruct (Z.eqb_spec x 0); [done|].
    change 0xff with (Z.ones 8). rewrite Z.land_ones, Z.mod_small, Z.shiftr_div_pow2, Z.div_small by (cbn; lia).
    by destruct fuel.
  - cbn [app le_decode abs_bytes]. cbn [app] in Hb. inversion Hb as [|? ? [Hy0 Hy1] Hb']; subst. change (2 ^ 8) with 256 in *.
    pose proof (le_decode_range _ Hb') as Hr.
    assert (Hpos : 0 < le_decode (l ++ [x])).
    { rewrite le_decode_snoc. apply bytes_snoc in Hb' as [Hl [Hx0 _]]. pose proof (le_decode_range _ Hl).
      pose proof (Z.pow_pos_nonneg 256 (Z.of_nat (length l))). nia. }
    destruct (Z.eqb_spec (y + 256 * le_decode (l ++ [x])) 0); [lia|].
    change 0xff with (Z.ones 8). rewrite Z.land_ones, Z.shiftr_div_pow2 by lia. change (2 ^ 8) with 256.
    rewrite (Z.mul_comm 256), Z.mod_add, Z.mod_small, Z.div_add, Z.div_small, Z.add_0_l by lia.
    f_equal. apply IH; [done..|lia].
Qed.

(** ** Sign bits *)

Lemma land_80 x : byte x -> (Z.land x 0x80 =? 0) = (x <? 128).
Proof.
  intros [H0 H1]. change (2 ^ 8) with 256 in H1.
  assert (H : forallb (fun n => Bool.eqb (Z.land (Z.of_nat n) 0x80 =? 0) (Z.of_nat n <? 128)) (seq 0 256) = true) by (vm_compute; reflexivity).
  rewrite forallb_forall in H. specialize (H (Z.to_nat x)). rewrite in_seq, Z2Nat.id in H by lia.
  apply Bool.eqb_prop, H. lia.
Qed.

Lemma land_7f x : byte x -> Z.land x 0x7f = x mod 128.
Proof. intros _. change 0x7f with (Z.ones 7). by rewrite Z.land_ones by lia. Qed.

Lemma lor_80 x : 0 <= x < 128 -> Z.lor x 0x80 = x + 128.
Proof. intros Hx. exact (lor_shiftl_add x 1 7 ltac:(lia) Hx ltac:(lia)). Qed.

(** The highest byte of [set_vch]'s magnitude, without the sign. *)
Lemma ldiff_sign a x k :
  0 <= k -> word (8 * k) a -> 128 <= x < 256 -> Z.ldiff (a + 2 ^ (8 * k) * x) (0x80 ≪ (8 * k)) = a + 2 ^ (8 * k) * (x - 128).
Proof.
  intros Hk Ha Hx. replace (2 ^ (8 * k) * x) with (x * 2 ^ (8 * k)) by ring.
  rewrite <-lor_shiftl_add by (try done; lia).
  replace x with (Z.lor (x - 128) 0x80) at 1 by (rewrite lor_80 by lia; lia).
  replace (a + 2 ^ (8 * k) * (x - 128)) with (Z.lor a ((x - 128) ≪ (8 * k))) by (rewrite lor_shiftl_add by (try done; lia); ring).
  apply Z.bits_inj'. intros i Hi. rewrite Z.ldiff_spec, !Z.lor_spec.
  destruct (Z.ltb_spec i (8 * k)) as [Hlt|Hge].
  - rewrite !Z.shiftl_spec_low by lia. by rewrite !orb_false_r, andb_true_r.
  - rewrite !Z.shiftl_spec, Z.lor_spec by lia. rewrite (word_bit_high (8 * k) a i) by (done || lia). cbn [orb].
    rewrite (Z.pow2_bits_eqb 7 (i - 8 * k) ltac:(lia) : Z.testbit 0x80 _ = _). destruct (Z.eqb_spec 7 (i - 8 * k)) as [He|He].
    + rewrite <-He. by rewrite (word_bit_high 7 (x - 128) 7) by (unfold word; change (2 ^ 7) with 128; lia).
    + by rewrite orb_false_r, andb_true_r.
Qed.

Lemma set_vch_snoc l x :
  Forall byte (l ++ [x]) ->
  set_vch (l ++ [x]) = if x <? 128 then le_decode (l ++ [x]) else - le_decode (l ++ [x - 128]).
Proof.
  intros Hb. pose proof Hb as [Hl Hx]%bytes_snoc. unfold set_vch.
  destruct (l ++ [x]) eqn:E; [by destruct l|]. rewrite <-E in *. clear E.
  rewrite last_last, land_80, length_app by done. cbn [length].
  rewrite or_bytes_decode by (done || lia). cbn [Z.mul]. change (2 ^ 0) with 1.
  destruct (Z.ltb_spec x 128); cbn [negb]; [lia|]. f_equal.
  replace (Z.of_nat (length l + 1) - 1) with (Z.of_nat (length l)) by lia.
  pose proof (le_decode_word _ _ Hl eq_refl) as Hw. destruct Hx as [_ Hx]. change (2 ^ 8) with 256 in Hx.
  rewrite !le_decode_snoc. replace (256 ^ Z.of_nat (length l)) with (2 ^ (8 * Z.of_nat (length l))) by (rewrite Z.pow_mul_r by lia; done).
  rewrite Z.add_0_l, Z.mul_1_l, ldiff_sign by (done || lia). done.
Qed.

(** ** Minimal encodings *)

Lemma non_minimal_snoc l x :
  Forall byte (l ++ [x]) ->
  non_minimal (l ++ [x]) = (x mod 128 =? 0) && match rev l with [] => true | y :: _ => y <? 128 end.
Proof.
  intros Hb. pose proof Hb as [Hl Hx]%bytes_snoc. unfold non_minimal.
  rewrite last_last, land_7f, length_app by done. cbn [length].
  replace (0 <? length l + 1)%nat with true by (symmetry; apply Nat.ltb_lt; lia). cbn [andb]. f_equal.
  destruct l as [|y l _] using rev_ind; [done|]. rewrite rev_app_distr. cbn [rev app].
  rewrite length_app. cbn [length]. replace (length l + 1 + 1 <=? 1)%nat with false by (symmetry; apply Nat.leb_gt; lia).
  replace (length l + 1 + 1 - 2)%nat with (length l) by lia.
  rewrite <-app_assoc, app_nth2, Nat.sub_diag by lia. cbn [nth app orb]. apply bytes_snoc in Hl as [_ Hy]. by apply land_80.
Qed.

Lemma le_decode_top l x : Forall byte l -> 0 < x -> 256 ^ Z.of_nat (length l) * x <= le_decode (l ++ [x]).
Proof. intros Hl Hx. rewrite le_decode_snoc. pose proof (le_decode_range _ Hl). lia. Qed.

(** The shape of an encoding: the magnitude with the sign, in the top bit or in a byte of its own. *)
Lemma serialize_cases v :
  - 2 ^ 63 <= v < 2 ^ 63 -> v <> 0 -> exists l x,
    Forall byte (l ++ [x]) /\ x <> 0 /\ Z.abs v = le_decode (l ++ [x]) /\ (length l < 8)%nat /\
    serialize v = if x <? 128 then l ++ [if v <? 0 then x + 128 else x] else l ++ [x] ++ [if v <? 0 then 0x80 else 0].
Proof.
  intros Hv Hne. destruct (abs_bytes_spec 8 (Z.abs v)) as (Hb & Hd & Hlen & Hz); [cbn; lia|].
  specialize (Hz ltac:(lia)). unfold serialize. destruct (Z.eqb_spec v 0); [done|].
  replace (if v <? 0 then - v else v) with (Z.abs v) by (destruct (Z.ltb_spec v 0); lia).
  revert Hb Hd Hlen Hz. generalize (abs_bytes 8 (Z.abs v)). intros B.
  destruct B as [|x l _] using rev_ind; intros Hb Hd Hlen Hz; [done|].
  rewrite length_app in Hlen. cbn [length] in Hlen. rewrite last_last in Hz |- *. exists l, x.
  pose proof Hb as [Hl Hx]%bytes_snoc. split; [done|]. split; [done|]. split; [done|]. split; [lia|].
  rewrite land_80 by done. destruct (Z.ltb_spec x 128); cbn [negb]; [|by rewrite <-app_assoc].
  rewrite removelast_last. destruct Hx. destruct (v <? 0); [by rewrite lor_80 by lia|done].
Qed.

Lemma serialize_bytes v : - 2 ^ 63 <= v < 2 ^ 63 -> Forall byte (serialize v).
Proof.
  intros Hv. destruct (decide (v = 0)) as [->|Hne]; [constructor|].
  destruct (serialize_cases v Hv Hne) as (l & x & Hb & _ & _ & _ & ->). pose proof Hb as [Hl Hx]%bytes_snoc.
  destruct Hx. destruct (Z.ltb_spec x 128); [|rewrite app_assoc]; apply bytes_snoc; (split; [done|]); destruct (v <? 0); unfold word in *; lia.
Qed.

Lemma set_vch_serialize v : - 2 ^ 63 <= v < 2 ^ 63 -> set_vch (serialize v) = v.
Proof.
  intros Hv. pose proof (serialize_bytes v Hv) as Hs. destruct (decide (v = 0)) as [->|Hne]; [done|].
  destruct (serialize_cases v Hv Hne) as (l & x & Hb & Hx0 & Ha & _ & He). rewrite He in Hs |- *.
  pose proof Hb as [Hl [Hx Hx']]%bytes_snoc. destruct (Z.ltb_spec x 128).
  - rewrite set_vch_snoc by done. destruct (Z.ltb_spec v 0).
    + destruct (Z.ltb_spec (x + 128) 128); [lia|]. replace (x + 128 - 128) with x by lia. lia.
    + destruct (Z.ltb_spec x 128); lia.
  - rewrite app_assoc in Hs |- *. rewrite set_vch_snoc by done. destruct (Z.ltb_spec v 0); cbn [Z.ltb Z.compare Pos.compare Pos.compare_cont]; rewrite le_decode_snoc; lia.
Qed.

Lemma serialize_minimal v : - 2 ^ 63 <= v < 2 ^ 63 -> non_minimal (serialize v) = false.
Proof.
  intros Hv. pose proof (serialize_bytes v Hv) as Hs. destruct (decide (v = 0)) as [->|Hne]; [done|].
  destruct (serialize_cases v Hv Hne) as (l & x & Hb & Hx0 & Ha & _ & He). rewrite He in Hs |- *.
  pose proof Hb as [Hl [Hx Hx']]%bytes_snoc. destruct (Z.ltb_spec x 128).
  - rewrite non_minimal_snoc by done. apply andb_false_iff. left. apply Z.eqb_neq.
    destruct (v <? 0); [replace (x + 128) with (x + 1 * 128) by lia; rewrite Z.mod_add by lia|]; rewrite Z.mod_small; lia.
  - rewrite app_assoc in Hs |- *. rewrite non_minimal_snoc, rev_app_distr by done. cbn [rev app].
    destruct (Z.ltb_spec x 128); [lia|]. apply andb_false_r.
Qed.

Lemma serialize_set_vch vch :
  Forall byte vch -> (length vch <= 8)%nat -> non_minimal vch = false -> serialize (set_vch vch) = vch.
Proof.
  intros Hb Hlen Hm. destruct vch as [|x l _] using rev_ind; [done|].
  rewrite length_app in Hlen. cbn [length] in Hlen.
  rewrite non_minimal_snoc in Hm by done. rewrite set_vch_snoc by done. pose proof Hb as [Hl [Hx0 Hx1]]%bytes_snoc. change (2 ^ 8) with 256 in Hx1.
  set (y := x mod 128) in *. assert (Hy : y = if x <? 128 then x else x - 128).
  { subst y. destruct (Z.ltb_spec x 128); [apply Z.mod_small; lia|].
    replace x with (x - 128 + 1 * 128) at 1 by lia. rewrite Z.mod_add, Z.mod_small by lia. done. }
  assert (Hv : (if x <? 128 then le_decode (l ++ [x]) else - le_decode (l ++ [x - 128])) =
               if x <? 128 then le_decode (l ++ [y]) else - le_decode (l ++ [y])) by (rewrite Hy; by destruct (x <? 128)).
  rewrite Hv. clear Hv. set (neg := negb (x <? 128)).
  (* the magnitude without leading zeros *)
  assert (Hmag : exists l' z, Forall byte (l' ++ [z]) /\ z <> 0 /\ le_decode (l ++ [y]) = le_decode (l' ++ [z]) /\
            (length l' < 8)%nat /\ (if z <? 128 then l' ++ [if neg then z + 128 else z] else l' ++ [z] ++ [if neg then 0x80 else 0]) = l ++ [x]).
  { destruct (Z.eqb_spec y 0) as [Hz|Hz].
    - destruct l as [|z l' _] using rev_ind; [done|]. rewrite rev_app_distr in Hm. cbn [rev app] in Hm.
      destruct (Z.ltb_spec z 128) as [|Hz128]; [done|]. exists l', z. rewrite length_app in Hlen. cbn [length] in Hlen.
      split; [done|]. split; [lia|]. split; [rewrite le_decode_snoc, Hz; lia|]. split; [lia|].
      destruct (Z.ltb_spec z 128); [lia|]. rewrite <-app_assoc. do 2 f_equal. subst neg. rewrite Hz in Hy.
      destruct (Z.ltb_spec x 128); cbn [negb app]; f_equal; lia.
    - exists l, y. assert (Hy128 : y < 128) by (destruct (Z.ltb_spec x 128); lia).
      split; [apply bytes_snoc; split; [done|]; unfold word; destruct (Z.ltb_spec x 128); lia|].
      split; [done|]. split; [done|]. split; [lia|]. destruct (Z.ltb_spec y 128); [|lia].
      subst neg. destruct (Z.ltb_spec x 128); cbn [negb]; do 2 f_equal; lia. }
  destruct Hmag as (l' & z & Hb' & Hz & -> & Hl' & <-).
  assert (Hpos : 0 < le_decode (l' ++ [z])).
  { pose proof Hb' as [Hb1 [? _]]%bytes_snoc. pose proof (le_decode_top l' z Hb1 ltac:(lia)).
    pose proof (Z.pow_pos_nonneg 256 (Z.of_nat (length l'))). nia. }
  assert (Hs : ((if x <? 128 then le_decode (l' ++ [z]) else - le_decode (l' ++ [z])) <? 0) = neg).
  { subst neg. destruct (x <? 128); cbn [negb]; [apply Z.ltb_ge|apply Z.ltb_lt]; lia. }
  unfold serialize. rewrite Hs. destruct (Z.eqb_spec (if x <? 128 then le_decode (l' ++ [z]) else - le_decode (l' ++ [z])) 0) as [Habs|_]; [destruct (x <? 128); lia|].
  replace (if neg then - (if x <? 128 then le_decode (l' ++ [z]) else - le_decode (l' ++ [z])) else if x <? 128 then le_decode (l' ++ [z]) else - le_decode (l' ++ [z]))
    with (le_decode (l' ++ [z])) by (subst neg; destruct (x <? 128); cbn [negb]; lia).
  rewrite abs_bytes_decode by (done || lia). rewrite last_last, removelast_last.
  pose proof Hb' as [_ Hz']%bytes_snoc. rewrite land_80 by done. destruct Hz'. destruct (Z.ltb_spec z 128); cbn [negb].
  - destruct neg; [rewrite lor_80 by lia|]; done.
  - by rewrite <-app_assoc.
Qed.

(** ** Sizes *)

Lemma pow_256 n : 256 ^ Z.of_nat n = 2 ^ (8 * Z.of_nat n).
Proof. by rewrite Z.pow_mul_r by lia. Qed.

Lemma set_vch_range vch n :
  Forall byte vch -> (length vch <= n)%nat -> (0 < n)%nat -> Z.abs (set_vch vch) < 2 ^ (8 * Z.of_nat n - 1).
Proof.
  intros Hb Hlen Hn. destruct vch as [|x l _] using rev_ind; [cbn; apply Z.pow_pos_nonneg; lia|].
  rewrite length_app in Hlen. cbn [length] in Hlen. rewrite set_vch_snoc by done.
  pose proof Hb as [Hl [Hx0 Hx1]]%bytes_snoc. change (2 ^ 8) with 256 in Hx1. pose proof (le_decode_range _ Hl) as Hr. rewrite pow_256 in Hr.
  apply Z.lt_le_trans with (2 ^ (8 * Z.of_nat (length l) + 7)); [|apply Z.pow_le_mono_r; lia].
  rewrite Z.pow_add_r by lia. change (2 ^ 7) with 128. set (P := 2 ^ (8 * Z.of_nat (length l))) in *.
  destruct (Z.ltb_spec x 128); rewrite le_decode_snoc, pow_256; fold P; nia.
Qed.

Lemma serialize_length v n :
  - 2 ^ 63 <= v < 2 ^ 63 -> (0 < n)%nat -> Z.abs v < 2 ^ (8 * Z.of_nat n - 1) -> (length (serialize v) <= n)%nat.
Proof.
  intros Hv Hn Ha. destruct (decide (v = 0)) as [->|Hne]; [cbn; lia|].
  destruct (serialize_cases v Hv Hne) as (l & x & Hb & Hx0 & Hd & _ & ->).
  pose proof Hb as [Hl [Hx _]]%bytes_snoc. pose proof (le_decode_top l x Hl ltac:(lia)) as Ht. rewrite <-Hd, pow_256 in Ht.
  pose proof (Z.pow_pos_nonneg 2 (8 * Z.of_nat (length l)) ltac:(lia) ltac:(lia)) as Hp. destruct (Z.ltb_spec x 128) as [Hs|Hs].
  - rewrite length_app. cbn [length]. assert (H : 2 ^ (8 * Z.of_nat (length l)) < 2 ^ (8 * Z.of_nat n - 1)) by nia.
    apply Z.pow_lt_mono_r_iff in H; lia.
  - rewrite !length_app. cbn [length]. assert (H : 2 ^ (8 * Z.of_nat (length l) + 7) < 2 ^ (8 * Z.of_nat n - 1)).
    { rewrite Z.pow_add_r by lia. change (2 ^ 7) with 128. nia. }
    apply Z.pow_lt_mono_r_iff in H; lia.
Qed.

(** No number needs more than 9 bytes. *)
Lemma abs_bytes_length fuel a : (length (abs_bytes fuel a) <= fuel)%nat.
Proof. revert a. induction fuel as [|fuel IH]; intros a; cbn [abs_bytes]; [done|]. destruct (a =? 0); cbn; [lia|]. specialize (IH (a ≫ 8)). lia. Qed.

Lemma length_removelast_le {A} (l : list A) : (length (removelast l) <= length l)%nat.
Proof. rewrite removelast_firstn_len, length_firstn. lia. Qed.

Lemma serialize_length_9 v : (length (serialize v) <= 9)%nat.
Proof.
  unfold serialize. destruct (v =? 0); [cbn; lia|]. cbv zeta. set (B := abs_bytes 8 _).
  pose proof (abs_bytes_length 8 (if v <? 0 then - v else v)) as H. fold B in H.
  clearbody B.
  pose proof (length_removelast_le B). destruct (negb _); [|destruct (v <? 0)]; rewrite ?length_app; cbn [length]; lia.
Qed.

(** ** The constructor *)

Lemma CScriptNum_Some vch m n v :
  CScriptNum vch m n = Some v <-> (length vch <= n)%nat /\ (m = true -> non_minimal vch = false) /\ v = set_vch vch.
Proof.
  unfold CScriptNum. destruct (Nat.ltb_spec n (length vch)) as [Hl|Hl].
  { split; [done|]. intros (H & _). lia. }
  destruct m, (non_minimal vch) eqn:Hm; cbn [andb].
  1: { split; [done|]. intros (_ & H & _). by specialize (H eq_refl). }
  all: split; [intros [= <-]; by split; [lia|]|by intros (_ & _ & ->)].
Qed.

(** ** Reading instructions *)

Lemma operand_size_suffix op pc n pc' : operand_size op pc = Some (n, pc') -> exists k, pc = k ++ pc'.
Proof.
  unfold operand_size. destruct (op <? _); [intros [= <- <-]; by exists []|].
  destruct (op =? OP_PUSHDATA1); [destruct pc as [|x pc]; [done|]; intros [= <- <-]; by exists [x]|].
  destruct (op =? OP_PUSHDATA2).
  - destruct (length pc <? 2)%nat; [done|]. intros [= <- <-]. exists (take 2 pc). by rewrite take_drop.
  - destruct (length pc <? 4)%nat; [done|]. intros [= <- <-]. exists (take 4 pc). by rewrite take_drop.
Qed.

(** An instruction is a nonempty prefix, and its data a part of it. *)
Lemma GetOp_suffix pc op d pc' : GetOp pc = Some (op, d, pc') -> exists k j, pc = k ++ d ++ j ++ pc' /\ k <> [].
Proof.
  unfold GetOp. destruct pc as [|x pc]; [done|]. destruct (x <=? OP_PUSHDATA4).
  - destruct (operand_size x pc) as [[n q]|] eqn:Hs; [|done]. destruct (_ <? n); [done|]. intros [= <- <- <-].
    destruct (operand_size_suffix _ _ _ _ Hs) as [k ->]. exists (x :: k), []. cbn [app]. by rewrite take_drop.
  - destruct (_ || _); intros [= <- <- <-]; [exists [x], []|exists [x], []]; by rewrite ?app_nil_r.
Qed.

Lemma GetOp_shorter pc op d pc' : GetOp pc = Some (op, d, pc') -> (length pc' < length pc)%nat.
Proof. intros (k & j & -> & Hk)%GetOp_suffix. rewrite !length_app. destruct k; [done|]. cbn. lia. Qed.

Lemma GetOp_bytes pc op d pc' : GetOp pc = Some (op, d, pc') -> Forall byte pc -> Forall byte d /\ Forall byte pc'.
Proof. intros (k & j & -> & _)%GetOp_suffix. rewrite !Forall_app. tauto. Qed.

Lemma step_suffix low uninit flags ck sv pc st st' pc' :
  step low uninit flags ck sv pc st = Ok (st', pc') -> exists k, pc = k ++ pc' /\ k <> [].
Proof.
  unfold step. destruct (GetOp pc) as [[[op d] q]|] eqn:Hg; [|done]. cbv zeta.
  destruct (_ <? _); [done|]. destruct (_ && _); [done|]. destruct (disabled op); [done|].
  match goal with |- bind ?r _ = _ -> _ => destruct r; cbn [bind]; [|done] end. destruct (_ <? _); [done|]. intros [= <- <-].
  destruct (GetOp_suffix _ _ _ _ Hg) as (k & j & -> & Hk). exists (k ++ d ++ j). rewrite <-!app_assoc. split; [done|]. by destruct k.
Qed.

Lemma step_shorter low uninit flags ck sv pc st st' pc' :
  step low uninit flags ck sv pc st = Ok (st', pc') -> (length pc' < length pc)%nat.
Proof. intros (k & -> & Hk)%step_suffix. rewrite length_app. destruct k; [done|]. cbn. lia. Qed.

(** ** Termination: the loop of EvalScript without fuel *)

Section runs.
Context (low : valtype -> bool) (uninit : list Z) (flags : Z) (ck : checker) (sv : SigVersion).

(** [runs pc st r]: the loop from [pc] and [st] ends with [r]. *)
Inductive runs : list Z -> estate -> result estate -> Prop :=
  | runs_end st : runs [] st (Ok st)
  | runs_fail x pc st e : step low uninit flags ck sv (x :: pc) st = Fail e -> runs (x :: pc) st (Fail e)
  | runs_step x pc st pc' st' r :
      step low uninit flags ck sv (x :: pc) st = Ok (st', pc') -> runs pc' st' r -> runs (x :: pc) st r.

Lemma eval_loop_runs fuel pc st : (length pc <= fuel)%nat -> runs pc st (eval_loop low uninit flags ck sv fuel pc st).
Proof.
  revert pc st. induction fuel as [|fuel IH]; intros [|x pc] st Hf; cbn [length] in Hf; try lia; try constructor.
  cbn [eval_loop]. destruct (step low uninit flags ck sv (x :: pc) st) as [[st' pc']|e] eqn:Hs; cbn [bind fst snd].
  - apply step_shorter in Hs as Hl. cbn [length] in Hl. eapply runs_step; [done|]. apply IH. lia.
  - by apply runs_fail.
Qed.

Lemma runs_deterministic pc st r r' : runs pc st r -> runs pc st r' -> r = r'.
Proof.
  intros H. revert r'. induction H as [st|x pc st e Hs|x pc st pc' st' r Hs H IH]; intros r' H'; inversion H' as [|? ? ? ? Hs'|? ? ? ? ? ? Hs' H'']; subst; try congruence.
  rewrite Hs in Hs'. injection Hs' as <- <-. by apply IH.
Qed.
End runs.

(** ** Limits *)

(** An element of a stack. *)
Definition element (v : valtype) : Prop := Forall byte v /\ Z.of_nat (length v) <= MAX_SCRIPT_ELEMENT_SIZE.

Record limits (script : list Z) (st : estate) : Prop := {
  stack_elements : Forall element (stack st);
  altstack_elements : Forall element (altstack st);
  op_count : 0 <= nOpCount st <= MAX_OPS_PER_SCRIPT;
  code_hash : exists k, script = k ++ pbegincodehash st }.

Lemma bind_Ok {A B} (r : result A) (k : A -> result B) b : bind r k = Ok b -> exists a, r = Ok a /\ k a = Ok b.
Proof. destruct r; [|done]. eauto. Qed.

Lemma Finalize_bytes f wr len h : (forall z, Forall byte (wr z)) -> Forall byte (Finalize f wr len h).
Proof. intros Hw. unfold Finalize. induction (s _) as [|x l IH]; cbn [flat_map]; [constructor|]. apply Forall_app. auto. Qed.

Lemma BE32_bytes z : Forall byte (WriteBE32 z).
Proof. apply Forall_rev, le_encode_bytes. Qed.

Lemma blocks_fold_length f m n st data :
  (forall st b, length st = m -> length (f st b) = m) -> length st = m -> length (blocks_fold f n st data) = m.
Proof. intros Hf. revert st data. induction n as [|n IH]; intros st data Hst; [done|]. by apply IH, Hf. Qed.

Lemma length_md_digest f init wr len msg m :
  (forall z, length (wr z) = 4%nat) -> (forall st b, length st = m -> length (f st b) = m) -> length init = m ->
  length (md_digest f init wr len msg) = (4 * m)%nat.
Proof.
  intros Hw Hf Hi. unfold md_digest. rewrite <-(blocks_fold_length f m (length (padded len msg) / 64) init (padded len msg) Hf Hi).
  generalize (blocks_fold f (length (padded len msg) / 64) init (padded len msg)). intros l.
  induction l as [|x l IH]; [done|]. cbn [flat_map length]. rewrite length_app, Hw, IH. lia.
Qed.

Lemma length_sha1 msg : length (sha1 msg) = 20%nat.
Proof. apply (length_md_digest _ _ _ _ _ 5); [done| |done]. intros st b Hst. unfold sha1_compress. by rewrite length_zip_with, sha1_step_length, Hst. Qed.

Lemma length_rmd160 msg : length (rmd160 msg) = 20%nat.
Proof. by apply (length_md_digest _ _ _ _ _ 5). Qed.

(** The hash of each opcode, by the standards. *)
Definition hash_spec (op : hash_op) (v : valtype) : valtype :=
  match op with
  | H_RIPEMD160 => rmd160 v
  | H_SHA1 => sha1 v
  | H_SHA256 => sha256 v
  | H_HASH160 => rmd160 (sha256 v)
  | H_HASH256 => sha256 (sha256 v)
  end.

Lemma exec_hash_spec uninit op v : length uninit = 64%nat -> exec_hash uninit op v = hash_spec op v.
Proof.
  intros Hu. destruct op; cbn [exec_hash hash_spec].
  - rewrite <-ripemd160_digest. apply Finalize_spec, (represents_Write _ _ _ []). by split.
  - rewrite <-sha1_digest. apply Finalize_spec, (represents_Write _ _ _ []). by split.
  - apply (SHA256_Finalize_rep _ ([] ++ v)), SHA256_Write_rep. by split.
  - rewrite <-(Hash160_spec uninit uninit v Hu Hu). unfold Hash160. reflexivity.
  - rewrite <-(Hash_spec uninit v Hu). unfold Hash. reflexivity.
Qed.

Lemma exec_hash_element uninit op v : length uninit = 64%nat -> element (exec_hash uninit op v).
Proof.
  intros Hu. split.
  - destruct op; apply Finalize_bytes; apply BE32_bytes || apply le_encode_bytes.
  - rewrite exec_hash_spec by done. unfold MAX_SCRIPT_ELEMENT_SIZE. destruct op; cbn [hash_spec]; rewrite ?length_sha256, ?length_sha1, ?length_rmd160; lia.
Qed.

Lemma serialize_element v : - 2 ^ 63 <= v < 2 ^ 63 -> element (serialize v).
Proof. intros Hv. split; [by apply serialize_bytes|]. pose proof (serialize_length_9 v). unfold MAX_SCRIPT_ELEMENT_SIZE. lia. Qed.

Lemma bool_element (b : bool) : element (if b then vchTrue else vchFalse).
Proof. unfold element, MAX_SCRIPT_ELEMENT_SIZE. destruct b; cbn; (split; [|lia]); repeat constructor; unfold word; lia. Qed.

Lemma vchTrue_element : element vchTrue.
Proof. exact (bool_element true). Qed.
Lemma vchFalse_element : element vchFalse.
Proof. exact (bool_element false). Qed.

Create HintDb elements discriminated.
#[local] Hint Resolve vchTrue_element vchFalse_element exec_hash_element : elements.

(** A number that an instruction reads. *)
Lemma num_range flags v n bn :
  num flags v n = Ok bn -> Forall byte v -> (0 < n)%nat -> Z.abs bn < 2 ^ (8 * Z.of_nat n - 1).
Proof.
  unfold num. destruct (CScriptNum _ _ _) eqn:Hn; [|done]. intros [= ->] Hb H0.
  apply CScriptNum_Some in Hn as (Hl & _ & ->). by apply set_vch_range.
Qed.

Section preserve.
Context (low : valtype -> bool) (uninit : list Z) (flags : Z) (ck : checker) (sv : SigVersion) (Huninit : length uninit = 64%nat).

(** Both stacks hold elements, the counters are in range and the code hash begins
    inside the script; [bounded st st'] is what an instruction must show. *)
Record bounded (pc : list Z) (st st' : estate) : Prop := {
  bounded_stack : Forall element (stack st');
  bounded_altstack : Forall element (altstack st');
  bounded_ops : nOpCount st <= nOpCount st' <= MAX_OPS_PER_SCRIPT \/ nOpCount st' = nOpCount st;
  bounded_hash : pbegincodehash st' = pbegincodehash st \/ pbegincodehash st' = pc }.

Lemma bounded_with_stack pc st s : Forall element s -> Forall element (altstack st) -> bounded pc st (with_stack st s).
Proof. intros. split; cbn; auto. Qed.

Lemma push_check_bounded pc st s b verify e st' :
  push_check st s b verify e = Ok st' -> Forall element s -> Forall element (altstack st) -> bounded pc st st'.
Proof.
  intros Hp Hs Ha. unfold push_check in Hp. destruct verify, b; simplify_eq; apply bounded_with_stack; try done.
  all: constructor; auto with elements.
Qed.

Lemma exec_unary_range op bn : Z.abs bn < 2 ^ 31 -> - 2 ^ 63 <= exec_unary op bn < 2 ^ 63.
Proof. intros H. destruct op; cbn [exec_unary]; unfold of_bool; repeat case_match; lia. Qed.

Lemma exec_binary_range op bn1 bn2 : Z.abs bn1 < 2 ^ 31 -> Z.abs bn2 < 2 ^ 31 -> - 2 ^ 63 <= exec_binary op bn1 bn2 < 2 ^ 63.
Proof. intros H H'. destruct op; cbn [exec_binary]; unfold of_bool; repeat case_match; lia. Qed.

Lemma exec_pick_bounded roll pc st st' :
  exec_pick flags roll st = Ok st' -> Forall element (stack st) -> Forall element (altstack st) -> bounded pc st st'.
Proof.
  unfold exec_pick. intros He Hs Ha. destruct (stack st) as [|v [|w s]] eqn:Est; [done..|].
  apply bind_Ok in He as (bn & _ & He). cbn [popstack bind] in He. destruct (_ || _); [done|].
  apply bind_Ok in He as (x & Hx & [= <-]). apply Forall_cons in Hs as [_ Hs].
  unfold stacktop in Hx. destruct (_ !! _) eqn:Hl; simplify_eq. apply (Forall_lookup_1 _ _ _ _ Hs) in Hl.
  apply bounded_with_stack; [|done]. apply Forall_cons. split; [done|]. destruct roll; [|done].
  apply Forall_app. split; [by apply Forall_take|]. apply Forall_cons in Hs as [_ Hs]. by apply Forall_drop.
Qed.

Lemma cleanup_loop_elements n s b k s' : cleanup_loop flags n s b k = Ok s' -> Forall element s -> Forall element s'.
Proof.
  revert s k. induction n as [|n IH]; intros s k Hc Hs; cbn [cleanup_loop] in Hc; [by simplify_eq|].
  apply bind_Ok in Hc as (v & _ & Hc). destruct (_ && _); [done|]. apply bind_Ok in Hc as (s1 & Hp & Hc).
  apply (IH _ _ Hc). destruct s; simplify_eq/=. by inversion Hs.
Qed.

Lemma exec_checkmultisig_bounded verify pc st st' :
  exec_checkmultisig low flags ck sv verify st = Ok st' -> Forall element (stack st) -> Forall element (altstack st) -> bounded pc st st'.
Proof.
  unfold exec_checkmultisig. cbv zeta. intros He Hs Ha. destruct (_ <? 1); [done|].
  apply bind_Ok in He as (v & _ & He). apply bind_Ok in He as (bn & _ & He).
  destruct (_ || _) eqn:Hk; [done|]. apply orb_false_iff in Hk as [Hk _]. apply Z.ltb_ge in Hk.
  destruct (Z.ltb_spec MAX_OPS_PER_SCRIPT (nOpCount st + getint bn)); [done|]. destruct (_ <? _); [done|].
  apply bind_Ok in He as (v' & _ & He). apply bind_Ok in He as (bn' & _ & He). destruct (_ || _); [done|].
  destruct (_ <? _); [done|]. apply bind_Ok in He as (code & _ & He). apply bind_Ok in He as (b & _ & He).
  apply bind_Ok in He as (s1 & Hc & He). apply cleanup_loop_elements in Hc; [|done].
  destruct s1 as [|d s1]; [done|]. destruct (_ && _); [done|]. apply Forall_cons in Hc as [_ Hc].
  apply (push_check_bounded pc) in He as [? ? [?|Ho] ?]; cbn in *; [| |done..]; split; auto; left; lia.
Qed.

Lemma exec_checksig_bounded verify pc st st' :
  exec_checksig low flags ck sv verify st = Ok st' -> Forall element (stack st) -> Forall element (altstack st) -> bounded pc st st'.
Proof.
  unfold exec_checksig. intros He Hs Ha. destruct (stack st) as [|k [|g s]]; [done..|].
  apply bind_Ok in He as (u & _ & He). destruct (_ && _); [done|].
  apply (push_check_bounded pc) in He; [done| |done]. do 2 apply Forall_cons in Hs as [_ Hs]. done.
Qed.

Lemma bounded_refl pc st : Forall element (stack st) -> Forall element (altstack st) -> bounded pc st st.
Proof. intros. split; auto. Qed.

(** Split the stack as far as the instruction looks, then the elements. *)
Ltac pop_stack :=
  repeat match goal with
  | H : match ?s with [] => _ | _ => _ end = Ok _ |- _ => destruct s; [discriminate H|]
  | H : Forall element (_ :: _) |- _ => apply Forall_cons in H as [? H]
  | H : bind _ _ = Ok _ |- _ => apply bind_Ok in H as (? & ? & H)
  end.

Lemma exec_locktime_same st st' : exec_locktime flags ck st = Ok st' -> st' = st.
Proof. unfold exec_locktime. intros He. repeat (case_match; pop_stack); congruence. Qed.

Lemma exec_sequence_same st st' : exec_sequence flags ck st = Ok st' -> st' = st.
Proof. unfold exec_sequence. intros He. repeat (case_match; pop_stack); congruence. Qed.

Lemma exec_if_bounded fExec negate pc st st' :
  exec_if flags sv fExec negate st = Ok st' -> Forall element (stack st) -> Forall element (altstack st) -> bounded pc st st'.
Proof.
  unfold exec_if. cbv zeta. intros He Hs Ha. destruct (negb fExec); [simplify_eq; split; cbn; auto|].
  destruct (stack st) as [|v s]; [done|]. apply Forall_cons in Hs as [_ Hs].
  destruct (_ && (_ <? _)%nat); [done|]. destruct (_ && _); [done|]. simplify_eq. split; cbn; auto.
Qed.

(** The operand of an arithmetic instruction. *)
Lemma num_4_range v bn : num flags v nDefaultMaxNumSize = Ok bn -> element v -> Z.abs bn < 2 ^ 31.
Proof. intros Hn [Hb _]. apply (num_range flags v 4); [exact Hn|done|lia]. Qed.

Lemma exec_bounded i fExec pc st st' :
  exec low uninit flags ck sv i fExec pc st = Ok st' -> Forall element (stack st) -> Forall element (altstack st) ->
  Z.of_nat (length (stack st)) <= MAX_STACK -> (forall n, i = I_number n -> Z.abs n <= 16) -> bounded pc st st'.
Proof.
  intros He Hs Ha Hl Hn. unfold MAX_STACK in Hl.
  destruct st as [s a v ops h]. cbn [stack altstack] in *.
  destruct i; cbn [exec stack altstack vfExec] in He.
  all: try discriminate He.
  all: try solve [by eapply exec_pick_bounded|by eapply exec_checksig_bounded|by eapply exec_checkmultisig_bounded|by eapply exec_if_bounded].
  all: try solve [pop_stack; repeat case_match; simplify_eq; (split; cbn; auto); repeat (apply Forall_cons; split); auto with elements].
  - simplify_eq. apply bounded_with_stack; [|done]. apply Forall_cons. split; [|done]. apply serialize_element. specialize (Hn n eq_refl). lia.
  - apply exec_locktime_same in He as ->. by apply bounded_refl.
  - apply exec_sequence_same in He as ->. by apply bounded_refl.
  - simplify_eq. apply bounded_with_stack; [|done]. apply Forall_cons. split; [|done]. apply serialize_element. lia.
  - pop_stack. simplify_eq. apply bounded_with_stack; [|done]. repeat (apply Forall_cons; split); auto.
    apply serialize_element. match goal with H : element _ |- _ => destruct H as [_ H]; unfold MAX_SCRIPT_ELEMENT_SIZE in H; lia end.
  - pop_stack. eapply push_check_bounded; done.
  - pop_stack. simplify_eq. apply bounded_with_stack; [|done]. apply Forall_cons. split; [|done].
    apply serialize_element, exec_unary_range. by eapply num_4_range.
  - pop_stack. match goal with H1 : num _ _ _ = Ok ?x, H2 : num _ _ _ = Ok ?y |- _ =>
      pose proof (serialize_element _ (exec_binary_range op _ _ (num_4_range _ _ H1 ltac:(done)) (num_4_range _ _ H2 ltac:(done)))) end.
    repeat case_match; simplify_eq; apply bounded_with_stack; auto.
Qed.

(** [decode] pushes small numbers only. *)
Lemma decode_number op n : decode op = I_number n -> Z.abs n <= 16.
Proof. unfold decode. intros H. repeat case_match; simplify_eq; lia. Qed.

Lemma step_limits script pc st st' pc' :
  step low uninit flags ck sv pc st = Ok (st', pc') -> Forall byte pc -> (exists k, script = k ++ pc) ->
  Z.of_nat (length (stack st) + length (altstack st)) <= MAX_STACK -> limits script st ->
  limits script st' /\ Z.of_nat (length (stack st') + length (altstack st')) <= MAX_STACK /\ Forall byte pc' /\ exists k, script = k ++ pc'.
Proof.
  intros Hst Hb [k0 Hk0] Hsize [Hs Ha Hops Hh]. apply step_suffix in Hst as Hsuf. destruct Hsuf as (k & -> & _).
  rewrite app_assoc in Hk0.
  unfold step in Hst. destruct (GetOp _) as [[[op d] q]|] eqn:Hg; [|done]. apply GetOp_bytes in Hg as [Hd Hq]; [|done].
  destruct (Z.ltb_spec MAX_SCRIPT_ELEMENT_SIZE (Z.of_nat (length d))) as [|Hdl]; [done|]. cbv zeta in Hst.
  set (ops' := if OP_16 <? op then nOpCount st + 1 else nOpCount st) in *.
  destruct ((OP_16 <? op) && (MAX_OPS_PER_SCRIPT <? ops')) eqn:Hcount; [done|]. destruct (disabled op); [done|].
  assert (Hops' : 0 <= ops' <= MAX_OPS_PER_SCRIPT).
  { subst ops'. apply andb_false_iff in Hcount. destruct (OP_16 <? op); [|done]. destruct Hcount as [|Hc%Z.ltb_ge]; [done|lia]. }
  clear Hcount. clearbody ops'. set (st1 := mk_estate (stack st) (altstack st) (vfExec st) ops' (pbegincodehash st)) in *.
  apply bind_Ok in Hst as (st2 & He & Hst). destruct (Z.ltb_spec MAX_STACK (Z.of_nat (length (stack st2)) + Z.of_nat (length (altstack st2)))) as [|Hmax]; [done|].
  injection Hst as <- <-.
  assert (Hbd : bounded q st1 st2).
  { destruct (_ && (op <=? _)).
    - destruct (_ && _); [done|]. injection He as <-. apply bounded_with_stack; [|done]. apply Forall_cons. by split.
    - destruct (_ || _); [|injection He as <-; by apply bounded_refl].
      apply exec_bounded in He; [done..|cbn; lia|]. intros n. apply decode_number. }
  destruct Hbd as [Hs2 Ha2 Ho2 Hh2]. apply Forall_app in Hb as [_ Hb].
  split; [|split; [lia|split; [done|by eexists]]]. split; [done..|subst st1; cbn in Ho2; lia|].
  destruct Hh2 as [->| ->]; [done|by eexists].
Qed.

Lemma eval_loop_limits script fuel pc st st' :
  eval_loop low uninit flags ck sv fuel pc st = Ok st' -> Forall byte pc -> (exists k, script = k ++ pc) ->
  Z.of_nat (length (stack st) + length (altstack st)) <= MAX_STACK -> limits script st ->
  limits script st' /\ Z.of_nat (length (stack st') + length (altstack st')) <= MAX_STACK.
Proof.
  revert pc st. induction fuel as [|fuel IH]; intros [|x pc] st He Hb Hk Hsize Hl; cbn [eval_loop] in He; try done; try (by simplify_eq).
  apply bind_Ok in He as ([st1 pc1] & Hs & He). cbn [fst snd] in He.
  destruct (step_limits script _ _ _ _ Hs Hb Hk Hsize Hl) as (Hl1 & Hsize1 & Hb1 & Hk1). by apply (IH pc1 st1).
Qed.
End preserve.
