(* ===== verification/InterpreterTheorems.v ===== *)
(** * InterpreterTheorems: script numbers, pushes, limits and termination *)

From S2P Require Import Prelude Words Script InterpreterCorrect Interpreter.

(** ** Numbers as truth values *)

Lemma le_decode_0 l : Forall byte l -> le_decode l = 0 <-> Forall (eq 0) l.
Proof.
  induction 1 as [|x l [Hx _] Hl IH]; cbn [le_decode]; [done|]. rewrite Forall_cons, <-IH.
  pose proof (le_decode_range _ Hl). lia.
Qed.

Lemma cast_loop_spec l x :
  Forall byte (l ++ [x]) -> cast_loop (l ++ [x]) = negb (forallb (Z.eqb 0) l && ((x =? 0) || (x =? 128))).
Proof.
  induction l as [|y l IH]; intros Hb; cbn [app cast_loop forallb].
  - cbn [length Nat.eqb andb]. destruct (Z.eqb_spec x 0); [by subst|done].
  - inversion Hb; subst. rewrite IH by done. rewrite (Z.eqb_sym 0 y). destruct (y =? 0); cbn [negb andb]; [done|].
    replace (length (l ++ [x]) =? 0)%nat with false by (by destruct l). done.
Qed.

Lemma CastToBool_nonzero vch : Forall byte vch -> CastToBool vch = negb (set_vch vch =? 0).
Proof.
  intros Hb. destruct vch as [|x l _] using rev_ind; [done|]. unfold CastToBool. rewrite cast_loop_spec, set_vch_snoc by done. f_equal.
  pose proof Hb as [Hl [Hx0 Hx1]]%bytes_snoc. change (2 ^ 8) with 256 in Hx1.
  apply eq_iff_eq_true. rewrite andb_true_iff, orb_true_iff, !Z.eqb_eq, forallb_forall.
  assert (Hall : (forall y, In y l -> (0 =? y) = true) <-> le_decode l = 0).
  { rewrite le_decode_0, Forall_forall by done. setoid_rewrite Z.eqb_eq. by setoid_rewrite list_elem_of_In. }
  rewrite Hall. pose proof (le_decode_range _ Hl). pose proof (Z.pow_pos_nonneg 256 (Z.of_nat (length l)) ltac:(lia) ltac:(lia)).
  destruct (Z.ltb_spec x 128); rewrite le_decode_snoc; nia.
Qed.

(** Script numbers.  An integer below 2^(8 n - 1) in absolute value is encoded in at most n bytes, and the constructor reads it back even when it requires minimal encodings; an encoding that the constructor accepts under that requirement is the encoding of the number that it returns, so minimal encodings are unique; and [CastToBool], which looks at bytes, is true exactly for the encodings, minimal or not, of numbers other than zero. *)
Theorem script_number_round_trip (n : nat) :
  (1 <= n <= 8)%nat ->
  (forall v, Z.abs v < 2 ^ (8 * Z.of_nat n - 1) -> CScriptNum (serialize v) true n = Some v) /\
  (forall vch v, Forall byte vch -> CScriptNum vch true n = Some v ->
     serialize v = vch /\ Z.abs v < 2 ^ (8 * Z.of_nat n - 1)) /\
  (forall vch v, Forall byte vch -> CScriptNum vch false n = Some v -> CastToBool vch = negb (v =? 0)).
Proof.
  intros Hn. split; [|split].
  - intros v Hv. assert (2 ^ (8 * Z.of_nat n - 1) <= 2 ^ 63) by (apply Z.pow_le_mono_r; lia).
    apply CScriptNum_Some. split; [apply serialize_length; lia|]. split; [intros _; apply serialize_minimal; lia|].
    symmetry. apply set_vch_serialize. lia.
  - intros vch v Hb (Hl & Hm & ->)%CScriptNum_Some. split; [|apply set_vch_range; (done || lia)].
    apply serialize_set_vch; [done|lia|by apply Hm].
  - intros vch v Hb (_ & _ & ->)%CScriptNum_Some. by apply CastToBool_nonzero.
Qed.

(** -255 takes two bytes, and negative zero is false. *)
Lemma script_number_round_trip_witness :
  (1 <= 4 <= 8)%nat /\ CScriptNum (serialize (-255)) true 4 = Some (-255) /\ CastToBool [0; 0x80] = negb (0 =? 0).
Proof.
  split; [lia|]. destruct (script_number_round_trip 4 ltac:(lia)) as (H1 & _ & H3). split.
  - apply H1. lia.
  - apply H3; [|reflexivity]. apply Forall_cons. split; [unfold word; lia|]. apply Forall_cons. split; [unfold word; lia|constructor].
Defined.

(** ** Pushes *)

(** The opcode that [push_data] chooses. *)
Definition push_opcode (b : valtype) : Z :=
  let n := Z.of_nat (length b) in
  if n <? OP_PUSHDATA1 then n else if n <=? 0xff then OP_PUSHDATA1 else if n <=? 0xffff then OP_PUSHDATA2 else OP_PUSHDATA4.

Lemma push_opcode_range b : 0 <= push_opcode b <= OP_PUSHDATA4.
Proof. unfold push_opcode, OP_PUSHDATA1, OP_PUSHDATA2, OP_PUSHDATA4. cbv zeta. repeat case_match; lia. Qed.

Lemma le_decode_encode_small n z k : 0 <= z < 256 ^ Z.of_nat n -> n = k -> le_decode (le_encode k z) = z.
Proof. intros Hz <-. by rewrite le_decode_encode, Z.mod_small. Qed.

Lemma operand_size_encoded op k z pc :
  (op, k) = (OP_PUSHDATA2, 2%nat) \/ (op, k) = (OP_PUSHDATA4, 4%nat) -> 0 <= z < 256 ^ Z.of_nat k ->
  operand_size op (le_encode k z ++ pc) = Some (z, pc).
Proof.
  intros Hop Hz. pose proof (le_decode_encode_small k z k Hz eq_refl) as Hd.
  destruct Hop as [[= -> ->]|[= -> ->]]; unfold operand_size; cbn [Z.ltb Z.eqb OP_PUSHDATA1 OP_PUSHDATA2 OP_PUSHDATA4 Z.compare Pos.compare Pos.compare_cont Pos.eqb].
  all: rewrite take_app_length', drop_app_length', Hd by done; rewrite length_app, le_encode_length.
  - by replace (2 + length pc <? 2)%nat with false by (symmetry; apply Nat.ltb_ge; lia).
  - by replace (4 + length pc <? 4)%nat with false by (symmetry; apply Nat.ltb_ge; lia).
Qed.

Lemma GetOp_push b rest : Z.of_nat (length b) < 2 ^ 32 -> GetOp (push_data b ++ rest) = Some (push_opcode b, b, rest).
Proof.
  intros Hb. unfold push_data, push_opcode. cbv zeta. set (n := Z.of_nat (length b)) in *.
  unfold OP_PUSHDATA1, OP_PUSHDATA2, OP_PUSHDATA4.
  assert (Hend : forall op x : Z, x = n -> (if Z.of_nat (length (b ++ rest)) <? x then None
      else Some (op, take (Z.to_nat x) (b ++ rest), drop (Z.to_nat x) (b ++ rest))) = Some (op, b, rest)).
  { intros op x ->. rewrite length_app. destruct (Z.ltb_spec (Z.of_nat (length b + length rest)) n); [lia|].
    subst n. rewrite Nat2Z.id. by rewrite take_app_length, drop_app_length. }
  destruct (Z.ltb_spec n 0x4c) as [H1|H1]; [|destruct (Z.leb_spec n 0xff) as [H2|H2]; [|destruct (Z.leb_spec n 0xffff) as [H3|H3]]].
  - cbn [app GetOp]. unfold OP_PUSHDATA4. destruct (Z.leb_spec n 0x4e); [|lia]. unfold operand_size, OP_PUSHDATA1.
    destruct (Z.ltb_spec n 0x4c); [|lia]. by apply Hend.
  - cbn -[Z.of_nat Z.ltb take drop length app]. by apply Hend.
  - rewrite <-!app_assoc. cbn -[Z.of_nat Z.ltb take drop length le_encode operand_size].
    rewrite (operand_size_encoded 0x4d 2 n) by (auto || lia). by apply Hend.
  - rewrite <-!app_assoc. cbn -[Z.of_nat Z.ltb take drop length le_encode operand_size].
    rewrite (operand_size_encoded 0x4e 4 n) by (auto || lia). by apply Hend.
Qed.

(** Data for which there is an opcode of its own. *)
Definition small_number (b : valtype) : Prop := exists x, b = [x] /\ (1 <= x <= 16 \/ x = 0x81).

Lemma push_opcode_minimal b : Z.of_nat (length b) < 2 ^ 32 -> ~ small_number b -> CheckMinimalPush b (push_opcode b) = true.
Proof.
  intros Hl Hs. unfold CheckMinimalPush, push_opcode. cbv zeta. set (n := Z.of_nat (length b)) in *.
  assert (Hsmall : (n =? 1) && (1 <=? b.[0]) && (b.[0] <=? 16) = false /\ (n =? 1) && (b.[0] =? 0x81) = false).
  { destruct b as [|x [|y b]]; [done| |split; [|]; (replace (n =? 1) with false by (symmetry; apply Z.eqb_neq; subst n; cbn [length]; lia); done)].
    cbn [nth]. change (n =? 1) with true. cbn [andb]. split; [apply andb_false_iff; rewrite !Z.leb_gt|apply Z.eqb_neq].
    - destruct (Z.ltb_spec x 1); [by left|]. right. destruct (Z.ltb_spec 16 x); [done|]. exfalso. apply Hs. exists x. split; [done|lia].
    - intros ->. apply Hs. exists 0x81. auto. }
  destruct Hsmall as [-> ->]. unfold OP_PUSHDATA1, OP_PUSHDATA2, OP_PUSHDATA4, OP_0.
  destruct (Z.eqb_spec n 0) as [->|]; [done|].
  destruct (Z.leb_spec n 75), (Z.ltb_spec n 0x4c); try lia.
  destruct (Z.leb_spec n 255), (Z.leb_spec n 0xff); try lia.
  destruct (Z.leb_spec n 65535), (Z.leb_spec n 0xffff); lia.
Qed.

Section stepping.
Context (low : valtype -> bool) (uninit : list Z) (flags : Z) (ck : checker) (sv : SigVersion).

(** The machine executes and has room for one more element. *)
Definition ready (st : estate) : Prop :=
  forallb id (vfExec st) = true /\ Z.of_nat (length (stack st)) + Z.of_nat (length (altstack st)) < MAX_STACK.

Lemma disabled_push op : 0 <= op <= OP_16 -> disabled op = false.
Proof.
  unfold disabled, OP_16. intros H. apply not_true_is_false. intros (x & Hin & Heq%Z.eqb_eq)%existsb_exists. cbn [In] in Hin. lia.
Qed.

Lemma step_push b pc st :
  ready st -> Z.of_nat (length b) <= MAX_SCRIPT_ELEMENT_SIZE -> (fRequireMinimal flags = true -> ~ small_number b) ->
  step low uninit flags ck sv (push_data b ++ pc) st = Ok (with_stack st (b :: stack st), pc).
Proof.
  intros [Hx Hroom] Hl Hm. unfold step. unfold MAX_SCRIPT_ELEMENT_SIZE in Hl. rewrite GetOp_push by lia. pose proof (push_opcode_range b) as Hop.
  unfold MAX_SCRIPT_ELEMENT_SIZE. destruct (Z.ltb_spec 520 (Z.of_nat (length b))); [lia|]. cbv zeta. rewrite Hx, disabled_push by (unfold OP_16, OP_PUSHDATA4 in *; lia).
  unfold OP_16, OP_PUSHDATA4 in *. destruct (Z.ltb_spec 0x60 (push_opcode b)); [lia|]. destruct (Z.leb_spec (push_opcode b) 0x4e); [|lia]. cbn [andb].
  replace (fRequireMinimal flags && negb (CheckMinimalPush b (push_opcode b))) with false.
  2: { destruct (fRequireMinimal flags); [|done]. rewrite push_opcode_minimal; [done|lia|auto]. }
  destruct st as [s a v ops h]. cbn in *. destruct (Z.ltb_spec MAX_STACK (Z.of_nat (S (length s)) + Z.of_nat (length a))); [lia|done].
Qed.

(** The operations counted for an opcode. *)
Definition count_op (op : Z) (n : Z) : Z := if OP_16 <? op then n + 1 else n.

Lemma step_opcode op pc st :
  OP_PUSHDATA4 < op -> op <> OP_SIGMASPEND -> op <> OP_SIGMAMINT -> disabled op = false ->
  forallb id (vfExec st) = true -> count_op op (nOpCount st) <= MAX_OPS_PER_SCRIPT ->
  step low uninit flags ck sv (op :: pc) st =
  bind (exec low uninit flags ck sv (decode op) true pc (mk_estate (stack st) (altstack st) (vfExec st) (count_op op (nOpCount st)) (pbegincodehash st)))
    (fun st' => if MAX_STACK <? Z.of_nat (length (stack st')) + Z.of_nat (length (altstack st')) then Fail SCRIPT_ERR_STACK_SIZE else Ok (st', pc)).
Proof.
  intros Hop H1 H2 Hd Hx Hn. unfold step, GetOp.
  destruct (Z.leb_spec op OP_PUSHDATA4); [lia|]. destruct (Z.eqb_spec op OP_SIGMASPEND), (Z.eqb_spec op OP_SIGMAMINT); try done.
  cbn [orb andb length]. change (MAX_SCRIPT_ELEMENT_SIZE <? Z.of_nat 0) with false. cbv iota zeta. fold (count_op op (nOpCount st)).
  destruct (Z.ltb_spec MAX_OPS_PER_SCRIPT (count_op op (nOpCount st))); [lia|]. rewrite Hx, Hd, andb_false_r. cbn [andb orb].
  destruct (Z.leb_spec op OP_PUSHDATA4); [lia|]. done.
Qed.

Lemma decode_small_number n : n = -1 \/ 1 <= n <= 16 -> decode (n + (OP_1 - 1)) = I_number n.
Proof.
  intros Hn.
  assert (Hcases : n = -1 \/ n = 1 \/ n = 2 \/ n = 3 \/ n = 4 \/ n = 5 \/ n = 6 \/ n = 7 \/ n = 8 \/ n = 9 \/ n = 10 \/ n = 11 \/ n = 12 \/ n = 13 \/ n = 14 \/ n = 15 \/ n = 16) by lia.
  by repeat destruct Hcases as [->|Hcases]; [..|subst n].
Qed.

Lemma step_number n pc st :
  ready st -> nOpCount st <= MAX_OPS_PER_SCRIPT -> n = -1 \/ 1 <= n <= 16 ->
  step low uninit flags ck sv ((n + (OP_1 - 1)) :: pc) st = Ok (with_stack st (serialize n :: stack st), pc).
Proof.
  intros [Hx Hroom] Hops Hn. assert (Hc : count_op (n + (OP_1 - 1)) (nOpCount st) = nOpCount st).
  { unfold count_op, OP_16, OP_1. destruct (Z.ltb_spec 0x60 (n + (0x51 - 1))); lia. }
  rewrite step_opcode, decode_small_number, Hc by (try done; rewrite ?Hc; try apply disabled_push; unfold OP_PUSHDATA4, OP_1, OP_SIGMASPEND, OP_SIGMAMINT, OP_16; lia).
  destruct st as [s a v ops h]. cbn -[Z.of_nat MAX_STACK Z.ltb serialize] in *.
  destruct (Z.ltb_spec MAX_STACK (Z.of_nat (S (length s)) + Z.of_nat (length a))); [lia|done].
Qed.
End stepping.

Lemma serialize_not_small n : - 2 ^ 63 <= n < 2 ^ 63 -> n <> -1 -> ~ 1 <= n <= 16 -> ~ small_number (serialize n).
Proof.
  intros Hr H1 H2 (x & Hx & Hs). pose proof (set_vch_serialize n Hr) as He. rewrite Hx in He.
  destruct Hs as [Hs| ->]; [|change (-1 = n) in He; lia]. apply H2. rewrite <-He.
  change [x] with ([] ++ [x]). rewrite set_vch_snoc by (apply Forall_singleton; unfold word; lia). destruct (Z.ltb_spec x 128); [|lia]. cbn [app le_decode]. lia.
Qed.

(** Pushes.  The bytes that [operator<<] appends for a byte vector are read back by GetOp as one instruction with that vector, whatever follows, and with the opcode that the minimality rule asks for unless the vector is a number with an opcode of its own; the bytes appended for an integer, executed under any flags, push the minimal encoding of the integer and nothing else. *)
Theorem script_push_round_trip (low : valtype -> bool) (uninit : list Z) (flags : Z) (ck : checker) (sv : SigVersion) (rest : list Z) :
  (forall b, Z.of_nat (length b) < 2 ^ 32 -> exists op,
     op <= OP_PUSHDATA4 /\ GetOp (push_data b ++ rest) = Some (op, b, rest) /\
     (~ small_number b -> CheckMinimalPush b op = true)) /\
  (forall n st, - 2 ^ 63 <= n < 2 ^ 63 -> ready st -> nOpCount st <= MAX_OPS_PER_SCRIPT ->
     step low uninit flags ck sv (push_int64 n ++ rest) st = Ok (with_stack st (serialize n :: stack st), rest)).
Proof.
  split.
  - intros b Hb. exists (push_opcode b). split; [apply push_opcode_range|]. split; [by apply GetOp_push|by apply push_opcode_minimal].
  - intros n st Hn Hr Hops. unfold push_int64.
    destruct (Z.eqb_spec n (-1)) as [->|H1]; [apply step_number; auto|]. destruct (Z.leb_spec 1 n), (Z.leb_spec n 16); cbn [andb orb app].
    1: by apply step_number; auto.
    all: destruct (Z.eqb_spec n 0) as [->|]; [try lia; apply (step_push _ _ _ _ _ []); (done || by intros _ (x & [=] & _))|].
    all: apply step_push; [done|pose proof (serialize_length_9 n); unfold MAX_SCRIPT_ELEMENT_SIZE; lia|intros _; apply serialize_not_small; lia].
Qed.

(** A checker that rejects everything, as BaseSignatureChecker does. *)
Definition BaseSignatureChecker : checker := mk_checker (fun _ _ _ _ => false) (fun _ => false) (fun _ => false).
Definition empty_state : estate := mk_estate [] [] [] 0 [].

Lemma script_push_round_trip_witness :
  ready empty_state /\
  (exists op, GetOp (push_data [7; 8] ++ [OP_DUP]) = Some (op, [7; 8], [OP_DUP])) /\
  step (fun _ => true) [] SCRIPT_VERIFY_MINIMALDATA BaseSignatureChecker SIGVERSION_BASE (push_int64 300 ++ [OP_DUP]) empty_state =
  Ok (with_stack empty_state [serialize 300], [OP_DUP]).
Proof.
  assert (Hr : ready empty_state) by (split; [reflexivity|cbn; unfold MAX_STACK; lia]). split; [exact Hr|].
  destruct (script_push_round_trip (fun _ => true) [] SCRIPT_VERIFY_MINIMALDATA BaseSignatureChecker SIGVERSION_BASE [OP_DUP]) as [H1 H2].
  split.
  - destruct (H1 [7; 8] ltac:(cbn; lia)) as (op & _ & He & _). exists op. exact He.
  - apply (H2 300 empty_state); [lia|exact Hr|cbn; unfold MAX_OPS_PER_SCRIPT; lia].
Defined.

(** ** EvalScript as a whole *)

Section machine.
Context (low : valtype -> bool) (uninit : list Z) (flags : Z) (ck : checker) (sv : SigVersion).

(** The positions and states that the loop reaches on a script. *)
Inductive reachable (s : list valtype) (script : list Z) : list Z -> estate -> Prop :=
  | reach_init : reachable s script script (mk_estate s [] [] 0 script)
  | reach_step pc st pc' st' :
      reachable s script pc st -> pc <> [] -> step low uninit flags ck sv pc st = Ok (st', pc') -> reachable s script pc' st'.

Lemma runs_reachable s script pc st r st' :
  runs low uninit flags ck sv pc st r -> reachable s script pc st -> r = Ok st' -> reachable s script [] st'.
Proof.
  induction 1 as [st|x pc st e Hs|x pc st pc' st1 r Hs Hr IH]; intros Hreach Hr'; [by simplify_eq|done|].
  apply IH; [|done]. by eapply reach_step.
Qed.

Lemma reachable_limits s script pc st :
  length uninit = 64%nat -> Forall byte script -> Forall element s -> Z.of_nat (length s) <= MAX_STACK ->
  reachable s script pc st ->
  limits script st /\ Z.of_nat (length (stack st) + length (altstack st)) <= MAX_STACK /\ Forall byte pc /\ exists k, script = k ++ pc.
Proof.
  intros Hu Hb Hs Hl. induction 1 as [|pc st pc' st' Hr (Hlim & Hsize & Hpc & Hk) Hne Hst].
  - split; [|split; [cbn; lia|split; [done|by exists []]]]. split; cbn; [done|constructor|unfold MAX_OPS_PER_SCRIPT; lia|by exists []].
  - by apply (step_limits low uninit flags ck sv Hu script) in Hst.
Qed.
End machine.

(** C21: The limits of Script are a type that evaluation preserves.  From a stack of at most 1000 elements, each a byte string of at most 520 bytes, and whatever the script does, in every state that the loop reaches both stacks together have at most 1000 such elements, at most 201 operations (with the keys of CHECKMULTISIG) were counted, and the code that signatures commit to is a suffix of the script; and a stack that EvalScript returns is of the same type. *)
Theorem EvalScript_limits (low : valtype -> bool) (uninit : list Z) (flags : Z) (ck : checker) (sv : SigVersion) (s : list valtype) (script : list Z) :
  length uninit = 64%nat -> Forall byte script -> Forall element s -> Z.of_nat (length s) <= MAX_STACK ->
  (forall pc st, reachable low uninit flags ck sv s script pc st ->
     limits script st /\ Z.of_nat (length (stack st) + length (altstack st)) <= MAX_STACK) /\
  (forall r, EvalScript low uninit flags ck sv s script = Ok r -> Forall element r /\ Z.of_nat (length r) <= MAX_STACK).
Proof.
  intros Hu Hb Hs Hl. split.
  - intros pc st Hr. apply reachable_limits in Hr as (? & ? & _); done.
  - intros r He. unfold EvalScript in He. destruct (_ <? _); [done|]. apply bind_Ok in He as (st & Hev & He).
    pose proof (eval_loop_runs low uninit flags ck sv (length script) script (mk_estate s [] [] 0 script) ltac:(lia)) as Hruns.
    apply (runs_reachable _ _ _ _ _ s script _ _ _ st) in Hruns; [|constructor|done].
    apply reachable_limits in Hruns as ([Hst _ _ _] & Hsize & _); [|done..].
    destruct (vfExec st); [|done]. injection He as <-. split; [done|lia].
Qed.

(** C31: EvalScript terminates on every script: reading an instruction consumes at least one byte, so the loop, taken as a relation without any bound on its turns, has exactly one outcome from the initial state, and EvalScript returns it, with the check for an open conditional; scripts over 10000 bytes are rejected before the loop. *)
Theorem EvalScript_terminates (low : valtype -> bool) (uninit : list Z) (flags : Z) (ck : checker) (sv : SigVersion) (s : list valtype) (script : list Z) :
  exists outcome,
    runs low uninit flags ck sv script (mk_estate s [] [] 0 script) outcome /\
    (forall r, runs low uninit flags ck sv script (mk_estate s [] [] 0 script) r -> r = outcome) /\
    EvalScript low uninit flags ck sv s script =
    if MAX_SCRIPT_SIZE <? Z.of_nat (length script) then Fail SCRIPT_ERR_SCRIPT_SIZE
    else match outcome with
    | Fail e => Fail e
    | Ok st => if bool_decide (vfExec st = []) then Ok (stack st) else Fail SCRIPT_ERR_UNBALANCED_CONDITIONAL
    end.
Proof.
  exists (eval_loop low uninit flags ck sv (length script) script (mk_estate s [] [] 0 script)).
  pose proof (eval_loop_runs low uninit flags ck sv (length script) script (mk_estate s [] [] 0 script) ltac:(lia)) as Hr.
  split; [done|]. split; [intros r Hr'; by eapply runs_deterministic|].
  unfold EvalScript. destruct (_ <? _); [done|]. unfold bind. destruct (eval_loop _ _ _ _ _ _ _ _) as [st|e]; [|done].
  by destruct (vfExec st).
Qed.

(** "5 5 ADD 10 NUMEQUAL". *)
Lemma EvalScript_limits_witness :
  length (replicate 64 0) = 64%nat /\
  EvalScript (fun _ => true) (replicate 64 0) 0 BaseSignatureChecker SIGVERSION_BASE [] [0x55; 0x55; 0x93; 0x5a; 0x9c] = Ok [[1]] /\
  (Forall element [[1]] /\ Z.of_nat (length [[1]]) <= MAX_STACK).
Proof.
  assert (Hb : Forall byte [0x55; 0x55; 0x93; 0x5a; 0x9c]) by (repeat (apply Forall_cons; split; [unfold word; lia|]); constructor).
  split; [reflexivity|]. split; [vm_compute; reflexivity|].
  apply (proj2 (EvalScript_limits (fun _ => true) (replicate 64 0) 0 BaseSignatureChecker SIGVERSION_BASE [] [0x55; 0x55; 0x93; 0x5a; 0x9c]
    eq_refl Hb ltac:(constructor) ltac:(cbn; unfold MAX_STACK; lia))).
  vm_compute. reflexivity.
Defined.
