(* ===== verification/InterpreterSpend.v ===== *)
(** * InterpreterSpend: what it takes to spend an output

    Strict DER signatures, the order-preserving match of CHECKMULTISIG, payment to
    a public key hash, and the assertions of VerifyScript. *)

From S2P Require Import Prelude Words CryptoCommon ShaSpec Sha256 Sha1 Ripemd160 Hash HashCorrect Script InterpreterCorrect Interpreter InterpreterTheorems.

(** ** Signature encodings *)

(** The content of a DER integer that is positive and has no superfluous byte. *)
Definition der_integer (r : list Z) : Prop :=
  r <> [] /\ r.[0] < 128 /\ ((1 < length r)%nat -> r.[0] = 0 -> 128 <= r.[1]).

(** A DER sequence of two integers, and the hash type. *)
Definition strict_der (r s : list Z) (hash_type : Z) : list Z :=
  [0x30; Z.of_nat (length r) + Z.of_nat (length s) + 4; 0x02; Z.of_nat (length r)] ++ r ++
  [0x02; Z.of_nat (length s)] ++ s ++ [hash_type].

Lemma nth_behind (r : list Z) k l : nth (length r + k) (r ++ l) 0 = nth k l 0.
Proof. apply app_nth2_plus. Qed.

(** One integer, as the code tests it: [x] and [y] are its first two bytes. *)
Definition bad_integer (len x y : Z) : bool :=
  (len =? 0) || negb (Z.land x 0x80 =? 0) || ((1 <? len) && (x =? 0) && (Z.land y 0x80 =? 0)).

Lemma der_integer_spec r l :
  Forall byte (r ++ l) -> bad_integer (Z.of_nat (length r)) (nth 0 (r ++ l) 0) (nth 1 (r ++ l) 0) = false <-> der_integer r.
Proof.
  intros Hb. unfold bad_integer, der_integer. destruct r as [|x [|y r]].
  - cbn. split; [done|]. by intros [? _].
  - inversion Hb as [|? ? Hx]; subst. cbn [app nth length]. rewrite (land_80 x) by done. change (Z.of_nat 1 =? 0) with false. change (1 <? Z.of_nat 1) with false.
    cbn [andb orb]. rewrite orb_false_r, negb_false_iff, Z.ltb_lt. split; [|tauto]. intros Hlt. split; [done|]. split; [done|]. intros Habs. lia.
  - inversion Hb as [|? ? Hx Hb']; inversion Hb' as [|? ? Hy]; subst. cbn [app nth length]. rewrite (land_80 x), (land_80 y) by done.
    destruct (Z.eqb_spec (Z.of_nat (S (S (length r)))) 0); [lia|]. destruct (Z.ltb_spec 1 (Z.of_nat (S (S (length r))))); [|lia].
    cbn [orb andb]. rewrite orb_false_iff, negb_false_iff, andb_false_iff, Z.ltb_lt, Z.eqb_neq, Z.ltb_ge.
    split; [intros [Hx1 Hx2]; split; [done|]; split; [done|]; intros _ ->; tauto|]. intros (_ & Hx1 & Hx2). split; [done|].
    destruct (decide (x = 0)); [right; apply Hx2; [lia|done]|by left].
Qed.

Lemma guard_true (b k : bool) : (if b then false else k) = true <-> b = false /\ k = true.
Proof. destruct b; [split; [done|by intros []]|tauto]. Qed.

(** The checks on a string of the right shape. *)
Lemma IsValidSignatureEncoding_shape c0 c1 c2 m lenS r s ht :
  let size := Z.of_nat (length r) + Z.of_nat (length s) + 7 in
  let sig := [c0; c1; c2; Z.of_nat (length r)] ++ r ++ [m; lenS] ++ s ++ [ht] in
  Forall byte sig ->
  IsValidSignatureEncoding sig = true <->
  9 <= size <= 73 /\ c0 = 0x30 /\ c1 = size - 3 /\ lenS = Z.of_nat (length s) /\ c2 = 2 /\ m = 2 /\ der_integer r /\ der_integer s.
Proof.
  intros size sig Hb.
  assert (Hsize : Z.of_nat (length sig) = size) by (subst sig size; rewrite !length_app; cbn [length]; lia).
  assert (Hat : forall k, 0 <= k -> sig.[Z.to_nat (Z.of_nat (length r) + 4 + k)] = nth (Z.to_nat k) ([m; lenS] ++ s ++ [ht]) 0).
  { intros k Hk. replace (Z.to_nat (Z.of_nat (length r) + 4 + k)) with (4 + (length r + Z.to_nat k))%nat by lia. unfold sig. cbn [app nth Nat.add]. apply nth_behind. }
  assert (Hr : Forall byte (r ++ [m; lenS] ++ s ++ [ht])) by (by apply Forall_app in Hb as [_ Hr]).
  assert (Hs : Forall byte (s ++ [ht])) by (by apply Forall_app in Hr as [_ [_ Hs]%Forall_app]).
  rewrite <-(der_integer_spec r _ Hr), <-(der_integer_spec s _ Hs).
  unfold IsValidSignatureEncoding. rewrite Hsize.
  replace (5 + sig.[3]) with (Z.of_nat (length r) + 4 + 1) by (unfold sig; cbn [app nth]; lia).
  replace (sig.[3] + 4) with (Z.of_nat (length r) + 4 + 0) by (unfold sig; cbn [app nth]; lia).
  replace (sig.[3] + 6) with (Z.of_nat (length r) + 4 + 2) by (unfold sig; cbn [app nth]; lia).
  replace (sig.[3] + 7) with (Z.of_nat (length r) + 4 + 3) by (unfold sig; cbn [app nth]; lia).
  rewrite !Hat by lia. change (Z.to_nat 0) with 0%nat. change (Z.to_nat 1) with 1%nat. change (Z.to_nat 2) with 2%nat. change (Z.to_nat 3) with 3%nat.
  change (sig.[4]) with (nth 0 (r ++ [m; lenS] ++ s ++ [ht]) 0). change (sig.[5]) with (nth 1 (r ++ [m; lenS] ++ s ++ [ht]) 0).
  change (nth 2 ([m; lenS] ++ s ++ [ht]) 0) with (nth 0 (s ++ [ht]) 0). change (nth 3 ([m; lenS] ++ s ++ [ht]) 0) with (nth 1 (s ++ [ht]) 0).
  subst sig. cbn [app nth]. cbv zeta. unfold bad_integer.
  generalize (nth 0 (r ++ m :: lenS :: s ++ [ht]) 0) (nth 1 (r ++ m :: lenS :: s ++ [ht]) 0) (nth 0 (s ++ [ht]) 0) (nth 1 (s ++ [ht]) 0).
  intros x y x' y'. clear. generalize (Z.land x 128) (Z.land y 128) (Z.land x' 128) (Z.land y' 128). intros zx zy zx' zy'.
  rewrite !guard_true. lia.
Qed.

(** A string that passes the size checks has the shape. *)
Lemma signature_shape sig :
  9 <= Z.of_nat (length sig) -> Forall byte sig -> 5 + sig.[3] < Z.of_nat (length sig) ->
  exists c0 c1 c2 m lenS r s ht, sig = [c0; c1; c2; Z.of_nat (length r)] ++ r ++ [m; lenS] ++ s ++ [ht] \/
    sig = [c0; c1; c2; Z.of_nat (length r)] ++ r ++ [m; lenS].
Proof.
  intros Hl Hb H5. destruct sig as [|c0 [|c1 [|c2 [|lr t]]]]; cbn [length] in Hl; try lia. cbn [nth length] in H5.
  assert (Hlr : 0 <= lr) by (apply Forall_cons in Hb as [_ [_ [_ [[? _] _]%Forall_cons]%Forall_cons]%Forall_cons]; done).
  assert (Hsplit : t = take (Z.to_nat lr) t ++ drop (Z.to_nat lr) t) by (symmetry; apply take_drop).
  assert (Hlen : length (take (Z.to_nat lr) t) = Z.to_nat lr) by (rewrite length_take; lia).
  assert (Hd : (2 <= length (drop (Z.to_nat lr) t))%nat) by (rewrite length_drop; lia).
  set (r := take (Z.to_nat lr) t) in *. destruct (drop (Z.to_nat lr) t) as [|m [|lenS rest]]; cbn [length] in Hd; try lia.
  destruct rest as [|ht s _] using rev_ind.
  - exists c0, c1, c2, m, lenS, r, [], 0. right. rewrite Hlen, Z2Nat.id, Hsplit by done. reflexivity.
  - exists c0, c1, c2, m, lenS, r, s, ht. left. rewrite Hlen, Z2Nat.id, Hsplit by done. reflexivity.
Qed.

(** C35: IsValidSignatureEncoding accepts exactly the strict DER signatures: a byte string of at most 73 bytes that is the encoding of two integers, each positive, not empty and without a superfluous zero byte, followed by one byte of hash type, with every length field exact. *)
Theorem signature_encoding_strict_der (sig : list Z) :
  Forall byte sig ->
  IsValidSignatureEncoding sig = true <->
  exists r s hash_type, sig = strict_der r s hash_type /\ der_integer r /\ der_integer s /\ (length sig <= 73)%nat.
Proof.
  intros Hb. split.
  - intros Hv. pose proof Hv as Hv'. unfold IsValidSignatureEncoding in Hv'. rewrite !guard_true in Hv'.
    destruct Hv' as (H9%Z.ltb_ge & _ & _ & _ & H5%Z.leb_gt & H7 & _).
    destruct (signature_shape sig H9 Hb H5) as (c0 & c1 & c2 & m & lenS & r & s & ht & [->| ->]).
    + apply IsValidSignatureEncoding_shape in Hv as (Hsz & -> & -> & -> & -> & -> & Hr & Hs); [|done].
      exists r, s, ht. split; [unfold strict_der; do 4 f_equal; lia|]. split; [done|]. split; [done|]. rewrite !length_app. cbn [length]. lia.
    + exfalso. apply negb_false_iff, Z.eqb_eq in H7. cbn [app nth] in H7.
      replace (Z.to_nat (5 + Z.of_nat (length r))) with (4 + (length r + 1))%nat in H7 by lia.
      cbn [Nat.add nth app] in H7. rewrite nth_behind in H7. cbn [nth length] in H7. rewrite !length_app in H7. cbn [length] in H7.
      apply Forall_app in Hb as [_ [_ [_ [[? _] _]%Forall_cons]%Forall_cons]%Forall_app]. lia.
  - intros (r & s & ht & -> & Hr & Hs & Hl). unfold strict_der in *. apply IsValidSignatureEncoding_shape; [done|].
    rewrite !length_app in Hl. cbn [length] in Hl. destruct Hr as [Hr0 Hr], Hs as [Hs0 Hs].
    assert (0 < length r)%nat by (destruct r; [done|cbn; lia]). assert (0 < length s)%nat by (destruct s; [done|cbn; lia]).
    repeat split; try done; try lia; try tauto.
Qed.

(** The shortest signature: r = 1, s = 1, SIGHASH_ALL. *)
Lemma signature_encoding_strict_der_witness :
  Forall byte (strict_der [1] [1] 1) /\ IsValidSignatureEncoding (strict_der [1] [1] 1) = true.
Proof.
  assert (Hb : Forall byte (strict_der [1] [1] 1)) by (repeat (apply Forall_cons; split; [unfold word; cbn; lia|]); constructor).
  split; [exact Hb|]. apply (signature_encoding_strict_der (strict_der [1] [1] 1) Hb). exists [1], [1], 1.
  assert (Hi : der_integer [1]) by (split; [done|]; split; [cbn; lia|]; cbn; lia).
  split; [reflexivity|]. split; [exact Hi|]. split; [exact Hi|]. cbn. lia.
Defined.

(** ** CHECKMULTISIG *)

(** Each signature is paired with a key of its own, in the order of both lists. *)
Inductive ordered_match (valid : valtype -> valtype -> bool) : list valtype -> list valtype -> Prop :=
  | match_nil keys : ordered_match valid [] keys
  | match_take sig key sigs keys : valid sig key = true -> ordered_match valid sigs keys -> ordered_match valid (sig :: sigs) (key :: keys)
  | match_skip key sigs keys : ordered_match valid sigs keys -> ordered_match valid sigs (key :: keys).

(** The match that takes the first key that fits. *)
Fixpoint greedy (valid : valtype -> valtype -> bool) (sigs keys : list valtype) : bool :=
  match sigs, keys with
  | [], _ => true
  | _, [] => false
  | sig :: sigs', key :: keys => if valid sig key then greedy valid sigs' keys else greedy valid sigs keys
  end.

Lemma ordered_match_tail valid sig sigs keys : ordered_match valid (sig :: sigs) keys -> ordered_match valid sigs keys.
Proof. intros H. remember (sig :: sigs) as l eqn:Hl. induction H; simplify_eq; by apply match_skip; auto. Qed.

Lemma ordered_match_length valid sigs keys : ordered_match valid sigs keys -> (length sigs <= length keys)%nat.
Proof. induction 1; cbn; lia. Qed.

Lemma greedy_spec valid sigs keys : greedy valid sigs keys = true <-> ordered_match valid sigs keys.
Proof.
  revert sigs. induction keys as [|key keys IH]; intros [|sig sigs]; cbn [greedy].
  - split; [constructor|done].
  - split; [done|]. intros H%ordered_match_length. cbn in H. lia.
  - split; [constructor|done].
  - destruct (valid sig key) eqn:Hv; rewrite IH.
    + split; [by apply match_take|]. intros H. inversion H; subst; [done|]. by eapply ordered_match_tail.
    + split; [by apply match_skip|]. intros H. inversion H; subst; [congruence|done].
Qed.

Lemma stacktop_drop s i (x : valtype) t : 1 <= i -> drop (Z.to_nat (i - 1)) s = x :: t -> stacktop s i = Ok x /\ drop (Z.to_nat (i + 1 - 1)) s = t.
Proof.
  intros Hi Hd. unfold stacktop. assert (Hl : s !! Z.to_nat (i - 1) = Some x).
  { rewrite <-(Nat.add_0_r (Z.to_nat (i - 1))), <-lookup_drop, Hd. done. }
  rewrite Hl. split; [done|]. replace (Z.to_nat (i + 1 - 1)) with (Z.to_nat (i - 1) + 1)%nat by lia. by rewrite <-drop_drop, Hd.
Qed.

Section multisig.
Context (low : valtype -> bool) (flags : Z) (ck : checker) (sv : SigVersion).

Lemma drop_signatures_fold s sigs rest isig code :
  1 <= isig -> drop (Z.to_nat (isig - 1)) s = sigs ++ rest ->
  drop_signatures sv (length sigs) isig s code = Ok (fold_left (drop_signature sv) sigs code).
Proof.
  revert isig code. induction sigs as [|x sigs IH]; intros isig code Hi Hd; cbn [length drop_signatures fold_left]; [done|].
  apply stacktop_drop in Hd as [-> Hd]; [|done]. cbn [bind]. apply IH; [lia|done].
Qed.

Lemma multisig_loop_greedy s code sigs keys rest rest' isig ikey :
  1 <= isig -> 1 <= ikey -> drop (Z.to_nat (isig - 1)) s = sigs ++ rest -> drop (Z.to_nat (ikey - 1)) s = keys ++ rest' ->
  (length sigs <= length keys)%nat ->
  (forall sig key, In sig sigs -> In key keys -> check_encodings low flags sv sig key = Ok tt) ->
  multisig_loop low flags ck sv (length keys) s code isig ikey (Z.of_nat (length sigs)) (Z.of_nat (length keys)) =
  Ok (greedy (fun sig key => CheckSig ck sig key code sv) sigs keys).
Proof.
  revert sigs isig ikey. induction keys as [|key keys IH]; intros sigs isig ikey Hi Hk Hds Hdk Hl He.
  { destruct sigs; [done|cbn in Hl; lia]. }
  destruct sigs as [|sig sigs]; [done|]. cbn [length multisig_loop greedy]. destruct (Z.leb_spec (Z.of_nat (S (length sigs))) 0); [lia|].
  pose proof Hds as Hds'. apply stacktop_drop in Hds' as [-> Hds']; [|done]. apply stacktop_drop in Hdk as [-> Hdk]; [|done]. cbn [bind].
  rewrite He by (by left). cbn [bind]. cbn [length] in Hl.
  replace (Z.of_nat (S (length keys)) - 1) with (Z.of_nat (length keys)) by lia.
  destruct (CheckSig ck sig key code sv).
  - replace (Z.of_nat (S (length sigs)) - 1) with (Z.of_nat (length sigs)) by lia.
    destruct (Z.ltb_spec (Z.of_nat (length keys)) (Z.of_nat (length sigs))); [lia|].
    apply IH; [lia..|done|done|lia|]. intros ? ? ? ?. apply He; by right.
  - destruct (Z.ltb_spec (Z.of_nat (length keys)) (Z.of_nat (S (length sigs)))).
    + f_equal. symmetry. apply not_true_iff_false. intros Hg%greedy_spec%ordered_match_length. cbn [length] in Hg. lia.
    + apply (IH (sig :: sigs)); [lia..|done|done|cbn [length]; lia|]. intros ? ? ? ?. apply He; [done|by right].
Qed.

Definition nonempty (v : valtype) : bool := negb (length v =? 0)%nat.

Lemma cleanup_loop_spec front tail b k :
  0 <= k ->
  cleanup_loop flags (length front) (front ++ tail) b k =
  if negb b && has flags SCRIPT_VERIFY_NULLFAIL && existsb nonempty (drop (Z.to_nat k) front) then Fail SCRIPT_ERR_SIG_NULLFAIL else Ok tail.
Proof.
  revert k. induction front as [|v front IH]; intros k Hk; cbn [length cleanup_loop app].
  { rewrite drop_nil. cbn [existsb]. by rewrite andb_false_r. }
  change (stacktop (v :: front ++ tail) 1) with (@Ok valtype v). cbn [bind popstack].
  destruct (Z.ltb_spec 0 k).
  - destruct (Z.eqb_spec k 0); [lia|]. rewrite andb_false_r. cbn [andb bind]. rewrite IH by lia.
    replace (Z.to_nat k) with (S (Z.to_nat (k - 1))) by lia. done.
  - replace k with 0 by lia. cbn [Z.eqb Z.to_nat]. rewrite andb_true_r, drop_0. cbn [existsb]. fold (nonempty v).
    destruct (negb b && has flags SCRIPT_VERIFY_NULLFAIL) eqn:E; cbn [andb].
    + destruct (nonempty v); cbn [orb bind]; [done|]. rewrite IH by lia. by rewrite drop_0.
    + rewrite IH by lia. done.
Qed.

Lemma num_small n : 0 <= n <= 20 -> num flags (serialize n) nDefaultMaxNumSize = Ok n.
Proof.
  intros Hn. unfold num. replace (CScriptNum (serialize n) (fRequireMinimal flags) nDefaultMaxNumSize) with (Some n); [done|].
  symmetry. apply CScriptNum_Some. split; [apply (serialize_length n 4); lia|]. split; [intros _; apply serialize_minimal; lia|].
  symmetry. apply set_vch_serialize. lia.
Qed.

Lemma getint_small n : 0 <= n <= 20 -> getint n = n.
Proof. intros Hn. unfold getint. destruct (Z.ltb_spec (2 ^ 31 - 1) n); [lia|]. destruct (Z.ltb_spec n (- 2 ^ 31)); lia. Qed.
End multisig.

(** C13: CHECKMULTISIG decides a match.  On a stack that holds, from the top, n, n keys, m, m signatures and the extra element, within the limits and with well-encoded keys and signatures, the single pass over the keys answers whether the signatures can be paired with distinct keys in the same order, each valid for the code that remains when the signatures are removed from it (before segregated witness); it counts n operations, removes all its arguments, and applies the NULLFAIL and NULLDUMMY rules. *)
Theorem checkmultisig_matches (low : valtype -> bool) (flags : Z) (ck : checker) (sv : SigVersion) (verify : bool) (st : estate)
    (keys sigs : list valtype) (dummy : valtype) (rest : list valtype) :
  let n := Z.of_nat (length keys) in let m := Z.of_nat (length sigs) in
  let code := fold_left (drop_signature sv) sigs (pbegincodehash st) in
  m <= n <= MAX_PUBKEYS_PER_MULTISIG -> nOpCount st + n <= MAX_OPS_PER_SCRIPT ->
  stack st = serialize n :: keys ++ serialize m :: sigs ++ dummy :: rest ->
  (forall sig key, In sig sigs -> In key keys -> check_encodings low flags sv sig key = Ok tt) ->
  exists fSuccess : bool,
    (fSuccess = true <-> ordered_match (fun sig key => CheckSig ck sig key code sv) sigs keys) /\
    exec_checkmultisig low flags ck sv verify st =
    if negb fSuccess && has flags SCRIPT_VERIFY_NULLFAIL && existsb nonempty sigs then Fail SCRIPT_ERR_SIG_NULLFAIL
    else if has flags SCRIPT_VERIFY_NULLDUMMY && nonempty dummy then Fail SCRIPT_ERR_SIG_NULLDUMMY
    else push_check (mk_estate rest (altstack st) (vfExec st) (nOpCount st + n) (pbegincodehash st)) rest fSuccess verify SCRIPT_ERR_CHECKMULTISIGVERIFY.
Proof.
  intros n m code Hmn Hops Hst He. unfold MAX_PUBKEYS_PER_MULTISIG in Hmn.
  exists (greedy (fun sig key => CheckSig ck sig key code sv) sigs keys). split; [apply greedy_spec|].
  assert (Hlen : Z.of_nat (length (stack st)) = n + m + 3 + Z.of_nat (length rest)).
  { rewrite Hst. cbn [length]. rewrite length_app. cbn [length]. rewrite length_app. cbn [length]. lia. }
  assert (Hkeys : drop (Z.to_nat (2 - 1)) (stack st) = keys ++ serialize m :: sigs ++ dummy :: rest) by (by rewrite Hst).
  assert (Htop : stacktop (stack st) 1 = Ok (serialize n)) by (by rewrite Hst).
  assert (Hm : drop (Z.to_nat (2 + n - 1)) (stack st) = serialize m :: sigs ++ dummy :: rest).
  { replace (Z.to_nat (2 + n - 1)) with (S (length keys)) by lia. rewrite Hst. apply (drop_app_length keys). }
  apply stacktop_drop in Hm as [Hm Hsigs]; [|lia].
  unfold exec_checkmultisig. cbv zeta. rewrite Hlen. destruct (Z.ltb_spec (n + m + 3 + Z.of_nat (length rest)) 1); [lia|].
  rewrite Htop. cbn [bind]. rewrite num_small by lia. cbn [bind]. rewrite getint_small by lia.
  unfold MAX_PUBKEYS_PER_MULTISIG. destruct (Z.ltb_spec n 0), (Z.ltb_spec 20 n); try lia. cbn [orb].
  destruct (Z.ltb_spec MAX_OPS_PER_SCRIPT (nOpCount st + n)); [lia|].
  destruct (Z.ltb_spec (n + m + 3 + Z.of_nat (length rest)) (2 + n)); [lia|].
  rewrite Hm. cbn [bind]. rewrite num_small by lia. cbn [bind]. rewrite getint_small by lia.
  destruct (Z.ltb_spec m 0), (Z.ltb_spec n m); try lia. cbn [orb].
  destruct (Z.ltb_spec (n + m + 3 + Z.of_nat (length rest)) (2 + n + 1 + m)); [lia|].
  replace (Z.to_nat m) with (length sigs) by lia. replace (Z.to_nat n) with (length keys) by lia.
  rewrite (drop_signatures_fold _ _ sigs (dummy :: rest)) by (done || lia). cbn [bind]. fold code. subst n m.
  rewrite (multisig_loop_greedy _ _ _ _ _ _ sigs keys (dummy :: rest) (serialize (Z.of_nat (length sigs)) :: sigs ++ dummy :: rest)) by (done || lia). cbn [bind].
  set (b := greedy _ _ _).
  replace (stack st) with ((serialize (Z.of_nat (length keys)) :: keys ++ serialize (Z.of_nat (length sigs)) :: sigs) ++ dummy :: rest)
    by (rewrite Hst; cbn [app]; rewrite <-app_assoc; done).
  match goal with |- context [cleanup_loop _ ?k (?f ++ _) _ _] => replace k with (length f) by (cbn [length]; rewrite length_app; cbn [length]; lia) end.
  rewrite cleanup_loop_spec by lia.
  replace (drop (Z.to_nat (Z.of_nat (length keys) + 2)) (serialize (Z.of_nat (length keys)) :: keys ++ serialize (Z.of_nat (length sigs)) :: sigs)) with sigs.
  - destruct (negb b && has flags SCRIPT_VERIFY_NULLFAIL && existsb nonempty sigs); cbn [bind]; done.
  - replace (Z.to_nat (Z.of_nat (length keys) + 2)) with (S (length keys + 1)) by lia.
    change (sigs = drop (length keys + 1) (keys ++ serialize (Z.of_nat (length sigs)) :: sigs)). by rewrite <-drop_drop, drop_app_length.
Qed.

(** A checker for which a signature is valid for the key with the same bytes. *)
Definition toy_checker : checker := mk_checker (fun sig key _ _ => bool_decide (sig = key)) (fun _ => true) (fun _ => true).

(** Two of three. *)
Lemma checkmultisig_matches_witness :
  let st := mk_estate (serialize 3 :: [[3]; [2]; [1]] ++ serialize 2 :: [[3]; [1]] ++ [] :: [[9]]) [] [] 1 [] in
  exists fSuccess : bool,
    (fSuccess = true <-> ordered_match (fun sig key => bool_decide (sig = key)) [[3]; [1]] [[3]; [2]; [1]]) /\
    exec_checkmultisig (fun _ => true) SCRIPT_VERIFY_NULLDUMMY toy_checker SIGVERSION_BASE false st =
    push_check (mk_estate [[9]] [] [] 4 []) [[9]] fSuccess false SCRIPT_ERR_CHECKMULTISIGVERIFY.
Proof.
  intros st.
  destruct (checkmultisig_matches (fun _ => true) SCRIPT_VERIFY_NULLDUMMY toy_checker SIGVERSION_BASE false st [[3]; [2]; [1]] [[3]; [1]] [] [[9]]) as (b & Hb & He).
  - cbn. unfold MAX_PUBKEYS_PER_MULTISIG. lia.
  - cbn. unfold MAX_OPS_PER_SCRIPT. lia.
  - reflexivity.
  - intros sig key [<-|[<-|[]]] _; reflexivity.
  - exists b. split; [exact Hb|]. rewrite He. replace (has SCRIPT_VERIFY_NULLDUMMY SCRIPT_VERIFY_NULLFAIL) with false by reflexivity.
    rewrite andb_false_r. reflexivity.
Defined.

(** ** The assertions of VerifyScript *)

(** The flags that the assertions ask for. *)
Definition consistent (flags : Z) : Prop :=
  (has flags SCRIPT_VERIFY_CLEANSTACK = true -> has flags SCRIPT_VERIFY_WITNESS = true) /\
  (has flags SCRIPT_VERIFY_WITNESS = true -> has flags SCRIPT_VERIFY_P2SH = true).

(** A pay-to-script-hash output needs an argument. *)
Lemma p2sh_empty_stack low uninit flags ck script r :
  IsPayToScriptHash script = true -> EvalScript low uninit flags ck SIGVERSION_BASE [] script <> Ok r.
Proof.
  unfold IsPayToScriptHash. rewrite !andb_true_iff, !Z.eqb_eq, Nat.eqb_eq. intros [[[Hl H0] _] _].
  destruct script as [|x script]; [done|]. cbn [nth] in H0. subst x. unfold EvalScript. rewrite Hl. cbn [Z.of_nat].
  replace (MAX_SCRIPT_SIZE <? _) with false by done. cbn [eval_loop]. unfold OP_HASH160.
  rewrite step_opcode by (done || (unfold count_op; cbn; unfold MAX_OPS_PER_SCRIPT; lia)). done.
Qed.

Lemma bind_abort_not_None {A B} (r : result A) (k : A -> option (result B)) :
  (forall a, r = Ok a -> k a <> None) -> bind_abort r k <> None.
Proof. intros H. destruct r; cbn; [by apply H|done]. Qed.

(** C30: VerifyScript never fails an assertion when its flags are consistent (CLEANSTACK needs WITNESS, WITNESS needs P2SH): in particular the stack that is restored for a pay-to-script-hash output is never empty, because the output's own script fails on an empty stack. *)
Theorem verify_script_assertions_hold (low : valtype -> bool) (uninit : list Z) (flags : Z) (ck : checker) (scriptSig scriptPubKey : list Z) (witness : option (list valtype)) :
  consistent flags -> exists r, VerifyScript low uninit flags ck scriptSig scriptPubKey witness = Some r.
Proof.
  intros [Hclean Hwit]. apply not_eq_None_Some. unfold VerifyScript. cbv zeta.
  assert (Hfin : forall s h, assert (negb (has flags SCRIPT_VERIFY_CLEANSTACK) || (has flags SCRIPT_VERIFY_P2SH && has flags SCRIPT_VERIFY_WITNESS))
        (if has flags SCRIPT_VERIFY_CLEANSTACK && negb (length (s : list valtype) =? 1)%nat then Some (Fail SCRIPT_ERR_CLEANSTACK)
         else assert (negb (has flags SCRIPT_VERIFY_WITNESS) || has flags SCRIPT_VERIFY_P2SH)
           (if has flags SCRIPT_VERIFY_WITNESS && negb h && negb (length (default [] witness) =? 0)%nat
            then Some (Fail SCRIPT_ERR_WITNESS_UNEXPECTED) else Some (Ok tt))) <> None).
  { intros s h. unfold assert. destruct (has flags SCRIPT_VERIFY_CLEANSTACK), (has flags SCRIPT_VERIFY_WITNESS), (has flags SCRIPT_VERIFY_P2SH); cbn [negb orb andb];
      try discriminate (Hclean eq_refl); try discriminate (Hwit eq_refl); repeat case_match; done. }
  destruct (has flags SCRIPT_VERIFY_SIGPUSHONLY && _); [done|]. apply bind_abort_not_None. intros s Hs. apply bind_abort_not_None. intros s' Hs'.
  apply bind_abort_not_None. intros _ _. apply bind_abort_not_None. intros [s1 h1] _.
  destruct (has flags SCRIPT_VERIFY_P2SH) eqn:Hp; cbn [andb]; [|apply Hfin].
  destruct (IsPayToScriptHash scriptPubKey) eqn:Hp2sh; [|apply Hfin].
  destruct (negb (IsPushOnly scriptSig)); [done|]. destruct s as [|v s]; [by destruct (p2sh_empty_stack _ _ _ _ _ _ Hp2sh Hs')|].
  apply bind_abort_not_None. intros s2 _. apply bind_abort_not_None. intros _ _. apply bind_abort_not_None. intros r _. apply Hfin.
Qed.

Lemma verify_script_assertions_hold_witness :
  consistent (Z.lor SCRIPT_VERIFY_P2SH (Z.lor SCRIPT_VERIFY_WITNESS SCRIPT_VERIFY_CLEANSTACK)) /\
  exists r, VerifyScript (fun _ => true) (replicate 64 0) (Z.lor SCRIPT_VERIFY_P2SH (Z.lor SCRIPT_VERIFY_WITNESS SCRIPT_VERIFY_CLEANSTACK))
    toy_checker [OP_1] [OP_1] None = Some r.
Proof. split; [split; reflexivity|]. apply verify_script_assertions_hold. split; reflexivity. Defined.

(** With CLEANSTACK alone, the first spend that reaches the end aborts. *)
Example verify_script_aborts : VerifyScript (fun _ => true) (replicate 64 0) SCRIPT_VERIFY_CLEANSTACK toy_checker [] [OP_1] None = None.
Proof. vm_compute. reflexivity. Qed.

(** ** FindAndDelete when there is nothing to delete *)

(** No instruction of the script begins with [b]. *)
Inductive no_match (b : list Z) : list Z -> Prop :=
  | no_match_end pc : starts_with b pc = false -> GetOp pc = None -> no_match b pc
  | no_match_step pc op d pc' : starts_with b pc = false -> GetOp pc = Some (op, d, pc') -> no_match b pc' -> no_match b pc.

Lemma delete_loop_no_match b pc fuel result skipped n :
  no_match b pc -> (length pc < fuel)%nat -> exists r pc', delete_loop fuel b result skipped pc n = (r, pc', n).
Proof.
  intros H. revert fuel result skipped. induction H as [pc Hs Hg|pc op d pc' Hs Hg H IH]; intros [|fuel] result skipped Hf; try lia; cbn [delete_loop].
  all: assert (Hskip : skip_matches (length pc) b pc n = (pc, n)) by (destruct (length pc); [done|]; cbn [skip_matches]; by rewrite Hs); rewrite Hskip, Hg.
  - eauto.
  - apply IH. apply GetOp_shorter in Hg. lia.
Qed.

Lemma FindAndDelete_no_match b script : no_match b script -> (FindAndDelete script b).1 = script.
Proof.
  intros H. unfold FindAndDelete. destruct (_ =? _)%nat; [done|].
  destruct (delete_loop_no_match b script (S (length script)) [] [] 0 H ltac:(lia)) as (r & pc' & ->). done.
Qed.

Lemma starts_with_head x b y pc : x <> y -> starts_with (x :: b) (y :: pc) = false.
Proof. intros H. unfold starts_with. apply andb_false_iff. right. apply bool_decide_eq_false. cbn [length take firstn]. congruence. Qed.

Lemma push_data_head b : exists t, push_data b = push_opcode b :: t.
Proof. unfold push_data, push_opcode. cbv zeta. repeat case_match; by eexists. Qed.

(** ** Payment to a public key hash *)

Definition p2pkh (h : list Z) : list Z := [OP_DUP; OP_HASH160] ++ push_data h ++ [OP_EQUALVERIFY; OP_CHECKSIG].

Lemma GetOp_plain op pc : OP_PUSHDATA4 < op -> op <> OP_SIGMASPEND -> op <> OP_SIGMAMINT -> GetOp (op :: pc) = Some (op, [], pc).
Proof.
  intros H0 H1 H2. unfold GetOp. destruct (Z.leb_spec op OP_PUSHDATA4); [lia|].
  destruct (Z.eqb_spec op OP_SIGMASPEND), (Z.eqb_spec op OP_SIGMAMINT); done.
Qed.

(** The signature is not part of the script unless it has the size of the hash. *)
Lemma drop_signature_p2pkh sv sig h :
  length h = 20%nat -> length sig <> 20%nat -> drop_signature sv (p2pkh h) sig = p2pkh h.
Proof.
  intros Hh Hs. destruct sv; [|done]. cbn [drop_signature]. apply FindAndDelete_no_match.
  destruct (push_data_head sig) as [t ->]. pose proof (push_opcode_range sig) as Hop. unfold OP_PUSHDATA4 in Hop.
  assert (Hne : push_opcode sig <> 20).
  { unfold push_opcode, OP_PUSHDATA1, OP_PUSHDATA2, OP_PUSHDATA4. cbv zeta. repeat case_match; lia. }
  assert (Hplain : forall op pc, 0x4e < op -> op <> OP_SIGMASPEND -> op <> OP_SIGMAMINT -> no_match (push_opcode sig :: t) pc -> no_match (push_opcode sig :: t) (op :: pc)).
  { intros op pc H1 H2 H3 H. eapply no_match_step; [apply starts_with_head; lia|by apply GetOp_plain|done]. }
  unfold p2pkh. apply Hplain; [done..|]. apply Hplain; [done..|].
  eapply no_match_step; [|apply GetOp_push; rewrite Hh; lia|].
  { unfold push_data. rewrite Hh. by apply starts_with_head. }
  apply Hplain; [done..|]. apply Hplain; [done..|]. by apply no_match_end.
Qed.

Lemma runs_turn low uninit flags ck sv pc st pc' st' r :
  step low uninit flags ck sv pc st = Ok (st', pc') -> runs low uninit flags ck sv pc' st' r -> runs low uninit flags ck sv pc st r.
Proof. intros Hs Hr. destruct pc as [|x pc]; [|by eapply runs_step]. unfold step, GetOp in Hs. done. Qed.

Lemma EvalScript_runs low uninit flags ck sv s script r :
  Z.of_nat (length script) <= MAX_SCRIPT_SIZE -> runs low uninit flags ck sv script (mk_estate s [] [] 0 script) r ->
  EvalScript low uninit flags ck sv s script =
  bind r (fun st => match vfExec st with [] => Ok (stack st) | _ => Fail SCRIPT_ERR_UNBALANCED_CONDITIONAL end).
Proof.
  intros Hl Hr. unfold EvalScript. destruct (Z.ltb_spec MAX_SCRIPT_SIZE (Z.of_nat (length script))); [lia|].
  f_equal. eapply runs_deterministic; [|done]. apply eval_loop_runs. lia.
Qed.

Lemma push_data_length b : Z.of_nat (length b) <= MAX_SCRIPT_ELEMENT_SIZE -> (0 < length (push_data b) <= 523)%nat.
Proof.
  unfold MAX_SCRIPT_ELEMENT_SIZE. intros Hb. unfold push_data. cbv zeta. repeat case_match; rewrite ?length_app; cbn [length]; rewrite ?le_encode_length; lia.
Qed.

Lemma push_only_push fuel b pc :
  Z.of_nat (length b) < 2 ^ 32 -> push_only_loop fuel pc = true -> push_only_loop (S fuel) (push_data b ++ pc) = true.
Proof.
  intros Hb Hp. pose proof (GetOp_push b pc Hb) as Hg. destruct (push_data_head b) as [t Ht]. rewrite Ht in Hg |- *. cbn [app push_only_loop].
  cbn [app] in Hg. rewrite Hg. pose proof (push_opcode_range b). unfold OP_16, OP_PUSHDATA4 in *. destruct (Z.ltb_spec 0x60 (push_opcode b)); [lia|done].
Qed.

(** The side conditions of [step_opcode] in a concrete state. *)
Ltac turn_ok := first [done | unfold count_op; cbn; unfold MAX_OPS_PER_SCRIPT; lia].

Section p2pkh.
Context (low : valtype -> bool) (uninit : list Z) (flags : Z) (ck : checker) (Huninit : length uninit = 64%nat).
Context (sig pk h : list Z) (Hh : length h = 20%nat).
Context (Hsig : Z.of_nat (length sig) <= MAX_SCRIPT_ELEMENT_SIZE) (Hpk : Z.of_nat (length pk) <= MAX_SCRIPT_ELEMENT_SIZE).

(** Whether the signature is accepted, or the error. *)
Definition p2pkh_verdict : result bool :=
  if bool_decide (rmd160 (sha256 pk) = h) then
    let? _ := check_encodings low flags SIGVERSION_BASE sig pk in
    let ok := CheckSig ck sig pk (p2pkh h) SIGVERSION_BASE in
    if negb ok && has flags SCRIPT_VERIFY_NULLFAIL && nonempty sig then Fail SCRIPT_ERR_SIG_NULLFAIL else Ok ok
  else Fail SCRIPT_ERR_EQUALVERIFY.

Lemma p2pkh_push_only : IsPushOnly (push_data sig ++ push_data pk) = true.
Proof using Hsig Hpk.
  clear Huninit Hh. unfold IsPushOnly. rewrite length_app. pose proof (push_data_length sig Hsig). pose proof (push_data_length pk Hpk).
  unfold MAX_SCRIPT_ELEMENT_SIZE in *.
  destruct (length (push_data sig) + length (push_data pk))%nat as [|[|f]] eqn:E; [lia|lia|].
  apply push_only_push; [lia|]. rewrite <-(app_nil_r (push_data pk)). apply push_only_push; [lia|]. by destruct f.
Qed.

Lemma p2pkh_script_sig :
  (fRequireMinimal flags = true -> ~ small_number sig /\ ~ small_number pk) ->
  EvalScript low uninit flags ck SIGVERSION_BASE [] (push_data sig ++ push_data pk) = Ok [pk; sig].
Proof using Hsig Hpk.
  clear Huninit Hh. intros Hm. pose proof (push_data_length sig Hsig). pose proof (push_data_length pk Hpk).
  set (script := push_data sig ++ push_data pk).
  rewrite (EvalScript_runs _ _ _ _ _ _ _ (Ok (mk_estate [pk; sig] [] [] 0 script))); [done| |].
  { subst script. rewrite length_app. unfold MAX_SCRIPT_SIZE. lia. }
  eapply runs_turn; [apply step_push; [split; [done|cbn; unfold MAX_STACK; lia]|done|intros E; apply Hm, E]|].
  rewrite <-(app_nil_r (push_data pk)).
  eapply runs_turn; [apply step_push; [split; [done|cbn; unfold MAX_STACK; lia]|done|intros E; apply Hm, E]|]. constructor.
Qed.

Lemma p2pkh_bytes : p2pkh h = OP_DUP :: OP_HASH160 :: 20 :: h ++ [OP_EQUALVERIFY; OP_CHECKSIG].
Proof using Hh. unfold p2pkh, push_data. rewrite Hh. done. Qed.

Lemma p2pkh_length : length (p2pkh h) = 25%nat.
Proof using Hh. rewrite p2pkh_bytes. cbn [length]. rewrite length_app, Hh. done. Qed.

Lemma p2pkh_script_pubkey :
  length sig <> 20%nat ->
  EvalScript low uninit flags ck SIGVERSION_BASE [pk; sig] (p2pkh h) =
  bind p2pkh_verdict (fun ok => Ok [if ok then vchTrue else vchFalse]).
Proof using Huninit Hh.
  clear Hsig Hpk. intros Hne.
  assert (Hrun : runs low uninit flags ck SIGVERSION_BASE (p2pkh h) (mk_estate [pk; sig] [] [] 0 (p2pkh h))
      (bind p2pkh_verdict (fun ok => Ok (mk_estate [if ok then vchTrue else vchFalse] [] [] 4 (p2pkh h))))).
  { set (code := p2pkh h) at 2 3. unfold p2pkh. cbn [app].
    eapply runs_turn; [rewrite step_opcode by turn_ok; reflexivity|].
    eapply runs_turn; [rewrite step_opcode by turn_ok; cbn -[exec_hash]; reflexivity|].
    rewrite exec_hash_spec by done. cbn [hash_spec].
    eapply runs_turn; [apply step_push; [split; [done|cbn; unfold MAX_STACK; lia]|unfold MAX_SCRIPT_ELEMENT_SIZE; lia|]|].
    { intros _ (x & -> & _). by cbn in Hh. }
    change (OP_DUP :: OP_HASH160 :: push_data h ++ [OP_EQUALVERIFY; OP_CHECKSIG]) with code. unfold with_stack.
    cbn [stack altstack vfExec nOpCount pbegincodehash]. unfold p2pkh_verdict. destruct (bool_decide (rmd160 (sha256 pk) = h)) eqn:Heq; cbn [bind].
    2: { apply runs_fail. rewrite step_opcode by turn_ok. cbn -[rmd160 sha256 bool_decide]. by rewrite Heq. }
    eapply runs_turn; [rewrite step_opcode by turn_ok; cbn -[rmd160 sha256 bool_decide]; rewrite Heq; reflexivity|].
    assert (Hsig_step : step low uninit flags ck SIGVERSION_BASE [OP_CHECKSIG] (mk_estate [pk; sig] [] [] 3 code) =
      bind (exec_checksig low flags ck SIGVERSION_BASE false (mk_estate [pk; sig] [] [] 4 code))
        (fun st' => if MAX_STACK <? Z.of_nat (length (stack st')) + Z.of_nat (length (altstack st')) then Fail SCRIPT_ERR_STACK_SIZE else Ok (st', [])))
      by (rewrite step_opcode by turn_ok; reflexivity).
    unfold exec_checksig in Hsig_step. cbn [stack pbegincodehash] in Hsig_step. subst code. rewrite drop_signature_p2pkh in Hsig_step by done.
    fold (nonempty sig) in Hsig_step.
    destruct (check_encodings low flags SIGVERSION_BASE sig pk) as [[]|e]; cbn [bind] in *; [|by apply runs_fail].
    destruct (negb _ && _ && _); cbn [bind] in *; [by apply runs_fail|].
    eapply runs_turn; [exact Hsig_step|]. constructor. }
  rewrite (EvalScript_runs _ _ _ _ _ _ _ _ ltac:(rewrite p2pkh_length; unfold MAX_SCRIPT_SIZE; lia) Hrun).
  by destruct p2pkh_verdict.
Qed.
End p2pkh.

(** C12: Spending a payment to a public key hash.  With a signature and a key pushed by the input, VerifyScript accepts, under any consistent flags, exactly when the HASH160 of the key is the hash in the output, the encodings of signature and key pass the rules of the flags, and the signature is valid for the key and the output's script; otherwise it returns the error of the first condition that fails.  (A signature of 20 bytes, which FindAndDelete could remove from the output's script, is excluded.) *)
Theorem p2pkh_spend (low : valtype -> bool) (uninit : list Z) (flags : Z) (ck : checker) (sig pk h : list Z) :
  length uninit = 64%nat -> consistent flags -> length h = 20%nat -> length sig <> 20%nat ->
  Z.of_nat (length sig) <= MAX_SCRIPT_ELEMENT_SIZE -> Z.of_nat (length pk) <= MAX_SCRIPT_ELEMENT_SIZE ->
  (fRequireMinimal flags = true -> ~ small_number sig /\ ~ small_number pk) ->
  VerifyScript low uninit flags ck (push_data sig ++ push_data pk) (p2pkh h) None =
  Some (if negb (bool_decide (rmd160 (sha256 pk) = h)) then Fail SCRIPT_ERR_EQUALVERIFY
        else match check_encodings low flags SIGVERSION_BASE sig pk with
        | Fail e => Fail e
        | Ok _ =>
            if CheckSig ck sig pk (p2pkh h) SIGVERSION_BASE then Ok tt
            else if has flags SCRIPT_VERIFY_NULLFAIL && nonempty sig then Fail SCRIPT_ERR_SIG_NULLFAIL
            else Fail SCRIPT_ERR_EVAL_FALSE
        end).
Proof.
  intros Hu [Hclean Hwit] Hh Hne Hsig Hpk Hm. unfold VerifyScript. cbv zeta.
  rewrite p2pkh_push_only, andb_false_r, p2pkh_script_sig by done. cbn [bind_abort].
  rewrite p2pkh_script_pubkey by done. unfold p2pkh_verdict. destruct (bool_decide _); cbn [negb bind bind_abort]; [|done].
  destruct (check_encodings low flags SIGVERSION_BASE sig pk) as [[]|e]; cbn [bind bind_abort]; [|done].
  destruct (CheckSig ck sig pk (p2pkh h) SIGVERSION_BASE); cbn [negb andb bind bind_abort top_is_true]; [|by destruct (_ && _)].
  change (CastToBool vchTrue) with true. cbn [bind_abort]. unfold verify_program.
  assert (Hw : IsWitnessProgram (p2pkh h) = None) by (unfold IsWitnessProgram; rewrite p2pkh_length, p2pkh_bytes by done; done). rewrite Hw.
  assert (Hp : IsPayToScriptHash (p2pkh h) = false) by (unfold IsPayToScriptHash; rewrite p2pkh_length by done; done). rewrite Hp, andb_false_r.
  unfold assert. destruct (has flags SCRIPT_VERIFY_CLEANSTACK), (has flags SCRIPT_VERIFY_WITNESS), (has flags SCRIPT_VERIFY_P2SH);
    try discriminate (Hclean eq_refl); try discriminate (Hwit eq_refl); reflexivity.
Qed.

(** The signature that the toy checker accepts, under three flags. *)
Lemma p2pkh_spend_witness :
  consistent (Z.lor SCRIPT_VERIFY_P2SH (Z.lor SCRIPT_VERIFY_WITNESS SCRIPT_VERIFY_CLEANSTACK)) /\
  VerifyScript (fun _ => true) (replicate 64 0) (Z.lor SCRIPT_VERIFY_P2SH (Z.lor SCRIPT_VERIFY_WITNESS SCRIPT_VERIFY_CLEANSTACK)) toy_checker
    (push_data [7; 7] ++ push_data [7; 7]) (p2pkh (rmd160 (sha256 [7; 7]))) None = Some (Ok tt).
Proof.
  assert (Hc : consistent (Z.lor SCRIPT_VERIFY_P2SH (Z.lor SCRIPT_VERIFY_WITNESS SCRIPT_VERIFY_CLEANSTACK))) by (split; reflexivity).
  split; [exact Hc|]. rewrite (p2pkh_spend (fun _ => true) (replicate 64 0) _ toy_checker [7; 7] [7; 7] (rmd160 (sha256 [7; 7])) eq_refl Hc).
  - rewrite bool_decide_eq_true_2 by reflexivity. reflexivity.
  - apply length_rmd160.
  - discriminate.
  - cbn. unfold MAX_SCRIPT_ELEMENT_SIZE. lia.
  - cbn. unfold MAX_SCRIPT_ELEMENT_SIZE. lia.
  - discriminate.
Defined.
