(* ===== verification/SerializeVector.v ===== *)
(** * SerializeVector: vectors in the byte format

    Models the overloads of serialize.h for [std::vector] and [prevector]: a
    compact size, then the bytes in one piece or the items one after the other.
    Reading grows the vector in blocks, so that a bogus size does not allocate
    its memory before data has arrived. *)

From S2P Require Import Prelude Words Serialize SerializeCorrect.

(** ** Operations *)

Definition Serialize_bytes (v : list Z) : stream := WriteCompactSize (Z.of_nat (length v)) ++ v.

(** [while (i < nSize)], over blocks of at most [1 + 4999999 / sizeof(T)] bytes. *)
Definition max_block : Z := 1 + 4999999 / 1.

Fixpoint read_blocks (fuel : nat) (nSize i : Z) : reader (list Z) := fun s =>
  match fuel with
  | O => None
  | S fuel =>
      if i <? nSize then
        let blk := Z.min (nSize - i) max_block in
        '(b, s) ← read (Z.to_nat blk) s;
        '(bs, s) ← read_blocks fuel nSize (i + blk) s;
        Some (b ++ bs, s)
      else Some ([], s)
  end.

Definition Unserialize_bytes : reader (list Z) := fun s =>
  '(nSize, s) ← ReadCompactSize s;
  read_blocks (S (S (Z.to_nat (nSize / max_block)))) nSize 0 s.

Section items.
Context {A : Type} (ser : A -> stream) (unser : reader A).

Definition Serialize_vector (v : list A) : stream := WriteCompactSize (Z.of_nat (length v)) ++ flat_map ser v.

(** [while (nMid < nSize)]; [grow] is [5000000 / sizeof(T)], and the items from
    [nMid] to the next [nMid] are read. *)
Fixpoint read_grow (fuel : nat) (grow nSize nMid : Z) : reader (list A) := fun s =>
  match fuel with
  | O => None
  | S fuel =>
      if nMid <? nSize then
        let next := Z.min (nMid + grow) nSize in
        '(xs, s) ← read_array unser (Z.to_nat (next - nMid)) s;
        '(ys, s) ← read_grow fuel grow nSize next s;
        Some (xs ++ ys, s)
      else Some ([], s)
  end.

Definition Unserialize_vector (grow : Z) : reader (list A) := fun s =>
  '(nSize, s) ← ReadCompactSize s;
  read_grow (S (S (Z.to_nat (nSize / grow)))) grow nSize 0 s.
End items.

(** ** The blocks make no difference *)

Lemma read_split m n s : read (m + n) s = '(b, s) ← read m s; '(bs, s) ← read n s; Some (b ++ bs, s).
Proof.
  unfold read. destruct (Nat.ltb_spec (length s) (m + n)) as [H|H]; destruct (Nat.ltb_spec (length s) m) as [H'|H']; cbn [mbind option_bind];
    try lia; try done; rewrite length_drop; destruct (Nat.ltb_spec (length s - m) n); cbn [mbind option_bind]; try lia; try done.
  by rewrite drop_drop, <-take_take_drop.
Qed.

Lemma read_array_split {A} (unser : reader A) m n s :
  read_array unser (m + n) s = '(xs, s) ← read_array unser m s; '(ys, s) ← read_array unser n s; Some (xs ++ ys, s).
Proof.
  revert s. induction m as [|m IH]; intros s; cbn [Nat.add read_array mbind option_bind].
  - by destruct (read_array unser n s) as [[ys r]|].
  - destruct (unser s) as [[x s1]|]; [|done]. cbn [mbind option_bind]. rewrite IH.
    destruct (read_array unser m s1) as [[xs s2]|]; [|done]. cbn [mbind option_bind].
    by destruct (read_array unser n s2) as [[ys s3]|].
Qed.

Lemma read_blocks_spec fuel nSize i s :
  0 <= i <= nSize -> nSize - i <= max_block * Z.of_nat fuel -> read_blocks (S fuel) nSize i s = read (Z.to_nat (nSize - i)) s.
Proof.
  change max_block with 5000000. revert i s. induction fuel as [|fuel IH]; intros i s Hi Hf; cbn [read_blocks]; change max_block with 5000000;
    (destruct (Z.ltb_spec i nSize) as [Hlt|Hge]; [|replace (nSize - i) with 0 by lia; unfold read; by destruct s]); [lia|].
  set (blk := Z.min (nSize - i) 5000000). assert (Hb : 0 < blk <= nSize - i) by (subst blk; lia).
  replace (Z.to_nat (nSize - i)) with (Z.to_nat blk + Z.to_nat (nSize - (i + blk)))%nat by lia. rewrite read_split.
  destruct (read (Z.to_nat blk) s) as [[b s1]|]; [|done]. cbn [mbind option_bind]. rewrite <-IH; [done|lia|subst blk; lia].
Qed.

Lemma read_grow_spec {A} (unser : reader A) fuel grow nSize nMid s :
  0 < grow -> 0 <= nMid <= nSize -> nSize - nMid <= grow * Z.of_nat fuel ->
  read_grow unser (S fuel) grow nSize nMid s = read_array unser (Z.to_nat (nSize - nMid)) s.
Proof.
  intros Hg. revert nMid s. induction fuel as [|fuel IH]; intros nMid s Hi Hf; cbn [read_grow];
    (destruct (Z.ltb_spec nMid nSize) as [Hlt|Hge]; [|by replace (nSize - nMid) with 0 by lia]); [lia|].
  set (next := Z.min (nMid + grow) nSize). assert (Hb : nMid < next <= nSize) by (subst next; lia).
  replace (Z.to_nat (nSize - nMid)) with (Z.to_nat (next - nMid) + Z.to_nat (nSize - next))%nat by lia. rewrite read_array_split.
  destruct (read_array unser (Z.to_nat (next - nMid)) s) as [[b s1]|]; [|done]. cbn [mbind option_bind]. rewrite <-IH; [done|lia|subst next; lia].
Qed.

(** The fuel of the loops. *)
Lemma blocks_enough n block : 0 <= n -> 0 < block -> n - 0 <= block * Z.of_nat (S (Z.to_nat (n / block))).
Proof.
  intros Hn Hb. pose proof (Z.div_pos n block Hn Hb). pose proof (Z.mod_pos_bound n block Hb). pose proof (Z.div_mod n block ltac:(lia)).
  rewrite Nat2Z.inj_succ, Z2Nat.id by lia. lia.
Qed.

(** ** Round trips *)

Definition short {A} (v : list A) : Prop := Z.of_nat (length v) <= MAX_SIZE.

Lemma extends_read_blocks fuel nSize i : Extends (read_blocks fuel nSize i).
Proof.
  revert i. induction fuel as [|fuel IH]; intros i; [exact extends_none|]. cbn [read_blocks].
  apply (extends_if (i <? nSize) (fun s => _)); [|auto with ser].
  apply extends_bind; [apply _|]. intros b. apply extends_bind; [apply IH|auto with ser].
Qed.

Lemma extends_read_grow {A} (unser : reader A) fuel grow nSize nMid : Extends unser -> Extends (read_grow unser fuel grow nSize nMid).
Proof.
  intros Hu. revert nMid. induction fuel as [|fuel IH]; intros i; [exact extends_none|]. cbn [read_grow].
  apply (extends_if (i <? nSize) (fun s => _)); [|auto with ser].
  apply extends_bind; [by apply array_extends|]. intros b. apply extends_bind; [apply IH|auto with ser].
Qed.

#[export] Instance bytes_round_trip : RoundTrip Serialize_bytes Unserialize_bytes short.
Proof.
  split.
  - intros v rest Hv. unfold Serialize_bytes, Unserialize_bytes, short in *. rewrite <-app_assoc, round_trip by lia.
    cbn [mbind option_bind]. rewrite read_blocks_spec by (lia || apply blocks_enough; lia || done).
    rewrite Z.sub_0_r, Nat2Z.id. by apply (round_trip (enc := id)).
  - apply extends_bind; [apply _|]. intros n. apply extends_read_blocks.
Qed.

#[export] Instance vector_round_trip {A} (ser : A -> stream) unser (dom : A -> Prop) grow :
  0 < grow -> RoundTrip ser unser dom ->
  RoundTrip (Serialize_vector ser) (Unserialize_vector unser grow) (fun v => short v /\ Forall dom v).
Proof.
  intros Hg Hrt. split.
  - intros v rest [Hv Hd]. unfold Serialize_vector, Unserialize_vector, short in *. rewrite <-app_assoc, round_trip by lia.
    cbn [mbind option_bind]. rewrite read_grow_spec by (lia || apply blocks_enough; lia || done).
    rewrite Z.sub_0_r, Nat2Z.id. by apply (array_round_trip ser unser dom).
  - apply extends_bind; [apply _|]. intros n. apply extends_read_grow, Hrt.
Qed.
