(* ===== verification/Transaction.v ===== *)
(** * Transaction: transactions, their serialization and their hashes

    Models primitives/transaction.h and transaction.cpp, and the amounts of
    amount.h.  A script is the list of its bytes, a witness the list of its stack
    items; [CTxIn::prevPubKey], which nothing here reads, is left out.  A
    [CTransaction] is a [CMutableTransaction] with its cached hash.

    [None] is an exception of the stream or of the function. *)

From stdpp Require Import countable.
From S2P Require Import Prelude Words Serialize SerializeVector CryptoCommon Hash Script.

(** ** Amounts *)

Definition COIN : Z := 100000000.
Definition MAX_MONEY : Z := 210000000 * COIN.
Definition MoneyRange (nValue : Z) : bool := (0 <=? nValue) && (nValue <=? MAX_MONEY).

(** ** Data *)

Definition null256 : list Z := replicate 32 0.
Definition IsNull256 (blob : list Z) : bool := forallb (fun b => b =? 0) blob.

Record COutPoint := mk_outpoint { op_hash : list Z; op_n : Z }.

Definition outpoint_null : COutPoint := mk_outpoint null256 (u32 (-1)).
Definition OutPoint_IsNull (o : COutPoint) : bool := IsNull256 (op_hash o) && (op_n o =? u32 (-1)).
Definition IsSigmaMintGroup (o : COutPoint) : bool := IsNull256 (op_hash o) && (1 <=? op_n o).

#[export] Instance outpoint_eq_dec : EqDecision COutPoint.
Proof. solve_decision. Defined.
#[export] Instance outpoint_countable : Countable COutPoint.
Proof.
  apply (inj_countable' (fun o => (op_hash o, op_n o)) (fun p => mk_outpoint (fst p) (snd p))). by intros [].
Defined.

Record CTxIn := mk_txin { prevout : COutPoint; scriptSig : list Z; nSequence : Z; scriptWitness : list valtype }.
Record CTxOut := mk_txout { nValue : Z; scriptPubKey : list Z; nRounds : Z }.

(** [CTxOut()] *)
Definition txout_null : CTxOut := mk_txout (-1) [] (-10).
Definition TxOut_IsNull (o : CTxOut) : bool := nValue o =? -1.

Record CMutableTransaction := mk_tx {
  nVersion : Z; nType : Z; vin : list CTxIn; vout : list CTxOut; nLockTime : Z; vExtraPayload : list Z }.

Definition TRANSACTION_NORMAL : Z := 0.
Definition WITNESS_SCALE_FACTOR : Z := 4.

(** The conversion to [int16_t]. *)
Definition int16 (z : Z) : Z := let u := u16 z in if u <? 2 ^ 15 then u else u - 2 ^ 16.

(** [scriptWitness.IsNull] *)
Definition witness_null (i : CTxIn) : bool := match scriptWitness i with [] => true | _ => false end.
Definition HasWitness (tx : CMutableTransaction) : bool := existsb (fun i => negb (witness_null i)) (vin tx).

(** ** Serialization *)

Definition Serialize_outpoint (o : COutPoint) : stream := op_hash o ++ ser_writedata32 (op_n o).
Definition Unserialize_outpoint : reader COutPoint := fun s =>
  '(hash, s) ← read 32 s; '(n, s) ← ser_readdata32 s; Some (mk_outpoint hash n, s).

Definition Serialize_txin (i : CTxIn) : stream :=
  Serialize_outpoint (prevout i) ++ Serialize_bytes (scriptSig i) ++ ser_writedata32 (nSequence i).
(** Into a new [CTxIn], whose witness is empty. *)
Definition Unserialize_txin : reader CTxIn := fun s =>
  '(p, s) ← Unserialize_outpoint s; '(sig, s) ← Unserialize_bytes s; '(n, s) ← ser_readdata32 s;
  Some (mk_txin p sig n [], s).

Definition Serialize_txout (o : CTxOut) : stream := ser_writedata64 (nValue o) ++ Serialize_bytes (scriptPubKey o).
Definition Unserialize_txout : reader CTxOut := fun s =>
  '(v, s) ← ser_readdata64 s; '(k, s) ← Unserialize_bytes s; Some (mk_txout (i64 v) k (-10), s).

(** [tx.nVersion | (tx.nType << 16)] *)
Definition n32bitVersion (tx : CMutableTransaction) : Z := Z.lor (nVersion tx) (nType tx ≪ 16).
Definition has_payload (version type : Z) : bool := (version =? 3) && negb (type =? TRANSACTION_NORMAL).

Definition SerializeTransaction (fAllowWitness : bool) (tx : CMutableTransaction) : stream :=
  let flags := if fAllowWitness && HasWitness tx then 1 else 0 in
  ser_writedata32 (n32bitVersion tx) ++
  (if negb (flags =? 0) then Serialize_vector Serialize_txin [] ++ ser_writedata8 flags else []) ++
  Serialize_vector Serialize_txin (vin tx) ++
  Serialize_vector Serialize_txout (vout tx) ++
  (if negb (Z.land flags 1 =? 0) then flat_map (fun i => Serialize_vector Serialize_bytes (scriptWitness i)) (vin tx) else []) ++
  ser_writedata32 (nLockTime tx) ++
  (if has_payload (nVersion tx) (nType tx) then Serialize_bytes (vExtraPayload tx) else []).

Section unserialize.
(** [5000000 / sizeof(T)] for inputs, outputs and byte vectors. *)
Context (grow_in grow_out grow_stack : Z).

Definition read_vin : reader (list CTxIn) := Unserialize_vector Unserialize_txin grow_in.
Definition read_vout : reader (list CTxOut) := Unserialize_vector Unserialize_txout grow_out.

(** [for (i < tx.vin.size()) s >> tx.vin[i].scriptWitness.stack] *)
Fixpoint read_witnesses (ins : list CTxIn) : reader (list CTxIn) := fun s =>
  match ins with
  | [] => Some ([], s)
  | i :: ins =>
      '(w, s) ← Unserialize_vector Unserialize_bytes grow_stack s;
      '(ins, s) ← read_witnesses ins s;
      Some (mk_txin (prevout i) (scriptSig i) (nSequence i) w :: ins, s)
  end.

(** The inputs and outputs, with the flags byte: 0 when there is none. *)
Definition read_body (fAllowWitness : bool) : reader (list CTxIn * list CTxOut * Z) := fun s =>
  '(ins, s) ← read_vin s;
  if (length ins =? 0)%nat && fAllowWitness then
    '(flags, s) ← ser_readdata8 s;
    if negb (flags =? 0) then
      '(ins, s) ← read_vin s; '(outs, s) ← read_vout s; Some ((ins, outs, flags), s)
    else Some ((ins, [], flags), s)
  else '(outs, s) ← read_vout s; Some ((ins, outs, 0), s).

Definition UnserializeTransaction (fAllowWitness : bool) : reader CMutableTransaction := fun s =>
  '(n32, s) ← Unserialize_int32 s;
  let version := int16 (Z.land n32 0xffff) in
  let type := int16 (Z.land (n32 ≫ 16) 0xffff) in
  '(body, s) ← read_body fAllowWitness s;
  let '(ins, outs, flags) := body in
  '(p, s) ← (if negb (Z.land flags 1 =? 0) && fAllowWitness
             then '(ins, s) ← read_witnesses ins s; Some ((ins, Z.lxor flags 1), s)
             else Some ((ins, flags), s));
  let '(ins, flags) := p in
  if negb (flags =? 0) then None else
  '(lock, s) ← ser_readdata32 s;
  '(payload, s) ← (if has_payload version type then Unserialize_bytes s else Some ([], s));
  Some (mk_tx version type ins outs lock payload, s).
End unserialize.

(** ** Hashes and sizes *)

(** [SerializeHash]: one write of the serialization, in the writes that make it
    up; [b] is the uninitialised buffer of the hasher. *)
Definition SerializeHash (b : list Z) (obj : stream) : list Z := Hash b obj.

Record CTransaction := mk_ctx { tx_of : CMutableTransaction; cached_hash : list Z }.

Definition ComputeHash (b : list Z) (tx : CMutableTransaction) : list Z := SerializeHash b (SerializeTransaction false tx).

(** [CTransaction(const CMutableTransaction &)]: [nType] becomes an [int16_t]. *)
Definition CTransaction_of (b : list Z) (tx : CMutableTransaction) : CTransaction :=
  let tx := mk_tx (nVersion tx) (int16 (nType tx)) (vin tx) (vout tx) (nLockTime tx) (vExtraPayload tx) in
  mk_ctx tx (ComputeHash b tx).

Definition GetHash (t : CTransaction) : list Z := cached_hash t.
Definition GetWitnessHash (b : list Z) (t : CTransaction) : list Z :=
  if negb (HasWitness (tx_of t)) then GetHash t else SerializeHash b (SerializeTransaction true (tx_of t)).

Definition GetSerializeSize (obj : stream) : Z := Z.of_nat (length obj).
Definition GetTotalSize (tx : CMutableTransaction) : Z := u32 (GetSerializeSize (SerializeTransaction true tx)).
Definition GetTransactionWeight (tx : CMutableTransaction) : Z :=
  GetSerializeSize (SerializeTransaction false tx) * (WITNESS_SCALE_FACTOR - 1) + GetSerializeSize (SerializeTransaction true tx).

(** The loop over the inputs of CalculateModifiedSize, on an [unsigned int]. *)
Definition discount (nTxSize : Z) (i : CTxIn) : Z :=
  let offset := 41 + Z.min 110 (u32 (Z.of_nat (length (scriptSig i)))) in
  if offset <? nTxSize then nTxSize - offset else nTxSize.

Definition CalculateModifiedSize (tx : CMutableTransaction) (nTxSize : Z) : Z :=
  let nTxSize := if nTxSize =? 0 then u32 ((GetTransactionWeight tx + WITNESS_SCALE_FACTOR - 1) / WITNESS_SCALE_FACTOR) else nTxSize in
  fold_left discount (vin tx) nTxSize.

(** ** Values; the sum is an [int64_t] *)

Fixpoint value_loop (nValueOut : Z) (outs : list CTxOut) : option Z :=
  match outs with
  | [] => Some nValueOut
  | o :: outs =>
      let nValueOut := i64 (nValueOut + nValue o) in
      if negb (MoneyRange (nValue o)) || negb (MoneyRange nValueOut) then None else value_loop nValueOut outs
  end.

Definition GetValueOut (tx : CMutableTransaction) : option Z := value_loop 0 (vout tx).

(** ** Kinds of transactions *)

Definition TxIn_IsZerocoinSpend (i : CTxIn) : bool := OutPoint_IsNull (prevout i) && first_is OP_ZEROCOINSPEND (scriptSig i).
Definition TxIn_IsSigmaSpend (i : CTxIn) : bool := IsSigmaMintGroup (prevout i) && first_is OP_SIGMASPEND (scriptSig i).
Definition TxIn_IsZerocoinRemint (i : CTxIn) : bool := OutPoint_IsNull (prevout i) && first_is OP_ZEROCOINTOSIGMAREMINT (scriptSig i).

Definition Tx_IsZerocoinSpend (tx : CMutableTransaction) : bool := existsb TxIn_IsZerocoinSpend (vin tx).
Definition Tx_IsSigmaSpend (tx : CMutableTransaction) : bool := existsb TxIn_IsSigmaSpend (vin tx).
Definition Tx_IsZerocoinRemint (tx : CMutableTransaction) : bool := existsb TxIn_IsZerocoinRemint (vin tx).
Definition Tx_IsZerocoinMint (tx : CMutableTransaction) : bool := existsb (fun o => Script.IsZerocoinMint (scriptPubKey o)) (vout tx).
Definition Tx_IsSigmaMint (tx : CMutableTransaction) : bool :=
  if Tx_IsZerocoinRemint tx then false else existsb (fun o => Script.IsSigmaMint (scriptPubKey o)) (vout tx).
Definition IsZerocoinTransaction (tx : CMutableTransaction) : bool := Tx_IsZerocoinSpend tx || Tx_IsZerocoinMint tx.
Definition IsZerocoinV3SigmaTransaction (tx : CMutableTransaction) : bool :=
  Tx_IsSigmaSpend tx || Tx_IsSigmaMint tx || Tx_IsZerocoinRemint tx.

Definition IsCoinBase (tx : CMutableTransaction) : bool :=
  match vin tx with
  | [i] => OutPoint_IsNull (prevout i) &&
           ((length (scriptSig i) =? 0)%nat ||
            (negb ((scriptSig i).[0] =? OP_ZEROCOINSPEND) && negb ((scriptSig i).[0] =? OP_ZEROCOINTOSIGMAREMINT)))
  | _ => false
  end.
