(* ===== verification/TransactionTheorems.v ===== *)
(** * TransactionTheorems: the theorems on transactions

    The formats as codecs, the identifiers, the sizes and the total output value.

    Round trips of the pieces of a transaction, of the basic format and of the
    extended format with witnesses. *)

From stdpp Require Import countable.
From S2P Require Import Prelude Words Serialize SerializeCorrect CryptoCommon ShaSpec Hash HashCorrect Script SerializeVector.
From S2P Require Import Transaction.

(** ** The version field *)

Lemma int16_land z : int16 (Z.land z 0xffff) = int16 z.
Proof.
  unfold int16, wrap. change 0xffff with (Z.ones 16). rewrite Z.land_ones by lia. by rewrite Z.mod_mod by lia.
Qed.

Lemma int16_range z : - 2 ^ 15 <= int16 z < 2 ^ 15.
Proof. unfold int16, wrap. pose proof (Z.mod_pos_bound z (2 ^ 16) ltac:(lia)). destruct (Z.ltb_spec (z mod 2 ^ 16) (2 ^ 15)); lia. Qed.

Lemma int16_id z q : - 2 ^ 15 <= z < 2 ^ 15 -> int16 (z + q * 2 ^ 16) = z.
Proof.
  intros Hz. unfold int16, wrap. rewrite Z.mod_add by lia. destruct (Z.ltb_spec z 0).
  - replace (z mod 2 ^ 16) with (z + 2 ^ 16) by (apply Z.mod_unique with (-1); lia). destruct (Z.ltb_spec (z + 2 ^ 16) (2 ^ 15)); lia.
  - rewrite Z.mod_small by lia. destruct (Z.ltb_spec z (2 ^ 15)); lia.
Qed.

(** The versions and types that one 32-bit field can hold: a negative version
    spills its sign into the type. *)
Definition version_ok (version type : Z) : Prop :=
  - 2 ^ 15 <= version < 2 ^ 15 /\ - 2 ^ 15 <= type < 2 ^ 15 /\ (version < 0 -> type = -1).

Lemma version_value v t : version_ok v t -> Z.lor v (t ≪ 16) = v mod 2 ^ 16 + t * 2 ^ 16.
Proof.
  intros (Hv & Ht & Hn). pose proof (Z.mod_pos_bound v (2 ^ 16) ltac:(lia)) as Hm.
  assert (E : forall a, 0 <= a < 2 ^ 16 -> Z.lor a (t ≪ 16) = a + t * 2 ^ 16).
  { intros a Ha. rewrite Z.shiftl_mul_pow2 by lia. symmetry. rewrite <-Z.lxor_lor; [apply Z.add_nocarry_lxor|].
    all: rewrite <-Z.shiftl_mul_pow2 by lia; apply Z.bits_inj'; intros i Hi; rewrite Z.land_spec, Z.bits_0.
    all: destruct (Z.ltb_spec i 16); [rewrite Z.shiftl_spec_low by lia; btauto|].
    all: rewrite <-(Z.mod_small a (2 ^ 16)) by lia; rewrite Z.mod_pow2_bits_high by lia; btauto. }
  destruct (Z.ltb_spec v 0) as [Hneg|Hpos]; [|rewrite Z.mod_small by lia; apply E; lia].
  specialize (Hn Hneg). subst t. replace v with (v mod 2 ^ 16 + -1 * 2 ^ 16) at 1.
  - rewrite <-(E _ Hm), <-Z.lor_assoc, Z.lor_diag. done.
  - replace (v mod 2 ^ 16) with (v + 2 ^ 16) by (apply Z.mod_unique with (-1); lia). lia.
Qed.

Lemma version_split v t : version_ok v t -> let n := Z.lor v (t ≪ 16) in
  - 2 ^ 31 <= n < 2 ^ 31 /\ int16 (Z.land n 0xffff) = v /\ int16 (Z.land (n ≫ 16) 0xffff) = t.
Proof.
  intros H n. unfold n. rewrite (version_value v t H), !int16_land. destruct H as (Hv & Ht & Hn).
  pose proof (Z.mod_pos_bound v (2 ^ 16) ltac:(lia)) as Hm. split; [lia|]. split.
  - replace (v mod 2 ^ 16 + t * 2 ^ 16) with (v + (t - v / 2 ^ 16) * 2 ^ 16) by (pose proof (Z.div_mod v (2 ^ 16) ltac:(lia)); lia). by apply int16_id.
  - rewrite Z.shiftr_div_pow2, Z.div_add, Z.div_small by lia. replace (0 + t) with (t + 0 * 2 ^ 16) by lia. by apply int16_id.
Qed.

(** ** The pieces *)

Definition outpoint_ok (o : COutPoint) : Prop := length (op_hash o) = 32%nat /\ word 32 (op_n o).
Definition txin_ok (i : CTxIn) : Prop := outpoint_ok (prevout i) /\ short (scriptSig i) /\ word 32 (nSequence i).
Definition txout_ok (o : CTxOut) : Prop := - 2 ^ 63 <= nValue o < 2 ^ 63 /\ short (scriptPubKey o) /\ nRounds o = -10.

#[export] Instance outpoint_round_trip : RoundTrip Serialize_outpoint Unserialize_outpoint outpoint_ok.
Proof.
  split.
  - intros [x n] rest [Hx Hn]. cbn in Hx, Hn. unfold Serialize_outpoint, Unserialize_outpoint. cbn [op_hash op_n].
    rewrite <-app_assoc, (round_trip (enc := id) x) by done. cbn [mbind option_bind]. by rewrite (round_trip (dec := ser_readdata32) n).
  - apply extends_bind; [apply _|]. intros x. apply extends_bind; [apply u32_round_trip|auto with ser].
Qed.

(** An input without its witness. *)
Definition strip (i : CTxIn) : CTxIn := mk_txin (prevout i) (scriptSig i) (nSequence i) [].

#[export] Instance txin_round_trip : RoundTrip Serialize_txin Unserialize_txin (fun i => txin_ok i /\ scriptWitness i = []).
Proof.
  split.
  - intros [p sig n w] rest [(Hp & Hs & Hn) Hw]. cbn in Hp, Hs, Hn, Hw. subst w. unfold Serialize_txin, Unserialize_txin. cbn [prevout scriptSig nSequence].
    rewrite <-!app_assoc, (round_trip p) by done. cbn [mbind option_bind]. rewrite (round_trip sig) by done. cbn [mbind option_bind].
    by rewrite (round_trip (dec := ser_readdata32) n).
  - apply extends_bind; [apply _|]. intros x. apply extends_bind; [apply _|]. intros y. apply extends_bind; [apply u32_round_trip|auto with ser].
Qed.

Lemma i64_u64 x : - 2 ^ 63 <= x < 2 ^ 63 -> i64 (u64 x) = x.
Proof.
  intros Hx. unfold i64, wrap. rewrite Z.mod_mod by lia. destruct (Z.ltb_spec x 0).
  - replace (x mod 2 ^ 64) with (x + 2 ^ 64) by (apply Z.mod_unique with (-1); lia). destruct (Z.ltb_spec (x + 2 ^ 64) (2 ^ 63)); lia.
  - rewrite Z.mod_small by lia. destruct (Z.ltb_spec x (2 ^ 63)); lia.
Qed.

#[export] Instance txout_round_trip : RoundTrip Serialize_txout Unserialize_txout txout_ok.
Proof.
  split.
  - intros [v k r] rest (Hv & Hk & Hr). cbn in Hv, Hk, Hr. subst r. unfold Serialize_txout, Unserialize_txout, ser_writedata64, ser_readdata64. cbn [nValue scriptPubKey].
    rewrite <-!app_assoc, (le_round_trip 8 (u64 v)) by (apply wrap_word; lia). cbn [mbind option_bind].
    rewrite (round_trip k) by done. cbn [mbind option_bind]. by rewrite i64_u64.
  - apply extends_bind; [apply u64_round_trip|]. intros x. apply extends_bind; [apply _|auto with ser].
Qed.

Lemma Serialize_txin_strip i : Serialize_txin (strip i) = Serialize_txin i.
Proof. done. Qed.

Lemma Serialize_vin_strip l : Serialize_vector Serialize_txin (map strip l) = Serialize_vector Serialize_txin l.
Proof. unfold Serialize_vector. rewrite length_map, flat_map_concat_map, map_map, flat_map_concat_map. done. Qed.

(** ** Transactions *)

(** The transactions that a format represents: with witnesses allowed, an empty
    [vin] is taken for the mark of the extended format. *)
Record tx_ok (fAllowWitness : bool) (tx : CMutableTransaction) : Prop := {
  ok_version : version_ok (nVersion tx) (nType tx);
  ok_vin : short (vin tx) /\ Forall txin_ok (vin tx);
  ok_vout : short (vout tx) /\ Forall txout_ok (vout tx);
  ok_witness : Forall (fun i => short (scriptWitness i) /\ Forall short (scriptWitness i)) (vin tx);
  ok_marker : if fAllowWitness then vin tx = [] -> vout tx = [] else HasWitness tx = false;
  ok_lock : word 32 (nLockTime tx);
  ok_payload : if has_payload (nVersion tx) (nType tx) then short (vExtraPayload tx) else vExtraPayload tx = [] }.

Lemma HasWitness_false tx : HasWitness tx = false -> map strip (vin tx) = vin tx.
Proof.
  unfold HasWitness. intros H. induction (vin tx) as [|[p sig n w] l IH]; [done|]. cbn in H. apply orb_false_iff in H as [H1 H2].
  cbn [map]. rewrite IH by done. unfold strip. cbn. destruct w; [done|discriminate H1].
Qed.

Section format.
Context (grow_in grow_out grow_stack : Z).
Context (Hgrow : 0 < grow_in /\ 0 < grow_out /\ 0 < grow_stack).

Lemma read_vin_strip l rest : short l -> Forall txin_ok l ->
  read_vin grow_in (Serialize_vector Serialize_txin l ++ rest) = Some (map strip l, rest).
Proof.
  intros Hs Hl. rewrite <-Serialize_vin_strip. destruct Hgrow as (Hg & _ & _).
  pose proof (vector_round_trip Serialize_txin Unserialize_txin _ grow_in Hg txin_round_trip) as Hrt.
  apply (round_trip (RoundTrip := Hrt)). unfold short in *. rewrite length_map. split; [done|].
  apply Forall_map. by apply (Forall_impl _ _ _ Hl).
Qed.

Lemma read_vout_spec l rest : short l -> Forall txout_ok l ->
  read_vout grow_out (Serialize_vector Serialize_txout l ++ rest) = Some (l, rest).
Proof.
  intros Hs Hl. destruct Hgrow as (_ & Hg & _).
  pose proof (vector_round_trip Serialize_txout Unserialize_txout _ grow_out Hg txout_round_trip) as Hrt.
  by apply (round_trip (RoundTrip := Hrt)).
Qed.

Lemma read_witnesses_spec l rest :
  Forall (fun i => short (scriptWitness i) /\ Forall short (scriptWitness i)) l ->
  read_witnesses grow_stack (map strip l) (flat_map (fun i => Serialize_vector Serialize_bytes (scriptWitness i)) l ++ rest) = Some (l, rest).
Proof.
  destruct Hgrow as (_ & _ & Hg).
  pose proof (vector_round_trip Serialize_bytes Unserialize_bytes _ grow_stack Hg bytes_round_trip) as Hrt.
  induction 1 as [|[p sig n w] l Hw _ IH]; [done|]. cbn [flat_map map read_witnesses]. rewrite <-app_assoc.
  rewrite (round_trip (RoundTrip := Hrt)) by done. cbn [mbind option_bind]. rewrite IH. done.
Qed.

Lemma extends_read_vin : Extends (read_vin grow_in).
Proof. apply (rt_extends (RoundTrip := vector_round_trip Serialize_txin Unserialize_txin _ grow_in (proj1 Hgrow) txin_round_trip)). Qed.
Lemma extends_read_vout : Extends (read_vout grow_out).
Proof. apply (rt_extends (RoundTrip := vector_round_trip Serialize_txout Unserialize_txout _ grow_out (proj1 (proj2 Hgrow)) txout_round_trip)). Qed.

Lemma extends_read_witnesses ins : Extends (read_witnesses grow_stack ins).
Proof.
  induction ins as [|i ins IH]; [exact (extends_some [])|]. cbn [read_witnesses].
  apply extends_bind; [|intros w; apply extends_bind; [done|auto with ser]].
  apply (rt_extends (RoundTrip := vector_round_trip Serialize_bytes Unserialize_bytes _ grow_stack (proj2 (proj2 Hgrow)) bytes_round_trip)).
Qed.

Lemma extends_read_body allow : Extends (read_body grow_in grow_out allow).
Proof.
  unfold read_body. apply extends_bind; [apply extends_read_vin|]. intros ins.
  apply (extends_if ((length ins =? 0)%nat && allow) (fun s => _)).
  - apply extends_bind; [apply u8_round_trip|]. intros f. apply (extends_if (negb (f =? 0)) (fun s => _)); [|auto with ser].
    apply extends_bind; [apply extends_read_vin|]. intros i. apply extends_bind; [apply extends_read_vout|auto with ser].
  - apply extends_bind; [apply extends_read_vout|auto with ser].
Qed.

(** The lock time and the payload. *)
Lemma tail_spec allow tx rest : tx_ok allow tx ->
  ('(lock, s) ← ser_readdata32 (ser_writedata32 (nLockTime tx) ++
      (if has_payload (nVersion tx) (nType tx) then Serialize_bytes (vExtraPayload tx) else []) ++ rest);
   '(payload, s) ← (if has_payload (nVersion tx) (nType tx) then Unserialize_bytes s else Some ([], s));
   Some (mk_tx (nVersion tx) (nType tx) (vin tx) (vout tx) lock payload, s)) = Some (tx, rest).
Proof.
  intros Hok. rewrite (round_trip (dec := ser_readdata32) (nLockTime tx)) by apply Hok. cbn [mbind option_bind].
  pose proof (ok_payload _ _ Hok) as Hp. destruct (has_payload (nVersion tx) (nType tx)).
  - rewrite (round_trip (dec := Unserialize_bytes)) by done. by destruct tx.
  - cbn [app mbind option_bind]. rewrite <-Hp. by destruct tx.
Qed.

(** The inputs and outputs are read back, with the flag of the extended format. *)
Lemma read_body_spec allow tx rest : tx_ok allow tx ->
  let flags := if allow && HasWitness tx then 1 else 0 in
  read_body grow_in grow_out allow
    ((if negb (flags =? 0) then Serialize_vector Serialize_txin [] ++ ser_writedata8 flags else []) ++
     Serialize_vector Serialize_txin (vin tx) ++ Serialize_vector Serialize_txout (vout tx) ++ rest)
  = Some ((map strip (vin tx), vout tx, flags), rest).
Proof.
  intros [_ [Hvs Hvi] [Hos Hvo] _ Hmark _ _] flags. unfold flags. destruct (allow && HasWitness tx) eqn:E; cbn [negb Z.eqb app].
  - apply andb_true_iff in E as [-> Hw]. unfold read_body. rewrite <-app_assoc.
    rewrite (read_vin_strip [] _) by (unfold short, MAX_SIZE; cbn; lia || constructor). cbn [mbind option_bind map length Nat.eqb andb].
    rewrite (round_trip (dec := ser_readdata8) 1) by (unfold word; lia). cbn [mbind option_bind Z.eqb negb].
    rewrite read_vin_strip by done. cbn [mbind option_bind]. by rewrite read_vout_spec.
  - unfold read_body. rewrite read_vin_strip by done. cbn [mbind option_bind]. rewrite length_map.
    destruct (vin tx) as [|i l] eqn:Ev; cbn [length Nat.eqb andb].
    + destruct allow; cbn [andb]; [|by rewrite read_vout_spec].
      rewrite (Hmark eq_refl). cbn [map]. change (Serialize_vector Serialize_txout [] ++ rest) with (ser_writedata8 0 ++ rest).
      rewrite (round_trip (dec := ser_readdata8) 0) by (unfold word; lia). done.
    + by rewrite read_vout_spec.
Qed.

#[export] Instance transaction_round_trip allow :
  RoundTrip (SerializeTransaction allow) (UnserializeTransaction grow_in grow_out grow_stack allow) (tx_ok allow).
Proof.
  split.
  - intros tx rest Hok. pose proof (read_body_spec allow tx) as Hbody. unfold SerializeTransaction, UnserializeTransaction.
    destruct (version_split _ _ (ok_version _ _ Hok)) as (Hn & Ev & Et). cbv zeta in Hbody |- *. rewrite <-!app_assoc.
    rewrite (round_trip (dec := Unserialize_int32) (n32bitVersion tx)) by done. cbn [mbind option_bind].
    unfold n32bitVersion. rewrite Ev, Et, Hbody by done. cbn [mbind option_bind].
    destruct (allow && HasWitness tx) eqn:Ew.
    + apply andb_true_iff in Ew as [-> Hw]. change (negb (Z.land 1 1 =? 0)) with true. cbn [andb].
      rewrite read_witnesses_spec by apply Hok. cbn [mbind option_bind]. change (negb (Z.lxor 1 1 =? 0)) with false. cbv iota.
      apply (tail_spec _ _ _ Hok).
    + change (negb (Z.land 0 1 =? 0)) with false. cbn [andb mbind option_bind app Z.eqb negb].
      assert (E : map strip (vin tx) = vin tx).
      { apply HasWitness_false. destruct allow; [done|apply (ok_marker _ _ Hok)]. }
      rewrite E. apply (tail_spec _ _ _ Hok).
  - unfold UnserializeTransaction. apply extends_bind; [apply int32_round_trip|]. intros n. apply extends_bind; [apply extends_read_body|].
    intros [[ins outs] flags]. apply (extends_bind (fun s => if negb (Z.land flags 1 =? 0) && allow
      then '(ins, s) ← read_witnesses grow_stack ins s; Some ((ins, Z.lxor flags 1), s) else Some ((ins, flags), s))).
    + apply (extends_if _ (fun s => '(ins, s) ← read_witnesses grow_stack ins s; Some ((ins, Z.lxor flags 1), s))); [|auto with ser]. apply extends_bind; [apply extends_read_witnesses|auto with ser].
    + intros [ins' flags']. destruct (negb (flags' =? 0)); [apply extends_none|].
      apply extends_bind; [apply u32_round_trip|]. intros lock.
      apply (extends_bind (fun s => if has_payload _ _ then Unserialize_bytes s else Some ([], s))); [|auto with ser].
      apply extends_if; [apply _|auto with ser].
Qed.
End format.

(** ** Identifiers *)

(** The transaction without its witnesses. *)
Definition strip_tx (tx : CMutableTransaction) : CMutableTransaction :=
  mk_tx (nVersion tx) (nType tx) (map strip (vin tx)) (vout tx) (nLockTime tx) (vExtraPayload tx).

Lemma HasWitness_strip tx : HasWitness (strip_tx tx) = false.
Proof. unfold HasWitness. cbn [vin strip_tx]. by induction (vin tx) as [|i l IH]. Qed.

Lemma Serialize_strip tx : SerializeTransaction false (strip_tx tx) = SerializeTransaction false tx.
Proof. unfold SerializeTransaction. cbn [andb Z.eqb negb app vin vout nLockTime nVersion nType vExtraPayload strip_tx]. by rewrite Serialize_vin_strip. Qed.

Lemma strip_ok allow tx : tx_ok allow tx -> tx_ok false (strip_tx tx).
Proof.
  intros [Hv [Hi Hii] Ho Hw _ Hl Hp]. split; cbn [strip_tx nVersion nType vin vout nLockTime vExtraPayload]; try done.
  - unfold short. rewrite length_map. split; [done|]. apply Forall_map. by apply (Forall_impl _ _ _ Hii).
  - apply Forall_map. apply (Forall_impl _ _ _ Hii). intros i _. unfold short, MAX_SIZE. cbn. split; [lia|constructor].
  - apply HasWitness_strip.
Qed.

Lemma Serialize_no_witness tx : HasWitness tx = false -> SerializeTransaction true tx = SerializeTransaction false tx.
Proof. intros E. unfold SerializeTransaction. by rewrite E. Qed.

Lemma CTransaction_of_tx b tx : - 2 ^ 15 <= nType tx < 2 ^ 15 -> tx_of (CTransaction_of b tx) = tx.
Proof.
  intros Ht. unfold CTransaction_of. cbn [tx_of]. replace (int16 (nType tx)) with (nType tx); [by destruct tx|].
  symmetry. rewrite <-(Z.add_0_r (nType tx)) at 1. by apply (int16_id _ 0).
Qed.

(** ** Sizes *)

Definition witness_bytes (tx : CMutableTransaction) : Z :=
  Z.of_nat (length (flat_map (fun i => Serialize_vector Serialize_bytes (scriptWitness i)) (vin tx))).

Lemma total_size tx :
  GetSerializeSize (SerializeTransaction true tx)
  = GetSerializeSize (SerializeTransaction false tx) + (if HasWitness tx then 2 + witness_bytes tx else 0).
Proof.
  destruct (HasWitness tx) eqn:E; [|rewrite Serialize_no_witness by done; lia].
  unfold GetSerializeSize, SerializeTransaction, witness_bytes. rewrite E. cbn [andb].
  change (negb (1 =? 0)) with true. change (negb (Z.land 1 1 =? 0)) with true.
  change (negb (0 =? 0)) with false. change (negb (Z.land 0 1 =? 0)) with false. cbv iota. cbn [app].
  rewrite !length_app. change (length (Serialize_vector Serialize_txin [])) with 1%nat. change (length (ser_writedata8 1)) with 1%nat. lia.
Qed.

(** ** Values *)

Definition total (outs : list CTxOut) : Z := foldr (fun o n => nValue o + n) 0 outs.

Lemma MoneyRange_spec v : MoneyRange v = true <-> 0 <= v <= MAX_MONEY.
Proof. unfold MoneyRange. rewrite andb_true_iff, !Z.leb_le. done. Qed.

Lemma total_nonneg outs : Forall (fun o => 0 <= nValue o <= MAX_MONEY) outs -> 0 <= total outs.
Proof. induction 1 as [|o l Ho _ IH]; cbn [total foldr]; [lia|]. unfold total in IH. lia. Qed.

Lemma value_loop_spec acc outs v : 0 <= acc <= MAX_MONEY ->
  value_loop acc outs = Some v <->
  Forall (fun o => 0 <= nValue o <= MAX_MONEY) outs /\ acc + total outs <= MAX_MONEY /\ v = acc + total outs.
Proof.
  revert acc. induction outs as [|o l IH]; intros acc Ha; cbn [value_loop total foldr].
  { rewrite Z.add_0_r. split; [intros [= <-]; split; [constructor|lia]|]. intros (_ & _ & ->). done. }
  fold (total l). rewrite Forall_cons. destruct (MoneyRange (nValue o)) eqn:Eo; cbn [negb orb].
  2:{ split; [done|]. intros ((Ho & _) & _). apply MoneyRange_spec in Ho. congruence. }
  apply MoneyRange_spec in Eo. unfold MAX_MONEY, COIN in *.
  assert (E : i64 (acc + nValue o) = acc + nValue o).
  { unfold i64. rewrite Z.mod_small by lia. destruct (Z.ltb_spec (acc + nValue o) (2 ^ 63)); lia. }
  rewrite E. destruct (MoneyRange (acc + nValue o)) eqn:Es; cbn [negb].
  - apply MoneyRange_spec in Es. unfold MAX_MONEY, COIN in Es. rewrite IH by lia. split; intros (H1 & H2 & H3); (split; [tauto|lia]).
  - split; [done|]. intros ((_ & Hl) & Hs & _). pose proof (total_nonneg l Hl).
    assert (MoneyRange (acc + nValue o) = true); [|congruence]. apply MoneyRange_spec. unfold MAX_MONEY, COIN. lia.
Qed.

Lemma GetValueOut_spec tx v : GetValueOut tx = Some v <->
  Forall (fun o => 0 <= nValue o <= MAX_MONEY) (vout tx) /\ total (vout tx) <= MAX_MONEY /\ v = total (vout tx).
Proof. unfold GetValueOut. rewrite value_loop_spec; [done|unfold MAX_MONEY, COIN; lia]. Qed.

(** ** Theorems *)

(** C16: The two transaction formats are codecs: a transaction whose version and type fit the 32-bit field, and which does not look like the mark of the extended format, is read back exactly, with the rest of the stream left; a message cut short anywhere is rejected; and two such transactions with the same bytes are equal. *)
Theorem transaction_codec (grow_in grow_out grow_stack : Z) (allow : bool) (tx : CMutableTransaction) (rest : stream) :
  0 < grow_in /\ 0 < grow_out /\ 0 < grow_stack -> tx_ok allow tx ->
  let unser := UnserializeTransaction grow_in grow_out grow_stack allow in
  unser (SerializeTransaction allow tx ++ rest) = Some (tx, rest) /\
  (forall p q, SerializeTransaction allow tx = p ++ q -> q <> [] -> unser p = None) /\
  (forall tx', tx_ok allow tx' -> SerializeTransaction allow tx' = SerializeTransaction allow tx -> tx' = tx).
Proof.
  intros Hg Hok unser. pose proof (transaction_round_trip grow_in grow_out grow_stack Hg allow) as Hrt.
  split; [by apply (round_trip (RoundTrip := Hrt))|]. split.
  - intros p q E Hq. by apply (prefix_rejected _ _ _ tx p q Hok E).
  - intros tx' Hok' E. pose proof (round_trip (RoundTrip := Hrt) tx [] Hok) as H1.
    pose proof (round_trip (RoundTrip := Hrt) tx' [] Hok') as H2. rewrite E, H1 in H2. congruence.
Qed.

(** Transaction identifiers: the hash is the double SHA-256 of the basic format, which determines everything but the witnesses and nothing of them; the witness hash is the double SHA-256 of the extended format, and equals the hash when there is no witness. *)
Theorem transaction_ids (b : list Z) (allow : bool) (tx tx' : CMutableTransaction) :
  length b = 64%nat -> tx_ok allow tx -> tx_ok allow tx' ->
  GetHash (CTransaction_of b tx) = sha256 (sha256 (SerializeTransaction false tx)) /\
  (SerializeTransaction false tx = SerializeTransaction false tx' <-> strip_tx tx = strip_tx tx') /\
  GetWitnessHash b (CTransaction_of b tx) = sha256 (sha256 (SerializeTransaction true tx)) /\
  (HasWitness tx = false -> GetWitnessHash b (CTransaction_of b tx) = GetHash (CTransaction_of b tx)).
Proof.
  intros Hb Hok Hok'. pose proof (ok_version _ _ Hok) as (_ & Ht & _).
  assert (Eh : GetHash (CTransaction_of b tx) = sha256 (sha256 (SerializeTransaction false tx))).
  { rewrite <-(Hash_spec b) by done. change (GetHash (CTransaction_of b tx)) with (ComputeHash b (tx_of (CTransaction_of b tx))). by rewrite CTransaction_of_tx. }
  split; [done|]. split; [|split].
  - rewrite <-(Serialize_strip tx), <-(Serialize_strip tx'). split; [|by intros ->]. intros E.
    pose proof (transaction_round_trip 1 1 1 ltac:(lia) false) as Hrt.
    pose proof (round_trip (RoundTrip := Hrt) _ [] (strip_ok _ _ Hok)) as H1.
    pose proof (round_trip (RoundTrip := Hrt) _ [] (strip_ok _ _ Hok')) as H2. rewrite E, H2 in H1. congruence.
  - unfold GetWitnessHash. rewrite CTransaction_of_tx by done. destruct (HasWitness tx) eqn:Ew; cbn [negb].
    + unfold SerializeHash. by rewrite Hash_spec.
    + by rewrite Eh, Serialize_no_witness.
  - intros Ew. unfold GetWitnessHash. by rewrite CTransaction_of_tx, Ew.
Qed.

(** The weight of a transaction counts each byte of the basic format four times and each byte of the marker, the flag and the witnesses once; so it is at least four times the basic size, with equality exactly without witnesses. *)
Theorem transaction_weight (tx : CMutableTransaction) :
  let base := GetSerializeSize (SerializeTransaction false tx) in
  GetTransactionWeight tx = WITNESS_SCALE_FACTOR * base + (if HasWitness tx then 2 + witness_bytes tx else 0) /\
  WITNESS_SCALE_FACTOR * base <= GetTransactionWeight tx /\
  (GetTransactionWeight tx = WITNESS_SCALE_FACTOR * base <-> HasWitness tx = false).
Proof.
  intros base. unfold GetTransactionWeight. rewrite total_size. unfold WITNESS_SCALE_FACTOR, base, witness_bytes.
  destruct (HasWitness tx); split; [lia| |lia|]; (split; [lia|]); split; done || lia.
Qed.

(** A version with bit 15 set loses its type when it is written again: the bytes
    of two different transactions give the same one, and so the same hash. *)
Theorem version_field_not_canonical :
  let message v := ser_writedata32 v ++ [1] ++ replicate 32 7 ++ [0; 0; 0; 0; 0; 255; 255; 255; 255; 0] ++ [0; 0; 0; 0] in
  let read_as t := mk_tx (-1) t [mk_txin (mk_outpoint (replicate 32 7) 0) [] 0xffffffff []] [] 0 [] in
  UnserializeTransaction 1 1 1 true (message 0x0001ffff) = Some (read_as 1, []) /\
  UnserializeTransaction 1 1 1 true (message 0xffffffff) = Some (read_as (-1), []) /\
  SerializeTransaction true (read_as 1) = SerializeTransaction true (read_as (-1)).
Proof. split; [vm_compute; reflexivity|]. split; vm_compute; reflexivity. Qed.

(** ** Witnesses *)

(** A payment with a witness, of a special type with a payload. *)
Definition demo_tx : CMutableTransaction :=
  mk_tx 3 1 [mk_txin (mk_outpoint (replicate 32 7) 1) [1; 2] 0xfffffffe [[5; 6]; []]] [mk_txout 5000 [0x51] (-10)] 9 [42].

Lemma demo_tx_ok : tx_ok true demo_tx.
Proof. split; unfold version_ok, short, txin_ok, outpoint_ok, txout_ok, word, short; cbn; repeat split; repeat constructor; cbn; try lia; done. Qed.

Lemma transaction_codec_witness :
  UnserializeTransaction 100 100 100 true (SerializeTransaction true demo_tx ++ [0xaa]) = Some (demo_tx, [0xaa]) /\
  UnserializeTransaction 100 100 100 true (take 60 (SerializeTransaction true demo_tx)) = None.
Proof.
  destruct (transaction_codec 100 100 100 true demo_tx [0xaa] ltac:(lia) demo_tx_ok) as (H1 & H2 & _). split; [exact H1|].
  apply (H2 _ (drop 60 (SerializeTransaction true demo_tx))); [symmetry; apply take_drop|vm_compute; discriminate].
Defined.

Lemma transaction_ids_witness :
  length (replicate 64 0) = 64%nat /\
  GetHash (CTransaction_of (replicate 64 0) demo_tx) = sha256 (sha256 (SerializeTransaction false demo_tx)).
Proof.
  split; [reflexivity|].
  exact (proj1 (transaction_ids (replicate 64 0) true demo_tx demo_tx eq_refl demo_tx_ok demo_tx_ok)).
Defined.
