(* ===== verification/Coins.v ===== *)
(** * Coins: the set of unspent outputs and its caches

    Models coins.h and coins.cpp, the database view of txdb.cpp, and the parts of
    validation.cpp that apply the transactions of a block to the set and take
    them back: [UpdateCoins], [ApplyTxInUndo] and the loop of [DisconnectBlock].

    A view is a stack of caches over a database, which is a map from outpoints to
    coins.  Looking up fills caches, so every operation returns the view.  The
    iteration over an unordered map takes its entries in the order of a list
    that is an argument.  [cachedCoinsUsage], a statistic of the memory that the
    scripts occupy, is left out.

    [None] is a failed assertion or an exception. *)

From stdpp Require Import gmap.
From S2P Require Import Prelude Words Script Transaction.

(** ** Coins *)

Record Coin := mk_coin { out : CTxOut; fCoinBase : bool; nHeight : Z }.

(** [Coin()], and a coin after [Clear] *)
Definition coinEmpty : Coin := mk_coin txout_null false 0.
Definition Clear (c : Coin) : Coin := coinEmpty.
Definition IsSpent (c : Coin) : bool := TxOut_IsNull (out c).

(** [Coin(outIn, nHeightIn, fCoinBaseIn)]: the height has 31 bits. *)
Definition new_coin (o : CTxOut) (height : Z) (coinbase : bool) : Coin := mk_coin o coinbase (height mod 2 ^ 31).

Record CCoinsCacheEntry := mk_entry { coin : Coin; flags : Z }.

Definition DIRTY : Z := 1 ≪ 0.
Definition FRESH : Z := 1 ≪ 1.
Definition has_flag (f flag : Z) : bool := negb (Z.land f flag =? 0).
Definition is_dirty (e : CCoinsCacheEntry) : bool := has_flag (flags e) DIRTY.
Definition is_fresh (e : CCoinsCacheEntry) : bool := has_flag (flags e) FRESH.

Abbreviation CCoinsMap := (gmap COutPoint CCoinsCacheEntry).

(** [CCoinsViewDB], and [CCoinsViewCache] with its base. *)
Inductive view :=
  | DB (coins : gmap COutPoint Coin) (best : list Z)
  | Cache (cacheCoins : CCoinsMap) (hashBlock : list Z) (base : view).

(** ** Lookups *)

(** [FetchCoin] of a cache over [base], whose [GetCoin] is [base_GetCoin]: the
    entry ([None] is [cacheCoins.end()]), the map and the base after the lookup. *)
Definition FetchCoin (base_GetCoin : view -> option Coin * view) (outpoint : COutPoint) (cacheCoins : CCoinsMap) (base : view) :
    option CCoinsCacheEntry * CCoinsMap * view :=
  match cacheCoins !! outpoint with
  | Some it => (Some it, cacheCoins, base)
  | None =>
      let '(r, base) := base_GetCoin base in
      match r with
      | None => (None, cacheCoins, base)
      | Some tmp =>
          let ret := mk_entry tmp (if IsSpent tmp then FRESH else 0) in
          (Some ret, <[outpoint := ret]> cacheCoins, base)
      end
  end.

Fixpoint GetCoin (outpoint : COutPoint) (v : view) : option Coin * view :=
  match v with
  | DB coins _ => (coins !! outpoint, v)
  | Cache cacheCoins hashBlock base =>
      let '(it, cacheCoins, base) := FetchCoin (GetCoin outpoint) outpoint cacheCoins base in
      (coin <$> it, Cache cacheCoins hashBlock base)
  end.

Definition AccessCoin (outpoint : COutPoint) (v : view) : Coin * view :=
  let '(r, v) := GetCoin outpoint v in (default coinEmpty r, v).

Definition HaveCoin (outpoint : COutPoint) (v : view) : bool * view :=
  match v with
  | DB coins _ => (bool_decide (is_Some (coins !! outpoint)), v)
  | Cache _ _ _ => let '(r, v) := GetCoin outpoint v in (match r with Some c => negb (IsSpent c) | None => false end, v)
  end.

Definition HaveCoinInCache (outpoint : COutPoint) (cacheCoins : CCoinsMap) : bool := bool_decide (is_Some (cacheCoins !! outpoint)).

Definition GetCacheSize (cacheCoins : CCoinsMap) : nat := size cacheCoins.

Fixpoint GetBestBlock (v : view) : list Z * view :=
  match v with
  | DB _ best => (best, v)
  | Cache cacheCoins hashBlock base =>
      if IsNull256 hashBlock then let '(x, base) := GetBestBlock base in (x, Cache cacheCoins x base)
      else (hashBlock, v)
  end.

Definition SetBestBlock (hashBlockIn : list Z) (v : view) : view :=
  match v with
  | DB coins best => DB coins best
  | Cache cacheCoins _ base => Cache cacheCoins hashBlockIn base
  end.

(** ** Changes; they are operations of caches *)

Definition AddCoin (outpoint : COutPoint) (c : Coin) (possible_overwrite : bool) (v : view) : option view :=
  match v with
  | DB _ _ => None
  | Cache cacheCoins hashBlock base =>
      if IsSpent c then None else
      if IsUnspendable (scriptPubKey (out c)) then Some v else
      let it := default (mk_entry coinEmpty 0) (cacheCoins !! outpoint) in
      if negb possible_overwrite && negb (IsSpent (coin it)) then None else
      let fresh := negb possible_overwrite && negb (is_dirty it) in
      let e := mk_entry c (Z.lor (flags it) (Z.lor DIRTY (if fresh then FRESH else 0))) in
      Some (Cache (<[outpoint := e]> cacheCoins) hashBlock base)
  end.

(** The coin that was spent, as moved into [*moveout]: unchanged, a new [Coin],
    when nothing was found. *)
Definition SpendCoin (outpoint : COutPoint) (v : view) : option (Coin * view) :=
  match v with
  | DB _ _ => None
  | Cache cacheCoins hashBlock base =>
      let '(it, cacheCoins, base) := FetchCoin (GetCoin outpoint) outpoint cacheCoins base in
      match it with
      | None => Some (coinEmpty, Cache cacheCoins hashBlock base)
      | Some e =>
          let cacheCoins :=
            if is_fresh e then delete outpoint cacheCoins
            else <[outpoint := mk_entry (Clear (coin e)) (Z.lor (flags e) DIRTY)]> cacheCoins in
          Some (coin e, Cache cacheCoins hashBlock base)
      end
  end.

(** One entry of [mapCoins] in [BatchWrite] of a cache. *)
Definition write_entry (cacheCoins : CCoinsMap) (k : COutPoint) (e : CCoinsCacheEntry) : option CCoinsMap :=
  if negb (is_dirty e) then Some cacheCoins else
  match cacheCoins !! k with
  | None =>
      if is_fresh e && IsSpent (coin e) then Some cacheCoins
      else Some (<[k := mk_entry (coin e) (if is_fresh e then Z.lor DIRTY FRESH else DIRTY)]> cacheCoins)
  | Some us =>
      if is_fresh e && negb (IsSpent (coin us)) then None else
      if is_fresh us && IsSpent (coin e) then Some (delete k cacheCoins)
      else Some (<[k := mk_entry (coin e) (Z.lor (flags us) DIRTY)]> cacheCoins)
  end.

Fixpoint write_entries (cacheCoins : CCoinsMap) (l : list (COutPoint * CCoinsCacheEntry)) : option CCoinsMap :=
  match l with
  | [] => Some cacheCoins
  | (k, e) :: l => cacheCoins ← write_entry cacheCoins k e; write_entries cacheCoins l
  end.

(** [BatchWrite] of the database: the batch is written at once. *)
Definition db_write (coins : gmap COutPoint Coin) (k : COutPoint) (e : CCoinsCacheEntry) : gmap COutPoint Coin :=
  if negb (is_dirty e) then coins else if IsSpent (coin e) then delete k coins else <[k := coin e]> coins.

Definition BatchWrite (l : list (COutPoint * CCoinsCacheEntry)) (hashBlockIn : list Z) (v : view) : option view :=
  match v with
  | DB coins best =>
      Some (DB (fold_left (fun m '(k, e) => db_write m k e) l coins) (if IsNull256 hashBlockIn then best else hashBlockIn))
  | Cache cacheCoins _ base => cacheCoins ← write_entries cacheCoins l; Some (Cache cacheCoins hashBlockIn base)
  end.

(** [l] lists the entries of the cache. *)
Definition Flush (l : list (COutPoint * CCoinsCacheEntry)) (v : view) : option view :=
  match v with
  | DB _ _ => None
  | Cache cacheCoins hashBlock base => base ← BatchWrite l hashBlock base; Some (Cache ∅ hashBlock base)
  end.

Definition Uncache (outpoint : COutPoint) (v : view) : view :=
  match v with
  | DB _ _ => v
  | Cache cacheCoins hashBlock base =>
      match cacheCoins !! outpoint with
      | Some e => if flags e =? 0 then Cache (delete outpoint cacheCoins) hashBlock base else v
      | None => v
      end
  end.

(** ** Transactions *)

(** Transactions without inputs from the set. *)
Definition no_inputs (tx : CMutableTransaction) : bool :=
  IsCoinBase tx || Tx_IsZerocoinSpend tx || Tx_IsSigmaSpend tx || Tx_IsZerocoinRemint tx.

Fixpoint value_in (ins : list CTxIn) (nResult : Z) (v : view) : Z * view :=
  match ins with
  | [] => (nResult, v)
  | i :: ins => let '(c, v) := AccessCoin (prevout i) v in value_in ins (i64 (nResult + nValue (out c))) v
  end.
Definition GetValueIn (tx : CMutableTransaction) (v : view) : Z * view := if no_inputs tx then (0, v) else value_in (vin tx) 0 v.

Fixpoint have_inputs (ins : list CTxIn) (v : view) : bool * view :=
  match ins with
  | [] => (true, v)
  | i :: ins => let '(r, v) := HaveCoin (prevout i) v in if r then have_inputs ins v else (false, v)
  end.
Definition HaveInputs (tx : CMutableTransaction) (v : view) : bool * view := if no_inputs tx then (true, v) else have_inputs (vin tx) v.

(** The outputs from index [i] on; [txid] is [tx.GetHash()]. *)
Fixpoint add_outputs (txid : list Z) (i : Z) (outs : list CTxOut) (height : Z) (coinbase : bool) (v : view) : option view :=
  match outs with
  | [] => Some v
  | o :: outs =>
      v ← AddCoin (mk_outpoint txid (u32 i)) (new_coin o height coinbase) coinbase v;
      add_outputs txid (i + 1) outs height coinbase v
  end.
Definition AddCoins (txid : list Z) (tx : CMutableTransaction) (height : Z) (v : view) : option view :=
  add_outputs txid 0 (vout tx) height (IsCoinBase tx) v.

(** [CTxUndo::vprevout] and the view. *)
Fixpoint spend_inputs (ins : list CTxIn) (v : view) : option (list Coin * view) :=
  match ins with
  | [] => Some ([], v)
  | i :: ins => '(c, v) ← SpendCoin (prevout i) v; '(cs, v) ← spend_inputs ins v; Some (c :: cs, v)
  end.

Definition UpdateCoins (txid : list Z) (tx : CMutableTransaction) (height : Z) (v : view) : option (list Coin * view) :=
  '(undo, v) ← (if no_inputs tx then Some ([], v) else spend_inputs (vin tx) v);
  v ← AddCoins txid tx height v;
  Some (undo, v).

(** ** Taking a transaction back *)

Definition MAX_OUTPUTS_PER_BLOCK : Z := 2000000 / GetSerializeSize (Serialize_txout txout_null).

(** [while (iter.n < MAX_OUTPUTS_PER_BLOCK)] *)
Fixpoint txid_loop (fuel : nat) (txid : list Z) (n : Z) (v : view) : Coin * view :=
  match fuel with
  | O => (coinEmpty, v)
  | S fuel =>
      let '(alternate, v) := AccessCoin (mk_outpoint txid n) v in
      if negb (IsSpent alternate) then (alternate, v) else txid_loop fuel txid (n + 1) v
  end.
Definition AccessByTxid (txid : list Z) (v : view) : Coin * view := txid_loop (Z.to_nat MAX_OUTPUTS_PER_BLOCK) txid 0 v.

Inductive DisconnectResult := DISCONNECT_OK | DISCONNECT_UNCLEAN | DISCONNECT_FAILED.

Definition ApplyTxInUndo (undo : Coin) (o : COutPoint) (v : view) : option (DisconnectResult * view) :=
  let '(have, v) := HaveCoin o v in
  let fClean := negb have in
  let '(undo, v) :=
    if nHeight undo =? 0 then
      let '(alternate, v) := AccessByTxid (op_hash o) v in
      if negb (IsSpent alternate) then (Some (mk_coin (out undo) (fCoinBase alternate) (nHeight alternate)), v) else (None, v)
    else (Some undo, v) in
  match undo with
  | None => Some (DISCONNECT_FAILED, v)
  | Some undo => v ← AddCoin o undo (fCoinBase undo) v; Some (if fClean then DISCONNECT_OK else DISCONNECT_UNCLEAN, v)
  end.

(** [CTxOut]'s [operator==] *)
Definition txout_eqb (a b : CTxOut) : bool := (nValue a =? nValue b) && bool_decide (scriptPubKey a = scriptPubKey b).

(** The outputs of a disconnected transaction, from index [i] on: [fClean]. *)
Fixpoint remove_outputs (txid : list Z) (i : Z) (outs : list CTxOut) (fClean : bool) (v : view) : option (bool * view) :=
  match outs with
  | [] => Some (fClean, v)
  | o :: outs =>
      if negb (IsUnspendable (scriptPubKey o)) then
        '(c, v) ← SpendCoin (mk_outpoint txid (u32 i)) v;
        remove_outputs txid (i + 1) outs (fClean && txout_eqb o (out c)) v
      else remove_outputs txid (i + 1) outs fClean v
  end.

(** The inputs, the last one first; [None] inside is [DISCONNECT_FAILED]. *)
Fixpoint restore_inputs (rins : list (CTxIn * Coin)) (fClean : bool) (v : view) : option (option bool * view) :=
  match rins with
  | [] => Some (Some fClean, v)
  | (i, undo) :: rins =>
      '(res, v) ← ApplyTxInUndo undo (prevout i) v;
      match res with
      | DISCONNECT_FAILED => Some (None, v)
      | DISCONNECT_UNCLEAN => restore_inputs rins false v
      | DISCONNECT_OK => restore_inputs rins fClean v
      end
  end.

(** One turn of the loop of DisconnectBlock over the transactions. *)
Definition disconnect_tx (txid : list Z) (tx : CMutableTransaction) (undo : list Coin) (fClean : bool) (v : view) :
    option (option bool * view) :=
  '(fClean, v) ← remove_outputs txid 0 (vout tx) fClean v;
  if no_inputs tx then Some (Some fClean, v)
  else if negb (length undo =? length (vin tx))%nat then Some (None, v)
  else restore_inputs (rev (zip (vin tx) undo)) fClean v.

(** The transactions of a block in order, with their undo data. *)
Fixpoint connect_txs (height : Z) (txs : list (list Z * CMutableTransaction)) (v : view) : option (list (list Coin) * view) :=
  match txs with
  | [] => Some ([], v)
  | (txid, tx) :: txs =>
      '(undo, v) ← UpdateCoins txid tx height v;
      '(undos, v) ← connect_txs height txs v;
      Some (undo :: undos, v)
  end.

(** The loop of DisconnectBlock: the last transaction first. *)
Fixpoint disconnect_txs (rtxs : list (list Z * CMutableTransaction * list Coin)) (fClean : bool) (v : view) : option (option bool * view) :=
  match rtxs with
  | [] => Some (Some fClean, v)
  | (txid, tx, undo) :: rtxs =>
      '(r, v) ← disconnect_tx txid tx undo fClean v;
      match r with None => Some (None, v) | Some fClean => disconnect_txs rtxs fClean v end
  end.
