(* ===== verification/CoinsTheorems.v ===== *)
(** * CoinsTheorems: the theorems on coins

    The stack of caches refines a set of coins, and a reorganisation restores
    it.

    [utxo] is the set that a view stands for, [wf] the invariant of the flags:
    an entry that is not DIRTY agrees with the base, and the base has no coin
    under an entry that is FRESH.  Every operation keeps the invariant and acts
    on the set as its contract says.

    The transactions of a block are applied to the set of coins one after the
    other; taken back in reverse order with their undo data, they leave the set
    as it was, whatever the caches did in between. *)

From stdpp Require Import gmap.
From S2P Require Import Prelude Words Script Transaction Coins.

(** ** The set of a view *)

Definition unspent (c : Coin) : option Coin := if IsSpent c then None else Some c.

Fixpoint utxo (v : view) (o : COutPoint) : option Coin :=
  match v with
  | DB coins _ => coins !! o ≫= unspent
  | Cache cacheCoins _ base => match cacheCoins !! o with Some e => unspent (coin e) | None => utxo base o end
  end.

(** Views of the same set. *)
Definition same (v v' : view) : Prop := forall o, utxo v o = utxo v' o.

#[export] Instance same_equivalence : Equivalence same.
Proof. split; [done|intros v w H o; by rewrite H|intros u v w H1 H2 o; by rewrite H1, H2]. Qed.

#[export] Instance cache_proper c h : Proper (same ==> same) (Cache c h).
Proof. intros v w H o. cbn. destruct (c !! o); [done|apply H]. Qed.

(** ** The invariant *)

Definition flags_ok (f : Z) : Prop := f = 0 \/ f = 1 \/ f = 2 \/ f = 3.

Record entry_ok (base : COutPoint -> option Coin) (o : COutPoint) (e : CCoinsCacheEntry) : Prop := {
  eo_flags : flags_ok (flags e);
  eo_clean : is_dirty e = false -> base o = unspent (coin e);
  eo_fresh : is_fresh e = true -> base o = None }.

Fixpoint wf (v : view) : Prop :=
  match v with
  | DB coins _ => forall o c, coins !! o = Some c -> IsSpent c = false
  | Cache cacheCoins _ base => wf base /\ forall o e, cacheCoins !! o = Some e -> entry_ok (utxo base) o e
  end.

Lemma unspent_empty : unspent coinEmpty = None.
Proof. done. Qed.

Lemma unspent_some c : IsSpent c = false -> unspent c = Some c.
Proof. unfold unspent. by intros ->. Qed.

Lemma unspent_spent c c' : unspent c = Some c' -> c' = c /\ IsSpent c = false.
Proof. unfold unspent. destruct (IsSpent c); [done|]. intros [= ->]. done. Qed.

Lemma utxo_unspent v o c : utxo v o = Some c -> IsSpent c = false.
Proof.
  induction v as [m best|m h v IH]; cbn [utxo].
  - destruct (m !! o) as [c'|]; [|done]. cbn. intros H. by destruct (unspent_spent _ _ H) as [-> ?].
  - destruct (m !! o) as [e|]; [|done]. intros H. by destruct (unspent_spent _ _ H) as [-> ?].
Qed.

(** The value of the cached entry, or of the base. *)
Lemma utxo_insert m h v o e o' :
  utxo (Cache (<[o := e]> m) h v) o' = if decide (o' = o) then unspent (coin e) else utxo (Cache m h v) o'.
Proof.
  cbn [utxo]. destruct (decide (o' = o)) as [->|Hne]; [by rewrite lookup_insert_eq|by rewrite lookup_insert_ne].
Qed.

Lemma utxo_delete m h v o o' :
  utxo (Cache (delete o m) h v) o' = if decide (o' = o) then utxo v o else utxo (Cache m h v) o'.
Proof.
  cbn [utxo]. destruct (decide (o' = o)) as [->|Hne]; [by rewrite lookup_delete_eq|by rewrite lookup_delete_ne].
Qed.

Lemma cache_insert_wf m h v o e : wf (Cache m h v) -> entry_ok (utxo v) o e -> wf (Cache (<[o := e]> m) h v).
Proof.
  intros [Hv Hm] He. split; [done|]. intros o' e' [[<- <-]|[_ Hl]]%lookup_insert_Some; [done|by apply Hm].
Qed.

Lemma wf_delete m h v o : wf (Cache m h v) -> wf (Cache (delete o m) h v).
Proof. intros [Hv Hm]. split; [done|]. intros o' e' [_ Hl]%lookup_delete_Some. by apply Hm. Qed.

Lemma wf_base m h v v' : wf (Cache m h v) -> wf v' -> same v' v -> wf (Cache m h v').
Proof.
  intros [_ Hm] Hv' Hs. split; [done|]. intros o e Hl. destruct (Hm o e Hl) as [H1 H2 H3].
  split; [done| |]; intros H; rewrite Hs; auto.
Qed.

(** ** Flags *)

(** The flags after [|=], by cases. *)
Lemma flags_lor f g : flags_ok f -> flags_ok g ->
  flags_ok (Z.lor f g) /\ forall b, b = DIRTY \/ b = FRESH -> has_flag (Z.lor f g) b = has_flag f b || has_flag g b.
Proof.
  intros Hf Hg. split.
  - destruct Hf as [->|[->|[->| ->]]], Hg as [->|[->|[->| ->]]]; unfold flags_ok; cbn; auto 6.
  - intros b Hb. destruct Hf as [->|[->|[->| ->]]], Hg as [->|[->|[->| ->]]], Hb as [-> | ->]; done.
Qed.

Lemma entry_intro base o c f d r :
  flags_ok f -> has_flag f DIRTY = d -> has_flag f FRESH = r ->
  (d = false -> base o = unspent c) -> (r = true -> base o = None) -> entry_ok base o (mk_entry c f).
Proof. intros Hf Hd Hr H1 H2. split; [done| |]; unfold is_dirty, is_fresh; cbn [flags coin]; intros H; [apply H1|apply H2]; congruence. Qed.

(** ** Lookups *)

Lemma FetchCoin_spec get m h v o :
  wf (Cache m h v) ->
  (let '(r, v') := get v in wf v' /\ same v' v /\ r ≫= unspent = utxo v o) ->
  let '(it, m', v') := FetchCoin get o m v in
  m' !! o = it /\ wf (Cache m' h v') /\ same (Cache m' h v') (Cache m h v) /\ same v' v /\
  (coin <$> it) ≫= unspent = utxo (Cache m h v) o.
Proof.
  intros Hwf Hget. unfold FetchCoin. destruct (m !! o) as [it|] eqn:Em.
  { split; [done|]. split; [done|]. split; [done|]. split; [done|]. cbn [utxo]. by rewrite Em. }
  destruct (get v) as [r v']. destruct Hget as (Hv' & Hs & Hr). pose proof (wf_base m h v v' Hwf Hv' Hs) as Hwf'.
  assert (Hu : utxo (Cache m h v) o = utxo v o) by (cbn [utxo]; by rewrite Em).
  destruct r as [tmp|].
  - split; [by rewrite lookup_insert_eq|]. cbn [mbind option_bind] in Hr. split; [|split; [|split; [done|by rewrite Hu]]].
    + apply cache_insert_wf; [done|]. unfold unspent in Hr. split; cbn [flags coin].
      * destruct (IsSpent tmp); unfold flags_ok, FRESH; cbn; auto.
      * intros _. rewrite Hs, <-Hr. done.
      * unfold is_fresh, has_flag. cbn [flags]. destruct (IsSpent tmp); [|done]. intros _. by rewrite Hs, <-Hr.
    + intros o'. rewrite utxo_insert. destruct (decide (o' = o)) as [->|]; [by rewrite Hu, <-Hr|by apply cache_proper].
  - split; [done|]. split; [done|]. split; [by apply cache_proper|]. split; [done|]. rewrite Hu, <-Hr. done.
Qed.

Lemma GetCoin_spec v o : wf v -> let '(r, v') := GetCoin o v in wf v' /\ same v' v /\ r ≫= unspent = utxo v o.
Proof.
  induction v as [m best|m h v IH]; intros Hwf; [done|]. cbn [GetCoin].
  pose proof (FetchCoin_spec (GetCoin o) m h v o Hwf (IH (proj1 Hwf))) as H.
  destruct (FetchCoin (GetCoin o) o m v) as [[it m'] v']. tauto.
Qed.

Lemma AccessCoin_spec v o : wf v -> let '(c, v') := AccessCoin o v in wf v' /\ same v' v /\ unspent c = utxo v o.
Proof.
  intros Hwf. unfold AccessCoin. pose proof (GetCoin_spec v o Hwf) as H. destruct (GetCoin o v) as [r v'].
  destruct H as (H1 & H2 & H3). split; [done|]. split; [done|]. rewrite <-H3. by destruct r.
Qed.

Lemma HaveCoin_spec v o : wf v -> let '(r, v') := HaveCoin o v in wf v' /\ same v' v /\ r = bool_decide (is_Some (utxo v o)).
Proof.
  intros Hwf. destruct v as [m best|m h v].
  - cbn [HaveCoin]. split; [done|]. split; [done|]. cbn [utxo]. apply bool_decide_ext. destruct (m !! o) as [c|] eqn:E; [|done].
    cbn. rewrite (unspent_some c) by by apply (Hwf o). done.
  - unfold HaveCoin. pose proof (GetCoin_spec _ o Hwf) as H. destruct (GetCoin o (Cache m h v)) as [r v'].
    destruct H as (H1 & H2 & H3). split; [done|]. split; [done|]. rewrite <-H3. destruct r as [c|]; [|done].
    cbn. unfold unspent. destruct (IsSpent c); [done|]. symmetry. apply bool_decide_true. by eexists.
Qed.

(** ** Changes *)

Definition is_cache (v : view) : Prop := match v with Cache _ _ _ => True | DB _ _ => False end.

(** The set with one outpoint changed. *)
Definition upd (m : COutPoint -> option Coin) (o : COutPoint) (x : option Coin) (o' : COutPoint) : option Coin :=
  if decide (o' = o) then x else m o'.

Definition becomes (v : view) (m : COutPoint -> option Coin) : Prop := is_cache v /\ wf v /\ forall o, utxo v o = m o.

Lemma AddCoin_spec v o c overwrite :
  is_cache v -> wf v -> IsSpent c = false -> (overwrite = false -> utxo v o = None) ->
  exists v', AddCoin o c overwrite v = Some v' /\
    becomes v' (if IsUnspendable (scriptPubKey (out c)) then utxo v else upd (utxo v) o (Some c)).
Proof.
  intros Hc Hwf Hs Hnew. destruct v as [|m h v]; [done|]. unfold AddCoin. rewrite Hs.
  destruct (IsUnspendable (scriptPubKey (out c))); [by eexists|].
  set (it := default (mk_entry coinEmpty 0) (m !! o)).
  assert (Hit : flags_ok (flags it) /\ (overwrite = false -> IsSpent (coin it) = true) /\
                (is_fresh it = true -> utxo v o = None) /\ (overwrite = false -> is_dirty it = false -> utxo v o = None)).
  { cbn [utxo] in Hnew. subst it. destruct (m !! o) as [e|] eqn:Em; unfold default, from_option, id.
    - destruct Hwf as [_ Hm]. destruct (Hm o e Em) as [H1 H2 H3]. split; [done|]. split; [|split; [done|]].
      + intros Ho. specialize (Hnew Ho). unfold unspent in Hnew. by destruct (IsSpent (coin e)).
      + intros Ho Hd. rewrite (H2 Hd). auto.
    - split; [by left|]. split; [done|]. split; [done|]. auto. }
  destruct Hit as (Hf & Hsp & Hfr & Hcl). destruct (negb overwrite && negb (IsSpent (coin it))) eqn:E.
  { apply andb_true_iff in E as [E1%negb_true_iff E2%negb_true_iff]. by rewrite (Hsp E1) in E2. }
  eexists. split; [reflexivity|]. split; [done|]. split.
  - apply cache_insert_wf; [done|]. set (fresh := negb overwrite && negb (is_dirty it)).
    assert (Hg : flags_ok (Z.lor DIRTY (if fresh then FRESH else 0))) by (destruct fresh; unfold flags_ok; cbn; auto).
    destruct (flags_lor _ _ Hf Hg) as [Hok Hbits].
    apply (entry_intro _ _ _ _ true (is_fresh it || fresh)); [done| | |done|].
    + rewrite Hbits by auto. destruct fresh; apply orb_true_r.
    + rewrite Hbits by auto. unfold is_fresh. f_equal. by destruct fresh.
    + intros [H|H]%orb_true_iff; [auto|]. apply andb_true_iff in H as [H1%negb_true_iff H2%negb_true_iff]. auto.
  - intros o'. rewrite utxo_insert. cbn [coin]. by rewrite (unspent_some c Hs).
Qed.

Lemma SpendCoin_spec v o : is_cache v -> wf v ->
  exists c v', SpendCoin o v = Some (c, v') /\ unspent c = utxo v o /\ becomes v' (upd (utxo v) o None).
Proof.
  intros Hc Hwf. destruct v as [|m h v]; [done|]. unfold SpendCoin.
  pose proof (FetchCoin_spec (GetCoin o) m h v o Hwf (GetCoin_spec v o (proj1 Hwf))) as H.
  destruct (FetchCoin (GetCoin o) o m v) as [[it m'] v']. destruct H as (Hl & Hwf' & Hs & _ & Hr).
  destruct it as [e|]; cbn [fmap option_fmap option_map mbind option_bind] in Hr.
  - eexists _, _. split; [reflexivity|]. split; [done|]. split; [done|]. destruct Hwf' as [Hv' Hm']. pose proof (Hm' o e Hl) as He.
    destruct (is_fresh e) eqn:Ef.
    + split; [by apply wf_delete|]. intros o'. rewrite utxo_delete. unfold upd. destruct (decide (o' = o)); [by apply He|apply Hs].
    + assert (Hd : flags_ok DIRTY) by (unfold flags_ok; cbn; auto). destruct (flags_lor _ _ (eo_flags _ _ _ He) Hd) as [Hok Hbits]. split.
      * apply cache_insert_wf; [done|]. apply (entry_intro _ _ _ _ true false); [done| | |done|done].
        -- rewrite Hbits by auto. apply orb_true_r.
        -- rewrite Hbits by auto. unfold is_fresh in Ef. by rewrite Ef.
      * intros o'. rewrite utxo_insert. unfold upd. destruct (decide (o' = o)); [done|apply Hs].
  - eexists _, _. split; [reflexivity|]. split; [by rewrite <-Hr|]. split; [done|]. split; [done|].
    intros o'. unfold upd. rewrite Hs. destruct (decide (o' = o)) as [->|]; [by rewrite <-Hr|done].
Qed.

Lemma Uncache_spec v o : is_cache v -> wf v -> becomes (Uncache o v) (utxo v).
Proof.
  intros Hc Hwf. destruct v as [|m h v]; [done|]. cbn [Uncache]. destruct (m !! o) as [e|] eqn:Em; [|done].
  destruct (Z.eqb_spec (flags e) 0) as [Ef|]; [|done]. split; [done|]. split; [by apply wf_delete|].
  intros o'. rewrite utxo_delete. destruct (decide (o' = o)) as [->|]; [|done]. cbn [utxo]. rewrite Em.
  destruct Hwf as [_ Hm]. apply (Hm o e Em). unfold is_dirty. by rewrite Ef.
Qed.

(** ** Batches *)

(** The effect of an entry and of a list of entries on a set. *)
Definition apply_entry (m : COutPoint -> option Coin) (ke : COutPoint * CCoinsCacheEntry) : COutPoint -> option Coin :=
  if is_dirty (snd ke) then upd m (fst ke) (unspent (coin (snd ke))) else m.
Definition apply_entries (m : COutPoint -> option Coin) (l : list (COutPoint * CCoinsCacheEntry)) : COutPoint -> option Coin :=
  fold_left apply_entry l m.

(** FRESH entries are unknown to the set. *)
Definition fresh_ok (m : COutPoint -> option Coin) (ke : COutPoint * CCoinsCacheEntry) : Prop :=
  is_fresh (snd ke) = true -> m (fst ke) = None.

Lemma write_entry_spec m h v k e : wf (Cache m h v) -> fresh_ok (utxo (Cache m h v)) (k, e) ->
  exists m', write_entry m k e = Some m' /\ wf (Cache m' h v) /\
    forall o, utxo (Cache m' h v) o = apply_entry (utxo (Cache m h v)) (k, e) o.
Proof.
  intros Hwf Hfr. unfold write_entry, apply_entry, fresh_ok in *. cbn [fst snd] in *.
  destruct (is_dirty e) eqn:Ed; cbn [negb]; [|by exists m]. cbn [utxo] in Hfr. destruct (m !! k) as [us|] eqn:Em.
  - destruct Hwf as [Hv Hm]. destruct (Hm k us Em) as [Hf Hcl Hus].
    destruct (is_fresh e && negb (IsSpent (coin us))) eqn:Ex.
    { apply andb_true_iff in Ex as [E1 E2%negb_true_iff]. specialize (Hfr E1). unfold unspent in Hfr. by rewrite E2 in Hfr. }
    destruct (is_fresh us && IsSpent (coin e)) eqn:Ey.
    + apply andb_true_iff in Ey as [E1 E2]. eexists. split; [reflexivity|]. split; [by apply wf_delete|].
      intros o. rewrite utxo_delete. unfold upd. destruct (decide (o = k)); [|done]. rewrite (Hus E1). unfold unspent. by rewrite E2.
    + eexists. split; [reflexivity|]. split; [|intros o; by rewrite utxo_insert]. apply cache_insert_wf; [done|].
      assert (Hd : flags_ok DIRTY) by (unfold flags_ok; cbn; auto). destruct (flags_lor _ _ Hf Hd) as [Hok Hbits].
      apply (entry_intro _ _ _ _ true (is_fresh us)); [done| | |done|done].
      * rewrite Hbits by auto. apply orb_true_r.
      * rewrite Hbits by auto. apply orb_false_r.
  - destruct (is_fresh e && IsSpent (coin e)) eqn:Ex.
    + apply andb_true_iff in Ex as [E1 E2]. exists m. split; [done|]. split; [done|]. intros o. unfold upd. destruct (decide (o = k)) as [->|]; [|done].
      cbn [utxo]. rewrite Em, (Hfr E1). unfold unspent. by rewrite E2.
    + eexists. split; [reflexivity|]. split; [|intros o; by rewrite utxo_insert]. apply cache_insert_wf; [done|].
      apply (entry_intro _ _ _ _ true (is_fresh e)); [destruct (is_fresh e); unfold flags_ok; cbn; auto|by destruct (is_fresh e)|by destruct (is_fresh e)|done|auto].
Qed.

Lemma db_write_spec m b k e : wf (DB m b) ->
  wf (DB (db_write m k e) b) /\ forall o, utxo (DB (db_write m k e) b) o = apply_entry (utxo (DB m b)) (k, e) o.
Proof.
  intros Hwf. unfold db_write, apply_entry, upd. cbn [fst snd]. destruct (is_dirty e); cbn [negb]; [|done].
  destruct (IsSpent (coin e)) eqn:Es; split.
  - intros o c [_ Hl]%lookup_delete_Some. by apply (Hwf o).
  - intros o. cbn [utxo]. unfold unspent at 2. rewrite Es. destruct (decide (o = k)) as [->|]; [by rewrite lookup_delete_eq|by rewrite lookup_delete_ne].
  - intros o c [[_ <-]|[_ Hl]]%lookup_insert_Some; [done|by apply (Hwf o)].
  - intros o. cbn [utxo]. destruct (decide (o = k)) as [->|]; [by rewrite lookup_insert_eq|by rewrite lookup_insert_ne].
Qed.

Lemma apply_entries_ext m m' l : (forall o, m o = m' o) -> forall o, apply_entries m l o = apply_entries m' l o.
Proof.
  revert m m'. induction l as [|ke l IH]; intros m m' H; [done|]. cbn. apply IH. intros o. unfold apply_entry, upd.
  destruct (is_dirty (snd ke)); [|done]. by destruct (decide (o = fst ke)).
Qed.

Lemma fresh_after m m' ke l : NoDup ((ke :: l).*1) -> Forall (fresh_ok m) l -> (forall o, m' o = apply_entry m ke o) -> Forall (fresh_ok m') l.
Proof.
  rewrite fmap_cons, NoDup_cons. intros [Hin _] Hl Hm. apply Forall_forall. intros [k e] Hke Hf. rewrite Hm. unfold apply_entry, upd.
  rewrite Forall_forall in Hl. specialize (Hl _ Hke Hf). cbn [fst snd] in *.
  destruct (is_dirty (snd ke)); [|done]. destruct (decide (k = fst ke)) as [->|]; [|done].
  exfalso. apply Hin. by apply (list_elem_of_fmap_2 fst l (fst ke, e)).
Qed.

Lemma db_writes_spec l m b b' : wf (DB m b) ->
  let m' := fold_left (fun m '(k, e) => db_write m k e) l m in
  wf (DB m' b') /\ forall o, utxo (DB m' b') o = apply_entries (utxo (DB m b)) l o.
Proof.
  revert m. induction l as [|[k e] l IH]; intros m Hwf; [done|]. cbn [fold_left apply_entries].
  destruct (db_write_spec m b k e Hwf) as [H1 H2]. destruct (IH (db_write m k e) H1) as [H3 H4].
  split; [done|]. intros o. rewrite H4. by apply apply_entries_ext.
Qed.

Lemma write_entries_spec l m h v : wf (Cache m h v) -> NoDup (l.*1) -> Forall (fresh_ok (utxo (Cache m h v))) l ->
  exists m', write_entries m l = Some m' /\ wf (Cache m' h v) /\ forall o, utxo (Cache m' h v) o = apply_entries (utxo (Cache m h v)) l o.
Proof.
  revert m. induction l as [|[k e] l IH]; intros m Hwf Hnd Hfr; [by exists m|]. cbn [write_entries].
  pose proof Hfr as [Hke Hl]%Forall_cons. destruct (write_entry_spec m h v k e Hwf Hke) as (m1 & -> & H1 & H2). cbn [mbind option_bind].
  destruct (IH m1 H1) as (m2 & E & H3 & H4); [by apply NoDup_cons in Hnd as [_ ?]|by apply (fresh_after _ _ (k, e) l Hnd Hl)|].
  exists m2. split; [done|]. split; [done|]. intros o. rewrite H4. exact (apply_entries_ext _ (apply_entry (utxo (Cache m h v)) (k, e)) l H2 o).
Qed.

Lemma BatchWrite_spec v l x : wf v -> NoDup (l.*1) -> Forall (fresh_ok (utxo v)) l ->
  exists v', BatchWrite l x v = Some v' /\ wf v' /\ forall o, utxo v' o = apply_entries (utxo v) l o.
Proof.
  intros Hwf Hnd Hfr. destruct v as [m b|m h v]; cbn [BatchWrite].
  - eexists. split; [reflexivity|]. by apply db_writes_spec.
  - destruct (write_entries_spec l m h v Hwf Hnd Hfr) as (m' & -> & H1 & H2). eexists. split; [reflexivity|]. done.
Qed.

(** A list of the entries of a map acts like the map. *)
Lemma apply_map m l (c : CCoinsMap) o : NoDup (l.*1) -> (forall k e, (k, e) ∈ l <-> c !! k = Some e) ->
  apply_entries m l o = match c !! o with Some e => if is_dirty e then unspent (coin e) else m o | None => m o end.
Proof.
  revert m c. induction l as [|[k e] l IH]; intros m c Hnd Hl.
  - cbn. destruct (c !! o) as [e|] eqn:E; [|done]. apply Hl in E. by apply elem_of_nil in E.
  - change (apply_entries m ((k, e) :: l) o) with (apply_entries (apply_entry m (k, e)) l o). rewrite fmap_cons, NoDup_cons in Hnd. destruct Hnd as [Hk Hnd]. cbn [fst] in Hk.
    assert (Hck : c !! k = Some e) by (apply Hl; left). rewrite (IH _ (delete k c) Hnd).
    + unfold apply_entry, upd. cbn [fst snd]. destruct (decide (o = k)) as [->|Hne].
      * rewrite lookup_delete_eq, Hck. destruct (is_dirty e); [|done]. by destruct (decide (k = k)).
      * rewrite lookup_delete_ne by done. destruct (is_dirty e); [|done]. by destruct (decide (o = k)).
    + intros k' e'. rewrite lookup_delete_Some, <-Hl. split.
      * intros Hin. split; [|by right]. intros ->. apply Hk. by apply (list_elem_of_fmap_2 fst l (k', e')).
      * intros [Hne Hin]. apply elem_of_cons in Hin as [[= -> ->]|Hin]; done.
Qed.

(** [Flush] empties the cache into its base, in any order of the entries, and
    neither view of the set changes; the FRESH flag is never misapplied. *)
Lemma Flush_spec m h v l : wf (Cache m h v) -> l ≡ₚ map_to_list m ->
  exists v', Flush l (Cache m h v) = Some (Cache ∅ h v') /\ wf v' /\ same v' (Cache m h v) /\ becomes (Cache ∅ h v') (utxo (Cache m h v)).
Proof.
  intros Hwf Hl. pose proof Hwf as [Hv Hm].
  assert (Hin : forall k e, (k, e) ∈ l <-> m !! k = Some e) by (intros k e; rewrite Hl; apply elem_of_map_to_list).
  assert (Hnd : NoDup (l.*1)) by (rewrite Hl; apply NoDup_fst_map_to_list).
  assert (Hfr : Forall (fresh_ok (utxo v)) l).
  { apply Forall_forall. intros [k e] Hke Hf. apply Hin in Hke. by apply (eo_fresh _ _ _ (Hm k e Hke)). }
  destruct (BatchWrite_spec v l h Hv Hnd Hfr) as (v' & E & Hwf' & Hu). exists v'. unfold Flush. rewrite E.
  assert (Hs : same v' (Cache m h v)).
  { intros o. rewrite Hu, (apply_map _ l m o Hnd Hin). cbn [utxo]. destruct (m !! o) as [e|] eqn:Em; [|done].
    destruct (is_dirty e) eqn:Ed; [done|]. by apply (eo_clean _ _ _ (Hm o e Em)). }
  split; [done|]. split; [done|]. split; [done|]. split; [done|]. split; [split; [done|]; intros o e H; by rewrite lookup_empty in H|].
  intros o. cbn [utxo]. rewrite lookup_empty. apply Hs.
Qed.

Abbreviation coin_set := (COutPoint -> option Coin).

(** ** The set after a transaction *)

Fixpoint remove_all (m : coin_set) (ins : list CTxIn) : coin_set :=
  match ins with [] => m | i :: ins => remove_all (upd m (prevout i) None) ins end.

Fixpoint add_all (m : coin_set) (txid : list Z) (i : Z) (outs : list CTxOut) (height : Z) (coinbase : bool) : coin_set :=
  match outs with
  | [] => m
  | o :: outs =>
      add_all (if IsUnspendable (scriptPubKey o) then m else upd m (mk_outpoint txid (u32 i)) (Some (new_coin o height coinbase)))
        txid (i + 1) outs height coinbase
  end.

Definition connected (m : coin_set) (txid : list Z) (tx : CMutableTransaction) (height : Z) : coin_set :=
  add_all (if no_inputs tx then m else remove_all m (vin tx)) txid 0 (vout tx) height (IsCoinBase tx).

(** The outpoints that the outputs from index [i] on create. *)
Fixpoint created (txid : list Z) (i : Z) (outs : list CTxOut) : list COutPoint :=
  match outs with
  | [] => []
  | o :: outs => (if IsUnspendable (scriptPubKey o) then [] else [mk_outpoint txid (u32 i)]) ++ created txid (i + 1) outs
  end.

(** What a transaction must meet: its inputs are distinct coins of the set with
    their metadata, and its outputs are not null and new to the set. *)
Record tx_fits (m : coin_set) (txid : list Z) (tx : CMutableTransaction) : Prop := {
  tf_nodup : no_inputs tx = false -> NoDup (map prevout (vin tx));
  tf_inputs : no_inputs tx = false -> Forall (fun i => exists c, m (prevout i) = Some c) (vin tx);
  tf_outputs : Forall (fun o => TxOut_IsNull o = false) (vout tx);
  tf_count : Z.of_nat (length (vout tx)) < 2 ^ 32;
  tf_new : Forall (fun o => m o = None) (created txid 0 (vout tx)) }.

(** Coins of a set can be spent and have a height. *)
Definition proper_coins (m : coin_set) : Prop :=
  forall o c, m o = Some c -> IsUnspendable (scriptPubKey (out c)) = false /\ nHeight c <> 0.

(** ** Sets *)

Lemma remove_all_spec m ins o : remove_all m ins o = if decide (o ∈ map prevout ins) then None else m o.
Proof.
  revert m. induction ins as [|i ins IH]; intros m; cbn [remove_all map].
  - by destruct (decide (o ∈ [])) as [H|]; [apply elem_of_nil in H|].
  - rewrite IH. unfold upd. destruct (decide (o ∈ map prevout ins)) as [H|H].
    + destruct (decide (o ∈ prevout i :: map prevout ins)) as [|H']; [done|]. destruct H'. by right.
    + destruct (decide (o = prevout i)) as [->|Hne]; destruct (decide (_ ∈ prevout i :: map prevout ins)) as [H'|H']; try done.
      * destruct H'. left.
      * apply elem_of_cons in H' as [->|H']; done.
Qed.

Lemma created_range txid i outs o : 0 <= i -> i + Z.of_nat (length outs) <= 2 ^ 32 -> o ∈ created txid i outs -> op_hash o = txid /\ i <= op_n o.
Proof.
  revert i. induction outs as [|x outs IH]; intros i Hi Hl Ho; cbn [created] in Ho; [by apply elem_of_nil in Ho|].
  cbn [length] in Hl. apply elem_of_app in Ho as [Ho|Ho].
  - destruct (IsUnspendable (scriptPubKey x)); [by apply elem_of_nil in Ho|]. apply list_elem_of_singleton in Ho as ->. cbn [op_hash op_n].
    unfold wrap. rewrite Z.mod_small by lia. done.
  - apply IH in Ho; [|lia|lia]. split; [tauto|lia].
Qed.

Lemma add_all_other m txid i outs h cb o : o ∉ created txid i outs -> add_all m txid i outs h cb o = m o.
Proof.
  revert m i. induction outs as [|x outs IH]; intros m i Ho; [done|]. cbn [add_all created] in *. rewrite not_elem_of_app in Ho. destruct Ho as [H1 H2].
  rewrite IH by done. destruct (IsUnspendable (scriptPubKey x)); [done|]. unfold upd. destruct (decide (o = _)) as [->|]; [|done].
  destruct H1. by apply list_elem_of_singleton.
Qed.

Lemma add_all_ext m m' txid i outs h cb : (forall o, m o = m' o) -> forall o, add_all m txid i outs h cb o = add_all m' txid i outs h cb o.
Proof.
  revert m m' i. induction outs as [|x outs IH]; intros m m' i H; [done|]. cbn [add_all]. apply IH. intros o.
  destruct (IsUnspendable (scriptPubKey x)); [done|]. unfold upd. by destruct (decide (o = _)).
Qed.

Lemma created_head txid i x outs : 0 <= i -> i + Z.of_nat (length (x :: outs)) <= 2 ^ 32 -> mk_outpoint txid (u32 i) ∉ created txid (i + 1) outs.
Proof.
  intros Hi Hl Hin. cbn [length] in Hl. apply created_range in Hin as [_ H]; [|lia|lia]. cbn [op_n] in H. unfold wrap in H. rewrite Z.mod_small in H; lia.
Qed.

(** A coin of the set after the outputs is an old one or one of them. *)
Lemma add_all_coin m txid i outs h cb o c : add_all m txid i outs h cb o = Some c ->
  m o = Some c \/ exists x, x ∈ outs /\ IsUnspendable (scriptPubKey x) = false /\ c = new_coin x h cb.
Proof.
  revert m i. induction outs as [|x outs IH]; intros m i H; [by left|]. cbn [add_all] in H. apply IH in H as [H|(y & Hy & H)].
  - destruct (IsUnspendable (scriptPubKey x)) eqn:E; [by left|]. unfold upd in H. destruct (decide (o = _)); [|by left].
    injection H as <-. right. exists x. split; [left|done].
  - right. exists y. split; [by right|done].
Qed.

Lemma connected_proper m txid tx h : 0 < h < 2 ^ 31 -> proper_coins m -> proper_coins (connected m txid tx h).
Proof.
  intros Hh Hp o c H. apply add_all_coin in H as [H|(x & _ & Hx & ->)].
  - apply (Hp o). destruct (no_inputs tx); [done|]. rewrite remove_all_spec in H. by destruct (decide (o ∈ _)).
  - split; [done|]. cbn. rewrite Z.mod_small; lia.
Qed.

(** ** Connecting *)

Lemma becomes_ext v m m' : becomes v m -> (forall o, m o = m' o) -> becomes v m'.
Proof. intros (H1 & H2 & H3) H. split; [done|]. split; [done|]. intros o. by rewrite H3. Qed.

Lemma remove_all_ext m m' ins : (forall o, m o = m' o) -> forall o, remove_all m ins o = remove_all m' ins o.
Proof. intros H o. rewrite !remove_all_spec. by destruct (decide _). Qed.

Lemma spend_inputs_spec ins v : is_cache v -> wf v -> NoDup (map prevout ins) ->
  Forall (fun i => exists c, utxo v (prevout i) = Some c) ins ->
  exists cs v', spend_inputs ins v = Some (cs, v') /\ becomes v' (remove_all (utxo v) ins) /\
    Forall2 (fun i c => utxo v (prevout i) = Some c) ins cs.
Proof.
  revert v. induction ins as [|i ins IH]; intros v Hc Hwf Hnd Hin; [by exists [], v|].
  cbn [map] in Hnd. apply NoDup_cons in Hnd as [Hi Hnd]. apply Forall_cons in Hin as [[c Ec] Hin]. cbn [spend_inputs].
  destruct (SpendCoin_spec v (prevout i) Hc Hwf) as (c' & v1 & -> & Ec' & H1c & H1 & H2). cbn [mbind option_bind].
  assert (c' = c) as ->. { rewrite Ec in Ec'. by destruct (unspent_spent _ _ Ec'). }
  assert (Hsame : forall j, j ∈ ins -> utxo v1 (prevout j) = utxo v (prevout j)).
  { intros j Hj. rewrite H2. unfold upd. destruct (decide (prevout j = prevout i)) as [E|]; [|done]. destruct Hi. rewrite <-E. by apply (list_elem_of_fmap_2 prevout ins j). }
  destruct (IH v1 H1c H1 Hnd) as (cs & v2 & -> & Hb & HF).
  { apply Forall_forall. intros j Hj. rewrite Hsame by done. rewrite Forall_forall in Hin. auto. }
  exists (c :: cs), v2. split; [done|]. split; [cbn [remove_all]; by apply (becomes_ext _ _ _ Hb), remove_all_ext|].
  constructor; [done|]. apply Forall2_same_length_lookup_2; [by apply Forall2_length in HF|].
  intros k j x Hj Hx. rewrite <-Hsame by (by apply (list_elem_of_lookup_2 _ k)). by apply (Forall2_lookup_lr _ _ _ k _ _ HF).
Qed.

Lemma add_outputs_spec outs v txid i h cb : is_cache v -> wf v -> 0 <= i -> i + Z.of_nat (length outs) <= 2 ^ 32 ->
  Forall (fun o => TxOut_IsNull o = false) outs -> Forall (fun o => utxo v o = None) (created txid i outs) ->
  exists v', add_outputs txid i outs h cb v = Some v' /\ becomes v' (add_all (utxo v) txid i outs h cb).
Proof.
  revert v i. induction outs as [|x outs IH]; intros v i Hc Hwf Hi Hl Ho Hn; [by exists v|]. cbn [add_outputs add_all].
  apply Forall_cons in Ho as [Hx Ho]. cbn [created] in Hn. apply Forall_app in Hn as [Hn1 Hn2].
  pose proof (created_head txid i x outs Hi Hl) as Hh. cbn [length] in Hl.
  destruct (IsUnspendable (scriptPubKey x)) eqn:Eu.
  - destruct v as [|m hb v]; [done|]. unfold AddCoin, IsSpent. cbn [new_coin out]. rewrite Hx, Eu. cbn [mbind option_bind].
    apply IH; done || lia.
  - rewrite Forall_singleton in Hn1.
    destruct (AddCoin_spec v (mk_outpoint txid (u32 i)) (new_coin x h cb) cb Hc Hwf Hx (fun _ => Hn1)) as (v1 & -> & Hb1). cbn [new_coin out] in Hb1.
    rewrite Eu in Hb1. destruct Hb1 as (H1 & H2 & H3). cbn [mbind option_bind].
    destruct (IH v1 (i + 1) H1 H2 ltac:(lia) ltac:(lia) Ho) as (v2 & E & Hb).
    + apply Forall_forall. intros o Hin. rewrite H3. unfold upd. destruct (decide (o = _)) as [->|]; [done|]. rewrite Forall_forall in Hn2. auto.
    + exists v2. split; [done|]. by apply (becomes_ext _ _ _ Hb), add_all_ext.
Qed.

Lemma UpdateCoins_spec v txid tx h : is_cache v -> wf v -> tx_fits (utxo v) txid tx ->
  exists undo v', UpdateCoins txid tx h v = Some (undo, v') /\ becomes v' (connected (utxo v) txid tx h) /\
    if no_inputs tx then undo = [] else Forall2 (fun i c => utxo v (prevout i) = Some c) (vin tx) undo.
Proof.
  intros Hc Hwf [Hnd Hin Ho Hcnt Hnew]. unfold UpdateCoins, connected, AddCoins. destruct (no_inputs tx).
  - cbn [mbind option_bind]. destruct (add_outputs_spec (vout tx) v txid 0 h (IsCoinBase tx) Hc Hwf ltac:(lia) ltac:(lia) Ho Hnew) as (v' & -> & Hb).
    by exists [], v'.
  - destruct (spend_inputs_spec (vin tx) v Hc Hwf (Hnd eq_refl) (Hin eq_refl)) as (cs & v1 & -> & (H1 & H2 & H3) & HF). cbn [mbind option_bind].
    destruct (add_outputs_spec (vout tx) v1 txid 0 h (IsCoinBase tx) H1 H2 ltac:(lia) ltac:(lia) Ho) as (v' & -> & Hb).
    + apply Forall_forall. intros o Hoin. rewrite H3, remove_all_spec. destruct (decide _); [done|]. rewrite Forall_forall in Hnew. auto.
    + exists cs, v'. split; [done|]. split; [by apply (becomes_ext _ _ _ Hb), add_all_ext|done].
Qed.

(** ** Disconnecting *)

(** The set [m] holds the outputs from index [i] on. *)
Fixpoint holds (m : coin_set) (txid : list Z) (i : Z) (outs : list CTxOut) (h : Z) (cb : bool) : Prop :=
  match outs with
  | [] => True
  | x :: outs => (IsUnspendable (scriptPubKey x) = false -> m (mk_outpoint txid (u32 i)) = Some (new_coin x h cb)) /\ holds m txid (i + 1) outs h cb
  end.

Lemma holds_ext m m' txid i outs h cb : (forall o, o ∈ created txid i outs -> m o = m' o) -> holds m txid i outs h cb -> holds m' txid i outs h cb.
Proof.
  revert i. induction outs as [|x outs IH]; intros i H HH; [done|]. destruct HH as [H1 H2]. cbn [created] in H. split.
  - intros Hu. rewrite <-H; [auto|]. rewrite Hu. left.
  - apply IH; [|done]. intros o Ho. apply H, elem_of_app. by right.
Qed.

Lemma add_all_holds m txid i outs h cb : 0 <= i -> i + Z.of_nat (length outs) <= 2 ^ 32 -> holds (add_all m txid i outs h cb) txid i outs h cb.
Proof.
  revert m i. induction outs as [|x outs IH]; intros m i Hi Hl; [done|]. pose proof (created_head txid i x outs Hi Hl) as Hh. cbn [length] in Hl. split.
  - intros Hu. cbn [add_all]. rewrite Hu, add_all_other by done. unfold upd. by destruct (decide _).
  - cbn [add_all]. apply IH; lia.
Qed.

Lemma remove_outputs_spec outs v txid i h cb fClean : is_cache v -> wf v -> 0 <= i -> i + Z.of_nat (length outs) <= 2 ^ 32 ->
  holds (utxo v) txid i outs h cb ->
  exists v', remove_outputs txid i outs fClean v = Some (fClean, v') /\
    becomes v' (fun o => if decide (o ∈ created txid i outs) then None else utxo v o).
Proof.
  revert v i. induction outs as [|x outs IH]; intros v i Hc Hwf Hi Hl Hh; cbn [remove_outputs created].
  - exists v. split; [done|]. split; [done|]. split; [done|]. intros o. destruct (decide (o ∈ [])) as [H|]; [by apply elem_of_nil in H|done].
  - destruct Hh as [Hx Hh]. pose proof (created_head txid i x outs Hi Hl) as Hhead. cbn [length] in Hl.
    destruct (IsUnspendable (scriptPubKey x)) eqn:Eu; cbn [negb app]; [apply IH; done || lia|].
    destruct (SpendCoin_spec v (mk_outpoint txid (u32 i)) Hc Hwf) as (c & v1 & -> & Ec & H1 & H2 & H3). cbn [mbind option_bind].
    rewrite (Hx eq_refl) in Ec. destruct (unspent_spent _ _ Ec) as [<- _].
    assert (Et : txout_eqb x (out (new_coin x h cb)) = true) by (unfold txout_eqb; cbn [new_coin out]; by rewrite Z.eqb_refl, bool_decide_true).
    rewrite Et, andb_true_r.
    destruct (IH v1 (i + 1) H1 H2 ltac:(lia) ltac:(lia)) as (v2 & -> & Hb).
    { apply (holds_ext (utxo v)); [|done]. intros o Ho. rewrite H3. unfold upd. destruct (decide (o = _)) as [->|]; done. }
    exists v2. split; [done|]. apply (becomes_ext _ _ _ Hb). intros o. rewrite H3. unfold upd.
    destruct (decide (o ∈ created txid (i + 1) outs)) as [Hin|Hout].
    + destruct (decide (o ∈ _ :: _)) as [|Hn]; [done|]. destruct Hn. by right.
    + destruct (decide (o = _)) as [->|Hne].
      * destruct (decide (_ ∈ _ :: _)) as [|Hn]; [done|]. destruct Hn. left.
      * destruct (decide (o ∈ _ :: _)) as [Hn|]; [|done]. apply elem_of_cons in Hn as [|]; done.
Qed.

(** A coin that can be restored. *)
Definition restorable (c : Coin) : Prop := IsSpent c = false /\ IsUnspendable (scriptPubKey (out c)) = false /\ nHeight c <> 0.

Lemma ApplyTxInUndo_spec v o c : is_cache v -> wf v -> utxo v o = None -> restorable c ->
  exists v', ApplyTxInUndo c o v = Some (DISCONNECT_OK, v') /\ becomes v' (upd (utxo v) o (Some c)).
Proof.
  intros Hc Hwf Ho (Hs & Hu & Hh). unfold ApplyTxInUndo. pose proof (HaveCoin_spec v o Hwf) as H.
  assert (Hcv : is_cache (snd (HaveCoin o v))) by (destruct v as [|m hb v]; [done|]; cbn; by destruct (FetchCoin _ _ _ _) as [[? ?] ?]).
  destruct (HaveCoin o v) as [have v1]. destruct H as (H1 & H2 & ->). cbn [snd] in Hcv.
  destruct (Z.eqb_spec (nHeight c) 0); [done|].
  destruct (AddCoin_spec v1 o c (fCoinBase c) Hcv H1 Hs) as (v2 & -> & Hb); [by rewrite H2|]. cbn [mbind option_bind].
  rewrite Ho, bool_decide_false by (by intros [? ?]). exists v2. split; [done|]. rewrite Hu in Hb. apply (becomes_ext _ _ _ Hb).
  intros o'. unfold upd. by rewrite H2.
Qed.

Lemma restore_inputs_spec rins v fClean : is_cache v -> wf v -> NoDup (map (fun p => prevout (fst p)) rins) ->
  Forall (fun p => utxo v (prevout (fst p)) = None /\ restorable (snd p)) rins ->
  exists v', restore_inputs rins fClean v = Some (Some fClean, v') /\ is_cache v' /\ wf v' /\
    (forall p, p ∈ rins -> utxo v' (prevout (fst p)) = Some (snd p)) /\
    (forall o, o ∉ map (fun p => prevout (fst p)) rins -> utxo v' o = utxo v o).
Proof.
  revert v. induction rins as [|[i c] rins IH]; intros v Hc Hwf Hnd Hr; cbn [restore_inputs map fst snd] in *.
  { exists v. split; [done|]. split; [done|]. split; [done|]. split; [|done]. intros p H. by apply elem_of_nil in H. }
  apply NoDup_cons in Hnd as [Hi Hnd]. apply Forall_cons in Hr as [[Ho Hrc] Hr]. cbn [fst snd] in Ho, Hrc.
  destruct (ApplyTxInUndo_spec v (prevout i) c Hc Hwf Ho Hrc) as (v1 & -> & H1 & H2 & H3). cbn [mbind option_bind].
  assert (Hne : forall p, p ∈ rins -> prevout (fst p) <> prevout i).
  { intros p Hp E. destruct Hi. rewrite <-E. by apply (list_elem_of_fmap_2 (fun p => prevout (fst p)) rins p). }
  destruct (IH v1 H1 H2 Hnd) as (v2 & -> & H4 & H5 & H6 & H7).
  { apply Forall_forall. intros p Hp. rewrite Forall_forall in Hr. rewrite H3. unfold upd. destruct (decide _) as [E|]; [by destruct (Hne p Hp)|auto]. }
  exists v2. split; [done|]. split; [done|]. split; [done|]. split.
  - intros p [->|Hp]%elem_of_cons; [|auto]. cbn [fst snd]. rewrite H7, H3 by done. unfold upd. by destruct (decide _).
  - intros o Hn. rewrite not_elem_of_cons in Hn. destruct Hn as [Hn1 Hn2]. rewrite H7, H3 by done. unfold upd. by destruct (decide _).
Qed.

(** The set after the outputs of a transaction are removed again. *)
Lemma connected_minus m txid tx h o : tx_fits m txid tx ->
  (if decide (o ∈ created txid 0 (vout tx)) then None else connected m txid tx h o) = if no_inputs tx then m o else remove_all m (vin tx) o.
Proof.
  intros [_ _ _ _ Hnew]. unfold connected. destruct (decide (o ∈ created txid 0 (vout tx))) as [Hin|Hout].
  - rewrite Forall_forall in Hnew. specialize (Hnew o Hin). destruct (no_inputs tx); [done|]. rewrite remove_all_spec, Hnew. by destruct (decide _).
  - rewrite add_all_other by done. by destruct (no_inputs tx).
Qed.

Lemma reverse_rev {A} (l : list A) : reverse l = rev l.
Proof. unfold reverse. by rewrite rev_alt. Qed.

Lemma zip_prevouts (ins : list CTxIn) (cs : list Coin) : length ins = length cs ->
  map (fun p => prevout (fst p)) (rev (zip ins cs)) = rev (map prevout ins).
Proof.
  intros Hl. rewrite map_rev. f_equal. revert cs Hl. induction ins as [|i ins IH]; intros [|c cs] Hl; try done. cbn in *. f_equal. apply IH. lia.
Qed.

Lemma disconnect_tx_spec v v1 txid tx h undo fClean :
  wf v -> proper_coins (utxo v) -> tx_fits (utxo v) txid tx ->
  (if no_inputs tx then undo = [] else Forall2 (fun i c => utxo v (prevout i) = Some c) (vin tx) undo) ->
  becomes v1 (connected (utxo v) txid tx h) ->
  exists v2, disconnect_tx txid tx undo fClean v1 = Some (Some fClean, v2) /\ becomes v2 (utxo v).
Proof.
  intros Hwf Hp Hfit Hundo (Hc1 & Hwf1 & Hu1). pose proof (tf_count _ _ _ Hfit) as Hcnt. unfold disconnect_tx.
  destruct (remove_outputs_spec (vout tx) v1 txid 0 h (IsCoinBase tx) fClean Hc1 Hwf1 ltac:(lia) ltac:(lia)) as (v2 & -> & Hc2 & Hwf2 & Hu2).
  { apply (holds_ext (connected (utxo v) txid tx h)); [by intros o _; rewrite Hu1|]. apply add_all_holds; lia. }
  cbn [mbind option_bind].
  assert (Hr : forall o, utxo v2 o = if no_inputs tx then utxo v o else remove_all (utxo v) (vin tx) o).
  { intros o. rewrite Hu2, Hu1. by apply connected_minus. }
  pose proof (tf_nodup _ _ _ Hfit) as Hnd. destruct (no_inputs tx); [by exists v2|].
  pose proof (Forall2_length _ _ _ Hundo) as Hlen. rewrite <-Hlen, Nat.eqb_refl. cbn [negb].
  assert (Hzip : forall p, p ∈ rev (zip (vin tx) undo) -> fst p ∈ vin tx /\ utxo v (prevout (fst p)) = Some (snd p)).
  { intros [i c] Hin. rewrite <-reverse_rev, elem_of_reverse in Hin. cbn [fst snd]. apply list_elem_of_lookup_1 in Hin as [k Hk].
    rewrite lookup_zip_with_Some in Hk. destruct Hk as (i' & c' & [= -> ->] & Hi & Hc). split; [by apply (list_elem_of_lookup_2 _ k)|].
    by apply (Forall2_lookup_lr _ _ _ k _ _ Hundo). }
  destruct (restore_inputs_spec (rev (zip (vin tx) undo)) v2 fClean Hc2 Hwf2) as (v3 & -> & Hc3 & Hwf3 & Hu3 & Hu3').
  - rewrite zip_prevouts, <-reverse_rev, reverse_Permutation by done. by apply Hnd.
  - apply Forall_forall. intros p Hin. destruct (Hzip p Hin) as [Hi Hm]. split.
    + rewrite Hr, remove_all_spec. destruct (decide _) as [|Hn]; [done|]. destruct Hn. by apply (list_elem_of_fmap_2 prevout (vin tx)).
    + destruct (Hp _ _ Hm). split; [by apply (utxo_unspent v (prevout (fst p)))|done].
  - exists v3. split; [done|]. split; [done|]. split; [done|]. intros o. rewrite zip_prevouts in Hu3' by done.
    destruct (decide (o ∈ rev (map prevout (vin tx)))) as [Hin|Hout].
    + rewrite <-(zip_prevouts _ undo) in Hin by done. apply list_elem_of_fmap_1 in Hin as (p & -> & Hin).
      rewrite Hu3 by done. symmetry. by apply Hzip.
    + rewrite Hu3', Hr, remove_all_spec by done. destruct (decide _) as [Hn|]; [|done]. destruct Hout. by rewrite <-reverse_rev, elem_of_reverse.
Qed.

(** ** Blocks *)

Fixpoint block_fits (h : Z) (m : coin_set) (txs : list (list Z * CMutableTransaction)) : Prop :=
  match txs with [] => True | (txid, tx) :: txs => tx_fits m txid tx /\ block_fits h (connected m txid tx h) txs end.

Fixpoint block_connected (h : Z) (m : coin_set) (txs : list (list Z * CMutableTransaction)) : coin_set :=
  match txs with [] => m | (txid, tx) :: txs => block_connected h (connected m txid tx h) txs end.

Lemma tx_fits_ext m m' txid tx : (forall o, m o = m' o) -> tx_fits m txid tx -> tx_fits m' txid tx.
Proof.
  intros H [H1 H2 H3 H4 H5]. split; [done| |done|done|].
  - intros Hn. apply (Forall_impl _ _ _ (H2 Hn)). intros i [c Hi]. exists c. by rewrite <-H.
  - apply (Forall_impl _ _ _ H5). intros o Ho. by rewrite <-H.
Qed.

Lemma connected_ext m m' txid tx h : (forall o, m o = m' o) -> forall o, connected m txid tx h o = connected m' txid tx h o.
Proof. intros H. apply add_all_ext. intros o. destruct (no_inputs tx); [done|]. by apply remove_all_ext. Qed.

Lemma block_fits_ext h txs m m' : (forall o, m o = m' o) -> block_fits h m txs -> block_fits h m' txs.
Proof.
  revert m m'. induction txs as [|[txid tx] txs IH]; intros m m' H Hf; [done|]. destruct Hf as [H1 H2].
  split; [by apply (tx_fits_ext m)|]. by apply (IH (connected m txid tx h)); [apply connected_ext|].
Qed.

Lemma block_connected_ext h txs m m' : (forall o, m o = m' o) -> forall o, block_connected h m txs o = block_connected h m' txs o.
Proof. revert m m'. induction txs as [|[txid tx] txs IH]; intros m m' H; [done|]. apply IH. by apply connected_ext. Qed.

Lemma disconnect_app l l' fClean v r :
  disconnect_txs l fClean v = Some (Some fClean, r) -> disconnect_txs (l ++ l') fClean v = disconnect_txs l' fClean r.
Proof.
  revert fClean v. assert (H : forall fc v fc', disconnect_txs l fc v = Some (Some fc', r) -> disconnect_txs (l ++ l') fc v = disconnect_txs l' fc' r).
  { induction l as [|[[txid tx] undo] l IH]; intros fc v fc'; cbn [disconnect_txs app]; [by intros [= -> ->]|].
    destruct (disconnect_tx txid tx undo fc v) as [[[b|] v']|]; cbn [mbind option_bind]; [apply IH|done|done]. }
  intros fc v. apply H.
Qed.

Lemma connect_disconnect h txs v fClean : 0 < h < 2 ^ 31 -> is_cache v -> wf v -> proper_coins (utxo v) -> block_fits h (utxo v) txs ->
  exists undos v1, connect_txs h txs v = Some (undos, v1) /\ becomes v1 (block_connected h (utxo v) txs) /\
    forall v2, is_cache v2 -> wf v2 -> same v2 v1 ->
      exists v3, disconnect_txs (rev (zip txs undos)) fClean v2 = Some (Some fClean, v3) /\ becomes v3 (utxo v).
Proof.
  intros Hh. revert v. induction txs as [|[txid tx] txs IH]; intros v Hc Hwf Hp Hf.
  { exists [], v. split; [done|]. split; [done|]. intros v2 Hc2 Hwf2 Hs. by exists v2. }
  destruct Hf as [Hf Hrest]. cbn [connect_txs block_connected].
  destruct (UpdateCoins_spec v txid tx h Hc Hwf Hf) as (undo & v1 & -> & Hb1 & Hundo). pose proof Hb1 as (Hc1 & Hwf1 & Hu1). cbn [mbind option_bind].
  destruct (IH v1 Hc1 Hwf1) as (undos & v2 & -> & Hb2 & Hdis).
  { intros o c. rewrite Hu1. by apply connected_proper. }
  { apply (block_fits_ext h txs (connected (utxo v) txid tx h)); [by intros o; rewrite Hu1|done]. }
  cbn [mbind option_bind]. exists (undo :: undos), v2. split; [done|]. split; [by apply (becomes_ext _ _ _ Hb2), block_connected_ext|].
  intros v3 Hc3 Hwf3 Hs. destruct (Hdis v3 Hc3 Hwf3 Hs) as (v4 & E4 & Hb4). cbn [zip zip_with rev].
  rewrite (disconnect_app _ _ _ _ _ E4). cbn [disconnect_txs].
  destruct (disconnect_tx_spec v v4 txid tx h undo fClean Hwf Hp Hf Hundo) as (v5 & -> & Hb5).
  { apply (becomes_ext _ _ _ Hb4). intros o. by rewrite Hu1. }
  cbn [mbind option_bind]. by exists v5.
Qed.

(** ** The contract of a view *)

(** [op_push] puts a new cache on top of the view. *)
Inductive op :=
  | op_access (o : COutPoint) | op_have (o : COutPoint) | op_add (o : COutPoint) (c : Coin) (possible_overwrite : bool)
  | op_spend (o : COutPoint) | op_uncache (o : COutPoint) | op_flush | op_push.

Inductive answer := A_none | A_bool (b : bool) | A_coin (c : option Coin).

(** What the operations mean for the set. *)
Definition spec (x : op) (m : coin_set) : answer * coin_set :=
  match x with
  | op_access o => (A_coin (m o), m)
  | op_have o => (A_bool (bool_decide (is_Some (m o))), m)
  | op_add o c _ => (A_none, if IsUnspendable (scriptPubKey (out c)) then m else upd m o (Some c))
  | op_spend o => (A_coin (m o), upd m o None)
  | op_uncache _ | op_flush | op_push => (A_none, m)
  end.

(** What the callers owe: added coins are not null, and new unless said otherwise. *)
Definition allowed (x : op) (m : coin_set) : Prop :=
  match x with op_add o c overwrite => IsSpent c = false /\ (overwrite = false -> m o = None) | _ => True end.

Section machine.
(** The order in which a map is iterated. *)
Context (order : CCoinsMap -> list (COutPoint * CCoinsCacheEntry)).
Context (Horder : forall m, order m ≡ₚ map_to_list m).

Definition entries (v : view) : CCoinsMap := match v with Cache m _ _ => m | DB _ _ => ∅ end.

(** The code; a coin that is spent counts as no coin. *)
Definition exec (x : op) (v : view) : option (answer * view) :=
  match x with
  | op_access o => let '(c, v) := AccessCoin o v in Some (A_coin (unspent c), v)
  | op_have o => let '(b, v) := HaveCoin o v in Some (A_bool b, v)
  | op_add o c overwrite => v ← AddCoin o c overwrite v; Some (A_none, v)
  | op_spend o => '(c, v) ← SpendCoin o v; Some (A_coin (unspent c), v)
  | op_uncache o => Some (A_none, Uncache o v)
  | op_flush => v ← Flush (order (entries v)) v; Some (A_none, v)
  | op_push => Some (A_none, Cache ∅ null256 v)
  end.

Fixpoint run (xs : list op) (v : view) : option (list answer * view) :=
  match xs with [] => Some ([], v) | x :: xs => '(a, v) ← exec x v; '(l, v) ← run xs v; Some (a :: l, v) end.

Fixpoint spec_run (xs : list op) (m : coin_set) : list answer * coin_set :=
  match xs with [] => ([], m) | x :: xs => let '(a, m) := spec x m in let '(l, m) := spec_run xs m in (a :: l, m) end.

Fixpoint allowed_run (xs : list op) (m : coin_set) : Prop :=
  match xs with [] => True | x :: xs => allowed x m /\ allowed_run xs (snd (spec x m)) end.

Lemma GetCoin_cache o v : is_cache v -> is_cache (snd (GetCoin o v)).
Proof. destruct v as [|m h v]; [done|]. cbn. by destruct (FetchCoin _ _ _ _) as [[? ?] ?]. Qed.

Lemma exec_spec x v : is_cache v -> wf v -> allowed x (utxo v) ->
  exists v', exec x v = Some (fst (spec x (utxo v)), v') /\ becomes v' (snd (spec x (utxo v))).
Proof.
  intros Hc Hwf Ha. pose proof (fun o => GetCoin_cache o v Hc) as Hgc. destruct x as [o|o|o c ow|o|o| |]; cbn [exec spec fst snd].
  - pose proof (AccessCoin_spec v o Hwf) as H. specialize (Hgc o). unfold AccessCoin in *. destruct (GetCoin o v) as [r v'].
    destruct H as (H1 & H2 & ->). by exists v'.
  - pose proof (HaveCoin_spec v o Hwf) as H. specialize (Hgc o). destruct v as [|m h v]; [done|]. unfold HaveCoin in *.
    destruct (GetCoin o (Cache m h v)) as [r v']. destruct H as (H1 & H2 & ->). by exists v'.
  - destruct Ha as [Hs Ho]. destruct (AddCoin_spec v o c ow Hc Hwf Hs Ho) as (v' & -> & Hb). by exists v'.
  - destruct (SpendCoin_spec v o Hc Hwf) as (c & v' & -> & Hcoin & Hb). cbn [mbind option_bind]. rewrite Hcoin. by exists v'.
  - eexists. split; [reflexivity|]. by apply Uncache_spec.
  - destruct v as [|m h v]; [done|]. destruct (Flush_spec m h v (order m) Hwf (Horder m)) as (v' & E & _ & _ & Hb). cbn [entries]. rewrite E. by exists (Cache ∅ h v').
  - eexists. split; [reflexivity|]. split; [done|]. split; [split; [done|]; intros o e H; by rewrite lookup_empty in H|].
    intros o. cbn [utxo]. by rewrite lookup_empty.
Qed.

Lemma spec_ext x m m' : (forall o, m o = m' o) -> fst (spec x m) = fst (spec x m') /\ forall o, snd (spec x m) o = snd (spec x m') o.
Proof.
  intros H. destruct x as [o|o|o c ow|o|o| |]; cbn [spec fst snd]; rewrite ?H; (split; [done|]); intros o'; unfold upd; try apply H.
  - destruct (IsUnspendable _); [done|]. by destruct (decide _).
  - by destruct (decide _).
Qed.

Lemma spec_run_ext xs m m' : (forall o, m o = m' o) -> fst (spec_run xs m) = fst (spec_run xs m') /\ forall o, snd (spec_run xs m) o = snd (spec_run xs m') o.
Proof.
  revert m m'. induction xs as [|x xs IH]; intros m m' H; [done|]. cbn [spec_run]. pose proof (spec_ext x m m' H) as [Ha Hm].
  destruct (spec x m) as [a n], (spec x m') as [a' n']. cbn [fst snd] in *. subst a'. pose proof (IH n n' Hm) as [Hl Hn].
  destruct (spec_run xs n) as [l k], (spec_run xs n') as [l' k']. cbn [fst snd] in *. by subst l'.
Qed.

Lemma allowed_run_ext xs m m' : (forall o, m o = m' o) -> allowed_run xs m -> allowed_run xs m'.
Proof.
  revert m m'. induction xs as [|x xs IH]; intros m m' H Hr; [done|]. destruct Hr as [H1 H2]. split.
  - destruct x; try done. cbn in *. by rewrite <-H.
  - apply (IH (snd (spec x m))); [|done]. by apply spec_ext.
Qed.

(** C4: The views of the coins refine a set: for any sequence of lookups, additions, spends, flushes (in any order of the entries), evictions and new caches whose additions keep their promise of being new, the stack of caches never throws or fails an assertion, gives the answers of a plain set of coins, and stands for the set that results; the FRESH and DIRTY flags keep their meaning throughout. *)
Theorem caches_refine_set (v : view) (xs : list op) :
  is_cache v -> wf v -> allowed_run xs (utxo v) ->
  exists v', run xs v = Some (fst (spec_run xs (utxo v)), v') /\ becomes v' (snd (spec_run xs (utxo v))).
Proof.
  revert v. induction xs as [|x xs IH]; intros v Hc Hwf Hr; [by exists v|]. destruct Hr as [Ha Hr]. cbn [run spec_run].
  destruct (exec_spec x v Hc Hwf Ha) as (v1 & -> & Hc1 & Hwf1 & Hu1). cbn [mbind option_bind].
  destruct (spec x (utxo v)) as [a m]. cbn [fst snd] in *.
  destruct (IH v1 Hc1 Hwf1) as (v2 & -> & Hb); [by apply (allowed_run_ext xs m)|]. cbn [mbind option_bind].
  destruct (spec_run_ext xs (utxo v1) m Hu1) as [E1 E2]. exists v2. destruct (spec_run xs m) as [l m2]. cbn [fst snd] in *.
  split; [by rewrite E1|]. by apply (becomes_ext _ _ _ Hb).
Qed.
End machine.

(** C5: Disconnecting a block undoes connecting it: when every transaction spends distinct coins of the set before it and creates new ones, the transactions are applied without an exception and leave the expected set; and from any view of that set, such as one whose caches were flushed or that was loaded again, the loop of DisconnectBlock with the undo data returns clean and restores the set as it was, the heights and coinbase flags of the spent coins included. *)
Theorem disconnect_undoes_connect (height : Z) (txs : list (list Z * CMutableTransaction)) (v : view) :
  0 < height < 2 ^ 31 -> is_cache v -> wf v -> proper_coins (utxo v) -> block_fits height (utxo v) txs ->
  exists undos v1, connect_txs height txs v = Some (undos, v1) /\ becomes v1 (block_connected height (utxo v) txs) /\
    forall v2, is_cache v2 -> wf v2 -> same v2 v1 ->
      exists v3, disconnect_txs (rev (zip txs undos)) true v2 = Some (Some true, v3) /\ wf v3 /\ same v3 v.
Proof.
  intros Hh Hc Hwf Hp Hf. destruct (connect_disconnect height txs v true Hh Hc Hwf Hp Hf) as (undos & v1 & E & Hb & Hd).
  exists undos, v1. split; [done|]. split; [done|]. intros v2 Hc2 Hwf2 Hs. destruct (Hd v2 Hc2 Hwf2 Hs) as (v3 & E3 & _ & Hwf3 & Hu3). by exists v3.
Qed.

(** ** Witnesses *)

Definition demo_coin (value : Z) : Coin := mk_coin (mk_txout value [0x51] (-10)) false 7.
Definition demo_out (n : Z) : COutPoint := mk_outpoint (replicate 32 1) n.
Definition demo_view : view := Cache ∅ null256 (DB {[ demo_out 0 := demo_coin 50; demo_out 1 := demo_coin 60 ]} null256).

Lemma demo_view_wf : wf demo_view.
Proof.
  split; [|intros o e H; by rewrite lookup_empty in H]. intros o c [[_ <-]|[_ [_ <-]%lookup_singleton_Some]]%lookup_insert_Some; done.
Qed.

(** Spend a coin in a new cache, add one, flush, and look. *)
Definition demo_ops : list op :=
  [op_push; op_spend (demo_out 0); op_add (demo_out 5) (demo_coin 9) false; op_flush; op_have (demo_out 0); op_access (demo_out 5); op_uncache (demo_out 5); op_have (demo_out 1)].

Lemma caches_refine_set_witness :
  exists v', run (fun m => map_to_list m) demo_ops demo_view
  = Some ([A_none; A_coin (Some (demo_coin 50)); A_none; A_none; A_bool false; A_coin (Some (demo_coin 9)); A_none; A_bool true], v').
Proof.
  destruct (caches_refine_set (fun m => map_to_list m) (fun m => reflexivity _) demo_view demo_ops I demo_view_wf) as (v' & E & _).
  - repeat split.
  - exists v'. rewrite E. reflexivity.
Defined.

(** A block that spends a coin and then the output that this created. *)
Definition demo_block : list (list Z * CMutableTransaction) :=
  [(replicate 32 2, mk_tx 1 0 [mk_txin (demo_out 0) [] 0 []] [mk_txout 40 [0x51] (-10); mk_txout 0 [0x6a] (-10)] 0 []);
   (replicate 32 3, mk_tx 1 0 [mk_txin (mk_outpoint (replicate 32 2) 0) [] 0 []; mk_txin (demo_out 1) [] 0 []] [mk_txout 90 [0x51] (-10)] 0 [])].

Lemma demo_fits : block_fits 9 (utxo demo_view) demo_block.
Proof.
  assert (Hin : forall m txid tx, bool_decide (NoDup (map prevout (vin tx))) = true ->
    forallb (fun i => match m (prevout i) with Some _ => true | None => false end) (vin tx) = true ->
    forallb (fun o => negb (TxOut_IsNull o)) (vout tx) = true -> Z.of_nat (length (vout tx)) < 2 ^ 32 ->
    forallb (fun o => match m o with Some _ => false | None => true end) (created txid 0 (vout tx)) = true -> tx_fits m txid tx).
  { intros m txid tx H1 H2 H3 H4 H5. rewrite forallb_forall in H2, H3, H5. split; [intros _; by apply (bool_decide_eq_true_1 _)|intros _| |done|].
    - apply Forall_forall. intros i Hi%list_elem_of_In. specialize (H2 i Hi). destruct (m (prevout i)) as [c|]; [by exists c|done].
    - apply Forall_forall. intros o Ho%list_elem_of_In. by apply negb_true_iff, H3.
    - apply Forall_forall. intros o Ho%list_elem_of_In. specialize (H5 o Ho). by destruct (m o). }
  cbn [demo_block block_fits]. split; [|split; [|done]]; apply Hin; vm_compute; reflexivity.
Qed.

Lemma demo_proper : proper_coins (utxo demo_view).
Proof.
  intros o c. unfold demo_view. cbn [utxo]. rewrite lookup_empty.
  destruct ({[ demo_out 0 := demo_coin 50; demo_out 1 := demo_coin 60 ]} !! o) as [c'|] eqn:E; [|done]. cbn [mbind option_bind].
  intros [-> _]%unspent_spent. apply lookup_insert_Some in E as [[_ <-]|[_ [_ <-]%lookup_singleton_Some]]; done.
Qed.

Lemma disconnect_undoes_connect_witness :
  exists undos v1 v3, connect_txs 9 demo_block demo_view = Some (undos, v1) /\ utxo v1 (demo_out 0) = None /\
    disconnect_txs (rev (zip demo_block undos)) true v1 = Some (Some true, v3) /\ utxo v3 (demo_out 0) = Some (demo_coin 50).
Proof.
  destruct (disconnect_undoes_connect 9 demo_block demo_view ltac:(lia) I demo_view_wf demo_proper demo_fits) as (undos & v1 & E & (H1 & H2 & H3) & Hd).
  destruct (Hd v1 H1 H2 (fun o => eq_refl)) as (v3 & E3 & _ & Hs). exists undos, v1, v3. split; [exact E|].
  split; [rewrite H3; vm_compute; reflexivity|]. split; [exact E3|]. rewrite Hs. vm_compute. reflexivity.
Defined.
