(* ===== verification/TxVerify.v ===== *)
(** * TxVerify: the checks of a transaction

    Models the checks of validation.cpp that decide whether a transaction is
    valid: [CheckTransaction], [ContextualCheckTransaction] and
    [Consensus::CheckTxInputs], the lock times of BIP 68, the counting of
    signature operations, the block subsidy, and CValidationState of
    consensus/validation.h.

    Debug messages and log output are left out.  The checks of Zerocoin and Sigma
    transactions are parameters.  [None] is an exception or a failed
    assertion. *)

From stdpp Require Import gmap strings.
From S2P Require Import Prelude Words Arith256 Chain Script Interpreter Transaction Coins.

(** ** CValidationState *)

Inductive mode_state := MODE_VALID | MODE_INVALID | MODE_ERROR.

Record CValidationState := mk_state {
  mode : mode_state; nDoS : Z; strRejectReason : string; chRejectCode : Z; corruptionPossible : bool }.

Definition new_state : CValidationState := mk_state MODE_VALID 0 "" 0 false.

(** The state after the call; the value returned is [ret]. *)
Definition DoS (st : CValidationState) (level : Z) (code : Z) (reason : string) (corruption : bool) : CValidationState :=
  match mode st with
  | MODE_ERROR => mk_state MODE_ERROR (nDoS st) reason code corruption
  | _ => mk_state MODE_INVALID (nDoS st + level) reason code corruption
  end.
Definition Invalid (st : CValidationState) (code : Z) (reason : string) : CValidationState := DoS st 0 code reason false.
Definition Error (st : CValidationState) (reason : string) : CValidationState :=
  mk_state MODE_ERROR (nDoS st) (match mode st with MODE_VALID => reason | _ => strRejectReason st end) (chRejectCode st) (corruptionPossible st).
Definition State_IsValid (st : CValidationState) : bool := match mode st with MODE_VALID => true | _ => false end.
Definition State_IsInvalid (st : CValidationState) : bool := match mode st with MODE_INVALID => true | _ => false end.

Definition REJECT_INVALID : Z := 0x10.

(** [return state.DoS(level, false, REJECT_INVALID, reason)] *)
Definition reject (st : CValidationState) (level : Z) (reason : string) : bool * CValidationState :=
  (false, DoS st level REJECT_INVALID reason false).

(** ** CheckTransaction *)

Definition TRANSACTION_COINBASE : Z := 5.
Definition TRANSACTION_QUORUM_COMMITMENT : Z := 6.
Definition MAX_BLOCK_BASE_SIZE : Z := 2000000.
Definition MAX_TX_EXTRA_PAYLOAD : Z := 10000.

(** The loop over the outputs: a reason to reject them. *)
Fixpoint check_outputs (nValueOut : Z) (outs : list CTxOut) : option string :=
  match outs with
  | [] => None
  | o :: outs =>
      if nValue o <? 0 then Some "bad-txns-vout-negative"%string else
      if MAX_MONEY <? nValue o then Some "bad-txns-vout-toolarge"%string else
      let nValueOut := i64 (nValueOut + nValue o) in
      if negb (MoneyRange nValueOut) then Some "bad-txns-txouttotal-toolarge"%string else check_outputs nValueOut outs
  end.

(** [std::set::insert] of each item fails for one: there is a duplicate. *)
Fixpoint has_duplicate {A} `{!EqDecision A} (seen l : list A) : bool :=
  match l with [] => false | x :: l => bool_decide (x ∈ seen) || has_duplicate (x :: seen) l end.

Section checks.
(** [CheckSigmaTransaction] and [CheckZerocoinTransaction], and the consensus
    parameter DIP0003Height. *)
Context (CheckSigmaTransaction CheckZerocoinTransaction : CMutableTransaction -> CValidationState -> bool * CValidationState).
Context (DIP0003Height : Z).

(** The inputs of a transaction that is not a coinbase, and the Sigma and
    Zerocoin checks. *)
Definition check_ordinary (tx : CMutableTransaction) (st : CValidationState) (fRejectSigma : bool) : bool * CValidationState :=
  if existsb (fun i => OutPoint_IsNull (prevout i) && negb (Script.IsZerocoinSpend (scriptSig i) || TxIn_IsZerocoinRemint i)) (vin tx)
  then reject st 10 "bad-txns-prevout-null" else
  let '(ok, st) :=
    if IsZerocoinV3SigmaTransaction tx then if fRejectSigma then (false, st) else CheckSigmaTransaction tx st else (true, st) in
  if negb ok then (false, st) else CheckZerocoinTransaction tx st.

Definition check_coinbase (tx : CMutableTransaction) (st : CValidationState) : bool * CValidationState :=
  let minCbSize := if nType tx =? TRANSACTION_COINBASE then 1 else 2 in
  let size := match vin tx with i :: _ => Z.of_nat (length (scriptSig i)) | [] => 0 end in
  if (size <? minCbSize) || (100 <? size) then reject st 100 "bad-cb-length" else (true, st).

(** A reason to reject the inputs as duplicates. *)
Definition check_duplicates (tx : CMutableTransaction) (fRejectSigma : bool) : option string :=
  if Tx_IsZerocoinSpend tx || Tx_IsSigmaSpend tx || Tx_IsZerocoinRemint tx then
    if fRejectSigma then Some "bad-sigma"%string else
    if has_duplicate [] (map scriptSig (vin tx)) then Some "bad-txns-spend-inputs-duplicate"%string else None
  else if has_duplicate [] (map prevout (vin tx)) then Some "bad-txns-inputs-duplicate"%string else None.

Definition CheckTransaction (tx : CMutableTransaction) (st : CValidationState) (fCheckDuplicateInputs : bool) (nHeight : Z) :
    bool * CValidationState :=
  let allowEmptyTxInOut := nType tx =? TRANSACTION_QUORUM_COMMITMENT in
  if negb allowEmptyTxInOut && (length (vin tx) =? 0)%nat then reject st 10 "bad-txns-vin-empty" else
  if negb allowEmptyTxInOut && (length (vout tx) =? 0)%nat then reject st 10 "bad-txns-vout-empty" else
  if MAX_BLOCK_BASE_SIZE <? GetSerializeSize (SerializeTransaction false tx) then reject st 100 "bad-txns-oversize" else
  if MAX_TX_EXTRA_PAYLOAD <? Z.of_nat (length (vExtraPayload tx)) then reject st 100 "bad-txns-payload-oversize" else
  match check_outputs 0 (vout tx) with
  | Some reason => reject st 100 reason
  | None =>
      let fRejectSigma := DIP0003Height <? nHeight in
      match (if fCheckDuplicateInputs then check_duplicates tx fRejectSigma else None) with
      | Some reason => reject st 100 reason
      | None => if IsCoinBase tx then check_coinbase tx st else check_ordinary tx st fRejectSigma
      end
  end.

(** [nHeight] is the height of the block that would hold the transaction. *)
Definition ContextualCheckTransaction (tx : CMutableTransaction) (st : CValidationState) (nHeight : Z) : bool * CValidationState :=
  if DIP0003Height <=? nHeight then
    if 3 <=? nVersion tx then
      if negb ((0 <=? nType tx) && (nType tx <=? 6)) then reject st 100 "bad-txns-type" else
      if IsCoinBase tx && negb (nType tx =? TRANSACTION_COINBASE) then reject st 100 "bad-txns-cb-type" else (true, st)
    else if negb (nType tx =? TRANSACTION_NORMAL) then reject st 100 "bad-txns-type" else (true, st)
  else if 3 <=? nVersion tx then reject st 100 "bad-txns-type" else (true, st).
End checks.

(** ** Consensus::CheckTxInputs *)

Definition COINBASE_MATURITY : Z := 400.

(** The loop: the sum of the inputs, or the state of a rejection. *)
Fixpoint sum_inputs (ins : list CTxIn) (nSpendHeight nValueIn : Z) (st : CValidationState) (v : view) : option ((Z + CValidationState) * view) :=
  match ins with
  | [] => Some (inl nValueIn, v)
  | i :: ins =>
      let '(c, v) := AccessCoin (prevout i) v in
      if IsSpent c then None else
      if fCoinBase c && (nSpendHeight - Coins.nHeight c <? COINBASE_MATURITY)
      then Some (inr (Invalid st REJECT_INVALID "bad-txns-premature-spend-of-coinbase"), v) else
      let nValueIn := i64 (nValueIn + nValue (out c)) in
      if negb (MoneyRange (nValue (out c))) || negb (MoneyRange nValueIn)
      then Some (inr (DoS st 100 REJECT_INVALID "bad-txns-inputvalues-outofrange" false), v)
      else sum_inputs ins nSpendHeight nValueIn st v
  end.

Definition CheckTxInputs (tx : CMutableTransaction) (st : CValidationState) (nSpendHeight : Z) (v : view) : option (bool * CValidationState * view) :=
  let '(have, v) := HaveInputs tx v in
  if negb have then Some (false, Invalid st 0 "", v) else
  '(r, v) ← sum_inputs (vin tx) nSpendHeight 0 st v;
  match r with
  | inr st => Some (false, st, v)
  | inl nValueIn =>
      valueOut ← GetValueOut tx;
      if nValueIn <? valueOut then Some (false, DoS st 100 REJECT_INVALID "bad-txns-in-belowout" false, v) else
      let nTxFee := i64 (nValueIn - valueOut) in
      if nTxFee <? 0 then Some (false, DoS st 100 REJECT_INVALID "bad-txns-fee-negative" false, v) else
      if negb (MoneyRange nTxFee) then Some (false, DoS st 100 REJECT_INVALID "bad-txns-fee-outofrange" false, v) else
      Some (true, st, v)
  end.

(** ** Lock times *)

Definition IsFinalTx (tx : CMutableTransaction) (nBlockHeight nBlockTime : Z) : bool :=
  if nLockTime tx =? 0 then true else
  if nLockTime tx <? (if nLockTime tx <? LOCKTIME_THRESHOLD then nBlockHeight else nBlockTime) then true else
  forallb (fun i => nSequence i =? SEQUENCE_FINAL) (vin tx).

Definition LOCKTIME_VERIFY_SEQUENCE : Z := 1 ≪ 0.
Definition SEQUENCE_LOCKTIME_GRANULARITY : Z := 9.

(** The loop over the inputs and [prevHeights], whose entries of inputs with the
    disable flag become 0; [block] is in the heap. *)
Fixpoint locks_loop (h : heap) (block : ptr) (ins : list (CTxIn * Z)) (nMinHeight nMinTime : Z) : option (Z * Z * list Z) :=
  match ins with
  | [] => Some (nMinHeight, nMinTime, [])
  | (i, nCoinHeight) :: ins =>
      if negb (Z.land (nSequence i) SEQUENCE_LOCKTIME_DISABLE_FLAG =? 0) then
        '(locks, hs) ← locks_loop h block ins nMinHeight nMinTime; Some (locks, 0 :: hs)
      else
      let n := Z.land (nSequence i) SEQUENCE_LOCKTIME_MASK in
      '(locks, hs) ←
        (if negb (Z.land (nSequence i) SEQUENCE_LOCKTIME_TYPE_FLAG =? 0) then
           p ← GetAncestor h block (Z.max (nCoinHeight - 1) 0);
           _ ← deref h p;
           nCoinTime ← GetMedianTimePast h p;
           locks_loop h block ins nMinHeight (Z.max nMinTime (nCoinTime + u32 (n ≪ SEQUENCE_LOCKTIME_GRANULARITY) - 1))
         else locks_loop h block ins (Z.max nMinHeight (nCoinHeight + n - 1)) nMinTime);
      Some (locks, nCoinHeight :: hs)
  end.

(** The pair of locks, and [prevHeights] after the call. *)
Definition CalculateSequenceLocks (h : heap) (tx : CMutableTransaction) (flags : Z) (prevHeights : list Z) (block : ptr) :
    option (Z * Z * list Z) :=
  if negb (length prevHeights =? length (vin tx))%nat then None else
  let fEnforceBIP68 := (2 <=? u32 (nVersion tx)) && negb (Z.land flags LOCKTIME_VERIFY_SEQUENCE =? 0) in
  if negb fEnforceBIP68 then Some (-1, -1, prevHeights) else locks_loop h block (zip (vin tx) prevHeights) (-1) (-1).

Definition EvaluateSequenceLocks (h : heap) (block : ptr) (lockPair : Z * Z) : option bool :=
  b ← deref h block;
  if negb (bool_decide (is_Some (pprev b))) then None else
  nBlockTime ← GetMedianTimePast h (pprev b);
  Some (negb ((Chain.nHeight b <=? fst lockPair) || (nBlockTime <=? snd lockPair))).

Definition SequenceLocks (h : heap) (tx : CMutableTransaction) (flags : Z) (prevHeights : list Z) (block : ptr) : option (bool * list Z) :=
  '(locks, hs) ← CalculateSequenceLocks h tx flags prevHeights block;
  ok ← EvaluateSequenceLocks h block locks;
  Some (ok, hs).

(** ** Signature operations; counts are [unsigned int] *)

Definition GetLegacySigOpCount (tx : CMutableTransaction) : Z :=
  let n := fold_left (fun n i => u32 (n + GetSigOpCount (scriptSig i) false)) (vin tx) 0 in
  fold_left (fun n o => u32 (n + GetSigOpCount (scriptPubKey o) false)) (vout tx) n.

Fixpoint p2sh_loop (ins : list CTxIn) (n : Z) (v : view) : option (Z * view) :=
  match ins with
  | [] => Some (n, v)
  | i :: ins =>
      let '(c, v) := AccessCoin (prevout i) v in
      if IsSpent c then None else
      let script := scriptPubKey (out c) in
      p2sh_loop ins (if IsPayToScriptHash script then u32 (n + GetSigOpCount_p2sh script (scriptSig i)) else n) v
  end.

Definition GetP2SHSigOpCount (tx : CMutableTransaction) (v : view) : option (Z * view) :=
  if IsCoinBase tx || Tx_IsZerocoinSpend tx || Tx_IsSigmaSpend tx then Some (0, v) else p2sh_loop (vin tx) 0 v.

Fixpoint witness_loop (ins : list CTxIn) (flags n : Z) (v : view) : option (Z * view) :=
  match ins with
  | [] => Some (n, v)
  | i :: ins =>
      let '(c, v) := AccessCoin (prevout i) v in
      k ← CountWitnessSigOps (scriptSig i) (scriptPubKey (out c)) (Some (scriptWitness i)) flags;
      witness_loop ins flags (n + k) v
  end.

Definition GetTransactionSigOpCost (tx : CMutableTransaction) (flags : Z) (v : view) : option (Z * view) :=
  let nSigOps := u32 (GetLegacySigOpCount tx * WITNESS_SCALE_FACTOR) in
  if no_inputs tx then Some (nSigOps, v) else
  '(nSigOps, v) ← (if negb (Z.land flags SCRIPT_VERIFY_P2SH =? 0)
                   then '(k, v) ← GetP2SHSigOpCount tx v; Some (nSigOps + u32 (k * WITNESS_SCALE_FACTOR), v) else Some (nSigOps, v));
  witness_loop (vin tx) flags nSigOps v.

(** ** Rewards *)

(** [112.5 * COIN] *)
Definition base_subsidy : Z := 1125 * COIN / 10.

Definition GetBlockSubsidy (nSubsidyHalvingInterval nPremineSubsidy : Z) (nHeight : Z) : Z :=
  if nHeight =? 0 then 0 else
  if nHeight =? 1 then nPremineSubsidy * COIN else
  let halvings := nHeight / nSubsidyHalvingInterval in
  if 64 <=? halvings then 0 else base_subsidy ≫ halvings.

Definition GetMasternodePayment (nHeight blockValue : Z) : Z :=
  if nHeight <? 2520000 then Z.quot (i64 (blockValue * 15)) 100 else
  if nHeight <? 3366000 then Z.quot (i64 (blockValue * 2)) 10 else
  Z.quot (i64 (blockValue * 25)) 100.

(** The parameters of the main network (chainparams.cpp). *)
Definition nDefaultSubsidyHalvingInterval : Z := 840000.
Definition main_nPremineSubsidy : Z := 21000000.
