(* ===== verification/TxVerifyTheorems.v ===== *)
(** * TxVerifyTheorems: transactions that pass the checks

    The properties of CheckTransaction, CheckTxInputs, SequenceLocks and the
    rewards, and that a transaction which passes the checks can be applied to the
    set of unspent outputs and creates no value.

    [well_formed] states the conditions of CheckTransaction without the code's
    order of tests; [funded] states what CheckTxInputs asks of the unspent outputs;
    the total of all block subsidies is bounded by a potential.

    SequenceLocks folds the inputs into one height and one time and compares them
    once; BIP 68 asks each input for its own condition.  The two agree, and
    GetAncestor's result is never null where it is dereferenced. *)

From stdpp Require Import gmap strings.
From S2P Require Import Prelude Words Serialize Chain ChainCorrect ChainTheorems Script Interpreter SerializeVector.
From S2P Require Import Transaction TransactionTheorems Coins CoinsTheorems TxVerify.

Definition mtp (h : heap) (p : ptr) : Z := default 0 (GetMedianTimePast h p).

(** The condition of BIP 68 on one input, for an output of the block at height [ch]. *)
Definition relative_lock_ok (h : heap) (a : nat) (b : CBlockIndex) (ic : CTxIn * Z) : Prop :=
  let '(i, ch) := ic in
  let n := nSequence i mod 2 ^ 16 in
  if Z.testbit (nSequence i) 31 then True else
  if Z.testbit (nSequence i) 22 then mtp h (ancestor h a b (Z.max (ch - 1) 0)) + 512 * n <= mtp h (pprev b)
  else ch + n <= Chain.nHeight b.

Definition cleared (ic : CTxIn * Z) : Z := if Z.testbit (nSequence (fst ic)) 31 then 0 else snd ic.

Lemma mask_value x : Z.land x SEQUENCE_LOCKTIME_MASK = x mod 2 ^ 16.
Proof. change SEQUENCE_LOCKTIME_MASK with (Z.ones 16). apply Z.land_ones. lia. Qed.

Lemma granularity n : 0 <= n < 2 ^ 16 -> u32 (n ≪ SEQUENCE_LOCKTIME_GRANULARITY) = 512 * n.
Proof. intros H. unfold SEQUENCE_LOCKTIME_GRANULARITY. rewrite Z.shiftl_mul_pow2 by lia. change (2 ^ 9) with 512. unfold u32. rewrite Z.mod_small; lia. Qed.

Section locks.
Context (h : heap) (Hwf : ChainCorrect.wf h) (a : nat) (b : CBlockIndex) (Ha : h !! a = Some b).

Lemma coin_time ch : 0 <= ch <= Chain.nHeight b + 1 ->
  exists p bp, GetAncestor h (Some a) (Z.max (ch - 1) 0) = Some (Some p) /\ h !! p = Some bp /\
    ancestor h a b (Z.max (ch - 1) 0) = Some p /\ GetMedianTimePast h (Some p) = Some (mtp h (Some p)).
Proof.
  intros Hc. pose proof (wf_height _ _ _ (Hwf a b Ha)).
  destruct (ancestor_in_heap h Hwf a b (Z.max (ch - 1) 0) Ha ltac:(lia)) as (p & bp & Hp & Hbp & _). exists p, bp.
  rewrite (GetAncestor_spec h Hwf a b) by done. rewrite Hp. split; [done|]. split; [done|]. split; [done|].
  unfold mtp. destruct (GetMedianTimePast_total h Hwf p bp Hbp) as [m ->]. done.
Qed.

Lemma locks_loop_spec ins mh mt : Forall (fun ic => 0 <= snd ic <= Chain.nHeight b + 1) ins ->
  exists mh' mt', locks_loop h (Some a) ins mh mt = Some (mh', mt', map cleared ins) /\
    (mh' < Chain.nHeight b /\ mt' < mtp h (pprev b) <->
     mh < Chain.nHeight b /\ mt < mtp h (pprev b) /\ Forall (relative_lock_ok h a b) ins).
Proof.
  intros H. revert mh mt. induction H as [|[i ch] ins Hch _ IH]; intros mh mt; cbn [locks_loop map].
  { exists mh, mt. split; [done|]. pose proof (Forall_nil_2 (relative_lock_ok h a b)). tauto. }
  unfold SEQUENCE_LOCKTIME_DISABLE_FLAG, SEQUENCE_LOCKTIME_TYPE_FLAG. rewrite !flag_set, mask_value by lia. cbn [cleared fst snd] in *.
  unfold cleared at 1. cbn [fst snd]. setoid_rewrite Forall_cons. cbn [relative_lock_ok].
  pose proof (Z.mod_pos_bound (nSequence i) (2 ^ 16) ltac:(lia)) as Hm.
  destruct (Z.testbit (nSequence i) 31).
  { destruct (IH mh mt) as (mh' & mt' & -> & Hiff). exists mh', mt'. split; [done|]. rewrite Hiff. tauto. }
  destruct (Z.testbit (nSequence i) 22).
  - destruct (coin_time ch Hch) as (p & bp & -> & Hp & -> & Ht). cbn [mbind option_bind deref]. rewrite Hp. cbn [mbind option_bind]. rewrite Ht.
    cbn [mbind option_bind]. rewrite granularity by done.
    edestruct IH as (mh' & mt' & -> & Hiff). exists mh', mt'. split; [done|]. rewrite Hiff. intuition lia.
  - edestruct IH as (mh' & mt' & -> & Hiff). exists mh', mt'. split; [done|]. rewrite Hiff. intuition lia.
Qed.

Lemma past_times_nonneg n p l : (forall x bx, h !! x = Some bx -> 0 <= nTime bx) -> past_times n h p = Some l -> below 0 l = 0%nat.
Proof.
  intros Ht. revert p l. induction n as [|n IH]; intros p l El; [cbn in El; by injection El as <-|].
  cbn [past_times] in El. destruct p as [x|]; [|by injection El as <-]. destruct (deref h (Some x)) as [bx|] eqn:Ex; [|done].
  cbn [mbind option_bind] in El. destruct (past_times n h (pprev bx)) as [l'|] eqn:El'; [|done]. cbn in El. injection El as <-.
  rewrite below_cons, (IH _ _ El'). cbn in Ex. pose proof (Ht x bx Ex). destruct (Z.ltb_spec (nTime bx) 0); lia.
Qed.

Lemma mtp_nonneg p bp : (forall x bx, h !! x = Some bx -> 0 <= nTime bx) -> h !! p = Some bp -> 0 <= mtp h (Some p).
Proof.
  intros Ht Hp. unfold mtp, GetMedianTimePast. destruct (past_times_spec h Hwf nMedianTimeSpan p bp Hp) as (l & El & Hl). rewrite El.
  pose proof (wf_height _ _ _ (Hwf p bp Hp)). unfold nMedianTimeSpan in Hl. cbn [mbind option_bind default].
  apply median_le; [intros ->; cbn in Hl; lia|]. rewrite (past_times_nonneg _ _ _ Ht El). lia.
Qed.

Definition enforced (tx : CMutableTransaction) (flags : Z) : bool := (2 <=? u32 (nVersion tx)) && Z.testbit flags 0.

Lemma SequenceLocks_spec tx flags prevHeights q :
  (forall x bx, h !! x = Some bx -> 0 <= nTime bx) -> pprev b = Some q ->
  length prevHeights = length (vin tx) -> Forall (fun ch => 0 <= ch <= Chain.nHeight b + 1) prevHeights ->
  exists ok, SequenceLocks h tx flags prevHeights (Some a)
    = Some (ok, if enforced tx flags then map cleared (zip (vin tx) prevHeights) else prevHeights) /\
    (ok = true <-> (enforced tx flags = true -> Forall (relative_lock_ok h a b) (zip (vin tx) prevHeights))).
Proof.
  intros Ht Hq Hlen Hch. destruct (wf_prev _ _ _ (Hwf a b Ha) q Hq) as (bq & Hbq & Hh & _).
  pose proof (wf_height _ _ _ (Hwf q bq Hbq)). pose proof (mtp_nonneg q bq Ht Hbq) as Hm.
  assert (Heval : forall lh lt, EvaluateSequenceLocks h (Some a) (lh, lt) = Some (bool_decide (lh < Chain.nHeight b /\ lt < mtp h (pprev b)))).
  { intros lh lt. unfold EvaluateSequenceLocks. cbn [deref mbind option_bind]. rewrite Ha. cbn [mbind option_bind]. rewrite Hq. unfold mtp.
    destruct (GetMedianTimePast_total h Hwf q bq Hbq) as [m ->]. cbn [mbind option_bind default fst snd negb]. rewrite bool_decide_true by by eexists.
    cbn [negb]. f_equal. destruct (Z.leb_spec (Chain.nHeight b) lh), (Z.leb_spec m lt); cbn; case_bool_decide; lia || done. }
  unfold SequenceLocks, CalculateSequenceLocks. rewrite Hlen, Nat.eqb_refl. cbn [negb]. unfold LOCKTIME_VERIFY_SEQUENCE. rewrite flag_set by lia.
  fold (enforced tx flags). destruct (enforced tx flags); cbn [negb].
  - destruct (locks_loop_spec (zip (vin tx) prevHeights) (-1) (-1)) as (mh & mt & -> & Hiff).
    { apply Forall_forall. intros [i ch] Hin. apply elem_of_zip_r in Hin. cbn. rewrite Forall_forall in Hch. by apply Hch. }
    cbn [mbind option_bind]. rewrite Heval. cbn [mbind option_bind]. eexists. split; [done|].
    rewrite bool_decide_eq_true, Hiff, Hq. intuition lia.
  - cbn [mbind option_bind]. rewrite Heval. cbn [mbind option_bind]. eexists. split; [done|].
    rewrite bool_decide_eq_true, Hq. split; [done|]. lia.
Qed.
End locks.

(** ** CheckTransaction *)

Lemma has_duplicate_spec {A} `{!EqDecision A} (seen l : list A) :
  has_duplicate seen l = false <-> NoDup l /\ Forall (fun x => x ∉ seen) l.
Proof.
  revert seen. induction l as [|x l IH]; intros seen; cbn [has_duplicate].
  { split; [|done]. intros _. split; constructor. }
  rewrite orb_false_iff, bool_decide_eq_false, IH, NoDup_cons, Forall_cons, !Forall_forall. split.
  - intros (Hx & Hl & Hf). split; [split; [|done]|split; [done|]].
    + intros Hin. apply (Hf x Hin). left.
    + intros y Hy Hs. apply (Hf y Hy). by right.
  - intros ((Hx & Hl) & Hs & Hf). split; [done|]. split; [done|]. intros y Hy Hin.
    apply elem_of_cons in Hin as [->|Hin]; [done|by apply (Hf y Hy)].
Qed.

Corollary has_duplicate_NoDup {A} `{!EqDecision A} (l : list A) : has_duplicate [] l = false <-> NoDup l.
Proof. rewrite has_duplicate_spec. split; [tauto|]. intros H. split; [done|]. apply Forall_forall. intros x _. by apply not_elem_of_nil. Qed.

(** The two loops over the outputs accept the same amounts. *)
Lemma check_outputs_spec acc outs : 0 <= acc <= MAX_MONEY ->
  check_outputs acc outs = None <-> Forall (fun o => 0 <= nValue o <= MAX_MONEY) outs /\ acc + total outs <= MAX_MONEY.
Proof.
  intros Ha. assert (H : check_outputs acc outs = None <-> exists v, value_loop acc outs = Some v).
  { clear Ha. revert acc. induction outs as [|o l IH]; intros acc; cbn [check_outputs value_loop].
    { split; [by eexists|done]. }
    destruct (MoneyRange (nValue o)) eqn:Eo; cbn [negb orb].
    - apply MoneyRange_spec in Eo. destruct (Z.ltb_spec (nValue o) 0); [lia|]. destruct (Z.ltb_spec MAX_MONEY (nValue o)); [lia|].
      destruct (MoneyRange (i64 (acc + nValue o))); cbn [negb]; [apply IH|]. split; [done|]. by intros [v ?].
    - assert (~ (0 <= nValue o <= MAX_MONEY)) by (intros H; apply MoneyRange_spec in H; congruence).
      destruct (Z.ltb_spec (nValue o) 0); [|destruct (Z.ltb_spec MAX_MONEY (nValue o)); [|lia]].
      all: split; [done|by intros [v ?]]. }
  rewrite H. split.
  - intros [v Hv]. apply value_loop_spec in Hv; [tauto|done].
  - intros (H1 & H2). exists (acc + total outs). by apply value_loop_spec.
Qed.

Definition spends_mint (tx : CMutableTransaction) : bool := Tx_IsZerocoinSpend tx || Tx_IsSigmaSpend tx || Tx_IsZerocoinRemint tx.

Record well_formed (tx : CMutableTransaction) (fCheckDuplicateInputs fRejectSigma : bool) : Prop := {
  ok_nonempty : nType tx = TRANSACTION_QUORUM_COMMITMENT \/ (vin tx <> [] /\ vout tx <> []);
  ok_size : Z.of_nat (length (SerializeTransaction false tx)) <= MAX_BLOCK_BASE_SIZE;
  ok_payload : Z.of_nat (length (vExtraPayload tx)) <= MAX_TX_EXTRA_PAYLOAD;
  ok_values : Forall (fun o => 0 <= nValue o <= MAX_MONEY) (vout tx) /\ total (vout tx) <= MAX_MONEY;
  ok_distinct : fCheckDuplicateInputs = true ->
    if spends_mint tx then fRejectSigma = false /\ NoDup (map scriptSig (vin tx)) else NoDup (map prevout (vin tx)) }.

Lemma check_duplicates_spec tx fRejectSigma :
  check_duplicates tx fRejectSigma = None <->
  (if spends_mint tx then fRejectSigma = false /\ NoDup (map scriptSig (vin tx)) else NoDup (map prevout (vin tx))).
Proof.
  unfold check_duplicates, spends_mint. destruct (Tx_IsZerocoinSpend tx || Tx_IsSigmaSpend tx || Tx_IsZerocoinRemint tx).
  - destruct fRejectSigma; [split; [done|by intros []]|]. rewrite <-has_duplicate_NoDup.
    destruct (has_duplicate [] (map scriptSig (vin tx))); split; try done. by intros [].
  - rewrite <-has_duplicate_NoDup. by destruct (has_duplicate [] (map prevout (vin tx))).
Qed.

Lemma empty_length {A} (l : list A) : (length l =? 0)%nat = bool_decide (l = []).
Proof. by destruct l. Qed.

Section check_transaction.
Context (Sigma Zerocoin : CMutableTransaction -> CValidationState -> bool * CValidationState) (DIP0003Height : Z).

(** What is left to check of a well-formed transaction. *)
Definition kind_check (tx : CMutableTransaction) (st : CValidationState) (nHeight : Z) : bool * CValidationState :=
  if IsCoinBase tx then check_coinbase tx st else check_ordinary Sigma Zerocoin tx st (DIP0003Height <? nHeight).

Definition rejected (r : bool * CValidationState) (st : CValidationState) : Prop :=
  exists level reason, (level = 10 \/ level = 100) /\ r = reject st level reason.

Lemma CheckTransaction_split tx st dup nHeight :
  (well_formed tx dup (DIP0003Height <? nHeight) /\
   CheckTransaction Sigma Zerocoin DIP0003Height tx st dup nHeight = kind_check tx st nHeight) \/
  (~ well_formed tx dup (DIP0003Height <? nHeight) /\
   rejected (CheckTransaction Sigma Zerocoin DIP0003Height tx st dup nHeight) st).
Proof.
  unfold CheckTransaction. rewrite !empty_length.
  assert (Hrej : forall level reason, level = 10 \/ level = 100 -> rejected (reject st level reason) st) by (intros; by eexists _, _).
  pose proof (check_outputs_spec 0 (vout tx) ltac:(unfold MAX_MONEY, COIN; lia)) as Hout. rewrite Z.add_0_l in Hout.
  pose proof (check_duplicates_spec tx (DIP0003Height <? nHeight)) as Hdup.
  set (quorum := nType tx =? TRANSACTION_QUORUM_COMMITMENT).
  assert (Hq : quorum = true <-> nType tx = TRANSACTION_QUORUM_COMMITMENT) by apply Z.eqb_eq.
  destruct (negb quorum && bool_decide (vin tx = [])) eqn:E1.
  { right. split; [|auto]. intros [Hn _ _ _ _]. destruct quorum; [done|]. apply bool_decide_eq_true in E1. intuition congruence. }
  destruct (negb quorum && bool_decide (vout tx = [])) eqn:E2.
  { right. split; [|auto]. intros [Hn _ _ _ _]. destruct quorum; [done|]. apply bool_decide_eq_true in E2. intuition congruence. }
  unfold GetSerializeSize. destruct (Z.ltb_spec MAX_BLOCK_BASE_SIZE (Z.of_nat (length (SerializeTransaction false tx)))) as [?|Hs].
  { right. split; [|auto]. intros []. lia. }
  destruct (Z.ltb_spec MAX_TX_EXTRA_PAYLOAD (Z.of_nat (length (vExtraPayload tx)))) as [?|Hp].
  { right. split; [|auto]. intros []. lia. }
  destruct (check_outputs 0 (vout tx)) as [reason|].
  { right. split; [|auto]. intros [_ _ _ Hv _]. by apply Hout in Hv. }
  destruct (if dup then check_duplicates tx (DIP0003Height <? nHeight) else None) as [reason|] eqn:Ed.
  { right. split; [|auto]. intros [_ _ _ _ Hd]. destruct dup; [|done]. specialize (Hd eq_refl). apply Hdup in Hd. congruence. }
  left. split; [|done]. split; [|done|done|by apply Hout|].
  - destruct quorum; [left; by apply Hq|right]. cbn [negb andb] in E1, E2. by apply bool_decide_eq_false in E1, E2.
  - intros ->. by apply Hdup.
Qed.

(** The checks of a transaction that is not a coinbase. *)
Definition named (i : CTxIn) : Prop := OutPoint_IsNull (prevout i) = true -> Script.IsZerocoinSpend (scriptSig i) = true \/ TxIn_IsZerocoinRemint i = true.
Definition after_sigma (tx : CMutableTransaction) (st : CValidationState) : CValidationState :=
  if IsZerocoinV3SigmaTransaction tx then snd (Sigma tx st) else st.

Record ordinary_ok (tx : CMutableTransaction) (st : CValidationState) (nHeight : Z) : Prop := {
  ok_named : Forall named (vin tx);
  ok_sigma : IsZerocoinV3SigmaTransaction tx = true -> nHeight <= DIP0003Height /\ fst (Sigma tx st) = true;
  ok_zerocoin : fst (Zerocoin tx (after_sigma tx st)) = true }.

Definition coinbase_ok (tx : CMutableTransaction) : Prop :=
  exists i, head (vin tx) = Some i /\ (if nType tx =? TRANSACTION_COINBASE then 1 else 2) <= Z.of_nat (length (scriptSig i)) <= 100.

Lemma named_spec (ins : list CTxIn) :
  existsb (fun i => OutPoint_IsNull (prevout i) && negb (Script.IsZerocoinSpend (scriptSig i) || TxIn_IsZerocoinRemint i)) ins = false <-> Forall named ins.
Proof.
  induction ins as [|i l IH]; cbn [existsb]; [done|]. rewrite orb_false_iff, IH, Forall_cons. unfold named at 2.
  destruct (OutPoint_IsNull (prevout i)), (Script.IsZerocoinSpend (scriptSig i)), (TxIn_IsZerocoinRemint i); cbn; intuition congruence.
Qed.

Lemma check_ordinary_spec tx st nHeight :
  fst (check_ordinary Sigma Zerocoin tx st (DIP0003Height <? nHeight)) = true <-> ordinary_ok tx st nHeight.
Proof.
  unfold check_ordinary. pose proof (named_spec (vin tx)) as Hn.
  destruct (existsb _ (vin tx)); [split; [done|intros [H _ _]; by apply Hn in H]|].
  assert (Hn' : Forall named (vin tx)) by by apply Hn.
  destruct (IsZerocoinV3SigmaTransaction tx) eqn:Es.
  - destruct (Z.ltb_spec DIP0003Height nHeight).
    + split; [done|]. intros [_ H1 _]. destruct (H1 Es). lia.
    + destruct (Sigma tx st) as [ok st1] eqn:E. destruct ok; cbn [negb].
      * split; [intros H1; split; [done|intros _; rewrite E; done|unfold after_sigma; by rewrite Es, E]|].
        intros [_ _ H1]. unfold after_sigma in H1. by rewrite Es, E in H1.
      * split; [done|]. intros [_ H1 _]. destruct (H1 Es) as [_ H2]. by rewrite E in H2.
  - cbn [negb]. split; [intros H1; split; [done|congruence|unfold after_sigma; by rewrite Es]|].
    intros [_ _ H1]. unfold after_sigma in H1. by rewrite Es in H1.
Qed.

Lemma check_coinbase_spec tx st : vin tx <> [] -> fst (check_coinbase tx st) = true <-> coinbase_ok tx.
Proof.
  intros Hv. unfold check_coinbase, coinbase_ok. destruct (vin tx) as [|i l]; [done|]. cbn [head].
  set (n := if nType tx =? TRANSACTION_COINBASE then 1 else 2).
  destruct (Z.ltb_spec (Z.of_nat (length (scriptSig i))) n), (Z.ltb_spec 100 (Z.of_nat (length (scriptSig i)))); cbn.
  all: split; [first [done|intros _; exists i; split; [done|lia]]|intros (j & [= <-] & Hj); first [done|lia]].
Qed.

Lemma IsCoinBase_vin tx : IsCoinBase tx = true -> vin tx <> [].
Proof. unfold IsCoinBase. by destruct (vin tx). Qed.

Lemma check_coinbase_state tx st : vin tx <> [] -> ~ coinbase_ok tx -> rejected (check_coinbase tx st) st.
Proof.
  intros Hv H. rewrite <-(check_coinbase_spec tx st Hv) in H. revert H. unfold check_coinbase.
  destruct (_ || _); [|by intros []]. intros _. eexists _, _. by split; [right|].
Qed.
End check_transaction.

Lemma DoS_invalid st level code reason corruption : mode st <> MODE_ERROR -> State_IsInvalid (DoS st level code reason corruption) = true.
Proof. unfold DoS, State_IsInvalid. by destruct (mode st). Qed.

(** ** CheckTxInputs *)

Definition coins_total (cs : list Coin) : Z := foldr (fun c n => nValue (out c) + n) 0 cs.

Definition mature (nSpendHeight : Z) (c : Coin) : Prop := fCoinBase c = true -> Coins.nHeight c + COINBASE_MATURITY <= nSpendHeight.
Definition in_range (c : Coin) : Prop := 0 <= nValue (out c) <= MAX_MONEY.

(** The coins of the inputs, and that they pay for the outputs. *)
Record funded (m : coin_set) (tx : CMutableTransaction) (nSpendHeight : Z) (cs : list Coin) : Prop := {
  fund_coins : Forall2 (fun i c => m (prevout i) = Some c) (vin tx) cs;
  fund_mature : Forall (mature nSpendHeight) cs;
  fund_range : Forall in_range cs /\ coins_total cs <= MAX_MONEY;
  fund_enough : total (vout tx) <= coins_total cs }.

Lemma have_inputs_spec ins v : wf v ->
  let '(r, v') := have_inputs ins v in wf v' /\ same v' v /\ (r = true <-> Forall (fun i => is_Some (utxo v (prevout i))) ins).
Proof.
  revert v. induction ins as [|i ins IH]; intros v Hwf; cbn [have_inputs]; [done|].
  pose proof (HaveCoin_spec v (prevout i) Hwf) as H. destruct (HaveCoin (prevout i) v) as [r v1]. destruct H as (Hw1 & Hs1 & ->).
  case_bool_decide as Hi; [|split; [done|]; split; [done|]; rewrite Forall_cons; split; [done|tauto]].
  specialize (IH v1 Hw1). destruct (have_inputs ins v1) as [r v2]. destruct IH as (Hw2 & Hs2 & Hr).
  split; [done|]. split; [intros o; by rewrite Hs2|]. rewrite Hr, Forall_cons. assert (E : forall j, utxo v1 (prevout j) = utxo v (prevout j)) by (intros; apply Hs1).
  split; [intros H; split; [done|]|intros [_ H]]; (eapply Forall_impl; [exact H|]); intros j; cbn; rewrite E; done.
Qed.

Lemma coins_total_nonneg cs : Forall in_range cs -> 0 <= coins_total cs.
Proof. induction 1 as [|c l Hc _ IH]; cbn [coins_total foldr]; [lia|]. unfold coins_total, in_range in *. lia. Qed.

(** What the loop has established when it is done: the sum, or a rejection. *)
Definition sum_result (st : CValidationState) (cs : list Coin) (h acc : Z) (r : Z + CValidationState) : Prop :=
  match r with
  | inl n => Forall (mature h) cs /\ Forall in_range cs /\ acc + coins_total cs <= MAX_MONEY /\ n = acc + coins_total cs
  | inr st' => ~ (Forall (mature h) cs /\ Forall in_range cs /\ acc + coins_total cs <= MAX_MONEY) /\ (mode st <> MODE_ERROR -> State_IsInvalid st' = true)
  end.

Lemma sum_step acc c : 0 <= acc <= MAX_MONEY -> in_range c -> i64 (acc + nValue (out c)) = acc + nValue (out c).
Proof. unfold in_range, MAX_MONEY, COIN. intros Ha Hc. unfold i64. rewrite Z.mod_small by lia. destruct (Z.ltb_spec (acc + nValue (out c)) (2 ^ 63)); lia. Qed.

Lemma sum_inputs_spec ins cs h st acc v : wf v -> 0 <= acc <= MAX_MONEY -> Forall2 (fun i c => utxo v (prevout i) = Some c) ins cs ->
  exists r v', sum_inputs ins h acc st v = Some (r, v') /\ wf v' /\ same v' v /\ sum_result st cs h acc r.
Proof.
  intros Hwf Ha H. revert acc v Hwf Ha H. induction ins as [|i ins IH] in cs |- *; intros acc v Hwf Ha H.
  { apply Forall2_nil_inv_l in H as ->. exists (inl acc), v. split; [done|]. split; [done|]. split; [done|]. cbn. repeat split; [constructor|constructor|lia|lia]. }
  apply Forall2_cons_inv_l in H as (c & cs' & Hc & H & ->). cbn [sum_inputs].
  pose proof (AccessCoin_spec v (prevout i) Hwf) as Hac. destruct (AccessCoin (prevout i) v) as [c1 v1]. destruct Hac as (Hw1 & Hs1 & Hu).
  rewrite Hc in Hu. apply unspent_spent in Hu as [<- Hns]. rewrite Hns.
  assert (Hstop : forall st', (mode st <> MODE_ERROR -> State_IsInvalid st' = true) ->
     ~ (Forall (mature h) (c :: cs') /\ Forall in_range (c :: cs') /\ acc + coins_total (c :: cs') <= MAX_MONEY) ->
     exists r v', Some (inr st', v1) = Some (r, v') /\ wf v' /\ same v' v /\ sum_result st (c :: cs') h acc r).
  { intros st' H1 H2. eexists _, v1. by repeat split. }
  destruct (fCoinBase c && (h - Coins.nHeight c <? COINBASE_MATURITY)) eqn:Em.
  { apply Hstop; [apply DoS_invalid|]. apply andb_true_iff in Em as [Eb Em]. apply Z.ltb_lt in Em.
    rewrite Forall_cons. unfold mature at 1. intros ((Hm & _) & _). specialize (Hm Eb). lia. }
  assert (Hm : mature h c). { intros Eb. rewrite Eb in Em. apply Z.ltb_ge in Em. lia. }
  destruct (MoneyRange (nValue (out c))) eqn:Er; cbn [negb orb].
  2:{ apply Hstop; [by apply DoS_invalid|]. rewrite (Forall_cons in_range). intros (_ & (Hr & _) & _). apply MoneyRange_spec in Hr. congruence. }
  apply MoneyRange_spec in Er. change (in_range c) in Er. rewrite sum_step by done. cbn [coins_total foldr]. fold (coins_total cs').
  destruct (MoneyRange (acc + nValue (out c))) eqn:Et; cbn [negb].
  - apply MoneyRange_spec in Et. destruct (IH cs' (acc + nValue (out c)) v1) as (r & v' & -> & Hw & Hs & Hr); [done|done| |].
    { eapply Forall2_impl; [exact H|]. intros j d. cbn. by rewrite Hs1. }
    exists r, v'. split; [done|]. split; [done|]. split; [intros o; by rewrite Hs|].
    destruct r as [n|st']; cbn [sum_result] in *; rewrite !Forall_cons; cbn [coins_total foldr]; fold (coins_total cs'); rewrite Z.add_assoc; tauto.
  - apply Hstop; [by apply DoS_invalid|]. cbn [coins_total foldr]. fold (coins_total cs'). rewrite !Forall_cons. intros (_ & (_ & Hr) & Hle).
    pose proof (coins_total_nonneg cs' Hr). unfold in_range in Er.
    assert (MoneyRange (acc + nValue (out c)) = true); [|congruence]. apply MoneyRange_spec. lia.
Qed.

(** CheckTxInputs never fails an assertion and throws nothing when the outputs are in range. *)
Lemma CheckTxInputs_spec tx st h v : wf v -> no_inputs tx = false ->
  Forall (fun o => 0 <= nValue o <= MAX_MONEY) (vout tx) -> total (vout tx) <= MAX_MONEY ->
  exists ok st' v', CheckTxInputs tx st h v = Some (ok, st', v') /\ wf v' /\ same v' v /\
    (ok = true <-> exists cs, funded (utxo v) tx h cs) /\ (ok = true -> st' = st) /\
    (ok = false -> mode st <> MODE_ERROR -> State_IsInvalid st' = true).
Proof.
  intros Hwf Hn Ho Ht. unfold CheckTxInputs, HaveInputs. rewrite Hn.
  pose proof (have_inputs_spec (vin tx) v Hwf) as H. destruct (have_inputs (vin tx) v) as [have v1]. destruct H as (Hw1 & Hs1 & Hh).
  destruct have; cbn [negb].
  2:{ eexists false, _, v1. split; [done|]. split; [done|]. split; [done|]. split; [|split; [done|intros _; apply DoS_invalid]].
      split; [done|]. intros (cs & [Hc _ _ _]). apply Hh. apply Forall_forall. intros i Hi.
      destruct (list_elem_of_lookup_1 _ _ Hi) as [k Hk]. destruct (Forall2_lookup_l _ _ _ _ _ Hc Hk) as (c & _ & E). by exists c. }
  assert (Hcs : exists cs, Forall2 (fun i c => utxo v (prevout i) = Some c) (vin tx) cs).
  { pose proof (proj1 Hh eq_refl) as Hall. clear -Hall. induction Hall as [|i l [c Hc] _ [cs IH]]; [by exists []|]. exists (c :: cs). by constructor. }
  destruct Hcs as [cs Hcs].
  destruct (sum_inputs_spec (vin tx) cs h st 0 v1) as (r & v2 & -> & Hw2 & Hs2 & Hr); [done|unfold MAX_MONEY, COIN; lia| |].
  { eapply Forall2_impl; [exact Hcs|]. intros i c. cbn. by rewrite Hs1. }
  assert (Huniq : forall cs', funded (utxo v) tx h cs' -> cs' = cs).
  { intros cs' [H _ _ _]. clear -H Hcs. revert cs' H. induction Hcs as [|i c l cs Hc _ IH]; intros cs' H; [by apply Forall2_nil_inv_l in H|].
    apply Forall2_cons_inv_l in H as (c' & l' & Hc' & H & ->). f_equal; [congruence|by apply IH]. }
  assert (Hsame : same v2 v) by (intros o; by rewrite Hs2). cbn [mbind option_bind].
  destruct r as [n|st']; cbn [sum_result] in Hr; rewrite Z.add_0_l in Hr.
  2:{ exists false, st', v2. split; [done|]. split; [done|]. split; [done|]. split; [|split; [done|tauto]].
      split; [done|]. intros (cs' & Hf). pose proof (Huniq cs' Hf) as ->. destruct Hf. tauto. }
  destruct Hr as (Hm & Hi & Hle & ->). rewrite (proj2 (GetValueOut_spec tx (total (vout tx)))) by done. cbn [mbind option_bind].
  pose proof (total_nonneg _ Ho). destruct (Z.ltb_spec (coins_total cs) (total (vout tx))).
  { eexists false, _, v2. split; [done|]. split; [done|]. split; [done|]. split; [|split; [done|intros _; apply DoS_invalid]].
    split; [done|]. intros (cs' & Hf). pose proof (Huniq cs' Hf) as ->. destruct Hf. lia. }
  assert (E : i64 (coins_total cs - total (vout tx)) = coins_total cs - total (vout tx)).
  { unfold MAX_MONEY, COIN in *. unfold i64. rewrite Z.mod_small by lia. destruct (Z.ltb_spec (coins_total cs - total (vout tx)) (2 ^ 63)); lia. }
  rewrite E. destruct (Z.ltb_spec (coins_total cs - total (vout tx)) 0); [lia|].
  rewrite (proj2 (MoneyRange_spec _)) by lia. cbn [negb]. exists true, st, v2. split; [done|]. split; [done|]. split; [done|].
  split; [|by split]. split; [|done]. intros _. exists cs. by split.
Qed.

(** ** Rewards *)

(** The subsidies of the blocks below a height. *)
Fixpoint issued (interval premine : Z) (n : nat) : Z :=
  match n with O => 0 | S n => issued interval premine n + GetBlockSubsidy interval premine (Z.of_nat n) end.

Definition halved (k : Z) : Z := base_subsidy ≫ k.

Lemma halved_pos k : 0 <= k -> 0 <= halved k.
Proof. intros H. unfold halved. rewrite Z.shiftr_div_pow2 by done. apply Z.div_pos; [by vm_compute|]. apply Z.pow_pos_nonneg; lia. Qed.

Lemma halved_step k : 0 <= k -> 2 * halved (k + 1) <= halved k.
Proof.
  intros H. unfold halved. rewrite <-Z.shiftr_shiftr by lia. rewrite (Z.shiftr_div_pow2 _ 1) by lia. change (2 ^ 1) with 2.
  apply Z.mul_div_le. lia.
Qed.

(** What a block pays beyond the halving schedule: the premine. *)
Definition extra (premine n : Z) : Z := if n =? 1 then premine * COIN else 0.

Lemma subsidy_le interval premine n : 0 < interval -> 0 <= premine -> 0 <= n ->
  0 <= GetBlockSubsidy interval premine n <= extra premine n + halved (n / interval).
Proof.
  intros Hi Hp Hn. assert (0 <= n / interval) by (apply Z.div_pos; lia). pose proof (halved_pos (n / interval) ltac:(done)).
  unfold GetBlockSubsidy, extra. fold (halved (n / interval)). unfold COIN.
  destruct (Z.eqb_spec n 0), (Z.eqb_spec n 1); [lia|lia|lia|]. destruct (Z.leb_spec 64 (n / interval)); lia.
Qed.

(** The quotient and the remainder of the next number. *)
Lemma div_mod_succ n i : 0 < i -> 0 <= n ->
  (n mod i + 1 < i /\ (n + 1) / i = n / i /\ (n + 1) mod i = n mod i + 1) \/ (n mod i + 1 = i /\ (n + 1) / i = n / i + 1 /\ (n + 1) mod i = 0).
Proof.
  intros Hi Hn. pose proof (Z.div_mod n i ltac:(lia)). pose proof (Z.mod_pos_bound n i Hi).
  destruct (decide (n mod i + 1 < i)).
  - left. split; [done|]. split; symmetry; [apply (Z.div_unique_pos _ _ _ (n mod i + 1))|apply (Z.mod_unique_pos _ _ (n / i))]; lia.
  - right. split; [lia|]. split; symmetry; [apply (Z.div_unique_pos _ _ _ 0)|apply (Z.mod_unique_pos _ _ (n / i + 1))]; lia.
Qed.

(** What the schedule can still pay from a height on: an interval pays at least twice what the next one pays. *)
Definition potential (interval n : Z) : Z := (interval - n mod interval) * halved (n / interval) + interval * halved (n / interval).

Lemma potential_step interval n : 0 < interval -> 0 <= n -> halved (n / interval) + potential interval (n + 1) <= potential interval n.
Proof.
  intros Hi Hn. unfold potential. assert (Hk : 0 <= n / interval) by (apply Z.div_pos; lia).
  destruct (div_mod_succ n interval Hi Hn) as [(H1 & -> & ->)|(H1 & -> & ->)]; [lia|].
  pose proof (halved_step (n / interval) Hk). replace (n mod interval) with (interval - 1) by lia. nia.
Qed.

Lemma potential_pos interval n : 0 < interval -> 0 <= n -> 0 <= potential interval n.
Proof.
  intros Hi Hn. pose proof (Z.mod_pos_bound n interval Hi). pose proof (halved_pos (n / interval) ltac:(apply Z.div_pos; lia)). unfold potential. nia.
Qed.

Lemma issued_bound interval premine n : 0 < interval -> 0 <= premine ->
  issued interval premine n + potential interval (Z.of_nat n) <= (if (n <=? 1)%nat then 0 else premine * COIN) + 2 * interval * base_subsidy.
Proof.
  intros Hi Hp. induction n as [|n IH].
  { cbn [issued]. unfold potential. change (Z.of_nat 0) with 0. rewrite Z.mod_0_l, Z.div_0_l by lia. change (halved 0) with base_subsidy. cbn [Nat.leb]. lia. }
  cbn [issued]. pose proof (subsidy_le interval premine (Z.of_nat n) Hi Hp ltac:(lia)) as Hs.
  pose proof (potential_step interval (Z.of_nat n) Hi ltac:(lia)) as Hst. replace (Z.of_nat (S n)) with (Z.of_nat n + 1) by lia.
  revert Hs. unfold extra, COIN in *. destruct (Z.eqb_spec (Z.of_nat n) 1), (Nat.leb_spec n 1), (Nat.leb_spec (S n) 1); lia.
Qed.

Lemma payment_share v p q : 0 <= v <= MAX_MONEY -> 0 < p <= 25 -> 0 < q <= 100 -> 4 * p <= q ->
  Z.quot (i64 (v * p)) q = v * p / q /\ 0 <= v * p / q <= v / 4.
Proof.
  intros Hv Hp Hq Hpq. unfold MAX_MONEY, COIN in Hv. assert (E : i64 (v * p) = v * p).
  { unfold i64. rewrite Z.mod_small by nia. destruct (Z.ltb_spec (v * p) (2 ^ 63)); nia. }
  rewrite E, Z.quot_div_nonneg by nia. split; [done|]. split; [apply Z.div_pos; nia|].
  apply Z.div_le_lower_bound; [lia|]. transitivity (4 * p * v / q).
  - etransitivity; [apply Z.div_mul_le; nia|]. apply Z.div_le_mono; nia.
  - apply Z.div_le_upper_bound; nia.
Qed.

Abbreviation view_wf := CoinsTheorems.wf.
Abbreviation heap_wf := ChainCorrect.wf.

(** ** Applying a checked transaction *)

Lemma have_inputs_cache ins v : is_cache v -> is_cache (snd (have_inputs ins v)).
Proof.
  revert v. induction ins as [|i ins IH]; intros v Hc; cbn [have_inputs]; [done|].
  pose proof (GetCoin_cache (prevout i) v Hc) as H. destruct v as [m best|m hb v]; [done|]. unfold HaveCoin.
  destruct (GetCoin (prevout i) (Cache m hb v)) as [c v1]. cbn [snd] in H.
  destruct c as [c|]; [destruct (negb (IsSpent c)); [by apply IH|done]|done].
Qed.

Lemma sum_inputs_cache ins h acc st v r v' : is_cache v -> sum_inputs ins h acc st v = Some (r, v') -> is_cache v'.
Proof.
  revert acc v. induction ins as [|i ins IH]; intros acc v Hc E; cbn [sum_inputs] in E; [by injection E as _ <-|].
  pose proof (GetCoin_cache (prevout i) v Hc) as H. unfold AccessCoin in E. destruct (GetCoin (prevout i) v) as [c v1]. cbn [snd] in H.
  destruct (IsSpent _); [done|]. destruct (_ && _); [by injection E as _ <-|].
  destruct (_ || _); [by injection E as _ <-|]. by apply IH in E.
Qed.

Lemma CheckTxInputs_cache tx st h v ok st' v' : is_cache v -> CheckTxInputs tx st h v = Some (ok, st', v') -> is_cache v'.
Proof.
  intros Hc. unfold CheckTxInputs, HaveInputs. pose proof (have_inputs_cache (vin tx) v Hc) as H1.
  assert (H2 : is_cache (snd (if no_inputs tx then (true, v) else have_inputs (vin tx) v))) by by destruct (no_inputs tx).
  destruct (if no_inputs tx then (true, v) else have_inputs (vin tx) v) as [have v1]. cbn [snd] in H2.
  destruct have; cbn [negb]; [|by intros [= _ _ <-]].
  destruct (sum_inputs (vin tx) h 0 st v1) as [[r v2]|] eqn:E; [|done]. apply sum_inputs_cache in E; [|done]. cbn [mbind option_bind].
  destruct r as [n|st1]; [|by intros [= _ _ <-]]. destruct (GetValueOut tx) as [x|]; [|done]. cbn [mbind option_bind].
  repeat (destruct (_ : bool); [by intros [= _ _ <-]|]). by intros [= _ _ <-].
Qed.

Lemma vector_length {A} (f : A -> stream) (l : list A) : (forall x, (1 <= length (f x))%nat) -> (length l <= length (Serialize_vector f l))%nat.
Proof.
  intros Hf. unfold Serialize_vector. rewrite length_app. enough (length l <= length (flat_map f l))%nat by lia.
  induction l as [|x l IH]; cbn; [lia|]. rewrite length_app. specialize (Hf x). lia.
Qed.

Lemma outputs_length tx : (length (vout tx) <= length (SerializeTransaction false tx))%nat.
Proof.
  assert (H : (length (vout tx) <= length (Serialize_vector Serialize_txout (vout tx)))%nat).
  { apply vector_length. intros o. unfold Serialize_txout. rewrite length_app. cbn. lia. }
  unfold SerializeTransaction. cbv zeta. rewrite !length_app. lia.
Qed.

(** The supply of the main network. *)
Lemma issued_range m : 0 <= issued nDefaultSubsidyHalvingInterval main_nPremineSubsidy m <= MAX_MONEY.
Proof.
  split.
  - induction m as [|m IH]; cbn [issued]; [lia|].
    pose proof (subsidy_le nDefaultSubsidyHalvingInterval main_nPremineSubsidy (Z.of_nat m) ltac:(done) ltac:(done) ltac:(lia)). lia.
  - pose proof (issued_bound nDefaultSubsidyHalvingInterval main_nPremineSubsidy m ltac:(done) ltac:(done)) as H.
    pose proof (potential_pos nDefaultSubsidyHalvingInterval (Z.of_nat m) ltac:(done) ltac:(lia)) as Hp. revert H.
    change base_subsidy with 11250000000. unfold MAX_MONEY, COIN. generalize dependent (potential nDefaultSubsidyHalvingInterval (Z.of_nat m)).
    generalize (issued nDefaultSubsidyHalvingInterval main_nPremineSubsidy m). unfold nDefaultSubsidyHalvingInterval, main_nPremineSubsidy. intros x y.
    destruct (m <=? 1)%nat; lia.
Qed.

(** ** Theorems *)

(** C24: CheckTransaction accepts exactly the well-formed transactions (inputs and outputs present, sizes within the limits, every amount and their sum in the money range although the sum is computed in 64 bits, no input twice) whose coinbase script has an allowed length or, for other transactions, whose inputs are named and pass the Sigma and Zerocoin checks, which Sigma transactions cannot above DIP0003Height; every rejection of the structure sets an invalid state with a score of 10 or 100. *)
Theorem check_transaction_exact (Sigma Zerocoin : CMutableTransaction -> CValidationState -> bool * CValidationState) (DIP0003Height : Z)
    (tx : CMutableTransaction) (st : CValidationState) (dup : bool) (nHeight : Z) :
  let r := CheckTransaction Sigma Zerocoin DIP0003Height tx st dup nHeight in
  (fst r = true <-> well_formed tx dup (DIP0003Height <? nHeight) /\
     if IsCoinBase tx then coinbase_ok tx else ordinary_ok Sigma Zerocoin DIP0003Height tx st nHeight) /\
  (well_formed tx dup (DIP0003Height <? nHeight) \/ rejected r st) /\
  (IsCoinBase tx = false \/ coinbase_ok tx \/ rejected r st).
Proof.
  cbn zeta. destruct (CheckTransaction_split Sigma Zerocoin DIP0003Height tx st dup nHeight) as [(Hw & ->)|(Hw & Hr)].
  2:{ split; [|by auto]. split; [|tauto]. destruct Hr as (l & reason & _ & ->). done. }
  unfold kind_check. destruct (IsCoinBase tx) eqn:Ec.
  - pose proof (IsCoinBase_vin tx Ec) as Hv. rewrite check_coinbase_spec by done. split; [tauto|]. split; [by left|]. right.
    destruct (fst (check_coinbase tx st)) eqn:E; [left; by apply (check_coinbase_spec tx st)|right].
    apply check_coinbase_state; [done|]. intros H. apply (check_coinbase_spec tx st Hv) in H. congruence.
  - rewrite check_ordinary_spec. split; [tauto|]. split; by left.
Qed.

(** C25: CheckTxInputs, on any stack of caches, answers without a failed assertion or an exception for outputs in range, leaves the set of unspent outputs as it is, and returns true exactly when every input is an unspent output, coinbase outputs among them are 400 blocks deep, the amounts and their sum are in the money range and the inputs are worth at least the outputs; otherwise the state is invalid. *)
Theorem check_tx_inputs_exact (tx : CMutableTransaction) (st : CValidationState) (nSpendHeight : Z) (v : view) :
  view_wf v -> no_inputs tx = false -> Forall (fun o => 0 <= nValue o <= MAX_MONEY) (vout tx) -> total (vout tx) <= MAX_MONEY ->
  exists ok st' v', CheckTxInputs tx st nSpendHeight v = Some (ok, st', v') /\ view_wf v' /\ same v' v /\
    (ok = true <-> exists cs, funded (utxo v) tx nSpendHeight cs) /\ (ok = true -> st' = st) /\
    (ok = false -> mode st <> MODE_ERROR -> State_IsInvalid st' = true).
Proof. apply CheckTxInputs_spec. Qed.

(** C32: A transaction that passes CheckTransaction and CheckTxInputs and whose outputs are new to the set is applied by UpdateCoins without a failed assertion; the set afterwards is the old one without the inputs and with the outputs, the undo data are the spent coins, and these are worth the outputs and a fee between 0 and MAX_MONEY: no transaction creates value. *)
Theorem checked_transaction_applies (Sigma Zerocoin : CMutableTransaction -> CValidationState -> bool * CValidationState) (DIP0003Height : Z)
    (txid : list Z) (tx : CMutableTransaction) (st st1 : CValidationState) (nHeight : Z) (v v1 : view) :
  is_cache v -> view_wf v -> no_inputs tx = false ->
  fst (CheckTransaction Sigma Zerocoin DIP0003Height tx st true nHeight) = true ->
  CheckTxInputs tx st nHeight v = Some (true, st1, v1) ->
  Forall (fun o => utxo v o = None) (created txid 0 (vout tx)) ->
  exists undo v2, UpdateCoins txid tx nHeight v1 = Some (undo, v2) /\ becomes v2 (connected (utxo v) txid tx nHeight) /\
    Forall2 (fun i c => utxo v (prevout i) = Some c) (vin tx) undo /\ Forall (mature nHeight) undo /\
    0 <= coins_total undo - total (vout tx) <= MAX_MONEY.
Proof.
  intros Hc Hwf Hn Hct Hci Hnew.
  destruct (CheckTransaction_split Sigma Zerocoin DIP0003Height tx st true nHeight) as [(Hw & _)|(_ & (l & r & _ & E))]; [|by rewrite E in Hct].
  destruct Hw as [_ Hsz _ [Hv Ht] Hd]. pose proof (CheckTxInputs_cache _ _ _ _ _ _ _ Hc Hci) as Hc1.
  destruct (CheckTxInputs_spec tx st nHeight v Hwf Hn Hv Ht) as (ok & st2 & v2 & E & Hw1 & Hs1 & Hok & _).
  rewrite Hci in E. injection E as <- <- <-. destruct (proj1 Hok eq_refl) as (cs & [Hcs Hm [Hr Hsum] Hle]).
  assert (Hfit : tx_fits (utxo v1) txid tx).
  { unfold no_inputs in Hn. apply orb_false_iff in Hn as [[[Hcb H1]%orb_false_iff H2]%orb_false_iff H3].
    specialize (Hd eq_refl). unfold spends_mint in Hd. rewrite H1, H2, H3 in Hd. split; [done| | | |].
    - intros _. apply Forall_forall. intros i Hi. destruct (list_elem_of_lookup_1 _ _ Hi) as [k Hk].
      destruct (Forall2_lookup_l _ _ _ _ _ Hcs Hk) as (c & _ & Ec). exists c. by rewrite Hs1.
    - eapply Forall_impl; [exact Hv|]. intros o Ho. cbn beta in Ho. unfold TxOut_IsNull. apply Z.eqb_neq. lia.
    - pose proof (outputs_length tx). unfold MAX_BLOCK_BASE_SIZE in Hsz. lia.
    - eapply Forall_impl; [exact Hnew|]. intros o Ho. cbn. by rewrite Hs1. }
  destruct (UpdateCoins_spec v1 txid tx nHeight Hc1 Hw1 Hfit) as (undo & v2 & -> & Hb & Hu). rewrite Hn in Hu.
  assert (undo = cs) as ->.
  { clear -Hu Hcs Hs1. revert undo Hu. induction Hcs as [|i c l cs Hc _ IH]; intros undo Hu; [by apply Forall2_nil_inv_l in Hu|].
    apply Forall2_cons_inv_l in Hu as (c' & l' & Hc' & Hu & ->). rewrite Hs1 in Hc'. f_equal; [congruence|by apply IH]. }
  exists cs, v2. split; [done|]. split; [apply (becomes_ext _ _ _ Hb), connected_ext, Hs1|]. split; [done|]. split; [done|].
  pose proof (total_nonneg _ Hv). lia.
Qed.

(** C26: Relative lock times: for a block of the index and coins that are not above it, SequenceLocks never dereferences a null ancestor; it returns true exactly when BIP 68 is not enforced or every input meets its own condition, the height of its coin plus its lock at most the height of the block, or the median time past before its coin plus 512 seconds per unit at most that before the block; and it clears the heights of the inputs that opt out. *)
Theorem sequence_locks_bip68 (h : heap) (a : nat) (b : CBlockIndex) (q : nat) (tx : CMutableTransaction) (flags : Z) (prevHeights : list Z) :
  heap_wf h -> h !! a = Some b -> pprev b = Some q -> (forall x bx, h !! x = Some bx -> 0 <= nTime bx) ->
  length prevHeights = length (vin tx) -> Forall (fun ch => 0 <= ch <= Chain.nHeight b + 1) prevHeights ->
  exists ok, SequenceLocks h tx flags prevHeights (Some a)
    = Some (ok, if enforced tx flags then map cleared (zip (vin tx) prevHeights) else prevHeights) /\
    (ok = true <-> (enforced tx flags = true -> Forall (relative_lock_ok h a b) (zip (vin tx) prevHeights))).
Proof. intros Hwf Ha Hq Ht. by apply (SequenceLocks_spec h Hwf a b Ha tx flags prevHeights q). Qed.

(** C27: The supply of the main network: the subsidies of any number of blocks, the premine of block 1 included, sum to at most MAX_MONEY, each is in the money range, and the masternode payment of a block value in range is computed without overflow, is never negative and at most a quarter of it. *)
Theorem supply_bounded (n : nat) :
  let subsidy := GetBlockSubsidy nDefaultSubsidyHalvingInterval main_nPremineSubsidy in
  0 <= issued nDefaultSubsidyHalvingInterval main_nPremineSubsidy n <= MAX_MONEY /\
  MoneyRange (subsidy (Z.of_nat n)) = true /\
  (forall height value, 0 <= value <= MAX_MONEY -> 0 <= GetMasternodePayment height value <= value / 4).
Proof.
  cbn zeta. split; [apply issued_range|]. split.
  - apply MoneyRange_spec. pose proof (issued_range n). pose proof (issued_range (S n)) as H1. cbn [issued] in H1.
    pose proof (subsidy_le nDefaultSubsidyHalvingInterval main_nPremineSubsidy (Z.of_nat n) ltac:(done) ltac:(done) ltac:(lia)). lia.
  - intros height value Hv. unfold GetMasternodePayment.
    destruct (height <? 2520000); [|destruct (height <? 3366000)].
    + destruct (payment_share value 15 100 Hv ltac:(lia) ltac:(lia) ltac:(lia)) as [-> H]. done.
    + destruct (payment_share value 2 10 Hv ltac:(lia) ltac:(lia) ltac:(lia)) as [-> H]. done.
    + destruct (payment_share value 25 100 Hv ltac:(lia) ltac:(lia) ltac:(lia)) as [-> H]. done.
Qed.

(** Above DIP0003Height a transaction that mints Sigma coins is refused, but the state still says that it is valid. *)
Theorem sigma_refused_without_reason (Sigma Zerocoin : CMutableTransaction -> CValidationState -> bool * CValidationState) :
  let tx := mk_tx 1 0 [mk_txin (demo_out 0) [] 0 []] [mk_txout 40 [OP_SIGMAMINT] (-10)] 0 [] in
  CheckTransaction Sigma Zerocoin 450000 tx new_state true 450001 = (false, new_state) /\ State_IsValid new_state = true.
Proof. split; vm_compute; reflexivity. Qed.

(** ** Witnesses *)

Definition demo_payment : CMutableTransaction := mk_tx 2 0 [mk_txin (demo_out 0) [0x51] 1 []] [mk_txout 40 [0x51] (-10)] 0 [].

Lemma demo_payment_outputs : Forall (fun o => 0 <= nValue o <= MAX_MONEY) (vout demo_payment) /\ total (vout demo_payment) <= MAX_MONEY.
Proof. unfold MAX_MONEY, COIN. split; [|cbn; lia]. repeat constructor; cbn; lia. Qed.

Lemma check_tx_inputs_exact_witness : exists v', CheckTxInputs demo_payment new_state 9 demo_view = Some (true, new_state, v').
Proof.
  destruct demo_payment_outputs as [H1 H2].
  destruct (check_tx_inputs_exact demo_payment new_state 9 demo_view demo_view_wf eq_refl H1 H2) as (ok & st' & v' & E & _ & _ & Hok & Hst & _).
  assert (Ht : ok = true); [|rewrite Ht, (Hst Ht) in E; exists v'; exact E].
  apply Hok. exists [demo_coin 50]. split; unfold mature, in_range, MAX_MONEY, COIN; repeat constructor; cbn; try lia; done.
Defined.

Definition accept (tx : CMutableTransaction) (st : CValidationState) : bool * CValidationState := (true, st).

Lemma checked_transaction_applies_witness :
  exists undo v1 v2, CheckTxInputs demo_payment new_state 9 demo_view = Some (true, new_state, v1) /\
    UpdateCoins (replicate 32 2) demo_payment 9 v1 = Some (undo, v2) /\ utxo v2 (demo_out 0) = None /\ coins_total undo - 40 <= MAX_MONEY.
Proof.
  destruct (CheckTxInputs demo_payment new_state 9 demo_view) as [[[ok st1] v1]|] eqn:E; [|vm_compute in E; discriminate E].
  assert (Hok : ok = true /\ st1 = new_state) by (vm_compute in E; injection E as <- <- _; split; reflexivity). destruct Hok as [-> ->].
  destruct (checked_transaction_applies accept accept 450000 (replicate 32 2) demo_payment new_state new_state 9 demo_view v1) as (undo & v2 & E2 & (_ & _ & Hb) & _ & _ & Hf).
  - exact I.
  - exact demo_view_wf.
  - reflexivity.
  - vm_compute. reflexivity.
  - exact E.
  - repeat constructor.
  - exists undo, v1, v2. split; [reflexivity|]. split; [exact E2|]. split; [rewrite Hb; vm_compute; reflexivity|]. apply Hf.
Defined.

Lemma sequence_locks_bip68_witness :
  SequenceLocks (heap_of (demo_node 4)) demo_payment 1 [1] (Some 3%nat) = Some (true, [1]) /\
  exists ok, SequenceLocks (heap_of (demo_node 4)) demo_payment 1 [2] (Some 3%nat) = Some (ok, [2]) /\ ok = false.
Proof.
  destruct (heap_of (demo_node 4) !! 3%nat) as [b|] eqn:E; [|vm_compute in E; discriminate E].
  assert (Hb : pprev b = Some 1%nat /\ Chain.nHeight b = 2) by (vm_compute in E; injection E as <-; split; reflexivity). destruct Hb as [Hq Hh].
  assert (Hwf : heap_wf (heap_of (demo_node 4))) by (apply wn_heap, reachable_wf, demo_reachable; lia).
  assert (Ht : forall x bx, heap_of (demo_node 4) !! x = Some bx -> 0 <= nTime bx).
  { change (map_Forall (fun _ bx => 0 <= nTime bx) (heap_of (demo_node 4))).
    apply (bool_decide_eq_true_1 _). vm_compute. reflexivity. }
  split.
  - destruct (sequence_locks_bip68 _ 3 b 1 demo_payment 1 [1] Hwf E Hq Ht eq_refl) as (ok & -> & Hok); [repeat constructor; lia|].
    f_equal. f_equal. apply Hok. intros _. constructor; [|constructor]. unfold relative_lock_ok. rewrite Hh. vm_compute. discriminate.
  - destruct (sequence_locks_bip68 _ 3 b 1 demo_payment 1 [2] Hwf E Hq Ht eq_refl) as (ok & -> & Hok); [repeat constructor; lia|].
    exists ok. split; [reflexivity|]. destruct ok; [|reflexivity]. exfalso.
    pose proof (proj1 Hok eq_refl eq_refl) as H. apply Forall_cons_1 in H as [H _]. unfold relative_lock_ok in H. rewrite Hh in H. apply H. vm_compute. reflexivity.
Defined.
