(* ===== verification/SignatureHash.v ===== *)
(** * SignatureHash: what a signature signs

    Models the part of script/interpreter.cpp that hashes a transaction for a
    signature: CTransactionSignatureSerializer, the hashes of BIP 143 with their cache
    PrecomputedTransactionData, SignatureHash and
    TransactionSignatureChecker::CheckSig; CHashWriter of hash.h and the length test of
    CPubKey.  The verification of an ECDSA signature, which the secp256k1 library
    computes, is a parameter.

    Positions in a script are the rest of it.  The argument [b] is the uninitialised
    buffer of a new hasher.  [None] is an access outside a vector.

    The serializer that hides parts of a transaction in place writes exactly the
    bytes of a modified copy of it, but for the rest of a push that is cut short;
    so the codec of transactions tells what a signature commits to.  The cache of
    BIP 143 makes no difference. *)

From S2P Require Import Prelude Words Serialize SerializeCorrect CryptoCommon ShaSpec ShaStream Hash HashCorrect Script Interpreter.
From S2P Require Import InterpreterCorrect SerializeVector Transaction TransactionTheorems.

Definition SIGHASH_ALL : Z := 1.
Definition SIGHASH_NONE : Z := 2.
Definition SIGHASH_SINGLE : Z := 3.
Definition SIGHASH_ANYONECANPAY : Z := 0x80.

(** ** CHashWriter: what [operator<<] writes, in order, and [GetHash] *)

Definition CHashWriter (b : list Z) (objs : list stream) : list Z :=
  CHash256_Finalize (fold_left CHash256_Write objs (CHash256 b)).

(** ** CTransactionSignatureSerializer *)

Definition OP_CODESEPARATOR : Z := 0xab.

(** Where [pc] is left when GetOp fails. *)
Definition GetOp_stop (pc : list Z) : list Z :=
  match pc with
  | [] => []
  | opcode :: pc => match operand_size opcode pc with None => pc | Some (_, pc) => pc end
  end.

(** The first loop counts the separators. *)
Fixpoint count_separators (fuel : nat) (it : list Z) (nCodeSeparators : Z) : Z :=
  match fuel with
  | O => nCodeSeparators
  | S fuel =>
      match GetOp it with
      | None => nCodeSeparators
      | Some (opcode, _, it) => count_separators fuel it (if opcode =? OP_CODESEPARATOR then nCodeSeparators + 1 else nCodeSeparators)
      end
  end.

(** The second loop writes what is between them: the bytes, [itBegin] and [it] at the end. *)
Fixpoint code_loop (fuel : nat) (itBegin it : list Z) : list Z * list Z * list Z :=
  match fuel with
  | O => ([], itBegin, it)
  | S fuel =>
      match GetOp it with
      | None => ([], itBegin, GetOp_stop it)
      | Some (opcode, _, it) =>
          if opcode =? OP_CODESEPARATOR then
            let '(s, itBegin', it') := code_loop fuel it it in
            (take (length itBegin - length it - 1) itBegin ++ s, itBegin', it')
          else code_loop fuel itBegin it
      end
  end.

Definition SerializeScriptCode (scriptCode : list Z) : stream :=
  let fuel := S (length scriptCode) in
  let nCodeSeparators := count_separators fuel scriptCode 0 in
  let '(s, itBegin, it) := code_loop fuel scriptCode scriptCode in
  WriteCompactSize (Z.of_nat (length scriptCode) - nCodeSeparators) ++ s ++
  (match itBegin with [] => [] | _ => take (length itBegin - length it) itBegin end).

Section serializer.
Context (txTo : CMutableTransaction) (scriptCode : list Z) (nIn : nat) (nHashType : Z).

Definition fAnyoneCanPay : bool := negb (Z.land nHashType SIGHASH_ANYONECANPAY =? 0).
Definition fHashSingle : bool := Z.land nHashType 0x1f =? SIGHASH_SINGLE.
Definition fHashNone : bool := Z.land nHashType 0x1f =? SIGHASH_NONE.

Definition SerializeInput (nInput : nat) : option stream :=
  let nInput := if fAnyoneCanPay then nIn else nInput in
  i ← vin txTo !! nInput;
  Some (Serialize_outpoint (prevout i) ++
        (if negb (nInput =? nIn)%nat then Serialize_bytes [] else SerializeScriptCode scriptCode) ++
        (if negb (nInput =? nIn)%nat && (fHashSingle || fHashNone) then ser_writedata32 0 else ser_writedata32 (nSequence i))).

Definition SerializeOutput (nOutput : nat) : option stream :=
  if fHashSingle && negb (nOutput =? nIn)%nat then Some (Serialize_txout txout_null)
  else o ← vout txTo !! nOutput; Some (Serialize_txout o).

Definition Serialize_for_signature : option stream :=
  let nInputs := if fAnyoneCanPay then 1%nat else length (vin txTo) in
  let nOutputs := if fHashNone then 0%nat else if fHashSingle then (nIn + 1)%nat else length (vout txTo) in
  ins ← mapM SerializeInput (seq 0 nInputs);
  outs ← mapM SerializeOutput (seq 0 nOutputs);
  Some (ser_writedata32 (n32bitVersion txTo) ++
        WriteCompactSize (Z.of_nat nInputs) ++ concat ins ++
        WriteCompactSize (Z.of_nat nOutputs) ++ concat outs ++
        ser_writedata32 (nLockTime txTo) ++
        (if has_payload (nVersion txTo) (nType txTo) then Serialize_bytes (vExtraPayload txTo) else [])).
End serializer.

(** ** The hashes of BIP 143 *)

Definition GetPrevoutHash (b : list Z) (txTo : CMutableTransaction) : list Z := CHashWriter b (map (fun i => Serialize_outpoint (prevout i)) (vin txTo)).
Definition GetSequenceHash (b : list Z) (txTo : CMutableTransaction) : list Z := CHashWriter b (map (fun i => ser_writedata32 (nSequence i)) (vin txTo)).
Definition GetOutputsHash (b : list Z) (txTo : CMutableTransaction) : list Z := CHashWriter b (map Serialize_txout (vout txTo)).

Record PrecomputedTransactionData := mk_precomputed { hashPrevouts : list Z; hashSequence : list Z; hashOutputs : list Z }.

Definition Precompute (b : list Z) (txTo : CMutableTransaction) : PrecomputedTransactionData :=
  mk_precomputed (GetPrevoutHash b txTo) (GetSequenceHash b txTo) (GetOutputsHash b txTo).

(** [uint256S("00...01")] in memory order. *)
Definition one : list Z := 1 :: replicate 31 0.

Definition SignatureHash (b : list Z) (scriptCode : list Z) (txTo : CMutableTransaction) (nIn : nat) (nHashType amount : Z)
    (sigversion : SigVersion) (cache : option PrecomputedTransactionData) : option (list Z) :=
  match sigversion with
  | SIGVERSION_WITNESS_V0 =>
      let hp := if negb (fAnyoneCanPay nHashType)
                then match cache with Some c => hashPrevouts c | None => GetPrevoutHash b txTo end else null256 in
      let hs := if negb (fAnyoneCanPay nHashType) && negb (fHashSingle nHashType) && negb (fHashNone nHashType)
                then match cache with Some c => hashSequence c | None => GetSequenceHash b txTo end else null256 in
      let ho := if negb (fHashSingle nHashType) && negb (fHashNone nHashType)
                then match cache with Some c => hashOutputs c | None => GetOutputsHash b txTo end
                else match (if fHashSingle nHashType then vout txTo !! nIn else None) with
                     | Some o => CHashWriter b [Serialize_txout o]
                     | None => null256
                     end in
      i ← vin txTo !! nIn;
      Some (CHashWriter b [ser_writedata32 (nVersion txTo); hp; hs; Serialize_outpoint (prevout i); Serialize_bytes scriptCode;
                           ser_writedata64 amount; ser_writedata32 (nSequence i); ho; ser_writedata32 (nLockTime txTo); ser_writedata32 nHashType])
  | SIGVERSION_BASE =>
      if (length (vin txTo) <=? nIn)%nat then Some one else
      if fHashSingle nHashType && (length (vout txTo) <=? nIn)%nat then Some one else
      s ← Serialize_for_signature txTo scriptCode nIn nHashType;
      Some (CHashWriter b [s; ser_writedata32 nHashType])
  end.

(** ** CPubKey and CheckSig *)

Definition GetLen (chHeader : Z) : nat :=
  if (chHeader =? 2) || (chHeader =? 3) then 33%nat
  else if (chHeader =? 4) || (chHeader =? 6) || (chHeader =? 7) then 65%nat
  else 0%nat.

(** The constructor keeps a vector of the length its first byte asks for and is invalid otherwise. *)
Definition CPubKey (vch : list Z) : option (list Z) :=
  match vch with
  | [] => None
  | c :: _ => if (0 <? GetLen c)%nat && (GetLen c =? length vch)%nat then Some vch else None
  end.

Section checker.
(** [CPubKey::Verify]. *)
Context (Verify : list Z -> list Z -> list Z -> bool).

(** TransactionSignatureChecker, with the transaction, the input, the amount and the cache. *)
Definition tx_CheckSig (b : list Z) (txTo : CMutableTransaction) (nIn : nat) (amount : Z) (txdata : option PrecomputedTransactionData)
    (vchSigIn vchPubKey scriptCode : list Z) (sigversion : SigVersion) : option bool :=
  match CPubKey vchPubKey with
  | None => Some false
  | Some pubkey =>
      match vchSigIn with
      | [] => Some false
      | _ =>
          let nHashType := List.last vchSigIn 0 in
          let vchSig := removelast vchSigIn in
          sighash ← SignatureHash b scriptCode txTo nIn nHashType amount sigversion txdata;
          Some (Verify pubkey sighash vchSig)
      end
  end.

(** The checker of an input of the transaction. *)
Definition TransactionSignatureChecker (b : list Z) (txTo : CMutableTransaction) (nIn : nat) (amount : Z) (txdata : option PrecomputedTransactionData) : checker :=
  let i := nth nIn (vin txTo) (mk_txin outpoint_null [] SEQUENCE_FINAL []) in
  mk_checker (fun sig key code sv => default false (tx_CheckSig b txTo nIn amount txdata sig key code sv))
             (tx_CheckLockTime (nLockTime txTo) (nSequence i))
             (tx_CheckSequence (nVersion txTo) (nSequence i)).
End checker.

Lemma CHashWriter_spec b objs : length b = 64%nat -> CHashWriter b objs = sha256 (sha256 (concat objs)).
Proof.
  intros Hb. unfold CHashWriter. apply CHash256_Finalize_rep. apply (represents_writes _ _ _ [] objs). by split.
Qed.

(** ** Scripts without separators *)

(** The script is a sequence of instructions up to its end. *)
Fixpoint parses (fuel : nat) (it : list Z) : bool :=
  match fuel, it with
  | _, [] => true
  | O, _ => false
  | S fuel, _ => match GetOp it with None => false | Some (_, _, it) => parses fuel it end
  end.

(** Its instructions other than OP_CODESEPARATOR, up to the first that is cut
    short, of which the opcode and the size are read. *)
Fixpoint without_separators (fuel : nat) (it : list Z) : list Z :=
  match fuel with
  | O => []
  | S fuel =>
      match GetOp it with
      | None => take (length it - length (GetOp_stop it)) it
      | Some (opcode, _, it') =>
          (if opcode =? OP_CODESEPARATOR then [] else take (length it - length it') it) ++ without_separators fuel it'
      end
  end.

(** What is left of the script behind that. *)
Fixpoint not_read (fuel : nat) (it : list Z) : list Z :=
  match fuel with
  | O => []
  | S fuel => match GetOp it with None => GetOp_stop it | Some (_, _, it') => not_read fuel it' end
  end.

Definition script_parses (code : list Z) : bool := parses (length code) code.
Definition strip_code (code : list Z) : list Z := without_separators (length code) code.
Definition unread (code : list Z) : list Z := not_read (length code) code.

Lemma GetOp_stop_suffix it : exists ins, it = ins ++ GetOp_stop it.
Proof.
  destruct it as [|c pc]; [by exists []|]. cbn [GetOp_stop]. unfold operand_size. destruct (c <? OP_PUSHDATA1); [by exists [c]|].
  destruct (c =? OP_PUSHDATA1); [destruct pc as [|n pc]; [by exists [c]|by exists [c; n]]|].
  destruct (c =? OP_PUSHDATA2); (destruct (_ <? _)%nat; [by exists [c]|]).
  - exists (c :: take 2 pc). cbn [app]. by rewrite take_drop.
  - exists (c :: take 4 pc). cbn [app]. by rewrite take_drop.
Qed.

Lemma parses_all_read n it : parses n it = true -> (length it <= n)%nat -> not_read n it = [].
Proof.
  revert it. induction n as [|n IH]; intros it Hp Hl; [done|]. cbn [not_read]. destruct (GetOp it) as [[[op d] it']|] eqn:E.
  - pose proof (GetOp_shorter _ _ _ _ E). apply IH; [|lia]. destruct it; [done|]. cbn [parses] in Hp. by rewrite E in Hp.
  - destruct it; [done|]. cbn [parses] in Hp. by rewrite E in Hp.
Qed.

Lemma GetOp_instruction it op d it' : GetOp it = Some (op, d, it') -> exists ins, it = ins ++ it' /\ ins <> [] /\ (op = OP_CODESEPARATOR -> ins = [op]).
Proof.
  intros H. destruct (GetOp_suffix _ _ _ _ H) as (k & j & E & Hk). exists (k ++ d ++ j). split; [by rewrite <-!app_assoc|].
  split; [by destruct k|]. intros ->. unfold GetOp in H. destruct it as [|c pc]; [done|].
  destruct (Z.leb_spec c OP_PUSHDATA4) as [Hc|Hc].
  - destruct (operand_size c pc) as [[n pc']|]; [|done]. destruct (_ <? n); [done|]. injection H as H1 _ _. subst c. unfold OP_CODESEPARATOR, OP_PUSHDATA4 in Hc. lia.
  - destruct (_ || _) eqn:Es.
    + injection H as H1 _ _. subst c. vm_compute in Es. discriminate Es.
    + injection H as -> <- <-. rewrite !app_assoc in E. change (OP_CODESEPARATOR :: pc) with ([OP_CODESEPARATOR] ++ pc) in E. apply app_inv_tail in E.
      rewrite <-app_assoc in E. by rewrite <-E.
Qed.

Lemma take_instruction (ins it' : list Z) : take (length (ins ++ it') - length it') (ins ++ it') = ins.
Proof. rewrite length_app. replace (length ins + length it' - length it')%nat with (length ins) by lia. apply take_app_length. Qed.

Lemma GetOp_nonempty it r : GetOp it = Some r -> it <> [].
Proof. by destruct it. Qed.

(** The second loop, started [pre] before [it]. *)
Lemma code_loop_spec n it pre fuel : (length it <= n)%nat -> (n < fuel)%nat ->
  exists s itBegin, code_loop fuel (pre ++ it) it = (s, itBegin, not_read n it) /\
    s ++ take (length itBegin - length (not_read n it)) itBegin = pre ++ without_separators n it.
Proof.
  revert it pre fuel. induction n as [|n IH]; intros it pre fuel Hl Hf; (destruct fuel as [|fuel]; [lia|]); cbn [code_loop].
  { destruct it; [|cbn in Hl; lia]. cbn. exists [], pre. rewrite !app_nil_r, Nat.sub_0_r, firstn_all. done. }
  cbn [without_separators not_read]. destruct (GetOp it) as [[[op d] it']|] eqn:E.
  - destruct (GetOp_instruction _ _ _ _ E) as (ins & Ei & Hne & Hsep).
    pose proof (GetOp_shorter _ _ _ _ E). destruct (Z.eqb_spec op OP_CODESEPARATOR) as [->|Hop].
    + specialize (Hsep eq_refl). subst ins it. destruct (IH it' [] fuel ltac:(cbn in Hl; lia) ltac:(lia)) as (s & b & Ec & Es). cbn [app] in Ec. rewrite Ec.
      exists (pre ++ s), b. split; [|by rewrite <-app_assoc, Es]. do 2 f_equal. f_equal. rewrite !length_app. cbn [length].
      replace (length pre + (1 + length it') - length it' - 1)%nat with (length pre) by lia. apply take_app_length.
    + destruct (IH it' (pre ++ ins) fuel ltac:(lia) ltac:(lia)) as (s & b & Ec & Es). rewrite Ei, app_assoc, Ec. exists s, b.
      split; [done|]. by rewrite Es, <-app_assoc, take_instruction.
  - exists [], (pre ++ it). split; [done|]. destruct (GetOp_stop_suffix it) as (ins & Ei). revert Ei. generalize (GetOp_stop it) as st. intros st ->.
    cbn [app]. by rewrite take_instruction, app_assoc, take_instruction.
Qed.

Lemma count_separators_spec n it c fuel : (length it <= n)%nat -> (n < fuel)%nat ->
  count_separators fuel it c = c + Z.of_nat (length it) - Z.of_nat (length (without_separators n it)) - Z.of_nat (length (not_read n it)).
Proof.
  revert it c fuel. induction n as [|n IH]; intros it c fuel Hl Hf; (destruct fuel as [|fuel]; [lia|]); cbn [count_separators].
  { destruct it; [|cbn in Hl; lia]. cbn. lia. }
  cbn [without_separators not_read]. destruct (GetOp it) as [[[op d] it']|] eqn:E.
  - destruct (GetOp_instruction _ _ _ _ E) as (ins & Ei & Hne & Hsep).
    pose proof (GetOp_shorter _ _ _ _ E). rewrite (IH it') by lia. rewrite length_app.
    destruct (Z.eqb_spec op OP_CODESEPARATOR) as [->|Hop].
    + specialize (Hsep eq_refl). subst ins it. cbn [app length]. lia.
    + rewrite Ei, take_instruction, length_app. lia.
  - destruct (GetOp_stop_suffix it) as (ins & Ei). assert (length it = length ins + length (GetOp_stop it))%nat by (rewrite Ei at 1; apply length_app).
    rewrite length_take. lia.
Qed.

(** The announced length counts all bytes but the separators; the bytes end
    where an instruction is cut short. *)
Lemma SerializeScriptCode_spec code :
  SerializeScriptCode code = WriteCompactSize (Z.of_nat (length (strip_code code ++ unread code))) ++ strip_code code.
Proof.
  unfold SerializeScriptCode, strip_code, unread. rewrite (count_separators_spec (length code) code 0) by lia.
  destruct (code_loop_spec (length code) code [] (S (length code)) ltac:(lia) ltac:(lia)) as (s & b & E & Es). cbn [app] in E, Es. rewrite E.
  rewrite length_app. rewrite <-Es at 3. f_equal; [f_equal; lia|]. f_equal. destruct b; [by rewrite take_nil|done].
Qed.

(** ** The modified copy *)

Section copy.
Context (tx : CMutableTransaction) (code : list Z) (nIn : nat) (nHashType : Z).
Abbreviation any := (fAnyoneCanPay nHashType).
Abbreviation single := (fHashSingle nHashType).
Abbreviation none := (fHashNone nHashType).

(** Only the script of the signed input stays, as [code]; SIGHASH_SINGLE and
    SIGHASH_NONE clear the other sequence numbers. *)
Definition blank_in (i : CTxIn) : CTxIn := mk_txin (prevout i) [] (if single || none then 0 else nSequence i) [].
Definition copy_in (k : nat) (i : CTxIn) : CTxIn := if (k =? nIn)%nat then mk_txin (prevout i) code (nSequence i) [] else blank_in i.

Definition copy_vin : list CTxIn :=
  if any then match vin tx !! nIn with Some i => [copy_in nIn i] | None => [] end else imap copy_in (vin tx).

Definition copy_vout : list CTxOut :=
  if none then [] else
  if single then replicate nIn txout_null ++ (match vout tx !! nIn with Some o => [o] | None => [] end) else vout tx.

Definition signed_copy : CMutableTransaction :=
  mk_tx (nVersion tx) (nType tx) copy_vin copy_vout (nLockTime tx) (vExtraPayload tx).
End copy.

Lemma mapM_imap {A B} (f : nat -> option B) (g : nat -> A -> B) (l : list A) (k : nat) :
  (forall j x, l !! j = Some x -> f (k + j)%nat = Some (g (k + j)%nat x)) -> mapM f (seq k (length l)) = Some (imap (fun j => g (k + j)%nat) l).
Proof.
  revert k. induction l as [|x l IH]; intros k H; [done|]. cbn [length seq mapM]. pose proof (H 0%nat x eq_refl) as H0. rewrite Nat.add_0_r in H0. rewrite H0.
  cbn [mbind option_bind]. rewrite IH.
  - cbn [mbind option_bind imap]. rewrite Nat.add_0_r. f_equal. f_equal. apply imap_ext. intros j y _. cbn. f_equal. lia.
  - intros j y Hj. replace (S k + j)%nat with (k + S j)%nat by lia. by apply H.
Qed.

Lemma flat_imap {A B C} (f : B -> list C) (g : nat -> A -> B) (l : list A) : flat_map f (imap g l) = concat (imap (fun j x => f (g j x)) l).
Proof. revert g. induction l as [|x l IH]; intros g; [done|]. cbn [imap flat_map concat]. f_equal. rewrite IH. done. Qed.

Lemma mapM_null_outputs tx nIn nHashType m k : fHashSingle nHashType = true -> (k + m <= nIn)%nat ->
  mapM (SerializeOutput tx nIn nHashType) (seq k m) = Some (replicate m (Serialize_txout txout_null)).
Proof.
  intros Hs. revert k. induction m as [|m IH]; intros k Hk; [done|]. 
  assert (E : SerializeOutput tx nIn nHashType k = Some (Serialize_txout txout_null)).
  { unfold SerializeOutput. rewrite Hs. destruct (Nat.eqb_spec k nIn); [lia|done]. }
  cbn [seq mapM replicate]. rewrite E. cbn [mbind option_bind]. rewrite IH by lia. done.
Qed.

Section copy_spec.
Context (tx : CMutableTransaction) (nIn : nat) (nHashType : Z) (i : CTxIn).
Context (Hi : vin tx !! nIn = Some i).
Context (Hout : fHashSingle nHashType = true -> (nIn < length (vout tx))%nat).

Lemma single_none : fHashSingle nHashType = true -> fHashNone nHashType = false.
Proof. unfold fHashSingle, fHashNone. rewrite Z.eqb_eq. intros ->. done. Qed.

(** The bytes of the copy before and after the script of the signed input. *)
Definition blanked (l : list CTxIn) : stream := if fAnyoneCanPay nHashType then [] else flat_map (fun i => Serialize_txin (blank_in nHashType i)) l.
Definition message_before : stream :=
  ser_writedata32 (n32bitVersion tx) ++ WriteCompactSize (if fAnyoneCanPay nHashType then 1 else Z.of_nat (length (vin tx))) ++
  blanked (take nIn (vin tx)) ++ Serialize_outpoint (prevout i).
Definition message_after : stream :=
  ser_writedata32 (nSequence i) ++ blanked (drop (S nIn) (vin tx)) ++ Serialize_vector Serialize_txout (copy_vout tx nIn nHashType) ++
  ser_writedata32 (nLockTime tx) ++ (if has_payload (nVersion tx) (nType tx) then Serialize_bytes (vExtraPayload tx) else []).

Lemma vin_split : vin tx = take nIn (vin tx) ++ i :: drop (S nIn) (vin tx) /\ length (take nIn (vin tx)) = nIn.
Proof.
  pose proof (lookup_lt_Some _ _ _ Hi). split; [by rewrite take_drop_middle|]. rewrite length_take. lia.
Qed.

(** What is said of every input but the signed one, from place [k] on. *)
Lemma mapM_blank code l k : fAnyoneCanPay nHashType = false -> (forall j x, l !! j = Some x -> vin tx !! (k + j)%nat = Some x) ->
  (k + length l <= nIn \/ nIn < k)%nat ->
  mapM (SerializeInput tx code nIn nHashType) (seq k (length l)) = Some (map (fun i => Serialize_txin (blank_in nHashType i)) l).
Proof.
  intros Ha. revert k. induction l as [|x l IH]; intros k Hl Hk; [done|]. cbn [length seq mapM map].
  assert (E : SerializeInput tx code nIn nHashType k = Some (Serialize_txin (blank_in nHashType x))).
  { unfold SerializeInput. rewrite Ha. pose proof (Hl 0%nat x eq_refl) as Hx. rewrite Nat.add_0_r in Hx. rewrite Hx. cbn [mbind option_bind].
    destruct (Nat.eqb_spec k nIn) as [->|]; [cbn [length] in Hk; lia|]. cbn [negb andb]. unfold blank_in, Serialize_txin. cbn [prevout scriptSig nSequence].
    by destruct (_ || _). }
  rewrite E. cbn [mbind option_bind]. rewrite (IH (S k)); [done| |cbn [length] in Hk; lia].
  intros j y Hj. replace (S k + j)%nat with (k + S j)%nat by lia. by apply Hl.
Qed.

Lemma mapM_app_some {A B} (f : A -> option B) l1 l2 r1 r2 : mapM f l1 = Some r1 -> mapM f l2 = Some r2 -> mapM f (l1 ++ l2) = Some (r1 ++ r2).
Proof.
  revert r1. induction l1 as [|x l1 IH]; intros r1; cbn [app mapM]; [intros [= <-]; done|].
  destruct (f x) as [y|]; [|done]. cbn [mbind option_bind]. destruct (mapM f l1) as [ys|]; [|done]. cbn [mbind option_bind]. intros [= <-] H2.
  rewrite (IH ys eq_refl H2). done.
Qed.

Lemma inputs_bytes code : exists ins,
  mapM (SerializeInput tx code nIn nHashType) (seq 0 (if fAnyoneCanPay nHashType then 1 else length (vin tx))) = Some ins /\
  concat ins = blanked (take nIn (vin tx)) ++ Serialize_outpoint (prevout i) ++ SerializeScriptCode code ++ ser_writedata32 (nSequence i) ++ blanked (drop (S nIn) (vin tx)).
Proof.
  assert (Es : forall k, (if fAnyoneCanPay nHashType then nIn else k) = nIn ->
    SerializeInput tx code nIn nHashType k = Some (Serialize_outpoint (prevout i) ++ SerializeScriptCode code ++ ser_writedata32 (nSequence i))).
  { intros k E. unfold SerializeInput. rewrite E, Hi. cbn [mbind option_bind]. by rewrite Nat.eqb_refl. }
  unfold blanked. destruct (fAnyoneCanPay nHashType) eqn:Ha.
  - eexists. cbn [seq mapM]. rewrite Es by done. cbn [mbind option_bind]. split; [done|]. cbn [concat]. by rewrite !app_nil_r.
  - destruct vin_split as [Ev El]. set (l1 := take nIn (vin tx)) in *. set (l2 := drop (S nIn) (vin tx)) in *.
    pose proof (mapM_blank code l1 0 Ha) as H1. pose proof (mapM_blank code l2 (S nIn) Ha) as H2. eexists. split.
    + rewrite Ev, length_app. cbn [length]. rewrite seq_app. apply mapM_app_some; [apply H1|].
      * intros j x Hj. rewrite Ev. by apply lookup_app_l_Some.
      * lia.
      * cbn [seq mapM Nat.add]. rewrite El, Es by done. cbn [mbind option_bind]. rewrite H2; [done| |lia].
        intros j x Hj. rewrite Ev, lookup_app_r by lia. replace (S nIn + j - length l1)%nat with (S j) by lia. exact Hj.
    + rewrite concat_app. cbn [concat]. rewrite !flat_map_concat_map, <-!app_assoc. done.
Qed.

Lemma outputs_copy : let n := (if fHashNone nHashType then 0 else if fHashSingle nHashType then nIn + 1 else length (vout tx))%nat in
  mapM (SerializeOutput tx nIn nHashType) (seq 0 n) = Some (map Serialize_txout (copy_vout tx nIn nHashType)) /\
  length (copy_vout tx nIn nHashType) = n.
Proof.
  cbn zeta. unfold copy_vout. destruct (fHashNone nHashType) eqn:En; [done|]. destruct (fHashSingle nHashType) eqn:Es.
  - destruct (lookup_lt_is_Some_2 (vout tx) nIn (Hout eq_refl)) as [o Ho]. rewrite Ho. split; [|by rewrite length_app, length_replicate].
    rewrite seq_app, map_app. change (map Serialize_txout (replicate nIn txout_null)) with (Serialize_txout <$> replicate nIn txout_null). rewrite fmap_replicate. cbn [seq map Nat.add].
    assert (E : SerializeOutput tx nIn nHashType nIn = Some (Serialize_txout o)).
    { unfold SerializeOutput. rewrite Es, Nat.eqb_refl. cbn [negb andb]. by rewrite Ho. }
    pose proof (mapM_null_outputs tx nIn nHashType nIn 0 Es ltac:(lia)) as Hn. revert Hn. generalize (seq 0 nIn), (replicate nIn (Serialize_txout txout_null)).
    intros l. induction l as [|k l IH]; intros r; cbn [app mapM].
    + intros [= <-]. cbn [app]. by rewrite E.
    + destruct (SerializeOutput tx nIn nHashType k) as [x|]; [|done]. cbn [mbind option_bind]. destruct (mapM _ l) as [xs|]; [|done].
      cbn [mbind option_bind]. intros [= <-]. rewrite (IH xs eq_refl). done.
  - split; [|done]. rewrite (mapM_imap _ (fun _ o => Serialize_txout o) (vout tx) 0).
    + f_equal. apply (imap_const Serialize_txout).
    + intros j x Hj. cbn [Nat.add]. unfold SerializeOutput. rewrite Es. cbn [andb]. by rewrite Hj.
Qed.

(** The serializer writes the bytes of the copy, with the script code as it
    serializes it. *)
Lemma Serialize_for_signature_bytes code :
  Serialize_for_signature tx code nIn nHashType = Some (message_before ++ SerializeScriptCode code ++ message_after).
Proof.
  unfold Serialize_for_signature. destruct (inputs_bytes code) as (ins & E1 & Ec), outputs_copy as [E2 L2]. rewrite E1, E2. cbn [mbind option_bind]. f_equal.
  rewrite Ec. unfold message_before, message_after, Serialize_vector. rewrite L2, flat_map_concat_map, <-!app_assoc.
  by destruct (fAnyoneCanPay nHashType).
Qed.

Lemma signed_copy_bytes c :
  SerializeTransaction false (signed_copy tx c nIn nHashType) = message_before ++ Serialize_bytes c ++ message_after.
Proof.
  unfold SerializeTransaction, signed_copy, message_before, message_after. cbn [andb negb Z.eqb app vin vout nLockTime nVersion nType vExtraPayload]. unfold Serialize_vector at 1.
  rewrite <-!app_assoc. f_equal. unfold copy_vin, blanked. rewrite Hi. destruct (fAnyoneCanPay nHashType).
  - cbn [length flat_map app]. unfold copy_in. rewrite Nat.eqb_refl. unfold Serialize_txin. cbn [prevout scriptSig nSequence]. by rewrite <-!app_assoc.
  - rewrite length_imap. f_equal. destruct vin_split as [Ev El]. rewrite Ev at 1. rewrite imap_app. cbn [imap]. rewrite flat_map_app. cbn [flat_map]. rewrite Nat.add_0_r, El.
    assert (Eb : forall l k, (k + length l <= nIn \/ nIn < k)%nat -> imap (fun j => copy_in c nIn nHashType (k + j)) l = map (blank_in nHashType) l).
    { intros l k Hk. change (map (blank_in nHashType) l) with (blank_in nHashType <$> l). rewrite <-(imap_const (blank_in nHashType) l). apply imap_ext. intros j x Hj. apply lookup_lt_Some in Hj. unfold copy_in. destruct (Nat.eqb_spec (k + j) nIn); [lia|done]. }
    rewrite (Eb _ 0%nat) by lia. unfold copy_in at 1. rewrite Nat.eqb_refl. unfold Serialize_txin at 2. cbn [prevout scriptSig nSequence].
    rewrite (imap_ext _ (fun j => copy_in c nIn nHashType (S nIn + j))) by (intros j x _; cbn; f_equal; lia). rewrite (Eb _ (S nIn)) by lia.
    rewrite !flat_map_concat_map, !map_map, <-!app_assoc. done.
Qed.
End copy_spec.

(** ** Theorems *)

(** The parts of a transaction that a signature of a type leaves open, as BIP 143 hashes them. *)
Definition dsha (msg : list Z) : list Z := sha256 (sha256 msg).

Definition bip143 (tx : CMutableTransaction) (code : list Z) (nIn : nat) (i : CTxIn) (nHashType amount : Z) : list Z :=
  let any := fAnyoneCanPay nHashType in
  let single := fHashSingle nHashType in
  let none := fHashNone nHashType in
  ser_writedata32 (nVersion tx) ++
  (if any then null256 else dsha (flat_map (fun i => Serialize_outpoint (prevout i)) (vin tx))) ++
  (if any || single || none then null256 else dsha (flat_map (fun i => ser_writedata32 (nSequence i)) (vin tx))) ++
  Serialize_outpoint (prevout i) ++ Serialize_bytes code ++ ser_writedata64 amount ++ ser_writedata32 (nSequence i) ++
  (if single then match vout tx !! nIn with Some o => dsha (Serialize_txout o) | None => null256 end
   else if none then null256 else dsha (flat_map Serialize_txout (vout tx))) ++
  ser_writedata32 (nLockTime tx) ++ ser_writedata32 nHashType.

Lemma app_inj_tail_length {A} (p p' q q' : list A) : length q = length q' -> p ++ q = p' ++ q' -> p = p' /\ q = q'.
Proof. intros Hl E. apply app_inj_2 in E; tauto. Qed.

(** C15: The signature hash of the original format, for an input of a transaction, with an output of the same index if the type is SIGHASH_SINGLE, is the double SHA-256 of a modified copy of the transaction and of the hash type, although nothing is copied: the scripts of the other inputs blanked, the signed input with the script code without its separators, and outputs, sequence numbers and inputs cleared as SIGHASH_NONE, SIGHASH_SINGLE and SIGHASH_ANYONECANPAY say.  This holds for every script code in which no push is cut short; in one with such a push, the bytes behind its opcode and size, [unread], are missing from the message, while the length in front of the script still counts them.  Two copies of one hash type, with fields in the ranges of the format, that have equal bytes are equal; with SIGHASH_ALL a copy keeps all outputs, outpoints and sequence numbers, so that its bytes determine the version, the type and payload, all outpoints, sequence numbers, outputs and the lock time. *)
Theorem legacy_sighash_commits (b : list Z) (tx tx' : CMutableTransaction) (code code' : list Z) (nIn nIn' : nat) (i : CTxIn) (nHashType amount : Z)
    (cache : option PrecomputedTransactionData) :
  length b = 64%nat -> vin tx !! nIn = Some i -> (fHashSingle nHashType = true -> (nIn < length (vout tx))%nat) ->
  let script := strip_code code ++ unread code in
  let before := message_before tx nIn nHashType i ++ WriteCompactSize (Z.of_nat (length script)) ++ strip_code code in
  let after := message_after tx nIn nHashType i in
  let copy := signed_copy tx script nIn nHashType in
  let copy' := signed_copy tx' code' nIn' nHashType in
  (SerializeTransaction false copy = before ++ unread code ++ after /\
   SignatureHash b code tx nIn nHashType amount SIGVERSION_BASE cache = Some (dsha (before ++ after ++ ser_writedata32 nHashType))) /\
  (script_parses code = true ->
   SignatureHash b code tx nIn nHashType amount SIGVERSION_BASE cache
   = Some (dsha (SerializeTransaction false (signed_copy tx (strip_code code) nIn nHashType) ++ ser_writedata32 nHashType))) /\
  (tx_ok false copy -> tx_ok false copy' ->
   SerializeTransaction false copy ++ ser_writedata32 nHashType = SerializeTransaction false copy' ++ ser_writedata32 nHashType -> copy = copy') /\
  (nHashType = SIGHASH_ALL -> vout copy = vout tx /\ map prevout (vin copy) = map prevout (vin tx) /\ map nSequence (vin copy) = map nSequence (vin tx)).
Proof.
  intros Hb Hi Hout script before after copy copy'.
  assert (Hc : forall c, SerializeTransaction false (signed_copy tx c nIn nHashType) = message_before tx nIn nHashType i ++ Serialize_bytes c ++ after)
    by (intros c; by apply signed_copy_bytes).
  assert (Hs : SignatureHash b code tx nIn nHashType amount SIGVERSION_BASE cache = Some (dsha (before ++ after ++ ser_writedata32 nHashType))).
  { unfold SignatureHash. pose proof (lookup_lt_Some _ _ _ Hi). destruct (Nat.leb_spec (length (vin tx)) nIn); [lia|].
    assert (Es : fHashSingle nHashType && (length (vout tx) <=? nIn)%nat = false).
    { destruct (fHashSingle nHashType); [|done]. apply Nat.leb_gt. by apply Hout. }
    rewrite Es, (Serialize_for_signature_bytes tx nIn nHashType i) by done. cbn [mbind option_bind]. rewrite CHashWriter_spec by done. cbn [concat].
    rewrite app_nil_r, SerializeScriptCode_spec. unfold before, after, script, dsha. by rewrite <-!app_assoc. }
  split; [|split; [|split]].
  - split; [|exact Hs]. unfold copy. rewrite Hc. unfold Serialize_bytes, before, script. by rewrite <-!app_assoc.
  - intros Hp. rewrite Hs, Hc. unfold before, script, unread. rewrite (parses_all_read _ _ Hp) by lia. unfold Serialize_bytes, dsha.
    by rewrite app_nil_r, <-!app_assoc.
  - intros Hok Hok' E. apply app_inj_tail_length in E as [E _]; [|done].
    pose proof (transaction_round_trip 1 1 1 ltac:(lia) false) as Hrt.
    pose proof (round_trip (RoundTrip := Hrt) copy [] Hok) as H1. pose proof (round_trip (RoundTrip := Hrt) copy' [] Hok') as H2.
    rewrite E, H2 in H1. congruence.
  - intros ->. split; [done|]. unfold copy, signed_copy, copy_vin. cbn [vin]. change (fAnyoneCanPay SIGHASH_ALL) with false. cbv iota.
    split; [change (prevout <$> imap (copy_in script nIn SIGHASH_ALL) (vin tx) = prevout <$> vin tx)
           |change (nSequence <$> imap (copy_in script nIn SIGHASH_ALL) (vin tx) = nSequence <$> vin tx)];
      rewrite fmap_imap, <-imap_const; apply imap_ext; intros k j _; unfold copy_in; cbn; destruct (k =? nIn)%nat; done.
Qed.

(** A push that is cut short: the length says three bytes, and two follow. *)
Example truncated_push_message : SerializeScriptCode [0xac; 5; 1] = [3; 0xac; 5] /\ strip_code [0xac; 5; 1] = [0xac; 5] /\ unread [0xac; 5; 1] = [1].
Proof. vm_compute. repeat split. Qed.

(** C33: The signature hash of witness programs is the double SHA-256 of the message of BIP 143, whether its three inner hashes are computed or taken from the precomputed data of the transaction. *)
Theorem witness_sighash_bip143 (b : list Z) (tx : CMutableTransaction) (code : list Z) (nIn : nat) (i : CTxIn) (nHashType amount : Z) (cached : bool) :
  length b = 64%nat -> vin tx !! nIn = Some i ->
  SignatureHash b code tx nIn nHashType amount SIGVERSION_WITNESS_V0 (if cached then Some (Precompute b tx) else None)
  = Some (dsha (bip143 tx code nIn i nHashType amount)).
Proof.
  intros Hb Hi. unfold SignatureHash. rewrite Hi. cbn [mbind option_bind]. rewrite CHashWriter_spec by done. do 2 f_equal. unfold bip143, dsha.
  assert (Hc : forall (A : Type) (f : PrecomputedTransactionData -> A) x, f (Precompute b tx) = x ->
    match (if cached then Some (Precompute b tx) else None) with Some c => f c | None => x end = x) by (intros A f x E; by destruct cached).
  rewrite (Hc _ hashPrevouts), (Hc _ hashSequence), (Hc _ hashOutputs) by done.
  unfold GetPrevoutHash, GetSequenceHash, GetOutputsHash. rewrite !CHashWriter_spec, !flat_map_concat_map by done. cbn [concat].
  assert (Hns : fHashSingle nHashType = true -> fHashNone nHashType = false) by apply single_none.
  destruct (fAnyoneCanPay nHashType), (fHashSingle nHashType), (fHashNone nHashType); cbn [negb andb orb]; try discriminate (Hns eq_refl);
    rewrite ?app_nil_r; try done; destruct (vout tx !! nIn); rewrite ?CHashWriter_spec by done; cbn [concat]; by rewrite ?app_nil_r.
Qed.

(** A SIGHASH_SINGLE signature of an input without an output of the same index signs the constant 1, and nothing of the transaction. *)
Theorem sighash_single_one (b code : list Z) (tx : CMutableTransaction) (nIn : nat) (nHashType amount : Z) (cache : option PrecomputedTransactionData) :
  fHashSingle nHashType = true -> (length (vout tx) <= nIn)%nat -> SignatureHash b code tx nIn nHashType amount SIGVERSION_BASE cache = Some one.
Proof.
  intros Hs Hl. unfold SignatureHash. rewrite Hs, (proj2 (Nat.leb_le _ _) Hl). by destruct (length (vin tx) <=? nIn)%nat.
Qed.

(** The message of BIP 143 holds neither the type nor the payload of a special transaction: a witness signature covers any of them. *)
Theorem witness_sighash_ignores_payload (b code : list Z) (tx : CMutableTransaction) (nIn : nat) (nHashType amount : Z) (type : Z) (payload : list Z) :
  SignatureHash b code (mk_tx (nVersion tx) type (vin tx) (vout tx) (nLockTime tx) payload) nIn nHashType amount SIGVERSION_WITNESS_V0 None
  = SignatureHash b code tx nIn nHashType amount SIGVERSION_WITNESS_V0 None.
Proof. reflexivity. Qed.

(** ** Witnesses *)

Definition demo_code : list Z := [0x76; 0xab; 0x02; 0xab; 0xab; 0xac].

Lemma legacy_sighash_commits_witness :
  strip_code demo_code = [0x76; 0x02; 0xab; 0xab; 0xac] /\
  SignatureHash (replicate 64 0) demo_code demo_tx 0 SIGHASH_ALL 50 SIGVERSION_BASE None
  = Some (dsha (SerializeTransaction false (signed_copy demo_tx (strip_code demo_code) 0 SIGHASH_ALL) ++ [1; 0; 0; 0])) /\
  vout (signed_copy demo_tx (strip_code demo_code) 0 SIGHASH_ALL) = vout demo_tx.
Proof.
  split; [vm_compute; reflexivity|]. destruct (vin demo_tx !! 0%nat) as [i|] eqn:E; [|discriminate E].
  destruct (legacy_sighash_commits (replicate 64 0) demo_tx demo_tx demo_code demo_code 0 0 i SIGHASH_ALL 50 None eq_refl E ltac:(vm_compute; discriminate))
    as (_ & H1 & _ & H2). split; [exact (H1 eq_refl)|]. destruct (H2 eq_refl) as [H3 _]. exact H3.
Defined.

Lemma witness_sighash_bip143_witness :
  SignatureHash (replicate 64 0) [0x51] demo_tx 0 SIGHASH_ALL 50 SIGVERSION_WITNESS_V0 (Some (Precompute (replicate 64 0) demo_tx))
  = SignatureHash (replicate 64 0) [0x51] demo_tx 0 SIGHASH_ALL 50 SIGVERSION_WITNESS_V0 None.
Proof.
  destruct (vin demo_tx !! 0%nat) as [i|] eqn:E; [|discriminate E].
  transitivity (Some (dsha (bip143 demo_tx [0x51] 0 i SIGHASH_ALL 50))).
  - exact (witness_sighash_bip143 (replicate 64 0) demo_tx [0x51] 0 i SIGHASH_ALL 50 true eq_refl E).
  - symmetry. exact (witness_sighash_bip143 (replicate 64 0) demo_tx [0x51] 0 i SIGHASH_ALL 50 false eq_refl E).
Defined.
