(* ===== verification/ConnectBlock.v ===== *)
(** * ConnectBlock: a block is applied to the set of unspent outputs

    Models CheckInputs with its script checks, and of ConnectBlock in
    validation.cpp the BIP 30 test, the script flags, the loop over the
    transactions and the test of the reward; the tests of the block header, the
    payments of masternodes, the special transactions and the writes to disk come
    before or after these and are left out, as are log output and indexes.

    Script checks run at once or are queued and run at the end, as with threads.
    The lookup of a cached signature gives what its verification gave and is left
    out.  [None] is an exception, a failed assertion or an access outside a vector
    or a map. *)

From stdpp Require Import gmap strings.
From S2P Require Import Prelude Words Arith256 Chain Script Interpreter Transaction Coins SignatureHash TxVerify.

Definition REJECT_NONSTANDARD : Z := 0x40.
Definition HF_TNODE_HEIGHT : Z := 0.
Definition MAX_BLOCK_SIGOPS_COST : Z := 400000.

Definition MANDATORY_SCRIPT_VERIFY_FLAGS : Z := SCRIPT_VERIFY_P2SH.
Definition STANDARD_SCRIPT_VERIFY_FLAGS : Z :=
  fold_left Z.lor [SCRIPT_VERIFY_DERSIG; SCRIPT_VERIFY_STRICTENC; SCRIPT_VERIFY_MINIMALDATA; SCRIPT_VERIFY_NULLDUMMY;
    SCRIPT_VERIFY_DISCOURAGE_UPGRADABLE_NOPS; SCRIPT_VERIFY_CLEANSTACK; SCRIPT_VERIFY_MINIMALIF; SCRIPT_VERIFY_NULLFAIL;
    SCRIPT_VERIFY_CHECKLOCKTIMEVERIFY; SCRIPT_VERIFY_CHECKSEQUENCEVERIFY; SCRIPT_VERIFY_LOW_S; SCRIPT_VERIFY_WITNESS;
    SCRIPT_VERIFY_DISCOURAGE_UPGRADABLE_WITNESS_PROGRAM; SCRIPT_VERIFY_WITNESS_PUBKEYTYPE] MANDATORY_SCRIPT_VERIFY_FLAGS.
Definition STANDARD_NOT_MANDATORY_VERIFY_FLAGS : Z := Z.ldiff STANDARD_SCRIPT_VERIFY_FLAGS MANDATORY_SCRIPT_VERIFY_FLAGS.

(** ** CheckInputs *)

(** A CScriptCheck holds all that the check needs. *)
Record CScriptCheck := mk_check { ck_scriptPubKey : list Z; ck_amount : Z; ck_tx : CMutableTransaction; ck_nIn : nat; ck_flags : Z; ck_txdata : PrecomputedTransactionData }.

Section connect.
Context (CheckLowS : valtype -> bool) (Verify : list Z -> list Z -> list Z -> bool).
(** The uninitialised buffer of new hashers. *)
Context (b : list Z).
(** The branch of CheckInputs for Sigma spends, and the checks of Sigma and Zerocoin transactions. *)
Context (CheckSigmaInputs CheckSigmaTransaction CheckZerocoinTransaction : CMutableTransaction -> CValidationState -> bool * CValidationState).
Context (GetSigmaSpendInput : CMutableTransaction -> Z).

(** [CScriptCheck::operator()] *)
Definition run_check (c : CScriptCheck) : option bool :=
  i ← vin (ck_tx c) !! ck_nIn c;
  r ← VerifyScript CheckLowS b (ck_flags c) (TransactionSignatureChecker Verify b (ck_tx c) (ck_nIn c) (ck_amount c) (Some (ck_txdata c)))
        (scriptSig i) (ck_scriptPubKey c) (Some (scriptWitness i));
  Some (match r with Ok _ => true | Fail _ => false end).

Definition GetSpendHeight (nd : node) (v : view) : option (Z * view) :=
  let '(best, v) := GetBestBlock v in
  a ← mapBlockIndex nd !! best; pindexPrev ← heap_of nd !! a; Some (Chain.nHeight pindexPrev + 1, v).

(** The loop over the inputs: checks are queued when [queue] is set.  The result is the queue, or the state of a rejection. *)
Fixpoint script_loop (queue : bool) (tx : CMutableTransaction) (flags : Z) (txdata : PrecomputedTransactionData) (ins : list CTxIn) (n : nat)
    (st : CValidationState) (v : view) : option ((list CScriptCheck + CValidationState) * view) :=
  match ins with
  | [] => Some (inl [], v)
  | i :: ins =>
      let '(c, v) := AccessCoin (prevout i) v in
      if IsSpent c then None else
      let check := mk_check (scriptPubKey (out c)) (nValue (out c)) tx n flags txdata in
      if queue then
        '(r, v) ← script_loop queue tx flags txdata ins (S n) st v;
        Some (match r with inl q => inl (check :: q) | inr st => inr st end, v)
      else
        ok ← run_check check;
        if (ok : bool) then script_loop queue tx flags txdata ins (S n) st v else
        let fail := inr (DoS st 100 REJECT_INVALID "mandatory-script-verify-flag-failed" false) in
        if negb (Z.land flags SCRIPT_VERIFY_STRICTENC =? 0) then
          ok2 ← run_check (mk_check (scriptPubKey (out c)) (nValue (out c)) tx n (Z.ldiff flags STANDARD_NOT_MANDATORY_VERIFY_FLAGS) txdata);
          Some (if (ok2 : bool) then inr (Invalid st REJECT_NONSTANDARD "non-mandatory-script-verify-flag") else fail, v)
        else Some (fail, v)
  end.

Definition CheckInputs (nd : node) (tx : CMutableTransaction) (st : CValidationState) (v : view) (fScriptChecks : bool) (flags : Z)
    (txdata : PrecomputedTransactionData) (queue : bool) : option (bool * CValidationState * list CScriptCheck * view) :=
  if negb (no_inputs tx) then
    '(nSpendHeight, v) ← GetSpendHeight nd v;
    '(ok, st, v) ← CheckTxInputs tx st nSpendHeight v;
    if negb ok then Some (false, st, [], v) else
    if negb fScriptChecks then Some (true, st, [], v) else
    '(r, v) ← script_loop queue tx flags txdata (vin tx) 0 st v;
    Some (match r with inl q => (true, st, q, v) | inr st => (false, st, [], v) end)
  else if Tx_IsSigmaSpend tx then let '(ok, st) := CheckSigmaInputs tx st in Some (ok, st, [], v)
  else Some (true, st, [], v).

(** ** ConnectBlock *)

(** The block: its transactions with their hashes, its index entry and the entry's address. *)
Record block_ctx := mk_block { vtx : list (list Z * CMutableTransaction); pindex : nat; pindex_entry : CBlockIndex }.

(** Heights of soft forks and the states of the two deployments by version bits. *)
Record fork_params := mk_forks { isMainNet : bool; DIP0003Height : Z; BIP65Height : Z; BIP66Height : Z; csv_active : bool; witness_active : bool;
  nSubsidyHalvingInterval : Z; nPremineSubsidy : Z }.

(** An output of the block is already in the set. *)
Fixpoint have_outputs (txid : list Z) (o : Z) (outs : list CTxOut) (v : view) : bool * view :=
  match outs with
  | [] => (false, v)
  | _ :: outs => let '(r, v) := HaveCoin (mk_outpoint txid (u32 o)) v in if r then (true, v) else have_outputs txid (o + 1) outs v
  end.

Fixpoint overwrites (txs : list (list Z * CMutableTransaction)) (v : view) : bool * view :=
  match txs with
  | [] => (false, v)
  | (txid, tx) :: txs => let '(r, v) := have_outputs txid 0 (vout tx) v in if r then (true, v) else overwrites txs v
  end.

Definition nBIP16SwitchTime : Z := 1349049600.

Definition block_flags (p : fork_params) (e : CBlockIndex) : Z :=
  let flags := if nBIP16SwitchTime <=? nTime e then SCRIPT_VERIFY_P2SH else 0 in
  let flags := if BIP66Height p <=? Chain.nHeight e then Z.lor flags SCRIPT_VERIFY_DERSIG else flags in
  let flags := if BIP65Height p <=? Chain.nHeight e then Z.lor flags SCRIPT_VERIFY_CHECKLOCKTIMEVERIFY else flags in
  let flags := if csv_active p then Z.lor flags SCRIPT_VERIFY_CHECKSEQUENCEVERIFY else flags in
  if witness_active p then Z.lor (Z.lor flags SCRIPT_VERIFY_WITNESS) SCRIPT_VERIFY_NULLDUMMY else flags.

Definition lock_flags (p : fork_params) : Z := if csv_active p then LOCKTIME_VERIFY_SEQUENCE else 0.

(** The variables of the loop. *)
Record loop_state := mk_loop { txIds : list (list Z); nFees : Z; nSigOpsCost : Z; blockundo : list (list Coin); checks : list CScriptCheck;
  lstate : CValidationState; lview : view }.

(** [prevheights] *)
Fixpoint prev_heights (ins : list CTxIn) (v : view) : list Z * view :=
  match ins with
  | [] => ([], v)
  | i :: ins => let '(c, v) := AccessCoin (prevout i) v in let '(hs, v) := prev_heights ins v in (Coins.nHeight c :: hs, v)
  end.

Section one_block.
Context (p : fork_params) (nd : node) (blk : block_ctx) (fScriptChecks fThreads : bool).

(** Inputs that exist and are final by BIP 68: a reason to reject otherwise. *)
Definition check_final (tx : CMutableTransaction) (v : view) : option (option string * view) :=
  if no_inputs tx then Some (None, v) else
  let '(have, v) := HaveInputs tx v in
  if negb have then Some (Some "bad-txns-inputs-missingorspent"%string, v) else
  let '(prevheights, v) := prev_heights (vin tx) v in
  '(ok, _) ← SequenceLocks (heap_of nd) tx (lock_flags p) prevheights (Some (pindex blk));
  Some (if (ok : bool) then None else Some "bad-txns-nonfinal"%string, v).

(** The fees and the checks of Sigma and Zerocoin transactions. *)
Definition check_mints (tx : CMutableTransaction) (fees : Z) (st : CValidationState) : option (bool * Z * CValidationState) :=
  if Tx_IsZerocoinSpend tx || Tx_IsZerocoinMint tx || Tx_IsSigmaSpend tx || Tx_IsSigmaMint tx || Tx_IsZerocoinRemint tx then
    fees ← (if Tx_IsSigmaSpend tx then valueOut ← GetValueOut tx; Some (i64 (fees + i64 (GetSigmaSpendInput tx - valueOut))) else Some fees);
    let '(ok, st) := CheckTransaction CheckSigmaTransaction CheckZerocoinTransaction (DIP0003Height p) tx st false (Chain.nHeight (pindex_entry blk)) in
    Some (ok, fees, if ok then st else DoS st 100 REJECT_INVALID "bad-txns-zerocoin" false)
  else Some (true, fees, st).

(** One transaction, the [i]-th of the block: the next state of the loop, or the state of a rejection. *)
Definition connect_tx (i : nat) (txid : list Z) (tx : CMutableTransaction) (s : loop_state) : option (loop_state + CValidationState) :=
  let refuse st reason := Some (inr (DoS st 100 REJECT_INVALID reason false)) in
  let height := Chain.nHeight (pindex_entry blk) in
  let dup := bool_decide (txid ∈ txIds s) in
  if dup && (negb (isMainNet p) || (HF_TNODE_HEIGHT <=? height)) then refuse (lstate s) "bad-txns-duplicatetxid"%string else
  '(reason, v) ← check_final tx (lview s);
  match reason with
  | Some reason => refuse (lstate s) reason
  | None =>
      '(ok, fees, st) ← check_mints tx (nFees s) (lstate s);
      if negb ok then Some (inr st) else
      '(cost, v) ← GetTransactionSigOpCost tx (block_flags p (pindex_entry blk)) v;
      let sigops := nSigOpsCost s + cost in
      if MAX_BLOCK_SIGOPS_COST <? sigops then refuse st "bad-blk-sigops"%string else
      '(ok, st, fees, q, v) ←
        (if negb (no_inputs tx) then
           let '(valueIn, v) := GetValueIn tx v in
           valueOut ← GetValueOut tx;
           '(ok, st, q, v) ← CheckInputs nd tx st v fScriptChecks (block_flags p (pindex_entry blk)) (Precompute b tx) fThreads;
           Some (ok, st, i64 (fees + i64 (valueIn - valueOut)), q, v)
         else Some (true, st, fees, [], v));
      if negb ok then Some (inr st) else
      '(undo, v) ← (if dup then Some ([], v) else UpdateCoins txid tx height v);
      Some (inl (mk_loop (txid :: txIds s) fees sigops (if (i =? 0)%nat then blockundo s else blockundo s ++ [undo]) (checks s ++ q) st v))
  end.

Fixpoint connect_loop (i : nat) (txs : list (list Z * CMutableTransaction)) (s : loop_state) : option (loop_state + CValidationState) :=
  match txs with
  | [] => Some (inl s)
  | (txid, tx) :: txs =>
      r ← connect_tx i txid tx s;
      match r with inl s => connect_loop (S i) txs s | inr st => Some (inr st) end
  end.

(** [control.Wait()]: every queued check passes. *)
Fixpoint wait (q : list CScriptCheck) : option bool :=
  match q with [] => Some true | c :: q => ok ← run_check c; ok' ← wait q; Some (ok && ok') end.

(** The part of ConnectBlock from the BIP 30 test to the test of the reward: accepted with the undo data and the view, or rejected. *)
Definition connect_block (st : CValidationState) (v : view) : option ((list (list Coin) * CValidationState * view) + CValidationState) :=
  let height := Chain.nHeight (pindex_entry blk) in
  let '(bip30, v) := overwrites (vtx blk) v in
  if bip30 then Some (inr (DoS st 100 REJECT_INVALID "bad-txns-BIP30" false)) else
  r ← connect_loop 0 (vtx blk) (mk_loop [] 0 0 [] [] st v);
  match r with
  | inr st => Some (inr st)
  | inl s =>
      ok ← wait (checks s);
      if negb ok then Some (inr (DoS (lstate s) 100 0 "" false)) else
      let blockReward := i64 (nFees s + GetBlockSubsidy (nSubsidyHalvingInterval p) (nPremineSubsidy p) height) in
      '(_, coinbase) ← head (vtx blk);
      paid ← GetValueOut coinbase;
      if blockReward <? paid then Some (inr (DoS (lstate s) 100 REJECT_INVALID "bad-cb-amount" false)) else
      Some (inl (blockundo s, lstate s, lview s))
  end.
End one_block.
End connect.
