(* ===== verification/ConnectBlockTheorems.v ===== *)
(** * ConnectBlockTheorems: the money supply

    A block that ConnectBlock accepts adds at most its subsidy and what its spends
    of Sigma and Zerocoin mints redeem to the value of the unspent outputs; so on
    every chain of accepted blocks the supply is bounded by the subsidies and the
    redeemed values, and by MAX_MONEY while no mint was spent.

    A finite map that represents the set has a total value; what ConnectBlock does
    between two updates of the set only looks things up. *)

From stdpp Require Import gmap strings.
From S2P Require Import Prelude Words Arith256 Chain ChainTheorems Script Interpreter Transaction TransactionTheorems Coins.
From S2P Require Import CoinsTheorems TxVerify TxVerifyTheorems SignatureHash ConnectBlock.

(** ** Values of sets *)

Abbreviation coin_map := (gmap COutPoint Coin).

Definition reps (g : coin_map) (m : coin_set) : Prop := forall o, g !! o = m o.
Definition value (g : coin_map) : Z := map_fold (fun _ c s => nValue (out c) + s) 0 g.
Definition nonneg (g : coin_map) : Prop := map_Forall (fun _ c => 0 <= nValue (out c)) g.

Lemma value_new g o c : g !! o = None -> value (<[o := c]> g) = nValue (out c) + value g.
Proof. intros H. unfold value. rewrite map_fold_insert_L; [done| |done]. intros. lia. Qed.

Lemma value_delete g o c : g !! o = Some c -> value g = nValue (out c) + value (delete o g).
Proof. intros H. rewrite <-(insert_delete_id g o c H) at 1. apply value_new. apply lookup_delete_eq. Qed.

Lemma value_insert g o c : nonneg g -> value (<[o := c]> g) <= nValue (out c) + value g.
Proof.
  intros Hg. destruct (g !! o) as [c'|] eqn:E; [|by rewrite value_new].
  rewrite <-insert_delete_eq, value_new by apply lookup_delete_eq. rewrite (value_delete g o c' E). pose proof (Hg o c' E). cbn in H. lia.
Qed.

Lemma value_nonneg g : nonneg g -> 0 <= value g.
Proof.
  induction g as [|o c g Ho IH] using map_ind; intros Hg; [done|]. rewrite value_new by done. apply map_Forall_insert in Hg as [Hc Hg]; [|done].
  specialize (IH Hg). lia.
Qed.

Lemma reps_ext g m m' : reps g m -> (forall o, m o = m' o) -> reps g m'.
Proof. intros H E o. by rewrite <-E. Qed.

Lemma remove_all_value ins cs g m : reps g m -> nonneg g -> NoDup (map prevout ins) -> Forall2 (fun i c => m (prevout i) = Some c) ins cs ->
  exists g', reps g' (remove_all m ins) /\ nonneg g' /\ value g = coins_total cs + value g'.
Proof.
  intros Hr Hg Hnd H. revert g m Hr Hg Hnd H. induction ins as [|i ins IH] in cs |- *; intros g m Hr Hg Hnd H.
  { apply Forall2_nil_inv_l in H as ->. by exists g. }
  apply Forall2_cons_inv_l in H as (c & cs' & Hc & H & ->). cbn [map] in Hnd. apply NoDup_cons in Hnd as [Hni Hnd].
  destruct (IH cs' (delete (prevout i) g) (upd m (prevout i) None)) as (g' & Hr' & Hg' & Hv).
  - intros o. unfold upd. destruct (decide (o = prevout i)) as [->|Hne]; [apply lookup_delete_eq|]. rewrite lookup_delete_ne by done. apply Hr.
  - by apply map_Forall_delete.
  - done.
  - clear -H Hni. induction H as [|j d l ds Hj _ IH]; [constructor|]. cbn [map] in Hni. apply not_elem_of_cons in Hni as [Hne Hni].
    constructor; [|by apply IH]. unfold upd. by rewrite decide_False by done.
  - exists g'. split; [done|]. split; [done|]. cbn [coins_total foldr]. fold (coins_total cs').
    rewrite (value_delete g (prevout i) c) by by rewrite Hr. lia.
Qed.

Lemma add_all_value outs g m txid i h cb : reps g m -> nonneg g -> Forall (fun o => 0 <= nValue o <= MAX_MONEY) outs ->
  exists g', reps g' (add_all m txid i outs h cb) /\ nonneg g' /\ value g' <= value g + total outs.
Proof.
  revert g m i. induction outs as [|x outs IH]; intros g m i Hr Hg Ho; [exists g; cbn; split; [done|]; split; [done|lia]|].
  apply Forall_cons in Ho as [Hx Ho]. cbn [add_all total foldr]. fold (total outs). destruct (IsUnspendable (scriptPubKey x)).
  - destruct (IH g m (i + 1) Hr Hg Ho) as (g' & H1 & H2 & H3). exists g'. split; [done|]. split; [done|lia].
  - destruct (IH (<[mk_outpoint txid (u32 i) := new_coin x h cb]> g) (upd m (mk_outpoint txid (u32 i)) (Some (new_coin x h cb))) (i + 1)) as (g' & H1 & H2 & H3).
    + intros o. unfold upd. destruct (decide (o = mk_outpoint txid (u32 i))) as [->|Hne]; [apply lookup_insert_eq|]. rewrite lookup_insert_ne by done. apply Hr.
    + apply map_Forall_insert_2; [cbn; lia|done].
    + done.
    + exists g'. split; [done|]. split; [done|]. pose proof (value_insert g (mk_outpoint txid (u32 i)) (new_coin x h cb) Hg) as Hv. cbn in Hv. lia.
Qed.

(** ** Steps that keep the set *)

Definition kept (v v' : view) : Prop := (is_cache v -> is_cache v') /\ (wf v -> wf v' /\ same v' v).

#[export] Instance kept_preorder : PreOrder kept.
Proof.
  split; [by intros v; split|]. intros v1 v2 v3 [H1 H2] [H3 H4]. split; [tauto|]. intros Hw. destruct (H2 Hw) as [Hw2 Hs2]. destruct (H4 Hw2) as [Hw3 Hs3].
  split; [done|]. intros o. by rewrite Hs3.
Qed.

Lemma AccessCoin_kept o v : kept v (snd (AccessCoin o v)).
Proof.
  split.
  - intros Hc. pose proof (GetCoin_cache o v Hc) as H. unfold AccessCoin. by destruct (GetCoin o v) as [[c|] v'].
  - intros Hw. pose proof (AccessCoin_spec v o Hw) as H. destruct (AccessCoin o v). tauto.
Qed.

Lemma HaveCoin_kept o v : kept v (snd (HaveCoin o v)).
Proof.
  split.
  - intros Hc. pose proof (GetCoin_cache o v Hc) as H. destruct v as [|m h v]; [done|]. unfold HaveCoin. by destruct (GetCoin o (Cache m h v)) as [[c|] v'].
  - intros Hw. pose proof (HaveCoin_spec v o Hw) as H. destruct (HaveCoin o v). tauto.
Qed.

Lemma have_inputs_kept ins v : kept v (snd (have_inputs ins v)).
Proof.
  revert v. induction ins as [|i ins IH]; intros v; cbn [have_inputs]; [done|]. pose proof (HaveCoin_kept (prevout i) v) as H.
  destruct (HaveCoin (prevout i) v) as [r v1]. cbn [snd] in H. destruct r; [|done]. by etransitivity; [|apply IH].
Qed.

Lemma prev_heights_kept ins v : kept v (snd (prev_heights ins v)).
Proof.
  revert v. induction ins as [|i ins IH]; intros v; cbn [prev_heights]; [done|]. pose proof (AccessCoin_kept (prevout i) v) as H.
  destruct (AccessCoin (prevout i) v) as [c v1]. cbn [snd] in H. specialize (IH v1). destruct (prev_heights ins v1) as [hs v2]. by etransitivity.
Qed.

Lemma value_in_kept ins n v : kept v (snd (value_in ins n v)).
Proof.
  revert n v. induction ins as [|i ins IH]; intros n v; cbn [value_in]; [done|]. pose proof (AccessCoin_kept (prevout i) v) as H.
  destruct (AccessCoin (prevout i) v) as [c v1]. cbn [snd] in H. by etransitivity; [|apply IH].
Qed.

Lemma p2sh_loop_kept ins n v r v' : p2sh_loop ins n v = Some (r, v') -> kept v v'.
Proof.
  revert n v. induction ins as [|i ins IH]; intros n v E; cbn [p2sh_loop] in E; [by injection E as _ <-|]. pose proof (AccessCoin_kept (prevout i) v) as H.
  destruct (AccessCoin (prevout i) v) as [c v1]. cbn [snd] in H. destruct (IsSpent c); [done|]. etransitivity; [exact H|by apply IH in E].
Qed.

Lemma witness_loop_kept ins flags n v r v' : witness_loop ins flags n v = Some (r, v') -> kept v v'.
Proof.
  revert n v. induction ins as [|i ins IH]; intros n v E; cbn [witness_loop] in E; [by injection E as _ <-|]. pose proof (AccessCoin_kept (prevout i) v) as H.
  destruct (AccessCoin (prevout i) v) as [c v1]. cbn [snd] in H. destruct (CountWitnessSigOps _ _ _ _) as [k|]; [|done].
  cbn [mbind option_bind] in E. etransitivity; [exact H|by apply IH in E].
Qed.

Lemma GetTransactionSigOpCost_kept tx flags v r v' : GetTransactionSigOpCost tx flags v = Some (r, v') -> kept v v'.
Proof.
  unfold GetTransactionSigOpCost, GetP2SHSigOpCount. destruct (no_inputs tx); [by intros [= _ <-]|].
  destruct (negb (Z.land flags SCRIPT_VERIFY_P2SH =? 0)); cbn [mbind option_bind]; [|apply witness_loop_kept].
  destruct (_ || _); cbn [mbind option_bind]; [apply witness_loop_kept|]. destruct (p2sh_loop (vin tx) 0 v) as [[k v1]|] eqn:E; [|done].
  cbn [mbind option_bind]. intros H. etransitivity; [by eapply p2sh_loop_kept|by eapply witness_loop_kept].
Qed.

Lemma GetBestBlock_kept v : kept v (snd (GetBestBlock v)).
Proof.
  induction v as [m best|m h v IH]; cbn [GetBestBlock]; [done|]. destruct (IsNull256 h); [|done].
  destruct (GetBestBlock v) as [x v1]. cbn [snd] in *. destruct IH as [_ IH]. split; [done|]. intros Hw. destruct (IH (proj1 Hw)) as [Hw1 Hs1].
  split; [apply (wf_base m x v v1); done|]. intros o. cbn [utxo]. by rewrite Hs1.
Qed.

Section connect.
Context (CheckLowS : valtype -> bool) (Verify : list Z -> list Z -> list Z -> bool) (b : list Z).
Context (CheckSigmaInputs Sigma Zerocoin : CMutableTransaction -> CValidationState -> bool * CValidationState) (GetSigmaSpendInput : CMutableTransaction -> Z).

Lemma script_loop_kept queue tx flags txdata ins n st v r v' :
  script_loop CheckLowS Verify b queue tx flags txdata ins n st v = Some (r, v') -> kept v v'.
Proof.
  revert n v r. induction ins as [|i ins IH]; intros n v r E; cbn [script_loop] in E; [by injection E as _ <-|]. pose proof (AccessCoin_kept (prevout i) v) as H.
  destruct (AccessCoin (prevout i) v) as [c v1]. cbn [snd] in H. destruct (IsSpent c); [done|]. etransitivity; [exact H|]. destruct queue.
  - destruct (script_loop _ _ _ true _ _ _ ins (S n) st v1) as [[r2 v2]|] eqn:E2; [|done]. cbn [mbind option_bind] in E. injection E as _ <-. by eapply IH.
  - destruct (run_check CheckLowS Verify b (mk_check (scriptPubKey (out c)) (nValue (out c)) tx n flags txdata)) as [ok|]; [|done]. cbn [mbind option_bind] in E. destruct ok; [by eapply IH|].
    destruct (negb _); [|by injection E as _ <-]. destruct (run_check _ _ _ _) as [ok2|]; [|done]. cbn [mbind option_bind] in E. by injection E as _ <-.
Qed.

(** An accepted transaction is funded. *)
Lemma CheckInputs_funded nd tx st v fsc flags txdata queue st' q v' :
  is_cache v -> wf v -> no_inputs tx = false -> Forall (fun o => 0 <= nValue o <= MAX_MONEY) (vout tx) -> total (vout tx) <= MAX_MONEY ->
  CheckInputs CheckLowS Verify b CheckSigmaInputs nd tx st v fsc flags txdata queue = Some (true, st', q, v') ->
  is_cache v' /\ wf v' /\ same v' v /\ exists h cs, funded (utxo v) tx h cs.
Proof.
  intros Hc Hw Hn Ho Ht E. unfold CheckInputs in E. rewrite Hn in E. cbn [negb] in E. unfold GetSpendHeight in E.
  pose proof (GetBestBlock_kept v) as Hk. destruct (GetBestBlock v) as [best v1]. cbn [snd] in Hk. destruct Hk as [Hc1 Hk]. specialize (Hc1 Hc). destruct (Hk Hw) as [Hw1 Hs1].
  destruct (mapBlockIndex nd !! best) as [a|]; [|done]. cbn [mbind option_bind] in E. destruct (heap_of nd !! a) as [e|]; [|done]. cbn [mbind option_bind] in E.
  set (h := Chain.nHeight e + 1) in *. destruct (CheckTxInputs_spec tx st h v1 Hw1 Hn Ho Ht) as (ok & st2 & v2 & Ec & Hw2 & Hs2 & Hok & _).
  pose proof (CheckTxInputs_cache _ _ _ _ _ _ _ Hc1 Ec) as Hc2. rewrite Ec in E. cbn [mbind option_bind] in E. destruct ok; cbn [negb] in E; [|done].
  assert (Hf : exists h cs, funded (utxo v) tx h cs).
  { destruct (proj1 Hok eq_refl) as (cs & [F1 F2 F3 F4]). exists h, cs. split; [|done..]. eapply Forall2_impl; [exact F1|]. intros i c. cbn. by rewrite Hs1. }
  assert (Hsame : same v2 v) by (intros o; by rewrite Hs2). destruct fsc; cbn [negb] in E; [|injection E as _ _ <-; done].
  destruct (script_loop _ _ _ _ _ _ _ _ _ _ _) as [[r v3]|] eqn:El; [|done]. cbn [mbind option_bind] in E.
  apply script_loop_kept in El as [Hc3 Hk3]. destruct (Hk3 Hw2) as [Hw3 Hs3]. destruct r as [q'|st3]; [|done]. injection E as _ _ <-.
  split; [tauto|]. split; [done|]. split; [|done]. intros o. by rewrite Hs3.
Qed.

(** GetValueIn of a funded transaction is the exact sum. *)
Lemma value_in_exact ins cs acc v : wf v -> Forall2 (fun i c => utxo v (prevout i) = Some c) ins cs -> Forall in_range cs ->
  0 <= acc -> acc + coins_total cs <= MAX_MONEY -> fst (value_in ins acc v) = acc + coins_total cs.
Proof.
  intros Hw H. revert acc v Hw H. induction ins as [|i ins IH] in cs |- *; intros acc v Hw H Hr Ha Hs.
  { apply Forall2_nil_inv_l in H as ->. cbn. lia. }
  apply Forall2_cons_inv_l in H as (c & cs' & Hc & H & ->). apply Forall_cons in Hr as [Hrc Hr]. cbn [value_in coins_total foldr] in *. fold (coins_total cs') in *.
  pose proof (AccessCoin_spec v (prevout i) Hw) as Hac. destruct (AccessCoin (prevout i) v) as [c1 v1]. destruct Hac as (Hw1 & Hs1 & Hu).
  rewrite Hc in Hu. apply unspent_spent in Hu as [<- _]. pose proof (coins_total_nonneg cs' Hr). unfold in_range in Hrc.
  rewrite sum_step by (done || lia). rewrite (IH cs') by (done || lia || (eapply Forall2_impl; [exact H|]; intros j d; cbn; by rewrite Hs1)). lia.
Qed.

(** ** The transactions of a block *)

(** What CheckTransaction has established. *)
Definition block_tx (tx : CMutableTransaction) : Prop := exists fRejectSigma, well_formed tx true fRejectSigma.

Definition is_new (m : coin_set) (txid : list Z) (tx : CMutableTransaction) : Prop := Forall (fun o => m o = None) (created txid 0 (vout tx)).

(** The transactions to come are new to the set unless their hash was seen in the block. *)
Definition pending (m : coin_set) (seen : list (list Z)) (txs : list (list Z * CMutableTransaction)) : Prop :=
  Forall (fun p => block_tx (snd p) /\ (fst p ∈ seen \/ is_new m (fst p) (snd p))) txs.

Lemma block_tx_outputs tx : block_tx tx ->
  Forall (fun o => 0 <= nValue o <= MAX_MONEY) (vout tx) /\ total (vout tx) <= MAX_MONEY /\ Z.of_nat (length (vout tx)) < 2 ^ 32.
Proof.
  intros (r & [_ Hs _ [Hv Ht] _]). split; [done|]. split; [done|]. pose proof (outputs_length tx). unfold MAX_BLOCK_BASE_SIZE in Hs. lia.
Qed.

Lemma spends_no_mint tx : no_inputs tx = false -> spends_mint tx = false /\ IsCoinBase tx = false.
Proof. unfold no_inputs, spends_mint. destruct (IsCoinBase tx), (Tx_IsZerocoinSpend tx), (Tx_IsSigmaSpend tx), (Tx_IsZerocoinRemint tx); done. Qed.

Lemma block_tx_distinct tx : block_tx tx -> no_inputs tx = false -> NoDup (map prevout (vin tx)).
Proof. intros (r & [_ _ _ _ Hd]) Hn. specialize (Hd eq_refl). destruct (spends_no_mint tx Hn) as [Hs _]. by rewrite Hs in Hd. Qed.

Lemma connected_elsewhere m txid tx h o : op_hash o <> txid -> Z.of_nat (length (vout tx)) < 2 ^ 32 -> m o = None -> connected m txid tx h o = None.
Proof.
  intros Hne Hl Hm. unfold connected. rewrite add_all_other.
  - destruct (no_inputs tx); [done|]. rewrite remove_all_spec. by destruct (decide _).
  - intros Hin. apply created_range in Hin as [E _]; [done|lia|lia].
Qed.

Lemma pending_step m m' seen txid tx h rest : block_tx tx -> pending m seen rest -> (forall o, m' o = connected m txid tx h o) -> pending m' (txid :: seen) rest.
Proof.
  intros Htx Hp Hm. eapply Forall_impl; [exact Hp|]. intros [txid' tx'] (Hb & Hn). cbn in *. split; [done|].
  destruct (decide (txid' = txid)) as [->|Hne]; [left; left|]. destruct Hn as [Hs|Hn]; [left; by right|right].
  apply Forall_forall. intros o Ho. unfold is_new in Hn. rewrite Forall_forall in Hn. rewrite Hm.
  destruct (block_tx_outputs tx' Hb) as (_ & _ & Hl'), (block_tx_outputs tx Htx) as (_ & _ & Hl).
  pose proof (created_range txid' 0 (vout tx') o ltac:(lia) ltac:(lia) Ho) as [Eh _]. apply connected_elsewhere; [congruence|done|by apply Hn].
Qed.

Lemma connected_value m txid tx h g cs : block_tx tx -> no_inputs tx = false -> reps g m -> nonneg g -> Forall2 (fun i c => m (prevout i) = Some c) (vin tx) cs ->
  exists g', reps g' (connected m txid tx h) /\ nonneg g' /\ value g' + coins_total cs <= value g + total (vout tx).
Proof.
  intros Hb Hn Hr Hg Hcs. pose proof (block_tx_distinct tx Hb Hn) as Hd. destruct (block_tx_outputs tx Hb) as (Hv & _).
  destruct (remove_all_value (vin tx) cs g m Hr Hg Hd Hcs) as (g1 & Hr1 & Hg1 & E1). unfold connected. rewrite Hn.
  destruct (add_all_value (vout tx) g1 (remove_all m (vin tx)) txid 0 h (IsCoinBase tx) Hr1 Hg1 Hv) as (g2 & Hr2 & Hg2 & E2).
  exists g2. split; [done|]. split; [done|lia].
Qed.

Lemma coinbase_value m txid tx h g : block_tx tx -> no_inputs tx = true -> reps g m -> nonneg g ->
  exists g', reps g' (connected m txid tx h) /\ nonneg g' /\ value g' <= value g + total (vout tx).
Proof.
  intros Hb Hn Hr Hg. destruct (block_tx_outputs tx Hb) as (Hv & _). unfold connected. rewrite Hn. by apply add_all_value.
Qed.

Lemma fits m txid tx : block_tx tx -> is_new m txid tx -> (no_inputs tx = false -> exists cs, Forall2 (fun i c => m (prevout i) = Some c) (vin tx) cs) -> tx_fits m txid tx.
Proof.
  intros Hb Hn Hin. destruct (block_tx_outputs tx Hb) as (Hv & _ & Hl). split; [| | |done|done].
  - by apply block_tx_distinct.
  - intros E. destruct (Hin E) as [cs Hcs]. apply Forall_forall. intros i Hi. destruct (list_elem_of_lookup_1 _ _ Hi) as [k Hk].
    destruct (Forall2_lookup_l _ _ _ _ _ Hcs Hk) as (c & _ & Ec). by exists c.
  - eapply Forall_impl; [exact Hv|]. intros o Ho. cbn beta in Ho. unfold TxOut_IsNull. apply Z.eqb_neq. lia.
Qed.
End connect.

Section connect.
Context (CheckLowS : valtype -> bool) (Verify : list Z -> list Z -> list Z -> bool) (b : list Z).
Context (CheckSigmaInputs Sigma Zerocoin : CMutableTransaction -> CValidationState -> bool * CValidationState) (GetSigmaSpendInput : CMutableTransaction -> Z).
Context (p : fork_params) (nd : node) (blk : block_ctx) (fScriptChecks fThreads : bool).
Context (Hheight : 0 <= Chain.nHeight (pindex_entry blk)).

Lemma check_final_kept tx v r v' : check_final p nd blk tx v = Some (r, v') -> kept v v'.
Proof.
  unfold check_final, HaveInputs. destruct (no_inputs tx); [by intros [= _ <-]|]. pose proof (have_inputs_kept (vin tx) v) as H1.
  destruct (have_inputs (vin tx) v) as [have v1]. cbn [snd] in H1. destruct have; cbn [negb]; [|by intros [= _ <-]].
  pose proof (prev_heights_kept (vin tx) v1) as H2. destruct (prev_heights (vin tx) v1) as [hs v2]. cbn [snd] in H2.
  destruct (SequenceLocks _ _ _ _ _) as [[ok hs']|]; [|done]. cbn [mbind option_bind]. intros [= _ <-]. by etransitivity.
Qed.

(** What a transaction redeems from mints: the denominations of its Sigma spends,
    or whatever a spend or a remint of Zerocoins pays. *)
Definition redeemed (tx : CMutableTransaction) : Z :=
  if Tx_IsSigmaSpend tx then GetSigmaSpendInput tx else if spends_mint tx then total (vout tx) else 0.
Definition all_redeemed (txs : list (list Z * CMutableTransaction)) : Z := foldr (fun q n => redeemed (snd q) + n) 0 txs.
Definition sigma_spends (txs : list (list Z * CMutableTransaction)) : Z := foldr (fun q n => (if Tx_IsSigmaSpend (snd q) then 1 else 0) + n) 0 txs.

(** The limits of CheckSigmaBlock and CheckSigmaTransaction. *)
Definition ZC_SIGMA_INPUT_LIMIT_PER_BLOCK : Z := 50.
Definition ZC_SIGMA_VALUE_SPEND_LIMIT_PER_TRANSACTION : Z := 500 * COIN.

(** The Sigma spends among transactions redeem no more than they may. *)
Definition spends_limited (txs : list (list Z * CMutableTransaction)) : Prop :=
  Forall (fun q => Tx_IsSigmaSpend (snd q) = true -> 0 <= GetSigmaSpendInput (snd q) <= ZC_SIGMA_VALUE_SPEND_LIMIT_PER_TRANSACTION) txs.

Lemma redeemed_nonneg tx : block_tx tx -> (Tx_IsSigmaSpend tx = true -> 0 <= GetSigmaSpendInput tx <= ZC_SIGMA_VALUE_SPEND_LIMIT_PER_TRANSACTION) -> 0 <= redeemed tx.
Proof.
  intros Hb Hs. destruct (block_tx_outputs tx Hb) as (Hv & _). pose proof (total_nonneg _ Hv). unfold redeemed.
  destruct (Tx_IsSigmaSpend tx); [specialize (Hs eq_refl); lia|]. destruct (spends_mint tx); lia.
Qed.

Lemma all_redeemed_nonneg txs : Forall (fun q => block_tx (snd q)) txs -> spends_limited txs -> 0 <= all_redeemed txs.
Proof.
  intros H. unfold spends_limited. induction H as [|q txs Hq _ IH]; intros Hs; [done|]. apply Forall_cons in Hs as [H1 H2]. cbn [all_redeemed foldr].
  fold (all_redeemed txs). pose proof (redeemed_nonneg _ Hq H1). specialize (IH H2). lia.
Qed.

Lemma no_mints_redeemed txs : Forall (fun q => spends_mint (snd q) = false) txs -> all_redeemed txs = 0.
Proof.
  induction 1 as [|q txs Hq _ IH]; [done|]. cbn [all_redeemed foldr]. fold (all_redeemed txs). rewrite IH. unfold redeemed. rewrite Hq.
  unfold spends_mint in Hq. by destruct (Tx_IsSigmaSpend (snd q)); [rewrite orb_true_r in Hq|].
Qed.

Lemma sigma_spends_nonneg txs : 0 <= sigma_spends txs.
Proof. induction txs as [|q txs IH]; [done|]. cbn [sigma_spends foldr]. fold (sigma_spends txs). destruct (Tx_IsSigmaSpend (snd q)); lia. Qed.

(** The fee of a spend of mints, which can be negative. *)
Definition mint_fee (tx : CMutableTransaction) : Z := if Tx_IsSigmaSpend tx then GetSigmaSpendInput tx - total (vout tx) else 0.

Lemma i64_small x : - 2 ^ 63 <= x < 2 ^ 63 -> i64 x = x.
Proof.
  intros Hx. unfold i64. destruct (Z.lt_ge_cases x 0).
  - replace (x mod 2 ^ 64) with (x + 2 ^ 64) by (apply Z.mod_unique_pos with (-1); lia). destruct (Z.ltb_spec (x + 2 ^ 64) (2 ^ 63)); lia.
  - rewrite Z.mod_small by lia. destruct (Z.ltb_spec x (2 ^ 63)); lia.
Qed.

Lemma check_mints_fees tx fees st ok fees' st' : block_tx tx -> - 2 ^ 62 <= fees <= 2 ^ 62 ->
  (Tx_IsSigmaSpend tx = true -> 0 <= GetSigmaSpendInput tx <= ZC_SIGMA_VALUE_SPEND_LIMIT_PER_TRANSACTION) ->
  check_mints Sigma Zerocoin GetSigmaSpendInput p blk tx fees st = Some (ok, fees', st') -> fees' = fees + mint_fee tx.
Proof.
  intros Hb Hf Hs. destruct (block_tx_outputs tx Hb) as (Hv & Ht & _). pose proof (total_nonneg _ Hv). unfold check_mints, mint_fee. destruct (Tx_IsSigmaSpend tx).
  - specialize (Hs eq_refl). unfold ZC_SIGMA_VALUE_SPEND_LIMIT_PER_TRANSACTION, MAX_MONEY, COIN in *.
    rewrite orb_true_r. cbn [orb]. rewrite (proj2 (GetValueOut_spec tx (total (vout tx)))) by done. cbn [mbind option_bind].
    destruct (CheckTransaction _ _ _ _ _ _ _) as [ok1 st1]. intros [= _ <- _]. rewrite !i64_small by (rewrite ?i64_small; lia). lia.
  - destruct (_ || _); [|intros [= _ <- _]; lia]. cbn [mbind option_bind]. destruct (CheckTransaction _ _ _ _ _ _ _) as [ok1 st1]. intros [= _ <- _]. lia.
Qed.

(** The state of the loop, with a map [g] of its set: the fees are far from the
    bounds of 64 bits. *)
Record loop_inv (s : loop_state) (g : coin_map) (rest : list (list Z * CMutableTransaction)) : Prop := {
  li_cache : is_cache (lview s);
  li_wf : wf (lview s);
  li_reps : reps g (utxo (lview s));
  li_nonneg : nonneg g;
  li_pending : pending (utxo (lview s)) (txIds s) rest;
  li_limited : spends_limited rest;
  li_low : (sigma_spends rest - ZC_SIGMA_INPUT_LIMIT_PER_BLOCK) * MAX_MONEY <= nFees s;
  li_high : value g + nFees s + all_redeemed rest <= 2 ^ 62 }.

Lemma pending_txs m seen txs : pending m seen txs -> Forall (fun q => block_tx (snd q)) txs.
Proof. intros H. eapply Forall_impl; [exact H|]. by intros q [? _]. Qed.

Lemma inv_fees s g rest : loop_inv s g rest -> - 2 ^ 62 <= nFees s <= 2 ^ 62.
Proof.
  intros [_ _ _ Hg Hp Hl H1 H2]. pose proof (value_nonneg g Hg). pose proof (all_redeemed_nonneg rest (pending_txs _ _ _ Hp) Hl). pose proof (sigma_spends_nonneg rest).
  unfold ZC_SIGMA_INPUT_LIMIT_PER_BLOCK, MAX_MONEY, COIN in *. lia.
Qed.

(** UpdateCoins in a view of the same set. *)
Lemma update_step m seen v txid tx rest : is_cache v -> wf v -> (forall o, utxo v o = m o) -> block_tx tx -> is_new m txid tx -> pending m seen rest ->
  (no_inputs tx = false -> exists cs, Forall2 (fun i c => m (prevout i) = Some c) (vin tx) cs) ->
  exists undo v', UpdateCoins txid tx (Chain.nHeight (pindex_entry blk)) v = Some (undo, v') /\ is_cache v' /\ wf v' /\ pending (utxo v') (txid :: seen) rest /\
    forall g, reps g (connected m txid tx (Chain.nHeight (pindex_entry blk))) -> reps g (utxo v').
Proof.
  intros Hc Hw Hs Hb Hn Hp Hin. assert (Hfit : tx_fits (utxo v) txid tx).
  { apply fits; [done|eapply Forall_impl; [exact Hn|]; intros o; cbn; by rewrite Hs|]. intros E. destruct (Hin E) as [cs Hcs].
    exists cs. eapply Forall2_impl; [exact Hcs|]. intros j c. cbn. by rewrite Hs. }
  destruct (UpdateCoins_spec v txid tx (Chain.nHeight (pindex_entry blk)) Hc Hw Hfit) as (undo & v' & Eu & (Hc' & Hw' & Hu) & _).
  assert (Hm : forall o, utxo v' o = connected m txid tx (Chain.nHeight (pindex_entry blk)) o) by (intros o; rewrite Hu; by apply connected_ext).
  exists undo, v'. split; [done|]. split; [done|]. split; [done|]. split; [by eapply pending_step|].
  intros g Hg. apply (reps_ext _ _ _ Hg). intros o. by rewrite Hm.
Qed.

Lemma connect_tx_value i txid tx s s' g rest :
  loop_inv s g ((txid, tx) :: rest) ->
  connect_tx CheckLowS Verify b CheckSigmaInputs Sigma Zerocoin GetSigmaSpendInput p nd blk fScriptChecks fThreads i txid tx s = Some (inl s') ->
  is_cache (lview s') /\ wf (lview s') /\ pending (utxo (lview s')) (txIds s') rest /\
  exists g', reps g' (utxo (lview s')) /\ nonneg g' /\
    if no_inputs tx then nFees s' = nFees s + mint_fee tx /\ value g' <= value g + total (vout tx)
    else nFees s <= nFees s' /\ value g' + nFees s' <= value g + nFees s.
Proof.
  intros Hinv E. pose proof (inv_fees _ _ _ Hinv) as Hf. destruct Hinv as [Hc Hw Hr Hg Hpend Hlim _ _].
  apply Forall_cons in Hlim as [Hlim _]. cbn [snd] in Hlim.
  apply Forall_cons in Hpend as [[Hb Hnew] Hpend]. cbn [fst snd] in Hb, Hnew.
  pose proof (block_tx_outputs tx Hb) as (Hv & Ht & Hl).
  unfold connect_tx in E. rewrite (proj2 (Z.leb_le HF_TNODE_HEIGHT _) Hheight), orb_true_r, andb_true_r in E.
  case_bool_decide as Hdup; [done|]. assert (Hn : is_new (utxo (lview s)) txid tx) by tauto.
  destruct (check_final p nd blk tx (lview s)) as [[reason v1]|] eqn:E1; [|done]. cbn [mbind option_bind] in E. destruct reason; [done|].
  apply check_final_kept in E1. destruct (check_mints _ _ _ _ _ _ _ _) as [[[ok fees] st]|] eqn:E2; [|done]. cbn [mbind option_bind] in E.
  apply check_mints_fees in E2 as ->; [|done..]. destruct ok; cbn [negb] in E; [|done].
  destruct (GetTransactionSigOpCost _ _ v1) as [[cost v2]|] eqn:E3; [|done]. cbn [mbind option_bind] in E. apply GetTransactionSigOpCost_kept in E3.
  destruct (MAX_BLOCK_SIGOPS_COST <? _); [done|].
  assert (Hk : kept (lview s) v2) by by etransitivity. destruct Hk as [Hc2 Hk]. specialize (Hc2 Hc). destruct (Hk Hw) as [Hw2 Hs2].
  destruct (no_inputs tx) eqn:Hni; cbn [negb] in E.
  - cbn [mbind option_bind negb] in E. destruct (update_step (utxo (lview s)) (txIds s) v2 txid tx rest) as (undo & v3 & Eu & Hc3 & Hw3 & Hp3 & Hr3); [done..|congruence|].
    rewrite Eu in E. cbn [mbind option_bind] in E. injection E as <-. cbn [lview txIds nFees]. split; [done|]. split; [done|]. split; [done|].
    destruct (coinbase_value (utxo (lview s)) txid tx (Chain.nHeight (pindex_entry blk)) g Hb Hni Hr Hg) as (g' & Hr' & Hg' & Hv').
    exists g'. split; [by apply Hr3|]. by split.
  - unfold GetValueIn in E. rewrite Hni in E. destruct (value_in (vin tx) 0 v2) as [valueIn v3] eqn:Evi.
    pose proof (value_in_kept (vin tx) 0 v2) as Hk3. rewrite Evi in Hk3. cbn [snd] in Hk3. destruct Hk3 as [Hc3 Hk3]. specialize (Hc3 Hc2). destruct (Hk3 Hw2) as [Hw3 Hs3].
    rewrite (proj2 (GetValueOut_spec tx (total (vout tx)))) in E by done. cbn [mbind option_bind] in E.
    destruct (CheckInputs _ _ _ _ _ _ _ _ _ _ _ _) as [[[[ok st2] q] v4]|] eqn:Eci; [|done]. cbn [mbind option_bind] in E. destruct ok; cbn [negb] in E; [|done].
    apply CheckInputs_funded in Eci; [|done..]. destruct Eci as (Hc4 & Hw4 & Hs4 & h & cs & [Hcs _ [Hrange Hsum] Hle]).
    assert (Hcs0 : Forall2 (fun i c => utxo (lview s) (prevout i) = Some c) (vin tx) cs) by (eapply Forall2_impl; [exact Hcs|]; intros j c; cbn; by rewrite Hs3, Hs2).
    assert (Evin : valueIn = coins_total cs).
    { change valueIn with (fst (valueIn, v3)). rewrite <-Evi. rewrite (value_in_exact (vin tx) cs 0 v2 Hw2); [lia| |done|lia|lia].
      eapply Forall2_impl; [exact Hcs0|]. intros j c. cbn. by rewrite Hs2. }
    destruct (update_step (utxo (lview s)) (txIds s) v4 txid tx rest) as (undo & v5 & Eu & Hc5 & Hw5 & Hp5 & Hr5);
      [done|done|intros o; by rewrite Hs4, Hs3, Hs2|done|done|done|by exists cs|].
    rewrite Eu in E. cbn [mbind option_bind] in E. injection E as <-. cbn [lview txIds nFees]. split; [done|]. split; [done|]. split; [done|].
    destruct (connected_value (utxo (lview s)) txid tx (Chain.nHeight (pindex_entry blk)) g cs Hb Hni Hr Hg Hcs0) as (g' & Hr' & Hg' & Hv').
    exists g'. split; [by apply Hr5|]. split; [done|]. pose proof (total_nonneg _ Hv). pose proof (value_nonneg g Hg).
    assert (Em : mint_fee tx = 0).
    { unfold mint_fee. destruct (spends_no_mint tx Hni) as [Hs _]. unfold spends_mint in Hs. by destruct (Tx_IsSigmaSpend tx); [rewrite orb_true_r in Hs|]. }
    rewrite Em, Z.add_0_r, Evin, !i64_small by (rewrite ?i64_small; unfold MAX_MONEY, COIN in *; lia). lia.
Qed.

(** What the invariant of the next transactions takes. *)
Lemma inv_step s s' g g' txid tx rest : loop_inv s g ((txid, tx) :: rest) ->
  is_cache (lview s') -> wf (lview s') -> pending (utxo (lview s')) (txIds s') rest -> reps g' (utxo (lview s')) -> nonneg g' ->
  (if Tx_IsSigmaSpend tx then nFees s - MAX_MONEY else nFees s) <= nFees s' ->
  value g' + nFees s' + all_redeemed rest <= 2 ^ 62 -> loop_inv s' g' rest.
Proof.
  intros [_ _ _ _ _ Hl H1 _] Hc Hw Hp Hr Hg Hf Hh. apply Forall_cons in Hl as [_ Hl]. split; [done..| |done].
  cbn [sigma_spends foldr snd] in H1. fold (sigma_spends rest) in H1. destruct (Tx_IsSigmaSpend tx); lia.
Qed.

Lemma mint_fee_low tx : block_tx tx -> (Tx_IsSigmaSpend tx = true -> 0 <= GetSigmaSpendInput tx <= ZC_SIGMA_VALUE_SPEND_LIMIT_PER_TRANSACTION) ->
  (if Tx_IsSigmaSpend tx then - MAX_MONEY else 0) <= mint_fee tx.
Proof.
  intros Hb Hs. destruct (block_tx_outputs tx Hb) as (_ & Ht & _). unfold mint_fee. destruct (Tx_IsSigmaSpend tx); [specialize (Hs eq_refl)|]; lia.
Qed.

(** Transactions after the coinbase move value and leave fees, and redeem mints. *)
Lemma connect_loop_value txs i s s' g : loop_inv s g txs -> Forall (fun q => IsCoinBase (snd q) = false) txs ->
  connect_loop CheckLowS Verify b CheckSigmaInputs Sigma Zerocoin GetSigmaSpendInput p nd blk fScriptChecks fThreads i txs s = Some (inl s') ->
  is_cache (lview s') /\ wf (lview s') /\
  exists g', reps g' (utxo (lview s')) /\ nonneg g' /\ - 2 ^ 62 <= nFees s' <= 2 ^ 62 /\ value g' + nFees s' <= value g + nFees s + all_redeemed txs.
Proof.
  revert i s g. induction txs as [|[txid tx] txs IH]; intros i s g Hinv Hcb E; cbn [connect_loop] in E.
  { injection E as <-. pose proof (inv_fees _ _ _ Hinv). destruct Hinv. split; [done|]. split; [done|]. exists g. split; [done|]. split; [done|]. split; [done|]. cbn. lia. }
  apply Forall_cons in Hcb as [Hcb1 Hcb]. cbn [snd] in Hcb1. destruct (connect_tx _ _ _ _ _ _ _ _ _ _ _ _ _ _ _ _) as [[s1|st]|] eqn:E1; [|done|done].
  cbn [mbind option_bind] in E. destruct (connect_tx_value _ _ _ _ _ _ _ Hinv E1) as (Hc1 & Hw1 & Hp1 & g1 & Hr1 & Hg1 & Hv1).
  pose proof (Forall_inv (li_limited _ _ _ Hinv)) as Hlim. cbn [snd] in Hlim. pose proof (Forall_inv (pending_txs _ _ _ (li_pending _ _ _ Hinv))) as Hb. cbn [snd] in Hb.
  pose proof (mint_fee_low tx Hb Hlim) as Hlow.
  assert (Hstep : value g1 + nFees s1 <= value g + nFees s + redeemed tx /\ (if Tx_IsSigmaSpend tx then nFees s - MAX_MONEY else nFees s) <= nFees s1).
  { unfold mint_fee in Hlow. unfold redeemed, mint_fee in *. unfold no_inputs, spends_mint in *. rewrite Hcb1 in Hv1. cbn [orb] in Hv1. unfold MAX_MONEY, COIN in *.
    destruct (Tx_IsSigmaSpend tx), (Tx_IsZerocoinSpend tx), (Tx_IsZerocoinRemint tx); cbn [orb] in *; lia. }
  assert (Hinv1 : loop_inv s1 g1 txs).
  { apply (inv_step s s1 g g1 txid tx); try done; [lia|]. pose proof (li_high _ _ _ Hinv) as Hh. cbn [all_redeemed foldr snd] in Hh. fold (all_redeemed txs) in Hh. lia. }
  destruct (IH (S i) s1 g1 Hinv1 Hcb E) as (Hc' & Hw' & g' & Hr' & Hg' & Hf' & Hv').
  split; [done|]. split; [done|]. exists g'. split; [done|]. split; [done|]. split; [done|]. cbn [all_redeemed foldr snd]. fold (all_redeemed txs). lia.
Qed.

Lemma have_outputs_spec txid o outs v : wf v -> 0 <= o -> let '(r, v') := have_outputs txid o outs v in
  kept v v' /\ (r = false -> Forall (fun x => utxo v x = None) (created txid o outs)).
Proof.
  revert o v. induction outs as [|x outs IH]; intros o v Hw Ho; cbn [have_outputs created]; [by split; [|constructor]|].
  pose proof (HaveCoin_kept (mk_outpoint txid (u32 o)) v) as Hk. pose proof (HaveCoin_spec v (mk_outpoint txid (u32 o)) Hw) as H.
  destruct (HaveCoin (mk_outpoint txid (u32 o)) v) as [r v1]. cbn [snd] in Hk. destruct H as (Hw1 & Hs1 & ->). case_bool_decide as Hi; [done|].
  specialize (IH (o + 1) v1 Hw1 ltac:(lia)). destruct (have_outputs txid (o + 1) outs v1) as [r v2]. destruct IH as [Hk2 Hn].
  split; [by etransitivity|]. intros Hr. apply Forall_app. split.
  - destruct (IsUnspendable _); [constructor|]. constructor; [|constructor]. by apply eq_None_not_Some.
  - eapply Forall_impl; [by apply Hn|]. intros y. cbn. by rewrite Hs1.
Qed.

Lemma overwrites_spec txs v : wf v -> let '(r, v') := overwrites txs v in
  kept v v' /\ (r = false -> Forall (fun q => is_new (utxo v) (fst q) (snd q)) txs).
Proof.
  revert v. induction txs as [|[txid tx] txs IH]; intros v Hw; cbn [overwrites]; [by split; [|constructor]|].
  pose proof (have_outputs_spec txid 0 (vout tx) v Hw ltac:(lia)) as H. destruct (have_outputs txid 0 (vout tx) v) as [r v1]. destruct H as [Hk Hn].
  destruct r; [done|]. destruct (proj2 Hk Hw) as [Hw1 Hs1]. specialize (IH v1 Hw1). destruct (overwrites txs v1) as [r v2].
  destruct IH as [Hk2 Hn2]. split; [by etransitivity|]. intros ->. constructor; [by apply Hn|]. eapply Forall_impl; [by apply Hn2|].
  intros [t y] Hy. unfold is_new in *. eapply Forall_impl; [exact Hy|]. intros o. cbn. by rewrite Hs1.
Qed.

(** What CheckBlock has established: a coinbase, then other transactions, each
    accepted by CheckTransaction, with Sigma spends within their limits. *)
Record block_ok : Prop := {
  bo_first : exists txid coinbase rest, vtx blk = (txid, coinbase) :: rest /\ IsCoinBase coinbase = true /\ Forall (fun q => IsCoinBase (snd q) = false) rest;
  bo_txs : Forall (fun q => block_tx (snd q)) (vtx blk);
  bo_spends : sigma_spends (vtx blk) <= ZC_SIGMA_INPUT_LIMIT_PER_BLOCK;
  bo_limited : spends_limited (vtx blk) }.

Abbreviation subsidy := (GetBlockSubsidy (nSubsidyHalvingInterval p) (nPremineSubsidy p) (Chain.nHeight (pindex_entry blk))).

Lemma connect_block_value st v undo st' v' g :
  block_ok -> is_cache v -> wf v -> reps g (utxo v) -> nonneg g -> value g + all_redeemed (vtx blk) <= 2 ^ 61 -> 0 <= subsidy <= MAX_MONEY ->
  connect_block CheckLowS Verify b CheckSigmaInputs Sigma Zerocoin GetSigmaSpendInput p nd blk fScriptChecks fThreads st v = Some (inl (undo, st', v')) ->
  is_cache v' /\ wf v' /\ exists g', reps g' (utxo v') /\ nonneg g' /\ value g' <= value g + subsidy + all_redeemed (vtx blk).
Proof.
  intros [(txid & cb & rest & Evtx & Hcb & Hrest) Htxs Hcount Hlim] Hc Hw Hr Hg Hle Hsub E. unfold connect_block in E.
  pose proof (overwrites_spec (vtx blk) v Hw) as H. destruct (overwrites (vtx blk) v) as [r v1]. destruct H as [[Hc1 Hk] Hnew]. specialize (Hc1 Hc). destruct (Hk Hw) as [Hw1 Hs1].
  destruct r; [done|]. specialize (Hnew eq_refl). rewrite Evtx in *. cbn [connect_loop head] in E. set (s0 := mk_loop [] 0 0 [] [] st v1) in *.
  assert (Hinv : loop_inv s0 g ((txid, cb) :: rest)).
  { split; [done|done|apply (reps_ext _ _ _ Hr); intros o; symmetry; apply Hs1|done| |done| |]; cbn [nFees s0]; unfold MAX_MONEY, COIN in *; [|lia..].
    apply Forall_forall. intros q Hq. rewrite Forall_forall in Htxs, Hnew. split; [by apply Htxs|]. right. specialize (Hnew q Hq). eapply Forall_impl; [exact Hnew|].
    intros o. cbn. by rewrite Hs1. }
  destruct (connect_tx _ _ _ _ _ _ _ _ _ _ _ _ _ _ _ _) as [[s1|]|] eqn:E1; [|done|done]. cbn [mbind option_bind] in E.
  destruct (connect_tx_value _ _ _ _ _ _ _ Hinv E1) as (Hc2 & Hw2 & Hp2 & g1 & Hr1 & Hg1 & Hv1).
  assert (Hni : no_inputs cb = true) by (unfold no_inputs; by rewrite Hcb). rewrite Hni in Hv1. destruct Hv1 as [Hf1 Hv1]. cbn [nFees s0] in Hf1.
  apply Forall_cons in Htxs as [Htx Htxs]. cbn [snd] in Htx. destruct (block_tx_outputs cb Htx) as (Hcv & Hct & _). pose proof (total_nonneg _ Hcv) as Hc0.
  apply Forall_cons in Hlim as [Hlim Hlims]. cbn [snd] in Hlim. pose proof (mint_fee_low cb Htx Hlim) as Hlow. pose proof (redeemed_nonneg cb Htx Hlim) as Hrn.
  cbn [all_redeemed foldr snd] in *. fold (all_redeemed rest) in *.
  assert (Hp1 : value g1 + nFees s1 <= value g + total (vout cb) + redeemed cb).
  { unfold mint_fee, redeemed in *. destruct (Tx_IsSigmaSpend cb); lia. }
  assert (Hinv1 : loop_inv s1 g1 rest).
  { apply (inv_step s0 s1 g g1 txid cb); try done; cbn [nFees s0]; unfold MAX_MONEY, COIN in *; destruct (Tx_IsSigmaSpend cb); lia. }
  destruct (connect_loop _ _ _ _ _ _ _ _ _ _ _ _ _ _ _) as [[s2|]|] eqn:E2; [|done|done]. cbn [mbind option_bind] in E.
  destruct (connect_loop_value rest 1 s1 s2 g1 Hinv1 Hrest E2) as (Hc3 & Hw3 & g2 & Hr2 & Hg2 & Hf2 & Hv2).
  destruct (wait _ _ _ _) as [ok|]; [|done]. cbn [mbind option_bind] in E. destruct ok; cbn [negb] in E; [|done].
  rewrite (proj2 (GetValueOut_spec cb (total (vout cb)))) in E by done. cbn [mbind option_bind] in E.
  rewrite i64_small in E by (unfold MAX_MONEY, COIN in *; lia).
  destruct (Z.ltb_spec (nFees s2 + subsidy) (total (vout cb))) as [|Hpaid]; [done|]. injection E as _ _ <-.
  split; [done|]. split; [done|]. exists g2. split; [done|]. split; [done|]. lia.
Qed.
End connect.

(** ** Chains *)

Section chain.
Context (CheckLowS : valtype -> bool) (Verify : list Z -> list Z -> list Z -> bool) (b : list Z).
Context (CheckSigmaInputs Sigma Zerocoin : CMutableTransaction -> CValidationState -> bool * CValidationState) (GetSigmaSpendInput : CMutableTransaction -> Z).

(** The views after the blocks below a height, from the genesis block, whose
    coinbase is not added to the set, with what these blocks have redeemed from
    mints.  Between blocks the caches may change as long as they hold the same
    set. *)
Inductive chain_view (p : fork_params) : nat -> Z -> view -> Prop :=
  | chain_genesis v : is_cache v -> wf v -> (forall o, utxo v o = None) -> chain_view p 1 0 v
  | chain_block n r v nd blk fScriptChecks fThreads st undo st' v' :
      chain_view p n r v -> Chain.nHeight (pindex_entry blk) = Z.of_nat n -> block_ok GetSigmaSpendInput blk ->
      connect_block CheckLowS Verify b CheckSigmaInputs Sigma Zerocoin GetSigmaSpendInput p nd blk fScriptChecks fThreads st v = Some (inl (undo, st', v')) ->
      chain_view p (S n) (r + all_redeemed GetSigmaSpendInput (vtx blk)) v'
  | chain_same n r v v' : chain_view p n r v -> is_cache v' -> wf v' -> same v' v -> chain_view p n r v'.

Record main_rewards (p : fork_params) : Prop := {
  mr_interval : nSubsidyHalvingInterval p = nDefaultSubsidyHalvingInterval;
  mr_premine : nPremineSubsidy p = main_nPremineSubsidy }.

Lemma issued_max n : 0 <= issued nDefaultSubsidyHalvingInterval main_nPremineSubsidy n <= MAX_MONEY /\
  0 <= GetBlockSubsidy nDefaultSubsidyHalvingInterval main_nPremineSubsidy (Z.of_nat n) <= MAX_MONEY.
Proof. pose proof (issued_range n). pose proof (issued_range (S n)) as H1. cbn [issued] in H1. pose proof (subsidy_le nDefaultSubsidyHalvingInterval main_nPremineSubsidy (Z.of_nat n) ltac:(done) ltac:(done) ltac:(lia)). lia. Qed.

Lemma chain_redeemed p n r v : chain_view p n r v -> 0 <= r.
Proof.
  induction 1 as [|n r v nd blk fsc fth st undo st' v' _ IH _ Hok _|]; [done| |done].
  pose proof (all_redeemed_nonneg GetSigmaSpendInput (vtx blk) (bo_txs _ _ Hok) (bo_limited _ _ Hok)). lia.
Qed.

Lemma chain_supply p n r v : main_rewards p -> chain_view p n r v -> r <= 2 ^ 60 ->
  is_cache v /\ wf v /\ exists g, reps g (utxo v) /\ nonneg g /\ value g <= issued nDefaultSubsidyHalvingInterval main_nPremineSubsidy n + r.
Proof.
  intros [Hi Hp] H. induction H as [v Hc Hw He|n r v nd blk fsc fth st undo st' v' Hch IH Hh Hok E|n r v v' _ IH Hc Hw Hs]; intros Hmax.
  - split; [done|]. split; [done|]. exists ∅. split; [intros o; by rewrite He, lookup_empty|]. split; [apply map_Forall_empty|done].
  - pose proof (issued_max n) as [Hm Hsub]. rewrite <-Hh, <-Hi, <-Hp in Hsub. pose proof (chain_redeemed _ _ _ _ Hch).
    pose proof (all_redeemed_nonneg GetSigmaSpendInput (vtx blk) (bo_txs _ _ Hok) (bo_limited _ _ Hok)).
    destruct IH as (Hc & Hw & g & Hr & Hg & Hv); [lia|].
    apply connect_block_value with (g := g) in E; [|lia|done..|unfold MAX_MONEY, COIN in *; lia|done].
    destruct E as (Hc' & Hw' & g' & Hr' & Hg' & Hv'). split; [done|]. split; [done|]. exists g'. split; [done|]. split; [done|].
    cbn [issued]. rewrite Hh, Hi, Hp in Hv'. lia.
  - destruct (IH Hmax) as (_ & _ & g & Hr & Hg & Hv). split; [done|]. split; [done|]. exists g. split; [|done]. apply (reps_ext _ _ _ Hr). intros o. by rewrite Hs.
Qed.
End chain.

(** ** Theorems *)

(** C10: No inflation in a block: when ConnectBlock accepts a block of a coinbase and of transactions that CheckTransaction accepts, the value of the unspent outputs afterwards is at most what it was plus the subsidy of the height plus what the block redeems from mints: the denominations of its Sigma spends, and the outputs of its Zerocoin spends and remints; for a block without these, plus the subsidy alone.  Fees are summed in 64 bits without a range check; that this is exact uses the limits of CheckBlock on Sigma spends, and a set worth less than 2^61 with what is redeemed.  The caches stay consistent. *)
Theorem accepted_block_adds_subsidy (CheckLowS : valtype -> bool) (Verify : list Z -> list Z -> list Z -> bool) (b : list Z)
    (CheckSigmaInputs Sigma Zerocoin : CMutableTransaction -> CValidationState -> bool * CValidationState) (GetSigmaSpendInput : CMutableTransaction -> Z)
    (p : fork_params) (nd : node) (blk : block_ctx) (fScriptChecks fThreads : bool) (st st' : CValidationState) (v v' : view) (undo : list (list Coin)) (g : coin_map) :
  let subsidy := GetBlockSubsidy (nSubsidyHalvingInterval p) (nPremineSubsidy p) (Chain.nHeight (pindex_entry blk)) in
  let mints := all_redeemed GetSigmaSpendInput (vtx blk) in
  0 <= Chain.nHeight (pindex_entry blk) -> block_ok GetSigmaSpendInput blk -> is_cache v -> wf v -> reps g (utxo v) -> nonneg g -> value g + mints <= 2 ^ 61 -> 0 <= subsidy <= MAX_MONEY ->
  connect_block CheckLowS Verify b CheckSigmaInputs Sigma Zerocoin GetSigmaSpendInput p nd blk fScriptChecks fThreads st v = Some (inl (undo, st', v')) ->
  (is_cache v' /\ wf v' /\ exists g', reps g' (utxo v') /\ nonneg g' /\ value g' <= value g + subsidy + mints) /\
  (Forall (fun q => spends_mint (snd q) = false) (vtx blk) -> mints = 0).
Proof.
  intros subsidy mints Hh Hok Hc Hw Hr Hg Hv Hs E. split; [by apply connect_block_value with (g := g) in E|]. intros H. by apply no_mints_redeemed.
Qed.

(** C3: The money supply of the main network: in every view that is reached from the empty set by accepted blocks that satisfy what CheckBlock establishes ([block_ok]), with any flushes and lookups in between, the value of all unspent outputs is at most the sum of the subsidies of the blocks so far plus what these blocks have redeemed from Sigma and Zerocoin mints (as long as that is at most 2^60, some 11 billion coins); and at most MAX_MONEY if they have redeemed nothing. *)
Theorem supply_invariant (CheckLowS : valtype -> bool) (Verify : list Z -> list Z -> list Z -> bool) (b : list Z)
    (CheckSigmaInputs Sigma Zerocoin : CMutableTransaction -> CValidationState -> bool * CValidationState) (GetSigmaSpendInput : CMutableTransaction -> Z)
    (p : fork_params) (n : nat) (mints : Z) (v : view) :
  main_rewards p -> chain_view CheckLowS Verify b CheckSigmaInputs Sigma Zerocoin GetSigmaSpendInput p n mints v -> mints <= 2 ^ 60 ->
  wf v /\ exists g, reps g (utxo v) /\ 0 <= value g <= issued nDefaultSubsidyHalvingInterval main_nPremineSubsidy n + mints /\
    0 <= mints /\ (mints = 0 -> value g <= MAX_MONEY).
Proof.
  intros Hp H Hmax. destruct (chain_supply _ _ _ _ _ _ _ _ _ _ _ Hp H Hmax) as (_ & Hw & g & Hr & Hg & Hv). split; [done|]. exists g. split; [done|].
  pose proof (value_nonneg g Hg). pose proof (issued_range n). pose proof (chain_redeemed _ _ _ _ _ _ _ _ _ _ _ H). split; [lia|]. split; [done|]. intros ->. lia.
Qed.

(** C34: Script checks with threads: queueing the checks of a transaction and running them at the end accepts exactly what checking each input in turn accepts, with the same view afterwards. *)
Theorem queued_checks_agree (CheckLowS : valtype -> bool) (Verify : list Z -> list Z -> list Z -> bool) (b : list Z) (tx : CMutableTransaction) (flags : Z)
    (txdata : PrecomputedTransactionData) (ins : list CTxIn) (n : nat) (st : CValidationState) (v v' : view) :
  script_loop CheckLowS Verify b false tx flags txdata ins n st v = Some (inl [], v') <->
  exists q, script_loop CheckLowS Verify b true tx flags txdata ins n st v = Some (inl q, v') /\ wait CheckLowS Verify b q = Some true.
Proof.
  revert n v. induction ins as [|i ins IH]; intros n v; cbn [script_loop].
  { split; [intros [= <-]; by exists []|]. by intros (q & [= <- <-] & _). }
  destruct (AccessCoin (prevout i) v) as [c v1]. destruct (IsSpent c); [split; [done|by intros (q & ? & _)]|].
  set (check := mk_check (scriptPubKey (out c)) (nValue (out c)) tx n flags txdata). destruct (run_check CheckLowS Verify b check) as [ok|] eqn:Er; cbn [mbind option_bind].
  - destruct ok.
    + rewrite IH. split.
      * intros (q & -> & Hq). exists (check :: q). split; [done|]. cbn [wait]. rewrite Er. cbn [mbind option_bind]. by rewrite Hq.
      * intros (q & Eq & Hq). destruct (script_loop _ _ _ _ _ _ _ _ _ _ _) as [[[q'|st'] v2]|]; cbn [mbind option_bind] in Eq; [|done|done].
        injection Eq as <- <-. exists q'. split; [done|]. cbn [wait] in Hq. rewrite Er in Hq. cbn [mbind option_bind] in Hq.
        destruct (wait _ _ _ q') as [ok'|]; [|done]. cbn [mbind option_bind andb] in Hq. done.
    + split.
      * destruct (negb _); [|done]. destruct (run_check CheckLowS Verify b (mk_check _ _ _ _ (Z.ldiff _ _) _)) as [[|]|]; intros H; cbn [mbind option_bind] in H; discriminate H.
      * intros (q & Eq & Hq). exfalso. destruct (script_loop _ _ _ _ _ _ _ _ _ _ _) as [[[q'|st'] v2]|]; cbn [mbind option_bind] in Eq; [|done|done].
        injection Eq as <- <-. cbn [wait] in Hq. rewrite Er in Hq. cbn [mbind option_bind] in Hq. by destruct (wait _ _ _ q').
  - split; [done|]. intros (q & Eq & Hq). exfalso. destruct (script_loop _ _ _ _ _ _ _ _ _ _ _) as [[[q'|st'] v2]|]; cbn [mbind option_bind] in Eq; [|done|done].
    injection Eq as <- <-. cbn [wait] in Hq. by rewrite Er in Hq.
Qed.

(** ** Witnesses *)

(** The first block pays the premine, and spends a Sigma mint of 25 coins. *)
Definition demo_forks : fork_params := mk_forks true 450000 0 0 false false nDefaultSubsidyHalvingInterval main_nPremineSubsidy.
Definition demo_coinbase : CMutableTransaction :=
  mk_tx 1 0 [mk_txin outpoint_null [1; 1] 0xffffffff []] [mk_txout (main_nPremineSubsidy * COIN) [0x51] (-10)] 0 [].
Definition demo_spend : CMutableTransaction :=
  mk_tx 1 0 [mk_txin (mk_outpoint null256 1) [OP_SIGMASPEND; 7] 0xffffffff []] [mk_txout (24 * COIN) [0x51] (-10)] 0 [].
Definition demo_denominations (tx : CMutableTransaction) : Z := 25 * COIN.
Definition demo_index : CBlockIndex := set_prev (new_index (mk_hdr [1] [0] 1 1600000000 0x1d00ffff)) 0 1.
Definition demo_first_block : block_ctx := mk_block [(replicate 32 5, demo_coinbase); (replicate 32 6, demo_spend)] 1 demo_index.
Definition empty_view : view := Cache ∅ null256 (DB ∅ null256).

Lemma empty_view_wf : wf empty_view.
Proof. split; intros o c H; by rewrite lookup_empty in H. Qed.

Lemma empty_view_utxo o : utxo empty_view o = None.
Proof. unfold empty_view. cbn [utxo]. by rewrite !lookup_empty. Qed.

Lemma demo_first_block_ok : block_ok demo_denominations demo_first_block.
Proof.
  split.
  - exists (replicate 32 5), demo_coinbase, [(replicate 32 6, demo_spend)]. split; [done|]. split; [done|]. apply Forall_singleton. vm_compute. reflexivity.
  - constructor; [|apply Forall_singleton]; exists false; cbn [snd].
    + split; [right; split; discriminate|vm_compute; discriminate|vm_compute; discriminate| |].
      * unfold MAX_MONEY, COIN. split; [repeat constructor; vm_compute; discriminate|vm_compute; discriminate].
      * intros _. vm_compute. repeat constructor. intros H. inversion H.
    + split; [right; split; discriminate|vm_compute; discriminate|vm_compute; discriminate| |].
      * unfold MAX_MONEY, COIN. split; [repeat constructor; vm_compute; discriminate|vm_compute; discriminate].
      * intros _. change (spends_mint demo_spend) with true. split; [reflexivity|]. repeat constructor. intros H. inversion H.
  - vm_compute. discriminate.
  - apply Forall_forall. intros q _ _. vm_compute. split; discriminate.
Qed.

Definition no_low_s (s : valtype) : bool := true.
Definition no_sigs (key hash sig : list Z) : bool := false.
Definition demo_connect (st : CValidationState) (v : view) :=
  connect_block no_low_s no_sigs (replicate 64 0) accept accept accept demo_denominations demo_forks empty_node demo_first_block true false st v.

Lemma accepted_block_adds_subsidy_witness :
  exists undo st' v' g', demo_connect new_state empty_view = Some (inl (undo, st', v')) /\ reps g' (utxo v') /\
    value g' <= main_nPremineSubsidy * COIN + 25 * COIN /\ utxo v' (mk_outpoint (replicate 32 5) 0) <> None /\ utxo v' (mk_outpoint (replicate 32 6) 0) <> None.
Proof.
  destruct (demo_connect new_state empty_view) as [[[[undo st'] v']|]|] eqn:E; [|vm_compute in E; discriminate E|vm_compute in E; discriminate E].
  destruct (accepted_block_adds_subsidy no_low_s no_sigs (replicate 64 0) accept accept accept demo_denominations demo_forks empty_node demo_first_block true false
              new_state st' empty_view v' undo ∅) as ((_ & _ & g' & Hr & _ & Hv) & _).
  - vm_compute. discriminate.
  - exact demo_first_block_ok.
  - exact I.
  - exact empty_view_wf.
  - intros o. rewrite lookup_empty, empty_view_utxo. reflexivity.
  - apply map_Forall_empty.
  - vm_compute. discriminate.
  - vm_compute. split; discriminate.
  - exact E.
  - exists undo, st', v', g'. split; [reflexivity|]. split; [exact Hr|]. split; [exact Hv|]. vm_compute in E. injection E as _ _ <-. vm_compute. split; discriminate.
Defined.

Lemma supply_invariant_witness :
  exists v g, chain_view no_low_s no_sigs (replicate 64 0) accept accept accept demo_denominations demo_forks 2 (25 * COIN) v /\ reps g (utxo v) /\
    value g <= issued nDefaultSubsidyHalvingInterval main_nPremineSubsidy 2 + 25 * COIN.
Proof.
  destruct (demo_connect new_state empty_view) as [[[[undo st'] v']|]|] eqn:E; [|vm_compute in E; discriminate E|vm_compute in E; discriminate E].
  assert (Hc : chain_view no_low_s no_sigs (replicate 64 0) accept accept accept demo_denominations demo_forks 2 (25 * COIN) v').
  { apply (chain_block no_low_s no_sigs (replicate 64 0) accept accept accept demo_denominations demo_forks 1 0 empty_view empty_node demo_first_block true false new_state undo st' v').
    - apply chain_genesis; [exact I|exact empty_view_wf|exact empty_view_utxo].
    - vm_compute. reflexivity.
    - exact demo_first_block_ok.
    - exact E. }
  destruct (supply_invariant no_low_s no_sigs (replicate 64 0) accept accept accept demo_denominations demo_forks 2 (25 * COIN) v') as (_ & g & Hr & [_ Hv] & _).
  - split; reflexivity.
  - exact Hc.
  - vm_compute. discriminate.
  - exists v', g. split; [exact Hc|]. split; [exact Hr|exact Hv].
Defined.
