(* ===== verification/Compressor.v ===== *)
(** * Compressor: the compact format of coins and undo data

    Models compressor.h and compressor.cpp, the serialization of [Coin] in
    coins.h, the undo records of undo.h, and UndoWriteToDisk and UndoReadFromDisk
    of validation.cpp.

    The parsing and printing of curve points by the secp256k1 library are
    parameters.  Reading fills an object that exists, so a reader takes the
    object's old value where the code does not overwrite all of it.  [None] is a
    failed assertion, an overflow of a signed integer or an exception; streams
    are shorter than 2^31 bytes. *)

From S2P Require Import Prelude Words Serialize SerializeVector Script Interpreter Transaction Coins Hash SignatureHash.

(** ** Amounts *)

(** [while (((n % 10) == 0) && e < 9)], with [9 - e] as fuel. *)
Fixpoint strip_zeros (fuel : nat) (n e : Z) : Z * Z :=
  match fuel with
  | O => (n, e)
  | S fuel => if n mod 10 =? 0 then strip_zeros fuel (n / 10) (e + 1) else (n, e)
  end.

Definition CompressAmount (n : Z) : option Z :=
  if n =? 0 then Some 0
  else
    let '(n, e) := strip_zeros 9 n 0 in
    if e <? 9 then
      let d := n mod 10 in
      if (1 <=? d) && (d <=? 9) then Some (u64 (1 + (n / 10 * 9 + d - 1) * 10 + e)) else None
    else Some (u64 (1 + (n - 1) * 10 + 9)).

(** [while (e)] *)
Fixpoint times10 (e : nat) (n : Z) : Z :=
  match e with O => n | S e => times10 e (u64 (n * 10)) end.

Definition DecompressAmount (x : Z) : Z :=
  if x =? 0 then 0
  else
    let x := x - 1 in
    let e := x mod 10 in
    let x := x / 10 in
    let n := if e <? 9 then u64 (x / 9 * 10 + (x mod 9 + 1)) else u64 (x + 1) in
    times10 (Z.to_nat e) n.

(** ** Scripts *)

Definition nSpecialScripts : Z := 6.

Definition IsToKeyID (script : list Z) : option (list Z) :=
  if (length script =? 25)%nat && (script.[0] =? OP_DUP) && (script.[1] =? OP_HASH160) && (script.[2] =? 20) &&
     (script.[23] =? OP_EQUALVERIFY) && (script.[24] =? OP_CHECKSIG)
  then Some (take 20 (drop 3 script)) else None.

Definition IsToScriptID (script : list Z) : option (list Z) :=
  if (length script =? 23)%nat && (script.[0] =? OP_HASH160) && (script.[1] =? 20) && (script.[22] =? OP_EQUAL)
  then Some (take 20 (drop 2 script)) else None.

Definition GetSpecialSize (nSize : Z) : nat :=
  if (nSize =? 0) || (nSize =? 1) then 20%nat
  else if (nSize =? 2) || (nSize =? 3) || (nSize =? 4) || (nSize =? 5) then 32%nat
  else 0%nat.

(** [ignore] of the streams: the end of the data is an exception. *)
Definition ignore (nSize : Z) (s : stream) : option stream :=
  if Z.of_nat (length s) <? nSize then None else Some (drop (Z.to_nat nSize) s).

Section compressor.
(** [secp256k1_ec_pubkey_parse], and [secp256k1_ec_pubkey_serialize] with the
    flag SECP256K1_EC_UNCOMPRESSED. *)
Context {P : Type} (parse : list Z -> option P) (serialize : P -> list Z).

(** A public key is [None] when it is not [IsValid]. *)
Definition IsFullyValid (pubkey : option (list Z)) : bool :=
  match pubkey with
  | None => false
  | Some vch => match parse vch with Some _ => true | None => false end
  end.

(** [CPubKey::Decompress]: the key it leaves, or [None] when it returns false. *)
Definition Decompress_pubkey (pubkey : option (list Z)) : option (option (list Z)) :=
  vch ← pubkey; p ← parse vch; Some (CPubKey (serialize p)).

Definition IsToPubKey (script : list Z) : option (list Z) :=
  if (length script =? 35)%nat && (script.[0] =? 33) && (script.[34] =? OP_CHECKSIG) && ((script.[1] =? 0x02) || (script.[1] =? 0x03))
  then CPubKey (take 33 (drop 1 script))
  else if (length script =? 67)%nat && (script.[0] =? 65) && (script.[66] =? OP_CHECKSIG) && (script.[1] =? 0x04)
  then let pubkey := CPubKey (take 65 (drop 1 script)) in if IsFullyValid pubkey then pubkey else None
  else None.

Definition Compress (script : list Z) : option (list Z) :=
  match IsToKeyID script with
  | Some keyID => Some (0x00 :: keyID)
  | None =>
  match IsToScriptID script with
  | Some scriptID => Some (0x01 :: scriptID)
  | None =>
  match IsToPubKey script with
  | Some pubkey =>
      if (pubkey.[0] =? 0x02) || (pubkey.[0] =? 0x03) then Some (pubkey.[0] :: take 32 (drop 1 pubkey))
      else if pubkey.[0] =? 0x04 then Some (Z.lor 0x04 (Z.land pubkey.[64] 0x01) :: take 32 (drop 1 pubkey))
      else None
  | None => None
  end end end.

(** The result and the script; [data] has [GetSpecialSize nSize] bytes. *)
Definition Decompress (nSize : Z) (data script : list Z) : option (bool * list Z) :=
  if nSize =? 0x00 then Some (true, [OP_DUP; OP_HASH160; 20] ++ take 20 data ++ [OP_EQUALVERIFY; OP_CHECKSIG])
  else if nSize =? 0x01 then Some (true, [OP_HASH160; 20] ++ take 20 data ++ [OP_EQUAL])
  else if (nSize =? 0x02) || (nSize =? 0x03) then Some (true, [33; nSize] ++ take 32 data ++ [OP_CHECKSIG])
  else if (nSize =? 0x04) || (nSize =? 0x05) then
    match Decompress_pubkey (CPubKey (u8 (nSize - 2) :: take 32 data)) with
    | None => Some (false, script)
    | Some None => None
    | Some (Some vch) => if (length vch =? 65)%nat then Some (true, [65] ++ vch ++ [OP_CHECKSIG]) else None
    end
  else Some (false, script).

Definition Serialize_script (script : list Z) : stream :=
  match Compress script with
  | Some compr => compr
  | None => WriteVarInt 32 (u32 (Z.of_nat (length script) + nSpecialScripts)) ++ script
  end.

(** The result of [Decompress] is not tested. *)
Definition Unserialize_script (script : list Z) : reader (list Z) := fun s =>
  '(nSize, s) ← ReadVarInt 32 s;
  if nSize <? nSpecialScripts then
    '(vch, s) ← read (GetSpecialSize nSize) s;
    '(_, script) ← Decompress nSize vch script;
    Some (script, s)
  else
    let nSize := nSize - nSpecialScripts in
    if MAX_SCRIPT_SIZE <? nSize then s ← ignore nSize s; Some (script ++ [OP_RETURN], s)
    else read (Z.to_nat nSize) s.

(** [CTxOutCompressor] *)
Definition Serialize_compressed (txout : CTxOut) : option stream :=
  nVal ← CompressAmount (u64 (nValue txout)); Some (WriteVarInt 64 nVal ++ Serialize_script (scriptPubKey txout)).
Definition Unserialize_compressed (txout : CTxOut) : reader CTxOut := fun s =>
  '(nVal, s) ← ReadVarInt 64 s;
  '(script, s) ← Unserialize_script (scriptPubKey txout) s;
  Some (mk_txout (i64 (DecompressAmount nVal)) script (nRounds txout), s).

(** ** Coins *)

(** [nHeight * 2 + fCoinBase]: both fields are promoted to [int]. *)
Definition height_code (c : Coin) : option Z :=
  let code := nHeight c * 2 + (if fCoinBase c then 1 else 0) in if code <? 2 ^ 31 then Some code else None.

Definition Serialize_coin (c : Coin) : option stream :=
  if IsSpent c then None
  else code ← height_code c; o ← Serialize_compressed (out c); Some (WriteVarInt 32 code ++ o).
Definition Unserialize_coin (c : Coin) : reader Coin := fun s =>
  '(code, s) ← ReadVarInt 32 s;
  '(o, s) ← Unserialize_compressed (out c) s;
  Some (mk_coin o (negb (Z.land code 1 =? 0)) (code ≫ 1), s).

(** ** Undo records *)

(** [TxInUndoSerializer] and [TxInUndoDeserializer]; the version is not used. *)
Definition Serialize_undo (c : Coin) : option stream :=
  code ← height_code c; o ← Serialize_compressed (out c);
  Some (WriteVarInt 32 code ++ (if 0 <? nHeight c then ser_writedata8 0 else []) ++ o).
Definition Unserialize_undo (c : Coin) : reader Coin := fun s =>
  '(nCode, s) ← ReadVarInt 32 s;
  '(_, s) ← (if 0 <? nCode / 2 then ReadVarInt 32 s else Some (0, s));
  '(o, s) ← Unserialize_compressed (out c) s;
  Some (mk_coin o (negb (Z.land nCode 1 =? 0)) (nCode / 2), s).

(** [CTxIn()] *)
Definition txin_null : CTxIn := mk_txin outpoint_null [] SEQUENCE_FINAL [].
Definition MAX_INPUTS_PER_BLOCK : Z := 2000000 / GetSerializeSize (Serialize_txin txin_null).

Definition Serialize_txundo (vprevout : list Coin) : option stream :=
  l ← mapM Serialize_undo vprevout; Some (WriteCompactSize (Z.of_nat (length vprevout)) ++ concat l).

(** [for (auto& prevout : vprevout)] *)
Fixpoint read_prevouts (vprevout : list Coin) : reader (list Coin) := fun s =>
  match vprevout with
  | [] => Some ([], s)
  | c :: l => '(c, s) ← Unserialize_undo c s; '(l, s) ← read_prevouts l s; Some (c :: l, s)
  end.

Definition Unserialize_txundo (vprevout : list Coin) : reader (list Coin) := fun s =>
  '(count, s) ← ReadCompactSize s;
  if MAX_INPUTS_PER_BLOCK <? count then None
  else read_prevouts (take (Z.to_nat count) vprevout ++ replicate (Z.to_nat count - length vprevout) coinEmpty) s.

(** [CBlockUndo]: the vector is cleared first; [grow] is [5000000 / sizeof(CTxUndo)]. *)
Definition Serialize_blockundo (vtxundo : list (list Coin)) : option stream :=
  l ← mapM Serialize_txundo vtxundo; Some (WriteCompactSize (Z.of_nat (length vtxundo)) ++ concat l).
Definition Unserialize_blockundo (grow : Z) : reader (list (list Coin)) := Unserialize_vector (Unserialize_txundo []) grow.

(** ** Undo files *)

(** The file with [data] written at [nPos]. *)
Definition write_at (file : list Z) (nPos : nat) (data : list Z) : list Z :=
  take nPos file ++ data ++ drop (nPos + length data) file.

(** The file, and the position of the undo data. *)
Definition UndoWriteToDisk (b : list Z) (blockundo : list (list Coin)) (file : list Z) (nPos : nat) (hashBlock messageStart : list Z) :
    option (list Z * nat) :=
  data ← Serialize_blockundo blockundo;
  let index := messageStart ++ ser_writedata32 (Z.of_nat (length data)) in
  let checksum := CHashWriter b [hashBlock; data] in
  Some (write_at file nPos (index ++ data ++ checksum), (nPos + length index)%nat).

(** [CHashVerifier] hashes the bytes that it reads. *)
Definition UndoReadFromDisk (b : list Z) (grow : Z) (file : list Z) (nPos : nat) (hashBlock : list Z) : option (list (list Coin)) :=
  let s := drop nPos file in
  '(blockundo, s1) ← Unserialize_blockundo grow s;
  let consumed := take (length s - length s1) s in
  '(hashChecksum, _) ← read 32 s1;
  if bool_decide (hashChecksum = CHashWriter b [hashBlock; consumed]) then Some blockundo else None.
End compressor.
