(* ===== verification/CompressorTheorems.v ===== *)
(** * CompressorTheorems: what is stored is what is read back

    Amounts, scripts, coins, undo records and undo files survive the way to disk
    and back. *)

From S2P Require Import Prelude Words Serialize SerializeCorrect SerializeVector ShaSpec Hash HashCorrect Script Interpreter Transaction Coins SignatureHash Compressor.

(** ** Amounts *)

(** The value that a code stands for, without bounds. *)
Definition exact_amount (x : Z) : Z :=
  if x =? 0 then 0
  else
    let q := (x - 1) / 10 in
    let e := (x - 1) mod 10 in
    (if e <? 9 then q / 9 * 10 + (q mod 9 + 1) else q + 1) * 10 ^ e.

(** [m] has lost its trailing zeros, at most [fuel] of them. *)
Definition stripped (fuel : nat) (m e : Z) : Prop := 0 < m /\ 0 <= e <= Z.of_nat fuel /\ (e < Z.of_nat fuel -> m mod 10 <> 0).

Lemma strip_zeros_mul fuel m e e0 : stripped fuel m e -> strip_zeros fuel (m * 10 ^ e) e0 = (m, e0 + e).
Proof.
  revert e e0. induction fuel as [|fuel IH]; intros e e0 (Hm & He & Hd); cbn [strip_zeros].
  - replace e with 0 by lia. f_equal; lia.
  - destruct (decide (e = 0)) as [->|Hne].
    + rewrite Z.mul_1_r. destruct (Z.eqb_spec (m mod 10) 0); [lia|]. f_equal. lia.
    + replace (10 ^ e) with (10 * 10 ^ (e - 1)) by (rewrite <-Z.pow_succ_r by lia; f_equal; lia).
      replace (m * (10 * 10 ^ (e - 1))) with (m * 10 ^ (e - 1) * 10) by ring.
      rewrite Z_mod_mult, Z_div_mult by lia. cbn [Z.eqb]. rewrite IH; [f_equal; lia|]. repeat split; try lia; intros; apply Hd; lia.
Qed.

Lemma strip_zeros_exists fuel n : 0 < n -> exists m e, n = m * 10 ^ e /\ stripped fuel m e.
Proof.
  revert n. induction fuel as [|fuel IH]; intros n Hn; [exists n, 0; split; [ring|repeat split; lia]|].
  destruct (decide (n mod 10 = 0)) as [H0|H0]; [|exists n, 0; split; [ring|repeat split; lia]].
  pose proof (Z.div_mod n 10 ltac:(lia)) as Hn10. destruct (IH (n / 10) ltac:(lia)) as (m & e & E & Hm & He & Hd).
  exists m, (e + 1). split; [rewrite Z.pow_add_r by lia; change (10 ^ 1) with 10; lia|]. repeat split; try lia; intros; apply Hd; lia.
Qed.

(** The code of [m * 10 ^ e], without bounds. *)
Definition code_of (m e : Z) : Z := if e <? 9 then 1 + (m / 10 * 9 + m mod 10 - 1) * 10 + e else 1 + (m - 1) * 10 + 9.

Lemma CompressAmount_code m e : stripped 9 m e -> CompressAmount (m * 10 ^ e) = Some (u64 (code_of m e)).
Proof.
  intros Hs. pose proof Hs as (Hm & He & Hd). unfold CompressAmount, code_of.
  destruct (Z.eqb_spec (m * 10 ^ e) 0); [lia|]. rewrite strip_zeros_mul by done. rewrite Z.add_0_l.
  destruct (Z.ltb_spec e 9); [|done]. pose proof (Z.mod_pos_bound m 10 ltac:(lia)).
  destruct (Z.leb_spec 1 (m mod 10)); [|lia]. destruct (Z.leb_spec (m mod 10) 9); [done|lia].
Qed.

Lemma code_of_bound m e : stripped 9 m e -> 1 <= code_of m e <= 9 * (m * 10 ^ e).
Proof.
  intros (Hm & He & Hd). unfold code_of. pose proof (Z.div_mod m 10 ltac:(lia)). pose proof (Z.mod_pos_bound m 10 ltac:(lia)).
  assert (e < 10 ^ e) by (apply Z.pow_gt_lin_r; lia).
  destruct (Z.ltb_spec e 9) as [Hlt|]; [specialize (Hd Hlt); assert (10 ^ e - 1 <= m * (10 ^ e - 1)) by nia; lia|]. replace e with 9 in * by lia. change (10 ^ 9) with 1000000000. lia.
Qed.

Lemma exact_amount_code m e : stripped 9 m e -> exact_amount (code_of m e) = m * 10 ^ e.
Proof.
  intros Hs. pose proof (code_of_bound m e Hs). destruct Hs as (Hm & He & Hd). unfold exact_amount.
  destruct (Z.eqb_spec (code_of m e) 0); [lia|]. unfold code_of.
  pose proof (Z.div_mod m 10 ltac:(lia)). pose proof (Z.mod_pos_bound m 10 ltac:(lia)). destruct (Z.ltb_spec e 9) as [Hlt|Hge].
  - set (k := m / 10 * 9 + m mod 10 - 1). replace (1 + k * 10 + e - 1) with (e + k * 10) by ring.
    rewrite Z.div_add, Z_mod_plus_full, (Z.div_small e 10), (Z.mod_small e 10), Z.add_0_l by lia. destruct (Z.ltb_spec e 9); [|lia]. f_equal.
    replace k with (m mod 10 - 1 + m / 10 * 9) by (unfold k; ring). rewrite Z.div_add, Z_mod_plus_full, Z.div_small, Z.mod_small by lia. lia.
  - replace e with 9 by lia. replace (1 + (m - 1) * 10 + 9 - 1) with (9 + (m - 1) * 10) by ring.
    rewrite Z.div_add, Z_mod_plus_full by lia. change (9 / 10) with 0. change (9 mod 10) with 9. cbn [Z.ltb Z.compare Pos.compare Pos.compare_cont]. f_equal. lia.
Qed.

Lemma exact_amount_inv x : 0 < x -> exists m e, stripped 9 m e /\ x = code_of m e.
Proof.
  intros Hx. set (q := (x - 1) / 10). set (e := (x - 1) mod 10).
  pose proof (Z.div_mod (x - 1) 10 ltac:(lia)) as Hd. pose proof (Z.mod_pos_bound (x - 1) 10 ltac:(lia)) as Hb.
  fold q e in Hd, Hb. assert (0 <= q) by (apply Z.div_pos; lia). unfold stripped, code_of. destruct (Z.ltb_spec e 9) as [Hlt|Hge].
  - exists (q / 9 * 10 + (q mod 9 + 1)), e. pose proof (Z.mod_pos_bound q 9 ltac:(lia)). pose proof (Z.div_mod q 9 ltac:(lia)). pose proof (Z.div_pos q 9 ltac:(lia) ltac:(lia)).
    assert (E : (q / 9 * 10 + (q mod 9 + 1)) / 10 = q / 9 /\ (q / 9 * 10 + (q mod 9 + 1)) mod 10 = q mod 9 + 1).
    { rewrite Z.add_comm, Z.div_add, Z_mod_plus_full, Z.div_small, Z.mod_small by lia. lia. }
    destruct E as [-> ->]. destruct (Z.ltb_spec e 9); lia.
  - exists (q + 1), e. destruct (Z.ltb_spec e 9); lia.
Qed.

Lemma times10_small e n : 0 <= n -> n * 10 ^ Z.of_nat e < 2 ^ 64 -> times10 e n = n * 10 ^ Z.of_nat e.
Proof.
  revert n. induction e as [|e IH]; intros n Hn Hb; cbn [times10]; [cbn; lia|].
  rewrite Nat2Z.inj_succ, Z.pow_succ_r in * by lia. assert (0 < 10 ^ Z.of_nat e) by (apply Z.pow_pos_nonneg; lia).
  rewrite IH; rewrite wrap_small by (unfold word; nia); nia.
Qed.

Lemma DecompressAmount_exact x : 0 <= x -> exact_amount x < 2 ^ 64 -> DecompressAmount x = exact_amount x.
Proof.
  intros Hx. unfold exact_amount, DecompressAmount. destruct (Z.eqb_spec x 0); [done|]. cbv zeta.
  set (q := (x - 1) / 10). set (e := (x - 1) mod 10). pose proof (Z.mod_pos_bound (x - 1) 10 ltac:(lia)) as Hb. fold e in Hb.
  assert (0 <= q) by (apply Z.div_pos; lia). pose proof (Z.mod_pos_bound q 9 ltac:(lia)). pose proof (Z.div_pos q 9 ltac:(lia) ltac:(lia)).
  assert (0 < 10 ^ e) by (apply Z.pow_pos_nonneg; lia).
  intros Hlt. destruct (e <? 9); rewrite wrap_small by (unfold word; nia);
    (rewrite times10_small; rewrite ?Z2Nat.id by lia; [done|lia|done]).
Qed.

Lemma amount_round_trip n : 0 <= n -> 9 * n < 2 ^ 64 -> exists x, CompressAmount n = Some x /\ 0 <= x <= 9 * n /\ DecompressAmount x = n.
Proof.
  intros Hn Hb. destruct (decide (n = 0)) as [->|Hn0]; [exists 0; repeat split; lia|].
  destruct (strip_zeros_exists 9 n ltac:(lia)) as (m & e & -> & Hs). pose proof (code_of_bound m e Hs).
  exists (code_of m e). rewrite CompressAmount_code, wrap_small by (done || (unfold word; lia)).
  repeat split; try lia. rewrite DecompressAmount_exact by (rewrite ?exact_amount_code by done; lia). by apply exact_amount_code.
Qed.

(** The compression of amounts is a bijection as far as 64 bits reach: an
    amount below 2^64 / 9 (which is far above MAX_MONEY) has a code, the code is
    at most nine times the amount and gives it back, the assertion on the last
    digit holds, and every code of an amount below 2^64 is the code that the
    amount gets. *)
Theorem amount_codec :
  (forall n, 0 <= n -> 9 * n < 2 ^ 64 -> exists x, CompressAmount n = Some x /\ 0 <= x <= 9 * n /\ DecompressAmount x = n) /\
  (forall x, word 64 x -> exact_amount x < 2 ^ 64 -> CompressAmount (DecompressAmount x) = Some x).
Proof.
  split; [exact amount_round_trip|].
  intros x [Hx Hb] He. rewrite DecompressAmount_exact by done. destruct (decide (x = 0)) as [->|Hx0]; [done|].
  destruct (exact_amount_inv x ltac:(lia)) as (m & e & Hs & ->). rewrite exact_amount_code, CompressAmount_code, wrap_small; done.
Qed.

(** ** Scripts *)

#[export] Instance var_int_extends w : Extends (ReadVarInt w).
Proof.
  unfold ReadVarInt. intros s. generalize 0. induction s as [|c s IH]; intros n x r q; cbn [read_loop app]; [done|].
  destruct (negb _); [apply IH|]. by intros [= <- <-].
Qed.

#[export] Instance var_int_round_trip w : 0 < w -> RoundTrip (WriteVarInt w) (ReadVarInt w) (word w).
Proof. intros Hw. split; [|apply _]. intros x rest Hx. by apply var_int_codec. Qed.

(** What the secp256k1 library documents: an uncompressed key that parses is
    printed as it was, and its compressed form (the parity of y in the first
    byte, then x) parses to the same point. *)
Class PointCodec {P} (parse : list Z -> option P) (serialize : P -> list Z) : Prop :=
  point_codec vch p : length vch = 65%nat -> vch.[0] = 4 -> parse vch = Some p ->
    serialize p = vch /\ parse (2 + vch.[64] mod 2 :: take 32 (drop 1 vch)) = Some p.

(** A list of known length, with its bytes named. *)
Tactic Notation "known_length" integer(n) hyp(script) :=
  do n (destruct script as [|? script]; [discriminate|]); destruct script; [|discriminate].

(** The equations of a conjunction of tests. *)
Ltac tests H := repeat (apply andb_prop in H; destruct H as [H ?]); repeat match goal with E : (_ =? _) = true |- _ => apply Z.eqb_eq in E end.

Lemma IsToKeyID_inv script h : IsToKeyID script = Some h ->
  length h = 20%nat /\ script = [OP_DUP; OP_HASH160; 20] ++ h ++ [OP_EQUALVERIFY; OP_CHECKSIG].
Proof.
  unfold IsToKeyID. destruct (_ && _) eqn:E; [|done]. intros [= <-]. tests E. apply Nat.eqb_eq in E.
  known_length 25 script. cbn [nth] in *. subst. done.
Qed.

Lemma IsToScriptID_inv script h : IsToScriptID script = Some h ->
  length h = 20%nat /\ script = [OP_HASH160; 20] ++ h ++ [OP_EQUAL].
Proof.
  unfold IsToScriptID. destruct (_ && _) eqn:E; [|done]. intros [= <-]. tests E. apply Nat.eqb_eq in E.
  known_length 23 script. cbn [nth] in *. subst. done.
Qed.

Section scripts.
Context {P : Type} (parse : list Z -> option P) (serialize : P -> list Z) `{Hpc : !PointCodec parse serialize}.

Lemma CPubKey_same vch v : CPubKey vch = Some v -> v = vch.
Proof. unfold CPubKey. destruct vch; [done|]. destruct (_ && _); [|done]. congruence. Qed.

Lemma IsToPubKey_inv script v : IsToPubKey parse script = Some v ->
  (length v = 33%nat /\ (v.[0] = 2 \/ v.[0] = 3) /\ script = [33] ++ v ++ [OP_CHECKSIG]) \/
  (length v = 65%nat /\ v.[0] = 4 /\ is_Some (parse v) /\ script = [65] ++ v ++ [OP_CHECKSIG]).
Proof.
  unfold IsToPubKey. destruct (_ && _) eqn:E.
  - intros Hv. apply CPubKey_same in Hv. subst v. left. tests E. apply Nat.eqb_eq in E. apply orb_prop in H.
    assert (Hb : script.[1] = 2 \/ script.[1] = 3) by (destruct H as [H|H]; apply Z.eqb_eq in H; auto).
    known_length 35 script. cbn [nth] in *. subst. cbn [drop take nth]. done.
  - clear E. destruct (_ && _) eqn:E; [|done]. destruct (IsFullyValid _ _) eqn:F; [|done]. intros Hv. rewrite Hv in F. cbn [IsFullyValid] in F.
    apply CPubKey_same in Hv. right. assert (is_Some (parse v)) by (destruct (parse v); [eauto|done]). clear F. tests E. apply Nat.eqb_eq in E.
    known_length 67 script. cbn [nth] in *. subst. cbn [drop take nth]. done.
Qed.

(** Reading a code that is one digit. *)
Lemma read_special_code k s : 0 <= k < 6 -> ReadVarInt 32 (k :: s) = Some (k, s).
Proof. intros Hk. assert (Hc : k = 0 \/ k = 1 \/ k = 2 \/ k = 3 \/ k = 4 \/ k = 5) by lia. repeat (destruct Hc as [Hc|Hc]; [by subst k|]). by subst k. Qed.

Lemma read_exactly n (a rest : list Z) : length a = n -> read n (a ++ rest) = Some (a, rest).
Proof. intros Hn. by apply (round_trip (enc := id)). Qed.

(** A special code and its data. *)
Lemma special_read k data rest old script : 0 <= k < 6 -> length data = GetSpecialSize k -> Decompress parse serialize k data old = Some (true, script) ->
  Unserialize_script parse serialize old ((k :: data) ++ rest) = Some (script, rest).
Proof.
  intros Hk Hl Hd. unfold Unserialize_script. cbn [app]. rewrite read_special_code by done. cbn [mbind option_bind].
  unfold nSpecialScripts. destruct (Z.ltb_spec k 6); [|lia]. rewrite read_exactly by done. cbn [mbind option_bind]. by rewrite Hd.
Qed.

Lemma parity_code y : Z.lor 4 (Z.land y 1) = 4 + y mod 2.
Proof. replace (Z.land y 1) with (y mod 2) by (symmetry; apply (Z.land_ones y 1); lia). pose proof (Z.mod_pos_bound y 2 ltac:(lia)).
  assert (H' : y mod 2 = 0 \/ y mod 2 = 1) by lia. by destruct H' as [-> | ->]. Qed.

Lemma compressed_script_read script c old rest : Compress parse script = Some c ->
  Unserialize_script parse serialize old (c ++ rest) = Some (script, rest).
Proof.
  unfold Compress. destruct (IsToKeyID script) as [h|] eqn:E1.
  { intros [= <-]. destruct (IsToKeyID_inv _ _ E1) as [Hl ->]. apply special_read; [lia|done|]. unfold Decompress. cbn [Z.eqb]. by rewrite take_ge by lia. }
  destruct (IsToScriptID script) as [h|] eqn:E2.
  { intros [= <-]. destruct (IsToScriptID_inv _ _ E2) as [Hl ->]. apply special_read; [lia|done|]. unfold Decompress. cbn [Z.eqb]. by rewrite take_ge by lia. }
  destruct (IsToPubKey parse script) as [v|] eqn:E3; [|done].
  destruct (IsToPubKey_inv _ _ E3) as [(Hl & Hv & ->)|(Hl & Hv & [p Hp] & ->)].
  - assert (Ev : v = v.[0] :: take 32 (drop 1 v)) by (rewrite take_ge by (rewrite length_drop; lia); by destruct v).
    assert (Hd : length (take 32 (drop 1 v)) = 32%nat) by (rewrite length_take, length_drop; lia).
    intros Hc. assert (c = v.[0] :: take 32 (drop 1 v)) as -> by (destruct Hv as [Hv|Hv]; rewrite Hv in Hc |- *; cbn in Hc; congruence).
    set (d := take 32 (drop 1 v)) in *. apply special_read; [lia|by destruct Hv as [-> | ->]|].
    unfold Decompress. rewrite (take_ge d 32) by lia. rewrite Ev. by destruct Hv as [-> | ->].
  - rewrite Hv, parity_code. cbn [Z.eqb Pos.eqb orb]. intros [= <-]. pose proof (Z.mod_pos_bound v.[64] 2 ltac:(lia)).
    destruct (Hpc v p Hl Hv Hp) as [Hs Hc]. set (d := take 32 (drop 1 v)) in *. assert (Hd : length d = 32%nat) by (unfold d; rewrite length_take, length_drop; lia).
    apply special_read; [lia| |].
    + unfold GetSpecialSize. assert (H' : v.[64] mod 2 = 0 \/ v.[64] mod 2 = 1) by lia. by destruct H' as [-> | ->].
    + assert (H' : v.[64] mod 2 = 0 \/ v.[64] mod 2 = 1) by lia. unfold Decompress. rewrite (take_ge d 32) by lia.
      assert (Hk : CPubKey (u8 (4 + v.[64] mod 2 - 2) :: d) = Some (2 + v.[64] mod 2 :: d)).
      { unfold CPubKey. cbn [length]. rewrite Hd. by destruct H' as [-> | ->]. }
      rewrite Hk. unfold Decompress_pubkey. cbn [mbind option_bind]. rewrite Hc. cbn [mbind option_bind]. rewrite Hs.
      assert (Hk' : CPubKey v = Some v) by (destruct v as [|x v]; [done|]; cbn [nth] in Hv; subst x; unfold CPubKey; by rewrite Hl).
      rewrite Hk', Hl. by destruct H' as [-> | ->].
Qed.

Lemma script_read script old rest : Z.of_nat (length script) <= MAX_SCRIPT_SIZE ->
  Unserialize_script parse serialize old (Serialize_script parse script ++ rest) = Some (script, rest).
Proof.
  intros Hl. unfold Serialize_script. destruct (Compress parse script) as [c|] eqn:E; [by apply compressed_script_read|].
  unfold MAX_SCRIPT_SIZE, nSpecialScripts in *. rewrite wrap_small by (unfold word; lia). unfold Unserialize_script. rewrite <-app_assoc.
  rewrite (round_trip (RoundTrip := var_int_round_trip 32 eq_refl)) by (unfold word; lia). cbn [mbind option_bind]. unfold nSpecialScripts, MAX_SCRIPT_SIZE.
  destruct (Z.ltb_spec (Z.of_nat (length script) + 6) 6); [lia|]. destruct (Z.ltb_spec 10000 (Z.of_nat (length script) + 6 - 6)); [lia|].
  apply read_exactly. lia.
Qed.

#[export] Instance script_extends old : Extends (Unserialize_script parse serialize old).
Proof.
  apply extends_bind; [apply _|]. intros n. apply extends_if.
  - apply extends_bind; [apply _|]. intros vch s x r q. destruct (Decompress parse serialize n vch old) as [[b script]|]; [|done]. cbn [mbind option_bind].
    by intros [= <- <-].
  - apply extends_if; [|apply _]. intros s x r q. unfold ignore. destruct (Z.ltb_spec (Z.of_nat (length s)) (n - nSpecialScripts)); [done|]. cbn [mbind option_bind].
    intros [= <- <-]. rewrite length_app. destruct (Z.ltb_spec (Z.of_nat (length s + length q)) (n - nSpecialScripts)); [lia|]. cbn [mbind option_bind].
    by rewrite drop_app_le by lia.
Qed.

(** ** Coins and undo records *)

(** The coins that a node stores: an amount of money, a script that can be spent, and a height. *)
Record stored_ok (c : Coin) : Prop := {
  ok_value : 0 <= nValue (out c) /\ 9 * nValue (out c) < 2 ^ 64;
  ok_script : Z.of_nat (length (scriptPubKey (out c))) <= MAX_SCRIPT_SIZE;
  ok_rounds : nRounds (out c) = -10;
  ok_height : 0 <= nHeight c < 2 ^ 30 }.

Lemma compressed_read c : stored_ok c -> exists bs, Serialize_compressed parse (out c) = Some bs /\
  forall old rest, nRounds old = -10 -> Unserialize_compressed parse serialize old (bs ++ rest) = Some (out c, rest).
Proof.
  intros [[Hv Hb] Hs Hr _]. unfold Serialize_compressed. rewrite wrap_small by (unfold word; lia).
  destruct (amount_round_trip _ Hv Hb) as (x & -> & Hx & Hd). cbn [mbind option_bind]. eexists; split; [done|].
  intros old rest Ho. unfold Unserialize_compressed. rewrite <-app_assoc, (round_trip (RoundTrip := var_int_round_trip 64 eq_refl)) by (unfold word; lia).
  cbn [mbind option_bind]. rewrite script_read by done. cbn [mbind option_bind]. rewrite Hd, Ho, <-Hr.
  unfold i64. cbv zeta. rewrite Z.mod_small by lia. destruct (Z.ltb_spec (nValue (out c)) (2 ^ 63)); [|lia]. by destruct (out c).
Qed.

Lemma height_code_ok c : stored_ok c -> exists code, height_code c = Some code /\ word 32 code /\
  code / 2 = nHeight c /\ code ≫ 1 = nHeight c /\ negb (Z.land code 1 =? 0) = fCoinBase c.
Proof.
  intros [_ _ _ Hh]. unfold height_code. destruct (Z.ltb_spec (nHeight c * 2 + (if fCoinBase c then 1 else 0)) (2 ^ 31)); [|destruct (fCoinBase c); lia].
  eexists; split; [done|]. unfold word. rewrite Z.shiftr_div_pow2 by lia. change (2 ^ 1) with 2. rewrite (Z.land_ones _ 1) by lia. change (2 ^ 1) with 2.
  destruct (fCoinBase c); rewrite Z.add_comm, Z.div_add, Z_mod_plus_full by lia; cbn; repeat split; lia.
Qed.

Lemma coin_read c : stored_ok c -> exists bs, Serialize_coin parse c = Some bs /\ 
  forall old rest, nRounds (out old) = -10 -> Unserialize_coin parse serialize old (bs ++ rest) = Some (c, rest).
Proof.
  intros Hc. unfold Serialize_coin, IsSpent, TxOut_IsNull. destruct (Z.eqb_spec (nValue (out c)) (-1)); [destruct (ok_value c Hc); lia|].
  destruct (height_code_ok c Hc) as (code & -> & Hw & _ & Hh & Hf). destruct (compressed_read c Hc) as (bs & -> & Hr). cbn [mbind option_bind].
  eexists; split; [done|]. intros old rest Ho. unfold Unserialize_coin.
  rewrite <-app_assoc, (round_trip (RoundTrip := var_int_round_trip 32 eq_refl)) by done. cbn [mbind option_bind].
  rewrite Hr by done. cbn [mbind option_bind]. rewrite Hh, Hf. by destruct c.
Qed.

(** Whatever version an older node wrote where zero is written now. *)
Lemma undo_read c : stored_ok c -> exists code o,
  Serialize_undo parse c = Some (WriteVarInt 32 code ++ (if 0 <? nHeight c then WriteVarInt 32 0 else []) ++ o) /\
  forall old version rest, nRounds (out old) = -10 -> word 32 version ->
    Unserialize_undo parse serialize old ((WriteVarInt 32 code ++ (if 0 <? nHeight c then WriteVarInt 32 version else []) ++ o) ++ rest) = Some (c, rest).
Proof.
  intros Hc. unfold Serialize_undo. destruct (height_code_ok c Hc) as (code & -> & Hw & Hh & _ & Hf). destruct (compressed_read c Hc) as (o & -> & Hr). cbn [mbind option_bind].
  exists code, o. split; [done|]. intros old version rest Ho Hv. unfold Unserialize_undo.
  rewrite <-!app_assoc, (round_trip (RoundTrip := var_int_round_trip 32 eq_refl)) by done. cbn [mbind option_bind]. rewrite Hh.
  destruct (0 <? nHeight c); [rewrite (round_trip (RoundTrip := var_int_round_trip 32 eq_refl)) by done|]; cbn [mbind option_bind app];
    rewrite Hr by done; cbn [mbind option_bind]; rewrite Hf; by destruct c.
Qed.

(** A writer that can fail, where it does not. *)
Definition enc {A} (ser : A -> option stream) (x : A) : stream := default [] (ser x).

Lemma enc_some {A} (ser : A -> option stream) x bs : ser x = Some bs -> enc ser x = bs.
Proof. unfold enc. by intros ->. Qed.

Lemma mapM_enc {A} (ser : A -> option stream) l : Forall (fun x => is_Some (ser x)) l -> mapM ser l = Some (map (enc ser) l).
Proof. induction 1 as [|x l [bs Hx] _ IH]; [done|]. cbn [mapM map]. unfold enc at 1. by rewrite Hx, IH. Qed.

Lemma compressed_extends old : Extends (Unserialize_compressed parse serialize old).
Proof. apply extends_bind; [apply _|]. intros n. apply extends_bind; [apply _|auto with ser]. Qed.

#[export] Instance undo_round_trip : RoundTrip (enc (Serialize_undo parse)) (Unserialize_undo parse serialize coinEmpty) stored_ok.
Proof.
  split.
  - intros c rest Hc. destruct (undo_read c Hc) as (code & o & E & H). rewrite (enc_some _ _ _ E). by apply H.
  - apply extends_bind; [apply _|]. intros n. apply extends_bind; [destruct (0 <? n / 2); [exact (var_int_extends 32)|auto with ser]|]. intros _.
    apply extends_bind; [apply compressed_extends|auto with ser].
Qed.

Lemma read_prevouts_fresh n s : read_prevouts parse serialize (replicate n coinEmpty) s = read_array (Unserialize_undo parse serialize coinEmpty) n s.
Proof. revert s. induction n as [|n IH]; intros s; cbn [replicate read_prevouts read_array]; [done|]. destruct (Unserialize_undo _ _ _ s) as [[c s']|]; [|done]. cbn. by rewrite IH. Qed.

Definition txundo_ok (l : list Coin) : Prop := Z.of_nat (length l) <= MAX_INPUTS_PER_BLOCK /\ Forall stored_ok l.

Lemma Serialize_txundo_ok l : txundo_ok l -> Serialize_txundo parse l = Some (WriteCompactSize (Z.of_nat (length l)) ++ flat_map (enc (Serialize_undo parse)) l).
Proof.
  intros [_ Hl]. unfold Serialize_txundo. rewrite mapM_enc; [cbn; by rewrite flat_map_concat_map|].
  eapply Forall_impl; [exact Hl|]. intros c Hc. destruct (undo_read c Hc) as (? & ? & -> & _). done.
Qed.

#[export] Instance txundo_round_trip : RoundTrip (enc (Serialize_txundo parse)) (Unserialize_txundo parse serialize []) txundo_ok.
Proof.
  split.
  - intros l rest Hl. rewrite (enc_some _ _ _ (Serialize_txundo_ok l Hl)). destruct Hl as [Hn Hl]. unfold Unserialize_txundo. change MAX_INPUTS_PER_BLOCK with 48780 in *.
    rewrite <-app_assoc, round_trip by (unfold MAX_SIZE; lia). cbn [mbind option_bind]. destruct (Z.ltb_spec 48780 (Z.of_nat (length l))); [lia|].
    rewrite take_nil, app_nil_l, Nat2Z.id, Nat.sub_0_r, read_prevouts_fresh. apply round_trip; done.
  - apply extends_bind; [apply _|]. intros n. apply extends_if; [auto with ser|]. intros s. rewrite take_nil, app_nil_l, Nat.sub_0_r.
    intros x r q. rewrite !read_prevouts_fresh. apply array_extends, _.
Qed.

(** ** Undo files *)

Definition blockundo_ok (u : list (list Coin)) : Prop := short u /\ Forall txundo_ok u.

Lemma Serialize_blockundo_ok u : blockundo_ok u -> Serialize_blockundo parse u = Some (Serialize_vector (enc (Serialize_txundo parse)) u).
Proof.
  intros [_ Hu]. unfold Serialize_blockundo, Serialize_vector. rewrite mapM_enc; [cbn; by rewrite flat_map_concat_map|].
  eapply Forall_impl; [exact Hu|]. intros l Hl. by rewrite Serialize_txundo_ok.
Qed.

#[export] Instance blockundo_round_trip grow : 0 < grow -> RoundTrip (enc (Serialize_blockundo parse)) (Unserialize_blockundo parse serialize grow) blockundo_ok.
Proof.
  intros Hg. pose proof (vector_round_trip (enc (Serialize_txundo parse)) (Unserialize_txundo parse serialize []) txundo_ok grow Hg _) as Hrt.
  split; [|apply Hrt]. intros u rest Hu. rewrite (enc_some _ _ _ (Serialize_blockundo_ok u Hu)). by apply Hrt.
Qed.

Lemma write_at_read file nPos data : (nPos <= length file)%nat ->
  drop nPos (write_at file nPos data) = data ++ drop (nPos + length data) file /\ take nPos (write_at file nPos data) = take nPos file /\
  drop (nPos + length data) (write_at file nPos data) = drop (nPos + length data) file.
Proof.
  intros Hn. assert (Hl : length (take nPos file) = nPos) by (rewrite length_take; lia). unfold write_at.
  rewrite drop_app_length', take_app_length' by done. split; [done|]. split; [done|].
  by rewrite <-drop_drop, drop_app_length', drop_app_length' by done.
Qed.

(** Reading what was written, with the checksum of a given block. *)
Lemma read_written b grow u hashBlock data checksum rest : 0 < grow -> blockundo_ok u -> enc (Serialize_blockundo parse) u = data ->
  length checksum = 32%nat -> forall file nPos, drop nPos file = data ++ checksum ++ rest ->
  UndoReadFromDisk parse serialize b grow file nPos hashBlock = if bool_decide (checksum = CHashWriter b [hashBlock; data]) then Some u else None.
Proof.
  intros Hg Hu <- Hc file nPos Hf. unfold UndoReadFromDisk. rewrite Hf, (round_trip (RoundTrip := blockundo_round_trip grow Hg)) by done. cbn [mbind option_bind].
  rewrite read_exactly by done. cbn [mbind option_bind]. rewrite take_app_length' by (rewrite length_app; lia). done.
Qed.
End scripts.

(** C6: Undo data survives the disk, and only under its block.  For block undo data as a node writes it (amounts of money, scripts that can be spent, heights below 2^30, at most MAX_INPUTS_PER_BLOCK spent coins in a transaction), serialized as [data], whatever the file holds: UndoWriteToDisk succeeds, changes only the bytes of the record, and UndoReadFromDisk at the position it returns gives the undo data back.  With the hash of any other block it gives the data exactly when the double SHA-256 of that hash followed by [data] equals the double SHA-256 of the block's own hash followed by [data], and nothing otherwise; and from a file in which the 32 bytes after [data] are anything but that digest, it gives nothing. *)
Theorem undo_file_codec {P} (parse : list Z -> option P) (serialize : P -> list Z) (b : list Z) (grow : Z) (u : list (list Coin)) (file : list Z)
    (nPos : nat) (hashBlock messageStart : list Z) :
  PointCodec parse serialize -> 0 < grow -> length b = 64%nat -> blockundo_ok u -> (nPos <= length file)%nat ->
  exists data file' pos n, Serialize_blockundo parse u = Some data /\
    UndoWriteToDisk parse b u file nPos hashBlock messageStart = Some (file', pos) /\
    take nPos file' = take nPos file /\ drop (nPos + n) file' = drop (nPos + n) file /\
    UndoReadFromDisk parse serialize b grow file' pos hashBlock = Some u /\
    (forall otherBlock, UndoReadFromDisk parse serialize b grow file' pos otherBlock =
       if bool_decide (sha256 (sha256 (hashBlock ++ data)) = sha256 (sha256 (otherBlock ++ data))) then Some u else None) /\
    (forall corrupted checksum rest, drop pos corrupted = data ++ checksum ++ rest -> length checksum = 32%nat ->
       checksum <> sha256 (sha256 (hashBlock ++ data)) -> UndoReadFromDisk parse serialize b grow corrupted pos hashBlock = None).
Proof.
  intros Hpc Hg Hb Hu Hn. unfold UndoWriteToDisk. rewrite (Serialize_blockundo_ok parse serialize u Hu). cbn [mbind option_bind].
  set (data := Serialize_vector _ u). set (index := messageStart ++ _). set (checksum := CHashWriter b [hashBlock; data]).
  destruct (write_at_read file nPos (index ++ data ++ checksum) Hn) as (H1 & H2 & H3).
  assert (Hd : drop (nPos + length index) (write_at file nPos (index ++ data ++ checksum)) = data ++ checksum ++ drop (nPos + length (index ++ data ++ checksum)) file).
  { by rewrite <-drop_drop, H1, <-!app_assoc, drop_app_length. }
  assert (Hc : length checksum = 32%nat) by (unfold checksum; rewrite CHashWriter_spec, length_sha256; done).
  assert (He : enc (Serialize_blockundo parse) u = data) by (apply enc_some, (Serialize_blockundo_ok parse serialize u Hu)).
  assert (Hs : forall h, CHashWriter b [h; data] = sha256 (sha256 (h ++ data))) by (intros h; rewrite CHashWriter_spec by done; cbn [concat]; by rewrite app_nil_r).
  eexists data, _, _, (length (index ++ data ++ checksum)). split; [done|]. split; [done|]. split; [done|]. split; [done|]. split; [|split].
  - rewrite (read_written parse serialize b grow u hashBlock data checksum _ Hg Hu He Hc _ _ Hd). by rewrite bool_decide_true.
  - intros other. rewrite (read_written parse serialize b grow u other data checksum _ Hg Hu He Hc _ _ Hd). unfold checksum. by rewrite !Hs.
  - intros file' cs rest Hf Hcs Hne. rewrite (read_written parse serialize b grow u hashBlock data cs rest Hg Hu He Hcs _ _ Hf), Hs. by rewrite bool_decide_false.
Qed.

(** Scripts that were stored and cannot be read back.  An overly long script is
    skipped and OP_RETURN is appended to the script of the object that is read
    into, not put in its place; a key that does not decompress leaves that script
    as it was, without an error. *)
Theorem unreadable_scripts {P} (parse : list Z -> option P) (serialize : P -> list Z) old data rest :
  (MAX_SCRIPT_SIZE < Z.of_nat (length data) < 2 ^ 31 ->
   Unserialize_script parse serialize old (WriteVarInt 32 (Z.of_nat (length data) + nSpecialScripts) ++ data ++ rest) = Some (old ++ [OP_RETURN], rest)) /\
  (length data = 32%nat -> parse (2 :: data) = None -> Unserialize_script parse serialize old (4 :: data ++ rest) = Some (old, rest)).
Proof.
  unfold MAX_SCRIPT_SIZE, nSpecialScripts. split.
  - intros Hl. unfold Unserialize_script. rewrite (round_trip (RoundTrip := var_int_round_trip 32 eq_refl)) by (unfold word; lia). cbn [mbind option_bind].
    unfold nSpecialScripts, MAX_SCRIPT_SIZE, ignore. destruct (Z.ltb_spec (Z.of_nat (length data) + 6) 6); [lia|]. destruct (Z.ltb_spec 10000 (Z.of_nat (length data) + 6 - 6)); [|lia].
    rewrite length_app. destruct (Z.ltb_spec (Z.of_nat (length data + length rest)) (Z.of_nat (length data) + 6 - 6)); [lia|]. cbn [mbind option_bind].
    by rewrite drop_app_length' by lia.
  - intros Hl Hp. unfold Unserialize_script. rewrite read_special_code by lia. cbn [mbind option_bind Z.ltb Z.compare nSpecialScripts].
    change (4 <? nSpecialScripts) with true. cbv iota. rewrite read_exactly by done. cbn [mbind option_bind]. unfold Decompress. cbn [Z.eqb Pos.eqb orb].
    rewrite (take_ge data 32) by lia. assert (E : CPubKey (u8 (4 - 2) :: data) = Some (2 :: data)) by (unfold CPubKey; cbn [length]; by rewrite Hl).
    rewrite E. unfold Decompress_pubkey. cbn [mbind option_bind]. by rewrite Hp.
Qed.

(** ** Witnesses *)

(** A library that knows one point, the generator of the curve. *)
Definition demo_x : list Z := rev (le_encode 32 0x79BE667EF9DCBBAC55A06295CE870B07029BFCDB2DCE28D959F2815B16F81798).
Definition demo_y : list Z := rev (le_encode 32 0x483ADA7726A3C4655DA4FBFC0E1108A8FD17B448A68554199C47D08FFB10D4B8).
Definition demo_key : list Z := 4 :: demo_x ++ demo_y.
Definition demo_parse (vch : list Z) : option unit := if bool_decide (vch = demo_key \/ vch = 2 :: demo_x) then Some tt else None.

Lemma demo_points : PointCodec demo_parse (fun _ => demo_key).
Proof.
  intros vch p Hl Hv. unfold demo_parse at 1. case_bool_decide as Hk; [|done]. intros _. destruct Hk as [->|Hk]; [|by subst]. split; [done|].
  destruct p. unfold demo_parse. rewrite bool_decide_true by (right; vm_compute; reflexivity). done.
Qed.

Definition demo_undo : list (list Coin) :=
  [ [ mk_coin (mk_txout 5000000000 (65 :: demo_key ++ [OP_CHECKSIG]) (-10)) true 7; mk_coin (mk_txout 12345 [OP_1] (-10)) false 0 ] ].

Lemma demo_undo_ok : blockundo_ok demo_undo.
Proof. repeat constructor; vm_compute; intros; discriminate. Qed.

Lemma undo_file_codec_witness :
  exists data file pos, Serialize_blockundo demo_parse demo_undo = Some data /\
    UndoWriteToDisk demo_parse (replicate 64 0) demo_undo [9; 9; 9] 1 (replicate 32 5) [1; 2; 3; 4] = Some (file, pos) /\
    UndoReadFromDisk demo_parse (fun _ => demo_key) (replicate 64 0) 208333 file pos (replicate 32 5) = Some demo_undo /\
    UndoReadFromDisk demo_parse (fun _ => demo_key) (replicate 64 0) 208333 file pos (replicate 32 6) =
      if bool_decide (sha256 (sha256 (replicate 32 5 ++ data)) = sha256 (sha256 (replicate 32 6 ++ data))) then Some demo_undo else None.
Proof.
  destruct (undo_file_codec demo_parse (fun _ => demo_key) (replicate 64 0) 208333 demo_undo [9; 9; 9] 1 (replicate 32 5) [1; 2; 3; 4]
    demo_points eq_refl eq_refl demo_undo_ok ltac:(cbn; lia)) as (data & file & pos & n & H0 & H1 & _ & _ & H2 & H3 & _).
  exists data, file, pos. split; [exact H0|]. split; [exact H1|]. split; [exact H2|]. exact (H3 (replicate 32 6)).
Defined.
