(* ===== verification/CoinsDb.v ===== *)
(** * CoinsDb: the set of unspent outputs in the key-value store

    Models CDBWrapper and CDBBatch (dbwrapper.h, dbwrapper.cpp), [Xor] of
    CDataStream, and CoinEntry and CCoinsViewDB (txdb.cpp), over the compact format
    of coins.  LevelDB is a parameter, a store of byte strings with the laws that its
    documentation states; a failing status (corruption, input and output) is not
    modelled.

    The theorem shows that this store implements the database of the views: after
    any sequence of batches and restarts the lookups agree with those of the map
    from outpoints to coins. *)

From stdpp Require Import gmap.
From S2P Require Import Prelude Words Serialize SerializeCorrect SerializeVector CryptoCommon Script Transaction Coins Compressor CompressorTheorems.

(** ** LevelDB *)

Inductive operation := Put (key value : list Z) | Delete (key : list Z).

(** What a key holds after a batch, from what it held before. *)
Fixpoint after (batch : list operation) (cur : option (list Z)) (k : list Z) : option (list Z) :=
  match batch with
  | [] => cur
  | Put key value :: batch => after batch (if bool_decide (key = k) then Some value else cur) k
  | Delete key :: batch => after batch (if bool_decide (key = k) then None else cur) k
  end.

Class LevelDB (D : Type) := {
  Get : D -> list Z -> option (list Z);
  Write : D -> list operation -> D;
  Empty : D -> bool;
  get_write d batch k : Get (Write d batch) k = after batch (Get d k) k;
  empty_get d k : Empty d = true -> Get d k = None }.

(** ** CDBWrapper *)

(** The loop over [i] and [j]. *)
Fixpoint xor_loop (key : list Z) (j : nat) (vch : list Z) : list Z :=
  match vch with
  | [] => []
  | c :: vch => Z.lxor c key.[j] :: xor_loop key (if (S j =? length key)%nat then 0%nat else S j) vch
  end.
Definition Xor (key vch : list Z) : list Z := if (length key =? 0)%nat then vch else xor_loop key 0 vch.

Definition OBFUSCATE_KEY_NUM_BYTES : nat := 8.
(** The string with a leading zero byte and "obfuscate_key", as a key. *)
Definition OBFUSCATE_KEY_KEY : list Z := Serialize_bytes [0; 111; 98; 102; 117; 115; 99; 97; 116; 101; 95; 107; 101; 121].

Definition DB_COIN : Z := 67.
Definition DB_BEST_BLOCK : Z := 66.

Definition Serialize_entry (o : COutPoint) : stream := ser_writedata8 DB_COIN ++ op_hash o ++ WriteVarInt 32 (op_n o).
Definition Unserialize_entry : reader (Z * COutPoint) := fun s =>
  '(key, s) ← ser_readdata8 s; '(hash, s) ← read 32 s; '(n, s) ← ReadVarInt 32 s; Some (key, mk_outpoint hash n, s).

Section wrapper.
Context {D : Type} `{!LevelDB D}.

Record CDBWrapper := mk_db { pdb : D; obfuscate_key : list Z }.

(** [Read] into an object that [unser] fills; [None] is [false], for a missing key and for an exception. *)
Definition Read {V} (w : CDBWrapper) (ssKey : list Z) (unser : reader V) : option V :=
  strValue ← Get (pdb w) ssKey; '(value, _) ← unser (Xor (obfuscate_key w) strValue); Some value.

Definition Exists (w : CDBWrapper) (ssKey : list Z) : bool := match Get (pdb w) ssKey with Some _ => true | None => false end.

(** What [CDBBatch::Write] and [CDBBatch::Erase] add to the batch. *)
Definition batch_Write (w : CDBWrapper) (ssKey value : list Z) : operation := Put ssKey (Xor (obfuscate_key w) value).
Definition batch_Erase (ssKey : list Z) : operation := Delete ssKey.

Definition WriteBatch (w : CDBWrapper) (batch : list operation) : CDBWrapper := mk_db (Write (pdb w) batch) (obfuscate_key w).
Definition db_Write (w : CDBWrapper) (ssKey value : list Z) : CDBWrapper := WriteBatch w [batch_Write w ssKey value].

(** The constructor on an open store; [new_key] comes from [CreateObfuscateKey].
    A stored key that cannot be read, after which the object holds a part of it, is [None]. *)
Definition open_db (d : D) (obfuscate : bool) (new_key : list Z) : option CDBWrapper :=
  let w := mk_db d (replicate OBFUSCATE_KEY_NUM_BYTES 0) in
  if Exists w OBFUSCATE_KEY_KEY then key ← Read w OBFUSCATE_KEY_KEY Unserialize_bytes; Some (mk_db d key)
  else if obfuscate && Empty d then
    Some (mk_db (pdb (db_Write w OBFUSCATE_KEY_KEY (Serialize_bytes new_key))) new_key)
  else Some w.

(** ** CCoinsViewDB *)

Context {P : Type} (parse : list Z -> option P) (serialize : P -> list Z).

Definition db_GetCoin (w : CDBWrapper) (o : COutPoint) : option Coin := Read w (Serialize_entry o) (Unserialize_coin parse serialize coinEmpty).
Definition db_HaveCoin (w : CDBWrapper) (o : COutPoint) : bool := Exists w (Serialize_entry o).
Definition db_GetBestBlock (w : CDBWrapper) : list Z :=
  match Read w (ser_writedata8 DB_BEST_BLOCK) (read 32) with Some hashBestChain => hashBestChain | None => null256 end.

(** The loop of [BatchWrite] over the entries of the map. *)
Fixpoint batch_entries (w : CDBWrapper) (l : list (COutPoint * CCoinsCacheEntry)) : option (list operation) :=
  match l with
  | [] => Some []
  | (o, e) :: l =>
      ops ← (if is_dirty e then
               if IsSpent (coin e) then Some [batch_Erase (Serialize_entry o)]
               else bs ← Serialize_coin parse (coin e); Some [batch_Write w (Serialize_entry o) bs]
             else Some []);
      rest ← batch_entries w l; Some (ops ++ rest)
  end.

Definition db_BatchWrite (w : CDBWrapper) (l : list (COutPoint * CCoinsCacheEntry)) (hashBlock : list Z) : option CDBWrapper :=
  batch ← batch_entries w l;
  Some (WriteBatch w (batch ++ (if IsNull256 hashBlock then [] else [batch_Write w (ser_writedata8 DB_BEST_BLOCK) hashBlock]))).
End wrapper.

(** ** Keys and values *)

Lemma xor_loop_twice key j vch : xor_loop key j (xor_loop key j vch) = vch.
Proof. revert j. induction vch as [|c vch IH]; intros j; cbn [xor_loop]; [done|]. by rewrite Z.lxor_assoc, Z.lxor_nilpotent, Z.lxor_0_r, IH. Qed.

Lemma Xor_twice key vch : Xor key (Xor key vch) = vch.
Proof. unfold Xor. destruct (_ =? _)%nat; [done|apply xor_loop_twice]. Qed.

Lemma xor_loop_zero n j vch : (j < n)%nat -> xor_loop (replicate n 0) j vch = vch.
Proof.
  revert j. induction vch as [|c vch IH]; intros j Hj; cbn [xor_loop]; [done|]. rewrite length_replicate.
  replace ((replicate n 0).[j]) with 0 by (symmetry; destruct (nth_in_or_default j (replicate n 0) 0) as [H|H]; [by apply list_elem_of_In, elem_of_replicate in H as [-> _]|done]).
  rewrite Z.lxor_0_r, IH; [done|]. destruct (Nat.eqb_spec (S j) n); lia.
Qed.

Lemma Xor_zero vch : Xor (replicate OBFUSCATE_KEY_NUM_BYTES 0) vch = vch.
Proof. unfold OBFUSCATE_KEY_NUM_BYTES. apply (xor_loop_zero 8 0 vch). lia. Qed.

Lemma round_trip_inj {A enc dec} {dom : A -> Prop} (Hrt : RoundTrip enc dec dom) x y : dom x -> dom y -> enc x = enc y -> x = y.
Proof. intros Hx Hy E. pose proof (round_trip x [] Hx) as H. rewrite E, (round_trip y [] Hy) in H. congruence. Qed.

Definition outpoint_ok (o : COutPoint) : Prop := length (op_hash o) = 32%nat /\ word 32 (op_n o).

(** The keys of coins are read back, so they are distinct. *)
#[export] Instance entry_round_trip : RoundTrip Serialize_entry (fun s => '(x, s) ← Unserialize_entry s; Some (snd x, s)) outpoint_ok.
Proof.
  split.
  - intros o rest [Hh Hn]. unfold Serialize_entry, Unserialize_entry. rewrite <-!app_assoc, round_trip by (unfold DB_COIN, word; lia). cbn [mbind option_bind].
    rewrite read_exactly by done. cbn [mbind option_bind]. rewrite (round_trip (RoundTrip := var_int_round_trip 32 eq_refl)) by done. by destruct o.
  - apply extends_bind; [|auto with ser]. unfold Unserialize_entry. repeat (apply extends_bind; [apply _|intros ?]). auto with ser.
Qed.

Lemma entry_inj o o' : outpoint_ok o -> outpoint_ok o' -> Serialize_entry o = Serialize_entry o' -> o = o'.
Proof. exact (round_trip_inj entry_round_trip o o'). Qed.

Lemma after_app b1 b2 cur k : after (b1 ++ b2) cur k = after b2 (after b1 cur k) k.
Proof. revert cur. induction b1 as [|[]]; intros cur; cbn [after app]; auto. Qed.

Section refinement.
Context {D : Type} `{!LevelDB D} {P : Type} (parse : list Z -> option P) (serialize : P -> list Z) `{Hpc : !PointCodec parse serialize}.

(** The bytes under the key of [o]. *)
Definition stored (key : list Z) (coins : gmap COutPoint Coin) (o : COutPoint) : option (list Z) :=
  c ← coins !! o; bs ← Serialize_coin parse c; Some (Xor key bs).

Definition entry_ok (x : COutPoint * CCoinsCacheEntry) : Prop :=
  outpoint_ok (fst x) /\ (is_dirty (snd x) = true -> IsSpent (coin (snd x)) = false -> stored_ok (coin (snd x))).

(** The store holds the set and the best block, under the key that it holds as well. *)
Record db_rel (w : CDBWrapper (D := D)) (coins : gmap COutPoint Coin) (best : list Z) : Prop := {
  rel_key : Get (pdb w) OBFUSCATE_KEY_KEY = Some (Serialize_bytes (obfuscate_key w)) /\ short (obfuscate_key w);
  rel_coins o : outpoint_ok o -> Get (pdb w) (Serialize_entry o) = stored (obfuscate_key w) coins o;
  rel_ok o c : coins !! o = Some c -> stored_ok c;
  rel_best : Get (pdb w) (ser_writedata8 DB_BEST_BLOCK) = None /\ best = null256 \/
             Get (pdb w) (ser_writedata8 DB_BEST_BLOCK) = Some (Xor (obfuscate_key w) best) /\ length best = 32%nat }.

Lemma rel_lookup (w : CDBWrapper (D := D)) coins best o : db_rel w coins best -> outpoint_ok o ->
  db_GetCoin parse serialize w o = coins !! o /\ db_HaveCoin w o = bool_decide (is_Some (coins !! o)) /\ db_GetBestBlock w = best.
Proof.
  intros [_ Hc Hok Hb] Ho. unfold db_GetCoin, db_HaveCoin, db_GetBestBlock, Read, Exists. rewrite (Hc o Ho). unfold stored. split; [|split].
  - destruct (coins !! o) as [c|] eqn:E; [|done]. cbn [mbind option_bind]. destruct (coin_read parse serialize c (Hok o c E)) as (bs & -> & Hr).
    cbn [mbind option_bind]. rewrite Xor_twice, <-(app_nil_r bs), Hr by done. done.
  - destruct (coins !! o) as [c|] eqn:E; [|done]. cbn [mbind option_bind]. by destruct (coin_read parse serialize c (Hok o c E)) as (bs & -> & _).
  - destruct Hb as [[-> ->]|[-> Hl]]; [done|]. cbn [mbind option_bind]. rewrite Xor_twice, <-(app_nil_r best), read_exactly by done. cbn. by rewrite app_nil_r.
Qed.

Lemma batch_entries_other (w : CDBWrapper (D := D)) l ops cur k : batch_entries parse w l = Some ops -> k.[0] <> DB_COIN -> after ops cur k = cur.
Proof.
  revert ops cur. induction l as [|[o e] l IH]; intros ops cur; cbn [batch_entries]; [by intros [= <-]|]. intros E Hk.
  destruct (if is_dirty e then _ else _) as [ops1|] eqn:E1; [|done]. cbn [mbind option_bind] in E.
  assert (Hd : after ops1 cur k = cur).
  { assert (Hne : bool_decide (Serialize_entry o = k) = false) by (apply bool_decide_false; intros <-; by apply Hk).
    destruct (is_dirty e); [destruct (IsSpent (coin e)); [|destruct (Serialize_coin parse (coin e)) as [bs|]; [|done]]|];
      injection E1 as <-; cbn [after batch_Write batch_Erase]; by rewrite ?Hne. }
  destruct (batch_entries parse w l) as [rest|]; [|done]. injection E as <-. by rewrite after_app, Hd, (IH rest).
Qed.

Lemma batch_entries_spec (w : CDBWrapper (D := D)) l coins : Forall entry_ok l ->
  exists ops, batch_entries parse w l = Some ops /\
    forall o, outpoint_ok o -> after ops (stored (obfuscate_key w) coins o) (Serialize_entry o) =
      stored (obfuscate_key w) (fold_left (fun m '(k, e) => db_write m k e) l coins) o.
Proof.
  intros Hl. revert coins. induction Hl as [|[o e] l [Ho He] Hl IH]; intros coins; [by exists []|]. cbn [fst snd] in *.
  destruct (IH (db_write coins o e)) as (rest & E & H). cbn [batch_entries fold_left]. rewrite E.
  assert (Hs : forall o', outpoint_ok o' -> bool_decide (Serialize_entry o = Serialize_entry o') = bool_decide (o = o')).
  { intros o' Ho'. apply bool_decide_ext. split; [by apply entry_inj|congruence]. }
  destruct (is_dirty e) eqn:Ed; [destruct (IsSpent (coin e)) eqn:Es|].
  - cbn [mbind option_bind]. eexists; split; [done|]. intros o' Ho'. rewrite <-H by done. unfold db_write. rewrite Ed, Es, after_app. cbn [negb after batch_Erase]. rewrite Hs by done. f_equal.
    unfold stored. case_bool_decide as Eo; [subst; by rewrite lookup_delete_eq|by rewrite lookup_delete_ne].
  - destruct (coin_read parse serialize (coin e) (He eq_refl eq_refl)) as (bs & Hb & _). rewrite Hb. cbn [mbind option_bind]. eexists; split; [done|].
    intros o' Ho'. rewrite <-H by done. unfold db_write. rewrite Ed, Es, after_app. cbn [negb after batch_Write]. rewrite Hs by done. f_equal.
    unfold stored. case_bool_decide as Eo; [subst; rewrite lookup_insert_eq; cbn [mbind option_bind]; by rewrite Hb|by rewrite lookup_insert_ne].
  - cbn [mbind option_bind]. eexists; split; [done|]. intros o' Ho'. rewrite <-H by done. unfold db_write. by rewrite Ed.
Qed.

Lemma db_writes_ok l coins : Forall entry_ok l -> (forall o c, coins !! o = Some c -> stored_ok c) ->
  forall o c, fold_left (fun m '(k, e) => db_write m k e) l coins !! o = Some c -> stored_ok c.
Proof.
  intros Hl. revert coins. induction Hl as [|[o e] l [Ho He] Hl IH]; intros coins Hc; [done|]. cbn [fold_left]. apply IH. cbn [fst snd] in He.
  intros o' c. unfold db_write. destruct (is_dirty e); cbn [negb]; [|apply Hc]. destruct (IsSpent (coin e)) eqn:Es.
  - intros [_ H]%lookup_delete_Some. by apply (Hc o').
  - intros [[_ <-]|[_ H]]%lookup_insert_Some; [by apply He|by apply (Hc o')].
Qed.

Lemma rel_batch (w : CDBWrapper (D := D)) coins best l h : db_rel w coins best -> Forall entry_ok l -> length h = 32%nat ->
  exists w', db_BatchWrite parse w l h = Some w' /\
    db_rel w' (fold_left (fun m '(k, e) => db_write m k e) l coins) (if IsNull256 h then best else h).
Proof.
  intros [Hk Hc Hok Hb] Hl Hh. destruct (batch_entries_spec w l coins Hl) as (ops & E & H). unfold db_BatchWrite. rewrite E. cbn [mbind option_bind].
  eexists; split; [done|]. set (tail := if IsNull256 h then [] else _).
  assert (Ht : forall k cur, k <> ser_writedata8 DB_BEST_BLOCK -> after tail cur k = cur).
  { intros k cur Hne. unfold tail. destruct (IsNull256 h); [done|]. cbn [after batch_Write]. by rewrite bool_decide_false by congruence. }
  split; cbn [pdb obfuscate_key WriteBatch].
  - split; [|apply Hk]. rewrite get_write, after_app, Ht, (batch_entries_other w l ops) by done. apply Hk.
  - intros o Ho. rewrite get_write, after_app, Ht, Hc by done. by apply H.
  - by apply db_writes_ok.
  - rewrite get_write, after_app, (batch_entries_other w l ops) by done. unfold tail. destruct (IsNull256 h); [exact Hb|]. right. split; [|done].
    cbn [after batch_Write]. by rewrite bool_decide_true.
Qed.

Lemma rel_restart (w : CDBWrapper (D := D)) coins best obfuscate new_key : db_rel w coins best -> open_db (pdb w) obfuscate new_key = Some w.
Proof.
  intros [[Hk Hs] _ _ _]. unfold open_db, Exists, Read. cbn [pdb obfuscate_key]. rewrite Hk. cbn [mbind option_bind].
  rewrite Xor_zero, <-(app_nil_r (Serialize_bytes _)), round_trip by done. by destruct w.
Qed.

Lemma rel_new d new_key : Empty d = true -> short new_key -> exists w, open_db d true new_key = Some w /\ db_rel w ∅ null256.
Proof.
  intros He Hs. unfold open_db, Exists. cbn [pdb]. rewrite empty_get, He by done. cbn [andb]. eexists; split; [done|].
  split; cbn [pdb obfuscate_key db_Write WriteBatch].
  - split; [|done]. rewrite get_write. cbn [after batch_Write obfuscate_key]. by rewrite bool_decide_true, Xor_zero.
  - intros o Ho. rewrite get_write. cbn [after batch_Write]. rewrite bool_decide_false by done. by apply empty_get.
  - done.
  - left. split; [|done]. rewrite get_write. cbn [after batch_Write]. rewrite bool_decide_false by done. by apply empty_get.
Qed.
End refinement.

(** ** The life of a chain state *)

(** The cache is flushed with its entries and its best block, or the node is
    started again, with whatever it would choose for a new key. *)
Inductive db_event :=
  | Batch (l : list (COutPoint * CCoinsCacheEntry)) (hashBlock : list Z)
  | Restart (obfuscate : bool) (new_key : list Z).

Definition event_ok (x : db_event) : Prop :=
  match x with Batch l h => Forall entry_ok l /\ length h = 32%nat | Restart _ _ => True end.

Section life.
Context {D : Type} `{!LevelDB D} {P : Type} (parse : list Z -> option P) (serialize : P -> list Z).

Fixpoint live (xs : list db_event) (w : CDBWrapper (D := D)) : option CDBWrapper :=
  match xs with
  | [] => Some w
  | Batch l h :: xs => w ← db_BatchWrite parse w l h; live xs w
  | Restart obfuscate new_key :: xs => w ← open_db (pdb w) obfuscate new_key; live xs w
  end.

(** The same on the map of the views, which knows no restart. *)
Fixpoint live_spec (xs : list db_event) (v : view) : option view :=
  match xs with
  | [] => Some v
  | Batch l h :: xs => v ← BatchWrite l h v; live_spec xs v
  | Restart _ _ :: xs => live_spec xs v
  end.

Lemma live_refines `{!PointCodec parse serialize} xs (w : CDBWrapper (D := D)) coins best : db_rel parse w coins best -> Forall event_ok xs ->
  exists w' coins' best', live xs w = Some w' /\ live_spec xs (DB coins best) = Some (DB coins' best') /\ db_rel parse w' coins' best'.
Proof.
  intros Hr Hxs. revert w coins best Hr. induction Hxs as [|[l h|obf k] xs Hx Hxs IH]; intros w coins best Hr; cbn [live live_spec].
  - by exists w, coins, best.
  - destruct Hx as [Hl Hh]. destruct (rel_batch parse serialize w coins best l h Hr Hl Hh) as (w1 & -> & Hr1). cbn [mbind option_bind BatchWrite]. by apply IH.
  - rewrite (rel_restart parse w coins best obf k Hr). cbn [mbind option_bind]. by apply IH.
Qed.
End life.

(** C7: The chain state on disk implements the database of the coin views.  Start from an empty store, which draws a key to obfuscate its values with; then, after any sequence of batches of storable coins and restarts of the node, no assertion has failed, and for every outpoint [GetCoin] and [HaveCoin] of CCoinsViewDB answer from the obfuscated bytes what the map from outpoints to coins answers, and [GetBestBlock] gives the block of the last batch. *)
Theorem chainstate_refines_view {D} `{!LevelDB D} {P} (parse : list Z -> option P) (serialize : P -> list Z) (d : D) (new_key : list Z) (xs : list db_event) :
  PointCodec parse serialize -> Empty d = true -> length new_key = OBFUSCATE_KEY_NUM_BYTES -> Forall event_ok xs ->
  exists w0 w v, open_db d true new_key = Some w0 /\ live parse xs w0 = Some w /\ live_spec xs (DB ∅ null256) = Some v /\
    (forall o, outpoint_ok o -> db_GetCoin parse serialize w o = fst (GetCoin o v) /\ db_HaveCoin w o = fst (HaveCoin o v)) /\
    db_GetBestBlock w = fst (GetBestBlock v).
Proof.
  intros Hpc He Hk Hxs. destruct (rel_new parse d new_key He) as (w0 & E0 & Hr0); [unfold short; rewrite Hk; done|].
  destruct (live_refines parse serialize xs w0 ∅ null256 Hr0 Hxs) as (w & coins & best & E & Es & Hr). exists w0, w, (DB coins best).
  split; [done|]. split; [done|]. split; [done|]. cbn [GetCoin HaveCoin GetBestBlock fst]. split.
  - intros o Ho. destruct (rel_lookup parse serialize w coins best o Hr Ho) as (H1 & H2 & _). done.
  - apply (rel_lookup parse serialize w coins best (mk_outpoint (replicate 32 0) 0) Hr). done.
Qed.

(** ** Witness: a store that is a finite map *)

Definition map_step (m : gmap (list Z) (list Z)) (x : operation) : gmap (list Z) (list Z) :=
  match x with Put k v => <[k := v]> m | Delete k => delete k m end.

#[export] Instance map_store : LevelDB (gmap (list Z) (list Z)).
Proof.
  refine {| Get d k := d !! k; Write d batch := fold_left map_step batch d; Empty d := (size d =? 0)%nat |}.
  - intros d batch k. revert d. induction batch as [|[key v|key] batch IH]; intros d; cbn [fold_left after map_step]; [done|..]; rewrite IH; f_equal;
      case_bool_decide; subst; rewrite ?lookup_insert_eq, ?lookup_insert_ne, ?lookup_delete_eq, ?lookup_delete_ne; done.
  - intros d k ->%Nat.eqb_eq%map_size_empty_iff. apply lookup_empty.
Defined.

Definition empty_store : gmap (list Z) (list Z) := ∅.

Definition demo_events : list db_event :=
  [ Batch [(mk_outpoint (replicate 32 1) 0, mk_entry (mk_coin (mk_txout 5000000000 (65 :: demo_key ++ [OP_CHECKSIG]) (-10)) true 7) DIRTY);
           (mk_outpoint (replicate 32 1) 300, mk_entry (mk_coin (mk_txout 60 [OP_1] (-10)) false 8) DIRTY)] (replicate 32 9);
    Restart true (replicate 8 77);
    Batch [(mk_outpoint (replicate 32 1) 300, mk_entry coinEmpty DIRTY)] (replicate 32 10) ].

Lemma demo_events_ok : Forall event_ok demo_events.
Proof. repeat constructor; vm_compute; intros; discriminate. Qed.

Lemma chainstate_refines_view_witness :
  exists w0 w, open_db empty_store true (replicate 8 0xA5) = Some w0 /\ live demo_parse demo_events w0 = Some w /\
    db_GetCoin demo_parse (fun _ => demo_key) w (mk_outpoint (replicate 32 1) 0) = Some (mk_coin (mk_txout 5000000000 (65 :: demo_key ++ [OP_CHECKSIG]) (-10)) true 7) /\
    db_HaveCoin w (mk_outpoint (replicate 32 1) 300) = false /\ db_GetBestBlock w = replicate 32 10.
Proof.
  destruct (chainstate_refines_view (LevelDB0 := map_store) demo_parse (fun _ => demo_key) empty_store (replicate 8 0xA5) demo_events
    demo_points ltac:(vm_compute; reflexivity) eq_refl demo_events_ok) as (w0 & w & v & H1 & H2 & H3 & H4 & H5).
  exists w0, w. split; [exact H1|]. split; [exact H2|].
  assert (Ho : forall n, word 32 n -> outpoint_ok (mk_outpoint (replicate 32 1) n)) by (intros n Hn; split; [reflexivity | exact Hn]).
  assert (Hv : v = default v (live_spec demo_events (DB ∅ null256))) by (rewrite H3; reflexivity).
  rewrite (proj1 (H4 _ (Ho 0 ltac:(unfold word; lia)))), (proj2 (H4 _ (Ho 300 ltac:(unfold word; lia)))), H5.
  rewrite Hv. split; [vm_compute; reflexivity|]. split; vm_compute; reflexivity.
Defined.
