(* ===== verification/EvoDb.v ===== *)
(** * EvoDb: nested transactions over the key-value store

    Models CDBTransaction, CDBTransactionIterator and CScopedDBTransaction and the
    stream forms of CDBBatch (dbwrapper.h), and CEvoDB (evo/evodb.h, evodb.cpp), in
    which the masternode lists are kept: a transaction for the block that is
    connected, over a root transaction that collects the blocks until the next
    flush, over CDBWrapper.

    The classes are templates over the type of the values.  Here a value carries
    its type; [ser] and [unser] are the serialization of the types, and reading a
    value that was written at another type is the exception of the code.  [None]
    is an exception or a failed assertion.  Sizes are below 2^63. *)

From stdpp Require Import gmap sorting.
From S2P Require Import Prelude Words Serialize SerializeVector Transaction CoinsDb.

(** [DataStreamCmp::less], the order of the maps: [std::lexicographical_compare] on bytes. *)
Fixpoint less (a b : list Z) : bool :=
  match a, b with
  | _, [] => false
  | [], _ :: _ => true
  | x :: a, y :: b => if x <? y then true else if y <? x then false else less a b
  end.

Definition key_le (a b : list Z) : Prop := less b a = false.
#[export] Instance key_le_dec : RelDecision key_le.
Proof. intros a b. unfold key_le. apply _. Defined.

(** The order in which a [std::map] or [std::set] with [DataStreamCmp] is visited. *)
Definition in_order (keys : list (list Z)) : list (list Z) := merge_sort key_le keys.

Definition key_size (k : list Z) : Z := Z.of_nat (length k).

Section evodb.
Context {V T : Type} `{!EqDecision T} (type_of : V -> T) (ser : V -> stream) (unser : T -> reader V).

(** ** CDBTransaction *)

Record ValueHolder := mk_holder { value : V; holder_usage : Z }.
Record CDBTransaction := mk_tx { writes : gmap (list Z) ValueHolder; deletes : gset (list Z); memoryUsage : Z }.

Definition tx_Clear : CDBTransaction := mk_tx ∅ ∅ 0.

Definition tx_Write (tx : CDBTransaction) (ssKey : list Z) (v : V) : CDBTransaction :=
  let valueMemoryUsage := GetSerializeSize (ser v) in
  let usage := if bool_decide (ssKey ∈ deletes tx) then memoryUsage tx - key_size ssKey else memoryUsage tx in
  let usage := match writes tx !! ssKey with Some it => usage - (key_size ssKey + holder_usage it) | None => usage end in
  mk_tx (<[ssKey := mk_holder v valueMemoryUsage]> (writes tx)) (deletes tx ∖ {[ssKey]}) (usage + (key_size ssKey + valueMemoryUsage)).

Definition tx_Erase (tx : CDBTransaction) (ssKey : list Z) : CDBTransaction :=
  let '(writes', usage) := match writes tx !! ssKey with
    | Some it => (delete ssKey (writes tx), memoryUsage tx - (key_size ssKey + holder_usage it))
    | None => (writes tx, memoryUsage tx)
    end in
  mk_tx writes' ({[ssKey]} ∪ deletes tx) (if bool_decide (ssKey ∈ deletes tx) then usage else usage + key_size ssKey).

(** The inner [None] is [false]. *)
Definition tx_Read (parent_Read : T -> list Z -> option (option V)) (tx : CDBTransaction) (ty : T) (ssKey : list Z) : option (option V) :=
  if bool_decide (ssKey ∈ deletes tx) then Some None
  else match writes tx !! ssKey with
       | Some it => if bool_decide (type_of (value it) = ty) then Some (Some (value it)) else None
       | None => parent_Read ty ssKey
       end.

Definition tx_Exists (parent_Exists : list Z -> bool) (tx : CDBTransaction) (ssKey : list Z) : bool :=
  if bool_decide (ssKey ∈ deletes tx) then false
  else match writes tx !! ssKey with Some _ => true | None => parent_Exists ssKey end.

Definition tx_IsClean (tx : CDBTransaction) : bool := (size (writes tx) =? 0)%nat && (size (deletes tx) =? 0)%nat.
Definition tx_GetMemoryUsage (tx : CDBTransaction) : Z := if memoryUsage tx <? 0 then 0 else memoryUsage tx.

(** [Commit] to a target with these operations; the transaction is cleared. *)
Definition tx_Commit {C} (erase : C -> list Z -> C) (write : C -> list Z -> V -> C) (tx : CDBTransaction) (commitTarget : C) : C * CDBTransaction :=
  let c := fold_left erase (in_order (elements (deletes tx))) commitTarget in
  (fold_left (fun c k => match writes tx !! k with Some p => write c k (value p) | None => c end)
     (in_order (map fst (map_to_list (writes tx)))) c, tx_Clear).

(** ** Iterators *)

(** An iterator over keys, as CDBIterator and CDBTransactionIterator offer it;
    [it_left] counts the entries not yet passed and only bounds the loop below. *)
Class Iterator (It : Type) := {
  it_SeekToFirst : It -> option It;
  it_Seek : list Z -> It -> option It;
  it_Valid : It -> bool;
  it_GetKey : It -> list Z;
  it_Next : It -> option It;
  it_left : It -> nat }.

Section iterator.
Context {It : Type} `{!Iterator It}.

(** [transactionIt] is the keys of [writes] from it on; the transaction does not change meanwhile. *)
Record CDBTransactionIterator := mk_iter { transaction : CDBTransaction; transactionIt : list (list Z); parentIt : It; parentKey : list Z; curIsParent : bool }.

Definition writes_keys (tx : CDBTransaction) : list (list Z) := in_order (map fst (map_to_list (writes tx))).

(** [writes.lower_bound(ssKey)] *)
Fixpoint lower_bound (ssKey : list Z) (keys : list (list Z)) : list (list Z) :=
  match keys with
  | [] => []
  | k :: l => if less k ssKey then lower_bound ssKey l else keys
  end.

Definition new_iter (tx : CDBTransaction) (parent_NewIterator : It) : CDBTransactionIterator := mk_iter tx [] parent_NewIterator [] false.

(** The [while] of [SkipDeletedAndOverwritten]. *)
Fixpoint skip_loop (fuel : nat) (tx : CDBTransaction) (parentIt : It) (parentKey : list Z) : option (It * list Z) :=
  match fuel with
  | O => None
  | S fuel =>
      if it_Valid parentIt then
        let parentKey := it_GetKey parentIt in
        if negb (bool_decide (parentKey ∈ deletes tx)) && negb (bool_decide (is_Some (writes tx !! parentKey))) then Some (parentIt, parentKey)
        else parentIt ← it_Next parentIt; skip_loop fuel tx parentIt parentKey
      else Some (parentIt, parentKey)
  end.

(** [DecideCur] *)
Definition DecideCur (keys : list (list Z)) (parentIt : It) (parentKey : list Z) (curIsParent : bool) : bool :=
  match keys with
  | k :: _ => if it_Valid parentIt then negb (less k parentKey) else false
  | [] => if it_Valid parentIt then true else curIsParent
  end.

(** [SkipDeletedAndOverwritten] and [DecideCur], from new positions of the two iterators. *)
Definition settle (i : CDBTransactionIterator) (keys : list (list Z)) (parentIt : It) : option CDBTransactionIterator :=
  '(parentIt, parentKey) ← skip_loop (S (it_left parentIt)) (transaction i) parentIt (parentKey i);
  Some (mk_iter (transaction i) keys parentIt parentKey (DecideCur keys parentIt parentKey (curIsParent i))).

Definition iter_SeekToFirst (i : CDBTransactionIterator) : option CDBTransactionIterator :=
  p ← it_SeekToFirst (parentIt i); settle i (writes_keys (transaction i)) p.
Definition iter_Seek (ssKey : list Z) (i : CDBTransactionIterator) : option CDBTransactionIterator :=
  p ← it_Seek ssKey (parentIt i); settle i (lower_bound ssKey (writes_keys (transaction i))) p.
Definition iter_Valid (i : CDBTransactionIterator) : bool := match transactionIt i with [] => it_Valid (parentIt i) | _ :: _ => true end.

Definition iter_Next (i : CDBTransactionIterator) : option CDBTransactionIterator :=
  if negb (iter_Valid i) then Some i
  else if curIsParent i then
    if it_Valid (parentIt i) then p ← it_Next (parentIt i); settle i (transactionIt i) p else None
  else match transactionIt i with
       | [] => None
       | _ :: keys => Some (mk_iter (transaction i) keys (parentIt i) (parentKey i) (DecideCur keys (parentIt i) (parentKey i) (curIsParent i)))
       end.

(** [GetKey] as a stream. *)
Definition iter_GetKey (i : CDBTransactionIterator) : list Z :=
  if negb (iter_Valid i) then [] else if curIsParent i then parentKey i else match transactionIt i with k :: _ => k | [] => [] end.

#[export] Instance tx_iterator : Iterator CDBTransactionIterator := {
  it_SeekToFirst := iter_SeekToFirst; it_Seek := iter_Seek; it_Valid := iter_Valid; it_GetKey := iter_GetKey; it_Next := iter_Next;
  it_left i := (length (transactionIt i) + it_left (parentIt i))%nat }.
End iterator.

(** ** CDBBatch, the forms that take a stream *)

Record CDBBatch := mk_batch { batch : list operation; size_estimate : Z }.
Definition batch_Clear : CDBBatch := mk_batch [] 0.
Definition over127 (n : Z) : Z := if 127 <? n then 1 else 0.

Definition stream_Write (obfuscate_key : list Z) (b : CDBBatch) (ssKey : list Z) (v : V) : CDBBatch :=
  let slValue := Xor obfuscate_key (ser v) in
  mk_batch (batch b ++ [Put ssKey slValue])
    (size_estimate b + (3 + over127 (key_size ssKey) + key_size ssKey + over127 (key_size slValue) + key_size slValue)).
Definition stream_Erase (b : CDBBatch) (ssKey : list Z) : CDBBatch :=
  mk_batch (batch b ++ [Delete ssKey]) (size_estimate b + (2 + over127 (key_size ssKey) + key_size ssKey)).

(** ** CEvoDB *)

Context {D : Type} `{!LevelDB D}.

Record CEvoDB := mk_evo { db : CDBWrapper (D := D); rootBatch : CDBBatch; rootDB : CDBTransaction; curDB : CDBTransaction }.

(** The constructor on an open store. *)
Definition new_evo (d : D) : option CEvoDB := w ← open_db d false []; Some (mk_evo w batch_Clear tx_Clear tx_Clear).

Definition root_Read (e : CEvoDB) : T -> list Z -> option (option V) := tx_Read (fun ty k => Some (Read (db e) k (unser ty))) (rootDB e).
Definition evo_Read (e : CEvoDB) : T -> list Z -> option (option V) := tx_Read (root_Read e) (curDB e).
Definition root_Exists (e : CEvoDB) : list Z -> bool := tx_Exists (Exists (db e)) (rootDB e).
Definition evo_Exists (e : CEvoDB) : list Z -> bool := tx_Exists (root_Exists e) (curDB e).
Definition set_cur (e : CEvoDB) (tx : CDBTransaction) : CEvoDB := mk_evo (db e) (rootBatch e) (rootDB e) tx.
Definition evo_Write (e : CEvoDB) (k : list Z) (v : V) : CEvoDB := set_cur e (tx_Write (curDB e) k v).
Definition evo_Erase (e : CEvoDB) (k : list Z) : CEvoDB := set_cur e (tx_Erase (curDB e) k).
Definition evo_GetMemoryUsage (e : CEvoDB) : Z := tx_GetMemoryUsage (rootDB e).

Definition CommitRootTransaction (e : CEvoDB) : option CEvoDB :=
  if negb (tx_IsClean (curDB e)) then None
  else
    let '(b, root) := tx_Commit stream_Erase (stream_Write (obfuscate_key (db e))) (rootDB e) (rootBatch e) in
    Some (mk_evo (WriteBatch (db e) (batch b)) batch_Clear root (curDB e)).

(** CScopedDBTransaction: an object is its flag [didCommitOrRollback]; no handlers are set. *)
Definition BeginTransaction (e : CEvoDB) : option bool := if tx_IsClean (curDB e) then Some false else None.
Definition scoped_Commit (did : bool) (e : CEvoDB) : option (bool * CEvoDB) :=
  if did then None
  else let '(root, cur) := tx_Commit tx_Erase tx_Write (curDB e) (rootDB e) in Some (true, mk_evo (db e) (rootBatch e) root cur).
Definition scoped_Rollback (did : bool) (e : CEvoDB) : option (bool * CEvoDB) :=
  if did then None else Some (true, set_cur e tx_Clear).
Definition scoped_destroy (did : bool) (e : CEvoDB) : option CEvoDB :=
  if did then Some e else '(_, e) ← scoped_Rollback did e; Some e.

(** The best block, a value of the type of hashes. *)
Definition EVODB_BEST_BLOCK : list Z := Serialize_bytes [98; 95; 98; 50].
Context (uint256_t : T) (of_hash : list Z -> V) (to_hash : V -> list Z).

Definition WriteBestBlock (e : CEvoDB) (hash : list Z) : CEvoDB := evo_Write e EVODB_BEST_BLOCK (of_hash hash).
Definition VerifyBestBlock (e : CEvoDB) (hash : list Z) : option bool :=
  r ← evo_Read e uint256_t EVODB_BEST_BLOCK;
  match r with
  | Some v => if bool_decide (to_hash v = hash) then Some true else None
  | None => Some false
  end.
End evodb.
