(* ===== verification/EvoDbTheorems.v ===== *)
(** * EvoDbTheorems: nested transactions behave as three maps

    The specification keeps what is on disk, what the root transaction would
    leave and what the current transaction shows, as three maps.  Memory is
    accounted exactly, and the merging iterator visits the visible keys in order. *)

From stdpp Require Import gmap sorting.
From S2P Require Import Prelude Words Serialize SerializeCorrect SerializeVector Transaction CoinsDb EvoDb.

(** ** Sums of sizes *)

Definition Zsum {A} (f : A -> Z) (l : list A) : Z := foldr (fun x n => f x + n) 0 l.

#[export] Instance Zsum_proper {A} (f : A -> Z) : Proper (Permutation ==> eq) (Zsum f).
Proof. intros l l' H. induction H; cbn [Zsum foldr] in *; unfold Zsum in *; cbn in *; lia. Qed.

Lemma Zsum_nonneg {A} (f : A -> Z) l : (forall x, 0 <= f x) -> 0 <= Zsum f l.
Proof. intros Hf. induction l as [|x l IH]; cbn; [lia|]. specialize (Hf x). unfold Zsum in IH. lia. Qed.

Section theorems.
Context {V : Type} (ser : V -> stream).
Abbreviation tx := (CDBTransaction (V := V)).

(** ** What a transaction shows over what is below it *)

Definition ov (t : tx) (k : list Z) (below : option V) : option V :=
  if bool_decide (k ∈ deletes t) then None else match writes t !! k with Some p => Some (value p) | None => below end.

Lemma ov_Clear k b : ov tx_Clear k b = b.
Proof. unfold ov. rewrite bool_decide_false by set_solver. cbn [writes tx_Clear]. by rewrite lookup_empty. Qed.

Lemma ov_Write (t : tx) k v k' b : ov (tx_Write ser t k v) k' b = if bool_decide (k = k') then Some v else ov t k' b.
Proof.
  unfold ov, tx_Write. cbn [writes deletes]. destruct (decide (k = k')) as [->|Hk].
  { rewrite lookup_insert_eq, bool_decide_false, bool_decide_true by set_solver. done. }
  rewrite lookup_insert_ne, (bool_decide_false (k = k')) by done. by rewrite (bool_decide_ext (k' ∈ deletes t ∖ {[k]}) (k' ∈ deletes t)) by set_solver.
Qed.

Lemma tx_Erase_parts (t : tx) k : writes (tx_Erase t k) = delete k (writes t) /\ deletes (tx_Erase t k) = {[k]} ∪ deletes t.
Proof. unfold tx_Erase. destruct (writes t !! k) eqn:E; cbn [writes deletes]; [done|]. by rewrite delete_id. Qed.

Lemma ov_Erase (t : tx) k k' b : ov (tx_Erase t k) k' b = if bool_decide (k = k') then None else ov t k' b.
Proof.
  unfold ov. destruct (tx_Erase_parts t k) as [-> ->]. destruct (decide (k = k')) as [->|Hk]; [by rewrite !bool_decide_true by set_solver|].
  rewrite lookup_delete_ne, (bool_decide_false (k = k')) by done. by rewrite (bool_decide_ext (k' ∈ {[k]} ∪ deletes t) (k' ∈ deletes t)) by set_solver.
Qed.

Lemma in_order_elem l k : k ∈ in_order l <-> k ∈ l.
Proof. unfold in_order. by rewrite (merge_sort_Permutation key_le l). Qed.

(** Committing to a target, of which [look] shows the contents. *)
Section commit.
Context {C W : Type} (show : V -> W) (erase : C -> list Z -> C) (write : C -> list Z -> V -> C) (look : C -> list Z -> option W).
Context (look_erase : forall c k k', look (erase c k) k' = if bool_decide (k = k') then None else look c k').
Context (look_write : forall c k v k', look (write c k v) k' = if bool_decide (k = k') then Some (show v) else look c k').

Lemma fold_erase l c k : look (fold_left erase l c) k = if bool_decide (k ∈ l) then None else look c k.
Proof.
  revert c. induction l as [|k1 l IH]; intros c; cbn [fold_left]; [by rewrite bool_decide_false by apply not_elem_of_nil|]. rewrite IH, look_erase.
  rewrite (bool_decide_ext _ _ (elem_of_cons l k k1)), (bool_decide_ext (k1 = k) (k = k1)) by done.
  destruct (decide (k = k1)) as [->|Hne]; [rewrite !(bool_decide_true (k1 = k1)), (bool_decide_true (_ \/ _)) by auto; by destruct (bool_decide _)|].
  rewrite (bool_decide_false (k = k1)), (bool_decide_ext (k = k1 \/ k ∈ l) (k ∈ l)) by (done || tauto). done.
Qed.

Lemma fold_write (m : gmap (list Z) ValueHolder) l c k : (forall k, k ∈ l -> is_Some (m !! k)) ->
  look (fold_left (fun c k => match m !! k with Some p => write c k (value p) | None => c end) l c) k =
  if bool_decide (k ∈ l) then (fun p => show (value p)) <$> m !! k else look c k.
Proof.
  revert c. induction l as [|k1 l IH]; intros c Hl; cbn [fold_left]; [by rewrite bool_decide_false by apply not_elem_of_nil|].
  rewrite IH by (intros k2 Hk2; apply Hl; by right). destruct (Hl k1 ltac:(by left)) as [p Hp]. rewrite Hp, look_write.
  rewrite (bool_decide_ext _ _ (elem_of_cons l k k1)), (bool_decide_ext (k1 = k) (k = k1)) by done.
  destruct (decide (k = k1)) as [->|Hne]; [rewrite !(bool_decide_true (k1 = k1)), (bool_decide_true (_ \/ _)), Hp by auto; by destruct (bool_decide _)|].
  rewrite (bool_decide_false (k = k1)), (bool_decide_ext (k = k1 \/ k ∈ l) (k ∈ l)) by (done || tauto). done.
Qed.

Lemma look_commit (t : tx) c k : look (fst (tx_Commit erase write t c)) k = 
  match writes t !! k with Some p => Some (show (value p)) | None => if bool_decide (k ∈ deletes t) then None else look c k end.
Proof.
  unfold tx_Commit. cbn [fst]. assert (Hd : forall k, k ∈ in_order (map fst (map_to_list (writes t))) <-> is_Some (writes t !! k)).
  { intros k'. rewrite in_order_elem. rewrite list_elem_of_fmap. split.
    - intros ([k1 p] & -> & Hp%elem_of_map_to_list). eauto.
    - intros [p Hp]. exists (k', p). split; [done|]. by apply elem_of_map_to_list. }
  rewrite fold_write by (intros; by apply Hd). rewrite fold_erase.
  rewrite (bool_decide_ext (k ∈ in_order (elements (deletes t))) (k ∈ deletes t)) by (rewrite in_order_elem; apply elem_of_elements).
  rewrite (bool_decide_ext _ _ (Hd k)). destruct (writes t !! k) as [p|] eqn:E; [by rewrite bool_decide_true by eauto|].
  rewrite bool_decide_false; [done|]. by intros [? ?].
Qed.
End commit.

(** A transaction never deletes and writes the same key. *)
Definition apart (t : tx) : Prop := forall k, k ∈ deletes t -> writes t !! k = None.

Lemma apart_Clear : apart tx_Clear.
Proof. intros k. set_solver. Qed.
Lemma apart_Write (t : tx) k v : apart t -> apart (tx_Write ser t k v).
Proof. intros H k'. unfold tx_Write. cbn [deletes writes]. intros Hk. rewrite lookup_insert_ne by set_solver. apply H. set_solver. Qed.
Lemma apart_Erase (t : tx) k : apart t -> apart (tx_Erase t k).
Proof.
  intros H k'. destruct (tx_Erase_parts t k) as [-> ->]. intros Hk. destruct (decide (k = k')) as [->|Hne]; [by rewrite lookup_delete_eq|].
  rewrite lookup_delete_ne by done. apply H. set_solver.
Qed.

(** ** Memory *)

Definition usage (t : tx) : Z :=
  Zsum (fun p => key_size (fst p) + holder_usage (snd p)) (map_to_list (writes t)) + Zsum key_size (elements (deletes t)).

(** The counter, and the sizes that it counts. *)
Definition accounted (t : tx) : Prop := memoryUsage t = usage t /\ apart t /\ forall k p, writes t !! k = Some p -> holder_usage p = GetSerializeSize (ser (value p)).

Lemma sum_writes_delete (f : list Z * ValueHolder -> Z) (m : gmap (list Z) (ValueHolder (V := V))) k :
  Zsum f (map_to_list m) = match m !! k with Some p => f (k, p) | None => 0 end + Zsum f (map_to_list (delete k m)).
Proof. destruct (m !! k) as [p|] eqn:E; [by rewrite <-(map_to_list_delete m k p) by done|]. by rewrite delete_id. Qed.

Lemma sum_writes_insert (f : list Z * ValueHolder -> Z) (m : gmap (list Z) (ValueHolder (V := V))) k p :
  Zsum f (map_to_list (<[k := p]> m)) = f (k, p) + Zsum f (map_to_list (delete k m)).
Proof. rewrite <-insert_delete_eq, map_to_list_insert by apply lookup_delete_eq. done. Qed.

Lemma sum_set_add (f : list Z -> Z) (X : gset (list Z)) k : Zsum f (elements ({[k]} ∪ X)) = f k + Zsum f (elements (X ∖ {[k]})).
Proof. replace ({[k]} ∪ X) with ({[k]} ∪ X ∖ {[k]}) by (apply leibniz_equiv; intros x; destruct (decide (x = k)); set_solver). rewrite elements_union_singleton by set_solver. done. Qed.

Lemma sum_set_remove (f : list Z -> Z) (X : gset (list Z)) k :
  Zsum f (elements X) = (if bool_decide (k ∈ X) then f k else 0) + Zsum f (elements (X ∖ {[k]})).
Proof.
  case_bool_decide as Hk; [|by replace (X ∖ {[k]}) with X by set_solver]. rewrite <-sum_set_add. by replace ({[k]} ∪ X) with X by set_solver.
Qed.

Lemma accounted_Clear : accounted tx_Clear.
Proof. split; [by vm_compute|]. split; [apply apart_Clear|]. intros k p. cbn [writes tx_Clear]. by rewrite lookup_empty. Qed.

Lemma accounted_Write (t : tx) k v : accounted t -> accounted (tx_Write ser t k v).
Proof.
  intros (Hm & Ha & Hu). split; [|split; [by apply apart_Write|]].
  - unfold tx_Write, usage in *. cbn [memoryUsage writes deletes]. rewrite Hm, sum_writes_insert.
    rewrite (sum_writes_delete _ (writes t) k), (sum_set_remove _ (deletes t) k). cbn [fst snd holder_usage].
    case_bool_decide; destruct (writes t !! k); cbn [fst snd]; lia.
  - unfold tx_Write. cbn [writes]. intros k' p [[_ <-]|[_ H]]%lookup_insert_Some; [done|by apply (Hu k')].
Qed.

Lemma accounted_Erase (t : tx) k : accounted t -> accounted (tx_Erase t k).
Proof.
  intros (Hm & Ha & Hu). split; [|split; [by apply apart_Erase|]].
  - unfold usage in *. destruct (tx_Erase_parts t k) as [-> ->]. rewrite sum_set_add.
    unfold tx_Erase. rewrite (sum_writes_delete _ (writes t) k), (sum_set_remove _ (deletes t) k) in Hm.
    destruct (writes t !! k); cbn [fst snd memoryUsage] in *; case_bool_decide; lia.
  - destruct (tx_Erase_parts t k) as [-> _]. intros k' p [_ H]%lookup_delete_Some. by apply (Hu k').
Qed.

Lemma accounted_Commit (t t' : tx) : accounted t' -> accounted (fst (tx_Commit tx_Erase (tx_Write ser) t t')).
Proof.
  intros Ht. unfold tx_Commit. cbn [fst]. apply fold_left_inv.
  - apply fold_left_inv; [done|]. intros c k. apply accounted_Erase.
  - intros c k Hc. destruct (writes t !! k); [by apply accounted_Write|done].
Qed.

(** The counter never becomes negative. *)
Lemma accounted_usage (t : tx) : accounted t -> tx_GetMemoryUsage t = usage t.
Proof.
  intros (Hm & _ & Hu). unfold tx_GetMemoryUsage. rewrite Hm. destruct (Z.ltb_spec (usage t) 0) as [H|H]; [|done]. exfalso. unfold usage in H.
  assert (0 <= Zsum key_size (elements (deletes t))) by (apply Zsum_nonneg; unfold key_size; lia).
  assert (H' : forall l : list (list Z * ValueHolder), Forall (fun p => 0 <= holder_usage (V := V) (snd p)) l -> 0 <= Zsum (fun p => key_size (fst p) + holder_usage (snd p)) l).
  { induction 1 as [|p l Hp _ IH]; cbn; [lia|]. unfold Zsum in IH. unfold key_size in *. lia. }
  enough (Forall (fun p => 0 <= holder_usage (V := V) (snd p)) (map_to_list (writes t))) by (specialize (H' (map_to_list (writes t)) ltac:(done)); lia).
  apply Forall_forall. intros [k p] Hp%elem_of_map_to_list. cbn [snd].
  rewrite (Hu k p Hp). unfold GetSerializeSize. lia.
Qed.

Lemma clean_Write (t : tx) k v : tx_IsClean (tx_Write ser t k v) = false.
Proof.
  unfold tx_IsClean, tx_Write. cbn [writes]. destruct (Nat.eqb_spec (size (<[k := mk_holder v (GetSerializeSize (ser v))]> (writes t))) 0) as [H|H]; [|done].
  apply map_size_empty_iff in H. by apply insert_non_empty in H.
Qed.

Lemma clean_Erase (t : tx) k : tx_IsClean (tx_Erase t k) = false.
Proof.
  unfold tx_IsClean. destruct (tx_Erase_parts t k) as [_ ->]. destruct (Nat.eqb_spec (size ({[k]} ∪ deletes t)) 0) as [H|H]; [|apply andb_false_r].
  apply size_empty_iff in H. set_solver.
Qed.

Lemma clean_ov (t : tx) k b : tx_IsClean t = true -> ov t k b = b.
Proof.
  unfold tx_IsClean. intros [Hw%Nat.eqb_eq%map_size_empty_iff Hd%Nat.eqb_eq%size_empty_iff]%andb_prop. unfold ov.
  rewrite Hw, lookup_empty, bool_decide_false by set_solver. done.
Qed.

(** ** Refinement *)

Context {D : Type} `{!LevelDB D}.
Abbreviation evo := (CEvoDB (V := V) (D := D)).

(** What a user of the database does; [EndScope] leaves the scope of the transaction object without a commit, and [Crash] starts the node again. *)
Inductive event :=
  | EWrite (k : list Z) (v : V) | EErase (k : list Z) | Begin | Commit | EndScope | CommitRoot | Crash.

(** The database with the transaction object that is in scope. *)
Definition step (x : event) (st : evo * option bool) : option (evo * option bool) :=
  let '(e, scope) := st in
  match x with
  | EWrite k v => Some (evo_Write ser e k v, scope)
  | EErase k => Some (evo_Erase e k, scope)
  | Begin => match scope with Some _ => None | None => did ← BeginTransaction e; Some (e, Some did) end
  | Commit => did ← scope; '(did, e) ← scoped_Commit ser did e; e ← scoped_destroy did e; Some (e, None)
  | EndScope => did ← scope; e ← scoped_destroy did e; Some (e, None)
  | CommitRoot => e ← CommitRootTransaction ser e; Some (e, scope)
  | Crash => e ← new_evo (pdb (db e)); Some (e, None)
  end.

(** Three maps, whether the current transaction holds changes, and whether a scope is open. *)
Record spec := mk_spec { s_disk : gmap (list Z) V; s_root : gmap (list Z) V; s_cur : gmap (list Z) V; s_dirty : bool; s_open : bool }.

Definition spec_step (x : event) (s : spec) : option spec :=
  match x with
  | EWrite k v => Some (mk_spec (s_disk s) (s_root s) (<[k := v]> (s_cur s)) true (s_open s))
  | EErase k => Some (mk_spec (s_disk s) (s_root s) (delete k (s_cur s)) true (s_open s))
  | Begin => if s_open s || s_dirty s then None else Some (mk_spec (s_disk s) (s_root s) (s_cur s) false true)
  | Commit => if s_open s then Some (mk_spec (s_disk s) (s_cur s) (s_cur s) false false) else None
  | EndScope => if s_open s then Some (mk_spec (s_disk s) (s_root s) (s_root s) false false) else None
  | CommitRoot => if s_dirty s then None else Some (mk_spec (s_root s) (s_root s) (s_cur s) false (s_open s))
  | Crash => Some (mk_spec (s_disk s) (s_disk s) (s_disk s) false false)
  end.

(** Users do not write under the key of the obfuscation key. *)
Definition evo_event_ok (x : event) : Prop := match x with EWrite k _ => k <> OBFUSCATE_KEY_KEY | _ => True end.

Fixpoint steps (xs : list event) (st : evo * option bool) : option (evo * option bool) :=
  match xs with [] => Some st | x :: xs => st ← step x st; steps xs st end.
Fixpoint spec_steps (xs : list event) (s : spec) : option spec :=
  match xs with [] => Some s | x :: xs => s ← spec_step x s; spec_steps xs s end.

Record evo_rel (st : evo * option bool) (s : spec) : Prop := {
  r_key : obfuscate_key (db (fst st)) = replicate OBFUSCATE_KEY_NUM_BYTES 0;
  r_free : s_disk s !! OBFUSCATE_KEY_KEY = None /\ s_root s !! OBFUSCATE_KEY_KEY = None /\ s_cur s !! OBFUSCATE_KEY_KEY = None;
  r_disk k : Get (pdb (db (fst st))) k = ser <$> s_disk s !! k;
  r_batch : batch (rootBatch (fst st)) = [];
  r_root k : ov (rootDB (fst st)) k (s_disk s !! k) = s_root s !! k;
  r_cur k : ov (curDB (fst st)) k (s_root s !! k) = s_cur s !! k;
  r_acc : accounted (rootDB (fst st)) /\ accounted (curDB (fst st));
  r_dirty : tx_IsClean (curDB (fst st)) = negb (s_dirty s);
  r_open : snd st = if s_open s then Some false else None }.

Lemma ov_alt (t : tx) k b : apart t ->
  ov t k b = match writes t !! k with Some p => Some (value p) | None => if bool_decide (k ∈ deletes t) then None else b end.
Proof. intros Ha. unfold ov. case_bool_decide as Hk; [by rewrite (Ha k Hk)|done]. Qed.

Lemma ov_Commit (t t' : tx) k b : apart t -> ov (fst (tx_Commit tx_Erase (tx_Write ser) t t')) k b = ov t k (ov t' k b).
Proof.
  intros Ha. rewrite (ov_alt t) by done.
  apply (look_commit (fun v => v) tx_Erase (tx_Write ser) (fun c k => ov c k b)); intros; [apply ov_Erase|apply ov_Write].
Qed.

Lemma batch_Commit (t : tx) (key : list Z) k cur : apart t -> 
  after (batch (fst (tx_Commit stream_Erase (stream_Write ser key) t batch_Clear))) cur k =
  match writes t !! k with Some p => Some (Xor key (ser (value p))) | None => if bool_decide (k ∈ deletes t) then None else cur end.
Proof.
  intros Ha. rewrite (look_commit (fun v => Xor key (ser v)) stream_Erase (stream_Write ser key) (fun c k => after (batch c) cur k)); [done|..];
    intros; cbn [batch stream_Erase stream_Write]; rewrite after_app; done.
Qed.

(** Both fail, or both go on and stay related. *)
Definition agree (r : option (evo * option bool)) (r' : option spec) : Prop :=
  match r, r' with None, None => True | Some st, Some s => evo_rel st s | _, _ => False end.

Lemma step_write e sc s k v : evo_rel (e, sc) s -> k <> OBFUSCATE_KEY_KEY -> agree (step (EWrite k v) (e, sc)) (spec_step (EWrite k v) s).
Proof.
  intros [H1 (F1 & F2 & F3) H2 H3 H4 H5 [A1 A2] H6 H7] Hk. split; cbn [fst snd evo_Write set_cur db rootBatch rootDB curDB s_disk s_root s_cur s_dirty s_open]; try done.
  - split; [done|]. split; [done|]. by rewrite lookup_insert_ne.
  - intros k'. rewrite ov_Write. case_bool_decide as E; [subst; by rewrite lookup_insert_eq|]. rewrite lookup_insert_ne by done. apply H5.
  - split; [done|by apply accounted_Write].
  - apply clean_Write.
Qed.

Lemma step_erase e sc s k : evo_rel (e, sc) s -> agree (step (EErase k) (e, sc)) (spec_step (EErase k) s).
Proof.
  intros [H1 (F1 & F2 & F3) H2 H3 H4 H5 [A1 A2] H6 H7]. split; cbn [fst snd evo_Erase set_cur db rootBatch rootDB curDB s_disk s_root s_cur s_dirty s_open]; try done.
  - split; [done|]. split; [done|]. rewrite lookup_delete_None. by right.
  - intros k'. rewrite ov_Erase. case_bool_decide as E; [subst; by rewrite lookup_delete_eq|]. rewrite lookup_delete_ne by done. apply H5.
  - split; [done|by apply accounted_Erase].
  - apply clean_Erase.
Qed.

Lemma step_begin e sc s : evo_rel (e, sc) s -> agree (step Begin (e, sc)) (spec_step Begin s).
Proof.
  intros [H1 F H2 H3 H4 H5 A H6 H7]. cbn [step spec_step fst snd] in *. subst sc. unfold BeginTransaction. rewrite H6.
  destruct (s_open s), (s_dirty s); cbn [orb negb mbind option_bind agree]; done.
Qed.

Lemma step_commit e sc s : evo_rel (e, sc) s -> agree (step Commit (e, sc)) (spec_step Commit s).
Proof.
  intros [H1 (F1 & F2 & F3) H2 H3 H4 H5 [A1 A2] H6 H7]. cbn [step spec_step fst snd] in *. subst sc. destruct (s_open s); [|done]. cbn [mbind option_bind scoped_Commit].
  destruct (tx_Commit tx_Erase (tx_Write ser) (curDB e) (rootDB e)) as [root cur] eqn:E. cbn [mbind option_bind scoped_destroy agree].
  assert (Er : root = fst (tx_Commit tx_Erase (tx_Write ser) (curDB e) (rootDB e))) by (by rewrite E). assert (Ec : cur = tx_Clear) by (unfold tx_Commit in E; congruence).
  split; cbn [fst snd db rootBatch rootDB curDB s_disk s_root s_cur s_dirty s_open]; try done.
  - intros k. rewrite Er, ov_Commit, H4 by apply A2. apply H5.
  - intros k. rewrite Ec. apply ov_Clear.
  - rewrite Er, Ec. split; [by apply accounted_Commit|apply accounted_Clear].
  - by rewrite Ec.
Qed.

Lemma step_end e sc s : evo_rel (e, sc) s -> agree (step EndScope (e, sc)) (spec_step EndScope s).
Proof.
  intros [H1 (F1 & F2 & F3) H2 H3 H4 H5 [A1 A2] H6 H7]. cbn [step spec_step fst snd] in *. subst sc. destruct (s_open s); [|done].
  cbn [mbind option_bind scoped_destroy scoped_Rollback agree]. split; cbn [fst snd set_cur db rootBatch rootDB curDB s_disk s_root s_cur s_dirty s_open]; try done.
Qed.

Lemma step_root e sc s : evo_rel (e, sc) s -> agree (step CommitRoot (e, sc)) (spec_step CommitRoot s).
Proof.
  intros [H1 (F1 & F2 & F3) H2 H3 H4 H5 [A1 A2] H6 H7]. cbn [step spec_step fst snd] in *. unfold CommitRootTransaction. rewrite H6, negb_involutive.
  destruct (s_dirty s); [done|]. replace (rootBatch e) with (mk_batch [] (size_estimate (rootBatch e))) by (destruct (rootBatch e); cbn in H3; by subst).
  destruct (tx_Commit stream_Erase _ (rootDB e) _) as [b root] eqn:E. cbn [mbind option_bind agree].
  assert (Ec : root = tx_Clear) by (unfold tx_Commit in E; congruence).
  assert (Eb : forall k cur, after (batch b) cur k = match writes (rootDB e) !! k with Some p => Some (Xor (obfuscate_key (db e)) (ser (value p)))
      | None => if bool_decide (k ∈ deletes (rootDB e)) then None else cur end).
  { intros k cur. change b with (fst (b, root)). rewrite <-E. rewrite (look_commit (fun v => Xor (obfuscate_key (db e)) (ser v)) stream_Erase
      (stream_Write ser (obfuscate_key (db e))) (fun c k => after (batch c) cur k)); [done|..]; intros; cbn [batch stream_Erase stream_Write]; by rewrite after_app. }
  split; cbn [fst snd db rootBatch rootDB curDB s_disk s_root s_cur s_dirty s_open WriteBatch pdb obfuscate_key batch batch_Clear]; try done.
  - intros k. rewrite get_write, Eb, H2, <-H4, ov_alt by apply A1. destruct (writes (rootDB e) !! k); [by rewrite H1, Xor_zero|]. by case_bool_decide.
  - intros k. rewrite Ec. apply ov_Clear.
  - rewrite Ec. split; [apply accounted_Clear|done].
Qed.

Lemma step_crash e sc s : evo_rel (e, sc) s -> agree (step Crash (e, sc)) (spec_step Crash s).
Proof.
  intros [H1 (F1 & F2 & F3) H2 H3 H4 H5 [A1 A2] H6 H7]. cbn [step spec_step fst snd] in *. unfold new_evo, open_db, Exists. cbn [pdb].
  rewrite H2, F1. cbn [fmap option_fmap option_map andb mbind option_bind agree].
  split; cbn [fst snd db rootBatch rootDB curDB s_disk s_root s_cur s_dirty s_open pdb obfuscate_key batch batch_Clear]; try done.
Qed.

Lemma step_refines x e sc s : evo_rel (e, sc) s -> evo_event_ok x -> agree (step x (e, sc)) (spec_step x s).
Proof.
  intros H Hx. destruct x; [by apply step_write|by apply step_erase|by apply step_begin|by apply step_commit|by apply step_end|by apply step_root|by apply step_crash].
Qed.

Lemma steps_refine xs st s : evo_rel st s -> Forall evo_event_ok xs -> agree (steps xs st) (spec_steps xs s).
Proof.
  intros Hr Hx. revert st s Hr. induction Hx as [|x xs Hx Hxs IH]; intros [e sc] s Hr; cbn [steps spec_steps]; [done|].
  pose proof (step_refines x e sc s Hr Hx) as H. destruct (step x (e, sc)) as [st1|], (spec_step x s) as [s1|]; try done. cbn [mbind option_bind]. by apply IH.
Qed.

(** The serialization of the types of values. *)
Context {T : Type} `{!EqDecision T} (type_of : V -> T) (unser : T -> reader V).
Class ValueCodec : Prop := value_codec v rest : unser (type_of v) (ser v ++ rest) = Some (v, rest).

Lemma rel_reads `{!ValueCodec} e sc s k : evo_rel (e, sc) s -> evo_Exists e k = bool_decide (is_Some (s_cur s !! k)) /\
  match s_cur s !! k with None => forall ty, evo_Read type_of unser e ty k = Some None | Some v => evo_Read type_of unser e (type_of v) k = Some (Some v) end.
Proof.
  intros [H1 F H2 H3 H4 H5 A H6 H7]. cbn [fst snd] in *. specialize (H4 k). specialize (H5 k). unfold ov in H4, H5.
  unfold evo_Exists, root_Exists, tx_Exists, evo_Read, root_Read, tx_Read, Exists, Read. rewrite <-H5, <-H4, H2.
  destruct (bool_decide (k ∈ deletes (curDB e))); [done|]. destruct (writes (curDB e) !! k) as [p|]; [split; [done|by rewrite bool_decide_true]|].
  destruct (bool_decide (k ∈ deletes (rootDB e))); [done|]. destruct (writes (rootDB e) !! k) as [p|]; [split; [done|by rewrite bool_decide_true]|].
  destruct (s_disk s !! k) as [v|]; [|done]. cbn [fmap option_fmap option_map mbind option_bind]. split; [done|].
  rewrite H1, Xor_zero, <-(app_nil_r (ser v)), value_codec. done.
Qed.
End theorems.
