(* ===== verification/EvoDbIter.v ===== *)
(** * EvoDbIter: the merging iterator visits the visible keys in order

    [IteratorLaws] is what an iterator promises to the transaction above it; the
    iterator of a transaction promises the same again, so that transactions nest. *)

From stdpp Require Import gmap sorting.
From S2P Require Import Prelude Words Serialize SerializeCorrect SerializeVector Transaction CoinsDb EvoDb EvoDbTheorems.

(** ** The order of the keys *)

Lemma less_irrefl a : less a a = false.
Proof. induction a as [|x a IH]; cbn [less]; [done|]. by rewrite Z.ltb_irrefl. Qed.

Lemma less_asym a b : less a b = true -> less b a = false.
Proof.
  revert b. induction a as [|x a IH]; intros [|y b]; cbn [less]; try done. destruct (Z.ltb_spec x y), (Z.ltb_spec y x); try lia; auto.
Qed.

Lemma less_total a b : a = b \/ less a b = true \/ less b a = true.
Proof.
  revert b. induction a as [|x a IH]; intros [|y b]; cbn [less]; auto. destruct (Z.ltb_spec x y), (Z.ltb_spec y x); auto.
  assert (x = y) as -> by lia. destruct (IH b) as [->|]; auto.
Qed.

Lemma less_trans a b c : less a b = true -> less b c = true -> less a c = true.
Proof.
  revert b c. induction a as [|x a IH]; intros [|y b] [|z c]; cbn [less]; try done.
  destruct (Z.ltb_spec x y), (Z.ltb_spec y x), (Z.ltb_spec y z), (Z.ltb_spec z y), (Z.ltb_spec x z), (Z.ltb_spec z x); try lia; try done. apply IH.
Qed.

#[export] Instance key_le_total : Total key_le.
Proof. intros a b. unfold key_le. destruct (less b a) eqn:E; [right; by apply less_asym|by left]. Qed.
#[export] Instance key_le_antisym : AntiSymm eq key_le.
Proof. intros a b. unfold key_le. intros H1 H2. destruct (less_total a b) as [|[|]]; congruence. Qed.
#[export] Instance key_le_trans : Transitive key_le.
Proof.
  intros a b c. unfold key_le. intros H1 H2. destruct (less c a) eqn:E; [|done]. destruct (less_total b c) as [->|[H|H]]; [congruence| |congruence].
  rewrite (less_trans b c a H E) in H1. done.
Qed.

Lemma less_le a b : a <> b -> less a b = true <-> key_le a b.
Proof. intros Hne. split; [apply less_asym|]. unfold key_le. intros H. destruct (less_total a b) as [|[|]]; congruence. Qed.

(** A sorted list without duplicates is determined by its elements. *)
Definition ordered (l : list (list Z)) : Prop := StronglySorted key_le l /\ NoDup l.

Lemma ordered_unique l l' : ordered l -> ordered l' -> (forall k, k ∈ l <-> k ∈ l') -> l = l'.
Proof. intros [S N] [S' N'] H. apply (StronglySorted_unique key_le); [done|done|]. by apply NoDup_Permutation. Qed.

Lemma sorted_filter (P : list Z -> Prop) `{!forall k, Decision (P k)} l : StronglySorted key_le l -> StronglySorted key_le (filter P l).
Proof.
  induction 1 as [|x l S IH Hx]; [constructor|]. destruct (decide (P x)); [rewrite filter_cons_True by done|by rewrite filter_cons_False].
  constructor; [done|]. rewrite Forall_forall in *. intros y [_ Hy]%list_elem_of_filter. by apply Hx.
Qed.

Lemma ordered_filter (P : list Z -> Prop) `{!forall k, Decision (P k)} l : ordered l -> ordered (filter P l).
Proof. intros [S N]. split; [by apply sorted_filter|by apply NoDup_filter]. Qed.

Lemma ordered_merge l l' : ordered l -> ordered l' -> (forall k, k ∈ l -> k ∉ l') -> ordered (list_merge key_le l l').
Proof.
  intros [S N] [S' N'] H. split.
  - apply Sorted_StronglySorted; [apply _|]. apply Sorted_list_merge; [apply _|by apply StronglySorted_Sorted..].
  - rewrite (merge_Permutation key_le). by apply NoDup_app.
Qed.

Lemma ordered_in_order l : NoDup l -> ordered (in_order l).
Proof. intros N. split; [apply (StronglySorted_merge_sort key_le)|]. unfold in_order. by rewrite (merge_sort_Permutation key_le l). Qed.

Lemma ordered_tail k l : ordered (k :: l) -> ordered l.
Proof. intros [S N]. split; [by inversion S|by inversion N]. Qed.

Lemma lower_bound_filter k l : ordered l -> lower_bound k l = filter (fun x => less x k = false) l.
Proof.
  induction l as [|x l IH]; intros Ho; [done|]. cbn [lower_bound]. destruct (less x k) eqn:E.
  - rewrite filter_cons_False by congruence. apply IH. by apply ordered_tail in Ho.
  - rewrite filter_cons_True by done. f_equal. destruct Ho as [S _]. apply StronglySorted_inv in S as [_ S].
    clear IH. induction S as [|y l Hy _ IH]; [done|]. rewrite filter_cons_True; [by f_equal|]. exact (key_le_trans k x y E Hy).
Qed.

(** ** What an iterator promises *)

Class IteratorLaws (It : Type) `{!Iterator It} := {
  all_keys : It -> list (list Z);
  remaining : It -> list (list Z);
  placed : It -> Prop;
  all_ordered it : ordered (all_keys it);
  first_law it : exists it', it_SeekToFirst it = Some it' /\ placed it' /\ all_keys it' = all_keys it /\ remaining it' = all_keys it;
  seek_law k it : exists it', it_Seek k it = Some it' /\ placed it' /\ all_keys it' = all_keys it /\ remaining it' = filter (fun x => less x k = false) (all_keys it);
  valid_law it : placed it -> it_Valid it = negb (bool_decide (remaining it = []));
  next_law it k l : placed it -> remaining it = k :: l -> it_GetKey it = k /\
    exists it', it_Next it = Some it' /\ placed it' /\ all_keys it' = all_keys it /\ remaining it' = l;
  left_law it : placed it -> (length (remaining it) <= it_left it)%nat;
  remaining_ordered it : placed it -> ordered (remaining it) }.

(** ** The iterator of a transaction *)

Section merging.
Context {V It : Type} `{!Iterator It} `{!IteratorLaws It}.
Abbreviation iter := (CDBTransactionIterator (V := V) (It := It)).

(** The keys of the parent that the transaction neither deletes nor overwrites. *)
Definition live (t : CDBTransaction (V := V)) (k : list Z) : Prop := (k ∉ deletes t) /\ writes t !! k = None.
#[export] Instance live_dec t k : Decision (live t k).
Proof. unfold live. apply _. Defined.

Lemma live_test t k : negb (bool_decide (k ∈ deletes t)) && negb (bool_decide (is_Some (writes t !! k))) = bool_decide (live t k).
Proof.
  apply eq_true_iff_eq. rewrite andb_true_iff, !negb_true_iff, !bool_decide_eq_false, bool_decide_eq_true, <-eq_None_not_Some. done.
Qed.

Lemma writes_keys_ordered (t : CDBTransaction (V := V)) : ordered (writes_keys t).
Proof. apply ordered_in_order. apply (NoDup_fst_map_to_list (writes t)). Qed.

Lemma writes_keys_elem (t : CDBTransaction (V := V)) k : k ∈ writes_keys t <-> is_Some (writes t !! k).
Proof.
  unfold writes_keys. rewrite in_order_elem, list_elem_of_fmap. split.
  - intros ([k1 p] & -> & Hp%elem_of_map_to_list). eauto.
  - intros [p Hp]. exists (k, p). split; [done|]. by apply elem_of_map_to_list.
Qed.

(** Keys to visit: those of the transaction, and the live ones of the parent. *)
Definition merged (t : CDBTransaction (V := V)) (keys parent : list (list Z)) : list (list Z) := list_merge key_le keys (filter (live t) parent).

Definition written (t : CDBTransaction (V := V)) (keys : list (list Z)) : Prop := ordered keys /\ forall k, k ∈ keys -> is_Some (writes t !! k).

Lemma merged_ordered t keys parent : written t keys -> ordered parent -> ordered (merged t keys parent).
Proof.
  intros [Ho Hk] Hp. apply ordered_merge; [done|by apply ordered_filter|]. intros k Hin [[_ Hl] _]%list_elem_of_filter. destruct (Hk k Hin). congruence.
Qed.

Lemma merged_elem t keys parent k : k ∈ merged t keys parent <-> k ∈ keys \/ live t k /\ k ∈ parent.
Proof. unfold merged. rewrite (merge_Permutation key_le), elem_of_app, list_elem_of_filter. done. Qed.

(** The head of the parent is live and its key is known. *)
Definition at_live (t : CDBTransaction (V := V)) (p : It) (pk : list Z) : Prop := forall k l, remaining p = k :: l -> live t k /\ pk = k.

Lemma skip_loop_spec fuel t p pk : placed p -> (length (remaining p) < fuel)%nat ->
  exists p' pk', skip_loop fuel t p pk = Some (p', pk') /\ placed p' /\ all_keys p' = all_keys p /\ at_live t p' pk' /\
    filter (live t) (remaining p') = filter (live t) (remaining p).
Proof.
  revert p pk. induction fuel as [|fuel IH]; intros p pk Hp Hf; [lia|]. cbn [skip_loop]. rewrite valid_law by done.
  destruct (remaining p) as [|k l] eqn:E.
  { rewrite bool_decide_true by done. cbn [negb]. exists p, pk. repeat split; try done; rewrite E in *; done. }
  rewrite bool_decide_false by done. cbn [negb]. destruct (next_law p k l Hp E) as (Hk & p1 & En & Hp1 & Ha1 & Hr1). rewrite Hk, live_test.
  case_bool_decide as Hl.
  - exists p, k. split; [done|]. split; [done|]. split; [done|]. split; [|by rewrite E]. intros k' l' E'. rewrite E in E'. by injection E' as -> ->.
  - rewrite En. cbn [mbind option_bind]. destruct (IH p1 k Hp1) as (p' & pk' & Es & Hp' & Ha' & Hl' & Hf'); [rewrite Hr1; cbn in Hf; lia|].
    exists p', pk'. split; [done|]. split; [done|]. split; [congruence|]. split; [done|]. by rewrite Hf', Hr1, filter_cons_False.
Qed.

Definition iter_placed (i : iter) : Prop :=
  placed (parentIt i) /\ at_live (transaction i) (parentIt i) (parentKey i) /\ written (transaction i) (transactionIt i) /\
  curIsParent i = DecideCur (transactionIt i) (parentIt i) (parentKey i) (curIsParent i).
Definition iter_all (i : iter) : list (list Z) := merged (transaction i) (writes_keys (transaction i)) (all_keys (parentIt i)).
Definition iter_remaining (i : iter) : list (list Z) := merged (transaction i) (transactionIt i) (remaining (parentIt i)).

Lemma DecideCur_twice keys (p : It) pk c : DecideCur keys p pk (DecideCur keys p pk c) = DecideCur keys p pk c.
Proof. unfold DecideCur. destruct keys, (it_Valid p); done. Qed.

Lemma settle_spec (i : iter) keys p : placed p -> written (transaction i) keys -> all_keys p = all_keys (parentIt i) ->
  exists i', settle i keys p = Some i' /\ iter_placed i' /\ iter_all i' = iter_all i /\ iter_remaining i' = merged (transaction i) keys (remaining p).
Proof.
  intros Hp Hk Ha. unfold settle. pose proof (left_law p Hp). destruct (skip_loop_spec (S (it_left p)) (transaction i) p (parentKey i) Hp ltac:(lia)) as (p' & pk' & -> & Hp' & Ha' & Hl' & Hf).
  cbn [mbind option_bind]. eexists; split; [done|]. split; [|split].
  - split; [done|]. split; [exact Hl'|]. split; [exact Hk|]. cbn [transactionIt parentIt parentKey curIsParent]. by rewrite DecideCur_twice.
  - unfold iter_all. cbn [transaction parentIt]. by rewrite Ha', Ha.
  - unfold iter_remaining, merged. cbn [transaction transactionIt parentIt]. by rewrite Hf.
Qed.

(** The next key is the smaller head. *)
Lemma merged_cons t (keys : list (list Z)) p pk c : written t keys -> placed p -> at_live t p pk ->
  (keys = [] /\ remaining p = [] /\ merged t keys (remaining p) = []) \/
  (exists k l, remaining p = k :: l /\ DecideCur keys p pk c = true /\ pk = k /\ merged t keys (remaining p) = k :: merged t keys l) \/
  (exists k l, keys = k :: l /\ DecideCur keys p pk c = false /\ merged t keys (remaining p) = k :: merged t l (remaining p)).
Proof.
  intros [Ho Hk] Hp Hl. unfold DecideCur, merged. rewrite valid_law by done. destruct (remaining p) as [|k l] eqn:E.
  - rewrite filter_nil, bool_decide_true by done. destruct keys as [|k1 l1]; [by left|]. right. right. exists k1, l1. by rewrite !list_merge_nil_r.
  - destruct (Hl k l E) as [Hlive ->]. rewrite filter_cons_True, bool_decide_false by done. cbn [negb]. destruct keys as [|k1 l1].
    + right. left. exists k, l. by rewrite !list_merge_nil_l.
    + rewrite list_merge_cons. assert (Hne : k1 <> k) by (intros ->; destruct (Hk k ltac:(by left)); destruct Hlive; congruence).
      destruct (less k1 k) eqn:Ek; [right; right; exists k1, l1 | right; left; exists k, l].
      * rewrite decide_True by (by apply less_le). done.
      * rewrite decide_False by (rewrite <-less_le by done; congruence). done.
Qed.

Lemma iter_next_spec (i : iter) k l : iter_placed i -> iter_remaining i = k :: l -> iter_GetKey i = k /\
  exists i', iter_Next i = Some i' /\ iter_placed i' /\ iter_all i' = iter_all i /\ iter_remaining i' = l.
Proof.
  intros (Hp & Hl & Hw & Hc) E. unfold iter_remaining in E. unfold iter_GetKey, iter_Next.
  destruct (merged_cons (transaction i) (transactionIt i) (parentIt i) (parentKey i) (curIsParent i) Hw Hp Hl)
    as [(_ & _ & Hm)|[(k1 & l1 & Er & Hd & Hk & Hm)|(k1 & l1 & Et & Hd & Hm)]]; rewrite Hm in E; [done|..]; injection E as -> <-; rewrite <-Hc in Hd; rewrite Hd.
  - assert (Hv : it_Valid (parentIt i) = true) by (rewrite valid_law, Er, bool_decide_false by done; done).
    assert (Hi : iter_Valid i = true) by (unfold iter_Valid; by destruct (transactionIt i)). rewrite Hi, Hv. cbn [negb]. split; [done|].
    destruct (next_law (parentIt i) k l1 Hp Er) as (_ & p' & -> & Hp' & Ha' & Hr'). cbn [mbind option_bind].
    destruct (settle_spec i (transactionIt i) p' Hp' Hw Ha') as (i' & Es & Hi' & Hall & Hrem). exists i'. by rewrite Hrem, Hr'.
  - assert (Hi : iter_Valid i = true) by (unfold iter_Valid; by rewrite Et). rewrite Hi, Et. cbn [negb]. split; [done|]. eexists; split; [done|]. split; [|done].
    destruct Hw as [Ho Hw]. rewrite Et in Ho, Hw. split; [done|]. split; [done|]. cbn [transaction transactionIt parentIt parentKey curIsParent]. split; [|by rewrite DecideCur_twice].
    split; [by apply ordered_tail in Ho|]. intros k' Hk'. apply Hw. by right.
Qed.

#[export] Instance tx_iterator_laws : IteratorLaws iter.
Proof.
  refine {| all_keys := iter_all; remaining := iter_remaining; placed := iter_placed |}.
  - intros i. apply merged_ordered; [|apply all_ordered]. split; [apply writes_keys_ordered|]. intros k. by rewrite writes_keys_elem.
  - intros i. cbn [it_SeekToFirst tx_iterator]. unfold iter_SeekToFirst. destruct (first_law (parentIt i)) as (p & -> & Hp & Ha & Hr). cbn [mbind option_bind].
    destruct (settle_spec i (writes_keys (transaction i)) p Hp) as (i' & E & Hi & Hall & Hrem); [|done|].
    { split; [apply writes_keys_ordered|]. intros k. by rewrite writes_keys_elem. }
    exists i'. split; [done|]. split; [done|]. split; [done|]. by rewrite Hrem, Hr.
  - intros k i. cbn [it_Seek tx_iterator]. unfold iter_Seek. destruct (seek_law k (parentIt i)) as (p & -> & Hp & Ha & Hr). cbn [mbind option_bind].
    assert (Hw : written (transaction i) (lower_bound k (writes_keys (transaction i)))).
    { rewrite lower_bound_filter by apply writes_keys_ordered. split; [apply ordered_filter, writes_keys_ordered|].
      intros k' [_ Hk']%list_elem_of_filter. by rewrite writes_keys_elem in Hk'. }
    destruct (settle_spec i _ p Hp Hw Ha) as (i' & E & Hi & Hall & Hrem). exists i'. split; [done|]. split; [done|]. split; [done|]. rewrite Hrem, Hr.
    apply ordered_unique.
    + apply merged_ordered; [done|]. apply ordered_filter, all_ordered.
    + apply ordered_filter, merged_ordered; [|apply all_ordered]. split; [apply writes_keys_ordered|]. intros k'. by rewrite writes_keys_elem.
    + intros k'. rewrite list_elem_of_filter. unfold iter_all. rewrite !merged_elem, lower_bound_filter, !list_elem_of_filter by apply writes_keys_ordered. tauto.
  - intros i (Hp & Hl & Hw & Hc). cbn [it_Valid tx_iterator]. unfold iter_Valid, iter_remaining.
    destruct (merged_cons (transaction i) (transactionIt i) (parentIt i) (parentKey i) true Hw Hp Hl)
      as [(-> & Er & ->)|[(k1 & l1 & Er & Hd & Hk & ->)|(k1 & l1 & -> & Hd & ->)]]; [|destruct (transactionIt i)|done]; rewrite ?valid_law, ?Er by done; done.
  - exact iter_next_spec.
  - intros i (Hp & _). cbn [it_left tx_iterator]. unfold iter_remaining, merged. rewrite (Permutation_length (merge_Permutation key_le _ _)), length_app.
    pose proof (left_law (parentIt i) Hp). pose proof (length_filter (live (transaction i)) (remaining (parentIt i))). lia.
  - intros i (Hp & _ & Hw & _). apply merged_ordered; [done|]. by apply remaining_ordered.
Defined.
End merging.

(** ** Scanning the database *)

(** [for (it.SeekToFirst(); it.Valid(); it.Next())] and the like: the keys from the current one on. *)
Fixpoint scan {It} `{!Iterator It} (fuel : nat) (it : It) : option (list (list Z)) :=
  match fuel with
  | O => None
  | S fuel => if it_Valid it then it' ← it_Next it; l ← scan fuel it'; Some (it_GetKey it :: l) else Some []
  end.

Lemma scan_spec {It} `{!Iterator It} `{!IteratorLaws It} fuel (it : It) : placed it -> (length (remaining it) < fuel)%nat -> scan fuel it = Some (remaining it).
Proof.
  revert it. induction fuel as [|fuel IH]; intros it Hp Hf; [lia|]. cbn [scan]. rewrite valid_law by done. destruct (remaining it) as [|k l] eqn:E; [done|].
  rewrite bool_decide_false by done. cbn [negb]. destruct (next_law it k l Hp E) as (-> & it' & -> & Hp' & _ & Hr). cbn [mbind option_bind].
  rewrite IH, Hr; [done|done|]. rewrite Hr. cbn in Hf. lia.
Qed.

Section database.
Context {V D It : Type} `{!LevelDB D} `{!Iterator It}.

(** The iterators of the root transaction over that of the store, and of the current transaction over it. *)
Definition root_NewIterator (NewIterator : D -> It) (e : CEvoDB (V := V) (D := D)) : CDBTransactionIterator := new_iter (rootDB e) (NewIterator (pdb (db e))).
Definition evo_NewIterator (NewIterator : D -> It) (e : CEvoDB (V := V) (D := D)) : CDBTransactionIterator := new_iter (curDB e) (root_NewIterator NewIterator e).

Lemma evo_all_keys `{!IteratorLaws It} (ser : V -> stream) (NewIterator : D -> It) e sc s :
  (forall d k, k ∈ all_keys (NewIterator d) <-> is_Some (Get d k)) -> evo_rel ser (e, sc) s ->
  all_keys (evo_NewIterator NewIterator e) = in_order (map fst (map_to_list (s_cur s))).
Proof.
  intros Hn [H1 F H2 H3 H4 H5 A H6 H7]. cbn [fst snd] in *. apply ordered_unique; [apply all_ordered|apply ordered_in_order, NoDup_fst_map_to_list|].
  intros k. assert (Hk : k ∈ in_order (map fst (map_to_list (s_cur s))) <-> is_Some (s_cur s !! k)).
  { rewrite in_order_elem, list_elem_of_fmap. split; [intros ([k1 p] & -> & Hp%elem_of_map_to_list); eauto|].
    intros [p Hp]. exists (k, p). split; [done|]. by apply elem_of_map_to_list. }
  rewrite Hk. cbn [all_keys tx_iterator_laws]. unfold iter_all, evo_NewIterator, root_NewIterator. cbn [transaction parentIt new_iter].
  rewrite merged_elem. cbn [all_keys tx_iterator_laws]. unfold iter_all. cbn [transaction parentIt new_iter]. rewrite merged_elem, !writes_keys_elem, Hn, H2.
  specialize (H4 k). specialize (H5 k). rewrite <-H5, <-H4. rewrite !ov_alt by apply A. unfold live.
  destruct (writes (curDB e) !! k); [naive_solver|]. case_bool_decide; [rewrite is_Some_alt; naive_solver|].
  destruct (writes (rootDB e) !! k); [naive_solver|]. case_bool_decide; [rewrite is_Some_alt; naive_solver|]. rewrite fmap_is_Some. naive_solver.
Qed.
End database.

(** ** The masternode database *)

Definition spec_empty {V} : spec (V := V) := mk_spec ∅ ∅ ∅ false false.

Lemma evo_start {V D} `{!LevelDB D} (ser : V -> stream) (d : D) : Empty d = true ->
  exists e, new_evo (V := V) d = Some e /\ evo_rel ser (e, None) spec_empty.
Proof.
  intros He. unfold new_evo, open_db, Exists. cbn [pdb]. rewrite empty_get by done. cbn [andb mbind option_bind]. eexists; split; [done|].
  split; cbn [fst snd db rootBatch rootDB curDB s_disk s_root s_cur s_dirty s_open spec_empty pdb obfuscate_key batch batch_Clear]; try done.
  intros k. by rewrite lookup_empty, empty_get.
Qed.

(** C8: The masternode database behaves as three maps.  From an empty store, for any sequence of writes, erasures, transaction objects that are begun, committed or left, commits of the root transaction and crashes, an assertion fails exactly where the specification says (a transaction is begun over changes, the root is committed before them); otherwise every key is found, and read at its type, as in the map of the current transaction: a commit publishes its changes to the root, leaving the scope drops them, and a crash falls back to what the last commit of the root wrote.  The memory counter is the sum of the sizes held, never negative. *)
Theorem evodb_refines_maps {V T} `{!EqDecision T} (type_of : V -> T) (ser : V -> stream) (unser : T -> reader V) {D} `{!LevelDB D} (d : D) (xs : list event) :
  ValueCodec ser type_of unser -> Empty d = true -> Forall evo_event_ok xs ->
  exists e0, new_evo d = Some e0 /\
    match steps ser xs (e0, None), spec_steps xs spec_empty with
    | None, None => True
    | Some (e, _), Some s =>
        (forall k, evo_Exists e k = bool_decide (is_Some (s_cur s !! k))) /\
        (forall k ty, s_cur s !! k = None -> evo_Read type_of unser e ty k = Some None) /\
        (forall k v, s_cur s !! k = Some v -> evo_Read type_of unser e (type_of v) k = Some (Some v)) /\
        evo_GetMemoryUsage e = usage (rootDB e)
    | _, _ => False
    end.
Proof.
  intros Hvc He Hx. destruct (evo_start ser d He) as (e0 & -> & Hr). exists e0. split; [done|]. pose proof (steps_refine ser xs _ _ Hr Hx) as Ha.
  destruct (steps ser xs (e0, None)) as [[e sc]|], (spec_steps xs spec_empty) as [s|]; try done. cbn [agree] in Ha. split; [|split; [|split]].
  - intros k. by apply (rel_reads ser type_of unser e sc s k).
  - intros k ty Hk. destruct (rel_reads ser type_of unser e sc s k Ha) as [_ H]. rewrite Hk in H. apply H.
  - intros k v Hk. destruct (rel_reads ser type_of unser e sc s k Ha) as [_ H]. by rewrite Hk in H.
  - destruct Ha as [_ _ _ _ _ _ [A _] _ _]. by apply accounted_usage with (ser := ser).
Qed.

(** C9: Iterating over the masternode database visits exactly its keys.  Whatever was done before, and although the keys come from the store and two transactions that delete and overwrite, the merging iterator fails no assertion: from [SeekToFirst] it yields the keys of the current map in lexicographic order, each once, and from [Seek] those that are not smaller than the given key. *)
Theorem evodb_iterator_complete {V D It} `{!LevelDB D} `{!Iterator It} `{!IteratorLaws It} (ser : V -> stream) (NewIterator : D -> It) (d : D) (xs : list event) :
  (forall d k, k ∈ all_keys (NewIterator d) <-> is_Some (Get d k)) -> Empty d = true -> Forall evo_event_ok xs ->
  exists e0, new_evo d = Some e0 /\ forall e sc s, steps ser xs (e0, None) = Some (e, sc) -> spec_steps xs spec_empty = Some s ->
    let keys := in_order (map fst (map_to_list (s_cur s))) in
    ordered keys /\
    (exists it, it_SeekToFirst (evo_NewIterator NewIterator e) = Some it /\ scan (S (length keys)) it = Some keys) /\
    forall k, exists it, it_Seek k (evo_NewIterator NewIterator e) = Some it /\
      scan (S (length keys)) it = Some (filter (fun x => less x k = false) keys).
Proof.
  intros Hn He Hx. destruct (evo_start ser d He) as (e0 & -> & Hr). exists e0. split; [done|]. intros e sc s E Es.
  pose proof (steps_refine ser xs _ _ Hr Hx) as Ha. rewrite E, Es in Ha. cbn [agree] in Ha. pose proof (evo_all_keys ser NewIterator e sc s Hn Ha) as Hk.
  cbv zeta. set (keys := in_order (map fst (map_to_list (s_cur s)))) in *. rewrite <-Hk. split; [apply all_ordered|]. split; [|intros k].
  - destruct (first_law (evo_NewIterator NewIterator e)) as (it & Ei & Hp & _ & Hrem). exists it. split; [done|]. rewrite <-Hrem. by apply scan_spec; [|lia].
  - destruct (seek_law k (evo_NewIterator NewIterator e)) as (it & Ei & Hp & _ & Hrem). exists it. split; [done|]. rewrite <-Hrem. apply scan_spec; [done|].
    rewrite Hrem. pose proof (length_filter (fun x => less x k = false) (all_keys (evo_NewIterator NewIterator e))). lia.
Qed.

(** ** Witnesses *)

(** Values are byte strings, and their length is their type. *)
Lemma demo_codec : ValueCodec (fun v : list Z => v) (fun v => length v) read.
Proof. intros v rest. by apply (round_trip (RoundTrip := blob_round_trip (length v))). Qed.

Definition demo_run : list event :=
  [Begin; EWrite [3] [7; 7]; EWrite [1] [8]; EWrite [1; 0] [9]; Commit; CommitRoot; Begin; EErase [1]; EWrite [2] [5]; Commit; Begin; EWrite [3] [6; 6]; EErase [4]].

Lemma demo_run_ok : Forall evo_event_ok demo_run.
Proof. repeat constructor; done. Qed.

(** An iterator of the finite map: its keys, and those not yet passed. *)
Record map_iter := mk_map_iter { m_all : list (list Z); m_left : list (list Z); m_ok : ordered m_all /\ ordered m_left }.

#[export] Instance map_iterator : Iterator map_iter.
Proof.
  refine {| it_SeekToFirst it := Some (mk_map_iter (m_all it) (m_all it) _);
            it_Seek k it := Some (mk_map_iter (m_all it) (filter (fun x => less x k = false) (m_all it)) _);
            it_Valid it := match m_left it with [] => false | _ => true end;
            it_GetKey it := hd [] (m_left it);
            it_Next it := Some (mk_map_iter (m_all it) (tl (m_left it)) _);
            it_left it := length (m_left it) |}.
  - split; apply (m_ok it).
  - split; [apply (m_ok it)|]. apply ordered_filter, (m_ok it).
  - split; [apply (m_ok it)|]. destruct (m_ok it) as [_ H]. destruct (m_left it); [done|]. by apply ordered_tail in H.
Defined.

#[export] Instance map_iterator_laws : IteratorLaws map_iter.
Proof.
  refine {| all_keys := m_all; remaining := m_left; placed _ := True |}.
  - intros it. apply (m_ok it).
  - intros it. eexists. done.
  - intros k it. eexists. done.
  - intros it _. cbn [it_Valid map_iterator]. by destruct (m_left it).
  - intros it k l _ E. cbn [it_GetKey it_Next map_iterator]. split; [by rewrite E|]. eexists; split; [done|]. cbn [m_all m_left]. by rewrite E.
  - intros it _. cbn [it_left map_iterator]. lia.
  - intros it _. apply (m_ok it).
Defined.

Definition map_NewIterator (d : gmap (list Z) (list Z)) : map_iter.
Proof.
  refine (mk_map_iter (in_order (map fst (map_to_list d))) [] _). split; [apply ordered_in_order, NoDup_fst_map_to_list|]. split; constructor.
Defined.

Lemma map_NewIterator_keys d k : k ∈ all_keys (map_NewIterator d) <-> is_Some (Get d k).
Proof.
  cbn [all_keys map_iterator_laws map_NewIterator m_all]. rewrite in_order_elem, list_elem_of_fmap. split.
  - intros ([k1 p] & -> & Hp%elem_of_map_to_list). by exists p.
  - intros [p Hp]. exists (k, p). split; [done|]. by apply elem_of_map_to_list.
Qed.

Lemma evodb_refines_maps_witness :
  exists e0 e sc, new_evo empty_store = Some e0 /\ steps (fun v => v) demo_run (e0, None) = Some (e, sc) /\
    evo_Read length read e 2%nat [3] = Some (Some [6; 6]) /\ evo_Read length read e 1%nat [1] = Some None /\ evo_Read length read e 1%nat [1; 0] = Some (Some [9]).
Proof.
  destruct (evodb_refines_maps (LevelDB0 := map_store) (fun v : list Z => length v) (fun v => v) read empty_store demo_run demo_codec ltac:(vm_compute; reflexivity) demo_run_ok) as (e0 & E0 & H).
  destruct (spec_steps demo_run spec_empty) as [s|] eqn:Es; [|vm_compute in Es; discriminate Es].
  destruct (steps (fun v => v) demo_run (e0, None)) as [[e sc]|] eqn:E; [|destruct H]. destruct H as (_ & Hn & Hs & _).
  assert (Hv : s = default s (spec_steps demo_run spec_empty)) by (rewrite Es; reflexivity).
  exists e0, e, sc. split; [exact E0|]. split; [exact E|]. split; [|split].
  - apply (Hs [3] [6; 6]). rewrite Hv. vm_compute. reflexivity.
  - apply (Hn [1] 1%nat). rewrite Hv. vm_compute. reflexivity.
  - apply (Hs [1; 0] [9]). rewrite Hv. vm_compute. reflexivity.
Defined.

Lemma evodb_iterator_complete_witness :
  exists e0 e sc it, new_evo empty_store = Some e0 /\ steps (fun v => v) demo_run (e0, None) = Some (e, sc) /\
    it_Seek [1] (evo_NewIterator map_NewIterator e) = Some it /\ scan 4 it = Some [[1; 0]; [2]; [3]].
Proof.
  destruct (evodb_iterator_complete (LevelDB0 := map_store) (fun v => v) map_NewIterator empty_store demo_run map_NewIterator_keys ltac:(vm_compute; reflexivity) demo_run_ok) as (e0 & E0 & H).
  destruct (steps (fun v => v) demo_run (e0, None)) as [[e sc]|] eqn:E; [|vm_compute in E0; injection E0 as <-; vm_compute in E; discriminate E].
  destruct (spec_steps demo_run spec_empty) as [s|] eqn:Es; [|vm_compute in Es; discriminate Es].
  assert (Hv : s = default s (spec_steps demo_run spec_empty)) by (rewrite Es; reflexivity).
  assert (Hk : in_order (map fst (map_to_list (s_cur s))) = [[1; 0]; [2]; [3]]) by (rewrite Hv; vm_compute; reflexivity).
  specialize (H e sc s eq_refl eq_refl) as (_ & _ & Hseek). cbv zeta in Hseek. rewrite Hk in Hseek. destruct (Hseek [1]) as (it & Ei & Hi).
  exists e0, e, sc, it. split; [exact E0|]. split; [exact E|]. split; [exact Ei|]. exact Hi.
Defined.
