(* ===== verification/PartialMerkle.v ===== *)
(** * PartialMerkle: proofs that transactions are in a block

    Models CPartialMerkleTree of merkleblock.h and merkleblock.cpp: the depth-first
    encoding of a Merkle tree in which only the paths to selected transactions are
    opened, its decoding, and its byte format.

    A hash is a value of [A], and [hash] is the double SHA-256 of two of them.
    Positions and sizes are [unsigned int]; [None] is a shift that C leaves
    undefined. *)

From S2P Require Import Prelude Words Serialize SerializeCorrect SerializeVector ShaSpec Hash HashCorrect.
From S2P Require Import ConsensusMerkle ConsensusMerkleCorrect ConsensusMerkleTheorems Transaction TransactionTheorems TxVerify.

Section model.
Context {A : Type} `{!EqDecision A} (null : A) (hash : A -> A -> A).

Record CPartialMerkleTree := mk_pmt { nTransactions : Z; vBits : list bool; vHash : list A; fBad : bool }.

Definition CalcTreeWidth (nTransactions : Z) (height : nat) : Z := u32 (nTransactions + (1 ≪ Z.of_nat height) - 1) ≫ Z.of_nat height.

Fixpoint CalcHash (nTransactions : Z) (vTxid : list A) (height : nat) (pos : Z) : A :=
  match height with
  | O => nth (Z.to_nat pos) vTxid null
  | S height =>
      let left := CalcHash nTransactions vTxid height (u32 (pos * 2)) in
      let right := if u32 (pos * 2 + 1) <? CalcTreeWidth nTransactions height then CalcHash nTransactions vTxid height (u32 (pos * 2 + 1)) else left in
      hash left right
  end.

(** The loop over [p] that sets [fParentOfMatch]. *)
Definition parent_of_match (nTransactions : Z) (vMatch : list bool) (height : nat) (pos : Z) : bool :=
  let first := u32 (pos ≪ Z.of_nat height) in
  let last := Z.min (u32 (u32 (pos + 1) ≪ Z.of_nat height)) nTransactions in
  existsb (fun p => nth p vMatch false) (seq (Z.to_nat first) (Z.to_nat (last - first))).

(** The bits and hashes of the object, before and after. *)
Fixpoint TraverseAndBuild (nTransactions : Z) (vTxid : list A) (vMatch : list bool) (height : nat) (pos : Z) (st : list bool * list A) :
    list bool * list A :=
  let fParentOfMatch := parent_of_match nTransactions vMatch height pos in
  let vBits := fst st ++ [fParentOfMatch] in
  match height with
  | O => (vBits, snd st ++ [CalcHash nTransactions vTxid O pos])
  | S height' =>
      if negb fParentOfMatch then (vBits, snd st ++ [CalcHash nTransactions vTxid (S height') pos])
      else
        let st := TraverseAndBuild nTransactions vTxid vMatch height' (u32 (pos * 2)) (vBits, snd st) in
        if u32 (pos * 2 + 1) <? CalcTreeWidth nTransactions height'
        then TraverseAndBuild nTransactions vTxid vMatch height' (u32 (pos * 2 + 1)) st else st
  end.

(** [while (CalcTreeWidth(nHeight) > 1) nHeight++] *)
Fixpoint height_loop (fuel : nat) (nTransactions : Z) (nHeight : nat) : option nat :=
  match fuel with
  | O => None
  | S fuel => if 1 <? CalcTreeWidth nTransactions nHeight then height_loop fuel nTransactions (S nHeight) else Some nHeight
  end.

Definition new_pmt (vTxid : list A) (vMatch : list bool) : option CPartialMerkleTree :=
  let nTransactions := u32 (Z.of_nat (length vTxid)) in
  nHeight ← height_loop 32 nTransactions 0;
  let '(vBits, vHash) := TraverseAndBuild nTransactions vTxid vMatch nHeight 0 ([], []) in
  Some (mk_pmt nTransactions vBits vHash false).

(** The references that TraverseAndExtract updates, and [fBad]. *)
Record extraction := mk_ex { nBitsUsed : nat; nHashUsed : nat; matches : list A; vnIndex : list Z; bad : bool }.
Definition set_bad (s : extraction) : extraction := mk_ex (nBitsUsed s) (nHashUsed s) (matches s) (vnIndex s) true.

Definition use_hash (t : CPartialMerkleTree) (found : bool) (pos : Z) (s : extraction) : A * extraction :=
  if (length (vHash t) <=? nHashUsed s)%nat then (null, set_bad s)
  else
    let h := nth (nHashUsed s) (vHash t) null in
    (h, mk_ex (nBitsUsed s) (S (nHashUsed s)) (if found then matches s ++ [h] else matches s) (if found then vnIndex s ++ [pos] else vnIndex s) (bad s)).

Fixpoint TraverseAndExtract (t : CPartialMerkleTree) (height : nat) (pos : Z) (s : extraction) : A * extraction :=
  if (length (vBits t) <=? nBitsUsed s)%nat then (null, set_bad s)
  else
    let fParentOfMatch := nth (nBitsUsed s) (vBits t) false in
    let s := mk_ex (S (nBitsUsed s)) (nHashUsed s) (matches s) (vnIndex s) (bad s) in
    match height with
    | O => use_hash t fParentOfMatch pos s
    | S height' =>
        if negb fParentOfMatch then use_hash t false pos s
        else
          let '(hleft, s) := TraverseAndExtract t height' (u32 (pos * 2)) s in
          if u32 (pos * 2 + 1) <? CalcTreeWidth (nTransactions t) height' then
            let '(hright, s) := TraverseAndExtract t height' (u32 (pos * 2 + 1)) s in
            (hash hleft hright, if bool_decide (hright = hleft) then set_bad s else s)
          else (hash hleft hleft, s)
    end.

(** The root, [vMatch], [vnIndex] (which is not cleared) and the object's [fBad]. *)
Definition ExtractMatches (t : CPartialMerkleTree) (vnIndex0 : list Z) : option (A * list A * list Z * bool) :=
  if nTransactions t =? 0 then Some (null, [], vnIndex0, fBad t)
  else if MAX_BLOCK_BASE_SIZE / 60 <? nTransactions t then Some (null, [], vnIndex0, fBad t)
  else if nTransactions t <? Z.of_nat (length (vHash t)) then Some (null, [], vnIndex0, fBad t)
  else if (length (vBits t) <? length (vHash t))%nat then Some (null, [], vnIndex0, fBad t)
  else
    nHeight ← height_loop 32 (nTransactions t) 0;
    let '(root, s) := TraverseAndExtract t nHeight 0 (mk_ex 0 0 [] vnIndex0 (fBad t)) in
    let root := if bad s then null
      else if negb ((nBitsUsed s + 7) / 8 =? (length (vBits t) + 7) / 8)%nat then null
      else if negb (nHashUsed s =? length (vHash t))%nat then null
      else root in
    Some (root, matches s, vnIndex s, bad s).
End model.

(** ** The byte format *)

(** [vBytes[p / 8] |= vBits[p] << (p % 8)] for every [p] *)
Definition pack (vBits : list bool) : list Z :=
  fold_left (fun vBytes p => <[(p / 8)%nat := Z.lor vBytes.[(p / 8)%nat] ((if nth p vBits false then 1 else 0) ≪ Z.of_nat (p mod 8))]> vBytes)
    (seq 0 (length vBits)) (replicate ((length vBits + 7) / 8) 0).
Definition unpack (vBytes : list Z) : list bool :=
  map (fun p => negb (Z.land vBytes.[(p / 8)%nat] (1 ≪ Z.of_nat (p mod 8)) =? 0)) (seq 0 (length vBytes * 8)).

Definition Serialize_pmt (t : CPartialMerkleTree (A := list Z)) : stream :=
  ser_writedata32 (nTransactions t) ++ Serialize_vector id (vHash t) ++ Serialize_bytes (pack (vBits t)).
Definition Unserialize_pmt (grow : Z) : reader (CPartialMerkleTree (A := list Z)) := fun s =>
  '(nTransactions, s) ← ser_readdata32 s;
  '(vHash, s) ← Unserialize_vector (read 32) grow s;
  '(vBytes, s) ← Unserialize_bytes s;
  Some (mk_pmt nTransactions (unpack vBytes) vHash false, s).

(** ** The honest tree *)

Section tree.
Context {A : Type} `{!EqDecision A} (null : A) (hash : A -> A -> A) (leaves : list A).
Abbreviation n := (Z.of_nat (length leaves)).
Context (Hn : 0 < n <= 33333).
Abbreviation w := (width leaves).
Abbreviation node := (pnode null hash leaves).

(** The two hashes below node [pos] of level [S k]. *)
Definition below (k : nat) (pos : Z) : A * A := (node k (2 * pos), node k (if 2 * pos + 1 <? w k then 2 * pos + 1 else 2 * pos)).

(** No node of the tree has two equal children at different positions, which is
    what the decoder takes for a manipulated tree. *)
Definition distinct_siblings : bool :=
  forallb (fun k => forallb (fun i => let pos := Z.of_nat i in
    if 2 * pos + 1 <? w k then negb (bool_decide (node k (2 * pos + 1) = node k (2 * pos))) else true) (seq 0 (length leaves))) (seq 0 17).

Lemma width_le k : w k <= n.
Proof. induction k as [|k IH]; cbn [width]; [lia|]. pose proof (level_width_pos leaves k ltac:(lia)). apply Z.div_le_upper_bound; lia. Qed.

Lemma tree_width k : (k <= 31)%nat -> CalcTreeWidth n k = w k.
Proof.
  intros Hk. unfold CalcTreeWidth. rewrite Z.shiftl_1_l. pose proof (pow_pos k). destruct (width_bound leaves k) as [H1 H2]. specialize (H2 ltac:(lia)).
  assert (2 ^ Z.of_nat k <= 2 ^ 31) by (apply Z.pow_le_mono_r; lia).
  rewrite wrap_small by (unfold word; lia). rewrite Z.shiftr_div_pow2 by lia. symmetry. apply (Z.div_unique _ _ _ (n + 2 ^ Z.of_nat k - 1 - w k * 2 ^ Z.of_nat k)); [left|]; nia.
Qed.

Lemma width_big k : 1 < w k -> (k < 16)%nat.
Proof.
  intros Hk. destruct (width_bound leaves k) as [_ H]. specialize (H ltac:(lia)). pose proof (pow_pos k). assert (2 ^ Z.of_nat k < 2 ^ 16) by nia.
  destruct (Nat.le_gt_cases 16 k) as [H16|]; [|done]. assert (2 ^ 16 <= 2 ^ Z.of_nat k) by (apply Z.pow_le_mono_r; lia). lia.
Qed.

Lemma child k pos : 0 <= pos < w (S k) -> 0 <= 2 * pos < w k.
Proof. cbn [width]. pose proof (Z.div_mod (w k + 1) 2 ltac:(lia)). pose proof (Z.mod_pos_bound (w k + 1) 2 ltac:(lia)). lia. Qed.

Lemma height_loop_spec fuel k : (k + fuel = 32)%nat -> (k <= 16)%nat -> (forall j, (j < k)%nat -> 1 < w j) ->
  exists t, height_loop fuel n k = Some t /\ top leaves t /\ (t <= 16)%nat.
Proof.
  revert k. induction fuel as [|fuel IH]; intros k Hf Hk Hj; [lia|]. cbn [height_loop]. rewrite tree_width by lia.
  destruct (Z.ltb_spec 1 (w k)) as [H|H].
  - apply IH; [lia| |]; [pose proof (width_big k H); lia|]. intros j Hj'. destruct (decide (j = k)) as [->|]; [done|]. apply Hj. lia.
  - exists k. split; [done|]. split; [|done]. split; [|done]. pose proof (level_width_pos leaves k ltac:(lia)). lia.
Qed.

(** The two children, without the wrapping that never happens. *)
Lemma small_children k pos : (k <= 31)%nat -> 0 <= pos < w (S k) ->
  u32 (pos * 2) = 2 * pos /\ u32 (pos * 2 + 1) = 2 * pos + 1 /\ (u32 (pos * 2 + 1) <? CalcTreeWidth n k) = (2 * pos + 1 <? w k).
Proof.
  intros Hk Hp. pose proof (child k pos Hp). pose proof (width_le k). rewrite tree_width by done.
  rewrite !wrap_small by (unfold word; lia). rewrite (Z.mul_comm pos 2). done.
Qed.

Lemma CalcHash_node k pos : (k <= 31)%nat -> 0 <= pos < w k -> CalcHash null hash n leaves k pos = node k pos.
Proof.
  revert pos. induction k as [|k IH]; intros pos Hk Hp; [done|]. cbn [CalcHash pnode]. destruct (small_children k pos ltac:(lia) Hp) as (E1 & E2 & ->). rewrite E1, E2.
  pose proof (child k pos Hp). rewrite IH by lia. destruct (Z.ltb_spec (2 * pos + 1) (w k)); [rewrite IH by lia; done|done].
Qed.

Lemma distinct_siblings_at k pos : distinct_siblings = true -> (k <= 16)%nat -> 0 <= pos -> 2 * pos + 1 < w k -> node k (2 * pos + 1) <> node k (2 * pos).
Proof.
  intros Hd Hk Hp Hw. pose proof (width_le k). unfold distinct_siblings in Hd. rewrite forallb_forall in Hd. specialize (Hd k ltac:(apply in_seq; lia)). cbv beta in Hd.
  rewrite forallb_forall in Hd. specialize (Hd (Z.to_nat pos) ltac:(apply in_seq; lia)). cbv beta zeta in Hd. rewrite Z2Nat.id in Hd by lia.
  destruct (Z.ltb_spec (2 * pos + 1) (w k)); [|lia]. apply negb_true_iff, bool_decide_eq_false_1 in Hd. exact Hd.
Qed.

(** Different identifiers have different nodes above them, unless two nodes of
    this very tree have different children and the same hash. *)
Lemma node_inj k a b : NoDup leaves -> 0 <= a < w k -> 0 <= b < w k -> node k a = node k b ->
  a = b \/ exists j a' b', (j < k)%nat /\ below j a' <> below j b' /\ node (S j) a' = node (S j) b'.
Proof.
  intros Hd. revert a b. induction k as [|k IH]; intros a b Ha Hb E.
  - left. cbn [pnode width] in *. enough (Z.to_nat a = Z.to_nat b) by lia.
    destruct (lookup_lt_is_Some_2 leaves (Z.to_nat a) ltac:(lia)) as [x Hx]. destruct (lookup_lt_is_Some_2 leaves (Z.to_nat b) ltac:(lia)) as [y Hy].
    rewrite (nth_lookup_Some leaves _ null x Hx), (nth_lookup_Some leaves _ null y Hy) in E. subst y. exact (NoDup_lookup leaves _ _ x Hd Hx Hy).
  - pose proof (child k a Ha). pose proof (child k b Hb).
    destruct (decide (node k (2 * a) = node k (2 * b))) as [El|El].
    + destruct (IH (2 * a) (2 * b) ltac:(lia) ltac:(lia) El) as [|(j & a' & b' & Hj & Hx)]; [left; lia|]. right. exists j, a', b'. split; [lia|exact Hx].
    + right. exists k, a, b. split; [lia|]. split; [unfold below; congruence|exact E].
Qed.

(** ** Building *)

Context (vMatch : list bool).
Abbreviation build := (TraverseAndBuild null hash n leaves vMatch).
Abbreviation enc := (fun k pos => build k pos ([], [])).

Lemma build_app k pos st : build k pos st = (fst st ++ fst (enc k pos), snd st ++ snd (enc k pos)).
Proof.
  revert pos st. induction k as [|k IH]; intros pos st; cbn [TraverseAndBuild fst snd app]; [done|].
  destruct (negb _); [done|]. set (b := parent_of_match _ _ _ _). rewrite (IH _ (fst st ++ [b], snd st)), (IH (u32 (pos * 2)) ([b], [])). cbn [fst snd].
  destruct (_ <? _); [|by rewrite <-!app_assoc].
  rewrite (IH _ (_ ++ _, _ ++ _)), (IH _ ([b] ++ _, _)). cbn [fst snd]. by rewrite <-!app_assoc.
Qed.

(** The selected positions below a node. *)
Definition lo (k : nat) (pos : Z) : nat := Z.to_nat (pos * 2 ^ Z.of_nat k).
Definition hi (k : nat) (pos : Z) : nat := Z.to_nat (Z.min ((pos + 1) * 2 ^ Z.of_nat k) n).
Definition chosen (k : nat) (pos : Z) : list nat := List.filter (fun p => nth p vMatch false) (seq (lo k pos) (hi k pos - lo k pos)).

Lemma block_bounds k pos : 0 <= pos < w k -> pos * 2 ^ Z.of_nat k < n.
Proof. intros Hp. destruct (width_bound leaves k) as [_ H]. specialize (H ltac:(lia)). pose proof (pow_pos k). nia. Qed.

Lemma chosen_children k pos : 0 <= pos < w (S k) ->
  chosen (S k) pos = chosen k (2 * pos) ++ (if 2 * pos + 1 <? w k then chosen k (2 * pos + 1) else []).
Proof.
  intros Hp. pose proof (child k pos Hp). pose proof (block_bounds k (2 * pos) ltac:(lia)). pose proof (pow_pos k). unfold chosen.
  assert (El : lo (S k) pos = lo k (2 * pos)) by (unfold lo; rewrite pow_S; f_equal; ring). rewrite El.
  destruct (Z.ltb_spec (2 * pos + 1) (w k)) as [Hc|Hc].
  - pose proof (block_bounds k (2 * pos + 1) ltac:(lia)).
    assert (Em : hi k (2 * pos) = lo k (2 * pos + 1)) by (unfold hi, lo; f_equal; lia).
    assert (Eh : hi (S k) pos = hi k (2 * pos + 1)) by (unfold hi; rewrite pow_S; do 2 f_equal; ring).
    rewrite <-List.filter_app, Em, Eh. f_equal. assert (lo k (2 * pos) <= lo k (2 * pos + 1) <= hi k (2 * pos + 1))%nat by (unfold lo, hi; lia).
    replace (hi k (2 * pos + 1) - lo k (2 * pos))%nat with ((lo k (2 * pos + 1) - lo k (2 * pos)) + (hi k (2 * pos + 1) - lo k (2 * pos + 1)))%nat by lia.
    rewrite seq_app. do 2 f_equal. lia.
  - rewrite app_nil_r. do 2 f_equal. f_equal. unfold hi. rewrite pow_S. f_equal. destruct (width_bound leaves k) as [Hw _]. nia.
Qed.

Definition some_chosen (k : nat) (pos : Z) : bool := match chosen k pos with [] => false | _ :: _ => true end.

Lemma existsb_filter {B} (f : B -> bool) l : existsb f l = match List.filter f l with [] => false | _ :: _ => true end.
Proof. induction l as [|x l IH]; cbn; [done|]. by destruct (f x). Qed.

Lemma parent_chosen k pos : (k <= 16)%nat -> 0 <= pos < w k -> parent_of_match n vMatch k pos = some_chosen k pos.
Proof.
  intros Hk Hp. unfold parent_of_match, some_chosen, chosen. rewrite existsb_filter. pose proof (block_bounds k pos Hp). pose proof (pow_pos k). pose proof (width_le k).
  assert (2 ^ Z.of_nat k <= 2 ^ 16) by (apply Z.pow_le_mono_r; lia). rewrite (wrap_small 32 (pos + 1)) by (unfold word; lia).
  rewrite !Z.shiftl_mul_pow2, !wrap_small by (unfold word; nia || lia).
  do 2 f_equal. unfold hi, lo. rewrite Z2Nat.inj_sub by nia. done.
Qed.

Lemma enc_leaf pos : 0 <= pos < w 0%nat -> enc 0%nat pos = ([some_chosen 0 pos], [node 0%nat pos]).
Proof. intros Hp. cbn [TraverseAndBuild fst snd app]. rewrite parent_chosen by (done || lia). done. Qed.

Lemma enc_node k pos : (k < 16)%nat -> 0 <= pos < w (S k) -> enc (S k) pos =
  if negb (some_chosen (S k) pos) then ([false], [node (S k) pos])
  else let r := if 2 * pos + 1 <? w k then enc k (2 * pos + 1) else ([], []) in
       (true :: fst (enc k (2 * pos)) ++ fst r, snd (enc k (2 * pos)) ++ snd r).
Proof.
  intros Hk Hp. cbn [TraverseAndBuild fst snd app]. rewrite parent_chosen by (done || lia). destruct (some_chosen (S k) pos); cbn [negb].
  - destruct (small_children k pos ltac:(lia) Hp) as (-> & -> & ->). rewrite (build_app k (2 * pos) ([true], [])). cbn [fst snd app].
    destruct (2 * pos + 1 <? w k); [rewrite build_app; cbn [fst snd]; done|]. cbv zeta. cbn [fst snd]. by rewrite !app_nil_r.
  - by rewrite CalcHash_node by lia.
Qed.

(** Not more hashes than leaves, nor than bits. *)
Lemma enc_sizes k pos : (k <= 16)%nat -> 0 <= pos < w k ->
  (length (snd (enc k pos)) <= hi k pos - lo k pos)%nat /\ (length (snd (enc k pos)) <= length (fst (enc k pos)))%nat.
Proof.
  revert pos. induction k as [|k IH]; intros pos Hk Hp; pose proof (block_bounds _ pos Hp) as Hb.
  - rewrite enc_leaf by done. cbn [fst snd length]. unfold hi, lo. cbn [Z.of_nat Z.pow] in *. lia.
  - assert (1 <= hi (S k) pos - lo (S k) pos)%nat by (unfold hi, lo; pose proof (pow_pos (S k)); lia).
    rewrite enc_node by (done || lia). destruct (negb _); [cbn [fst snd length]; lia|]. pose proof (child k pos Hp). cbv zeta. cbn [fst snd length].
    destruct (IH (2 * pos) ltac:(lia) ltac:(lia)) as [L1 L2]. pose proof (pow_pos k). rewrite !length_app. destruct (Z.ltb_spec (2 * pos + 1) (w k)) as [Hc|Hc].
    + destruct (IH (2 * pos + 1) ltac:(lia) ltac:(lia)) as [L3 L4]. pose proof (block_bounds k (2 * pos + 1) ltac:(lia)). split; [|lia].
      enough (hi k (2 * pos) - lo k (2 * pos) + (hi k (2 * pos + 1) - lo k (2 * pos + 1)) <= hi (S k) pos - lo (S k) pos)%nat by lia. unfold hi, lo. rewrite pow_S. lia.
    + cbn [fst snd length]. split; [|lia]. enough (hi k (2 * pos) - lo k (2 * pos) <= hi (S k) pos - lo (S k) pos)%nat by lia. unfold hi, lo. rewrite pow_S. lia.
Qed.

Lemma enc_bits k pos : (k <= 16)%nat -> 0 <= pos < w k -> (length (fst (enc k pos)) < 2 ^ S k)%nat.
Proof.
  revert pos. induction k as [|k IH]; intros pos Hk Hp; [rewrite enc_leaf by done; cbn; lia|]. rewrite enc_node by (done || lia). pose proof (child k pos Hp).
  pose proof (Nat.pow_succ_r' 2 (S k)). pose proof (IH (2 * pos) ltac:(lia) ltac:(lia)). destruct (negb _); [cbn [fst length]; lia|]. cbv zeta. cbn [fst length]. rewrite length_app.
  destruct (Z.ltb_spec (2 * pos + 1) (w k)); [pose proof (IH (2 * pos + 1) ltac:(lia) ltac:(lia)); lia|cbn [fst length]; lia].
Qed.

(** ** Extracting what was built *)

Abbreviation leaf := (fun p => nth p leaves null).

(** The state after a subtree was read. *)
Definition advanced (k : nat) (pos : Z) (s : extraction) : extraction :=
  mk_ex (nBitsUsed s + length (fst (enc k pos))) (nHashUsed s + length (snd (enc k pos)))
    (matches s ++ map leaf (chosen k pos)) (vnIndex s ++ map Z.of_nat (chosen k pos)) (bad s).

(** The bits and hashes of a subtree are next in the tree [t]. *)
Definition upcoming (t : CPartialMerkleTree) (s : extraction (A := A)) (bits : list bool) (hashes : list A) : Prop :=
  exists b0 b1 h0 h1, vBits t = b0 ++ bits ++ b1 /\ length b0 = nBitsUsed s /\ vHash t = h0 ++ hashes ++ h1 /\ length h0 = nHashUsed s.

Lemma upcoming_bit t s b bits hashes : upcoming t s (b :: bits) hashes ->
  (length (vBits t) <=? nBitsUsed s)%nat = false /\ nth (nBitsUsed s) (vBits t) false = b /\
  upcoming t (mk_ex (S (nBitsUsed s)) (nHashUsed s) (matches s) (vnIndex s) (bad s)) bits hashes.
Proof.
  intros (b0 & b1 & h0 & h1 & Eb & Lb & Eh & Lh). rewrite Eb. split; [apply Nat.leb_gt; rewrite !length_app; cbn [length]; lia|]. split.
  - rewrite app_nth2 by lia. by replace (nBitsUsed s - length b0)%nat with 0%nat by lia.
  - exists (b0 ++ [b]), b1, h0, h1. cbn [nBitsUsed nHashUsed]. rewrite Eb, length_app. cbn [length]. split; [by rewrite <-app_assoc|]. split; [lia|done].
Qed.

Lemma upcoming_hash t s h hashes found pos : upcoming t s [] (h :: hashes) ->
  use_hash null t found pos s =
  (h, mk_ex (nBitsUsed s) (S (nHashUsed s)) (if found then matches s ++ [h] else matches s) (if found then vnIndex s ++ [pos] else vnIndex s) (bad s)).
Proof.
  intros (b0 & b1 & h0 & h1 & _ & _ & Eh & Lh). unfold use_hash. rewrite Eh. destruct (Nat.leb_spec (length (h0 ++ (h :: hashes) ++ h1)) (nHashUsed s)) as [H|_].
  { rewrite !length_app in H. cbn [length] in H. lia. }
  rewrite app_nth2 by lia. replace (nHashUsed s - length h0)%nat with 0%nat by lia. done.
Qed.

Lemma upcoming_left t s bits1 bits2 hashes1 hashes2 : upcoming t s (bits1 ++ bits2) (hashes1 ++ hashes2) -> upcoming t s bits1 hashes1.
Proof. intros (b0 & b1 & h0 & h1 & Eb & Lb & Eh & Lh). exists b0, (bits2 ++ b1), h0, (hashes2 ++ h1). by rewrite Eb, Eh, <-!app_assoc. Qed.

Lemma upcoming_right t s k pos bits2 hashes2 : upcoming t s (fst (enc k pos) ++ bits2) (snd (enc k pos) ++ hashes2) -> upcoming t (advanced k pos s) bits2 hashes2.
Proof.
  intros (b0 & b1 & h0 & h1 & Eb & Lb & Eh & Lh). exists (b0 ++ fst (enc k pos)), b1, (h0 ++ snd (enc k pos)), h1. unfold advanced. cbn [nBitsUsed nHashUsed].
  rewrite Eb, Eh, !length_app, <-!app_assoc. split; [done|]. split; [lia|]. split; [done|lia].
Qed.

Definition bit_read (s : extraction (A := A)) : extraction := mk_ex (S (nBitsUsed s)) (nHashUsed s) (matches s) (vnIndex s) (bad s).

Lemma advanced_node k pos s : (k < 16)%nat -> 0 <= pos < w (S k) -> some_chosen (S k) pos = true ->
  advanced (S k) pos s = if 2 * pos + 1 <? w k then advanced k (2 * pos + 1) (advanced k (2 * pos) (bit_read s)) else advanced k (2 * pos) (bit_read s).
Proof.
  intros Hk Hp Hs. unfold advanced at 1. rewrite enc_node, Hs, chosen_children by (done || lia). cbn [negb]. cbv zeta.
  destruct (2 * pos + 1 <? w k); unfold advanced, bit_read; cbn [fst snd nBitsUsed nHashUsed matches vnIndex bad].
  - f_equal; [cbn [length]; rewrite length_app; lia|rewrite length_app; lia|by rewrite map_app, app_assoc..].
  - rewrite !app_nil_r. f_equal. cbn [length]. lia.
Qed.

Lemma extract_built t k pos s : distinct_siblings = true -> nTransactions t = n -> (k <= 16)%nat -> 0 <= pos < w k -> upcoming t s (fst (enc k pos)) (snd (enc k pos)) ->
  TraverseAndExtract null hash t k pos s = (node k pos, advanced k pos s).
Proof.
  intros Hd Ht. revert pos s. induction k as [|k IH]; intros pos s Hk Hp Hu.
  - unfold advanced. rewrite enc_leaf in * by done. cbn [fst snd] in Hu. destruct (upcoming_bit _ _ _ _ _ Hu) as (E1 & E2 & Hu1).
    cbn [TraverseAndExtract]. rewrite E1, E2, (upcoming_hash _ _ _ _ _ _ Hu1). cbn [fst snd length matches vnIndex nBitsUsed nHashUsed bad].
    rewrite !Nat.add_1_r. unfold some_chosen. assert (Ec : chosen 0 pos = if nth (Z.to_nat pos) vMatch false then [Z.to_nat pos] else []).
    { unfold chosen, lo, hi. cbn [width] in Hp. cbn [Z.of_nat Z.pow]. rewrite !Z.mul_1_r. replace (Z.to_nat (Z.min (pos + 1) n) - Z.to_nat pos)%nat with 1%nat by lia. done. }
    rewrite Ec. destruct (nth (Z.to_nat pos) vMatch false); cbn [map]; rewrite ?app_nil_r, ?Z2Nat.id by lia; done.
  - rewrite enc_node in Hu by (done || lia). cbn [TraverseAndExtract]. unfold some_chosen in Hu. destruct (chosen (S k) pos) eqn:Ec; cbn [negb] in Hu.
    + cbn [fst snd] in Hu. destruct (upcoming_bit _ _ _ _ _ Hu) as (E1 & E2 & Hu1). rewrite E1, E2. cbn [negb]. rewrite (upcoming_hash _ _ _ _ _ _ Hu1).
      unfold advanced. rewrite enc_node by (done || lia). unfold some_chosen. rewrite Ec. cbn [negb fst snd length map matches vnIndex nBitsUsed nHashUsed bad]. by rewrite !app_nil_r, !Nat.add_1_r.
    + cbv zeta in Hu. cbn [fst snd] in Hu. destruct (upcoming_bit _ _ _ _ _ Hu) as (E1 & E2 & Hu1). rewrite E1, E2. cbn [negb].
      pose proof (child k pos Hp). rewrite Ht. destruct (small_children k pos ltac:(lia) Hp) as (-> & -> & ->).
      rewrite (IH (2 * pos) _ ltac:(lia) ltac:(lia) (upcoming_left _ _ _ _ _ _ Hu1)). apply upcoming_right in Hu1.
      destruct (Z.ltb_spec (2 * pos + 1) (w k)) as [Hc|Hc].
      * rewrite (IH (2 * pos + 1) _ ltac:(lia) ltac:(lia) Hu1).
        rewrite bool_decide_false by (apply distinct_siblings_at; done || lia). rewrite advanced_node; [|lia|done|unfold some_chosen; by rewrite Ec]. cbn [pnode].
        destruct (Z.ltb_spec (2 * pos + 1) (w k)); [done|lia].
      * rewrite advanced_node; [|lia|done|unfold some_chosen; by rewrite Ec]. cbn [pnode]. destruct (Z.ltb_spec (2 * pos + 1) (w k)); [lia|done].
Qed.

(** The positions that were selected. *)
Definition selected : list nat := List.filter (fun p => nth p vMatch false) (seq 0 (length leaves)).

Lemma chosen_top t : top leaves t -> chosen t 0 = selected.
Proof.
  intros [Ht _]. destruct (width_bound leaves t) as [Hw _]. rewrite Ht in Hw. unfold chosen, selected, lo, hi. cbn [Z.mul Z.add Z.to_nat].
  rewrite Z.mul_1_l, Nat.sub_0_r, Z.min_r, Nat2Z.id by lia. done.
Qed.

Lemma new_pmt_spec : exists t, top leaves t /\ (t <= 16)%nat /\ new_pmt null hash leaves vMatch = Some (mk_pmt n (fst (enc t 0)) (snd (enc t 0)) false).
Proof.
  destruct (height_loop_spec 32 0 eq_refl ltac:(lia) ltac:(lia)) as (t & E & Ht & H16). exists t. split; [done|]. split; [done|].
  unfold new_pmt. rewrite wrap_small by (unfold word; lia). rewrite E. cbn [mbind option_bind]. by destruct (build t 0 ([], [])).
Qed.

Lemma extract_padded t pad : distinct_siblings = true -> top leaves t -> (t <= 16)%nat -> ((length (fst (enc t 0%Z)) + 7) / 8 = (length (fst (enc t 0%Z) ++ pad) + 7) / 8)%nat ->
  ExtractMatches null hash (mk_pmt n (fst (enc t 0) ++ pad) (snd (enc t 0)) false) [] =
    Some (merkle_root null hash leaves, map leaf selected, map Z.of_nat selected, false).
Proof.
  intros Hd Ht H16 Hpad. pose proof Ht as [Hw _]. assert (Hp : 0 <= 0 < w t) by lia. destruct (enc_sizes t 0 H16 Hp) as [L1 L2].
  assert (Lh : (length (snd (enc t 0%Z)) <= length leaves)%nat) by (unfold hi, lo in L1; lia).
  destruct (height_loop_spec 32 0 eq_refl ltac:(lia) ltac:(lia)) as (t' & E & Ht' & _). rewrite (top_unique leaves t' t Ht' Ht) in E.
  unfold ExtractMatches. cbn [nTransactions vBits vHash fBad]. change (MAX_BLOCK_BASE_SIZE / 60) with 33333.
  destruct (Z.eqb_spec n 0) as [?|_]; [lia|]. destruct (Z.ltb_spec 33333 n); [lia|]. destruct (Z.ltb_spec n (Z.of_nat (length (snd (enc t 0))))); [lia|].
  destruct (Nat.ltb_spec (length (fst (enc t 0) ++ pad)) (length (snd (enc t 0)))) as [Hx|_]; [rewrite length_app in Hx; lia|]. rewrite E. cbn [mbind option_bind].
  set (tr := mk_pmt n (fst (enc t 0) ++ pad) (snd (enc t 0)) false).
  rewrite (extract_built tr t 0 (mk_ex 0 0 [] [] false) Hd eq_refl H16 Hp).
  2: { exists [], pad, [], []. split; [done|]. split; [done|]. split; [cbn [vHash tr app]; by rewrite app_nil_r|done]. }
  unfold advanced. cbn [bad nBitsUsed nHashUsed matches vnIndex app Nat.add]. rewrite Hpad, !Nat.eqb_refl. cbn [negb].
  rewrite (chosen_top t Ht), (merkle_root_top null hash leaves t); [done|intros E'; rewrite E' in Hn; cbn in Hn; lia|done].
Qed.

(** ** What an accepted tree shows *)

(** The nodes that decoding opens, with the two hashes it computes below each:
    node [o_pos] of level [S o_height]. *)
Record opening := mk_opening { o_height : nat; o_pos : Z; o_left : A; o_right : A }.

Fixpoint opened (t : CPartialMerkleTree) (k : nat) (pos : Z) (s : extraction) : list opening :=
  if (length (vBits t) <=? nBitsUsed s)%nat || negb (nth (nBitsUsed s) (vBits t) false) then []
  else
    match k with
    | O => []
    | S k =>
        let '(hleft, s2) := TraverseAndExtract null hash t k (2 * pos) (bit_read s) in
        let ls := opened t k (2 * pos) (bit_read s) in
        if 2 * pos + 1 <? w k
        then mk_opening k pos hleft (fst (TraverseAndExtract null hash t k (2 * pos + 1) s2)) :: ls ++ opened t k (2 * pos + 1) s2
        else mk_opening k pos hleft hleft :: ls
    end.

(** The opened node has other children than in the block, and the same hash. *)
Definition forged (o : opening) : Prop :=
  (o_left o, o_right o) <> below (o_height o) (o_pos o) /\ hash (o_left o) (o_right o) = node (S (o_height o)) (o_pos o).

(** Every node that is opened below a node with the honest hash is honest, or
    one of them is forged. *)
Lemma opened_children k pos hl hr : forged (mk_opening k pos hl hr) \/ hash hl hr <> node (S k) pos \/ (hl, hr) = below k pos.
Proof.
  destruct (decide ((hl, hr) = below k pos)) as [|Hne]; [auto|]. destruct (decide (hash hl hr = node (S k) pos)); [left; split; done|auto].
Qed.

(** The matches that a subtree yields are in the block, or it opens a forged node. *)
Lemma extract_binds (t : CPartialMerkleTree) k pos s r s' : nTransactions t = n -> (k <= 16)%nat -> 0 <= pos < w k ->
  TraverseAndExtract null hash t k pos s = (r, s') -> bad s' = false ->
  bad s = false /\ exists ms ids, matches s' = matches s ++ ms /\ vnIndex s' = vnIndex s ++ ids /\
    (r = node k pos -> Forall2 (fun m i => 0 <= i < n /\ nth (Z.to_nat i) leaves null = m) ms ids \/ Exists forged (opened t k pos s)).
Proof.
  intros Ht. revert pos s r s'. induction k as [|k IH]; intros pos s r s' Hk Hp; cbn [TraverseAndExtract opened];
    (destruct (_ <=? _)%nat; [by intros [= <- <-]|]); cbn [orb]; fold (bit_read s).
  - unfold use_hash. destruct (_ <=? _)%nat; [by intros [= <- <-]|]. intros [= <- <-] Hb. split; [done|]. cbn [matches vnIndex bit_read nHashUsed] in *.
    destruct (nth _ (vBits t) false).
    + exists [nth (nHashUsed s) (vHash t) null], [pos]. split; [done|]. split; [done|]. intros Hr. left. constructor; [|constructor]. cbn [width] in Hp. split; [lia|done].
    + exists [], []. rewrite !app_nil_r. split; [done|]. split; [done|]. left. constructor.
  - destruct (negb _).
    { unfold use_hash. destruct (_ <=? _)%nat; [by intros [= <- <-]|]. intros [= <- <-] Hb. split; [done|]. exists [], []. cbn [matches vnIndex bit_read]. rewrite !app_nil_r. split; [done|]. split; [done|]. left. constructor. }
    pose proof (child k pos Hp). rewrite Ht. destruct (small_children k pos ltac:(lia) Hp) as (-> & -> & ->).
    destruct (TraverseAndExtract null hash t k (2 * pos) (bit_read s)) as [hl s2] eqn:El.
    destruct (Z.ltb_spec (2 * pos + 1) (w k)) as [Hc|Hc].
    + destruct (TraverseAndExtract null hash t k (2 * pos + 1) s2) as [hr s3] eqn:Er. intros [= <- <-] Hb.
      case_bool_decide; [done|]. destruct (IH (2 * pos + 1) s2 hr s3 ltac:(lia) ltac:(lia) Er Hb) as (Hb2 & ms2 & is2 & Em2 & Ei2 & Hg2).
      destruct (IH (2 * pos) (bit_read s) hl s2 ltac:(lia) ltac:(lia) El Hb2) as (Hb1 & ms1 & is1 & Em1 & Ei1 & Hg1). split; [done|].
      exists (ms1 ++ ms2), (is1 ++ is2). rewrite Em2, Ei2, Em1, Ei1, <-!app_assoc. split; [done|]. split; [done|]. intros Hr. cbn [fst]. rewrite Exists_cons, Exists_app.
      destruct (opened_children k pos hl hr) as [|[|E]]; [auto|done|]. unfold below in E. destruct (Z.ltb_spec (2 * pos + 1) (w k)); [|lia]. injection E as E1 E2.
      destruct (Hg1 E1) as [G1|]; [|auto]. destruct (Hg2 E2) as [G2|]; [|auto]. left. by apply Forall2_app.
    + intros [= <- <-] Hb. destruct (IH (2 * pos) (bit_read s) hl s2 ltac:(lia) ltac:(lia) El Hb) as (Hb1 & ms1 & is1 & Em1 & Ei1 & Hg1). split; [done|].
      exists ms1, is1. split; [done|]. split; [done|]. intros Hr. rewrite Exists_cons.
      destruct (opened_children k pos hl hl) as [|[|E]]; [auto|done|]. unfold below in E. injection E as E1 _. destruct (Hg1 E1); auto.
Qed.

(** What holds of every hash of the tree, of the null hash and of every hash of
    two, holds of every hash below an opened node. *)
Lemma extracted_hash (P : A -> Prop) (t : CPartialMerkleTree) k pos s : P null -> (forall a b, P (hash a b)) -> Forall P (vHash t) ->
  P (fst (TraverseAndExtract null hash t k pos s)).
Proof.
  intros P0 P2 Pv. assert (Hu : forall found p s', P (fst (use_hash null t found p s'))).
  { intros found p s'. unfold use_hash. destruct (Nat.leb_spec (length (vHash t)) (nHashUsed s')); [done|]. cbn [fst].
    destruct (lookup_lt_is_Some_2 (vHash t) (nHashUsed s') ltac:(lia)) as [x Hx]. rewrite (nth_lookup_Some _ _ _ _ Hx). exact (Forall_lookup_1 _ _ _ _ Pv Hx). }
  destruct k as [|k]; cbn [TraverseAndExtract]; (destruct (_ <=? _)%nat; [done|]); [apply Hu|]. destruct (negb _); [apply Hu|].
  destruct (TraverseAndExtract null hash t k (u32 (pos * 2)) _) as [hl s2]. destruct (_ <? _); [|apply P2].
  destruct (TraverseAndExtract null hash t k (u32 (pos * 2 + 1)) s2) as [hr s3]. apply P2.
Qed.

Lemma opened_hashes (P : A -> Prop) (t : CPartialMerkleTree) k pos s : P null -> (forall a b, P (hash a b)) -> Forall P (vHash t) -> 0 <= pos < w k ->
  Forall (fun o => P (o_left o) /\ P (o_right o) /\ 0 <= o_pos o < w (S (o_height o))) (opened t k pos s).
Proof.
  intros P0 P2 Pv. revert pos s. induction k as [|k IH]; intros pos s Hp; cbn [opened]; (destruct (_ || _); [constructor|]); [constructor|].
  pose proof (child k pos Hp). pose proof (extracted_hash P t k (2 * pos) (bit_read s) P0 P2 Pv) as Hl.
  destruct (TraverseAndExtract null hash t k (2 * pos) (bit_read s)) as [hl s2]. cbn [fst] in Hl.
  destruct (Z.ltb_spec (2 * pos + 1) (w k)); (constructor; [cbn [o_left o_right o_pos o_height]; split_and!; try apply extracted_hash; done || apply Hp|]); [apply Forall_app; split|]; apply IH; lia.
Qed.
End tree.

(** ** The flag bits in bytes *)

Definition pack_bits (vBits : list bool) (nb m : nat) : list Z :=
  fold_left (fun vBytes p => <[(p / 8)%nat := Z.lor vBytes.[(p / 8)%nat] ((if nth p vBits false then 1 else 0) ≪ Z.of_nat (p mod 8))]> vBytes)
    (seq 0 m) (replicate nb 0).

Lemma pack_bits_length vBits nb m : length (pack_bits vBits nb m) = nb.
Proof.
  unfold pack_bits. induction m as [|m IH]; [apply length_replicate|]. rewrite seq_S, fold_left_app. cbn [fold_left]. by rewrite length_insert.
Qed.

Lemma div8_inj p q : (p / 8 = q / 8)%nat -> (p mod 8 = q mod 8)%nat -> p = q.
Proof. intros H1 H2. rewrite (Nat.div_mod_eq p 8), (Nat.div_mod_eq q 8). congruence. Qed.

Lemma pack_bits_spec vBits nb m q : (m <= 8 * nb)%nat -> (q < 8 * nb)%nat ->
  Z.testbit (pack_bits vBits nb m).[(q / 8)%nat] (Z.of_nat (q mod 8)) = (q <? m)%nat && nth q vBits false.
Proof.
  intros Hm Hq. induction m as [|m IH].
  - unfold pack_bits. cbn [seq fold_left]. rewrite nth_replicate. apply Z.testbit_0_l.
  - assert (Hm8 : (m / 8 < nb)%nat) by (apply Nat.Div0.div_lt_upper_bound; lia). specialize (IH ltac:(lia)).
    assert (E : pack_bits vBits nb (S m) = <[(m / 8)%nat := Z.lor (pack_bits vBits nb m).[(m / 8)%nat] ((if nth m vBits false then 1 else 0) ≪ Z.of_nat (m mod 8))]> (pack_bits vBits nb m)).
    { unfold pack_bits. by rewrite seq_S, fold_left_app. }
    rewrite E, nth_lookup. destruct (decide (m / 8 = q / 8)%nat) as [Ed|Ed].
    + rewrite Ed, list_lookup_insert_eq by (rewrite pack_bits_length; lia). unfold from_option, id. rewrite Z.lor_spec, IH, Z.shiftl_spec by lia.
      destruct (decide (m = q)) as [->|Hne].
      * rewrite Nat.ltb_irrefl, Z.sub_diag. destruct (Nat.ltb_spec q (S q)); [|lia]. by destruct (nth q vBits false).
      * assert (Hr : (m mod 8 <> q mod 8)%nat) by (intros Hr; by apply Hne, div8_inj).
        assert (Z.testbit (if nth m vBits false then 1 else 0) (Z.of_nat (q mod 8) - Z.of_nat (m mod 8)) = false) as ->.
        { destruct (Z.lt_ge_cases (Z.of_nat (q mod 8)) (Z.of_nat (m mod 8))); [by rewrite Z.testbit_neg_r by lia|].
          destruct (nth m vBits false); [|apply Z.testbit_0_l]. change 1 with (2 ^ 0). rewrite Z.pow2_bits_false by lia. done. }
        rewrite orb_false_r. destruct (Nat.ltb_spec q m), (Nat.ltb_spec q (S m)); lia || done.
    + rewrite list_lookup_insert_ne, <-nth_lookup, IH by done. destruct (Nat.ltb_spec q m), (Nat.ltb_spec q (S m)); try lia; try done. assert (q = m) by lia. congruence.
Qed.

Lemma unpack_pack vBits : exists pad, unpack (pack vBits) = vBits ++ pad /\ ((length vBits + 7) / 8 = (length (vBits ++ pad) + 7) / 8)%nat.
Proof.
  set (nb := ((length vBits + 7) / 8)%nat). assert (Hb : (length vBits <= 8 * nb)%nat).
  { pose proof (Nat.div_mod_eq (length vBits + 7) 8). pose proof (Nat.mod_upper_bound (length vBits + 7) 8). unfold nb. lia. }
  change (pack vBits) with (pack_bits vBits nb (length vBits)). exists (replicate (8 * nb - length vBits) false). split.
  - apply list_eq. intros q. unfold unpack. rewrite pack_bits_length, list_lookup_fmap. destruct (decide (q < 8 * nb)%nat) as [Hq|Hq].
    + rewrite lookup_seq_lt by lia. cbn [fmap option_fmap option_map Nat.add]. rewrite flag_set, pack_bits_spec by lia.
      destruct (Nat.ltb_spec q (length vBits)).
      * rewrite lookup_app_l by done. destruct (lookup_lt_is_Some_2 vBits q ltac:(done)) as [x Hx]. by rewrite Hx, (nth_lookup_Some vBits q false x Hx).
      * rewrite lookup_app_r, lookup_replicate_2 by lia. done.
    + rewrite lookup_seq_ge by lia. cbn [fmap option_fmap option_map]. symmetry. apply lookup_ge_None_2. rewrite length_app, length_replicate. lia.
  - rewrite length_app, length_replicate. fold nb. replace (length vBits + (8 * nb - length vBits) + 7)%nat with (7 + nb * 8)%nat by lia.
    rewrite Nat.div_add by lia. done.
Qed.

(** ** The theorem *)

Lemma node_length b (vTxid : list (list Z)) k pos : length b = 64%nat -> Forall (fun h => length h = 32%nat) vTxid -> 0 <= pos < width vTxid k ->
  length (pnode null256 (Hash2 b) vTxid k pos) = 32%nat.
Proof.
  intros Hb Hl Hp. destruct k as [|k]; cbn [pnode].
  - cbn [width] in Hp. destruct (lookup_lt_is_Some_2 vTxid (Z.to_nat pos) ltac:(lia)) as [x Hx]. rewrite (nth_lookup_Some _ _ _ _ Hx). exact (Forall_lookup_1 _ _ _ _ Hl Hx).
  - by rewrite Hash2_spec, length_sha256.
Qed.

Lemma enc_hash_lengths b (vTxid : list (list Z)) vMatch k pos : length b = 64%nat -> 0 < Z.of_nat (length vTxid) <= 33333 -> Forall (fun h => length h = 32%nat) vTxid ->
  (k <= 16)%nat -> 0 <= pos < width vTxid k ->
  Forall (fun h => length h = 32%nat) (snd (TraverseAndBuild null256 (Hash2 b) (Z.of_nat (length vTxid)) vTxid vMatch k pos ([], []))).
Proof.
  intros Hb Hn Hl. revert pos. induction k as [|k IH]; intros pos Hk Hp.
  - rewrite enc_leaf by done. cbn [snd]. constructor; [by apply node_length|constructor].
  - rewrite enc_node by (done || lia). destruct (negb _); [cbn [snd]; constructor; [by apply node_length|constructor]|]. cbv zeta. cbn [snd].
    pose proof (child vTxid k pos Hp). apply Forall_app. split; [apply IH; lia|]. destruct (Z.ltb_spec (2 * pos + 1) (width vTxid k)); [apply IH; lia|constructor].
Qed.

(** The nodes that decoding the tree [t] opens in a block of identifiers [vTxid]. *)
Definition opened_by (b : list Z) (vTxid : list (list Z)) (t : CPartialMerkleTree) : list (opening (A := list Z)) :=
  match height_loop 32 (nTransactions t) 0 with
  | Some k => opened null256 (Hash2 b) vTxid t k 0 (mk_ex 0 0 [] [] (fBad t))
  | None => []
  end.

(** The 64 bytes hashed at an opened node, and those of the block at its place,
    differ and have the same double SHA-256. *)
Definition clashes (b : list Z) (vTxid : list (list Z)) (o : opening (A := list Z)) : Prop :=
  let honest := below null256 (Hash2 b) vTxid (o_height o) (o_pos o) in
  o_left o ++ o_right o <> fst honest ++ snd honest /\
  sha256 (sha256 (o_left o ++ o_right o)) = sha256 (sha256 (fst honest ++ snd honest)).

Lemma forged_clashes b vTxid t k s : length b = 64%nat -> 0 < Z.of_nat (length vTxid) -> Forall (fun h => length h = 32%nat) vTxid ->
  Forall (fun h => length h = 32%nat) (vHash t) -> 0 < width vTxid k ->
  Exists (forged null256 (Hash2 b) vTxid) (opened null256 (Hash2 b) vTxid t k 0 s) -> Exists (clashes b vTxid) (opened null256 (Hash2 b) vTxid t k 0 s).
Proof.
  intros Hb Hn Hl Hv Hk Hx.
  pose proof (opened_hashes null256 (Hash2 b) vTxid (fun h => length h = 32%nat) t k 0 s eq_refl ltac:(intros; by rewrite Hash2_spec, length_sha256) Hv ltac:(lia)) as Ho.
  rewrite Exists_exists in Hx. destruct Hx as (o & Hin & Hne & E). rewrite Forall_forall in Ho. destruct (Ho o Hin) as (L1 & L2 & Hp).
  rewrite Exists_exists. exists o. split; [done|]. unfold clashes. cbv zeta. pose proof (child vTxid _ _ Hp).
  assert (L3 : length (fst (below null256 (Hash2 b) vTxid (o_height o) (o_pos o))) = 32%nat) by (apply node_length; done || lia).
  rewrite !Hash2_spec in E by done. split; [|rewrite E; cbn [pnode]; rewrite Hash2_spec by done; reflexivity].
  intros Em. apply Hne. apply app_inj_1 in Em as [E1 E2]; [|congruence]. rewrite E1, E2. by destruct (below _ _ _ _ _).
Qed.

(** C18: Partial Merkle trees are exact and binding.  For the identifiers of the 1 to 33333 transactions of a block, no two siblings of its Merkle tree being equal (the condition the decoder tests), and any selection of them, the constructor succeeds, and the tree, written, read back with the padding of its last byte and decoded, gives the Merkle root of the block, exactly the selected identifiers and their positions in order.  Conversely, whatever tree of that many transactions and of 32-byte hashes a peer sends, if ExtractMatches returns the root of the block, and that is not the null hash that stands for a failure, then every identifier it yields is that of the transaction at the position it yields, unless at one of the nodes that decoding opens the 64 bytes it hashes differ from those of the block at that place and have the same double SHA-256. *)
Theorem partial_merkle_exact_and_binding (b : list Z) (grow : Z) (vTxid : list (list Z)) (vMatch : list bool) (rest : list Z) :
  length b = 64%nat -> 0 < grow -> 0 < Z.of_nat (length vTxid) <= 33333 -> Forall (fun h => length h = 32%nat) vTxid ->
  let root := merkle_root null256 (Hash2 b) vTxid in
  (distinct_siblings null256 (Hash2 b) vTxid = true ->
   exists t t', new_pmt null256 (Hash2 b) vTxid vMatch = Some t /\ Unserialize_pmt grow (Serialize_pmt t ++ rest) = Some (t', rest) /\
     ExtractMatches null256 (Hash2 b) t' [] =
       Some (root, map (fun p => nth p vTxid null256) (selected vTxid vMatch), map Z.of_nat (selected vTxid vMatch), false)) /\
  (forall t m ids bad, nTransactions t = Z.of_nat (length vTxid) -> Forall (fun h => length h = 32%nat) (vHash t) -> root <> null256 ->
     ExtractMatches null256 (Hash2 b) t [] = Some (root, m, ids, bad) ->
     Forall2 (fun h i => 0 <= i < Z.of_nat (length vTxid) /\ nth (Z.to_nat i) vTxid null256 = h) m ids \/
     Exists (clashes b vTxid) (opened_by b vTxid t)).
Proof.
  intros Hb Hg Hn Hl root. destruct (new_pmt_spec null256 (Hash2 b) vTxid Hn vMatch) as (k & Hk & H16 & Et).
  set (bits := fst (TraverseAndBuild _ _ _ _ _ _ _ _)) in Et. set (hashes := snd (TraverseAndBuild _ _ _ _ _ _ _ _)) in Et.
  destruct (unpack_pack bits) as (pad & Eu & Hpad). pose proof Hk as [Hw _]. assert (Hp : 0 <= 0 < width vTxid k) by lia. split.
  - intros Hd. pose proof (extract_padded null256 (Hash2 b) vTxid Hn vMatch k pad Hd Hk H16 Hpad) as Hx.
    exists (mk_pmt (Z.of_nat (length vTxid)) bits hashes false), (mk_pmt (Z.of_nat (length vTxid)) (bits ++ pad) hashes false). split; [done|]. split; [|exact Hx].
    unfold Serialize_pmt, Unserialize_pmt. cbn [nTransactions vHash vBits]. rewrite <-!app_assoc, round_trip by (unfold word; lia). cbn [mbind option_bind].
    destruct (enc_sizes null256 (Hash2 b) vTxid Hn vMatch k 0 H16 Hp) as [L1 L2]. cbv beta in L1, L2. fold bits hashes in L1, L2.
    assert (Hh : (length hashes <= length vTxid)%nat) by (unfold hi, lo in L1; lia).
    rewrite (round_trip (RoundTrip := vector_round_trip id (read 32) (fun h => length h = 32%nat) grow Hg (blob_round_trip 32))).
    2: { split; [unfold short, MAX_SIZE; lia|]. by apply enc_hash_lengths. }
    cbn [mbind option_bind]. rewrite round_trip; [cbn [mbind option_bind]; by rewrite Eu|].
    pose proof (enc_bits null256 (Hash2 b) vTxid Hn vMatch k 0 H16 Hp) as Lb. cbv beta in Lb. fold bits in Lb. assert (L17 : Z.of_nat (2 ^ S k) <= 2 ^ 17) by (rewrite Nat2Z.inj_pow; apply Z.pow_le_mono_r; lia).
    unfold short, MAX_SIZE. change (pack bits) with (pack_bits bits ((length bits + 7) / 8) (length bits)). rewrite pack_bits_length.
    clearbody bits. clear - Lb L17. pose proof (Nat.div_mod_eq (length bits + 7) 8). lia.
  - intros t m ids bd Ht Hv Hr. unfold ExtractMatches, opened_by. rewrite Ht. destruct (Z.eqb_spec (Z.of_nat (length vTxid)) 0); [lia|].
    destruct (_ <? _); [intros [= E]; congruence|]. destruct (_ <? _); [intros [= E]; congruence|]. destruct (_ <? _)%nat; [intros [= E]; congruence|].
    destruct (height_loop_spec vTxid Hn 32 0 eq_refl ltac:(lia) ltac:(lia)) as (k' & -> & Hk' & _). rewrite (top_unique vTxid k' k Hk' Hk). cbn [mbind option_bind].
    destruct (TraverseAndExtract null256 (Hash2 b) t k 0 _) as [r s] eqn:E. destruct (bad s) eqn:Ebad; [intros [= E']; congruence|].
    destruct (negb _); [intros [= E']; congruence|]. destruct (negb _); [intros [= E']; congruence|]. intros [= -> <- <- _].
    destruct (extract_binds null256 (Hash2 b) vTxid Hn t k 0 _ _ _ Ht H16 Hp E Ebad) as (_ & ms & ids & Em & Ei & Hgood). cbn [matches vnIndex app] in Em, Ei. rewrite Em, Ei.
    destruct Hgood as [Hgood|Hgood]; [|by left|right; apply forged_clashes; done || lia].
    unfold root. apply merkle_root_top; [intros E'; rewrite E' in Hn; cbn in Hn; lia|done].
Qed.

(** ** Witness *)

Lemma partial_merkle_witness :
  (exists t t', new_pmt null256 (Hash2 (replicate 64 0)) six [false; true; false; false; true; false] = Some t /\
    Unserialize_pmt 156250 (Serialize_pmt t ++ [7]) = Some (t', [7]) /\
    ExtractMatches null256 (Hash2 (replicate 64 0)) t' [] =
      Some (merkle_root null256 (Hash2 (replicate 64 0)) six, [replicate 32 2; replicate 32 5], [1; 4], false)) /\
  (forall t m ids bad, nTransactions t = 6 -> Forall (fun h => length h = 32%nat) (vHash t) ->
     ExtractMatches null256 (Hash2 (replicate 64 0)) t [] = Some (merkle_root null256 (Hash2 (replicate 64 0)) six, m, ids, bad) ->
     Forall2 (fun h i => 0 <= i < 6 /\ nth (Z.to_nat i) six null256 = h) m ids \/
     Exists (clashes (replicate 64 0) six) (opened_by (replicate 64 0) six t)).
Proof.
  destruct (partial_merkle_exact_and_binding (replicate 64 0) 156250 six [false; true; false; false; true; false] [7]
    eq_refl eq_refl ltac:(cbn; lia) ltac:(repeat constructor)) as [H1 H2].
  assert (Hd : distinct_siblings null256 (Hash2 (replicate 64 0)) six = true) by (vm_compute; reflexivity).
  assert (Hr : bool_decide (merkle_root null256 (Hash2 (replicate 64 0)) six = null256) = false) by (vm_compute; reflexivity).
  apply bool_decide_eq_false_1 in Hr. split; [exact (H1 Hd)|]. intros t m ids bad Ht Hv. exact (H2 t m ids bad Ht Hv Hr).
Defined.
